(* ===== verification/_CoqProject ===== *)
-Q . S2P
Prelude.v
Ir.v
IrTyping.v
Jitter.v
BeX86.v
BeGen.v
X86Sem.v
X86Exec.v
X86Correct.v
X86Alloc.v
X86Select.v
X86Const.v
X86Sim.v
X86Compile.v
X86Theorems.v
CodeCache.v
CacheSpec.v
CacheThreads.v
Loop.v
LoopBlocks.v
LoopExec.v
LoopTheorems.v
Main.v
Mutex.v
IrRequests.v
FrontGen.v
FrontWp.v
FrontTyped.v
TargetGen.v
ArmPseudo.v
Arm64Gen.v
Arm64Dis.v
Arm64DisData.v
Arm64Simd.v
Arm64Decode.v
Arm64Typed.v
Arm64Helpers.v
Arm64Isa.v
Arm64Wp.v
Arm64Sim.v
Arm64Fields.v
Arm64Rules.v
Arm64Alu.v
Arm64Bits.v
Arm64Memory.v
Arm64Target.v
Arm64Machine.v
Arm64Signal.v
Arm64Theorems.v
Arm32Gen.v
Arm32Dis.v
Arm32DisMisc.v
Arm32Vfp.v
Arm32Decode.v
Arm32Typed.v
ThumbGen.v
ThumbDis16.v
ThumbDis32.v
ThumbDecode.v
ThumbTyped.v
ThumbIt.v
Arm32Target.v
Arm32Helpers.v
Arm32Isa.v
Arm32Fields.v
Arm32Sim.v
Arm32Rules.v
Arm32Alu.v
Arm32Memory.v
Arm32Bits.v
Arm32Machine.v
Arm32Theorems.v
Arm32Signal.v
Vma.v
VmaList.v
VmaOps.v
VmaKernel.v
VmaSignal.v
VmaTheorems.v
