(* ===== verification/Prelude.v ===== *)
(** * Umeq: a verification library

    Umeq runs ARM and AArch64 Linux programs on x86_64 Linux, like qemu's user
    mode: it translates guest code into host code, block by block, while the
    guest's system calls and memory stay those of the host process.  This
    library models the translator in Rocq, from the sources under [src/], and
    proves what makes it correct.

    ** The program and its parts

    - [src/src/main.c]: the options, the choice of a memory profile, and the
      loop that looks the guest pc up in a cache, translates the block when it
      is not there, executes it and goes on at the pc that comes back.
    - [src/src/target/arm64], [src/src/target/arm]: the two guests.
      [disassembler/] reads guest instructions and describes them to a builder;
      [arm64.c], [arm.c] and the [syscall/*_signal.c] keep the context of a
      thread.
    - [src/src/jitter/jitter.c]: the builder of blocks of an intermediate
      representation (IR), one call per IR instruction.
    - [src/src/jitter/x86_64/be_x86_64.c]: from a block to x86_64 bytes, by
      instruction selection, register allocation and code generation.
    - [src/src/cache/]: the translated blocks, found by guest pc, with links
      from the end of a block to the next one patched into the code.
    - [src/src/target/memory/mmap_common.c]: which guest addresses are mapped.
    - [src/src/runtime/]: what the static binary has instead of a C library.

    The loop calls the cache, the builder with the front end behind it, the
    back end and the code; the code calls helpers of the front end and leaves
    the address of its last exit, which the loop patches.  Guest addresses are
    host addresses: guest, contexts and caches share one memory.

    ** Conventions

    A [w]-bit integer is a [Z], wrapped where the code wraps ([wrap],
    [to_signed] below).  A memory is a byte per 64-bit address.  A function
    that may stop on an assertion, [fatal] or a wild pointer returns an option;
    state is passed, or threaded by the monad of this file.  Pools are lists
    and a pointer into one the index of the object.  C code outside of [src/]
    (the kernel, the host processor) is a parameter or a reference semantics
    of its own, with its documented laws in a class.

    ** The builder and the back end

    - [Ir.v]: the IR ([jitter_types.h]) and its reference semantics [ir_run];
      [IrTyping.v]: a static check under which a block runs to an exit.
    - [Jitter.v]: [jitter.c].  [irAlloc_run] is the table of functions of
      [struct irInstructionAllocator], a session a list of requests.
      Theorems: what each request does on every path, the well-formedness of
      what is built, the bounds of the pools.
    - [BeX86.v], [BeGen.v]: the three passes of [be_x86_64.c], [jit], [patch],
      [findInsn], down to the bytes.
    - [X86Sem.v]: what the bytes mean, a decoder and interpreter after the
      architecture manual.  [X86Exec.v], [X86Correct.v]: the
      bytes of every instruction do what is meant, at all widths.
    - [X86Alloc.v], [X86Select.v], [X86Sim.v], [X86Const.v]: passes 2 and 1.
      Narrow registers may have stale upper bits; [clean_ok] is the condition
      on a block under which this does not show, and a closed example shows
      that it is needed.  Results of calls are among them unless the helpers
      zero-extend ([CallResults]), as those of a compiled umeq do: blocks with
      conditional guest instructions rely on it.
    - [X86Compile.v], [X86Theorems.v]: the composition, from the requests to
      the value and the memory the code returns, and chaining: an exit to a
      constant leaves its link area when it is reached unpatched, and goes
      where it was patched to.  Code is written before its size is tested, so
      [jit] is modelled with the memory it overwrites and the bound on what a
      block compiles to; [adcs_overruns_buffer] ([Arm32Typed.v]) is a guest
      block that writes past the end of the loop's buffer.

    ** The caches and the loop

    - [CodeCache.v], [CacheSpec.v]: [cache.c] and [cacheNone.c] as bytes of an
      area, and their refinement of finite maps over any history of calls.
    - [CacheThreads.v]: [lookup] step by step, interleaved with other threads
      and with requests to clean; when a request reaches every cache, and an
      interleaving that loses one.
    - [Loop.v]: [loop_common].  [LoopBlocks.v], [LoopExec.v]: the invariant of
      the cache and its links, and executions through linked blocks.
      [LoopTheorems.v]: the loop refines the guest program (the function from
      pc and memory to pc and memory its blocks mean), links cannot loop, the
      loop stops; without a cache it is exact.
    - [Main.v]: [loop_cache], [loop_nocache], profiles, limits, options.

    ** The AArch64 guest

    - [FrontGen.v]: what any front end asks the builder for; [IrRequests.v],
      [FrontWp.v]: what the requests mean, and rules to reason about them, for
      the states of any guest.  [FrontTyped.v]: which requests the builder
      accepts.  [ArmPseudo.v]: the architecture's pseudocode that both
      instruction sets share, and the networks that reverse bits.
    - [Arm64Gen.v] to [Arm64Decode.v]: every function of
      [arm64_disassembler.c], as the requests it makes (the SIMD unit
      included); [Arm64Helpers.v]: the helpers that only compute.
      [Arm64Typed.v]: any block is a session the builder accepts, given room.
    - [Arm64Isa.v]: 27 classes of integer, branch and memory instructions
      after the architecture's pseudocode, independently of the front end.
    - [Arm64Wp.v], [Arm64Sim.v], [Arm64Rules.v]: rules to run the front end
      symbolically on a guest state; [Arm64Fields.v]: decoding and flags;
      [Arm64Alu.v], [Arm64Bits.v], [Arm64Memory.v]: the classes one by one.
    - [TargetGen.v]: what the targets share; [Arm64Target.v]: contexts, signal
      frames, [sigaction], [sigaltstack]; [Arm64Signal.v]: what a program, a
      thread and a handler start with, the [siginfo] a handler is shown
      included, and that a signal whose handler returns is transparent.
    - [Arm64Machine.v], [Arm64Theorems.v]: blocks, and the front end as the
      loop's target.  [program_runs] is the end of the chain: a program of the
      architecture, run by this front end, builder, back end, cache and loop,
      is at states the architecture allows, and each turn succeeds.  An
      instance of all the interfaces, and a guest, show that it applies.

    ** The ARM guest

    - [Arm32Gen.v], [Arm32Dis.v], [Arm32DisMisc.v], [Arm32Vfp.v],
      [Arm32Decode.v]: every function of [arm_disassembler.c] and
      [arm_common_disassembler.c]; [Arm32Helpers.v]: the helpers that compute,
      and the exclusive accesses.  [Arm32Typed.v]: any block is a session the
      builder accepts, given room.
    - [Arm32Isa.v]: 16 classes of conditional integer, branch, memory and media
      instructions after the architecture.  [Arm32Sim.v], [Arm32Rules.v],
      [Arm32Fields.v], [Arm32Alu.v], [Arm32Memory.v], [Arm32Bits.v]: as for
      AArch64; guest addresses have 32 bits, at an offset in the memory of the
      host.
    - [Arm32Target.v]: all of [arm.c] and [arm_signal.c] but the wrappers the
      host calls; [Arm32Signal.v]: a signal is transparent, and one that
      arrives in translated code leaves [in_signal_location] of the new
      context as it found it.  [Arm32Machine.v],
      [Arm32Theorems.v]: blocks, the front end as the loop's target, and
      [arm_program_runs], the end of the chain for ARM programs.
    - [ThumbGen.v], [ThumbDis16.v], [ThumbDis32.v], [ThumbDecode.v]: every
      function of [thumb_disassembler.c], over what it shares with ARM.
      [ThumbTyped.v]: the same for its blocks, and the one instruction that
      stops the translator.  [ThumbIt.v]: the IT block, whose state the
      translator and the guest both have, is the architecture's at every exit.

    ** The rest of the process

    - [Vma.v]: the list of mapped ranges, its pool, and the memory system calls
      of both guests.  [VmaList.v], [VmaOps.v], [VmaKernel.v],
      [VmaTheorems.v]: the list is a map from addresses to types, is never
      given out twice, and agrees with the kernel's mappings over any session
      but for the pages of fixed mappings that failed: the kernel may have
      lost what was there, and the list still has it.
    - [VmaSignal.v]: [internal_mmap_signal] step by step; calls that interleave
      get disjoint memory if one at a time is at the cursor, and not otherwise.
    - [Mutex.v]: the futex lock of [pthread.c], as steps of any number of
      threads; it refines an atomic lock and loses no wake up.

    ** Fuel and bounds

    The loop's executions and chains of links take fuel; the theorems give
    some that suffices (a chain is at most as long as the cache has blocks,
    since links only lead forward).  The front end's loop takes the [maxInsn]
    turns that the code takes.  [lookup_pc] may not return, which is proved.
    Sizes of buffers, pools and profiles are those of the code; that a block
    fits them is a condition of the loop's theorems ([block_ready], decidable
    and evaluated for the guests of the examples), since the code only asserts
    it.

    ** What is not modelled

    - The helpers with effects (exclusive accesses, system calls, SIMD and
      floating point arithmetic over SoftFloat) are addresses that the code
      calls; the instruction theorems do not cover the instructions that use
      them, nor the 64-bit divisions and [EXTR] by 0, which the front end gets
      wrong.
    - [Arm32Isa.v] leaves out shifts by a register holding 32 or more, alignment
      faults, what the architecture calls unpredictable, and the parallel, GE
      and saturating media instructions.  Thumb, VFP and Neon instructions are modelled
      as requests, and proved accepted; what they compute is not.
    - Code that changes while it runs is covered without a cache only.
    - Thread creation ([*_clone.c]), the i386 back end, the
      loaders, the adapters and forwarding of system calls, ptrace and printing.
    - The assembly trampolines: [execute_be_x86_64] is the entry convention of
      the machine, [restore_be_x86_64] (leaving a signal handler elsewhere) is
      the value [AlternateExit]. *)

From stdpp Require Export base option list numbers gmap relations.
From Stdlib Require Export ZArith Lia Bool.

#[global] Open Scope Z_scope.

(** ** Machine integers *)

(** An unsigned [w]-bit C integer is a [Z] kept in [0, 2^w). *)
Definition wrap (w z : Z) : Z := z mod 2 ^ w.

(** The two's complement reading of the low [w] bits. *)
Definition to_signed (w z : Z) : Z :=
  let u := wrap w z in if u <? 2 ^ (w - 1) then u else u - 2 ^ w.

(** Byte [k] of an integer, as the C code extracts it:
    [(v >> 8 * k) & 0xff]. *)
Definition byte_of (v k : Z) : Z := Z.land (Z.shiftr v (8 * k)) 255.

(** Little-endian reading of a list of bytes. *)
Fixpoint le_join (bs : list Z) : Z :=
  match bs with
  | [] => 0
  | b :: bs => b + 256 * le_join bs
  end.

(** The [n] low bytes of [v], least significant first. *)
Fixpoint le_bytes (n : nat) (v : Z) : list Z :=
  match n with
  | O => []
  | S n => v mod 256 :: le_bytes n (v / 256)
  end.

Lemma wrap_range w z : 0 <= w -> 0 <= wrap w z < 2 ^ w.
Proof. intros. apply Z.mod_pos_bound. lia. Qed.

Lemma wrap_small w z : 0 <= z < 2 ^ w -> wrap w z = z.
Proof. apply Z.mod_small. Qed.

Lemma wrap_wrap w v z : 0 <= w <= v -> wrap w (wrap v z) = wrap w z.
Proof.
  intros. unfold wrap. replace (2 ^ v) with (2 ^ (v - w) * 2 ^ w).
  - rewrite Z.mul_comm, Z.rem_mul_r by lia.
    rewrite Z.mul_comm, Z.mod_add, Z.mod_mod by lia. done.
  - rewrite <- Z.pow_add_r by lia. f_equal. lia.
Qed.

Lemma wrap_idem w z : 0 <= w -> wrap w (wrap w z) = wrap w z.
Proof. intros. apply wrap_wrap. lia. Qed.

Lemma wrap_add_l w a b : wrap w (wrap w a + b) = wrap w (a + b).
Proof. unfold wrap. apply Zplus_mod_idemp_l. Qed.

Lemma wrap_add_r w a b : wrap w (a + wrap w b) = wrap w (a + b).
Proof. unfold wrap. apply Zplus_mod_idemp_r. Qed.

Lemma wrap_sub_l w a b : wrap w (wrap w a - b) = wrap w (a - b).
Proof. unfold wrap. apply Zminus_mod_idemp_l. Qed.

Lemma wrap_sub_r w a b : wrap w (a - wrap w b) = wrap w (a - b).
Proof. unfold wrap. apply Zminus_mod_idemp_r. Qed.

Lemma wrap_land_ones w z : 0 <= w -> Z.land z (Z.ones w) = wrap w z.
Proof. intros. unfold wrap. by apply Z.land_ones. Qed.

Lemma testbit_wrap w z i :
  0 <= w -> Z.testbit (wrap w z) i = (i <? w) && Z.testbit z i.
Proof.
  intros. rewrite <- wrap_land_ones by done. rewrite Z.land_spec.
  destruct (decide (i < 0)).
  - rewrite !Z.testbit_neg_r by done. by rewrite !andb_false_r.
  - destruct (Z.ltb_spec i w).
    + rewrite Z.ones_spec_low by lia. by rewrite andb_true_r.
    + rewrite Z.ones_spec_high by lia. by rewrite andb_false_r.
Qed.

Lemma byte_of_range v k : 0 <= byte_of v k < 256.
Proof.
  unfold byte_of. rewrite (Z.land_ones _ 8) by lia. apply Z.mod_pos_bound. lia.
Qed.

Lemma byte_of_div v k : 0 <= k -> byte_of v k = (v / 256 ^ k) mod 256.
Proof.
  intros. unfold byte_of. rewrite (Z.land_ones _ 8) by lia.
  rewrite Z.shiftr_div_pow2 by lia. by rewrite Z.pow_mul_r by lia.
Qed.

Lemma le_join_bytes n v : le_join (le_bytes n v) = wrap (8 * Z.of_nat n) v.
Proof.
  revert v. induction n as [|n IH]; intros v; cbn -[Z.mul Z.of_nat].
  - unfold wrap. by rewrite Z.mod_1_r.
  - rewrite IH. unfold wrap.
    replace (8 * Z.of_nat (S n)) with (8 + 8 * Z.of_nat n) by lia.
    rewrite (Z.pow_add_r 2 8) by lia. change (2 ^ 8) with 256.
    assert (0 < 2 ^ (8 * Z.of_nat n)) by lia.
    rewrite (Z.rem_mul_r v 256) by lia. done.
Qed.

(** The eight-byte immediates the code generators spell out byte by byte. *)
Lemma le_join_byte_of v :
  le_join [byte_of v 0; byte_of v 1; byte_of v 2; byte_of v 3;
           byte_of v 4; byte_of v 5; byte_of v 6; byte_of v 7] = wrap 64 v.
Proof.
  change (wrap 64 v) with (wrap (8 * Z.of_nat 8) v).
  rewrite <- (le_join_bytes 8 v). cbn [le_bytes]. rewrite !byte_of_div by lia.
  rewrite !Zdiv_Zdiv by lia. rewrite Z.div_1_r. done.
Qed.

Lemma le_join_byte_of4 v :
  le_join [byte_of v 0; byte_of v 1; byte_of v 2; byte_of v 3] = wrap 32 v.
Proof.
  change (wrap 32 v) with (wrap (8 * Z.of_nat 4) v).
  rewrite <- (le_join_bytes 4 v). cbn [le_bytes]. rewrite !byte_of_div by lia.
  rewrite !Zdiv_Zdiv by lia. rewrite Z.div_1_r. done.
Qed.

(** ** Arithmetic on the low bits *)

Section low_bits.
Context (n : Z) (Hn : 0 <= n <= 64).

Lemma wrap_bitwise f g :
  (forall a b i, 0 <= i -> Z.testbit (f a b) i = g (Z.testbit a i) (Z.testbit b i)) ->
  forall a b, wrap n (f a b) = wrap n (f (wrap n a) (wrap n b)).
Proof.
  intros H a b. apply Z.bits_inj'. intros i Hi. rewrite !testbit_wrap, !H, !testbit_wrap by lia.
  by destruct (i <? n).
Qed.

Lemma wrap_lxor a b : wrap n (Z.lxor a b) = wrap n (Z.lxor (wrap n a) (wrap n b)).
Proof. apply (wrap_bitwise Z.lxor xorb). intros. by apply Z.lxor_spec. Qed.
Lemma wrap_land a b : wrap n (Z.land a b) = wrap n (Z.land (wrap n a) (wrap n b)).
Proof. apply (wrap_bitwise Z.land andb). intros. by apply Z.land_spec. Qed.
Lemma wrap_lor a b : wrap n (Z.lor a b) = wrap n (Z.lor (wrap n a) (wrap n b)).
Proof. apply (wrap_bitwise Z.lor orb). intros. by apply Z.lor_spec. Qed.

Lemma wrap_add a b : wrap n (a + b) = wrap n (wrap n a + wrap n b).
Proof. by rewrite wrap_add_l, wrap_add_r. Qed.
Lemma wrap_sub a b : wrap n (a - b) = wrap n (wrap n a - wrap n b).
Proof. by rewrite wrap_sub_l, wrap_sub_r. Qed.

Lemma wrap_shiftl a c : 0 <= c -> wrap n (Z.shiftl a c) = wrap n (Z.shiftl (wrap n a) c).
Proof.
  intros Hc. rewrite !Z.shiftl_mul_pow2 by done. unfold wrap. by rewrite Zmult_mod_idemp_l.
Qed.

Lemma to_signed_wrap a : to_signed n (wrap n a) = to_signed n a.
Proof. unfold to_signed. by rewrite wrap_idem by lia. Qed.

Lemma to_signed_range a : 0 < n -> - 2 ^ (n - 1) <= to_signed n a < 2 ^ (n - 1).
Proof.
  intros H0. unfold to_signed. pose proof (wrap_range n a ltac:(lia)).
  assert (2 ^ n = 2 * 2 ^ (n - 1)) by (rewrite <- Z.pow_succ_r by lia; f_equal; lia).
  destruct (Z.ltb_spec (wrap n a) (2 ^ (n - 1))); lia.
Qed.

Lemma to_signed_eq s : 0 < n -> - 2 ^ (n - 1) <= s < 2 ^ (n - 1) -> to_signed n (wrap n s) = s.
Proof.
  intros H0 Hs. rewrite to_signed_wrap. unfold to_signed.
  assert (2 ^ n = 2 * 2 ^ (n - 1)) by (rewrite <- Z.pow_succ_r by lia; f_equal; lia).
  unfold wrap. destruct (Z_le_gt_dec 0 s).
  - rewrite Z.mod_small by lia. destruct (Z.ltb_spec s (2 ^ (n - 1))); lia.
  - replace (s mod 2 ^ n) with (s + 2 ^ n).
    + destruct (Z.ltb_spec (s + 2 ^ n) (2 ^ (n - 1))); lia.
    + rewrite <- (Z.mod_small (s + 2 ^ n) (2 ^ n)) by lia.
      replace (s + 2 ^ n) with (s + 1 * 2 ^ n) by lia. by rewrite Z.mod_add by lia.
Qed.
End low_bits.

Lemma testbit_to_signed n a i :
  0 < n -> 0 <= i -> Z.testbit (to_signed n a) i = Z.testbit a (Z.min i (n - 1)).
Proof.
  intros Hn Hi. unfold to_signed.
  assert (E : 2 ^ n = 2 * 2 ^ (n - 1)) by (rewrite <- Z.pow_succ_r by lia; f_equal; lia).
  pose proof (wrap_range n a ltac:(lia)) as Hr.
  assert (Htop : Z.testbit a (n - 1) = negb (wrap n a <? 2 ^ (n - 1))).
  { transitivity (Z.testbit (wrap n a) (n - 1)).
    { rewrite testbit_wrap by lia. destruct (Z.ltb_spec (n - 1) n); [done|lia]. }
    rewrite Z.testbit_odd, Z.shiftr_div_pow2 by lia.
    destruct (Z.ltb_spec (wrap n a) (2 ^ (n - 1))).
    - by rewrite Z.div_small by lia.
    - replace (wrap n a / 2 ^ (n - 1)) with 1; [done|].
      apply Z.div_unique with (wrap n a - 2 ^ (n - 1)); lia. }
  destruct (Z.ltb_spec (wrap n a) (2 ^ (n - 1))) as [Hlt|Hge].
  - rewrite testbit_wrap by lia. destruct (Z.ltb_spec i n).
    + destruct (Z.eq_dec i (n - 1)) as [->|]; rewrite Z.min_l by lia; done.
    + rewrite Z.min_r by lia. by rewrite Htop.
  - destruct (Z.ltb_spec i n).
    + rewrite Z.min_l by lia.
      replace (wrap n a - 2 ^ n) with (wrap n a + (-1) * 2 ^ n) by lia.
      transitivity (Z.testbit (wrap n (wrap n a + (-1) * 2 ^ n)) i).
      { rewrite testbit_wrap by lia. by rewrite (proj2 (Z.ltb_lt i n)). }
      replace (wrap n (wrap n a + -1 * 2 ^ n)) with (wrap n a).
      { rewrite testbit_wrap by lia. by rewrite (proj2 (Z.ltb_lt i n)). }
      unfold wrap. rewrite Z.mod_add by lia. by rewrite Z.mod_mod by lia.
    + rewrite Z.min_r by lia. rewrite Htop. cbn [negb].
      rewrite Z.testbit_odd, Z.shiftr_div_pow2 by lia.
      replace ((wrap n a - 2 ^ n) / 2 ^ i) with (-1); [done|].
      assert (2 ^ n <= 2 ^ i) by (apply Z.pow_le_mono_r; lia).
      apply Z.div_unique with (wrap n a - 2 ^ n + 2 ^ i); lia.
Qed.

(** Ranges of bitwise operations. *)
Lemma bits_range n v : 0 <= n -> 0 <= v -> (forall i, n <= i -> Z.testbit v i = false) -> 0 <= v < 2 ^ n.
Proof.
  intros Hn Hv H. split; [done|]. replace v with (wrap n v); [by apply wrap_range|].
  apply Z.bits_inj'. intros i Hi. rewrite testbit_wrap by done.
  destruct (Z.ltb_spec i n); [done|]. by rewrite H by lia.
Qed.

Lemma range_testbit n v i : 0 <= v < 2 ^ n -> n <= i -> Z.testbit v i = false.
Proof.
  intros Hv Hi. destruct (Z.ltb_spec n 0); [rewrite Z.pow_neg_r in Hv by done; lia|].
  rewrite <- (wrap_small n v) by done. rewrite testbit_wrap by done.
  by rewrite (proj2 (Z.ltb_ge i n)) by lia.
Qed.

Lemma land_range n a b : 0 <= n -> 0 <= a < 2 ^ n -> 0 <= b < 2 ^ n -> 0 <= Z.land a b < 2 ^ n.
Proof.
  intros Hn Ha Hb. apply bits_range; [done|apply Z.land_nonneg; lia|]. intros i Hi.
  by rewrite Z.land_spec, (range_testbit n a).
Qed.

Lemma lor_range n a b : 0 <= n -> 0 <= a < 2 ^ n -> 0 <= b < 2 ^ n -> 0 <= Z.lor a b < 2 ^ n.
Proof.
  intros Hn Ha Hb. apply bits_range; [done|apply Z.lor_nonneg; lia|]. intros i Hi.
  by rewrite Z.lor_spec, (range_testbit n a), (range_testbit n b).
Qed.

Lemma lxor_range n a b : 0 <= n -> 0 <= a < 2 ^ n -> 0 <= b < 2 ^ n -> 0 <= Z.lxor a b < 2 ^ n.
Proof.
  intros Hn Ha Hb. apply bits_range; [done|apply Z.lxor_nonneg; lia|]. intros i Hi.
  by rewrite Z.lxor_spec, (range_testbit n a), (range_testbit n b).
Qed.

Lemma shiftr_range n a k : 0 <= k -> 0 <= a < 2 ^ n -> 0 <= Z.shiftr a k < 2 ^ n.
Proof.
  intros Hk Ha. rewrite Z.shiftr_div_pow2 by done. assert (0 < 2 ^ k) by lia. split.
  - apply Z.div_pos; lia.
  - apply Z.le_lt_trans with a; [apply Z.div_le_upper_bound; nia|lia].
Qed.

Lemma ones_range n : 0 <= n -> 0 <= Z.ones n < 2 ^ n.
Proof. intros. rewrite Z.ones_equiv. lia. Qed.

(** ** State and failure

    The C code keeps its state in structures reached through pointers and
    stops the process with [assert] or [fatal].  An operation is a function
    from a state to [None] (the process stops) or a result and the next
    state. *)
Definition stM (S A : Type) : Type := S -> option (A * S).

#[global] Instance stM_ret S : MRet (stM S) := fun A x s => Some (x, s).
#[global] Instance stM_bind S : MBind (stM S) :=
  fun A B f m s => match m s with None => None | Some (x, s') => f x s' end.

Definition get_state {S} : stM S S := fun s => Some (s, s).
Definition put_state {S} (s : S) : stM S unit := fun _ => Some (tt, s).
Definition modify_state {S} (f : S -> S) : stM S unit := fun s => Some (tt, f s).
Definition fail_state {S A} : stM S A := fun _ => None.

(** The C [assert]: stops the process when the condition is false. *)
Definition c_assert {S} (b : bool) : stM S unit :=
  fun s => if b then Some (tt, s) else None.

(** Lift a partial computation, [None] being a stop. *)
Definition lift_option {S A} (o : option A) : stM S A :=
  fun s => x ← o; Some (x, s).

Lemma bind_Some_inv {S A B} (m : stM S A) (f : A -> stM S B) s r :
  (m ≫= f) s = Some r -> exists x s', m s = Some (x, s') /\ f x s' = Some r.
Proof. unfold mbind, stM_bind. destruct (m s) as [[x s']|]; naive_solver. Qed.

Lemma bind_Some_eq {S A B} (m : stM S A) (f : A -> stM S B) s x s' :
  m s = Some (x, s') -> (m ≫= f) s = f x s'.
Proof. unfold mbind, stM_bind. by intros ->. Qed.

Lemma assert_Some_inv {S} b (s : S) r :
  c_assert b s = Some r -> b = true /\ r = (tt, s).
Proof. unfold c_assert. destruct b; naive_solver. Qed.

Lemma lift_Some_inv {S A} (o : option A) (s : S) r :
  lift_option o s = Some r -> exists x, o = Some x /\ r = (x, s).
Proof. unfold lift_option. destruct o; naive_solver. Qed.

(** Open every monadic step of a hypothesis that says a run succeeded. *)
Ltac inv_run :=
  repeat match goal with
  | H : (_ ≫= _) _ = Some _ |- _ =>
      apply bind_Some_inv in H; destruct H as (? & ? & ? & H)
  | H : mret _ _ = Some _ |- _ => unfold mret, stM_ret in H
  | H : get_state _ = Some _ |- _ => unfold get_state in H
  | H : put_state _ _ = Some _ |- _ => unfold put_state in H
  | H : modify_state _ _ = Some _ |- _ => unfold modify_state in H
  | H : fail_state _ = Some _ |- _ => discriminate H
  | H : c_assert _ _ = Some _ |- _ => apply assert_Some_inv in H; destruct H
  | H : lift_option _ _ = Some _ |- _ => apply lift_Some_inv in H; destruct H as (? & ? & ?)
  | H : Some _ = Some _ |- _ => injection H; clear H; intros
  | H : (_, _) = (_, _) |- _ => injection H; clear H; intros
  | x : unit |- _ => destruct x
  end; subst.

(** Unfold the plumbing of a monadic run and nothing else. *)
Ltac run_m :=
  cbv beta iota delta [mbind stM_bind mret stM_ret get_state put_state modify_state
                       c_assert lift_option fail_state option_bind].

(** ** Notations of the C operators, in a scope of their own *)
Declare Scope c_scope.
Delimit Scope c_scope with C.
Notation "a .| b" := (Z.lor a b) (at level 50, left associativity) : c_scope.
Notation "a .& b" := (Z.land a b) (at level 40, left associativity) : c_scope.
Notation "a .<< b" := (Z.shiftl a b) (at level 30, no associativity) : c_scope.
Notation "a .>> b" := (Z.shiftr a b) (at level 30, no associativity) : c_scope.
