(* ===== verification/Ir.v ===== *)
(** * The intermediate representation ([src/src/jitter/jitter_types.h])

    The data exchanged by the front ends, the IR builder ([Jitter.v]) and the
    back ends, and the meaning the library gives to it: a reference semantics
    of instruction sequences against which the x86_64 back end is verified.

    A C pointer to an [irRegister] is the slot of that register in the
    register pool.  The enumerations whose members only differ by an operand
    width ([IR_LOAD_8], ..., [IR_LOAD_64]; [IR_BINOP_ADD_8], ...) are one
    constructor with a width argument; [irBinopType_code] gives back the
    number of the C enumerator. *)

From S2P Require Import Prelude.

(** ** Types *)

Inductive irRegisterType := IR_REG_8 | IR_REG_16 | IR_REG_32 | IR_REG_64.

#[global] Instance irRegisterType_eq_dec : EqDecision irRegisterType.
Proof. solve_decision. Defined.

(** The C value of the enumerator: [IR_REG_8] is 0. *)
Definition irRegisterType_code (t : irRegisterType) : Z :=
  match t with IR_REG_8 => 0 | IR_REG_16 => 1 | IR_REG_32 => 2 | IR_REG_64 => 3 end.

(** Width in bits: [1 << (type + 3)] in [displayReg]. *)
Definition bits (t : irRegisterType) : Z :=
  match t with IR_REG_8 => 8 | IR_REG_16 => 16 | IR_REG_32 => 32 | IR_REG_64 => 64 end.

Inductive irCastType :=
  | IR_CAST_8U_TO_16 | IR_CAST_8U_TO_32 | IR_CAST_8U_TO_64
  | IR_CAST_8S_TO_16 | IR_CAST_8S_TO_32 | IR_CAST_8S_TO_64
  | IR_CAST_16U_TO_32 | IR_CAST_16U_TO_64
  | IR_CAST_16S_TO_32 | IR_CAST_16S_TO_64
  | IR_CAST_32U_TO_64
  | IR_CAST_32S_TO_64
  | IR_CAST_64_TO_8 | IR_CAST_32_TO_8 | IR_CAST_16_TO_8
  | IR_CAST_64_TO_16 | IR_CAST_32_TO_16
  | IR_CAST_64_TO_32.

#[global] Instance irCastType_eq_dec : EqDecision irCastType.
Proof. solve_decision. Defined.

(** The operator part of [enum irBinopType]; the enumerators come in groups
    of four widths in this order. *)
Inductive binopKind :=
  ADD | SUB | XOR | AND | OR | SHL | SHR | ASR | ROR | CMPEQ | CMPNE.

#[global] Instance binopKind_eq_dec : EqDecision binopKind.
Proof. solve_decision. Defined.

Record irBinopType := IR_BINOP_ { bt_kind : binopKind; bt_width : irRegisterType }.

#[global] Instance irBinopType_eq_dec : EqDecision irBinopType.
Proof. solve_decision. Defined.

Definition binopKind_code (k : binopKind) : Z :=
  match k with
  | ADD => 0 | SUB => 1 | XOR => 2 | AND => 3 | OR => 4 | SHL => 5
  | SHR => 6 | ASR => 7 | ROR => 8 | CMPEQ => 9 | CMPNE => 10
  end.

Definition irBinopType_code (b : irBinopType) : Z :=
  4 * binopKind_code (bt_kind b) + irRegisterType_code (bt_width b).

(** [struct irRegister]; [backend] is the back end's own register, a slot of
    its pool once one is attached. *)
Record irRegister := mkIrRegister {
  type : irRegisterType;
  index : Z;
  firstWriteIndex : Z;
  lastReadIndex : Z;
  backend : option nat
}.

(** [struct irInstruction].  Registers are slots of the register pool. *)
Inductive irInstruction :=
  | IR_MOV_CONST (w : irRegisterType) (dst : nat) (value : Z)
  | IR_LOAD (w : irRegisterType) (dst address : nat)
  | IR_STORE (w : irRegisterType) (src address : nat)
  | IR_BINOP (t : irBinopType) (dst op1 op2 : nat)
  | IR_CALL (w : option irRegisterType) (address : nat)
            (param : list (option nat)) (result : option nat)
  | IR_ITE (w : irRegisterType) (dst pred trueOp falseOp : nat)
  | IR_CAST (t : irCastType) (dst op : nat)
  | IR_EXIT (value : nat) (pred : option nat)
  | IR_READ (w : irRegisterType) (dst : nat) (offset : Z)
  | IR_WRITE (w : irRegisterType) (src : nat) (offset : Z)
  | IR_INSN_MARKER (value : Z).

(** Registers an instruction reads and the one it writes. *)
Definition option_list {A} (o : option A) : list A :=
  match o with Some x => [x] | None => [] end.

Definition ir_uses (i : irInstruction) : list nat :=
  match i with
  | IR_MOV_CONST _ _ _ | IR_READ _ _ _ | IR_INSN_MARKER _ => []
  | IR_LOAD _ _ a => [a]
  | IR_STORE _ s a => [a; s]
  | IR_BINOP _ _ a b => [a; b]
  | IR_CALL _ a ps _ => a :: (ps ≫= option_list)
  | IR_ITE _ _ p t f => [p; t; f]
  | IR_CAST _ _ o => [o]
  | IR_EXIT v p => v :: option_list p
  | IR_WRITE _ s _ => [s]
  end.

Definition ir_def (i : irInstruction) : option nat :=
  match i with
  | IR_MOV_CONST _ d _ | IR_LOAD _ d _ | IR_BINOP _ d _ _
  | IR_ITE _ d _ _ _ | IR_CAST _ d _ | IR_READ _ d _ => Some d
  | IR_CALL _ _ _ r => r
  | IR_STORE _ _ _ | IR_EXIT _ _ | IR_WRITE _ _ _ | IR_INSN_MARKER _ => None
  end.

(** ** Memory *)

(** The host address space seen by generated code: a byte per 64-bit address. *)
Definition mem := Z -> Z.

Fixpoint load_bytes (n : nat) (m : mem) (a : Z) : list Z :=
  match n with
  | O => []
  | S n => wrap 8 (m (wrap 64 a)) :: load_bytes n m (a + 1)
  end.

Definition load_mem (w : irRegisterType) (m : mem) (a : Z) : Z :=
  le_join (load_bytes (Z.to_nat (bits w / 8)) m a).

Fixpoint store_bytes (bs : list Z) (m : mem) (a : Z) : mem :=
  match bs with
  | [] => m
  | b :: bs =>
      store_bytes bs (fun x => if decide (x = wrap 64 a) then b else m x) (a + 1)
  end.

Definition store_mem (w : irRegisterType) (m : mem) (a v : Z) : mem :=
  store_bytes (le_bytes (Z.to_nat (bits w / 8)) v) m a.

(** ** Reference semantics *)

Definition irBinop_sem (k : binopKind) (w : irRegisterType) (a b : Z) : option Z :=
  let n := bits w in
  match k with
  | ADD => Some (wrap n (a + b))
  | SUB => Some (wrap n (a - b))
  | XOR => Some (Z.lxor a b)
  | AND => Some (Z.land a b)
  | OR => Some (Z.lor a b)
  | SHL => if b <? n then Some (wrap n (Z.shiftl a b)) else None
  | SHR => if b <? n then Some (Z.shiftr a b) else None
  | ASR => if b <? n then Some (wrap n (Z.shiftr (to_signed n a) b)) else None
  | ROR => if b <? n then Some (wrap n (Z.lor (Z.shiftr a b) (Z.shiftl a (n - b)))) else None
  | CMPEQ => Some (if a =? b then Z.ones n else 0)
  | CMPNE => Some (if a =? b then 0 else Z.ones n)
  end.

(** Width of the second operand: a shift amount is an 8-bit register. *)
Definition op2_type (k : binopKind) (w : irRegisterType) : irRegisterType :=
  match k with SHL | SHR | ASR | ROR => IR_REG_8 | _ => w end.

Definition cast_src (t : irCastType) : irRegisterType :=
  match t with
  | IR_CAST_8U_TO_16 | IR_CAST_8U_TO_32 | IR_CAST_8U_TO_64
  | IR_CAST_8S_TO_16 | IR_CAST_8S_TO_32 | IR_CAST_8S_TO_64 => IR_REG_8
  | IR_CAST_16U_TO_32 | IR_CAST_16U_TO_64
  | IR_CAST_16S_TO_32 | IR_CAST_16S_TO_64 | IR_CAST_16_TO_8 => IR_REG_16
  | IR_CAST_32U_TO_64 | IR_CAST_32S_TO_64
  | IR_CAST_32_TO_8 | IR_CAST_32_TO_16 => IR_REG_32
  | IR_CAST_64_TO_8 | IR_CAST_64_TO_16 | IR_CAST_64_TO_32 => IR_REG_64
  end.

Definition cast_dst (t : irCastType) : irRegisterType :=
  match t with
  | IR_CAST_64_TO_8 | IR_CAST_32_TO_8 | IR_CAST_16_TO_8 => IR_REG_8
  | IR_CAST_8U_TO_16 | IR_CAST_8S_TO_16
  | IR_CAST_64_TO_16 | IR_CAST_32_TO_16 => IR_REG_16
  | IR_CAST_8U_TO_32 | IR_CAST_8S_TO_32
  | IR_CAST_16U_TO_32 | IR_CAST_16S_TO_32 | IR_CAST_64_TO_32 => IR_REG_32
  | _ => IR_REG_64
  end.

Definition cast_signed (t : irCastType) : bool :=
  match t with
  | IR_CAST_8S_TO_16 | IR_CAST_8S_TO_32 | IR_CAST_8S_TO_64
  | IR_CAST_16S_TO_32 | IR_CAST_16S_TO_64 | IR_CAST_32S_TO_64 => true
  | _ => false
  end.

Definition irCast_sem (t : irCastType) (v : Z) : Z :=
  wrap (bits (cast_dst t))
    (if cast_signed t then to_signed (bits (cast_src t)) v else v).

(** A register environment: each register written so far with its type and
    its value, in [0, 2^bits). *)
Abbreviation irEnv := (gmap nat (irRegisterType * Z)).

Definition rd (w : irRegisterType) (ρ : irEnv) (r : nat) : option Z :=
  '(t, v) ← ρ !! r; if decide (t = w) then Some v else None.

(** Parameters of a call, with the width each register was created with. *)
Fixpoint rd_params (ρ : irEnv) (ps : list (option nat)) :
    option (list (option (irRegisterType * Z))) :=
  match ps with
  | [] => Some []
  | None :: ps => l ← rd_params ρ ps; Some (None :: l)
  | Some p :: ps => tv ← ρ !! p; l ← rd_params ρ ps; Some (Some tv :: l)
  end.

Inductive irOutcome :=
  | IrNext (ρ : irEnv) (m : mem)
  | IrExit (v : Z) (m : mem).

Section semantics.
(** What the helper function at an address does when it is called, for a
    result of a given width, with the context pointer and the parameters:
    the C helpers called by generated code are an argument of the semantics.
    [None] when it is not called as its prototype says. *)
Context (ir_call : option irRegisterType -> Z -> Z -> list (option (irRegisterType * Z)) ->
                   mem -> option (mem * Z)).
(** Address of the client context handed to generated code. *)
Context (ctx : Z).

Definition def_next (ρ : irEnv) (m : mem) (d : nat) (t : irRegisterType) (v : Z) :
    option irOutcome :=
  Some (IrNext (<[d := (t, v)]> ρ) m).

Definition ir_step (i : irInstruction) (ρ : irEnv) (m : mem) : option irOutcome :=
  match i with
  | IR_MOV_CONST w d v => def_next ρ m d w (wrap (bits w) v)
  | IR_LOAD w d a => x ← rd IR_REG_64 ρ a; def_next ρ m d w (load_mem w m x)
  | IR_STORE w s a =>
      x ← rd IR_REG_64 ρ a; v ← rd w ρ s; Some (IrNext ρ (store_mem w m x v))
  | IR_BINOP b d p q =>
      let w := bt_width b in
      x ← rd w ρ p; y ← rd (op2_type (bt_kind b) w) ρ q;
      z ← irBinop_sem (bt_kind b) w x y; def_next ρ m d w z
  | IR_CALL w a ps r =>
      x ← rd IR_REG_64 ρ a; vs ← rd_params ρ ps;
      '(m', v) ← ir_call w x ctx vs m;
      match w, r with
      | None, None => Some (IrNext ρ m')
      | Some w, Some d => def_next ρ m' d w (wrap (bits w) v)
      | _, _ => None
      end
  | IR_ITE _ d p t f =>
      '(ty, x) ← ρ !! p; y ← rd ty ρ t; z ← rd ty ρ f;
      def_next ρ m d ty (if x =? 0 then z else y)
  | IR_CAST t d o =>
      x ← rd (cast_src t) ρ o; def_next ρ m d (cast_dst t) (irCast_sem t x)
  | IR_EXIT v None => x ← rd IR_REG_64 ρ v; Some (IrExit x m)
  | IR_EXIT v (Some p) =>
      x ← rd IR_REG_64 ρ v; '(_, y) ← ρ !! p;
      Some (if y =? 0 then IrNext ρ m else IrExit x m)
  | IR_READ w d off => def_next ρ m d w (load_mem w m (ctx + to_signed 32 off))
  | IR_WRITE w s off => v ← rd w ρ s; Some (IrNext ρ (store_mem w m (ctx + to_signed 32 off) v))
  | IR_INSN_MARKER _ => Some (IrNext ρ m)
  end.

(** Run a block until it exits; a block that falls off its end has no
    meaning, nor has an ill-typed instruction or an undefined shift. *)
Fixpoint ir_run (l : list irInstruction) (ρ : irEnv) (m : mem) : option (Z * mem) :=
  match l with
  | [] => None
  | i :: l =>
      o ← ir_step i ρ m;
      match o with
      | IrNext ρ' m' => ir_run l ρ' m'
      | IrExit v m' => Some (v, m')
      end
  end.
End semantics.

(** ** Basic facts *)

Lemma bits_pos w : 0 < bits w.
Proof. by destruct w. Qed.

Lemma bits_le_64 w : bits w <= 64.
Proof. by destruct w. Qed.

#[export] Hint Resolve bits_pos bits_le_64 : core.

Lemma le_join_range bs :
  Forall (fun b => 0 <= b < 256) bs -> 0 <= le_join bs < 2 ^ (8 * Z.of_nat (length bs)).
Proof.
  induction 1 as [|b bs Hb _ IH]; cbn -[Z.mul Z.of_nat Z.pow].
  - done.
  - replace (8 * Z.of_nat (S (length bs))) with (8 + 8 * Z.of_nat (length bs)) by lia.
    rewrite Z.pow_add_r by lia. change (2 ^ 8) with 256. nia.
Qed.

Lemma load_bytes_range n m a : Forall (fun b => 0 <= b < 256) (load_bytes n m a).
Proof.
  revert a. induction n as [|n IH]; intros a; cbn; constructor; [|done].
  apply (wrap_range 8). lia.
Qed.

Lemma length_load_bytes n m a : length (load_bytes n m a) = n.
Proof. revert a. induction n; intros; cbn; [done|]. by f_equal. Qed.

Lemma load_mem_range w m a : 0 <= load_mem w m a < 2 ^ bits w.
Proof.
  unfold load_mem. pose proof (le_join_range _ (load_bytes_range (Z.to_nat (bits w / 8)) m a)) as H.
  rewrite length_load_bytes in H. by destruct w.
Qed.

Lemma le_bytes_wrap n k v :
  8 * Z.of_nat n <= k -> le_bytes n (wrap k v) = le_bytes n v.
Proof.
  revert k v. induction n as [|n IH]; intros k v Hk; cbn; [done|].
  assert (Hk8 : 0 <= 8 <= k) by lia. f_equal.
  - exact (wrap_wrap 8 k v Hk8).
  - unfold wrap. replace (2 ^ k) with (256 * 2 ^ (k - 8)).
    + rewrite Z.rem_mul_r by lia.
      rewrite Z.add_comm, Z.mul_comm, Z.div_add_l by lia.
      rewrite (Z.div_small (v mod 256)) by (apply Z.mod_pos_bound; lia).
      rewrite Z.add_0_r. apply (IH (k - 8)). lia.
    + change 256 with (2 ^ 8). rewrite <- Z.pow_add_r by lia. f_equal. lia.
Qed.

(** A store only looks at the low bits of its operand. *)
Lemma store_mem_wrap w k m a v :
  bits w <= k -> store_mem w m a (wrap k v) = store_mem w m a v.
Proof. intros. unfold store_mem. rewrite le_bytes_wrap; [done|]. by destruct w. Qed.

Lemma store_mem_low w m a v v' :
  wrap (bits w) v = wrap (bits w) v' -> store_mem w m a v = store_mem w m a v'.
Proof.
  intros H. rewrite <- (store_mem_wrap w (bits w) m a v) by lia.
  rewrite H. apply store_mem_wrap. lia.
Qed.

Lemma load_bytes_wrap n m a : load_bytes n m (wrap 64 a) = load_bytes n m a.
Proof.
  assert (H : forall a b, wrap 64 a = wrap 64 b -> load_bytes n m a = load_bytes n m b).
  { induction n as [|n IH]; intros x y Hxy; cbn; [done|]. rewrite Hxy. f_equal.
    apply IH. rewrite <- wrap_add_l, Hxy. by rewrite wrap_add_l. }
  apply H. apply wrap_idem. lia.
Qed.

Lemma load_mem_wrap w m a : load_mem w m (wrap 64 a) = load_mem w m a.
Proof. unfold load_mem. by rewrite load_bytes_wrap. Qed.

Lemma store_bytes_addr bs m a b :
  wrap 64 a = wrap 64 b -> store_bytes bs m a = store_bytes bs m b.
Proof.
  revert m a b. induction bs as [|x bs IH]; intros m a b H; cbn; [done|].
  rewrite H. apply IH. by rewrite <- wrap_add_l, H, wrap_add_l.
Qed.

Lemma store_mem_addr w m a v : store_mem w m (wrap 64 a) v = store_mem w m a v.
Proof. unfold store_mem. apply store_bytes_addr. apply wrap_idem. lia. Qed.

(** ** Loads after stores *)

Lemma store_bytes_other bs m a x :
  0 <= a -> a + Z.of_nat (length bs) <= 2 ^ 64 -> 0 <= x < 2 ^ 64 -> x < a \/ a + Z.of_nat (length bs) <= x ->
  store_bytes bs m a x = m x.
Proof.
  revert m a. induction bs as [|b bs IH]; intros m a Ha He Hx Hd; cbn [store_bytes length] in *; [done|].
  rewrite IH by lia. case_decide as Hq; [|done]. rewrite wrap_small in Hq by lia. lia.
Qed.

Lemma load_bytes_ext n m m' b :
  (forall x, b <= x < b + Z.of_nat n -> m (wrap 64 x) = m' (wrap 64 x)) -> load_bytes n m b = load_bytes n m' b.
Proof.
  revert b. induction n as [|n IH]; intros b H; cbn [load_bytes]; [done|].
  rewrite H by lia. f_equal. apply IH. intros x Hx. apply H. lia.
Qed.

Lemma length_le_bytes' n v : length (le_bytes n v) = n.
Proof. revert v. induction n; intros; cbn; [done|]. by f_equal. Qed.

(** Accesses to ranges that do not meet. *)
Lemma load_store_disjoint w w' m a b v :
  0 <= a -> a + bits w' / 8 <= 2 ^ 64 -> 0 <= b -> b + bits w / 8 <= 2 ^ 64 ->
  b + bits w / 8 <= a \/ a + bits w' / 8 <= b ->
  load_mem w (store_mem w' m a v) b = load_mem w m b.
Proof.
  intros Ha Hae Hb Hbe Hd. unfold load_mem, store_mem. f_equal. apply load_bytes_ext. intros x Hx.
  assert (Hw : 0 <= bits w / 8) by (by destruct w). assert (Hw' : 0 <= bits w' / 8) by (by destruct w').
  rewrite (wrap_small 64 x) by lia. apply store_bytes_other; rewrite ?length_le_bytes'; lia.
Qed.

(** The same range: the value comes back. *)
Lemma load_store_bytes n m a v :
  0 <= a -> a + Z.of_nat n <= 2 ^ 64 ->
  load_bytes n (store_bytes (le_bytes n v) m a) a = le_bytes n v.
Proof.
  revert m a v. induction n as [|n IH]; intros m a v Ha He; cbn [le_bytes store_bytes load_bytes]; [done|].
  f_equal.
  - rewrite (wrap_small 64 a) by lia. rewrite store_bytes_other by (rewrite ?length_le_bytes'; lia).
    rewrite decide_True by done. apply wrap_small. change (2 ^ 8) with 256. apply Z.mod_pos_bound. lia.
  - apply IH; lia.
Qed.

Lemma load_store_same w m a v :
  0 <= a -> a + bits w / 8 <= 2 ^ 64 -> load_mem w (store_mem w m a v) a = wrap (bits w) v.
Proof.
  intros Ha He. unfold load_mem, store_mem. rewrite load_store_bytes; [|done|by destruct w].
  rewrite le_join_bytes. f_equal. by destruct w.
Qed.

(** A narrow load is the low part of a wide one. *)
Lemma load_bytes_app n k m a :
  load_bytes (n + k) m a = load_bytes n m a ++ load_bytes k m (a + Z.of_nat n).
Proof.
  revert a. induction n as [|n IH]; intros a; cbn [Nat.add load_bytes app].
  - f_equal. lia.
  - rewrite IH. do 3 f_equal. lia.
Qed.

Lemma le_join_app l1 l2 : le_join (l1 ++ l2) = le_join l1 + 2 ^ (8 * Z.of_nat (length l1)) * le_join l2.
Proof.
  induction l1 as [|b l1 IH]; cbn [app le_join length]; [change (2 ^ (8 * Z.of_nat 0)) with 1; lia|].
  rewrite IH. replace (8 * Z.of_nat (S (length l1))) with (8 + 8 * Z.of_nat (length l1)) by lia.
  rewrite Z.pow_add_r by lia. change (2 ^ 8) with 256. lia.
Qed.

Lemma load_mem_low m a : load_mem IR_REG_32 m a = wrap 32 (load_mem IR_REG_64 m a).
Proof.
  pose proof (load_mem_range IR_REG_32 m a) as H. unfold load_mem in *.
  change (Z.to_nat (bits IR_REG_64 / 8)) with (4 + 4)%nat.
  change (Z.to_nat (bits IR_REG_32 / 8)) with 4%nat in *. change (bits IR_REG_32) with 32 in H.
  rewrite load_bytes_app, le_join_app, length_load_bytes. unfold wrap.
  change (2 ^ (8 * Z.of_nat 4)) with (2 ^ 32). rewrite Z.mul_comm, Z_mod_plus_full.
  symmetry. by apply Z.mod_small.
Qed.
