(* ===== verification/IrTyping.v ===== *)
(** * A static check for blocks of IR

    The builder's assertions do not make a block meaningful: an amount of
    shift may be too large, a helper may be called with the wrong prototype,
    a block may fall off its end.  [ir_check] rules that out by following the
    types of the registers and the constants; a block that passes it runs to
    an exit from any memory. *)

From S2P Require Import Prelude Ir.

Abbreviation irTypes := (gmap nat (irRegisterType * option Z)).

Section check.
(** Prototypes of the helpers: result, address, parameters. *)
Context (prototype : option irRegisterType -> Z -> list (option irRegisterType) -> bool).

Definition ty_is (Γ : irTypes) (r : nat) (w : irRegisterType) : bool :=
  match Γ !! r with Some (t, _) => bool_decide (t = w) | None => false end.

(** A register known to hold a constant less than [n]. *)
Definition const_below (Γ : irTypes) (r : nat) (n : Z) : bool :=
  match Γ !! r with Some (_, Some c) => c <? n | _ => false end.

Definition is_shift (k : binopKind) : bool :=
  match k with SHL | SHR | ASR | ROR => true | _ => false end.

Fixpoint param_types (Γ : irTypes) (ps : list (option nat)) : option (list (option irRegisterType)) :=
  match ps with
  | [] => Some []
  | None :: ps => l ← param_types Γ ps; Some (None :: l)
  | Some p :: ps => t ← Γ !! p; l ← param_types Γ ps; Some (Some t.1 :: l)
  end.

Definition call_check (Γ : irTypes) (w : option irRegisterType) (a : nat) (ps : list (option nat)) : bool :=
  match Γ !! a, param_types Γ ps with
  | Some (IR_REG_64, Some x), Some ts => prototype w x ts
  | _, _ => false
  end.

Definition def_ty (d : nat) (w : irRegisterType) (Γ : irTypes) : irTypes := <[d := (w, None)]> Γ.

Fixpoint ir_check (Γ : irTypes) (l : list irInstruction) : bool :=
  match l with
  | [] => false
  | IR_MOV_CONST w d v :: l => ir_check (<[d := (w, Some (wrap (bits w) v))]> Γ) l
  | IR_LOAD w d a :: l => ty_is Γ a IR_REG_64 && ir_check (def_ty d w Γ) l
  | IR_STORE w s a :: l => ty_is Γ a IR_REG_64 && ty_is Γ s w && ir_check Γ l
  | IR_BINOP b d p q :: l =>
      let w := bt_width b in
      ty_is Γ p w && ty_is Γ q (op2_type (bt_kind b) w) &&
      (if is_shift (bt_kind b) then const_below Γ q (bits w) else true) &&
      ir_check (def_ty d w Γ) l
  | IR_CALL w a ps r :: l =>
      call_check Γ w a ps &&
      match w, r with
      | None, None => ir_check Γ l
      | Some w, Some d => ir_check (def_ty d w Γ) l
      | _, _ => false
      end
  | IR_ITE _ d p t f :: l =>
      match Γ !! p with
      | Some (w, _) => ty_is Γ t w && ty_is Γ f w && ir_check (def_ty d w Γ) l
      | None => false
      end
  | IR_CAST t d o :: l => ty_is Γ o (cast_src t) && ir_check (def_ty d (cast_dst t) Γ) l
  | IR_EXIT v None :: _ => ty_is Γ v IR_REG_64
  | IR_EXIT v (Some p) :: l =>
      ty_is Γ v IR_REG_64 && bool_decide (is_Some (Γ !! p)) && ir_check Γ l
  | IR_READ w d _ :: l => ir_check (def_ty d w Γ) l
  | IR_WRITE w s _ :: l => ty_is Γ s w && ir_check Γ l
  | IR_INSN_MARKER _ :: l => ir_check Γ l
  end.

(** ** Soundness *)

Context (ir_call : option irRegisterType -> Z -> Z -> list (option (irRegisterType * Z)) ->
                   mem -> option (mem * Z)).
Context (ctx : Z).

(** Helpers called as their prototype says return. *)
Definition prototypes_hold : Prop :=
  forall w a vs m, prototype w a (map (option_map fst) vs) = true -> is_Some (ir_call w a ctx vs m).

Definition has_types (Γ : irTypes) (ρ : irEnv) : Prop :=
  forall r t c, Γ !! r = Some (t, c) -> exists v, ρ !! r = Some (t, v) /\ (c = None \/ c = Some v).

Lemma has_types_def Γ ρ d w c v :
  has_types Γ ρ -> (c = None \/ c = Some v) -> has_types (<[d := (w, c)]> Γ) (<[d := (w, v)]> ρ).
Proof.
  intros H Hc r t c' Hr. destruct (decide (r = d)) as [->|Hne].
  - rewrite lookup_insert_eq in Hr. injection Hr as <- <-. exists v. by rewrite lookup_insert_eq.
  - rewrite lookup_insert_ne in Hr by done. destruct (H _ _ _ Hr) as (v' & ? & ?).
    exists v'. by rewrite lookup_insert_ne.
Qed.

Lemma ty_is_rd Γ ρ r w : has_types Γ ρ -> ty_is Γ r w = true -> exists v, rd w ρ r = Some v.
Proof.
  intros H Ht. unfold ty_is in Ht. destruct (Γ !! r) as [[t c]|] eqn:E; [|done].
  apply bool_decide_eq_true in Ht as ->. destruct (H _ _ _ E) as (v & Hv & _).
  exists v. unfold rd. rewrite Hv. cbn. by rewrite decide_True.
Qed.

Lemma const_below_rd Γ ρ r n w v :
  has_types Γ ρ -> const_below Γ r n = true -> rd w ρ r = Some v -> v < n.
Proof.
  intros H Hc Hr. unfold const_below in Hc. destruct (Γ !! r) as [[t [c|]]|] eqn:E; try done.
  apply Z.ltb_lt in Hc. destruct (H _ _ _ E) as (v' & Hv & [?|[= ->]]); [done|].
  unfold rd in Hr. rewrite Hv in Hr. cbn in Hr. case_decide; [|done]. by injection Hr as <-.
Qed.

Lemma param_types_rd Γ ρ ps ts : has_types Γ ρ -> param_types Γ ps = Some ts ->
  exists vs, rd_params ρ ps = Some vs /\ map (option_map fst) vs = ts.
Proof.
  intros H. revert ts. induction ps as [|[p|] ps IH]; intros ts Hp; cbn in *.
  - injection Hp as <-. by eexists.
  - destruct (Γ !! p) as [[t c]|] eqn:E; [|done]. cbn in Hp.
    destruct (param_types Γ ps) as [l|]; [|done]. injection Hp as <-.
    destruct (IH l eq_refl) as (vs & -> & <-). destruct (H _ _ _ E) as (v & -> & _).
    by eexists.
  - destruct (param_types Γ ps) as [l|]; [|done]. injection Hp as <-.
    destruct (IH l eq_refl) as (vs & -> & <-). by eexists.
Qed.

Lemma binop_total k w a b : is_shift k = false \/ b < bits w -> is_Some (irBinop_sem k w a b).
Proof.
  intros [Hs|Hb].
  - by destruct k; try discriminate Hs; eexists.
  - apply Z.ltb_lt in Hb. destruct k; cbn; rewrite ?Hb; by eexists.
Qed.

(** The next instructions make sense after this one. *)
Definition goes_on (l : list irInstruction) (o : irOutcome) : Prop :=
  match o with
  | IrNext ρ' _ => exists Γ', ir_check Γ' l = true /\ has_types Γ' ρ'
  | IrExit _ _ => True
  end.

Hypothesis Hproto : prototypes_hold.

Lemma call_check_runs Γ ρ w a ps m :
  has_types Γ ρ -> call_check Γ w a ps = true ->
  exists x vs r, rd IR_REG_64 ρ a = Some x /\ rd_params ρ ps = Some vs /\ ir_call w x ctx vs m = Some r.
Proof.
  intros H Hc. unfold call_check in Hc.
  destruct (Γ !! a) as [[[] [x|]]|] eqn:Ea; try discriminate Hc.
  destruct (param_types Γ ps) as [ts|] eqn:Ep; [|done].
  destruct (param_types_rd _ _ _ _ H Ep) as (vs & Hvs & <-).
  destruct (H _ _ _ Ea) as (v & Hv & [?|[= ->]]); [done|].
  destruct (Hproto _ _ vs m Hc) as [r Hr]. exists v, vs, r. split; [|done].
  unfold rd. by rewrite Hv.
Qed.

Lemma ir_check_step Γ ρ m i l :
  ir_check Γ (i :: l) = true -> has_types Γ ρ ->
  exists o, ir_step ir_call ctx i ρ m = Some o /\ goes_on l o.
Proof.
  intros H Hρ.
  assert (Hdef : forall d w v, ir_check (def_ty d w Γ) l = true ->
            exists o, def_next ρ m d w v = Some o /\ goes_on l o).
  { intros d w v Hc. eexists. split; [done|]. exists (def_ty d w Γ).
    split; [done|]. apply has_types_def; [done|by left]. }
  destruct i as [w d v|w d a|w s a|b d p q|w a ps r|w d p t f|t d o|v [p|]|w d off|w s off|v];
    cbn [ir_check ir_step] in *.
  - eexists. split; [done|]. eexists. split; [exact H|]. apply has_types_def; [done|by right].
  - apply andb_true_iff in H as [Ha H]. apply (ty_is_rd _ _ _ _ Hρ) in Ha as [x ->]. cbn. by apply Hdef.
  - apply andb_true_iff in H as [[Ha Hs]%andb_true_iff H].
    apply (ty_is_rd _ _ _ _ Hρ) in Ha as [x ->], Hs as [y ->]. cbn. eexists. split; [done|]. by exists Γ.
  - apply andb_true_iff in H as [[[Hp Hq]%andb_true_iff Hs]%andb_true_iff H].
    apply (ty_is_rd _ _ _ _ Hρ) in Hp as [x Hx], Hq as [y Hy]. rewrite Hx, Hy. cbn [mbind option_bind].
    destruct (binop_total (bt_kind b) (bt_width b) x y) as [z Hz].
    { destruct (is_shift _); [right|by left]. by eapply const_below_rd. }
    rewrite Hz. cbn. by apply Hdef.
  - apply andb_true_iff in H as [Hc H].
    destruct (call_check_runs _ _ _ _ _ m Hρ Hc) as (x & vs & [m' v'] & -> & -> & Hr).
    cbn [mbind option_bind]. rewrite Hr. cbn. destruct w as [w|], r as [d|]; try done.
    + eexists. split; [done|]. eexists. split; [exact H|]. apply has_types_def; [done|by left].
    + eexists. split; [done|]. by exists Γ.
  - destruct (Γ !! p) as [[ty c]|] eqn:Ep; [|done].
    apply andb_true_iff in H as [[Ht Hf]%andb_true_iff H].
    destruct (Hρ _ _ _ Ep) as (x & Hx & _). rewrite Hx. cbn [mbind option_bind].
    apply (ty_is_rd _ _ _ _ Hρ) in Ht as [y ->], Hf as [z ->]. cbn. by apply Hdef.
  - apply andb_true_iff in H as [Ho H]. apply (ty_is_rd _ _ _ _ Hρ) in Ho as [x ->]. cbn. by apply Hdef.
  - apply andb_true_iff in H as [[Hv Hp]%andb_true_iff H]. apply bool_decide_eq_true in Hp as [[ty c] Hp].
    apply (ty_is_rd _ _ _ _ Hρ) in Hv as [x ->]. destruct (Hρ _ _ _ Hp) as (y & Hy & _).
    cbn [mbind option_bind]. rewrite Hy. cbn. eexists. split; [done|].
    destruct (y =? 0); [|done]. by exists Γ.
  - apply (ty_is_rd _ _ _ _ Hρ) in H as [x ->]. cbn. by eexists.
  - by apply Hdef.
  - apply andb_true_iff in H as [Hs H]. apply (ty_is_rd _ _ _ _ Hρ) in Hs as [x ->]. cbn.
    eexists. split; [done|]. by exists Γ.
  - eexists. split; [done|]. by exists Γ.
Qed.

Lemma ir_check_runs Γ ρ m l :
  ir_check Γ l = true -> has_types Γ ρ -> is_Some (ir_run ir_call ctx l ρ m).
Proof.
  revert Γ ρ m. induction l as [|i l IH]; intros Γ ρ m H Hρ; [done|].
  destruct (ir_check_step _ _ m _ _ H Hρ) as ([ρ' m'|v m'] & E & G); cbn [ir_run]; rewrite E;
    cbn [mbind option_bind]; [|done]. destruct G as (Γ' & HΓ & Hρ'). by eapply IH.
Qed.
End check.
