(* ===== verification/Jitter.v ===== *)
(** * The IR builder ([src/src/jitter/jitter.c])

    Memory pools, register and instruction allocation, and the functions the
    front ends call to describe a block of guest code.  The state is the
    [struct jitter] of the C code; a register or an instruction is named by
    its slot in its pool (the pointer divided by the object size, all the
    objects of one pool having the same size).  A failed [assert] and an
    access through a pointer that is not a live object are [None]. *)

From S2P Require Import Prelude Ir.

(** ** Memory pools *)

(** [struct memoryPool]: the objects allocated since the last reset, in
    order, and the bump index in bytes. *)
Record memoryPool (A : Type) := mkPool {
  buffer : list A;
  pool_index : Z;
  pool_size : Z
}.
Arguments mkPool {A} _ _ _.
Arguments buffer {A} _.
Arguments pool_index {A} _.
Arguments pool_size {A} _.

(** The object's contents are unspecified until it is written: [uninit]. *)
Definition memoryPoolAlloc {A} (uninit : A) (size : Z) : stM (memoryPool A) nat :=
  fun pool =>
    if size + pool_index pool <=? pool_size pool
    then Some (length (buffer pool),
               mkPool (buffer pool ++ [uninit]) (pool_index pool + size) (pool_size pool))
    else None.

Definition memoryPoolReset {A} (pool : memoryPool A) : memoryPool A :=
  mkPool [] 0 (pool_size pool).

Definition memoryPoolInit {A} (pool : memoryPool A) (size : Z) : memoryPool A :=
  mkPool (buffer pool) (pool_index pool) size.

(** Write an object through its pointer. *)
Definition pool_write {A} (p : nat) (x : A) (pool : memoryPool A) : memoryPool A :=
  mkPool (<[p := x]> (buffer pool)) (pool_index pool) (pool_size pool).

(** ** The jitter state *)

Record jitter := mkJitter {
  registerPoolAllocator : memoryPool irRegister;
  instructionIndex : Z;
  regIndex : Z;
  instructionPoolAllocator : memoryPool irInstruction
}.

(** Sizes of the C structures on x86_64 (LP64). *)
Definition sizeof_irRegister : Z := 24.
Definition sizeof_irInstruction : Z := 64.
Definition sizeof_jitter : Z := 32 + 4 + 4 + 32 + 94 * 8 + 8.

Definition uninit_register : irRegister := mkIrRegister IR_REG_8 0 0 0 None.
Definition uninit_instruction : irInstruction := IR_INSN_MARKER 0.

Definition with_regs (f : memoryPool irRegister -> memoryPool irRegister) (j : jitter) : jitter :=
  mkJitter (f (registerPoolAllocator j)) (instructionIndex j) (regIndex j)
           (instructionPoolAllocator j).
Definition with_insns (f : memoryPool irInstruction -> memoryPool irInstruction) (j : jitter) : jitter :=
  mkJitter (registerPoolAllocator j) (instructionIndex j) (regIndex j)
           (f (instructionPoolAllocator j)).

Definition alloc_register_object : stM jitter nat :=
  fun j => '(p, pool) ← memoryPoolAlloc uninit_register sizeof_irRegister (registerPoolAllocator j);
           Some (p, with_regs (fun _ => pool) j).

Definition alloc_instruction : stM jitter nat :=
  fun j => '(p, pool) ← memoryPoolAlloc uninit_instruction sizeof_irInstruction (instructionPoolAllocator j);
           Some (p, with_insns (fun _ => pool) j).

Definition write_instruction (p : nat) (i : irInstruction) : stM jitter unit :=
  modify_state (with_insns (pool_write p i)).

(** Dereference of a register pointer. *)
Definition get_reg (r : nat) : stM jitter irRegister :=
  j ← get_state; lift_option (buffer (registerPoolAllocator j) !! r).

Definition put_reg (r : nat) (x : irRegister) : stM jitter unit :=
  modify_state (with_regs (pool_write r x)).

(** [reg->lastReadIndex = jitter->instructionIndex] *)
Definition set_lastRead (n : Z) (r : irRegister) : irRegister :=
  mkIrRegister (type r) (index r) (firstWriteIndex r) n (backend r).

Definition touch (r : nat) : stM jitter unit :=
  x ← get_reg r; j ← get_state; put_reg r (set_lastRead (instructionIndex j) x).

Definition next_instruction : stM jitter unit :=
  modify_state (fun j => mkJitter (registerPoolAllocator j) (instructionIndex j + 1)
                                  (regIndex j) (instructionPoolAllocator j)).

(** [assert(r->type == t)] *)
Definition assert_type (r : nat) (t : irRegisterType) : stM jitter unit :=
  x ← get_reg r; c_assert (bool_decide (type x = t)).

Definition assert_type2 (r1 : nat) (t1 : irRegisterType) (r2 : nat) (t2 : irRegisterType) :
    stM jitter unit :=
  assert_type r1 t1;; assert_type r2 t2.

(** ** Instruction creation *)

Definition allocateRegister (t : irRegisterType) : stM jitter nat :=
  reg ← alloc_register_object;
  j ← get_state;
  put_reg reg (mkIrRegister t (regIndex j) (instructionIndex j) (-1) None);;
  modify_state (fun j => mkJitter (registerPoolAllocator j) (instructionIndex j)
                                  (regIndex j + 1) (instructionPoolAllocator j));;
  mret reg.

Definition add_mov_const (value : Z) (regType : irRegisterType) : stM jitter nat :=
  dst ← allocateRegister regType;
  insn ← alloc_instruction;
  write_instruction insn (IR_MOV_CONST regType dst (wrap 64 value));;
  next_instruction;;
  mret dst.

Definition add_load (address : nat) (regType : irRegisterType) : stM jitter nat :=
  dst ← allocateRegister regType;
  insn ← alloc_instruction;
  touch address;;
  write_instruction insn (IR_LOAD regType dst address);;
  next_instruction;;
  mret dst.

Definition add_store (src address : nat) (w : irRegisterType) : stM jitter unit :=
  insn ← alloc_instruction;
  touch address;;
  touch src;;
  write_instruction insn (IR_STORE w src address);;
  next_instruction.

Definition add_binop (op1 op2 : nat) (binopType : irBinopType) : stM jitter nat :=
  x1 ← get_reg op1;
  dst ← allocateRegister (type x1);
  insn ← alloc_instruction;
  touch op1;;
  touch op2;;
  write_instruction insn (IR_BINOP binopType dst op1 op2);;
  next_instruction;;
  mret dst.

(** [for(i=0;i<4;i++) if (param[i]) param[i]->lastReadIndex = ...] *)
Fixpoint touch_params (param : list (option nat)) : stM jitter unit :=
  match param with
  | [] => mret tt
  | None :: ps => touch_params ps
  | Some p :: ps => touch p;; touch_params ps
  end.

(** [w] is the width of [IR_CALL_8], ..., or [None] for [IR_CALL_VOID]; the
    parameter array has four entries. *)
Definition add_call (address : nat) (param : list (option nat)) (w : option irRegisterType) :
    stM jitter (option nat) :=
  insn ← alloc_instruction;
  touch address;;
  touch_params param;;
  result ← match w with
           | None => mret None
           | Some t => r ← allocateRegister t; mret (Some r)
           end;
  write_instruction insn (IR_CALL w address param result);;
  next_instruction;;
  mret result.

Definition add_ite (pred trueOp falseOp : nat) (w : irRegisterType) : stM jitter nat :=
  xt ← get_reg trueOp;
  dst ← allocateRegister (type xt);
  insn ← alloc_instruction;
  xp ← get_reg pred;
  xf ← get_reg falseOp;
  c_assert (bool_decide (type xp = type xt) && bool_decide (type xp = type xf));;
  touch pred;;
  touch trueOp;;
  touch falseOp;;
  write_instruction insn (IR_ITE w dst pred trueOp falseOp);;
  next_instruction;;
  mret dst.

Definition add_cast (op : nat) (t : irCastType) (dstType : irRegisterType) : stM jitter nat :=
  dst ← allocateRegister dstType;
  insn ← alloc_instruction;
  touch op;;
  write_instruction insn (IR_CAST t dst op);;
  next_instruction;;
  mret dst.

Definition add_exit_cond (exitValue : nat) (pred : option nat) : stM jitter unit :=
  insn ← alloc_instruction;
  touch exitValue;;
  match pred with Some p => touch p | None => mret tt end;;
  assert_type exitValue IR_REG_64;;
  write_instruction insn (IR_EXIT exitValue pred);;
  next_instruction.

Definition add_read_context (offset : Z) (regType : irRegisterType) : stM jitter nat :=
  dst ← allocateRegister regType;
  insn ← alloc_instruction;
  write_instruction insn (IR_READ regType dst offset);;
  next_instruction;;
  mret dst.

Definition add_write_context (src : nat) (offset : Z) (w : irRegisterType) : stM jitter unit :=
  insn ← alloc_instruction;
  touch src;;
  write_instruction insn (IR_WRITE w src offset);;
  next_instruction.

Definition add_insn_marker (value : Z) : stM jitter unit :=
  insn ← alloc_instruction;
  write_instruction insn (IR_INSN_MARKER value);;
  next_instruction.

Definition add_mov_const_8 (value : Z) : stM jitter nat :=
  add_mov_const value IR_REG_8.
Definition add_mov_const_16 (value : Z) : stM jitter nat :=
  add_mov_const value IR_REG_16.
Definition add_mov_const_32 (value : Z) : stM jitter nat :=
  add_mov_const value IR_REG_32.
Definition add_mov_const_64 (value : Z) : stM jitter nat :=
  add_mov_const value IR_REG_64.
Definition add_load_8 (address : nat) : stM jitter nat :=
  add_load address IR_REG_8.
Definition add_load_16 (address : nat) : stM jitter nat :=
  add_load address IR_REG_16.
Definition add_load_32 (address : nat) : stM jitter nat :=
  add_load address IR_REG_32.
Definition add_load_64 (address : nat) : stM jitter nat :=
  add_load address IR_REG_64.
Definition add_store_8 (src address : nat) : stM jitter unit :=
  assert_type src IR_REG_8;; add_store src address IR_REG_8.
Definition add_store_16 (src address : nat) : stM jitter unit :=
  assert_type src IR_REG_16;; add_store src address IR_REG_16.
Definition add_store_32 (src address : nat) : stM jitter unit :=
  assert_type src IR_REG_32;; add_store src address IR_REG_32.
Definition add_store_64 (src address : nat) : stM jitter unit :=
  assert_type src IR_REG_64;; add_store src address IR_REG_64.
Definition add_add_8 (op1 op2 : nat) : stM jitter nat :=
  assert_type2 op1 IR_REG_8 op2 IR_REG_8;;
  add_binop op1 op2 (IR_BINOP_ ADD IR_REG_8).
Definition add_add_16 (op1 op2 : nat) : stM jitter nat :=
  assert_type2 op1 IR_REG_16 op2 IR_REG_16;;
  add_binop op1 op2 (IR_BINOP_ ADD IR_REG_16).
Definition add_add_32 (op1 op2 : nat) : stM jitter nat :=
  assert_type2 op1 IR_REG_32 op2 IR_REG_32;;
  add_binop op1 op2 (IR_BINOP_ ADD IR_REG_32).
Definition add_add_64 (op1 op2 : nat) : stM jitter nat :=
  assert_type2 op1 IR_REG_64 op2 IR_REG_64;;
  add_binop op1 op2 (IR_BINOP_ ADD IR_REG_64).
Definition add_sub_8 (op1 op2 : nat) : stM jitter nat :=
  assert_type2 op1 IR_REG_8 op2 IR_REG_8;;
  add_binop op1 op2 (IR_BINOP_ SUB IR_REG_8).
Definition add_sub_16 (op1 op2 : nat) : stM jitter nat :=
  assert_type2 op1 IR_REG_16 op2 IR_REG_16;;
  add_binop op1 op2 (IR_BINOP_ SUB IR_REG_16).
Definition add_sub_32 (op1 op2 : nat) : stM jitter nat :=
  assert_type2 op1 IR_REG_32 op2 IR_REG_32;;
  add_binop op1 op2 (IR_BINOP_ SUB IR_REG_32).
Definition add_sub_64 (op1 op2 : nat) : stM jitter nat :=
  assert_type2 op1 IR_REG_64 op2 IR_REG_64;;
  add_binop op1 op2 (IR_BINOP_ SUB IR_REG_64).
Definition add_xor_8 (op1 op2 : nat) : stM jitter nat :=
  assert_type2 op1 IR_REG_8 op2 IR_REG_8;;
  add_binop op1 op2 (IR_BINOP_ XOR IR_REG_8).
Definition add_xor_16 (op1 op2 : nat) : stM jitter nat :=
  assert_type2 op1 IR_REG_16 op2 IR_REG_16;;
  add_binop op1 op2 (IR_BINOP_ XOR IR_REG_16).
Definition add_xor_32 (op1 op2 : nat) : stM jitter nat :=
  assert_type2 op1 IR_REG_32 op2 IR_REG_32;;
  add_binop op1 op2 (IR_BINOP_ XOR IR_REG_32).
Definition add_xor_64 (op1 op2 : nat) : stM jitter nat :=
  assert_type2 op1 IR_REG_64 op2 IR_REG_64;;
  add_binop op1 op2 (IR_BINOP_ XOR IR_REG_64).
Definition add_and_8 (op1 op2 : nat) : stM jitter nat :=
  assert_type2 op1 IR_REG_8 op2 IR_REG_8;;
  add_binop op1 op2 (IR_BINOP_ AND IR_REG_8).
Definition add_and_16 (op1 op2 : nat) : stM jitter nat :=
  assert_type2 op1 IR_REG_16 op2 IR_REG_16;;
  add_binop op1 op2 (IR_BINOP_ AND IR_REG_16).
Definition add_and_32 (op1 op2 : nat) : stM jitter nat :=
  assert_type2 op1 IR_REG_32 op2 IR_REG_32;;
  add_binop op1 op2 (IR_BINOP_ AND IR_REG_32).
Definition add_and_64 (op1 op2 : nat) : stM jitter nat :=
  assert_type2 op1 IR_REG_64 op2 IR_REG_64;;
  add_binop op1 op2 (IR_BINOP_ AND IR_REG_64).
Definition add_or_8 (op1 op2 : nat) : stM jitter nat :=
  assert_type2 op1 IR_REG_8 op2 IR_REG_8;;
  add_binop op1 op2 (IR_BINOP_ OR IR_REG_8).
Definition add_or_16 (op1 op2 : nat) : stM jitter nat :=
  assert_type2 op1 IR_REG_16 op2 IR_REG_16;;
  add_binop op1 op2 (IR_BINOP_ OR IR_REG_16).
Definition add_or_32 (op1 op2 : nat) : stM jitter nat :=
  assert_type2 op1 IR_REG_32 op2 IR_REG_32;;
  add_binop op1 op2 (IR_BINOP_ OR IR_REG_32).
Definition add_or_64 (op1 op2 : nat) : stM jitter nat :=
  assert_type2 op1 IR_REG_64 op2 IR_REG_64;;
  add_binop op1 op2 (IR_BINOP_ OR IR_REG_64).
Definition add_shl_8 (op1 op2 : nat) : stM jitter nat :=
  assert_type2 op1 IR_REG_8 op2 IR_REG_8;;
  add_binop op1 op2 (IR_BINOP_ SHL IR_REG_8).
Definition add_shl_16 (op1 op2 : nat) : stM jitter nat :=
  assert_type2 op1 IR_REG_16 op2 IR_REG_8;;
  add_binop op1 op2 (IR_BINOP_ SHL IR_REG_16).
Definition add_shl_32 (op1 op2 : nat) : stM jitter nat :=
  assert_type2 op1 IR_REG_32 op2 IR_REG_8;;
  add_binop op1 op2 (IR_BINOP_ SHL IR_REG_32).
Definition add_shl_64 (op1 op2 : nat) : stM jitter nat :=
  assert_type2 op1 IR_REG_64 op2 IR_REG_8;;
  add_binop op1 op2 (IR_BINOP_ SHL IR_REG_64).
Definition add_shr_8 (op1 op2 : nat) : stM jitter nat :=
  assert_type2 op1 IR_REG_8 op2 IR_REG_8;;
  add_binop op1 op2 (IR_BINOP_ SHR IR_REG_8).
Definition add_shr_16 (op1 op2 : nat) : stM jitter nat :=
  assert_type2 op1 IR_REG_16 op2 IR_REG_8;;
  add_binop op1 op2 (IR_BINOP_ SHR IR_REG_16).
Definition add_shr_32 (op1 op2 : nat) : stM jitter nat :=
  assert_type2 op1 IR_REG_32 op2 IR_REG_8;;
  add_binop op1 op2 (IR_BINOP_ SHR IR_REG_32).
Definition add_shr_64 (op1 op2 : nat) : stM jitter nat :=
  assert_type2 op1 IR_REG_64 op2 IR_REG_8;;
  add_binop op1 op2 (IR_BINOP_ SHR IR_REG_64).
Definition add_asr_8 (op1 op2 : nat) : stM jitter nat :=
  assert_type2 op1 IR_REG_8 op2 IR_REG_8;;
  add_binop op1 op2 (IR_BINOP_ ASR IR_REG_8).
Definition add_asr_16 (op1 op2 : nat) : stM jitter nat :=
  assert_type2 op1 IR_REG_16 op2 IR_REG_8;;
  add_binop op1 op2 (IR_BINOP_ ASR IR_REG_16).
Definition add_asr_32 (op1 op2 : nat) : stM jitter nat :=
  assert_type2 op1 IR_REG_32 op2 IR_REG_8;;
  add_binop op1 op2 (IR_BINOP_ ASR IR_REG_32).
Definition add_asr_64 (op1 op2 : nat) : stM jitter nat :=
  assert_type2 op1 IR_REG_64 op2 IR_REG_8;;
  add_binop op1 op2 (IR_BINOP_ ASR IR_REG_64).
Definition add_ror_8 (op1 op2 : nat) : stM jitter nat :=
  assert_type2 op1 IR_REG_8 op2 IR_REG_8;;
  add_binop op1 op2 (IR_BINOP_ ROR IR_REG_8).
Definition add_ror_16 (op1 op2 : nat) : stM jitter nat :=
  assert_type2 op1 IR_REG_16 op2 IR_REG_8;;
  add_binop op1 op2 (IR_BINOP_ ROR IR_REG_16).
Definition add_ror_32 (op1 op2 : nat) : stM jitter nat :=
  assert_type2 op1 IR_REG_32 op2 IR_REG_8;;
  add_binop op1 op2 (IR_BINOP_ ROR IR_REG_32).
Definition add_ror_64 (op1 op2 : nat) : stM jitter nat :=
  assert_type2 op1 IR_REG_64 op2 IR_REG_8;;
  add_binop op1 op2 (IR_BINOP_ ROR IR_REG_64).
Definition add_cmpeq_8 (op1 op2 : nat) : stM jitter nat :=
  assert_type2 op1 IR_REG_8 op2 IR_REG_8;;
  add_binop op1 op2 (IR_BINOP_ CMPEQ IR_REG_8).
Definition add_cmpeq_16 (op1 op2 : nat) : stM jitter nat :=
  assert_type2 op1 IR_REG_16 op2 IR_REG_16;;
  add_binop op1 op2 (IR_BINOP_ CMPEQ IR_REG_16).
Definition add_cmpeq_32 (op1 op2 : nat) : stM jitter nat :=
  assert_type2 op1 IR_REG_32 op2 IR_REG_32;;
  add_binop op1 op2 (IR_BINOP_ CMPEQ IR_REG_32).
Definition add_cmpeq_64 (op1 op2 : nat) : stM jitter nat :=
  assert_type2 op1 IR_REG_64 op2 IR_REG_64;;
  add_binop op1 op2 (IR_BINOP_ CMPEQ IR_REG_64).
Definition add_cmpne_8 (op1 op2 : nat) : stM jitter nat :=
  assert_type2 op1 IR_REG_8 op2 IR_REG_8;;
  add_binop op1 op2 (IR_BINOP_ CMPNE IR_REG_8).
Definition add_cmpne_16 (op1 op2 : nat) : stM jitter nat :=
  assert_type2 op1 IR_REG_16 op2 IR_REG_16;;
  add_binop op1 op2 (IR_BINOP_ CMPNE IR_REG_16).
Definition add_cmpne_32 (op1 op2 : nat) : stM jitter nat :=
  assert_type2 op1 IR_REG_32 op2 IR_REG_32;;
  add_binop op1 op2 (IR_BINOP_ CMPNE IR_REG_32).
Definition add_cmpne_64 (op1 op2 : nat) : stM jitter nat :=
  assert_type2 op1 IR_REG_64 op2 IR_REG_64;;
  add_binop op1 op2 (IR_BINOP_ CMPNE IR_REG_64).
Definition add_call_void (address : nat) (param : list (option nat)) : stM jitter unit :=
  add_call address param None;; mret tt.
Definition add_call_8 (address : nat) (param : list (option nat)) : stM jitter (option nat) :=
  add_call address param (Some IR_REG_8).
Definition add_call_16 (address : nat) (param : list (option nat)) : stM jitter (option nat) :=
  add_call address param (Some IR_REG_16).
Definition add_call_32 (address : nat) (param : list (option nat)) : stM jitter (option nat) :=
  add_call address param (Some IR_REG_32).
Definition add_call_64 (address : nat) (param : list (option nat)) : stM jitter (option nat) :=
  add_call address param (Some IR_REG_64).
Definition add_ite_8 (pred trueOp falseOp : nat) : stM jitter nat :=
  add_ite pred trueOp falseOp IR_REG_8.
Definition add_ite_16 (pred trueOp falseOp : nat) : stM jitter nat :=
  add_ite pred trueOp falseOp IR_REG_16.
Definition add_ite_32 (pred trueOp falseOp : nat) : stM jitter nat :=
  add_ite pred trueOp falseOp IR_REG_32.
Definition add_ite_64 (pred trueOp falseOp : nat) : stM jitter nat :=
  add_ite pred trueOp falseOp IR_REG_64.
Definition add_8U_to_16 (op : nat) : stM jitter nat :=
  add_cast op IR_CAST_8U_TO_16 IR_REG_16.
Definition add_8U_to_32 (op : nat) : stM jitter nat :=
  add_cast op IR_CAST_8U_TO_32 IR_REG_32.
Definition add_8U_to_64 (op : nat) : stM jitter nat :=
  add_cast op IR_CAST_8U_TO_64 IR_REG_64.
Definition add_8S_to_16 (op : nat) : stM jitter nat :=
  add_cast op IR_CAST_8S_TO_16 IR_REG_16.
Definition add_8S_to_32 (op : nat) : stM jitter nat :=
  add_cast op IR_CAST_8S_TO_32 IR_REG_32.
Definition add_8S_to_64 (op : nat) : stM jitter nat :=
  add_cast op IR_CAST_8S_TO_64 IR_REG_64.
Definition add_16U_to_32 (op : nat) : stM jitter nat :=
  add_cast op IR_CAST_16U_TO_32 IR_REG_32.
Definition add_16U_to_64 (op : nat) : stM jitter nat :=
  add_cast op IR_CAST_16U_TO_64 IR_REG_64.
Definition add_16S_to_32 (op : nat) : stM jitter nat :=
  add_cast op IR_CAST_16S_TO_32 IR_REG_32.
Definition add_16S_to_64 (op : nat) : stM jitter nat :=
  add_cast op IR_CAST_16S_TO_64 IR_REG_64.
Definition add_32U_to_64 (op : nat) : stM jitter nat :=
  add_cast op IR_CAST_32U_TO_64 IR_REG_64.
Definition add_32S_to_64 (op : nat) : stM jitter nat :=
  add_cast op IR_CAST_32S_TO_64 IR_REG_64.
Definition add_64_to_8 (op : nat) : stM jitter nat :=
  add_cast op IR_CAST_64_TO_8 IR_REG_8.
Definition add_32_to_8 (op : nat) : stM jitter nat :=
  add_cast op IR_CAST_32_TO_8 IR_REG_8.
Definition add_16_to_8 (op : nat) : stM jitter nat :=
  add_cast op IR_CAST_16_TO_8 IR_REG_8.
Definition add_64_to_16 (op : nat) : stM jitter nat :=
  add_cast op IR_CAST_64_TO_16 IR_REG_16.
Definition add_32_to_16 (op : nat) : stM jitter nat :=
  add_cast op IR_CAST_32_TO_16 IR_REG_16.
Definition add_64_to_32 (op : nat) : stM jitter nat :=
  add_cast op IR_CAST_64_TO_32 IR_REG_32.
Definition add_read_context_8 (offset : Z) : stM jitter nat :=
  add_read_context offset IR_REG_8.
Definition add_read_context_16 (offset : Z) : stM jitter nat :=
  add_read_context offset IR_REG_16.
Definition add_read_context_32 (offset : Z) : stM jitter nat :=
  add_read_context offset IR_REG_32.
Definition add_read_context_64 (offset : Z) : stM jitter nat :=
  add_read_context offset IR_REG_64.
Definition add_write_context_8 (src : nat) (offset : Z) : stM jitter unit :=
  add_write_context src offset IR_REG_8.
Definition add_write_context_16 (src : nat) (offset : Z) : stM jitter unit :=
  add_write_context src offset IR_REG_16.
Definition add_write_context_32 (src : nat) (offset : Z) : stM jitter unit :=
  add_write_context src offset IR_REG_32.
Definition add_write_context_64 (src : nat) (offset : Z) : stM jitter unit :=
  add_write_context src offset IR_REG_64.
Definition add_exit (exitValue : nat) : stM jitter unit :=
  add_exit_cond exitValue None.

(** ** The allocator interface

    The front ends reach the functions above through the table of function
    pointers [struct irInstructionAllocator] that [createJitter] fills; a
    request to it is one of the following calls. *)
Inductive irCall :=
  | CallMovConst (w : irRegisterType) (value : Z)
  | CallLoad (w : irRegisterType) (address : nat)
  | CallStore (w : irRegisterType) (src address : nat)
  | CallBinop (k : binopKind) (w : irRegisterType) (op1 op2 : nat)
  | CallCallVoid (address : nat) (param : list (option nat))
  | CallCall (w : irRegisterType) (address : nat) (param : list (option nat))
  | CallIte (w : irRegisterType) (pred trueOp falseOp : nat)
  | CallCast (t : irCastType) (op : nat)
  | CallExit (exitValue : nat)
  | CallExitCond (exitValue : nat) (pred : option nat)
  | CallReadContext (w : irRegisterType) (offset : Z)
  | CallWriteContext (w : irRegisterType) (src : nat) (offset : Z)
  | CallMarker (value : Z).

Definition irAlloc_mov_const (w : irRegisterType) : Z -> stM jitter nat :=
  match w with
  | IR_REG_8 => add_mov_const_8
  | IR_REG_16 => add_mov_const_16
  | IR_REG_32 => add_mov_const_32
  | IR_REG_64 => add_mov_const_64
  end.

Definition irAlloc_load (w : irRegisterType) : nat -> stM jitter nat :=
  match w with
  | IR_REG_8 => add_load_8
  | IR_REG_16 => add_load_16
  | IR_REG_32 => add_load_32
  | IR_REG_64 => add_load_64
  end.

Definition irAlloc_store (w : irRegisterType) : nat -> nat -> stM jitter unit :=
  match w with
  | IR_REG_8 => add_store_8
  | IR_REG_16 => add_store_16
  | IR_REG_32 => add_store_32
  | IR_REG_64 => add_store_64
  end.

Definition irAlloc_binop (k : binopKind) (w : irRegisterType) : nat -> nat -> stM jitter nat :=
  match k, w with
  | ADD, IR_REG_8 => add_add_8
  | ADD, IR_REG_16 => add_add_16
  | ADD, IR_REG_32 => add_add_32
  | ADD, IR_REG_64 => add_add_64
  | SUB, IR_REG_8 => add_sub_8
  | SUB, IR_REG_16 => add_sub_16
  | SUB, IR_REG_32 => add_sub_32
  | SUB, IR_REG_64 => add_sub_64
  | XOR, IR_REG_8 => add_xor_8
  | XOR, IR_REG_16 => add_xor_16
  | XOR, IR_REG_32 => add_xor_32
  | XOR, IR_REG_64 => add_xor_64
  | AND, IR_REG_8 => add_and_8
  | AND, IR_REG_16 => add_and_16
  | AND, IR_REG_32 => add_and_32
  | AND, IR_REG_64 => add_and_64
  | OR, IR_REG_8 => add_or_8
  | OR, IR_REG_16 => add_or_16
  | OR, IR_REG_32 => add_or_32
  | OR, IR_REG_64 => add_or_64
  | SHL, IR_REG_8 => add_shl_8
  | SHL, IR_REG_16 => add_shl_16
  | SHL, IR_REG_32 => add_shl_32
  | SHL, IR_REG_64 => add_shl_64
  | SHR, IR_REG_8 => add_shr_8
  | SHR, IR_REG_16 => add_shr_16
  | SHR, IR_REG_32 => add_shr_32
  | SHR, IR_REG_64 => add_shr_64
  | ASR, IR_REG_8 => add_asr_8
  | ASR, IR_REG_16 => add_asr_16
  | ASR, IR_REG_32 => add_asr_32
  | ASR, IR_REG_64 => add_asr_64
  | ROR, IR_REG_8 => add_ror_8
  | ROR, IR_REG_16 => add_ror_16
  | ROR, IR_REG_32 => add_ror_32
  | ROR, IR_REG_64 => add_ror_64
  | CMPEQ, IR_REG_8 => add_cmpeq_8
  | CMPEQ, IR_REG_16 => add_cmpeq_16
  | CMPEQ, IR_REG_32 => add_cmpeq_32
  | CMPEQ, IR_REG_64 => add_cmpeq_64
  | CMPNE, IR_REG_8 => add_cmpne_8
  | CMPNE, IR_REG_16 => add_cmpne_16
  | CMPNE, IR_REG_32 => add_cmpne_32
  | CMPNE, IR_REG_64 => add_cmpne_64
  end.

Definition irAlloc_call (w : irRegisterType) : nat -> list (option nat) -> stM jitter (option nat) :=
  match w with
  | IR_REG_8 => add_call_8
  | IR_REG_16 => add_call_16
  | IR_REG_32 => add_call_32
  | IR_REG_64 => add_call_64
  end.

Definition irAlloc_ite (w : irRegisterType) : nat -> nat -> nat -> stM jitter nat :=
  match w with
  | IR_REG_8 => add_ite_8
  | IR_REG_16 => add_ite_16
  | IR_REG_32 => add_ite_32
  | IR_REG_64 => add_ite_64
  end.

Definition irAlloc_cast (t : irCastType) : nat -> stM jitter nat :=
  match t with
  | IR_CAST_8U_TO_16 => add_8U_to_16
  | IR_CAST_8U_TO_32 => add_8U_to_32
  | IR_CAST_8U_TO_64 => add_8U_to_64
  | IR_CAST_8S_TO_16 => add_8S_to_16
  | IR_CAST_8S_TO_32 => add_8S_to_32
  | IR_CAST_8S_TO_64 => add_8S_to_64
  | IR_CAST_16U_TO_32 => add_16U_to_32
  | IR_CAST_16U_TO_64 => add_16U_to_64
  | IR_CAST_16S_TO_32 => add_16S_to_32
  | IR_CAST_16S_TO_64 => add_16S_to_64
  | IR_CAST_32U_TO_64 => add_32U_to_64
  | IR_CAST_32S_TO_64 => add_32S_to_64
  | IR_CAST_64_TO_8 => add_64_to_8
  | IR_CAST_32_TO_8 => add_32_to_8
  | IR_CAST_16_TO_8 => add_16_to_8
  | IR_CAST_64_TO_16 => add_64_to_16
  | IR_CAST_32_TO_16 => add_32_to_16
  | IR_CAST_64_TO_32 => add_64_to_32
  end.

Definition irAlloc_read_context (w : irRegisterType) : Z -> stM jitter nat :=
  match w with
  | IR_REG_8 => add_read_context_8
  | IR_REG_16 => add_read_context_16
  | IR_REG_32 => add_read_context_32
  | IR_REG_64 => add_read_context_64
  end.

Definition irAlloc_write_context (w : irRegisterType) : nat -> Z -> stM jitter unit :=
  match w with
  | IR_REG_8 => add_write_context_8
  | IR_REG_16 => add_write_context_16
  | IR_REG_32 => add_write_context_32
  | IR_REG_64 => add_write_context_64
  end.

(** One request through the table; the result is the register it returns. *)
Definition irAlloc_run (c : irCall) : stM jitter (option nat) :=
  match c with
  | CallMovConst w v => r ← irAlloc_mov_const w v; mret (Some r)
  | CallLoad w a => r ← irAlloc_load w a; mret (Some r)
  | CallStore w s a => irAlloc_store w s a;; mret None
  | CallBinop k w a b => r ← irAlloc_binop k w a b; mret (Some r)
  | CallCallVoid a ps => add_call_void a ps;; mret None
  | CallCall w a ps => irAlloc_call w a ps
  | CallIte w p t f => r ← irAlloc_ite w p t f; mret (Some r)
  | CallCast t o => r ← irAlloc_cast t o; mret (Some r)
  | CallExit v => add_exit v;; mret None
  | CallExitCond v p => add_exit_cond v p;; mret None
  | CallReadContext w off => r ← irAlloc_read_context w off; mret (Some r)
  | CallWriteContext w s off => irAlloc_write_context w s off;; mret None
  | CallMarker v => add_insn_marker v;; mret None
  end.

(** A front end's session: requests one after the other. *)
Fixpoint irAlloc_session (cs : list irCall) : stM jitter unit :=
  match cs with
  | [] => mret tt
  | c :: cs => irAlloc_run c;; irAlloc_session cs
  end.

(** ** Life cycle *)

(** [resetJitter], the back end's own reset apart. *)
Definition resetJitter (j : jitter) : jitter :=
  mkJitter (memoryPoolReset (registerPoolAllocator j)) 0 0
           (memoryPoolReset (instructionPoolAllocator j)).

Definition JITTER_MIN_CONTEXT_SIZE : Z := 32 * 1024.

(** [createJitter] on [size] bytes of memory: the function table apart, it
    shares out what the structure leaves between the two pools. *)
Definition createJitter (size : Z) : option jitter :=
  if JITTER_MIN_CONTEXT_SIZE <=? size then
    let struct_jitter_size_aligned_16 := Z.land (sizeof_jitter + 15) (Z.lnot 15) in
    let pool_mem_size := (size - struct_jitter_size_aligned_16) / 2 in
    Some (resetJitter
      (mkJitter (memoryPoolInit (mkPool [] 0 0) pool_mem_size) 0 0
                (memoryPoolInit (mkPool [] 0 0) pool_mem_size)))
  else None.

(** What [jitCode] hands to the back end: the instruction array, whose length
    is computed from the pool's byte index. *)
Definition jitCode_insnNb (j : jitter) : Z :=
  pool_index (instructionPoolAllocator j) / sizeof_irInstruction.

Definition jitCode_irArray (j : jitter) : list irInstruction :=
  take (Z.to_nat (jitCode_insnNb j)) (buffer (instructionPoolAllocator j)).

(** ** What one request does *)

Definition regs (j : jitter) : list irRegister := buffer (registerPoolAllocator j).
Definition insns (j : jitter) : list irInstruction := buffer (instructionPoolAllocator j).

Definition fresh_register (j : jitter) (t : irRegisterType) : irRegister :=
  mkIrRegister t (regIndex j) (instructionIndex j) (-1) None.

Definition touch_list (n : Z) (us : list nat) (rs : list irRegister) : list irRegister :=
  foldl (fun rs u => alter (set_lastRead n) u rs) rs us.

Definition count {A} (o : option A) : Z := match o with Some _ => 1 | None => 0 end.

(** Reference description of a request: append the instruction [i], its new
    register if it has one, and mark the registers it reads. *)
Definition emit (t : option irRegisterType) (i : irInstruction) (j : jitter) : jitter :=
  let rp := registerPoolAllocator j in
  let ip := instructionPoolAllocator j in
  mkJitter
    (mkPool (touch_list (instructionIndex j) (ir_uses i)
               (buffer rp ++ option_list (fresh_register j <$> t)))
            (pool_index rp + sizeof_irRegister * count t) (pool_size rp))
    (instructionIndex j + 1) (regIndex j + count t)
    (mkPool (buffer ip ++ [i]) (pool_index ip + sizeof_irInstruction) (pool_size ip)).

Definition room (t : option irRegisterType) (j : jitter) : Prop :=
  sizeof_irRegister * count t + pool_index (registerPoolAllocator j)
    <= pool_size (registerPoolAllocator j) /\
  sizeof_irInstruction + pool_index (instructionPoolAllocator j)
    <= pool_size (instructionPoolAllocator j).

(** The intermediate states of a request. *)
Definition push_reg (t : irRegisterType) (j : jitter) : jitter :=
  mkJitter (mkPool (regs j ++ [fresh_register j t])
              (pool_index (registerPoolAllocator j) + sizeof_irRegister)
              (pool_size (registerPoolAllocator j)))
           (instructionIndex j) (regIndex j + 1) (instructionPoolAllocator j).
Definition push_insn (i : irInstruction) (j : jitter) : jitter :=
  with_insns (fun ip => mkPool (buffer ip ++ [i]) (pool_index ip + sizeof_irInstruction)
                               (pool_size ip)) j.
Definition touch_state (us : list nat) (j : jitter) : jitter :=
  with_regs (fun rp => mkPool (touch_list (instructionIndex j) us (buffer rp))
                              (pool_index rp) (pool_size rp)) j.
Definition bump (j : jitter) : jitter :=
  mkJitter (registerPoolAllocator j) (instructionIndex j + 1) (regIndex j)
           (instructionPoolAllocator j).

Lemma insert_snoc {A} (l : list A) (x y : A) : <[length l := x]> (l ++ [y]) = l ++ [x].
Proof. induction l; cbn; [done|]. by f_equal. Qed.

Lemma insert_alter {A} (f : A -> A) (l : list A) (i : nat) (x : A) :
  l !! i = Some x -> <[i := f x]> l = alter f i l.
Proof.
  revert i. induction l as [|y l IH]; intros [|i] H; cbn in *; [done|done|congruence|].
  f_equal. by apply IH.
Qed.

Lemma length_touch_list n us rs : length (touch_list n us rs) = length rs.
Proof.
  unfold touch_list. revert rs. induction us as [|u us IH]; intros rs; cbn; [done|].
  rewrite IH. apply length_alter.
Qed.

Lemma alloc_register_object_eq j :
  alloc_register_object j =
    if sizeof_irRegister + pool_index (registerPoolAllocator j)
         <=? pool_size (registerPoolAllocator j)
    then Some (length (regs j), with_regs (fun p => mkPool (buffer p ++ [uninit_register])
                 (pool_index p + sizeof_irRegister) (pool_size p)) j)
    else None.
Proof. unfold alloc_register_object, memoryPoolAlloc. by destruct (_ <=? _). Qed.

Lemma allocateRegister_eq t j :
  allocateRegister t j =
    if sizeof_irRegister + pool_index (registerPoolAllocator j)
         <=? pool_size (registerPoolAllocator j)
    then Some (length (regs j), push_reg t j) else None.
Proof.
  unfold allocateRegister. run_m. rewrite alloc_register_object_eq.
  destruct (_ <=? _); [|done]. unfold put_reg. run_m.
  unfold push_reg, with_regs, pool_write, fresh_register, regs; cbn. by rewrite insert_snoc.
Qed.

Lemma alloc_instruction_eq j :
  alloc_instruction j =
    if sizeof_irInstruction + pool_index (instructionPoolAllocator j)
         <=? pool_size (instructionPoolAllocator j)
    then Some (length (insns j), push_insn uninit_instruction j) else None.
Proof. unfold alloc_instruction, memoryPoolAlloc. by destruct (_ <=? _). Qed.

Lemma get_reg_eq r j x : regs j !! r = Some x -> get_reg r j = Some (x, j).
Proof. intros H. unfold get_reg. run_m. unfold regs in H. by rewrite H. Qed.

Lemma touch_eq r j :
  (r < length (regs j))%nat -> touch r j = Some (tt, touch_state [r] j).
Proof.
  intros [x Hr]%lookup_lt_is_Some_2. unfold touch. run_m.
  rewrite (get_reg_eq _ _ _ Hr). unfold put_reg. run_m.
  unfold touch_state, with_regs, pool_write; cbn. unfold regs in Hr.
  by rewrite (insert_alter _ _ _ _ Hr).
Qed.

Lemma touch_state_nil j : touch_state [] j = j.
Proof. by destruct j as [[] ? ? []]. Qed.

Lemma touch_state_app us vs j :
  touch_state vs (touch_state us j) = touch_state (us ++ vs) j.
Proof. unfold touch_state, touch_list, with_regs; cbn. by rewrite foldl_app. Qed.

Lemma length_regs_touch us j : length (regs (touch_state us j)) = length (regs j).
Proof. apply length_touch_list. Qed.

Definition valid_args (j : jitter) (us : list nat) : Prop :=
  Forall (fun r => (r < length (regs j))%nat) us.

Lemma touch_params_eq ps j :
  valid_args j (ps ≫= option_list) ->
  touch_params ps j = Some (tt, touch_state (ps ≫= option_list) j).
Proof.
  revert j. induction ps as [|[p|] ps IH]; intros j H; cbn in *.
  - by rewrite touch_state_nil.
  - inversion H as [|? ? Hp HF]; subst. run_m. rewrite touch_eq by done.
    rewrite IH.
    + by rewrite touch_state_app.
    + eapply Forall_impl; [exact HF|]. intros r Hr. cbv beta in *. by rewrite length_regs_touch.
  - by apply IH.
Qed.

Lemma assert_type_eq r t j x :
  regs j !! r = Some x ->
  assert_type r t j = if decide (type x = t) then Some (tt, j) else None.
Proof.
  intros H. unfold assert_type. run_m. rewrite (get_reg_eq _ _ _ H).
  by destruct (decide (type x = t)); [rewrite bool_decide_eq_true_2 | rewrite bool_decide_eq_false_2].
Qed.

Lemma write_instruction_push i u j :
  with_insns (pool_write (length (insns j)) i) (push_insn u j) = push_insn i j.
Proof. unfold with_insns, pool_write, push_insn, insns; cbn. by rewrite insert_snoc. Qed.


(** The registers a request names. *)
Definition call_args (c : irCall) : list nat :=
  match c with
  | CallMovConst _ _ | CallReadContext _ _ | CallMarker _ => []
  | CallLoad _ a => [a]
  | CallStore _ s a => [a; s]
  | CallBinop _ _ a b => [a; b]
  | CallCallVoid a ps | CallCall _ a ps => a :: (ps ≫= option_list)
  | CallIte _ p t f => [p; t; f]
  | CallCast _ o => [o]
  | CallExit v => [v]
  | CallExitCond v p => v :: option_list p
  | CallWriteContext _ s _ => [s]
  end.

(** The type of the register a request creates, if it creates one. *)
Definition call_type (c : irCall) (rs : list irRegister) : option irRegisterType :=
  match c with
  | CallMovConst w _ | CallLoad w _ | CallReadContext w _ | CallCall w _ _
  | CallBinop _ w _ _ => Some w
  | CallIte _ _ t _ => type <$> rs !! t
  | CallCast t _ => Some (cast_dst t)
  | _ => None
  end.

(** The instruction a request appends when its new register has slot [d]. *)
Definition call_insn (c : irCall) (d : nat) : irInstruction :=
  match c with
  | CallMovConst w v => IR_MOV_CONST w d (wrap 64 v)
  | CallLoad w a => IR_LOAD w d a
  | CallStore w s a => IR_STORE w s a
  | CallBinop k w a b => IR_BINOP (IR_BINOP_ k w) d a b
  | CallCallVoid a ps => IR_CALL None a ps None
  | CallCall w a ps => IR_CALL (Some w) a ps (Some d)
  | CallIte w p t f => IR_ITE w d p t f
  | CallCast t o => IR_CAST t d o
  | CallExit v => IR_EXIT v None
  | CallExitCond v p => IR_EXIT v p
  | CallReadContext w off => IR_READ w d off
  | CallWriteContext w s off => IR_WRITE w s off
  | CallMarker v => IR_INSN_MARKER v
  end.

Definition has_type (rs : list irRegister) (r : nat) (t : irRegisterType) : bool :=
  bool_decide (type <$> rs !! r = Some t).

(** The assertions of the request on the types of its operands. *)
Definition call_asserts (c : irCall) (rs : list irRegister) : bool :=
  match c with
  | CallStore w s _ => has_type rs s w
  | CallBinop k w a b => has_type rs a w && has_type rs b (op2_type k w)
  | CallIte _ p t f =>
      bool_decide (type <$> rs !! p = type <$> rs !! t) &&
      bool_decide (type <$> rs !! p = type <$> rs !! f)
  | CallExit v | CallExitCond v _ => has_type rs v IR_REG_64
  | _ => true
  end.

Definition room_b (t : option irRegisterType) (j : jitter) : bool :=
  (sizeof_irRegister * count t + pool_index (registerPoolAllocator j)
    <=? pool_size (registerPoolAllocator j)) || bool_decide (t = None).

Definition insn_room_b (j : jitter) : bool :=
  sizeof_irInstruction + pool_index (instructionPoolAllocator j)
    <=? pool_size (instructionPoolAllocator j).

(** Reference result of a request. *)
Definition run_spec (c : irCall) (j : jitter) : option (option nat * jitter) :=
  let t := call_type c (regs j) in
  let d := length (regs j) in
  if call_asserts c (regs j) && room_b t j && insn_room_b j
  then Some ((fun _ => d) <$> t, emit t (call_insn c d) j)
  else None.

Lemma has_type_lookup rs r t x :
  rs !! r = Some x -> has_type rs r t = bool_decide (type x = t).
Proof. intros H. unfold has_type. rewrite H. cbn. apply bool_decide_ext. naive_solver. Qed.

Lemma assert_type_has_type r t j :
  (r < length (regs j))%nat ->
  assert_type r t j = if has_type (regs j) r t then Some (tt, j) else None.
Proof.
  intros [x Hx]%lookup_lt_is_Some_2. rewrite (assert_type_eq _ _ _ _ Hx).
  rewrite (has_type_lookup _ _ _ _ Hx).
  by destruct (decide (type x = t)); [rewrite bool_decide_eq_true_2 | rewrite bool_decide_eq_false_2].
Qed.

Lemma room_None j : room_b None j = true.
Proof. unfold room_b. by rewrite orb_true_r. Qed.

Lemma room_Some t j :
  room_b (Some t) j =
    (sizeof_irRegister + pool_index (registerPoolAllocator j)
       <=? pool_size (registerPoolAllocator j)).
Proof. unfold room_b. cbn [count]. rewrite Z.mul_1_r. by rewrite orb_false_r. Qed.

Lemma bool_decide_Some_eq (a b : irRegisterType) :
  bool_decide (Some a = Some b) = bool_decide (a = b).
Proof. apply bool_decide_ext. split; congruence. Qed.

(** The four shapes a request has: with or without a new register, with the
    operands touched before the final write. *)
Lemma emit_reg_state t i us j :
  ir_uses i = us ->
  bump (with_insns (pool_write (length (insns j)) i)
         (touch_state us (push_insn uninit_instruction (push_reg t j)))) = emit (Some t) i j.
Proof.
  intros <-. unfold emit, bump, touch_state, push_insn, push_reg, with_insns, with_regs, pool_write,
    insns, regs; cbn. by rewrite insert_snoc.
Qed.

Lemma emit_noreg_state i us j :
  ir_uses i = us ->
  bump (with_insns (pool_write (length (insns j)) i)
         (touch_state us (push_insn uninit_instruction j))) = emit None i j.
Proof.
  intros <-. unfold emit, bump, touch_state, push_insn, with_insns, with_regs, pool_write,
    insns, regs; cbn. rewrite insert_snoc, app_nil_r, Z.add_0_r. do 2 f_equal; lia.
Qed.

Lemma length_regs_push_insn i j : length (regs (push_insn i j)) = length (regs j).
Proof. done. Qed.

Lemma length_regs_push_reg t j : length (regs (push_reg t j)) = S (length (regs j)).
Proof. unfold push_reg, regs; cbn. rewrite length_app; cbn. lia. Qed.

Lemma lookup_push_reg t j r x : regs j !! r = Some x -> regs (push_reg t j) !! r = Some x.
Proof. intros H. unfold push_reg, regs; cbn. by apply lookup_app_l_Some. Qed.

(** Bounds of register slots in the intermediate states. *)
Ltac reg_bound :=
  rewrite ?length_regs_touch, ?length_regs_push_insn, ?length_regs_push_reg;
  unfold valid_args in *; decompose_Forall_hyps; lia.

Lemma insn_room_push_reg t j :
  (sizeof_irInstruction + pool_index (instructionPoolAllocator (push_reg t j))
    <=? pool_size (instructionPoolAllocator (push_reg t j))) = insn_room_b j.
Proof. done. Qed.

Lemma insns_push_reg t j : insns (push_reg t j) = insns j.
Proof. done. Qed.

Lemma touch_list_app n us rs l :
  Forall (fun r => (r < length rs)%nat) us ->
  touch_list n us (rs ++ l) = touch_list n us rs ++ l.
Proof.
  unfold touch_list. revert rs. induction us as [|u us IH]; intros rs H; cbn; [done|].
  inversion H; subst. rewrite alter_app_l by done. apply IH. by rewrite length_alter.
Qed.

Lemma lookup_touch_list n us rs r :
  touch_list n us rs !! r =
    (fun x => if decide (r ∈ us) then set_lastRead n x else x) <$> rs !! r.
Proof.
  unfold touch_list. revert rs. induction us as [|u us IH]; intros rs.
  - case_decide; [set_solver|]. simpl. by destruct (rs !! r).
  - simpl foldl. rewrite IH, list_lookup_alter.
    pose proof (elem_of_cons us r u) as Hr.
    destruct (decide (u = r)) as [->|Hne]; destruct (rs !! r) as [x|]; simpl;
      repeat case_decide; first [done | exfalso; intuition congruence].
Qed.

Lemma has_type_touch us j r t :
  has_type (regs (touch_state us j)) r t = has_type (regs j) r t.
Proof.
  unfold has_type.
  change (regs (touch_state us j)) with (touch_list (instructionIndex j) us (regs j)).
  rewrite lookup_touch_list. apply bool_decide_ext.
  destruct (regs j !! r) as [x|]; [|done]. simpl. by case_decide.
Qed.

Lemma push_reg_touch t us i j :
  Forall (fun r => (r < length (regs j))%nat) us ->
  push_reg t (touch_state us (push_insn i j)) = touch_state us (push_insn i (push_reg t j)).
Proof.
  intros H. unfold push_reg, touch_state, push_insn, with_regs, with_insns, regs in *; cbn.
  by rewrite touch_list_app.
Qed.

Ltac touches := repeat (rewrite touch_eq by reg_bound; run_m); rewrite ?touch_state_app.

(** Run a request that creates a register of type [w] and reads [us]. *)
Ltac finish_reg_request us :=
  unfold write_instruction, next_instruction; run_m; do 2 f_equal;
  rewrite ?insns_push_reg; rewrite <- (emit_reg_state _ _ us) by done;
  rewrite ?touch_state_nil; reflexivity.

Ltac reg_request w us :=
  run_m; rewrite allocateRegister_eq, <- (room_Some w);
  destruct (room_b _ _); [|by rewrite ?andb_false_r];
  rewrite alloc_instruction_eq, insn_room_push_reg;
  destruct (insn_room_b _); [|by rewrite ?andb_false_r];
  touches; rewrite ?andb_true_r; finish_reg_request us.

Ltac finish_noreg_request us :=
  unfold write_instruction, next_instruction; run_m; do 2 f_equal;
  rewrite <- (emit_noreg_state _ us) by done; rewrite ?touch_state_nil; reflexivity.

Ltac noreg_request us :=
  run_m; rewrite alloc_instruction_eq; fold (insn_room_b);
  match goal with |- context [sizeof_irInstruction + ?a <=? ?b] =>
    change (sizeof_irInstruction + a <=? b) with (insn_room_b ltac:(match goal with j : jitter |- _ => exact j end)) end;
  destruct (insn_room_b _); [|by rewrite ?andb_false_r];
  touches; rewrite ?andb_true_r; finish_noreg_request us.

Section requests.
Context (j : jitter).
Let d := length (regs j).

Lemma add_mov_const_eq v w :
  add_mov_const v w j =
    if room_b (Some w) j && insn_room_b j
    then Some (d, emit (Some w) (IR_MOV_CONST w d (wrap 64 v)) j) else None.
Proof. unfold add_mov_const. reg_request w (@nil nat). Qed.

Lemma add_load_eq a w :
  valid_args j [a] ->
  add_load a w j =
    if room_b (Some w) j && insn_room_b j
    then Some (d, emit (Some w) (IR_LOAD w d a) j) else None.
Proof. intros Ha. unfold add_load. reg_request w [a]. Qed.

Lemma add_store_eq s a w :
  valid_args j [a; s] ->
  add_store s a w j =
    if insn_room_b j then Some (tt, emit None (IR_STORE w s a) j) else None.
Proof. intros Ha. unfold add_store. noreg_request [a; s]. Qed.

Lemma add_binop_eq a b bt x :
  valid_args j [a; b] -> regs j !! a = Some x ->
  add_binop a b bt j =
    if room_b (Some (type x)) j && insn_room_b j
    then Some (d, emit (Some (type x)) (IR_BINOP bt d a b) j) else None.
Proof.
  intros Ha Hx. unfold add_binop. run_m. rewrite (get_reg_eq _ _ _ Hx).
  reg_request (type x) [a; b].
Qed.

Lemma add_cast_eq o t w :
  valid_args j [o] ->
  add_cast o t w j =
    if room_b (Some w) j && insn_room_b j
    then Some (d, emit (Some w) (IR_CAST t d o) j) else None.
Proof. intros Ha. unfold add_cast. reg_request w [o]. Qed.

Lemma add_read_context_eq off w :
  add_read_context off w j =
    if room_b (Some w) j && insn_room_b j
    then Some (d, emit (Some w) (IR_READ w d off) j) else None.
Proof. unfold add_read_context. reg_request w (@nil nat). Qed.

Lemma add_write_context_eq s off w :
  valid_args j [s] ->
  add_write_context s off w j =
    if insn_room_b j then Some (tt, emit None (IR_WRITE w s off) j) else None.
Proof. intros Ha. unfold add_write_context. noreg_request [s]. Qed.

Lemma add_insn_marker_eq v :
  add_insn_marker v j =
    if insn_room_b j then Some (tt, emit None (IR_INSN_MARKER v) j) else None.
Proof. unfold add_insn_marker. noreg_request (@nil nat). Qed.

Lemma add_ite_eq p t f w x :
  valid_args j [p; t; f] -> regs j !! t = Some x ->
  add_ite p t f w j =
    if call_asserts (CallIte w p t f) (regs j) && room_b (Some (type x)) j && insn_room_b j
    then Some (d, emit (Some (type x)) (IR_ITE w d p t f) j) else None.
Proof.
  intros Ha Hx.
  assert (exists xp, regs j !! p = Some xp) as [xp Hp].
  { apply lookup_lt_is_Some_2. unfold valid_args in *. by decompose_Forall_hyps. }
  assert (exists xf, regs j !! f = Some xf) as [xf Hf].
  { apply lookup_lt_is_Some_2. unfold valid_args in *. by decompose_Forall_hyps. }
  unfold call_asserts. rewrite Hx, Hp, Hf. cbn [fmap option_fmap option_map].
  unfold add_ite. run_m. rewrite (get_reg_eq _ _ _ Hx).
  rewrite allocateRegister_eq, <- (room_Some (type x)).
  destruct (room_b _ _); [|by rewrite ?andb_false_r].
  rewrite alloc_instruction_eq, insn_room_push_reg.
  destruct (insn_room_b _); [|by rewrite ?andb_false_r].
  rewrite (get_reg_eq p _ xp) by (by apply lookup_push_reg).
  rewrite (get_reg_eq f _ xf) by (by apply lookup_push_reg).
  rewrite !andb_true_r.
  rewrite !bool_decide_Some_eq.
  destruct (_ && _); [|done]. touches. finish_reg_request [p; t; f].
Qed.

Lemma add_exit_cond_eq v p :
  valid_args j (v :: option_list p) ->
  add_exit_cond v p j =
    if has_type (regs j) v IR_REG_64 && insn_room_b j
    then Some (tt, emit None (IR_EXIT v p) j) else None.
Proof.
  intros Ha. unfold add_exit_cond. run_m. rewrite alloc_instruction_eq.
  change (sizeof_irInstruction + _ <=? _) with (insn_room_b j).
  destruct (insn_room_b j); [|by rewrite andb_false_r].
  rewrite touch_eq by reg_bound. rewrite andb_true_r.
  destruct p as [p|]; cbn [option_list] in *.
  - rewrite touch_eq by reg_bound. rewrite touch_state_app.
    rewrite assert_type_has_type by reg_bound. rewrite has_type_touch.
    destruct (has_type _ _ _); [|done]. finish_noreg_request [v; p].
  - rewrite assert_type_has_type by reg_bound. rewrite has_type_touch.
    destruct (has_type _ _ _); [|done]. finish_noreg_request [v].
Qed.

Lemma add_call_eq a ps w :
  valid_args j (a :: (ps ≫= option_list)) ->
  add_call a ps w j =
    if room_b w j && insn_room_b j
    then Some ((fun _ => d) <$> w, emit w (IR_CALL w a ps ((fun _ => d) <$> w)) j) else None.
Proof.
  intros Ha. unfold add_call. run_m. rewrite alloc_instruction_eq.
  change (sizeof_irInstruction + _ <=? _) with (insn_room_b j).
  destruct (insn_room_b j); [|by rewrite andb_false_r].
  inversion Ha as [|? ? Hlt HF]; subst.
  rewrite touch_eq by done. rewrite touch_params_eq
    by (eapply Forall_impl; [exact HF|]; intros r Hr; cbv beta in *;
        by rewrite length_regs_touch, length_regs_push_insn).
  rewrite touch_state_app, andb_true_r. destruct w as [w|]; cbn [fmap option_fmap option_map].
  - rewrite allocateRegister_eq, length_regs_touch, length_regs_push_insn.
    change (sizeof_irRegister + _ <=? _) with
      (sizeof_irRegister + pool_index (registerPoolAllocator j) <=?
       pool_size (registerPoolAllocator j)).
    rewrite <- (room_Some w). destruct (room_b _ _); [|done].
    unfold write_instruction, next_instruction. run_m. do 2 f_equal.
    rewrite push_reg_touch by done. by rewrite <- (emit_reg_state _ _ ([a] ++ (ps ≫= option_list))).
  - rewrite room_None. finish_noreg_request ([a] ++ (ps ≫= option_list)).
Qed.
End requests.

(** Every request whose operands are live registers behaves as [run_spec]
    says, assertion failures and exhausted pools included. *)
Lemma irAlloc_run_eq c j :
  valid_args j (call_args c) -> irAlloc_run c j = run_spec c j.
Proof.
  intros Ha. unfold run_spec, irAlloc_run.
  destruct c as [w v|w a|w s a|k w a b|a ps|w a ps|w p t f|t o|v|v p|w off|w s off|v]; cbn in Ha.
  - replace (irAlloc_mov_const w v) with (add_mov_const v w) by (by destruct w).
    run_m. rewrite add_mov_const_eq. cbn -[emit room_b]. by destruct (_ && _).
  - replace (irAlloc_load w a) with (add_load a w) by (by destruct w).
    run_m. rewrite add_load_eq by done. cbn -[emit room_b]. by destruct (_ && _).
  - replace (irAlloc_store w s a) with (assert_type s w;; add_store s a w) by (by destruct w).
    run_m. rewrite assert_type_has_type by reg_bound. cbn -[emit room_b].
    rewrite room_None, andb_true_r.
    destruct (has_type _ _ _); [|done]. rewrite add_store_eq by done. by destruct (insn_room_b j).
  - replace (irAlloc_binop k w a b) with
      (assert_type2 a w b (op2_type k w);; add_binop a b (IR_BINOP_ k w)) by (by destruct k, w).
    unfold assert_type2. run_m. rewrite !assert_type_has_type by reg_bound. cbn -[emit room_b].
    destruct (has_type _ a w) eqn:Hw; [|done].
    rewrite assert_type_has_type by reg_bound.
    destruct (has_type _ b _) eqn:Hb; [|done].
    unfold has_type in Hw. apply bool_decide_eq_true in Hw.
    destruct (regs j !! a) as [x|] eqn:Hx; [|done]. cbn in Hw. injection Hw as <-.
    rewrite (add_binop_eq _ _ _ _ x) by done. cbn -[emit room_b]. by destruct (_ && _).
  - unfold add_call_void. run_m. rewrite add_call_eq by done. cbn -[emit room_b].
    by destruct (_ && _).
  - replace (irAlloc_call w a ps) with (add_call a ps (Some w)) by (by destruct w).
    rewrite add_call_eq by done. cbn -[emit room_b]. by destruct (_ && _).
  - replace (irAlloc_ite w p t f) with (add_ite p t f w) by (by destruct w).
    assert (exists x, regs j !! t = Some x) as [x Hx].
    { apply lookup_lt_is_Some_2. unfold valid_args in *. by decompose_Forall_hyps. }
    run_m. rewrite (add_ite_eq _ _ _ _ _ x) by done. unfold call_type. rewrite Hx.
    cbn -[emit room_b call_asserts]. by destruct (_ && _).
  - replace (irAlloc_cast t o) with (add_cast o t (cast_dst t)) by (by destruct t).
    run_m. rewrite add_cast_eq by done. cbn -[emit room_b]. by destruct (_ && _).
  - unfold add_exit. run_m. rewrite add_exit_cond_eq by done. cbn -[emit room_b].
    rewrite room_None, andb_true_r. by destruct (_ && _).
  - run_m. rewrite add_exit_cond_eq by done. cbn -[emit room_b].
    rewrite room_None, andb_true_r. by destruct (_ && _).
  - replace (irAlloc_read_context w off) with (add_read_context off w) by (by destruct w).
    run_m. rewrite add_read_context_eq. cbn -[emit room_b]. by destruct (_ && _).
  - replace (irAlloc_write_context w s off) with (add_write_context s off w) by (by destruct w).
    run_m. rewrite add_write_context_eq by done. cbn -[emit room_b].
    rewrite room_None. cbn. by destruct (insn_room_b j).
  - run_m. rewrite add_insn_marker_eq. cbn -[emit room_b]. rewrite room_None. cbn.
    by destruct (insn_room_b j).
Qed.

(** ** Well-formed builder states *)

(** The typing the assertions of the builder enforce on an instruction. *)
Definition insn_typed (rs : list irRegister) (i : irInstruction) : Prop :=
  let ty r t := has_type rs r t = true in
  match i with
  | IR_MOV_CONST w d _ | IR_LOAD w d _ | IR_READ w d _ => ty d w
  | IR_STORE w s _ => ty s w
  | IR_BINOP b d p q =>
      ty d (bt_width b) /\ ty p (bt_width b) /\ ty q (op2_type (bt_kind b) (bt_width b))
  | IR_CALL (Some w) _ _ (Some d) => ty d w
  | IR_CALL None _ _ None => True
  | IR_CALL _ _ _ _ => False
  | IR_ITE _ d p t f => exists w, ty d w /\ ty p w /\ ty t w /\ ty f w
  | IR_CAST t d _ => ty d (cast_dst t)
  | IR_EXIT v _ => ty v IR_REG_64
  | IR_WRITE _ _ _ | IR_INSN_MARKER _ => True
  end.

Record builder_wf (j : jitter) : Prop := mkBuilderWf {
  bw_regs : regIndex j = Z.of_nat (length (regs j));
  bw_insns : instructionIndex j = Z.of_nat (length (insns j));
  bw_rpool : pool_index (registerPoolAllocator j)
               = sizeof_irRegister * Z.of_nat (length (regs j)) /\
             (regs j <> [] -> pool_index (registerPoolAllocator j)
                                <= pool_size (registerPoolAllocator j));
  bw_ipool : pool_index (instructionPoolAllocator j)
               = sizeof_irInstruction * Z.of_nat (length (insns j)) /\
             (insns j <> [] -> pool_index (instructionPoolAllocator j)
                                 <= pool_size (instructionPoolAllocator j));
  (** a register records its slot and the only instruction that writes it *)
  bw_reg : forall r x, regs j !! r = Some x ->
    index x = Z.of_nat r /\ backend x = None /\
    exists k i, firstWriteIndex x = Z.of_nat k /\ insns j !! k = Some i /\ ir_def i = Some r;
  bw_def : forall k i r, insns j !! k = Some i -> ir_def i = Some r ->
    exists x, regs j !! r = Some x /\ firstWriteIndex x = Z.of_nat k;
  (** an operand is written before it is read, and [lastReadIndex] is the
      last instruction that reads it, or -1 *)
  bw_use : forall k i r, insns j !! k = Some i -> r ∈ ir_uses i ->
    exists x, regs j !! r = Some x /\ firstWriteIndex x < Z.of_nat k <= lastReadIndex x;
  bw_last : forall r x, regs j !! r = Some x -> lastReadIndex x <> -1 ->
    exists k i, lastReadIndex x = Z.of_nat k /\ insns j !! k = Some i /\ r ∈ ir_uses i;
  bw_typed : forall k i, insns j !! k = Some i -> insn_typed (regs j) i
}.

Lemma regs_emit t i j :
  regs (emit t i j) =
    touch_list (instructionIndex j) (ir_uses i) (regs j ++ option_list (fresh_register j <$> t)).
Proof. done. Qed.

Lemma insns_emit t i j : insns (emit t i j) = insns j ++ [i].
Proof. done. Qed.

Lemma length_regs_emit t i j :
  length (regs (emit t i j)) = (length (regs j) + match t with Some _ => 1 | None => 0 end)%nat.
Proof. rewrite regs_emit, length_touch_list, length_app. by destruct t. Qed.

(** What is found in a register slot after a request. *)
Lemma lookup_regs_emit t i j r x :
  regs (emit t i j) !! r = Some x ->
  (exists y, regs j !! r = Some y /\
     x = if decide (r ∈ ir_uses i) then set_lastRead (instructionIndex j) y else y) \/
  (exists w, t = Some w /\ r = length (regs j) /\
     x = if decide (r ∈ ir_uses i)
         then set_lastRead (instructionIndex j) (fresh_register j w) else fresh_register j w).
Proof.
  rewrite regs_emit, lookup_touch_list. intros (y & Hy & ->)%fmap_Some.
  apply lookup_app_Some in Hy as [Hy|[Hr Hy]]; [eauto|]. right.
  destruct t as [w|]; [|done]. exists w. apply list_lookup_singleton_Some in Hy as [Hk <-].
  repeat split. lia.
Qed.

Lemma lookup_regs_emit_old t i j r y :
  regs j !! r = Some y ->
  regs (emit t i j) !! r =
    Some (if decide (r ∈ ir_uses i) then set_lastRead (instructionIndex j) y else y).
Proof.
  intros H. rewrite regs_emit, lookup_touch_list, (lookup_app_l_Some _ _ _ _ H). done.
Qed.

Lemma has_type_emit t i j r w :
  has_type (regs j) r w = true -> has_type (regs (emit t i j)) r w = true.
Proof.
  unfold has_type. rewrite !bool_decide_eq_true. intros (y & Hy & Hw)%fmap_Some.
  rewrite (lookup_regs_emit_old _ _ _ _ _ Hy). simpl. f_equal. by case_decide.
Qed.

Lemma has_type_emit_new i j w :
  has_type (regs (emit (Some w) i j)) (length (regs j)) w = true.
Proof.
  unfold has_type. rewrite bool_decide_eq_true, regs_emit, lookup_touch_list.
  rewrite lookup_app_r by lia. rewrite Nat.sub_diag. simpl. by case_decide.
Qed.

Lemma insn_typed_emit t i j i' :
  insn_typed (regs j) i' -> insn_typed (regs (emit t i j)) i'.
Proof.
  pose proof (has_type_emit t i j) as Ht.
  destruct i' as [| | | |[] ? ? []| | | | | |]; unfold insn_typed; firstorder eauto.
Qed.

Lemma call_insn_uses c d : ir_uses (call_insn c d) = call_args c.
Proof. by destruct c. Qed.

Lemma call_insn_def c j :
  valid_args j (call_args c) ->
  ir_def (call_insn c (length (regs j))) =
    (fun _ => length (regs j)) <$> call_type c (regs j).
Proof.
  intros Ha. destruct c; try done. simpl. unfold valid_args in Ha. cbn in Ha.
  decompose_Forall_hyps.
  match goal with H : (trueOp < _)%nat |- _ =>
    apply lookup_lt_is_Some_2 in H as [x ->] end. done.
Qed.

Lemma call_insn_typed c j :
  valid_args j (call_args c) -> call_asserts c (regs j) = true ->
  insn_typed (regs (emit (call_type c (regs j)) (call_insn c (length (regs j))) j))
             (call_insn c (length (regs j))).
Proof.
  intros Ha Hc.
  destruct c as [w v|w a|w s a|k w a b|a ps|w a ps|w p t f|t o|v|v p|w off|w s off|v];
    cbn [call_type call_insn] in *; unfold insn_typed, call_asserts in *;
    try apply andb_true_iff in Hc as [Hc1 Hc2]; eauto using has_type_emit, has_type_emit_new.
  unfold valid_args in Ha. cbn in Ha. decompose_Forall_hyps.
  match goal with H : (t < _)%nat |- _ => apply lookup_lt_is_Some_2 in H as [x Hx] end.
  rewrite Hx in *. apply bool_decide_eq_true in Hc1, Hc2. exists (type x).
  simpl. split; [apply has_type_emit_new|].
  repeat split; apply has_type_emit; unfold has_type; apply bool_decide_eq_true;
    rewrite ?Hx, <- ?Hc2, ?Hc1; reflexivity.
Qed.

Section preservation.
Context (j : jitter) (t : option irRegisterType) (i : irInstruction).
Hypothesis (Hwf : builder_wf j) (Hargs : valid_args j (ir_uses i)).
Hypothesis (Hroom : room_b t j = true) (Hiroom : insn_room_b j = true).
Hypothesis (Hdef : ir_def i = (fun _ => length (regs j)) <$> t).
Hypothesis (Htyped : insn_typed (regs (emit t i j)) i).

Lemma arg_register r :
  r ∈ ir_uses i -> exists y, regs j !! r = Some y.
Proof.
  intros Hr. apply lookup_lt_is_Some_2. unfold valid_args in Hargs.
  by rewrite Forall_forall in Hargs; apply Hargs.
Qed.

Lemma emit_lookup_insns k i' :
  insns (emit t i j) !! k = Some i' ->
  insns j !! k = Some i' \/ (k = length (insns j) /\ i' = i).
Proof.
  rewrite insns_emit. intros [?|[? [? ->]%list_lookup_singleton_Some]]%lookup_app_Some; [by left|].
  right. split; [lia|done].
Qed.

Lemma emit_reg_record r x :
  regs (emit t i j) !! r = Some x ->
  index x = Z.of_nat r /\ backend x = None /\
  exists k i', firstWriteIndex x = Z.of_nat k /\ insns (emit t i j) !! k = Some i' /\
               ir_def i' = Some r.
Proof.
  intros [(y & Hy & ->)|(w & -> & -> & ->)]%lookup_regs_emit.
  - destruct (bw_reg _ Hwf _ _ Hy) as (Hi & Hb & k & i' & Hk & Hl & Hd).
    assert (insns (emit t i j) !! k = Some i')
      by (rewrite insns_emit; by apply lookup_app_l_Some).
    case_decide; simpl; eauto 10.
  - assert (insns (emit (Some w) i j) !! length (insns j) = Some i).
    { rewrite insns_emit, lookup_app_r, Nat.sub_diag by lia. done. }
    pose proof (bw_regs _ Hwf). pose proof (bw_insns _ Hwf).
    case_decide; simpl; eauto 10.
Qed.

Lemma emit_use k i' r :
  insns (emit t i j) !! k = Some i' -> r ∈ ir_uses i' ->
  exists x, regs (emit t i j) !! r = Some x /\
            firstWriteIndex x < Z.of_nat k <= lastReadIndex x.
Proof.
  pose proof (bw_insns _ Hwf) as Hn. intros [Hk|[-> ->]]%emit_lookup_insns Hr.
  - destruct (bw_use _ Hwf _ _ _ Hk Hr) as (y & Hy & Hb).
    rewrite (lookup_regs_emit_old _ _ _ _ _ Hy). eexists. split; [done|].
    apply lookup_lt_Some in Hk. case_decide; simpl; lia.
  - destruct (arg_register _ Hr) as [y Hy].
    rewrite (lookup_regs_emit_old _ _ _ _ _ Hy). eexists. split; [done|].
    rewrite decide_True by done. simpl.
    destruct (bw_reg _ Hwf _ _ Hy) as (_ & _ & k & i' & Hf & Hl & _).
    apply lookup_lt_Some in Hl. lia.
Qed.

Lemma emit_last r x :
  regs (emit t i j) !! r = Some x -> lastReadIndex x <> -1 ->
  exists k i', lastReadIndex x = Z.of_nat k /\ insns (emit t i j) !! k = Some i' /\
               r ∈ ir_uses i'.
Proof.
  pose proof (bw_insns _ Hwf) as Hn.
  assert (Hlast : insns (emit t i j) !! length (insns j) = Some i).
  { rewrite insns_emit, lookup_app_r, Nat.sub_diag by lia. done. }
  intros [(y & Hy & ->)|(w & -> & -> & ->)]%lookup_regs_emit; case_decide as Hin; simpl; intros Hne.
  - eauto.
  - destruct (bw_last _ Hwf _ _ Hy Hne) as (k & i' & Hk & Hl & Hr).
    exists k, i'. rewrite insns_emit. eauto using lookup_app_l_Some.
  - exfalso. apply arg_register in Hin as [y Hy]. apply lookup_lt_Some in Hy. lia.
  - done.
Qed.

Lemma emit_def k i' r :
  insns (emit t i j) !! k = Some i' -> ir_def i' = Some r ->
  exists x, regs (emit t i j) !! r = Some x /\ firstWriteIndex x = Z.of_nat k.
Proof.
  intros [Hk|[-> ->]]%emit_lookup_insns Hd.
  - destruct (bw_def _ Hwf _ _ _ Hk Hd) as (y & Hy & Hf).
    rewrite (lookup_regs_emit_old _ _ _ _ _ Hy). eexists. split; [done|]. by case_decide.
  - rewrite Hdef in Hd. destruct t as [w|]; [|done]. injection Hd as <-.
    rewrite regs_emit, lookup_touch_list, lookup_app_r, Nat.sub_diag by lia. simpl.
    eexists. split; [done|]. pose proof (bw_insns _ Hwf). by case_decide.
Qed.

Lemma emit_wf : builder_wf (emit t i j).
Proof.
  constructor; try (first [exact emit_reg_record | exact emit_def | exact emit_use
                          | exact emit_last]).
  - rewrite length_regs_emit. cbn [emit regIndex]. rewrite (bw_regs _ Hwf). destruct t; simpl; lia.
  - rewrite insns_emit, length_app. cbn [emit instructionIndex]. rewrite (bw_insns _ Hwf). simpl. lia.
  - destruct (bw_rpool _ Hwf) as [Hp Hs]. rewrite length_regs_emit. cbn.
    rewrite Hp. split; [destruct t; simpl; lia|]. intros Hne.
    destruct t as [w|]; simpl.
    + rewrite room_Some in Hroom. rewrite Hp in Hroom. lia.
    + assert (regs j <> []).
      { intros E. apply Hne. apply nil_length_inv. fold (emit None i j).
        pose proof (length_regs_emit None i j) as Hl. by rewrite E in Hl. }
      pose proof (Hs ltac:(done)). lia.
  - destruct (bw_ipool _ Hwf) as [Hp _]. rewrite insns_emit, length_app. cbn.
    unfold insn_room_b in Hiroom. rewrite Hp in *. simpl. split; lia.
  - intros k i' [Hk|[-> ->]]%emit_lookup_insns; [|done].
    apply insn_typed_emit. by eapply bw_typed.
Qed.
End preservation.

Lemma resetJitter_wf j : builder_wf (resetJitter j).
Proof. constructor; try done; intros; cbn in *; try done; split; done. Qed.

Lemma irAlloc_run_wf c j r j' :
  builder_wf j -> valid_args j (call_args c) -> irAlloc_run c j = Some (r, j') -> builder_wf j'.
Proof.
  intros Hwf Ha Hrun. rewrite irAlloc_run_eq in Hrun by done. unfold run_spec in Hrun.
  destruct (_ && _ && _) eqn:Hc; [|done]. apply andb_true_iff in Hc as [[Hc Hr]%andb_true_iff Hi].
  injection Hrun as _ <-. apply emit_wf; try done.
  - by rewrite call_insn_uses.
  - by apply call_insn_def.
  - by apply call_insn_typed.
Qed.

(** ** Sessions *)

(** A front end passes registers that earlier requests returned. *)
Fixpoint session_valid (cs : list irCall) (j : jitter) : bool :=
  match cs with
  | [] => true
  | c :: cs =>
      forallb (fun r => (r <? length (regs j))%nat) (call_args c) &&
      match irAlloc_run c j with Some (_, j') => session_valid cs j' | None => true end
  end.

Lemma session_valid_args c j :
  forallb (fun r => (r <? length (regs j))%nat) (call_args c) = true -> valid_args j (call_args c).
Proof.
  rewrite forallb_forall. intros H. apply Forall_forall. intros r Hr%list_elem_of_In.
  apply Nat.ltb_lt. by apply H.
Qed.

Lemma irAlloc_session_keeps_wf cs j j' :
  builder_wf j -> session_valid cs j = true -> irAlloc_session cs j = Some (tt, j') -> builder_wf j'.
Proof.
  revert j. induction cs as [|c cs IH]; intros j Hwf Hv H; cbn in H.
  - by injection H as <-.
  - apply bind_Some_inv in H as (r & j1 & H1 & H2). cbn [session_valid] in Hv.
    apply andb_true_iff in Hv as [Ha Hv]. rewrite H1 in Hv.
    eapply IH; [|exact Hv|exact H2]. by eapply irAlloc_run_wf; [|apply session_valid_args|].
Qed.

(** The example used by the witnesses: reads of the context, a narrow
    arithmetic shift, a call, a conditional and an unconditional exit. *)
Definition demo_session : list irCall :=
  [CallReadContext IR_REG_64 8; CallMovConst IR_REG_64 5; CallBinop ADD IR_REG_64 0 1;
   CallCast IR_CAST_64_TO_8 2; CallMovConst IR_REG_8 2; CallBinop ASR IR_REG_8 3 4;
   CallCast IR_CAST_8S_TO_64 5; CallMovConst IR_REG_64 0x1000;
   CallCall IR_REG_64 7 [Some 2%nat; Some 6%nat; None; None]; CallWriteContext IR_REG_64 8 16;
   CallBinop CMPNE IR_REG_64 2 2; CallExitCond 2 (Some 9%nat);
   CallMovConst IR_REG_64 (2 ^ 32); CallExit 10].

Definition fresh_jitter : jitter := mkJitter (mkPool [] 0 16384) 0 0 (mkPool [] 0 16384).

Definition demo_jitter : jitter :=
  match irAlloc_session demo_session (resetJitter fresh_jitter) with
  | Some (_, j) => j
  | None => fresh_jitter
  end.

(** C27. A session of requests made with registers the builder returned keeps
    the builder consistent: every register records its slot and the one
    instruction that writes it, operands are written before they are read,
    [lastReadIndex] is exactly the last reader (or -1), operand types are those
    the assertions demand, and the pools hold exactly what was allocated. *)
Theorem session_wf cs j0 j :
  session_valid cs (resetJitter j0) = true ->
  irAlloc_session cs (resetJitter j0) = Some (tt, j) ->
  builder_wf j.
Proof. intros Hv H. by eapply irAlloc_session_keeps_wf; [apply resetJitter_wf| |]. Qed.

Lemma session_wf_witness :
  session_valid demo_session (resetJitter fresh_jitter) = true /\ builder_wf demo_jitter.
Proof.
  split; [vm_compute; reflexivity|].
  apply (session_wf demo_session fresh_jitter); vm_compute; reflexivity.
Defined.

(** C28. What one request does, on every path: it appends one instruction,
    returns a fresh register of the right type when it makes one, sets
    [lastReadIndex] of its operands, and changes nothing else; it stops the
    process exactly when an assertion on operand types fails or a pool is
    full. *)
Theorem request_functional c j :
  valid_args j (call_args c) ->
  irAlloc_run c j =
    let t := call_type c (regs j) in
    let d := length (regs j) in
    if call_asserts c (regs j) && room_b t j && insn_room_b j
    then Some ((fun _ => d) <$> t, emit t (call_insn c d) j)
    else None.
Proof. apply irAlloc_run_eq. Qed.

Lemma request_functional_witness :
  valid_args demo_jitter (call_args (CallBinop ADD IR_REG_8 3 4)) /\
  fst <$> irAlloc_run (CallBinop ADD IR_REG_8 3 4) demo_jitter = Some (Some 11%nat) /\
  irAlloc_run (CallBinop ADD IR_REG_16 3 4) demo_jitter = None.
Proof.
  assert (H : valid_args demo_jitter (call_args (CallBinop ADD IR_REG_8 3 4))).
  { apply session_valid_args. vm_compute. reflexivity. }
  split; [exact H|]. split.
  - rewrite (request_functional _ _ H). vm_compute. reflexivity.
  - rewrite (request_functional (CallBinop ADD IR_REG_16 3 4) _ H). vm_compute. reflexivity.
Defined.

Lemma irAlloc_run_pool_sizes c j r j' :
  valid_args j (call_args c) -> irAlloc_run c j = Some (r, j') ->
  pool_size (registerPoolAllocator j') = pool_size (registerPoolAllocator j) /\
  pool_size (instructionPoolAllocator j') = pool_size (instructionPoolAllocator j).
Proof.
  intros Ha. rewrite irAlloc_run_eq by done. unfold run_spec. destruct (_ && _ && _); [|done].
  by intros [= _ <-].
Qed.

Lemma irAlloc_session_pool_sizes cs j j' :
  session_valid cs j = true -> irAlloc_session cs j = Some (tt, j') ->
  pool_size (registerPoolAllocator j') = pool_size (registerPoolAllocator j) /\
  pool_size (instructionPoolAllocator j') = pool_size (instructionPoolAllocator j).
Proof.
  revert j. induction cs as [|c cs IH]; intros j Hv H; cbn in H.
  - by injection H as <-.
  - apply bind_Some_inv in H as (r & j1 & H1 & H2). cbn [session_valid] in Hv.
    apply andb_true_iff in Hv as [Ha%session_valid_args Hv]. rewrite H1 in Hv.
    destruct (irAlloc_run_pool_sizes _ _ _ _ Ha H1) as [<- <-]. by apply IH.
Qed.

(** C29. Memory safety of the pools: whatever a front end asks for on a jitter
    made in [size] bytes, the structure, the register pool and the instruction
    pool stay disjoint and inside these bytes, and the array given to the back
    end is all the instructions. *)
Theorem pools_in_bounds size cs j0 j :
  createJitter size = Some j0 -> session_valid cs j0 = true ->
  irAlloc_session cs j0 = Some (tt, j) ->
  let pool_mem_size := pool_size (registerPoolAllocator j) in
  sizeof_irRegister * Z.of_nat (length (regs j)) <= pool_mem_size /\
  sizeof_irInstruction * Z.of_nat (length (insns j)) <= pool_size (instructionPoolAllocator j) /\
  pool_size (instructionPoolAllocator j) = pool_mem_size /\
  sizeof_jitter <= size - 2 * pool_mem_size /\
  jitCode_irArray j = insns j.
Proof.
  unfold createJitter. destruct (Z.leb_spec JITTER_MIN_CONTEXT_SIZE size) as [Hs|]; [|done].
  intros [= <-] Hv H.
  destruct (irAlloc_session_pool_sizes _ _ _ Hv H) as [Hr Hi].
  assert (Hwf : builder_wf j) by (by eapply irAlloc_session_keeps_wf; [apply resetJitter_wf| |]).
  destruct (bw_rpool _ Hwf) as [Rp Rs]. destruct (bw_ipool _ Hwf) as [Ip Is].
  rewrite Hr, Hi in *. cbn [resetJitter memoryPoolReset memoryPoolInit registerPoolAllocator
    instructionPoolAllocator pool_size] in *. unfold JITTER_MIN_CONTEXT_SIZE in Hs.
  change (Z.land (sizeof_jitter + 15) (Z.lnot 15)) with 832 in *.
  assert (Hp : 0 <= (size - 832) / 2) by (apply Z.div_pos; lia).
  pose proof (Z.mul_div_le (size - 832) 2 ltac:(lia)).
  cbv zeta. split; [|split; [|split; [done|split]]].
  - destruct (regs j) as [|x l] eqn:E; [cbn; lia|]. rewrite <- Rp. by apply Rs.
  - destruct (insns j) as [|x l] eqn:E; [cbn; lia|]. rewrite <- Ip. by apply Is.
  - change sizeof_jitter with 832. lia.
  - unfold jitCode_irArray, jitCode_insnNb. rewrite Ip.
    rewrite Z.mul_comm, Z.div_mul by done. rewrite Nat2Z.id. apply firstn_all.
Qed.

Lemma pools_in_bounds_witness :
  exists j0 j, createJitter 32768 = Some j0 /\ irAlloc_session demo_session j0 = Some (tt, j) /\
    jitCode_irArray j = insns j /\ length (insns j) = 14%nat.
Proof.
  destruct (createJitter 32768) as [j0|] eqn:E0; [|vm_compute in E0; discriminate E0].
  destruct (irAlloc_session demo_session j0) as [[[] j]|] eqn:E.
  - exists j0, j. split; [reflexivity|]. split; [exact E|]. split.
    + apply (pools_in_bounds 32768 demo_session j0 j E0); [|exact E].
      injection E0 as <-. vm_compute. reflexivity.
    + injection E0 as <-. vm_compute in E. injection E as <-. reflexivity.
  - exfalso. injection E0 as <-. vm_compute in E. discriminate E.
Defined.
