(* ===== verification/BeX86.v ===== *)
(** * The x86_64 back end: from IR to machine code
      ([src/src/jitter/x86_64/be_x86_64.c])

    The three passes of [jit]: [allocateInstructions] rewrites the IR over
    the back end's own registers, [allocateRegisters] gives each of them one
    of r8..r15, [generateCode] writes the machine code.  Pools and pointers
    are modelled as in [Jitter.v]; an instruction is a value of the
    polymorphic type [x86Instruction R], where [R] is the slot of a register
    in the register pool for the first two passes and its hardware number,
    0 to 7, for the last one (the C code reads [insn->...->index]). *)

From S2P Require Import Prelude Ir Jitter.

(** ** Data *)

(** [struct x86Register] *)
Record x86Register := mkX86Register {
  x_isConstant : bool;
  x_index : Z;
  x_firstWriteIndex : Z;
  x_lastReadIndex : Z
}.

(** [struct x86Instruction].  [enum x86BinopType] lists the operators of
    [irBinopType] without their widths: [binopKind]. *)
Inductive x86Instruction (R : Type) :=
  | X86_MOV_CONST (dst : R) (value : Z)
  | X86_LOAD (w : irRegisterType) (dst address : R)
  | X86_STORE (w : irRegisterType) (src address : R)
  | X86_BINOP (w : irRegisterType) (k : binopKind) (dst op1 op2 : R)
  | X86_ITE (dst pred trueOp falseOp : R)
  | X86_CAST (t : irCastType) (dst op : R)
  | X86_EXIT (value : R) (pred : option R) (is_patchable : bool)
  | X86_CALL (address : R) (param : list (option R)) (result : option R)
  | X86_READ (w : irRegisterType) (dst : R) (offset : Z)
  | X86_WRITE (w : irRegisterType) (src : R) (offset : Z)
  | X86_INSN_MARKER (value : Z).
Arguments X86_MOV_CONST {R}.
Arguments X86_LOAD {R}.
Arguments X86_STORE {R}.
Arguments X86_BINOP {R}.
Arguments X86_ITE {R}.
Arguments X86_CAST {R}.
Arguments X86_EXIT {R}.
Arguments X86_CALL {R}.
Arguments X86_READ {R}.
Arguments X86_WRITE {R}.
Arguments X86_INSN_MARKER {R}.

Definition x86_map {R S} (f : R -> S) (i : x86Instruction R) : x86Instruction S :=
  match i with
  | X86_MOV_CONST d v => X86_MOV_CONST (f d) v
  | X86_LOAD w d a => X86_LOAD w (f d) (f a)
  | X86_STORE w s a => X86_STORE w (f s) (f a)
  | X86_BINOP w k d p q => X86_BINOP w k (f d) (f p) (f q)
  | X86_ITE d p t e => X86_ITE (f d) (f p) (f t) (f e)
  | X86_CAST t d o => X86_CAST t (f d) (f o)
  | X86_EXIT v p b => X86_EXIT (f v) (option_map f p) b
  | X86_CALL a ps r => X86_CALL (f a) (map (option_map f) ps) (option_map f r)
  | X86_READ w d off => X86_READ w (f d) off
  | X86_WRITE w s off => X86_WRITE w (f s) off
  | X86_INSN_MARKER v => X86_INSN_MARKER v
  end.

Definition x86_uses {R} (i : x86Instruction R) : list R :=
  match i with
  | X86_MOV_CONST _ _ | X86_READ _ _ _ | X86_INSN_MARKER _ => []
  | X86_LOAD _ _ a => [a]
  | X86_STORE _ s a => [a; s]
  | X86_BINOP _ _ _ p q => [p; q]
  | X86_ITE _ p t e => [p; t; e]
  | X86_CAST _ _ o => [o]
  | X86_EXIT v p _ => v :: option_list p
  | X86_CALL a ps _ => a :: (ps ≫= option_list)
  | X86_WRITE _ s _ => [s]
  end.

Definition x86_def {R} (i : x86Instruction R) : option R :=
  match i with
  | X86_MOV_CONST d _ | X86_LOAD _ d _ | X86_BINOP _ _ d _ _
  | X86_ITE d _ _ _ | X86_CAST _ d _ | X86_READ _ d _ => Some d
  | X86_CALL _ _ r => r
  | X86_STORE _ _ _ | X86_EXIT _ _ _ | X86_WRITE _ _ _ | X86_INSN_MARKER _ => None
  end.

(** [struct inter], with the IR registers whose [backend] field the first
    pass sets. *)
Record inter := mkInter {
  x_registerPool : memoryPool x86Register;
  x_instructionPool : memoryPool (x86Instruction nat);
  x_regIndex : Z;
  x_instructionIndex : Z;
  ir_registers : list irRegister
}.

Definition sizeof_x86Register : Z := 16.
Definition sizeof_x86Instruction : Z := 56.
Definition sizeof_inter : Z := 8 + 6 * 8 + 32 + 32 + 4 + 4.
Definition BE_MIN_CONTEXT_SIZE : Z := 32 * 1024.

Definition uninit_x86Register : x86Register := mkX86Register false 0 0 0.

Definition xregs (s : inter) : list x86Register := buffer (x_registerPool s).
Definition xinsns (s : inter) : list (x86Instruction nat) := buffer (x_instructionPool s).

Definition with_xregs (f : memoryPool x86Register -> memoryPool x86Register) (s : inter) : inter :=
  mkInter (f (x_registerPool s)) (x_instructionPool s) (x_regIndex s) (x_instructionIndex s)
          (ir_registers s).
Definition with_xinsns (f : memoryPool (x86Instruction nat) -> memoryPool (x86Instruction nat))
    (s : inter) : inter :=
  mkInter (x_registerPool s) (f (x_instructionPool s)) (x_regIndex s) (x_instructionIndex s)
          (ir_registers s).
Definition with_ir (f : list irRegister -> list irRegister) (s : inter) : inter :=
  mkInter (x_registerPool s) (x_instructionPool s) (x_regIndex s) (x_instructionIndex s)
          (f (ir_registers s)).

(** ** Pass 1: allocateInstructions *)

Definition alloc_x86Register : stM inter nat :=
  fun s => '(p, pool) ← memoryPoolAlloc uninit_x86Register sizeof_x86Register (x_registerPool s);
           Some (p, with_xregs (fun _ => pool) s).

Definition get_xreg (x : nat) : stM inter x86Register :=
  s ← get_state; lift_option (xregs s !! x).

Definition put_xreg (x : nat) (v : x86Register) : stM inter unit :=
  modify_state (with_xregs (pool_write x v)).

Definition get_irreg (r : nat) : stM inter irRegister :=
  s ← get_state; lift_option (ir_registers s !! r).

Definition set_backend (x : option nat) (r : irRegister) : irRegister :=
  mkIrRegister (type r) (index r) (firstWriteIndex r) (lastReadIndex r) x.

Definition alloc_new_register : stM inter nat :=
  res ← alloc_x86Register;
  s ← get_state;
  put_xreg res (mkX86Register false (x_regIndex s) (x_instructionIndex s) (-1));;
  modify_state (fun s => mkInter (x_registerPool s) (x_instructionPool s) (x_regIndex s + 1)
                                 (x_instructionIndex s) (ir_registers s));;
  mret res.

(** [irReg] is NULL for a temporary of the back end. *)
Definition allocateRegister (irReg : option nat) : stM inter nat :=
  match irReg with
  | None => alloc_new_register
  | Some r =>
      reg ← get_irreg r;
      match backend reg with
      | Some res => mret res
      | None =>
          res ← alloc_new_register;
          modify_state (with_ir (<[r := set_backend (Some res) reg]>));;
          mret res
      end
  end.

Definition set_xlastRead (n : Z) (x : x86Register) : x86Register :=
  mkX86Register (x_isConstant x) (x_index x) (x_firstWriteIndex x) n.

Definition xtouch (x : nat) : stM inter unit :=
  v ← get_xreg x; s ← get_state; put_xreg x (set_xlastRead (x_instructionIndex s) v).

Fixpoint xtouch_list (xs : list nat) : stM inter unit :=
  match xs with
  | [] => mret tt
  | x :: xs => xtouch x;; xtouch_list xs
  end.

(** Every [add_*] of this file has the same frame: allocate the instruction,
    mark the registers it reads, fill it, count it. *)
Definition alloc_x86Instruction : stM inter nat :=
  fun s => '(p, pool) ← memoryPoolAlloc (X86_INSN_MARKER 0) sizeof_x86Instruction (x_instructionPool s);
           Some (p, with_xinsns (fun _ => pool) s).

Definition write_x86Instruction (p : nat) (i : x86Instruction nat) : stM inter unit :=
  modify_state (with_xinsns (pool_write p i)).

Definition next_x86Instruction : stM inter unit :=
  modify_state (fun s => mkInter (x_registerPool s) (x_instructionPool s) (x_regIndex s)
                                 (x_instructionIndex s + 1) (ir_registers s)).

Definition add_mov_const (dst : nat) (value : Z) : stM inter unit :=
  insn ← alloc_x86Instruction;
  v ← get_xreg dst;
  put_xreg dst (mkX86Register true (x_index v) (x_firstWriteIndex v) (x_lastReadIndex v));;
  write_x86Instruction insn (X86_MOV_CONST dst value);;
  next_x86Instruction.

Definition add_load (w : irRegisterType) (dst address : nat) : stM inter unit :=
  insn ← alloc_x86Instruction;
  xtouch address;;
  write_x86Instruction insn (X86_LOAD w dst address);;
  next_x86Instruction.

Definition add_store (w : irRegisterType) (src address : nat) : stM inter unit :=
  insn ← alloc_x86Instruction;
  xtouch address;;
  xtouch src;;
  write_x86Instruction insn (X86_STORE w src address);;
  next_x86Instruction.

Definition add_exit (value : nat) (pred : option nat) : stM inter unit :=
  insn ← alloc_x86Instruction;
  xtouch value;;
  xtouch_list (option_list pred);;
  v ← get_xreg value;
  write_x86Instruction insn (X86_EXIT value pred (x_isConstant v));;
  next_x86Instruction.

Definition add_binop (w : irRegisterType) (subType : binopKind) (dst op1 op2 : nat) :
    stM inter unit :=
  insn ← alloc_x86Instruction;
  xtouch op1;;
  xtouch op2;;
  write_x86Instruction insn (X86_BINOP w subType dst op1 op2);;
  next_x86Instruction.

Definition add_ite (dst pred trueOp falseOp : nat) : stM inter unit :=
  insn ← alloc_x86Instruction;
  xtouch pred;;
  xtouch trueOp;;
  xtouch falseOp;;
  write_x86Instruction insn (X86_ITE dst pred trueOp falseOp);;
  next_x86Instruction.

Definition add_cast (t : irCastType) (dst op : nat) : stM inter unit :=
  insn ← alloc_x86Instruction;
  xtouch op;;
  write_x86Instruction insn (X86_CAST t dst op);;
  next_x86Instruction.

Definition add_call (address : nat) (params : list (option nat)) (result : option nat) :
    stM inter unit :=
  insn ← alloc_x86Instruction;
  xtouch address;;
  xtouch_list (params ≫= option_list);;
  write_x86Instruction insn (X86_CALL address params result);;
  next_x86Instruction.

Definition add_read (w : irRegisterType) (dst : nat) (offset : Z) : stM inter unit :=
  insn ← alloc_x86Instruction;
  write_x86Instruction insn (X86_READ w dst offset);;
  next_x86Instruction.

Definition add_write (w : irRegisterType) (src : nat) (offset : Z) : stM inter unit :=
  insn ← alloc_x86Instruction;
  xtouch src;;
  write_x86Instruction insn (X86_WRITE w src offset);;
  next_x86Instruction.

Definition add_insn_start_marker (value : Z) : stM inter unit :=
  insn ← alloc_x86Instruction;
  write_x86Instruction insn (X86_INSN_MARKER value);;
  next_x86Instruction.

(** Shift that moves the sign bit of a narrow operand to bit 63. *)
Definition asr_goto_p0 (w : irRegisterType) : Z :=
  match w with IR_REG_8 => 56 | IR_REG_16 => 48 | IR_REG_32 => 32 | IR_REG_64 => 0 end.

(** The [binop_asr] label: a narrow operand is first sign extended. *)
Definition allocate_asr (w : irRegisterType) (irdst irop1 irop2 : nat) : stM inter unit :=
  dst ← allocateRegister (Some irdst);
  op1 ← allocateRegister (Some irop1);
  op2 ← allocateRegister (Some irop2);
  shiftRightResult ←
    (if asr_goto_p0 w =? 0 then allocateRegister (Some irop1)
     else
       shiftValue ← allocateRegister None;
       add_mov_const shiftValue (asr_goto_p0 w);;
       shiftLeftResult ← allocateRegister None;
       add_binop IR_REG_64 SHL shiftLeftResult op1 shiftValue;;
       res ← allocateRegister None;
       add_binop IR_REG_64 ASR res shiftLeftResult shiftValue;;
       mret res);
  add_binop w ASR dst shiftRightResult op2.

Fixpoint allocate_params (ps : list (option nat)) : stM inter (list (option nat)) :=
  match ps with
  | [] => mret []
  | None :: ps => l ← allocate_params ps; mret (None :: l)
  | Some p :: ps => x ← allocateRegister (Some p); l ← allocate_params ps; mret (Some x :: l)
  end.

(** One turn of the loop of [allocateInstructions]. *)
Definition allocateInstruction (insn : irInstruction) : stM inter unit :=
  match insn with
  | IR_MOV_CONST _ d v =>
      dst ← allocateRegister (Some d); add_mov_const dst v
  | IR_LOAD w d a =>
      dst ← allocateRegister (Some d); address ← allocateRegister (Some a);
      add_load w dst address
  | IR_STORE w s a =>
      src ← allocateRegister (Some s); address ← allocateRegister (Some a);
      add_store w src address
  | IR_BINOP (IR_BINOP_ ASR w) d p q => allocate_asr w d p q
  | IR_BINOP (IR_BINOP_ k w) d p q =>
      dst ← allocateRegister (Some d); op1 ← allocateRegister (Some p);
      op2 ← allocateRegister (Some q); add_binop w k dst op1 op2
  | IR_ITE _ d p t f =>
      dst ← allocateRegister (Some d); pred ← allocateRegister (Some p);
      trueOp ← allocateRegister (Some t); falseOp ← allocateRegister (Some f);
      add_ite dst pred trueOp falseOp
  | IR_CAST t d o =>
      dst ← allocateRegister (Some d); op ← allocateRegister (Some o); add_cast t dst op
  | IR_EXIT v (Some p) =>
      value ← allocateRegister (Some v); pred ← allocateRegister (Some p);
      add_exit value (Some pred)
  | IR_EXIT v None => value ← allocateRegister (Some v); add_exit value None
  | IR_CALL _ a ps r =>
      params ← allocate_params ps;
      result ← match r with
               | Some r => x ← allocateRegister (Some r); mret (Some x)
               | None => mret None
               end;
      address ← allocateRegister (Some a);
      add_call address params result
  | IR_READ w d off =>
      reg ← get_irreg d;
      if lastReadIndex reg =? -1 then mret tt
      else dst ← allocateRegister (Some d); add_read w dst off
  | IR_WRITE w s off => src ← allocateRegister (Some s); add_write w src off
  | IR_INSN_MARKER v => add_insn_start_marker v
  end.

Fixpoint allocateInstructions (irArray : list irInstruction) : stM inter unit :=
  match irArray with
  | [] => mret tt
  | i :: l => allocateInstruction i;; allocateInstructions l
  end.

(** ** Pass 2: allocateRegisters *)

Definition REG_NUMBER : nat := 8.

(** The pass works on the free list and the register pool. *)
Record ralloc := mkRalloc { freeRegList : list bool; ra_regs : list x86Register }.

(** The first index [i < REG_NUMBER] that is free; no free register is an
    assertion failure. *)
Fixpoint find_free (l : list bool) (i : nat) : option nat :=
  match l with
  | [] => None
  | true :: _ => Some i
  | false :: l => find_free l (S i)
  end.

Definition set_free (p : Z) (b : bool) : stM ralloc unit :=
  fun s =>
    if (0 <=? p) && (p <? Z.of_nat (length (freeRegList s)))
    then Some (tt, mkRalloc (<[Z.to_nat p := b]> (freeRegList s)) (ra_regs s))
    else None.

Definition ra_get (x : nat) : stM ralloc x86Register :=
  s ← get_state; lift_option (ra_regs s !! x).

Definition getFreeRegRaw : stM ralloc Z :=
  s ← get_state;
  i ← lift_option (find_free (freeRegList s) 0);
  set_free (Z.of_nat i) false;;
  mret (Z.of_nat i).

Definition set_xindex (n : Z) (x : x86Register) : x86Register :=
  mkX86Register (x_isConstant x) n (x_firstWriteIndex x) (x_lastReadIndex x).

Definition getFreeReg (x : nat) : stM ralloc unit :=
  reg ← ra_get x;
  n ← getFreeRegRaw;
  modify_state (fun s => mkRalloc (freeRegList s) (<[x := set_xindex n reg]> (ra_regs s)));;
  if x_lastReadIndex reg =? -1 then set_free n true else mret tt.

(** [if (reg->lastReadIndex == i) freeRegList[reg->index] = 1;] *)
Definition free_if_last (i : Z) (x : nat) : stM ralloc unit :=
  reg ← ra_get x;
  if x_lastReadIndex reg =? i then set_free (x_index reg) true else mret tt.

Fixpoint free_params (i : Z) (ps : list (option nat)) : stM ralloc unit :=
  match ps with
  | [] => mret tt
  | None :: ps => free_params i ps
  | Some p :: ps => free_if_last i p;; free_params i ps
  end.

Definition allocateRegisters_insn (i : Z) (insn : x86Instruction nat) : stM ralloc unit :=
  match insn with
  | X86_MOV_CONST d _ => getFreeReg d
  | X86_LOAD _ d a => getFreeReg d;; free_if_last i a
  | X86_STORE _ s a => free_if_last i a;; free_if_last i s
  | X86_BINOP _ _ d p q => getFreeReg d;; free_if_last i p;; free_if_last i q
  | X86_EXIT v p _ =>
      free_if_last i v;; match p with Some p => free_if_last i p | None => mret tt end
  | X86_ITE d p t f =>
      getFreeReg d;; free_if_last i p;; free_if_last i t;; free_if_last i f
  | X86_CAST _ d o => getFreeReg d;; free_if_last i o
  | X86_CALL a ps r =>
      match r with Some d => getFreeReg d | None => mret tt end;;
      free_if_last i a;; free_params i ps
  | X86_READ _ d _ => getFreeReg d
  | X86_WRITE _ s _ => free_if_last i s
  | X86_INSN_MARKER _ => mret tt
  end.

Fixpoint allocateRegisters_loop (i : Z) (l : list (x86Instruction nat)) : stM ralloc unit :=
  match l with
  | [] => mret tt
  | insn :: l => allocateRegisters_insn i insn;; allocateRegisters_loop (i + 1) l
  end.

Definition allocateRegisters (l : list (x86Instruction nat)) (xr : list x86Register) :
    option (list x86Register) :=
  '(_, s) ← allocateRegisters_loop 0 l (mkRalloc (replicate REG_NUMBER true) xr);
  Some (ra_regs s).
