(* ===== verification/BeGen.v ===== *)
(** * Code generation of the x86_64 back end
      ([src/src/jitter/x86_64/be_x86_64.c], "code generation")

    A generator writes through [char *pos]; here it returns what it writes,
    one entry per byte, [None] for a byte it skips over ([pos += 8]) and
    which keeps whatever the buffer held.  Each value is truncated to a byte,
    as the store through a [char *] does. *)

From S2P Require Import Prelude Ir Jitter BeX86.

#[local] Open Scope c_scope.

Abbreviation code := (list (option Z)).

Definition emit_bytes (l : list Z) : code := map (fun z => Some (wrap 8 z)) l.

(** [pos += n] *)
Definition skip (n : nat) : code := replicate n None.

Definition REX_OPCODE : Z := 0x40.
Definition REX_W : Z := 0x08.
Definition REX_R : Z := 0x04.
Definition REX_X : Z := 0x02.
Definition REX_B : Z := 0x01.

Definition MODRM_MODE_2 : Z := 0x80.
Definition MODRM_MODE_3 : Z := 0xC0.
Definition MODRM_REG_SHIFT : Z := 3.
Definition SIB_SCALE_SHIFT : Z := 6.
Definition SIB_INDEX_SHIFT : Z := 3.

(** The eight stores [(value >> 8 * k) & 0xff]. *)
Definition imm64 (value : Z) : list Z :=
  [byte_of value 0; byte_of value 1; byte_of value 2; byte_of value 3;
   byte_of value 4; byte_of value 5; byte_of value 6; byte_of value 7].

Definition imm32 (value : Z) : list Z :=
  [byte_of value 0; byte_of value 1; byte_of value 2; byte_of value 3].

(** The instructions of this pass name hardware registers: [index] 0 is r8. *)
Abbreviation insnZ := (x86Instruction Z).

Definition gen_mov_const_hlp (dst : Z) (value : Z) : code :=
  if negb (value =? 0) then
    emit_bytes ([REX_OPCODE .| REX_W .| REX_B; 0xb8 + dst] ++ imm64 value)
  else
    emit_bytes [REX_OPCODE .| REX_R .| REX_B; 0x31; 0xc0 .| (dst .<< 3) .| dst].

(** ModRM and SIB bytes of an access through [address + disp32]. *)
Definition modrm_sib_disp32 (reg address : Z) : list Z :=
  [MODRM_MODE_2 .| (reg .<< MODRM_REG_SHIFT) .| 4;
   (0 .<< SIB_SCALE_SHIFT) .| (4 .<< SIB_INDEX_SHIFT) .| address; 0; 0; 0; 0].

Definition gen_load_8 (dst address : Z) : code :=
  emit_bytes ([REX_OPCODE .| REX_R .| REX_B; 0x8a] ++ modrm_sib_disp32 dst address).

Definition gen_load_16 (dst address : Z) : code :=
  emit_bytes ([0x66; REX_OPCODE .| REX_R .| REX_B; 0x8b] ++ modrm_sib_disp32 dst address).

Definition gen_load_32 (dst address : Z) : code :=
  emit_bytes ([REX_OPCODE .| REX_R .| REX_B; 0x8b] ++ modrm_sib_disp32 dst address).

Definition gen_load_64 (dst address : Z) : code :=
  emit_bytes ([REX_OPCODE .| REX_R .| REX_B .| REX_W; 0x8b] ++ modrm_sib_disp32 dst address).

(** The store generators read [u.load.dst] and [u.load.address], which alias
    [u.store.src] and [u.store.address]. *)
Definition gen_store_8 (src address : Z) : code :=
  emit_bytes ([REX_OPCODE .| REX_R .| REX_B; 0x88] ++ modrm_sib_disp32 src address).

Definition gen_store_16 (src address : Z) : code :=
  emit_bytes ([0x66; REX_OPCODE .| REX_R .| REX_B; 0x89] ++ modrm_sib_disp32 src address).

Definition gen_store_32 (src address : Z) : code :=
  emit_bytes ([REX_OPCODE .| REX_R .| REX_B; 0x89] ++ modrm_sib_disp32 src address).

Definition gen_store_64 (src address : Z) : code :=
  emit_bytes ([REX_OPCODE .| REX_R .| REX_B .| REX_W; 0x89] ++ modrm_sib_disp32 src address).

Definition gen_move_reg_low (low_index src : Z) : code :=
  emit_bytes [REX_OPCODE .| REX_B .| REX_W; 0x8b;
              MODRM_MODE_3 .| (low_index .<< MODRM_REG_SHIFT) .| src].

Definition gen_move_reg_from_low (low_index dst : Z) : code :=
  emit_bytes [REX_OPCODE .| REX_R .| REX_W; 0x8b;
              MODRM_MODE_3 .| (dst .<< MODRM_REG_SHIFT) .| low_index].

(** [cmp reg, 0] *)
Definition gen_cmp_zero (reg : Z) : code :=
  emit_bytes [REX_OPCODE .| REX_B .| REX_W; 0x81;
              MODRM_MODE_3 .| (7 .<< MODRM_REG_SHIFT) .| reg; 0; 0; 0; 0].

(** [lea rdx, [rip]] *)
Definition gen_lea_rdx_rip : code := emit_bytes [0x48; 0x8d; 0x15; 0; 0; 0; 0].

Definition gen_exit (value : Z) (pred : option Z) (is_patchable : bool) : code :=
  let body :=
    gen_move_reg_low 0 value ++
    (if is_patchable then gen_lea_rdx_rip
     else emit_bytes [REX_OPCODE; 0x31; 0xc0 .| (2 .<< 3) .| 2]) ++
    emit_bytes [0xc3] ++
    (if is_patchable then
       emit_bytes [0x48; 0xb8] ++ skip 8 ++ emit_bytes [0xff; 0xe0] ++ gen_lea_rdx_rip
     else []) in
  match pred with
  | Some p => gen_cmp_zero p ++ emit_bytes [0x74; Z.of_nat (length body)] ++ body
  | None => body
  end.

Definition gen_move_reg (dst src : Z) : code :=
  emit_bytes [REX_OPCODE .| REX_R .| REX_B .| REX_W; 0x8b;
              MODRM_MODE_3 .| (dst .<< MODRM_REG_SHIFT) .| src].

Definition gen_cmp (isEq : bool) (dst op1 op2 : Z) : code :=
  let set_false := gen_mov_const_hlp dst 0 in
  gen_mov_const_hlp dst (2 ^ 64 - 1) ++
  emit_bytes [REX_OPCODE .| REX_R .| REX_B .| REX_W; 0x3b;
              MODRM_MODE_3 .| (op2 .<< MODRM_REG_SHIFT) .| op1;
              (if isEq then 0x74 else 0x75); Z.of_nat (length set_false)] ++
  set_false.

Definition binopToOpcode (k : binopKind) : Z :=
  match k with
  | ADD => 0x01 | SUB => 0x29 | XOR => 0x31 | AND => 0x21 | OR => 0x09
  | SHL | SHR | ASR | ROR => 0xd3
  | CMPEQ | CMPNE => 0xff
  end.

(** The [unop] label: shifts by cl. *)
Definition gen_shift (subtype dst op1 op2 : Z) : code :=
  gen_move_reg_low 1 op2 ++
  gen_move_reg dst op1 ++
  emit_bytes [REX_OPCODE .| REX_B .| REX_W; 0xd3;
              MODRM_MODE_3 .| (subtype .<< MODRM_REG_SHIFT) .| dst].

Definition gen_ror (w : irRegisterType) (dst op1 op2 : Z) : code :=
  gen_move_reg_low 1 op2 ++
  gen_move_reg dst op1 ++
  (if decide (w = IR_REG_16) then emit_bytes [0x66] else []) ++
  emit_bytes [REX_OPCODE .| REX_B .| (if decide (w = IR_REG_64) then REX_W else 0);
              (if decide (w = IR_REG_8) then 0xd2 else 0xd3);
              MODRM_MODE_3 .| (1 .<< MODRM_REG_SHIFT) .| dst].

Definition gen_mask (dst mask : Z) : code :=
  if negb (mask =? 0) then
    emit_bytes ([REX_OPCODE .| REX_W; 0xb8 + 1] ++ imm64 mask) ++
    emit_bytes [REX_OPCODE .| REX_B .| REX_W; 0x21;
                MODRM_MODE_3 .| (1 .<< MODRM_REG_SHIFT) .| dst]
  else [].

Definition gen_binop (w : irRegisterType) (k : binopKind) (dst op1 op2 mask : Z) : code :=
  match k with
  | CMPEQ => gen_cmp true dst op1 op2
  | CMPNE => gen_cmp false dst op1 op2
  | SHL => gen_shift 4 dst op1 op2
  | SHR => gen_shift 5 dst op1 op2
  | ASR => gen_shift 7 dst op1 op2
  | ROR => gen_ror w dst op1 op2
  | _ =>
      gen_move_reg dst op1 ++
      emit_bytes [REX_OPCODE .| REX_R .| REX_B .| REX_W; binopToOpcode k;
                  MODRM_MODE_3 .| (op2 .<< MODRM_REG_SHIFT) .| dst]
  end ++ gen_mask dst mask.

Definition gen_ite (dst pred trueOp falseOp : Z) : code :=
  gen_move_reg dst falseOp ++
  gen_cmp_zero pred ++
  emit_bytes [REX_OPCODE .| REX_R .| REX_B .| REX_W; 0x0f; 0x45;
              MODRM_MODE_3 .| (dst .<< MODRM_REG_SHIFT) .| trueOp].

Definition gen_upper_unsigned_cast_hlp (dst op mask : Z) : code :=
  gen_mov_const_hlp dst mask ++
  emit_bytes [REX_OPCODE .| REX_R .| REX_B .| REX_W; 0x21;
              MODRM_MODE_3 .| (op .<< MODRM_REG_SHIFT) .| dst].

Definition gen_upper_signed_cast_hlp (dst op shift_value : Z) : code :=
  gen_move_reg dst op ++
  emit_bytes [REX_OPCODE .| REX_B .| REX_W; 0xc1;
              MODRM_MODE_3 .| (4 .<< MODRM_REG_SHIFT) .| dst; shift_value;
              REX_OPCODE .| REX_B .| REX_W; 0xc1;
              MODRM_MODE_3 .| (7 .<< MODRM_REG_SHIFT) .| dst; shift_value].

Definition gen_cast (t : irCastType) (dst op : Z) : code :=
  match t with
  | IR_CAST_8U_TO_16 | IR_CAST_8U_TO_32 | IR_CAST_8U_TO_64 =>
      gen_upper_unsigned_cast_hlp dst op 0xff
  | IR_CAST_16U_TO_32 | IR_CAST_16U_TO_64 => gen_upper_unsigned_cast_hlp dst op 0xffff
  | IR_CAST_32U_TO_64 => gen_upper_unsigned_cast_hlp dst op 0xffffffff
  | IR_CAST_8S_TO_16 | IR_CAST_8S_TO_32 | IR_CAST_8S_TO_64 =>
      gen_upper_signed_cast_hlp dst op 56
  | IR_CAST_16S_TO_32 | IR_CAST_16S_TO_64 => gen_upper_signed_cast_hlp dst op 48
  | IR_CAST_32S_TO_64 => gen_upper_signed_cast_hlp dst op 32
  | IR_CAST_64_TO_8 | IR_CAST_32_TO_8 | IR_CAST_16_TO_8 =>
      gen_upper_unsigned_cast_hlp dst op 0xff
  | IR_CAST_64_TO_16 | IR_CAST_32_TO_16 => gen_upper_unsigned_cast_hlp dst op 0xffff
  | IR_CAST_64_TO_32 => gen_upper_unsigned_cast_hlp dst op 0xffffffff
  end.

Definition gen_push_hlp (index : Z) : code :=
  emit_bytes [(if 8 <=? index then REX_OPCODE .| REX_B .| REX_W else REX_OPCODE .| REX_W);
              0x50 + (index .& 7)].

Definition gen_pop_hlp (index : Z) : code :=
  emit_bytes [(if 8 <=? index then REX_OPCODE .| REX_B .| REX_W else REX_OPCODE .| REX_W);
              0x58 + (index .& 7)].

(** The value of [param[i]], NULL past the end. *)
Definition param_at (ps : list (option Z)) (i : nat) : option Z :=
  match ps !! i with Some p => p | None => None end.

Definition gen_param (low_index : Z) (p : option Z) : code :=
  match p with Some r => gen_move_reg_low low_index r | None => [] end.

Definition gen_call (address : Z) (param : list (option Z)) (result : option Z) : code :=
  gen_push_hlp 7 ++ gen_push_hlp 8 ++ gen_push_hlp 9 ++ gen_push_hlp 10 ++
  gen_push_hlp 11 ++ gen_push_hlp 12 ++
  gen_move_reg_low 0 address ++
  gen_param 1 (param_at param 2) ++
  gen_param 2 (param_at param 1) ++
  gen_param 6 (param_at param 0) ++
  (match param_at param 3 with Some r => gen_move_reg 0 r | None => [] end) ++
  emit_bytes [REX_OPCODE .| REX_W; 0xff; MODRM_MODE_3 .| (2 .<< MODRM_REG_SHIFT) .| 0] ++
  gen_pop_hlp 12 ++ gen_pop_hlp 11 ++ gen_pop_hlp 10 ++ gen_pop_hlp 9 ++
  gen_pop_hlp 8 ++ gen_pop_hlp 7 ++
  (match result with Some r => gen_move_reg_from_low 0 r | None => [] end).

(** ModRM and displacement of an access to the context, [rdi + disp32]. *)
Definition modrm_ctx (reg offset : Z) : list Z :=
  (MODRM_MODE_2 .| (reg .<< MODRM_REG_SHIFT) .| 7) :: imm32 offset.

Definition gen_read_8 (dst offset : Z) : code :=
  emit_bytes ([REX_OPCODE .| REX_R; 0x8a] ++ modrm_ctx dst offset).
Definition gen_read_16 (dst offset : Z) : code :=
  emit_bytes ([0x66; REX_OPCODE .| REX_R; 0x8b] ++ modrm_ctx dst offset).
Definition gen_read_32 (dst offset : Z) : code :=
  emit_bytes ([REX_OPCODE .| REX_R; 0x8b] ++ modrm_ctx dst offset).
Definition gen_read_64 (dst offset : Z) : code :=
  emit_bytes ([REX_OPCODE .| REX_R .| REX_W; 0x8b] ++ modrm_ctx dst offset).

Definition gen_write_8 (src offset : Z) : code :=
  emit_bytes ([REX_OPCODE .| REX_R; 0x88] ++ modrm_ctx src offset).
Definition gen_write_16 (src offset : Z) : code :=
  emit_bytes ([0x66; REX_OPCODE .| REX_R; 0x89] ++ modrm_ctx src offset).
Definition gen_write_32 (src offset : Z) : code :=
  emit_bytes ([REX_OPCODE .| REX_R; 0x89] ++ modrm_ctx src offset).
Definition gen_write_64 (src offset : Z) : code :=
  emit_bytes ([REX_OPCODE .| REX_R .| REX_W; 0x89] ++ modrm_ctx src offset).

(** The mask [generateCode] passes for each width, 0 meaning none. *)
Definition binop_mask (w : irRegisterType) : Z :=
  match w with
  | IR_REG_8 => 0xff | IR_REG_16 => 0xffff | IR_REG_32 => 0xffffffff | IR_REG_64 => 0
  end.

(** The code of one instruction, markers apart: the switch shared by
    [generateCode] and [findInsnInCode]. *)
Definition gen_insn (insn : insnZ) : option code :=
  match insn with
  | X86_MOV_CONST d v => Some (gen_mov_const_hlp d v)
  | X86_LOAD IR_REG_8 d a => Some (gen_load_8 d a)
  | X86_LOAD IR_REG_16 d a => Some (gen_load_16 d a)
  | X86_LOAD IR_REG_32 d a => Some (gen_load_32 d a)
  | X86_LOAD IR_REG_64 d a => Some (gen_load_64 d a)
  | X86_STORE IR_REG_8 s a => Some (gen_store_8 s a)
  | X86_STORE IR_REG_16 s a => Some (gen_store_16 s a)
  | X86_STORE IR_REG_32 s a => Some (gen_store_32 s a)
  | X86_STORE IR_REG_64 s a => Some (gen_store_64 s a)
  | X86_BINOP w k d p q => Some (gen_binop w k d p q (binop_mask w))
  | X86_EXIT v p b => Some (gen_exit v p b)
  | X86_ITE d p t f => Some (gen_ite d p t f)
  | X86_CAST t d o => Some (gen_cast t d o)
  | X86_CALL a ps r => Some (gen_call a ps r)
  | X86_READ IR_REG_8 d off => Some (gen_read_8 d off)
  | X86_READ IR_REG_16 d off => Some (gen_read_16 d off)
  | X86_READ IR_REG_32 d off => Some (gen_read_32 d off)
  | X86_READ IR_REG_64 d off => Some (gen_read_64 d off)
  | X86_WRITE IR_REG_8 s off => Some (gen_write_8 s off)
  | X86_WRITE IR_REG_16 s off => Some (gen_write_16 s off)
  | X86_WRITE IR_REG_32 s off => Some (gen_write_32 s off)
  | X86_WRITE IR_REG_64 s off => Some (gen_write_64 s off)
  | X86_INSN_MARKER _ => None
  end.

(** [None]: the switch has no case for a marker and its default asserts. *)
Fixpoint generateCode (l : list insnZ) : option code :=
  match l with
  | [] => Some []
  | i :: l => c ← gen_insn i; cs ← generateCode l; Some (c ++ cs)
  end.

(** [findInsnInCode]: [pos] counts the bytes generated so far and [res] is
    the last marker seen.  The marker found, and what was generated. *)
Fixpoint findInsnInCode_loop (l : list insnZ) (pos offset res : Z) : option (Z * code) :=
  match l with
  | [] => Some (res, [])
  | X86_INSN_MARKER v :: l =>
      if offset <=? pos then Some (v, []) else findInsnInCode_loop l pos offset v
  | i :: l =>
      c ← gen_insn i;
      let pos := pos + Z.of_nat (length c) in
      if offset <=? pos then Some (res, c)
      else '(res, cs) ← findInsnInCode_loop l pos offset res; Some (res, c ++ cs)
  end.

(** ** The buffer *)

(** The bytes of code over those of memory: skipped ones keep their value. *)
Fixpoint flush (old : list Z) (c : code) : list Z :=
  match c, old with
  | [], _ => old
  | Some b :: c, _ :: old => b :: flush old c
  | None :: c, o :: old => o :: flush old c
  | _ :: _, [] => []
  end.

(** The generators write from the start of a buffer without looking at its
    end.  [mem] is the memory from there on, the buffer and what is after it;
    [None] when that is too short for the code. *)
Definition write_code (c : code) (mem : list Z) : option (list Z) :=
  if (length c <=? length mem)%nat then Some (flush mem c) else None.

(** The block is generated once more, over the caller's buffer. *)
Definition findInsnInCode (l : list insnZ) (mem : list Z) (offset : Z) : option (Z * list Z) :=
  '(res, c) ← findInsnInCode_loop l 0 offset (2 ^ 32 - 1);
  mem ← write_code c mem;
  Some (res, mem).

(** ** The back end interface *)

(** The hardware number of a register of the pool, 0 where the pool has none. *)
Definition index_of (xr : list x86Register) (x : nat) : Z :=
  match xr !! x with Some r => x_index r | None => 0 end.

Definition reset (s : inter) : inter :=
  mkInter (memoryPoolReset (x_registerPool s)) (memoryPoolReset (x_instructionPool s)) 0 0
          (ir_registers s).

Definition createBackend (size : Z) : inter :=
  let struct_inter_size_aligned_16 := Z.land (sizeof_inter + 15) (Z.lnot 15) in
  let pool_mem_size := (size - struct_inter_size_aligned_16) / 2 in
  reset (mkInter (memoryPoolInit (mkPool [] 0 0) pool_mem_size)
                 (memoryPoolInit (mkPool [] 0 0) pool_mem_size) 0 0 []).

(** The two register passes, shared by [jit] and [get_marker]: instructions
    over hardware registers. *)
Definition allocate (irArray : list irInstruction) (s : inter) : option (list insnZ * inter) :=
  '(_, s1) ← allocateInstructions irArray s;
  xr ← allocateRegisters (xinsns s1) (xregs s1);
  Some (x86_map (index_of xr) <$> xinsns s1,
        with_xregs (fun p => mkPool xr (pool_index p) (pool_size p)) s1).

(** ** Linked code *)

(** The last bytes of a patchable exit: as generated, or once [patch] made it
    jump to [t]. *)
Definition gen_link_area (link : option Z) : code :=
  match link with
  | None => emit_bytes [0xc3] ++ (emit_bytes [0x48; 0xb8] ++ skip 8) ++ emit_bytes [0xff; 0xe0]
  | Some t => emit_bytes [0x90] ++ emit_bytes ([0x48; 0xb8] ++ imm64 t) ++ emit_bytes [0xff; 0xe0]
  end.

Definition gen_exit_as (link : option Z) (value : Z) (pred : option Z) (is_patchable : bool) : code :=
  let body :=
    gen_move_reg_low 0 value ++
    (if is_patchable then gen_lea_rdx_rip ++ gen_link_area link ++ gen_lea_rdx_rip
     else emit_bytes [REX_OPCODE; 0x31; 0xc0 .| (2 .<< 3) .| 2] ++ emit_bytes [0xc3]) in
  match pred with
  | Some p => gen_cmp_zero p ++ emit_bytes [0x74; Z.of_nat (length body)] ++ body
  | None => body
  end.

Definition gen_insn_as (link : option Z) (insn : insnZ) : option code :=
  match insn with
  | X86_EXIT v p b => Some (gen_exit_as link v p b)
  | _ => gen_insn insn
  end.

Fixpoint generateCode_as (l : list (insnZ * option Z)) : option code :=
  match l with
  | [] => Some []
  | (i, link) :: l => c ← gen_insn_as link i; cs ← generateCode_as l; Some (c ++ cs)
  end.

(** Only patchable exits are linked. *)
Definition insn_link_ok (i : insnZ) (link : option Z) : Prop :=
  (forall v p, i <> X86_EXIT v p true) -> link = None.

Lemma gen_exit_as_None v p b : gen_exit_as None v p b = gen_exit v p b.
Proof. by destruct p, b. Qed.

Lemma generateCode_as_None l :
  generateCode_as ((fun i => (i, None)) <$> l) = generateCode l.
Proof.
  induction l as [|i l IH]; [done|]. cbn [fmap list_fmap generateCode_as generateCode].
  rewrite IH. destruct i; try done. cbn [gen_insn_as gen_insn]. by rewrite gen_exit_as_None.
Qed.

(** [jit] up to its assertion: the number of bytes of the code and the memory
    from [buffer] on, which was [mem]. *)
Definition jit_code (irArray : list irInstruction) (s : inter) (mem : list Z) :
    option (Z * list Z * inter) :=
  '(l, s1) ← allocate irArray s;
  c ← generateCode l;
  mem ← write_code c mem;
  Some (Z.of_nat (length c), mem, s1).

(** [None] when the assertion fails, after the code was written. *)
Definition jit (irArray : list irInstruction) (s : inter) (mem : list Z) (bufferSize : Z) :
    option (Z * list Z * inter) :=
  '(res, mem, s1) ← jit_code irArray s mem;
  if res <=? bufferSize then Some (res, mem, s1) else None.

(** It does not use the size of the buffer. *)
Definition get_marker (irArray : list irInstruction) (s : inter) (mem : list Z) (offset : Z) :
    option (Z * list Z) :=
  '(l, _) ← allocate irArray s;
  findInsnInCode l mem offset.

(** [patch]: turn the [ret] of an exit into a jump to [cache_area].  [pos] is
    the offset of the link patch area in the code. *)
Definition patch (c : list Z) (pos : nat) (cache_area : Z) : option (list Z) :=
  b ← c !! pos;
  if b =? 0xc3
  then Some (take pos c ++ [0x90] ++ take 2 (drop (S pos) c) ++
             imm64 cache_area ++ drop (pos + 11) c)
  else None.

(** [jitCode] and [findInsn] of [jitter.c]: the array of the builder [j]
    through the back end.  [allocateInstructions] sets the [backend] fields of
    the builder's registers. *)
Definition jitCode (j : jitter) (s : inter) (mem : list Z) (bufferSize : Z) :
    option (Z * list Z * inter) :=
  jit (jitCode_irArray j) (with_ir (fun _ => regs j) s) mem bufferSize.

Definition findInsn (j : jitter) (s : inter) (mem : list Z) (offset : Z) : option (Z * list Z) :=
  get_marker (jitCode_irArray j) (with_ir (fun _ => regs j) s) mem offset.

(** The code [jit] wrote, with room for it. *)
Lemma jit_inv irArray s mem size n c s1 :
  jit irArray s mem size = Some (n, c, s1) ->
  exists l kc, allocate irArray s = Some (l, s1) /\ generateCode l = Some kc /\
    n = Z.of_nat (length kc) /\ n <= size /\ (length kc <= length mem)%nat /\ c = flush mem kc.
Proof.
  unfold jit, jit_code, write_code. intros H. destruct (allocate irArray s) as [[l s2]|]; [|done].
  cbn [mbind option_bind] in H. destruct (generateCode l) as [kc|] eqn:Eg; [|done]. cbn [mbind option_bind] in H.
  destruct (Nat.leb_spec (length kc) (length mem)); [|done]. cbn [mbind option_bind] in H.
  destruct (Z.leb_spec (Z.of_nat (length kc)) size); [|done]. injection H as <- <- <-.
  exists l, kc. by split_and!.
Qed.

Lemma jit_intro irArray s mem size l kc s1 :
  allocate irArray s = Some (l, s1) -> generateCode l = Some kc ->
  Z.of_nat (length kc) <= size -> (length kc <= length mem)%nat ->
  jit irArray s mem size = Some (Z.of_nat (length kc), flush mem kc, s1).
Proof.
  intros Ha Hg Hs Hm. unfold jit, jit_code, write_code. rewrite Ha. cbn [mbind option_bind]. rewrite Hg. cbn [mbind option_bind].
  rewrite (proj2 (Nat.leb_le _ _)) by done. cbn [mbind option_bind]. by rewrite (proj2 (Z.leb_le _ _)).
Qed.
