(* ===== verification/X86Sem.v ===== *)
(** * The x86-64 machine: reference semantics of the generated encodings

    A decoder and an interpreter for the instructions the back end emits,
    following the architecture manual: prefixes, REX, ModRM, SIB, the width
    rules (a 32-bit write clears the upper half, an 8- or 16-bit write keeps
    the rest of the register), shift counts taken modulo the operand size,
    and the System V calling convention for [call].  Nothing here models code
    of the repository: it is the meaning of the bytes that code writes.

    The code being executed and the stack are kept apart from the data
    memory: generated code reaches its stack only by push, pop, call and ret,
    and it is not modified while it runs. *)

From S2P Require Import Prelude Ir.

(** ** Registers and state *)

Definition RAX : Z := 0.
Definition RCX : Z := 1.
Definition RDX : Z := 2.
Definition RBX : Z := 3.
Definition RSP : Z := 4.
Definition RBP : Z := 5.
Definition RSI : Z := 6.
Definition RDI : Z := 7.
(** [HW d] is the register the back end calls [d]: r8 + d. *)
Definition HW (d : Z) : Z := 8 + d.

Record cpu := mkCpu {
  rf : Z -> Z;
  zf : bool;
  mm : mem;
  stk : list Z
}.

Definition upd (f : Z -> Z) (r v : Z) : Z -> Z :=
  fun x => if decide (x = r) then v else f x.

Definition set_reg (r v : Z) (k : cpu) : cpu := mkCpu (upd (rf k) r v) (zf k) (mm k) (stk k).
Definition set_zf (z : bool) (k : cpu) : cpu := mkCpu (rf k) z (mm k) (stk k).
Definition set_mem (m : mem) (k : cpu) : cpu := mkCpu (rf k) (zf k) m (stk k).
Definition set_stk (s : list Z) (k : cpu) : cpu := mkCpu (rf k) (zf k) (mm k) s.

(** ** Instructions *)

Inductive shiftop := SHLop | SHRop | SARop | RORop.
Inductive aluop := ADDop | SUBop | XORop | ANDop | ORop.

Inductive insn :=
  | Imov_imm (r imm : Z)
  | Imov (d s : Z)
  | Iload (w : irRegisterType) (r base disp : Z)
  | Istore (w : irRegisterType) (r base disp : Z)
  | Ialu (o : aluop) (wide : bool) (src dst : Z)
  | Icmp (a b : Z)
  | Icmp_imm (a imm : Z)
  | Ishift (o : shiftop) (w : irRegisterType) (d : Z) (count : option Z)
  | Icmovne (d s : Z)
  | Ipush (r : Z)
  | Ipop (r : Z)
  | Icall (r : Z)
  | Inop
  | Ijcc (eq : bool) (disp : Z)
  | Ilea_rip (r disp : Z)
  | Iret
  | Ijmp (r : Z).

(** ** Decoder *)

Inductive rmop := RMreg (r : Z) | RMmem (base disp : Z) | RMrip (disp : Z).

Definition rex_w (rex : Z) : bool := Z.testbit rex 3.
Definition rex_r (rex : Z) : Z := if Z.testbit rex 2 then 8 else 0.
Definition rex_b (rex : Z) : Z := if Z.testbit rex 0 then 8 else 0.

(** Register field, r/m operand, rest, bytes consumed. *)
Definition parse_modrm (rex : Z) (bs : list Z) : option (Z * rmop * list Z * Z) :=
  match bs with
  | [] => None
  | m :: bs =>
      let md := Z.shiftr m 6 in
      let reg := Z.land (Z.shiftr m 3) 7 + rex_r rex in
      let rm := Z.land m 7 in
      if md =? 3 then Some (reg, RMreg (rm + rex_b rex), bs, 1)
      else if (md =? 0) && (rm =? 5) then
        match bs with
        | d0 :: d1 :: d2 :: d3 :: bs =>
            Some (reg, RMrip (to_signed 32 (le_join [d0; d1; d2; d3])), bs, 5)
        | _ => None
        end
      else if md =? 2 then
        if rm =? 4 then
          match bs with
          | sib :: d0 :: d1 :: d2 :: d3 :: bs =>
              if (Z.land (Z.shiftr sib 3) 7 =? 4) && negb (Z.testbit rex 1) then
                Some (reg, RMmem (Z.land sib 7 + rex_b rex)
                                 (to_signed 32 (le_join [d0; d1; d2; d3])), bs, 6)
              else None
          | _ => None
          end
        else
          match bs with
          | d0 :: d1 :: d2 :: d3 :: bs =>
              Some (reg, RMmem (rm + rex_b rex) (to_signed 32 (le_join [d0; d1; d2; d3])), bs, 5)
          | _ => None
          end
      else None
  end.

Definition opcode_alu (b : Z) : option aluop :=
  if b =? 0x01 then Some ADDop else if b =? 0x29 then Some SUBop
  else if b =? 0x31 then Some XORop else if b =? 0x21 then Some ANDop
  else if b =? 0x09 then Some ORop else None.

Definition opcode_shift (r : Z) : option shiftop :=
  let r := Z.land r 7 in
  if r =? 4 then Some SHLop else if r =? 5 then Some SHRop
  else if r =? 7 then Some SARop else if r =? 1 then Some RORop else None.

(** Operand size of the non-byte form of an instruction. *)
Definition opsize (p66 : bool) (rex : Z) : irRegisterType :=
  if rex_w rex then IR_REG_64 else if p66 then IR_REG_16 else IR_REG_32.

Definition decode_mov (w : irRegisterType) (store : bool) (reg : Z) (o : rmop) : option insn :=
  match o with
  | RMmem b d => Some (if store then Istore w reg b d else Iload w reg b d)
  | RMreg r =>
      if decide (w = IR_REG_64) then Some (if store then Imov r reg else Imov reg r) else None
  | RMrip _ => None
  end.

(** The instruction after prefixes; the count is the bytes consumed from the
    opcode on. *)
Definition decode_op (p66 : bool) (rex : Z) (bs : list Z) : option (insn * Z) :=
  let w := opsize p66 rex in
  let has_rex := negb (rex =? 0) in
  match bs with
  | [] => None
  | b :: bs =>
      if b =? 0xc3 then Some (Iret, 1)
      else if b =? 0x90 then Some (Inop, 1)
      else if (b =? 0x74) || (b =? 0x75) then
        match bs with
        | d :: _ => Some (Ijcc (b =? 0x74) (to_signed 8 d), 2)
        | [] => None
        end
      else if Z.land b 0xf8 =? 0x50 then Some (Ipush (Z.land b 7 + rex_b rex), 1)
      else if Z.land b 0xf8 =? 0x58 then Some (Ipop (Z.land b 7 + rex_b rex), 1)
      else if Z.land b 0xf8 =? 0xb8 then
        match bs with
        | i0 :: i1 :: i2 :: i3 :: i4 :: i5 :: i6 :: i7 :: _ =>
            if rex_w rex
            then Some (Imov_imm (Z.land b 7 + rex_b rex) (le_join [i0; i1; i2; i3; i4; i5; i6; i7]), 9)
            else None
        | _ => None
        end
      else if b =? 0x0f then
        match bs with
        | b2 :: bs =>
            '(reg, o, _, n) ← parse_modrm rex bs;
            match o with
            | RMreg r => if (b2 =? 0x45) && rex_w rex then Some (Icmovne reg r, 2 + n) else None
            | _ => None
            end
        | [] => None
        end
      else
        '(reg, o, rest, n) ← parse_modrm rex bs;
        if b =? 0x8a then
          if has_rex then i ← decode_mov IR_REG_8 false reg o; Some (i, 1 + n) else None
        else if b =? 0x88 then
          if has_rex then i ← decode_mov IR_REG_8 true reg o; Some (i, 1 + n) else None
        else if b =? 0x8b then i ← decode_mov w false reg o; Some (i, 1 + n)
        else if b =? 0x89 then i ← decode_mov w true reg o; Some (i, 1 + n)
        else if b =? 0x8d then
          match o with RMrip d => if rex_w rex then Some (Ilea_rip reg d, 1 + n) else None | _ => None end
        else
          match o with
          | RMreg r =>
              if b =? 0x3b then if rex_w rex then Some (Icmp reg r, 1 + n) else None
              else if b =? 0x81 then
                match rest with
                | i0 :: i1 :: i2 :: i3 :: _ =>
                    if (Z.land reg 7 =? 7) && rex_w rex
                    then Some (Icmp_imm r (to_signed 32 (le_join [i0; i1; i2; i3])), 1 + n + 4)
                    else None
                | _ => None
                end
              else if b =? 0xc1 then
                match rest with
                | i0 :: _ => so ← opcode_shift reg; Some (Ishift so w r (Some i0), 1 + n + 1)
                | [] => None
                end
              else if b =? 0xd3 then so ← opcode_shift reg; Some (Ishift so w r None, 1 + n)
              else if b =? 0xd2 then
                if has_rex then so ← opcode_shift reg; Some (Ishift so IR_REG_8 r None, 1 + n) else None
              else if b =? 0xff then
                if Z.land reg 7 =? 2 then Some (Icall r, 1 + n)
                else if Z.land reg 7 =? 4 then Some (Ijmp r, 1 + n) else None
              else
                ao ← opcode_alu b;
                if p66 then None else Some (Ialu ao (rex_w rex) reg r, 1 + n)
          | _ => None
          end
  end.

Definition decode_rex (p66 : bool) (bs : list Z) : option (insn * Z) :=
  match bs with
  | b :: bs' =>
      if Z.land b 0xf0 =? 0x40 then '(i, n) ← decode_op p66 b bs'; Some (i, 1 + n)
      else decode_op p66 0 bs
  | [] => None
  end.

Definition decode (bs : list Z) : option (insn * Z) :=
  match bs with
  | b :: bs' =>
      if b =? 0x66 then '(i, n) ← decode_rex true bs'; Some (i, 1 + n) else decode_rex false bs
  | [] => None
  end.

(** ** Execution *)

Definition alu_sem (o : aluop) (a b : Z) : Z :=
  match o with
  | ADDop => a + b | SUBop => a - b | XORop => Z.lxor a b | ANDop => Z.land a b
  | ORop => Z.lor a b
  end.

(** The full register after a [w]-bit result is written to it. *)
Definition merge (w : irRegisterType) (old v : Z) : Z :=
  match w with
  | IR_REG_8 | IR_REG_16 => old - wrap (bits w) old + v
  | IR_REG_32 | IR_REG_64 => v
  end.

Definition shift_count (w : irRegisterType) (c : Z) : Z :=
  Z.land c (if decide (w = IR_REG_64) then 63 else 31).

Definition shift_sem (o : shiftop) (w : irRegisterType) (a c : Z) : Z :=
  let n := bits w in
  match o with
  | SHLop => wrap n (Z.shiftl a c)
  | SHRop => Z.shiftr a c
  | SARop => wrap n (Z.shiftr (to_signed n a) c)
  | RORop => let c := c mod n in wrap n (Z.lor (Z.shiftr a c) (Z.shiftl a (n - c)))
  end.

(** Registers a callee must preserve: rbx, rsp, rbp, r12 to r15. *)
Definition callee_saved (r : Z) : bool :=
  (r =? RBX) || (r =? RSP) || (r =? RBP) || ((12 <=? r) && (r <=? 15)).

Section execution.
(** The functions generated code may call: from the address, the registers
    and the memory to the registers it leaves (those it may clobber), the
    zero flag and the memory. *)
Context (callee : Z -> (Z -> Z) -> mem -> (Z -> Z) * bool * mem).

Definition exec_call (r : Z) (k : cpu) : cpu :=
  let '(f, z, m) := callee (rf k r) (rf k) (mm k) in
  mkCpu (fun x => if callee_saved x then rf k x else wrap 64 (f x)) z m (stk k).

(** Instructions that fall through to the next one. *)
Definition exec_data (i : insn) (k : cpu) : option cpu :=
  match i with
  | Imov_imm r v => Some (set_reg r v k)
  | Imov d s => Some (set_reg d (rf k s) k)
  | Iload w r b d =>
      Some (set_reg r (merge w (rf k r) (load_mem w (mm k) (rf k b + d))) k)
  | Istore w r b d => Some (set_mem (store_mem w (mm k) (rf k b + d) (rf k r)) k)
  | Ialu o wide src dst =>
      let v := wrap (if wide then 64 else 32) (alu_sem o (rf k dst) (rf k src)) in
      Some (set_zf (v =? 0) (set_reg dst v k))
  | Icmp a b => Some (set_zf (wrap 64 (rf k a - rf k b) =? 0) k)
  | Icmp_imm a v => Some (set_zf (wrap 64 (rf k a - v) =? 0) k)
  | Ishift o w d c =>
      let c := shift_count w (match c with Some v => v | None => rf k RCX end) in
      let v := shift_sem o w (wrap (bits w) (rf k d)) c in
      let k' := set_reg d (merge w (rf k d) v) k in
      Some (match o with
            | RORop => k'
            | _ => if c =? 0 then k' else set_zf (v =? 0) k'
            end)
  | Icmovne d s => Some (if zf k then k else set_reg d (rf k s) k)
  | Ipush r => Some (set_stk (rf k r :: stk k) k)
  | Ipop r =>
      match stk k with
      | v :: s => Some (set_stk s (set_reg r v k))
      | [] => None
      end
  | Icall r => Some (exec_call r k)
  | Inop => Some k
  | Ijcc _ _ | Ilea_rip _ _ | Iret | Ijmp _ => None
  end.

Inductive mout :=
  | MNext (p : Z) (k : cpu)
  | MRet (k : cpu)
  | MJump (target : Z) (k : cpu)
  | MStuck.

(** One step of the code [c] loaded at address [base], at offset [p]. *)
Definition mstep (c : list Z) (base p : Z) (k : cpu) : mout :=
  match decode (drop (Z.to_nat p) c) with
  | None => MStuck
  | Some (i, n) =>
      let p' := p + n in
      match i with
      | Ijcc e d => MNext (if eqb (zf k) e then p' + d else p') k
      | Ilea_rip r d => MNext p' (set_reg r (wrap 64 (base + p' + d)) k)
      | Iret => MRet k
      | Ijmp r => MJump (rf k r) k
      | _ => match exec_data i k with Some k' => MNext p' k' | None => MStuck end
      end
  end.

(** Run with fuel; [None] when the fuel runs out. *)
Fixpoint mrun (fuel : nat) (c : list Z) (base p : Z) (k : cpu) : option mout :=
  match fuel with
  | O => None
  | S fuel =>
      match mstep c base p k with
      | MNext p' k' => mrun fuel c base p' k'
      | o => Some o
      end
  end.
End execution.

(** ** Encodings *)

(** [l] is the encoding of [i], whatever follows it. *)
Definition decodes (l : list Z) (i : insn) : Prop :=
  forall rest, decode (map (wrap 8) l ++ rest) = Some (i, Z.of_nat (length l)).
