(* ===== verification/X86Exec.v ===== *)
(** * The generated bytes decode to the intended instructions

    For every [gen_*] of [BeGen.v]: the list of machine instructions
    ([X86Sem.v]) its bytes decode to, for all hardware registers 0..7 and all
    immediates. *)

From S2P Require Import Prelude Ir Jitter BeX86 BeGen X86Sem.

#[local] Open Scope c_scope.

(** A hardware register number. *)
Definition hwreg (d : Z) : Prop := 0 <= d < 8.

Definition hw_all : list Z := [0; 1; 2; 3; 4; 5; 6; 7].

Lemma hwreg_elem d : hwreg d -> In d hw_all.
Proof.
  unfold hwreg, hw_all. intros H. cbn [In].
  assert (d = 0 \/ d = 1 \/ d = 2 \/ d = 3 \/ d = 4 \/ d = 5 \/ d = 6 \/ d = 7) by lia.
  intuition congruence.
Qed.

(** Two functions agree on every register as soon as their tables do: one
    evaluation instead of a case per register. *)
Lemma hw_table {A} (f g : Z -> A) :
  map f hw_all = map g hw_all -> forall d, hwreg d -> f d = g d.
Proof.
  intros H d Hd%hwreg_elem. revert Hd H. generalize hw_all. intros l.
  induction l as [|x l IH]; cbn; [done|]. intros [->|Hd] [=]; auto.
Qed.

Lemma hw_table2 {A} (f g : Z -> Z -> A) :
  map (fun d => map (f d) hw_all) hw_all = map (fun d => map (g d) hw_all) hw_all ->
  forall d s, hwreg d -> hwreg s -> f d s = g d s.
Proof.
  intros H d s Hd Hs. apply (hw_table (f d) (g d)); [|done].
  by apply (hw_table (fun d => map (f d) hw_all) (fun d => map (g d) hw_all)).
Qed.

(** Evaluate a decoding for every register at once. *)
Ltac hw1 d :=
  match goal with Hd : hwreg d |- ?l = ?r =>
    revert d Hd;
    match goal with |- forall d, _ -> @?f d = @?g d => apply (hw_table f g) end end;
  vm_compute; reflexivity.

(** The same with symbolic immediates, which stay folded. *)
Ltac hw1i d :=
  match goal with Hd : hwreg d |- ?l = ?r =>
    revert d Hd;
    match goal with |- forall d, _ -> @?f d = @?g d => apply (hw_table f g) end end;
  cbv -[le_join to_signed]; reflexivity.

Ltac hw2 d s :=
  match goal with Hd : hwreg d, Hs : hwreg s |- _ =>
    revert d s Hd Hs;
    match goal with |- forall d s, _ -> _ -> @?f d s = @?g d s => apply (hw_table2 f g) end end;
  vm_compute; reflexivity.

Lemma wrap8_byte_of v k : wrap 8 (byte_of v k) = byte_of v k.
Proof. apply wrap_small. apply byte_of_range. Qed.

Lemma map_wrap_imm64 v : map (wrap 8) (imm64 v) = imm64 v.
Proof. unfold imm64. cbn [map]. by rewrite !wrap8_byte_of. Qed.

Lemma map_wrap_imm32 v : map (wrap 8) (imm32 v) = imm32 v.
Proof. unfold imm32. cbn [map]. by rewrite !wrap8_byte_of. Qed.

Section decoding.
Context (d s : Z) (Hd : hwreg d) (Hs : hwreg s).

Lemma dec_mov_imm v :
  decodes ([REX_OPCODE .| REX_W .| REX_B; 0xb8 + d] ++ imm64 v) (Imov_imm (HW d) (wrap 64 v)).
Proof.
  intros rest. rewrite map_app, map_wrap_imm64, <- le_join_byte_of. unfold imm64.
  generalize (byte_of v 0) (byte_of v 1) (byte_of v 2) (byte_of v 3)
    (byte_of v 4) (byte_of v 5) (byte_of v 6) (byte_of v 7). intros.
  hw1i d.
Qed.

Lemma dec_mov_rcx_imm v :
  decodes ([REX_OPCODE .| REX_W; 0xb8 + 1] ++ imm64 v) (Imov_imm RCX (wrap 64 v)).
Proof.
  intros rest. rewrite map_app, map_wrap_imm64, <- le_join_byte_of. unfold imm64.
  generalize (byte_of v 0) (byte_of v 1) (byte_of v 2) (byte_of v 3)
    (byte_of v 4) (byte_of v 5) (byte_of v 6) (byte_of v 7). intros.
  cbv -[le_join to_signed]; reflexivity.
Qed.

Lemma dec_xor_self :
  decodes [REX_OPCODE .| REX_R .| REX_B; 0x31; 0xc0 .| (d .<< 3) .| d]
          (Ialu XORop false (HW d) (HW d)).
Proof. intros rest. hw1 d. Qed.

Definition load_prefix (w : irRegisterType) : list Z :=
  match w with
  | IR_REG_8 => [REX_OPCODE .| REX_R .| REX_B; 0x8a]
  | IR_REG_16 => [0x66; REX_OPCODE .| REX_R .| REX_B; 0x8b]
  | IR_REG_32 => [REX_OPCODE .| REX_R .| REX_B; 0x8b]
  | IR_REG_64 => [REX_OPCODE .| REX_R .| REX_B .| REX_W; 0x8b]
  end.

Definition store_prefix (w : irRegisterType) : list Z :=
  match w with
  | IR_REG_8 => [REX_OPCODE .| REX_R .| REX_B; 0x88]
  | IR_REG_16 => [0x66; REX_OPCODE .| REX_R .| REX_B; 0x89]
  | IR_REG_32 => [REX_OPCODE .| REX_R .| REX_B; 0x89]
  | IR_REG_64 => [REX_OPCODE .| REX_R .| REX_B .| REX_W; 0x89]
  end.

Lemma dec_load w :
  decodes (load_prefix w ++ modrm_sib_disp32 d s) (Iload w (HW d) (HW s) 0).
Proof. intros rest. destruct w; hw2 d s. Qed.

Lemma dec_store w :
  decodes (store_prefix w ++ modrm_sib_disp32 d s) (Istore w (HW d) (HW s) 0).
Proof. intros rest. destruct w; hw2 d s. Qed.

Lemma dec_move_low low :
  In low [0; 1; 2; 6] ->
  decodes [REX_OPCODE .| REX_B .| REX_W; 0x8b;
           MODRM_MODE_3 .| (low .<< MODRM_REG_SHIFT) .| s] (Imov low (HW s)).
Proof.
  intros Hl rest. cbn [In] in *.
  destruct_or! Hl; try done; subst;
    hw1 s.
Qed.

Lemma dec_move_from_rax :
  decodes [REX_OPCODE .| REX_R .| REX_W; 0x8b;
           MODRM_MODE_3 .| (d .<< MODRM_REG_SHIFT) .| 0] (Imov (HW d) RAX).
Proof. intros rest. hw1 d. Qed.

Lemma dec_move :
  decodes [REX_OPCODE .| REX_R .| REX_B .| REX_W; 0x8b;
           MODRM_MODE_3 .| (d .<< MODRM_REG_SHIFT) .| s] (Imov (HW d) (HW s)).
Proof. intros rest. hw2 d s. Qed.

Lemma dec_cmp_zero :
  decodes [REX_OPCODE .| REX_B .| REX_W; 0x81;
           MODRM_MODE_3 .| (7 .<< MODRM_REG_SHIFT) .| d; 0; 0; 0; 0] (Icmp_imm (HW d) 0).
Proof. intros rest. hw1 d. Qed.

Lemma dec_cmp :
  decodes [REX_OPCODE .| REX_R .| REX_B .| REX_W; 0x3b;
           MODRM_MODE_3 .| (d .<< MODRM_REG_SHIFT) .| s] (Icmp (HW d) (HW s)).
Proof. intros rest. hw2 d s. Qed.

Lemma dec_alu k o :
  opcode_alu (binopToOpcode k) = Some o ->
  decodes [REX_OPCODE .| REX_R .| REX_B .| REX_W; binopToOpcode k;
           MODRM_MODE_3 .| (s .<< MODRM_REG_SHIFT) .| d] (Ialu o true (HW s) (HW d)).
Proof.
  intros Ho rest. destruct k; vm_compute in Ho; try discriminate; injection Ho as <-;
    hw2 d s.
Qed.

Lemma dec_and :
  decodes [REX_OPCODE .| REX_R .| REX_B .| REX_W; 0x21;
           MODRM_MODE_3 .| (s .<< MODRM_REG_SHIFT) .| d] (Ialu ANDop true (HW s) (HW d)).
Proof. by apply (dec_alu AND). Qed.

Lemma dec_and_rcx :
  decodes [REX_OPCODE .| REX_B .| REX_W; 0x21;
           MODRM_MODE_3 .| (1 .<< MODRM_REG_SHIFT) .| d] (Ialu ANDop true RCX (HW d)).
Proof. intros rest. hw1 d. Qed.

Lemma dec_shift_cl sub o :
  In sub [4; 5; 7] -> opcode_shift sub = Some o ->
  decodes [REX_OPCODE .| REX_B .| REX_W; 0xd3;
           MODRM_MODE_3 .| (sub .<< MODRM_REG_SHIFT) .| d] (Ishift o IR_REG_64 (HW d) None).
Proof.
  intros Hl Ho rest. cbn [In] in *.
  destruct_or! Hl; try done; subst; vm_compute in Ho; injection Ho as <-;
    hw1 d.
Qed.

Lemma dec_shift_imm sub o n :
  In sub [4; 7] -> opcode_shift sub = Some o -> In n [32; 48; 56] ->
  decodes [REX_OPCODE .| REX_B .| REX_W; 0xc1;
           MODRM_MODE_3 .| (sub .<< MODRM_REG_SHIFT) .| d; n]
          (Ishift o IR_REG_64 (HW d) (Some n)).
Proof.
  intros Hl Ho Hn rest. cbn [In] in *.
  destruct_or! Hl; try done; subst; vm_compute in Ho; injection Ho as <-;
    destruct_or! Hn; try done; subst; hw1 d.
Qed.

Lemma dec_ror w :
  decodes ((if decide (w = IR_REG_16) then [0x66] else []) ++
           [REX_OPCODE .| REX_B .| (if decide (w = IR_REG_64) then REX_W else 0);
            (if decide (w = IR_REG_8) then 0xd2 else 0xd3);
            MODRM_MODE_3 .| (1 .<< MODRM_REG_SHIFT) .| d]) (Ishift RORop w (HW d) None).
Proof. intros rest. destruct w; hw1 d. Qed.

Lemma dec_cmovne :
  decodes [REX_OPCODE .| REX_R .| REX_B .| REX_W; 0x0f; 0x45;
           MODRM_MODE_3 .| (d .<< MODRM_REG_SHIFT) .| s] (Icmovne (HW d) (HW s)).
Proof. intros rest. hw2 d s. Qed.

Lemma dec_push r :
  In r [7; 8; 9; 10; 11; 12] ->
  decodes [(if 8 <=? r then REX_OPCODE .| REX_B .| REX_W else REX_OPCODE .| REX_W);
           0x50 + (r .& 7)] (Ipush r).
Proof.
  intros Hl rest. cbn [In] in *.
  destruct_or! Hl; try done; subst; vm_compute; reflexivity.
Qed.

Lemma dec_pop r :
  In r [7; 8; 9; 10; 11; 12] ->
  decodes [(if 8 <=? r then REX_OPCODE .| REX_B .| REX_W else REX_OPCODE .| REX_W);
           0x58 + (r .& 7)] (Ipop r).
Proof.
  intros Hl rest. cbn [In] in *.
  destruct_or! Hl; try done; subst; vm_compute; reflexivity.
Qed.

Lemma dec_call_rax :
  decodes [REX_OPCODE .| REX_W; 0xff; MODRM_MODE_3 .| (2 .<< MODRM_REG_SHIFT) .| 0] (Icall RAX).
Proof. intros rest. vm_compute; reflexivity. Qed.

Definition read_prefix (w : irRegisterType) : list Z :=
  match w with
  | IR_REG_8 => [REX_OPCODE .| REX_R; 0x8a]
  | IR_REG_16 => [0x66; REX_OPCODE .| REX_R; 0x8b]
  | IR_REG_32 => [REX_OPCODE .| REX_R; 0x8b]
  | IR_REG_64 => [REX_OPCODE .| REX_R .| REX_W; 0x8b]
  end.

Definition write_prefix (w : irRegisterType) : list Z :=
  match w with
  | IR_REG_8 => [REX_OPCODE .| REX_R; 0x88]
  | IR_REG_16 => [0x66; REX_OPCODE .| REX_R; 0x89]
  | IR_REG_32 => [REX_OPCODE .| REX_R; 0x89]
  | IR_REG_64 => [REX_OPCODE .| REX_R .| REX_W; 0x89]
  end.

Lemma dec_read w off :
  decodes (read_prefix w ++ modrm_ctx d off) (Iload w (HW d) RDI (to_signed 32 off)).
Proof.
  intros rest. unfold modrm_ctx. rewrite map_app. cbn [map]. rewrite map_wrap_imm32.
  replace (to_signed 32 off) with (to_signed 32 (le_join (imm32 off))).
  - unfold imm32. generalize (byte_of off 0) (byte_of off 1) (byte_of off 2) (byte_of off 3).
    intros. destruct w; hw1i d.
  - unfold imm32. rewrite le_join_byte_of4. unfold to_signed. by rewrite wrap_idem.
Qed.

Lemma dec_write w off :
  decodes (write_prefix w ++ modrm_ctx d off) (Istore w (HW d) RDI (to_signed 32 off)).
Proof.
  intros rest. unfold modrm_ctx. rewrite map_app. cbn [map]. rewrite map_wrap_imm32.
  replace (to_signed 32 off) with (to_signed 32 (le_join (imm32 off))).
  - unfold imm32. generalize (byte_of off 0) (byte_of off 1) (byte_of off 2) (byte_of off 3).
    intros. destruct w; hw1i d.
  - unfold imm32. rewrite le_join_byte_of4. unfold to_signed. by rewrite wrap_idem.
Qed.

Lemma dec_lea_rdx : decodes [0x48; 0x8d; 0x15; 0; 0; 0; 0] (Ilea_rip RDX 0).
Proof. intros rest. vm_compute; reflexivity. Qed.

Lemma dec_xor_edx :
  decodes [REX_OPCODE; 0x31; 0xc0 .| (2 .<< 3) .| 2] (Ialu XORop false RDX RDX).
Proof. intros rest. vm_compute; reflexivity. Qed.

Lemma dec_ret : decodes [0xc3] Iret.
Proof. intros rest. vm_compute; reflexivity. Qed.

Lemma dec_nop : decodes [0x90] Inop.
Proof. intros rest. vm_compute; reflexivity. Qed.

Lemma dec_mov_rax_imm v : decodes ([0x48; 0xb8] ++ imm64 v) (Imov_imm RAX (wrap 64 v)).
Proof.
  intros rest. rewrite map_app, map_wrap_imm64, <- le_join_byte_of. unfold imm64.
  generalize (byte_of v 0) (byte_of v 1) (byte_of v 2) (byte_of v 3)
    (byte_of v 4) (byte_of v 5) (byte_of v 6) (byte_of v 7). intros.
  cbv -[le_join to_signed]; reflexivity.
Qed.

Lemma dec_jmp_rax : decodes [0xff; 0xe0] (Ijmp RAX).
Proof. intros rest. vm_compute; reflexivity. Qed.

Lemma dec_jcc (eq : bool) n :
  0 <= n < 128 -> decodes [(if eq then 0x74 else 0x75); n] (Ijcc eq n).
Proof.
  intros Hn rest. assert (wrap 8 n = n) as Hw by (apply wrap_small; lia).
  assert (to_signed 8 n = n) as Ht.
  { unfold to_signed. rewrite Hw. destruct (Z.ltb_spec n (2 ^ (8 - 1))); lia. }
  cbn [map app]. rewrite Hw. destruct eq; cbn; rewrite Ht; reflexivity.
Qed.
End decoding.

(** * Executing generated code

    Placing generated bytes in a code buffer, the steps of the machine over
    them, and the reference meaning [xeval] of a back-end instruction over
    registers of any kind: the virtual registers of the first pass as well as
    the hardware registers of the last. *)

(** ** Code placed in a buffer *)

(** The bytes of [k], skipped ones apart, are at offset [p] of [c]. *)
Definition code_at (c : list Z) (p : Z) (k : code) : Prop :=
  0 <= p /\ forall i b, k !! i = Some (Some b) -> c !! (Z.to_nat p + i)%nat = Some b.

Lemma code_at_nil c p : 0 <= p -> code_at c p [].
Proof. intros. split; [done|]. intros i b Hi. by destruct i. Qed.

Lemma code_at_app c p k1 k2 :
  code_at c p (k1 ++ k2) <-> code_at c p k1 /\ code_at c (p + Z.of_nat (length k1)) k2.
Proof.
  unfold code_at. split.
  - intros [Hp H]. repeat split; [done| |lia|].
    + intros i b Hi. apply H. by apply lookup_app_l_Some.
    + intros i b Hi.
      replace (Z.to_nat (p + Z.of_nat (length k1)) + i)%nat
        with (Z.to_nat p + (length k1 + i))%nat by lia.
      apply H. rewrite lookup_app_r by lia.
      by replace (length k1 + i - length k1)%nat with i by lia.
  - intros [[Hp H1] [_ H2]]. split; [done|]. intros i b [Hi|[Hl Hi]]%lookup_app_Some; [by apply H1|].
    apply H2 in Hi.
    by replace (Z.to_nat (p + Z.of_nat (length k1)) + (i - length k1))%nat
      with (Z.to_nat p + i)%nat in Hi by lia.
Qed.

Lemma length_emit_bytes l : length (emit_bytes l) = length l.
Proof. apply length_map. Qed.

Lemma code_at_emit c p l :
  code_at c p (emit_bytes l) ->
  exists rest, drop (Z.to_nat p) c = map (wrap 8) l ++ rest.
Proof.
  intros [Hp H]. exists (drop (Z.to_nat p + length l) c).
  apply list_eq. intros i. rewrite lookup_drop.
  destruct (decide (i < length l)%nat) as [Hi|Hi].
  - rewrite lookup_app_l by (rewrite length_map; lia).
    destruct (lookup_lt_is_Some_2 l i Hi) as [b Hb].
    assert (Hm : map (wrap 8) l !! i = Some (wrap 8 b)).
    { change (map (wrap 8) l) with (wrap 8 <$> l). rewrite list_lookup_fmap. by rewrite Hb. }
    rewrite Hm. apply H. unfold emit_bytes. change (map ?f l) with (f <$> l).
    rewrite list_lookup_fmap. by rewrite Hb.
  - rewrite lookup_app_r by (rewrite length_map; lia). rewrite lookup_drop, length_map.
    f_equal. lia.
Qed.

(** The buffer [jit] filled holds the code at offset 0. *)
Lemma length_flush old k : length (flush old k) = length old.
Proof.
  revert old. induction k as [|[b|] k IH]; intros [|o old]; cbn; auto.
Qed.

Lemma code_at_flush old k : (length k <= length old)%nat -> code_at (flush old k) 0 k.
Proof.
  intros Hl. split; [lia|]. change (Z.to_nat 0) with O. cbn [Nat.add].
  revert old Hl. induction k as [|[b|] k IH]; intros [|o old] Hl i b' Hi; cbn in *;
    try (by destruct i); try lia.
  - destruct i; cbn in *; [congruence|]. apply IH; [lia|done].
  - destruct i; cbn in *; [congruence|]. apply IH; [lia|done].
Qed.

(** ** Steps *)

Section steps.
Context (callee : Z -> (Z -> Z) -> mem -> (Z -> Z) * bool * mem).
Context (c : list Z) (base : Z).

Definition mnext (x y : Z * cpu) : Prop :=
  mstep callee c base x.1 x.2 = MNext y.1 y.2.

Definition msteps : relation (Z * cpu) := rtc mnext.

Lemma decode_at p l i :
  code_at c p (emit_bytes l) -> decodes l i ->
  decode (drop (Z.to_nat p) c) = Some (i, Z.of_nat (length l)).
Proof. intros [rest ->]%code_at_emit H. apply H. Qed.

Lemma step_data p l i k k' :
  code_at c p (emit_bytes l) -> decodes l i -> exec_data callee i k = Some k' ->
  mstep callee c base p k = MNext (p + Z.of_nat (length l)) k'.
Proof.
  intros Hc Hd He. unfold mstep. rewrite (decode_at _ _ _ Hc Hd).
  destruct i; try discriminate He; by rewrite He.
Qed.

Lemma step_jcc p l e d k :
  code_at c p (emit_bytes l) -> decodes l (Ijcc e d) ->
  mstep callee c base p k =
    MNext (if eqb (zf k) e then p + Z.of_nat (length l) + d else p + Z.of_nat (length l)) k.
Proof. intros Hc Hd. unfold mstep. by rewrite (decode_at _ _ _ Hc Hd). Qed.

Lemma step_lea p l r d k :
  code_at c p (emit_bytes l) -> decodes l (Ilea_rip r d) ->
  mstep callee c base p k =
    MNext (p + Z.of_nat (length l))
          (set_reg r (wrap 64 (base + (p + Z.of_nat (length l)) + d)) k).
Proof. intros Hc Hd. unfold mstep. by rewrite (decode_at _ _ _ Hc Hd). Qed.

Lemma step_ret p l k :
  code_at c p (emit_bytes l) -> decodes l Iret -> mstep callee c base p k = MRet k.
Proof. intros Hc Hd. unfold mstep. by rewrite (decode_at _ _ _ Hc Hd). Qed.

Lemma step_jmp p l r k :
  code_at c p (emit_bytes l) -> decodes l (Ijmp r) ->
  mstep callee c base p k = MJump (rf k r) k.
Proof. intros Hc Hd. unfold mstep. by rewrite (decode_at _ _ _ Hc Hd). Qed.

(** *** Straight-line code *)

Inductive encodes : code -> list insn -> Prop :=
  | enc_nil : encodes [] []
  | enc_cons l i k il :
      decodes l i -> encodes k il -> encodes (emit_bytes l ++ k) (i :: il).

Lemma enc_one l i : decodes l i -> encodes (emit_bytes l) [i].
Proof. intros H. rewrite <- (app_nil_r (emit_bytes l)). by repeat constructor. Qed.

Lemma enc_app k1 il1 k2 il2 :
  encodes k1 il1 -> encodes k2 il2 -> encodes (k1 ++ k2) (il1 ++ il2).
Proof.
  induction 1 as [|l i k il Hd _ IH]; intros H2; cbn; [done|].
  rewrite <- app_assoc. constructor; auto.
Qed.

Fixpoint exec_seq (il : list insn) (k : cpu) : option cpu :=
  match il with
  | [] => Some k
  | i :: il => k' ← exec_data callee i k; exec_seq il k'
  end.

Lemma encodes_steps k il p s s' :
  encodes k il -> code_at c p k -> exec_seq il s = Some s' ->
  msteps (p, s) (p + Z.of_nat (length k), s').
Proof.
  intros He. revert p s. induction He as [|l i k il Hd _ IH]; intros p s Hc Hs; cbn in *.
  - injection Hs as <-. rewrite Z.add_0_r. apply rtc_refl.
  - apply code_at_app in Hc as [Hc1 Hc2]. rewrite length_emit_bytes in Hc2.
    destruct (exec_data callee i s) as [s1|] eqn:E; [|done].
    apply (rtc_l _ _ (p + Z.of_nat (length l), s1)).
    + exact (step_data _ _ _ _ _ Hc1 Hd E).
    + rewrite length_app, length_emit_bytes, Nat2Z.inj_add, Z.add_assoc. by apply IH.
Qed.

(** From the relation back to the interpreter. *)
Lemma msteps_mrun p s p' s' fuel o :
  msteps (p, s) (p', s') -> mrun callee fuel c base p' s' = Some o ->
  exists fuel', mrun callee fuel' c base p s = Some o.
Proof.
  intros Hs Hr. remember (p, s) as x. remember (p', s') as y.
  revert p s Heqx. induction Hs as [z|x [q t] z Hxy _ IH]; intros p s ->.
  - injection Heqy as -> ->. eauto.
  - destruct (IH Heqy q t eq_refl) as [n Hn]. exists (S n). cbn.
    unfold mnext in Hxy; cbn in Hxy. by rewrite Hxy.
Qed.
End steps.

(** ** Reference meaning of a back-end instruction *)

Inductive xout :=
  | XNext (v : option Z) (m : mem)
  | XExit (v : Z) (patchable : bool) (m : mem)
  | XStuck.

(** Binary operators on whole 64-bit registers, then the mask. *)
Definition xbinop64 (w : irRegisterType) (k : binopKind) (a b : Z) : Z :=
  let sh o := shift_sem o IR_REG_64 a (shift_count IR_REG_64 b) in
  match k with
  | ADD => wrap 64 (a + b)
  | SUB => wrap 64 (a - b)
  | XOR => Z.lxor a b
  | AND => Z.land a b
  | OR => Z.lor a b
  | SHL => sh SHLop
  | SHR => sh SHRop
  | ASR => sh SARop
  | ROR => merge w a (shift_sem RORop w (wrap (bits w) a) (shift_count w b))
  | CMPEQ => if a =? b then 2 ^ 64 - 1 else 0
  | CMPNE => if a =? b then 0 else 2 ^ 64 - 1
  end.

Definition xbinop (w : irRegisterType) (k : binopKind) (a b : Z) : Z :=
  wrap (bits w) (xbinop64 w k a b).

Definition xcast (t : irCastType) (a : Z) : Z :=
  if cast_signed t then
    let n := 64 - bits (cast_src t) in
    shift_sem SARop IR_REG_64 (shift_sem SHLop IR_REG_64 a n) n
  else wrap (Z.min (bits (cast_src t)) (bits (cast_dst t))) a.

Section xeval.
(** A call seen from the instruction: address, context and the parameters
    that are present give the memory and the value returned, unless no
    function of that prototype is there. *)
Context (xcall : Z -> Z -> list (option Z) -> mem -> option (mem * Z)).
Context (ctx : Z).

(** [old] is what the destination register holds before. *)
Definition xeval {R} (old : Z) (ρ : R -> Z) (m : mem) (i : x86Instruction R) : xout :=
  match i with
  | X86_MOV_CONST _ v => XNext (Some (wrap 64 v)) m
  | X86_LOAD w _ a => XNext (Some (merge w old (load_mem w m (ρ a)))) m
  | X86_STORE w s a => XNext None (store_mem w m (ρ a) (ρ s))
  | X86_BINOP w k _ p q => XNext (Some (xbinop w k (ρ p) (ρ q))) m
  | X86_ITE _ p t f => XNext (Some (if ρ p =? 0 then ρ f else ρ t)) m
  | X86_CAST t _ o => XNext (Some (xcast t (ρ o))) m
  | X86_EXIT v None b => XExit (ρ v) b m
  | X86_EXIT v (Some p) b => if ρ p =? 0 then XNext None m else XExit (ρ v) b m
  | X86_CALL a ps r =>
      match xcall (ρ a) ctx (map (option_map ρ) ps) m with
      | Some (m', v) => XNext (option_map (fun _ => wrap 64 v) r) m'
      | None => XStuck
      end
  | X86_READ w _ off => XNext (Some (merge w old (load_mem w m (ctx + to_signed 32 off)))) m
  | X86_WRITE w s off => XNext None (store_mem w m (ctx + to_signed 32 off) (ρ s))
  | X86_INSN_MARKER _ => XNext None m
  end.

(** Register file after an instruction that wrote [v] to [d]. *)
Definition set_val {R} `{EqDecision R} (ρ : R -> Z) (d : option R) (v : option Z) : R -> Z :=
  match d, v with
  | Some d, Some v => fun x => if decide (x = d) then v else ρ x
  | _, _ => ρ
  end.

(** An outcome, [n] instructions later. *)
Definition later (n : nat) (o : option (nat * Z * bool * mem)) : option (nat * Z * bool * mem) :=
  match o with Some (k, v, b, m) => Some ((n + k)%nat, v, b, m) | None => None end.

(** Run a sequence until it exits: the index of the exit, the value, whether
    it is patchable, and the memory.  [old n] is what the destination of
    instruction [n] holds before it is written: the narrow loads keep its
    upper bits. *)
Fixpoint xrun {R} `{EqDecision R} (old : nat -> Z) (ρ : R -> Z) (m : mem)
    (l : list (x86Instruction R)) : option (nat * Z * bool * mem) :=
  match l with
  | [] => None
  | i :: l =>
      match xeval (old 0%nat) ρ m i with
      | XNext v m' => later 1 (xrun (fun n => old (S n)) (set_val ρ (x86_def i) v) m' l)
      | XExit v b m' => Some (0%nat, v, b, m')
      | XStuck => None
      end
  end.
End xeval.

(** ** Renaming registers *)

Section renaming.
Context {R S : Type} (f : R -> S).

Lemma params_map (ps : list (option R)) :
  map (option_map f) ps ≫= option_list = f <$> (ps ≫= option_list).
Proof. induction ps as [|[p|] ps IH]; cbn; [done| |done]. by f_equal. Qed.

Lemma x86_uses_map i : x86_uses (x86_map f i) = f <$> x86_uses i.
Proof.
  destruct i as [| | | | | |v [p|] b|a ps r| | |]; try done. cbn. by rewrite params_map.
Qed.

Lemma x86_def_map i : x86_def (x86_map f i) = f <$> x86_def i.
Proof. by destruct i. Qed.

Lemma xeval_map xcall ctx old ρ ρ' m i :
  (forall x, x ∈ x86_uses i -> ρ' (f x) = ρ x) ->
  xeval xcall ctx old ρ' m (x86_map f i) = xeval xcall ctx old ρ m i.
Proof.
  intros H. destruct i as [d v|w d a|w s a|w o d a b|d a t e|t d o|v o b|a ps r|w d off|w s off|v];
    cbn [x86_map xeval x86_uses] in *; try done.
  - by rewrite H by set_solver.
  - by rewrite !H by set_solver.
  - by rewrite !H by set_solver.
  - by rewrite !H by set_solver.
  - by rewrite !H by set_solver.
  - destruct o as [p|]; cbn [option_map option_list] in *; rewrite !H by set_solver; done.
  - rewrite H by set_solver.
    replace (map (option_map ρ') (map (option_map f) ps)) with (map (option_map ρ) ps).
    { destruct (xcall _ _ _ _) as [[]|]; [by destruct r|done]. }
    assert (Hp : forall x, x ∈ ps ≫= option_list -> ρ' (f x) = ρ x) by (intros; apply H; apply elem_of_cons; auto).
    clear H. revert Hp. induction ps as [|[p|] ps IH]; cbn; intros Hp; [done| |].
    + rewrite Hp by (apply elem_of_cons; auto). f_equal. apply IH. intros x Hx. apply Hp.
      apply elem_of_cons. auto.
    + f_equal. by apply IH.
  - by rewrite !H by set_solver.
Qed.
End renaming.

Lemma x86_map_id {R} (i : x86Instruction R) : x86_map (fun x => x) i = i.
Proof.
  destruct i as [| | | | | |v [p|] b|a ps [r|]| | |]; try done; cbn; f_equal;
    (induction ps as [|[p|] ps IH]; cbn; [done|by f_equal|by f_equal]).
Qed.

Lemma xeval_ext {R} xcall ctx old (ρ ρ' : R -> Z) m i :
  (forall x, x ∈ x86_uses i -> ρ' x = ρ x) ->
  xeval xcall ctx old ρ' m i = xeval xcall ctx old ρ m i.
Proof.
  intros H. rewrite <- (xeval_map (fun x => x) xcall ctx old ρ ρ' m i H). by rewrite x86_map_id.
Qed.

(** An instruction with a destination produces a value. *)
Lemma xeval_def {R} xcall ctx old (ρ : R -> Z) m i d m' :
  xeval xcall ctx old ρ m i = XNext None m' -> x86_def i <> Some d.
Proof.
  destruct i as [| | | | | |x [p|] b|a ps r| | |]; cbn; try done.
  destruct (xcall _ _ _ _) as [[]|]; [by destruct r|done].
Qed.

Lemma later_later n k o : later n (later k o) = later (n + k) o.
Proof. destruct o as [[[[]]]|]; [|done]. cbn. by rewrite Nat.add_assoc. Qed.
