(* ===== verification/X86Correct.v ===== *)
(** * Correctness of code generation

    The bytes of every back-end instruction, wherever they are placed in the
    code buffer, make the machine do what [xeval] says: same result in the
    destination, same memory, and every other hardware register, the context
    pointer and the stack unchanged. *)

From S2P Require Import Prelude Ir Jitter BeX86 BeGen X86Sem X86Exec.

(** [k1] is [k0] after a write of [v] to [d] and of the memory. *)
Record sets (k0 k1 : cpu) (d : option Z) (v : option Z) (m : mem) : Prop := mkSets {
  sets_mem : mm k1 = m;
  sets_stk : stk k1 = stk k0;
  sets_rdi : rf k1 RDI = rf k0 RDI;
  sets_reg : forall x, hwreg x ->
    rf k1 (HW x) =
      match d, v with
      | Some d, Some v => if decide (x = d) then v else rf k0 (HW x)
      | _, _ => rf k0 (HW x)
      end
}.

Definition regs_ok (k : cpu) : Prop := forall d, hwreg d -> 0 <= rf k (HW d) < 2 ^ 64.

(** Simplify register reads after writes. *)
Ltac upd_simpl :=
  cbn [rf mm stk zf set_reg set_zf set_mem set_stk] in *; unfold upd in *;
  repeat (case_decide; cbn [rf mm stk zf] in *;
          try (exfalso; unfold HW, RDI, RAX, RCX, RDX, RSI, hwreg in *; lia)).

Ltac solve_sets :=
  constructor; upd_simpl; try done; intros; upd_simpl; try done; try congruence.

Section numbers.
Lemma wrap64_small a : 0 <= a < 2 ^ 64 -> wrap 64 a = a.
Proof. apply wrap_small. Qed.

Lemma wrap_bits_range w a : 0 <= wrap (bits w) a < 2 ^ 64.
Proof.
  pose proof (wrap_range (bits w) a). assert (2 ^ bits w <= 2 ^ 64) by (by destruct w).
  destruct w; cbn [bits] in *; lia.
Qed.

Lemma shift_count_range w c : 0 <= shift_count w c < 64.
Proof.
  unfold shift_count. case_decide.
  - rewrite (Z.land_ones _ 6) by lia. apply Z.mod_pos_bound. lia.
  - rewrite (Z.land_ones _ 5) by lia. pose proof (Z.mod_pos_bound c (2 ^ 5)). lia.
Qed.

Lemma shift_sem_range o w a c :
  0 <= c -> 0 <= a < 2 ^ bits w -> 0 <= shift_sem o w a c < 2 ^ bits w.
Proof.
  intros Hc Ha. pose proof (bits_pos w).
  destruct o; cbn -[bits Z.pow]; try (apply wrap_range; lia). by apply shiftr_range.
Qed.

Lemma merge_range w old v :
  0 <= old < 2 ^ 64 -> 0 <= v < 2 ^ bits w -> 0 <= merge w old v < 2 ^ 64.
Proof.
  intros Ho Hv. destruct w; cbn [merge bits] in *; [| |lia|lia]; unfold wrap.
  - pose proof (Z.div_mod old (2 ^ 8)). pose proof (Z.mod_pos_bound old (2 ^ 8)). lia.
  - pose proof (Z.div_mod old (2 ^ 16)). pose proof (Z.mod_pos_bound old (2 ^ 16)). lia.
Qed.

Lemma xbinop64_range w k a b :
  0 <= a < 2 ^ 64 -> 0 <= b < 2 ^ 64 -> 0 <= xbinop64 w k a b < 2 ^ 64.
Proof.
  intros Ha Hb. pose proof (shift_count_range IR_REG_64 b).
  destruct k; cbn -[Z.pow shift_sem merge shift_count];
    try (apply wrap_range; lia); try (apply (shift_sem_range _ IR_REG_64); cbn; lia).
  - apply lxor_range; lia.
  - apply land_range; lia.
  - apply lor_range; lia.
  - apply merge_range; [lia|]. pose proof (shift_count_range w b).
    apply shift_sem_range; [lia|]. apply wrap_range. pose proof (bits_pos w). lia.
  - destruct (a =? b); lia.
  - destruct (a =? b); lia.
Qed.

Lemma xcast_range t a : 0 <= a < 2 ^ 64 -> 0 <= xcast t a < 2 ^ 64.
Proof.
  intros Ha. unfold xcast. destruct (cast_signed t) eqn:E.
  - pose proof (bits_le_64 (cast_src t)).
    apply (shift_sem_range _ IR_REG_64); [lia|].
    apply (shift_sem_range _ IR_REG_64); [lia|]. done.
  - assert (H : exists w, Z.min (bits (cast_src t)) (bits (cast_dst t)) = bits w).
    { destruct t; (by exists IR_REG_8) || (by exists IR_REG_16) || (by exists IR_REG_32)
        || (by exists IR_REG_64). }
    destruct H as [w ->]. apply wrap_bits_range.
Qed.

Lemma mask_wrap w r :
  binop_mask w <> 0 -> Z.land r (binop_mask w) = wrap (bits w) r.
Proof.
  intros H. rewrite <- wrap_land_ones by (pose proof (bits_pos w); lia).
  by destruct w.
Qed.

Lemma sub_zero_eq a b :
  0 <= a < 2 ^ 64 -> 0 <= b < 2 ^ 64 -> (wrap 64 (a - b) =? 0) = (a =? b).
Proof.
  intros Ha Hb. unfold wrap. destruct (Z.eqb_spec a b) as [->|Hne].
  - by rewrite Z.sub_diag.
  - apply Z.eqb_neq. intros H. apply Z.mod_divide in H; [|lia]. destruct H as [q Hq].
    assert (q = 0) by nia. lia.
Qed.
End numbers.

(** ** The machine instructions of each generator *)

Lemma enc_move d s : hwreg d -> hwreg s -> encodes (gen_move_reg d s) [Imov (HW d) (HW s)].
Proof. intros. apply enc_one. by apply dec_move. Qed.

Lemma enc_move_low low s :
  In low [0; 1; 2; 6] -> hwreg s -> encodes (gen_move_reg_low low s) [Imov low (HW s)].
Proof. intros. apply enc_one. by apply dec_move_low. Qed.

Lemma enc_mov_const d v :
  hwreg d ->
  encodes (gen_mov_const_hlp d v)
    [if v =? 0 then Ialu XORop false (HW d) (HW d) else Imov_imm (HW d) (wrap 64 v)].
Proof.
  intros. unfold gen_mov_const_hlp. destruct (v =? 0); cbn [negb]; apply enc_one;
    [by apply dec_xor_self | by apply dec_mov_imm].
Qed.

Lemma enc_load w d a :
  hwreg d -> hwreg a ->
  exists k, gen_insn (X86_LOAD w d a) = Some k /\ encodes k [Iload w (HW d) (HW a) 0].
Proof.
  intros Hd Ha. pose proof (enc_one _ _ (dec_load d a Hd Ha w)) as H.
  destruct w; (eexists; split; [done|exact H]).
Qed.

Lemma enc_store w s a :
  hwreg s -> hwreg a ->
  exists k, gen_insn (X86_STORE w s a) = Some k /\ encodes k [Istore w (HW s) (HW a) 0].
Proof.
  intros Hs Ha. pose proof (enc_one _ _ (dec_store s a Hs Ha w)) as H.
  destruct w; (eexists; split; [done|exact H]).
Qed.

Lemma enc_read w d off :
  hwreg d ->
  exists k, gen_insn (X86_READ w d off) = Some k /\
            encodes k [Iload w (HW d) RDI (to_signed 32 off)].
Proof.
  intros Hd. pose proof (enc_one _ _ (dec_read d Hd w off)) as H.
  destruct w; (eexists; split; [done|exact H]).
Qed.

Lemma enc_write w s off :
  hwreg s ->
  exists k, gen_insn (X86_WRITE w s off) = Some k /\
            encodes k [Istore w (HW s) RDI (to_signed 32 off)].
Proof.
  intros Hs. pose proof (enc_one _ _ (dec_write s Hs w off)) as H.
  destruct w; (eexists; split; [done|exact H]).
Qed.

Definition mask_insns (d mask : Z) : list insn :=
  if mask =? 0 then [] else [Imov_imm RCX (wrap 64 mask); Ialu ANDop true RCX (HW d)].

Lemma enc_mask d mask : hwreg d -> encodes (gen_mask d mask) (mask_insns d mask).
Proof.
  intros. unfold gen_mask, mask_insns. destruct (mask =? 0); cbn [negb]; [constructor|].
  apply enc_cons; [apply dec_mov_rcx_imm|]. apply enc_one. by apply dec_and_rcx.
Qed.

Lemma enc_cmp_zero d : hwreg d -> encodes (gen_cmp_zero d) [Icmp_imm (HW d) 0].
Proof. intros. apply enc_one. by apply dec_cmp_zero. Qed.

(** The operator part of a binary instruction, comparisons apart. *)
Definition binop_insns (w : irRegisterType) (k : binopKind) (d p q : Z) : list insn :=
  match k with
  | SHL => [Imov RCX (HW q); Imov (HW d) (HW p); Ishift SHLop IR_REG_64 (HW d) None]
  | SHR => [Imov RCX (HW q); Imov (HW d) (HW p); Ishift SHRop IR_REG_64 (HW d) None]
  | ASR => [Imov RCX (HW q); Imov (HW d) (HW p); Ishift SARop IR_REG_64 (HW d) None]
  | ROR => [Imov RCX (HW q); Imov (HW d) (HW p); Ishift RORop w (HW d) None]
  | ADD => [Imov (HW d) (HW p); Ialu ADDop true (HW q) (HW d)]
  | SUB => [Imov (HW d) (HW p); Ialu SUBop true (HW q) (HW d)]
  | XOR => [Imov (HW d) (HW p); Ialu XORop true (HW q) (HW d)]
  | AND => [Imov (HW d) (HW p); Ialu ANDop true (HW q) (HW d)]
  | OR => [Imov (HW d) (HW p); Ialu ORop true (HW q) (HW d)]
  | CMPEQ | CMPNE => []
  end.

Definition is_cmp (k : binopKind) : bool :=
  match k with CMPEQ | CMPNE => true | _ => false end.

Lemma enc_shift sub o d p q :
  In sub [4; 5; 7] -> opcode_shift sub = Some o -> hwreg d -> hwreg p -> hwreg q ->
  encodes (gen_shift sub d p q)
    [Imov RCX (HW q); Imov (HW d) (HW p); Ishift o IR_REG_64 (HW d) None].
Proof.
  intros. unfold gen_shift.
  apply (enc_app _ [_] _ [_; _]); [by apply enc_move_low; cbn; auto|].
  apply (enc_app _ [_] _ [_]); [by apply enc_move|]. apply enc_one. by apply dec_shift_cl.
Qed.

Lemma enc_ror w d p q :
  hwreg d -> hwreg p -> hwreg q ->
  encodes (gen_ror w d p q)
    [Imov RCX (HW q); Imov (HW d) (HW p); Ishift RORop w (HW d) None].
Proof.
  intros. unfold gen_ror.
  apply (enc_app _ [_] _ [_; _]); [by apply enc_move_low; cbn; auto|].
  apply (enc_app _ [_] _ [_]); [by apply enc_move|].
  assert (H' : forall l1 l2, emit_bytes l1 ++ emit_bytes l2 = emit_bytes (l1 ++ l2))
    by (intros; unfold emit_bytes; by rewrite map_app).
  assert (Hif : (if decide (w = IR_REG_16) then emit_bytes [0x66] else []) =
                emit_bytes (if decide (w = IR_REG_16) then [0x66] else []))
    by (by case_decide).
  rewrite Hif, H'. apply enc_one. by apply dec_ror.
Qed.

Lemma enc_binop w k d p q :
  is_cmp k = false -> hwreg d -> hwreg p -> hwreg q ->
  encodes (gen_binop w k d p q (binop_mask w))
    (binop_insns w k d p q ++ mask_insns d (binop_mask w)).
Proof.
  intros Hk Hd Hp Hq. unfold gen_binop.
  apply enc_app; [|by apply enc_mask].
  destruct k; try discriminate Hk; cbn [binop_insns];
    try (apply (enc_app _ [_] _ [_]); [by apply enc_move|]; apply enc_one; by apply dec_alu);
    try (by apply enc_shift; cbn; auto). by apply enc_ror.
Qed.

Lemma enc_ite d p t f :
  hwreg d -> hwreg p -> hwreg t -> hwreg f ->
  encodes (gen_ite d p t f) [Imov (HW d) (HW f); Icmp_imm (HW p) 0; Icmovne (HW d) (HW t)].
Proof.
  intros. apply (enc_app _ [_] _ [_; _]); [by apply enc_move|].
  apply (enc_app _ [_] _ [_]); [by apply enc_cmp_zero|]. apply enc_one. by apply dec_cmovne.
Qed.

Definition ucast_insns (d o mask : Z) : list insn :=
  [Imov_imm (HW d) (wrap 64 mask); Ialu ANDop true (HW o) (HW d)].

Definition scast_insns (d o n : Z) : list insn :=
  [Imov (HW d) (HW o); Ishift SHLop IR_REG_64 (HW d) (Some n);
   Ishift SARop IR_REG_64 (HW d) (Some n)].

Lemma enc_ucast d o mask :
  mask <> 0 -> hwreg d -> hwreg o ->
  encodes (gen_upper_unsigned_cast_hlp d o mask) (ucast_insns d o mask).
Proof.
  intros Hm Hd Ho. apply (enc_app _ [_] _ [_]).
  - replace (Imov_imm (HW d) (wrap 64 mask))
      with (if mask =? 0 then Ialu XORop false (HW d) (HW d) else Imov_imm (HW d) (wrap 64 mask)).
    + by apply enc_mov_const.
    + apply Z.eqb_neq in Hm. by rewrite Hm.
  - apply enc_one. by apply dec_and.
Qed.

Lemma enc_scast d o n :
  In n [32; 48; 56] -> hwreg d -> hwreg o ->
  encodes (gen_upper_signed_cast_hlp d o n) (scast_insns d o n).
Proof.
  intros Hn Hd Ho. apply (enc_app _ [_] _ [_; _]); [by apply enc_move|].
  change [0x40; 0x41] with ([0x40] ++ [0x41]).
  match goal with |- encodes (emit_bytes [?a; ?b; ?c; ?e; ?f; ?g; ?h; ?i]) _ =>
    change (emit_bytes [a; b; c; e; f; g; h; i])
      with (emit_bytes [a; b; c; e] ++ emit_bytes [f; g; h; i]) end.
  apply (enc_app _ [_] _ [_]); apply enc_one; apply dec_shift_imm; cbn; auto.
Qed.

Definition cast_insns (t : irCastType) (d o : Z) : list insn :=
  if cast_signed t then scast_insns d o (64 - bits (cast_src t))
  else ucast_insns d o (Z.ones (Z.min (bits (cast_src t)) (bits (cast_dst t)))).

Lemma enc_cast t d o :
  hwreg d -> hwreg o -> encodes (gen_cast t d o) (cast_insns t d o).
Proof.
  intros. destruct t;
    first [ by apply enc_ucast | apply enc_scast; cbn; auto ].
Qed.

Definition param_insns (low : Z) (p : option Z) : list insn :=
  match p with Some r => [Imov low (HW r)] | None => [] end.

Definition call_insns (a : Z) (ps : list (option Z)) (r : option Z) : list insn :=
  [Ipush 7; Ipush 8; Ipush 9; Ipush 10; Ipush 11; Ipush 12; Imov RAX (HW a)] ++
  param_insns RCX (param_at ps 2) ++ param_insns RDX (param_at ps 1) ++
  param_insns RSI (param_at ps 0) ++
  param_insns (HW 0) (param_at ps 3) ++
  [Icall RAX; Ipop 12; Ipop 11; Ipop 10; Ipop 9; Ipop 8; Ipop 7] ++
  (match r with Some d => [Imov (HW d) RAX] | None => [] end).

Definition opt_hwreg (o : option Z) : Prop :=
  match o with Some r => hwreg r | None => True end.

Lemma param_at_hwreg ps i :
  Forall hwreg (ps ≫= option_list) -> opt_hwreg (param_at ps i).
Proof.
  intros H. unfold param_at. destruct (ps !! i) as [[r|]|] eqn:E; cbn; try done.
  rewrite Forall_forall in H. apply H. apply list_elem_of_bind. exists (Some r).
  split; [by apply list_elem_of_singleton|]. by eapply list_elem_of_lookup_2.
Qed.

Lemma enc_param low p :
  In low [0; 1; 2; 6] -> opt_hwreg p -> encodes (gen_param low p) (param_insns low p).
Proof. intros Hl Hp. destruct p; cbn in *; [by apply enc_move_low | constructor]. Qed.

Lemma enc_push r : In r [7; 8; 9; 10; 11; 12] -> encodes (gen_push_hlp r) [Ipush r].
Proof. intros. apply enc_one. by apply dec_push. Qed.

Lemma enc_pop r : In r [7; 8; 9; 10; 11; 12] -> encodes (gen_pop_hlp r) [Ipop r].
Proof. intros. apply enc_one. by apply dec_pop. Qed.

Lemma enc_call a ps r :
  hwreg a -> Forall hwreg (ps ≫= option_list) -> opt_hwreg r ->
  encodes (gen_call a ps r) (call_insns a ps r).
Proof.
  intros Ha Hps Hr. unfold gen_call, call_insns. cbn [app].
  do 6 (apply (enc_app _ [_]); [apply enc_push; cbn; tauto|]).
  apply (enc_app _ [_]); [by apply enc_move_low; cbn; auto|].
  do 3 (apply enc_app; [apply enc_param; [cbn; tauto | by apply param_at_hwreg]|]).
  apply enc_app.
  { pose proof (param_at_hwreg ps 3 Hps). destruct (param_at ps 3); cbn in *; [|constructor].
    by apply enc_move. }
  apply (enc_app _ [_]); [apply enc_one; apply dec_call_rax|].
  do 6 (apply (enc_app _ [_]); [apply enc_pop; cbn; tauto|]).
  destruct r; [|constructor]. exact (enc_one _ _ (dec_move_from_rax _ Hr)).
Qed.

Lemma sets_dst k0 k1 d v m :
  sets k0 k1 (Some d) (Some v) m -> hwreg d -> rf k1 (HW d) = v.
Proof. intros [_ _ _ H] Hd. rewrite (H d Hd). by rewrite decide_True. Qed.

Lemma sets_regs_ok k0 k1 d v m :
  sets k0 k1 d v m -> regs_ok k0 -> (forall x, v = Some x -> 0 <= x < 2 ^ 64) -> regs_ok k1.
Proof.
  intros [_ _ _ H] Hk Hv x Hx. rewrite (H x Hx). pose proof (Hk x Hx).
  destruct d, v; try done. case_decide; [|done]. by apply Hv.
Qed.

(** ** Effect of straight-line instructions *)

Section effects.
Context (callee : Z -> (Z -> Z) -> mem -> (Z -> Z) * bool * mem).
Abbreviation exec := (exec_seq callee).

Lemma exec_app l1 l2 k : exec (l1 ++ l2) k = k' ← exec l1 k; exec l2 k'.
Proof.
  revert k. induction l1 as [|i l1 IH]; intros k; cbn; [done|].
  destruct (exec_data callee i k); cbn; [apply IH|done].
Qed.

Lemma sets_refl k : sets k k None None (mm k).
Proof. by constructor. Qed.

Lemma exec_mov_const d v k :
  hwreg d -> regs_ok k ->
  exists k', exec [if v =? 0 then Ialu XORop false (HW d) (HW d)
                   else Imov_imm (HW d) (wrap 64 v)] k = Some k' /\
             sets k k' (Some d) (Some (wrap 64 v)) (mm k).
Proof.
  intros Hd Hk. destruct (Z.eqb_spec v 0) as [->|Hv]; eexists; (split; [reflexivity|]);
    solve_sets. rewrite Z.lxor_nilpotent. done.
Qed.

Lemma exec_mask d w k :
  hwreg d -> regs_ok k ->
  exists k', exec (mask_insns d (binop_mask w)) k = Some k' /\
             sets k k' (Some d) (Some (wrap (bits w) (rf k (HW d)))) (mm k).
Proof.
  intros Hd Hk. unfold mask_insns. destruct (Z.eqb_spec (binop_mask w) 0) as [E|E].
  - exists k. split; [done|]. assert (w = IR_REG_64) as -> by (by destruct w).
    constructor; try done. intros x Hx. case_decide; [|done]. subst.
    symmetry. apply wrap_small. by apply Hk.
  - eexists. split; [reflexivity|]. solve_sets.
    rewrite <- (mask_wrap _ _ E). cbn [alu_sem].
    assert (0 <= binop_mask w < 2 ^ 64) as Hm by (by destruct w).
    rewrite (wrap64_small (binop_mask w)) by done.
    apply wrap64_small. apply land_range; [lia| |done]. by apply Hk.
Qed.

(** Writes to [d] add up. *)
Lemma sets_trans k0 k1 k2 d v1 v2 m1 m2 :
  sets k0 k1 (Some d) (Some v1) m1 -> sets k1 k2 (Some d) (Some v2) m2 ->
  sets k0 k2 (Some d) (Some v2) m2.
Proof.
  intros [_ Hs1 Hd1 Hr1] [Hm2 Hs2 Hd2 Hr2]. constructor; [done|congruence|congruence|].
  intros x Hx. rewrite (Hr2 x Hx). case_decide as E; [done|]. rewrite (Hr1 x Hx).
  by rewrite decide_False.
Qed.

Lemma exec_alu o d p q k :
  hwreg d -> hwreg p -> hwreg q -> d <> q ->
  exists k', exec [Imov (HW d) (HW p); Ialu o true (HW q) (HW d)] k = Some k' /\
    sets k k' (Some d) (Some (wrap 64 (alu_sem o (rf k (HW p)) (rf k (HW q))))) (mm k).
Proof. intros. eexists. split; [reflexivity|]. solve_sets. Qed.

Lemma exec_shift o w d p q k :
  hwreg d -> hwreg p -> hwreg q ->
  exists k', exec [Imov RCX (HW q); Imov (HW d) (HW p); Ishift o w (HW d) None] k = Some k' /\
    sets k k' (Some d)
      (Some (merge w (rf k (HW p)) (shift_sem o w (wrap (bits w) (rf k (HW p)))
               (shift_count w (rf k (HW q)))))) (mm k).
Proof.
  intros. eexists. split; [reflexivity|].
  assert (Hz : forall (o : shiftop) (b : bool) k1 k2, sets k k1 (Some d) k2 (mm k) ->
    forall z, sets k (match o with RORop => k1 | _ => if b then k1 else set_zf z k1 end)
                (Some d) k2 (mm k)).
  { intros [] [] k1 k2 [? ? ? ?] z; by constructor. }
  apply Hz. solve_sets.
Qed.

Lemma exec_binop64 w o d p q k :
  is_cmp o = false -> hwreg d -> hwreg p -> hwreg q -> d <> q -> regs_ok k ->
  exists k', exec (binop_insns w o d p q) k = Some k' /\
             sets k k' (Some d) (Some (xbinop64 w o (rf k (HW p)) (rf k (HW q)))) (mm k).
Proof.
  intros Ho Hd Hp Hq Hdq Hk.
  assert (Hs : forall o w v, v = merge w (rf k (HW p)) (shift_sem o w (wrap (bits w) (rf k (HW p)))
                               (shift_count w (rf k (HW q)))) ->
    exists k', exec [Imov RCX (HW q); Imov (HW d) (HW p); Ishift o w (HW d) None] k = Some k' /\
               sets k k' (Some d) (Some v) (mm k)) by (intros; subst; by apply exec_shift).
  assert (Ha : forall o v, v = wrap 64 (alu_sem o (rf k (HW p)) (rf k (HW q))) ->
    exists k', exec [Imov (HW d) (HW p); Ialu o true (HW q) (HW d)] k = Some k' /\
               sets k k' (Some d) (Some v) (mm k)) by (intros; subst; by apply exec_alu).
  pose proof (Hk p Hp) as Rp. pose proof (Hk q Hq) as Rq.
  destruct o; try discriminate Ho; cbn [binop_insns xbinop64];
    try (apply Ha; cbn [alu_sem];
         first [done | symmetry; apply wrap64_small;
                       (apply land_range || apply lor_range || apply lxor_range); lia]);
    apply Hs; first [done | by change (bits IR_REG_64) with 64; rewrite (wrap64_small _ Rp)].
Qed.

Lemma exec_binop w o d p q k :
  is_cmp o = false -> hwreg d -> hwreg p -> hwreg q -> d <> q -> regs_ok k ->
  exists k', exec (binop_insns w o d p q ++ mask_insns d (binop_mask w)) k = Some k' /\
             sets k k' (Some d) (Some (xbinop w o (rf k (HW p)) (rf k (HW q)))) (mm k).
Proof.
  intros Ho Hd Hp Hq Hdq Hk.
  destruct (exec_binop64 w o d p q k) as (k1 & E1 & S1); try done.
  assert (Hk1 : regs_ok k1).
  { apply (sets_regs_ok _ _ _ _ _ S1 Hk). intros x [= <-].
    apply xbinop64_range; by apply Hk. }
  destruct (exec_mask d w k1) as (k2 & E2 & S2); try done.
  exists k2. rewrite exec_app, E1. split; [done|].
  rewrite (sets_dst _ _ _ _ _ S1 Hd), (sets_mem _ _ _ _ _ S1) in S2. exact (sets_trans _ _ _ _ _ _ _ _ S1 S2).
Qed.

Lemma exec_ite d p t f k :
  hwreg d -> hwreg p -> hwreg t -> hwreg f -> d <> p -> d <> t -> regs_ok k ->
  exists k', exec [Imov (HW d) (HW f); Icmp_imm (HW p) 0; Icmovne (HW d) (HW t)] k = Some k' /\
    sets k k' (Some d)
      (Some (if rf k (HW p) =? 0 then rf k (HW f) else rf k (HW t))) (mm k).
Proof.
  intros Hd Hp Ht Hf Hdp Hdt Hk. eexists. split; [reflexivity|].
  pose proof (Hk p Hp) as Rp. cbn [zf set_zf set_reg rf].
  unfold upd at 1. rewrite decide_False by (unfold HW; lia).
  rewrite Z.sub_0_r, (wrap64_small _ Rp).
  destruct (rf k (HW p) =? 0); solve_sets.
Qed.

Lemma exec_ucast d o mask n k :
  mask = Z.ones n -> 0 < n <= 64 -> hwreg d -> hwreg o -> d <> o -> regs_ok k ->
  exists k', exec (ucast_insns d o mask) k = Some k' /\
             sets k k' (Some d) (Some (wrap n (rf k (HW o)))) (mm k).
Proof.
  intros -> Hn Hd Ho Hdo Hk. eexists. split; [reflexivity|]. solve_sets.
  pose proof (Hk o Ho) as Ro. cbn [alu_sem].
  assert (0 <= Z.ones n < 2 ^ 64) as Hm.
  { rewrite Z.ones_equiv. assert (2 ^ n <= 2 ^ 64) by (apply Z.pow_le_mono_r; lia). lia. }
  rewrite (wrap64_small _ Hm), Z.land_comm, wrap_land_ones by lia.
  apply wrap64_small. pose proof (wrap_range n (rf k (HW o))).
  assert (2 ^ n <= 2 ^ 64) by (apply Z.pow_le_mono_r; lia). lia.
Qed.

Lemma exec_shift_imm o d n k :
  0 < n < 64 -> hwreg d -> regs_ok k ->
  exists k', exec [Ishift o IR_REG_64 (HW d) (Some n)] k = Some k' /\
    sets k k' (Some d) (Some (shift_sem o IR_REG_64 (rf k (HW d)) n)) (mm k).
Proof.
  intros Hn Hd Hk.
  assert (Hc : shift_count IR_REG_64 n = n).
  { unfold shift_count. rewrite decide_True by done. change 63 with (Z.ones 6).
    rewrite Z.land_ones by lia. apply Z.mod_small. lia. }
  unfold exec_seq, exec_data. rewrite Hc. change (bits IR_REG_64) with 64.
  rewrite (wrap64_small _ (Hk d Hd)). destruct (Z.eqb_spec n 0) as [|_]; [lia|].
  eexists. split; [reflexivity|]. destruct o; solve_sets.
Qed.

Lemma exec_scast d o n k :
  0 < n < 64 -> hwreg d -> hwreg o -> regs_ok k ->
  exists k', exec (scast_insns d o n) k = Some k' /\
             sets k k' (Some d)
               (Some (shift_sem SARop IR_REG_64 (shift_sem SHLop IR_REG_64 (rf k (HW o)) n) n))
               (mm k).
Proof.
  intros Hn Hd Ho Hk. pose proof (Hk o Ho) as Ro.
  assert (Hm : exists k0, exec [Imov (HW d) (HW o)] k = Some k0 /\
                          sets k k0 (Some d) (Some (rf k (HW o))) (mm k)).
  { eexists. split; [reflexivity|]. solve_sets. }
  destruct Hm as (k0 & E0 & S0).
  assert (K0 : regs_ok k0) by (apply (sets_regs_ok _ _ _ _ _ S0 Hk); by intros x [= <-]).
  destruct (exec_shift_imm SHLop d n k0 Hn Hd K0) as (k1 & E1 & S1).
  rewrite (sets_dst _ _ _ _ _ S0 Hd) in S1.
  assert (K1 : regs_ok k1).
  { apply (sets_regs_ok _ _ _ _ _ S1 K0). intros x [= <-].
    apply (shift_sem_range SHLop IR_REG_64); [lia|done]. }
  destruct (exec_shift_imm SARop d n k1 Hn Hd K1) as (k2 & E2 & S2).
  rewrite (sets_dst _ _ _ _ _ S1 Hd) in S2.
  exists k2. unfold scast_insns. split.
  - change [?a; ?b; ?c] with ([a] ++ [b] ++ [c]). rewrite exec_app, E0. cbn [mbind option_bind].
    by rewrite exec_app, E1.
  - rewrite (sets_mem _ _ _ _ _ S1), (sets_mem _ _ _ _ _ S0) in S2.
    exact (sets_trans _ _ _ _ _ _ _ _ S0 (sets_trans _ _ _ _ _ _ _ _ S1 S2)).
Qed.

Lemma exec_cast t d o k :
  hwreg d -> hwreg o -> d <> o -> regs_ok k ->
  exists k', exec (cast_insns t d o) k = Some k' /\
             sets k k' (Some d) (Some (xcast t (rf k (HW o)))) (mm k).
Proof.
  intros Hd Ho Hdo Hk. unfold cast_insns, xcast. destruct (cast_signed t) eqn:E.
  - apply exec_scast; try done. by destruct t.
  - apply exec_ucast; try done. by destruct t.
Qed.

(** *** Calls *)

(** Where the calling convention puts the parameters. *)
Definition arg_reg (i : nat) : Z :=
  match i with 0%nat => RSI | 1%nat => RDX | 2%nat => RCX | _ => HW 0 end.

(** [xcall] is what the callees do: called with these parameters, the code
    at an address leaves this memory and returns this value in rax. *)
Definition call_law (xcall : Z -> Z -> list (option Z) -> mem -> option (mem * Z)) : Prop :=
  forall f a ps m m' v,
    (length ps <= 4)%nat ->
    (forall i x, ps !! i = Some (Some x) -> f (arg_reg i) = x) ->
    xcall a (f RDI) ps m = Some (m', v) ->
    exists f' z, callee a f m = (f', z, m') /\ wrap 64 (f' RAX) = wrap 64 v.

Lemma callee_saved_high x : 12 <= x <= 15 -> callee_saved x = true.
Proof.
  intros H. unfold callee_saved. rewrite !orb_true_iff, andb_true_iff, !Z.leb_le. lia.
Qed.

Definition set_param (low : Z) (p : option Z) (k : cpu) : cpu :=
  match p with Some r => set_reg low (rf k (HW r)) k | None => k end.

Lemma exec_param low p k : exec (param_insns low p) k = Some (set_param low p k).
Proof. by destruct p. Qed.

(** The registers when the callee starts. *)
Definition call_state (a : Z) (ps : list (option Z)) (k : cpu) : cpu :=
  set_param (HW 0) (param_at ps 3)
    (set_param RSI (param_at ps 0)
      (set_param RDX (param_at ps 1)
        (set_param RCX (param_at ps 2)
          (set_reg RAX (rf k (HW a))
            (set_stk ([rf k 12; rf k 11; rf k 10; rf k 9; rf k 8; rf k 7] ++ stk k) k))))).

Lemma rf_set_param low p k x : x <> low -> rf (set_param low p k) x = rf k x.
Proof. intros H. destruct p; [|done]. cbn. unfold upd. by rewrite decide_False. Qed.

Lemma rf_set_param_eq low r k : rf (set_param low (Some r) k) low = rf k (HW r).
Proof. cbn. unfold upd. by rewrite decide_True. Qed.

Lemma mm_set_param low p k : mm (set_param low p k) = mm k.
Proof. by destruct p. Qed.

Lemma stk_set_param low p k : stk (set_param low p k) = stk k.
Proof. by destruct p. Qed.

Ltac rf_params :=
  repeat first [ rewrite rf_set_param by (unfold HW, RDI, RAX, RCX, RDX, RSI, hwreg in *; lia)
               | rewrite rf_set_param_eq ].

Lemma call_state_args a ps k i r :
  Forall hwreg (ps ≫= option_list) -> (i < 4)%nat -> ps !! i = Some (Some r) ->
  rf (call_state a ps k) (arg_reg i) = rf k (HW r).
Proof.
  intros Hps Hi Hr. assert (Hp : param_at ps i = Some r) by (unfold param_at; by rewrite Hr).
  pose proof (param_at_hwreg ps i Hps) as Hh. rewrite Hp in Hh. cbn in Hh.
  unfold call_state.
  destruct i as [|[|[|[|]]]]; try lia; cbn [arg_reg]; rewrite Hp; rf_params;
    cbn [set_reg set_stk rf]; unfold upd; rewrite ?decide_False; try done;
    unfold HW, RDI, RAX, RCX, RDX, RSI, hwreg in *; lia.
Qed.

Lemma exec_call_insns xcall a ps r k m' v :
  call_law xcall -> hwreg a -> Forall hwreg (ps ≫= option_list) -> opt_hwreg r ->
  (length ps <= 4)%nat ->
  xcall (rf k (HW a)) (rf k RDI) (map (option_map (fun d => rf k (HW d))) ps) (mm k) = Some (m', v) ->
  exists k', exec (call_insns a ps r) k = Some k' /\
    sets k k' r (option_map (fun _ => wrap 64 v) r) m'.
Proof.
  intros Hlaw Ha Hps Hr Hlen Hxc. set (k1 := call_state a ps k).
  assert (Hdi : rf k1 RDI = rf k RDI).
  { unfold k1, call_state. rf_params. done. }
  assert (Hax : rf k1 RAX = rf k (HW a)).
  { unfold k1, call_state. rf_params. done. }
  set (vs := map (option_map (fun d => rf k (HW d))) ps) in *.
  destruct (Hlaw (rf k1) (rf k1 RAX) vs (mm k) m' v) as (f' & z & Hcall & Hv).
  { unfold vs. by rewrite length_map. }
  { intros i x Hi. unfold vs in Hi. change (map ?g ps) with (g <$> ps) in Hi.
    rewrite list_lookup_fmap in Hi. destruct (ps !! i) as [[d|]|] eqn:E; try discriminate.
    injection Hi as <-. apply call_state_args; try done.
    apply lookup_lt_Some in E. lia. }
  { by rewrite Hdi, Hax. }
  rewrite Hax in Hcall.
  assert (Hm : mm k1 = mm k) by (unfold k1, call_state; by rewrite !mm_set_param).
  assert (Hs : stk k1 = [rf k 12; rf k 11; rf k 10; rf k 9; rf k 8; rf k 7] ++ stk k)
    by (unfold k1, call_state; by rewrite !stk_set_param).
  unfold call_insns. rewrite exec_app. cbn [exec_seq exec_data mbind option_bind].
  do 4 (rewrite exec_app, exec_param; cbn [mbind option_bind]).
  match goal with |- exists k', exec _ ?k2 = _ /\ _ => change k2 with k1 end.
  rewrite exec_app. cbn [exec_seq exec_data]. unfold exec_call at 1.
  rewrite Hm, Hax, Hcall. cbn [mbind option_bind set_stk set_reg stk rf mm]. rewrite Hs.
  cbn [mbind option_bind set_stk set_reg stk rf mm app].
  assert (Hsaved : forall x, 13 <= x <= 15 -> rf k1 x = rf k x).
  { intros x Hx. unfold k1, call_state. rf_params. cbn [set_reg set_stk rf]. unfold upd.
    rewrite decide_False; [done|]. unfold RAX. lia. }
  assert (Hregs : forall x, hwreg x -> 5 <= x -> rf k1 (HW x) = rf k (HW x)).
  { intros x Hx Hx5. apply Hsaved. unfold HW, hwreg in *. lia. }
  destruct r as [d|]; (eexists; split; [reflexivity|]); cbn [option_map fst snd];
    cbn [opt_hwreg] in Hr; rewrite <- ?Hv;
    (constructor; cbn [rf set_stk set_reg]; [done|done| |]).
  - unfold upd. rewrite decide_False by (unfold HW, hwreg, RDI in *; lia). done.
  - intros x Hx. pose proof (Hregs x Hx) as Hx5. unfold upd.
    destruct (decide (x = d)) as [->|Hne].
    + by rewrite decide_True.
    + rewrite decide_False by (unfold HW; lia).
      repeat (case_decide; [congruence|]). rewrite <- Hx5 by (unfold HW, hwreg in *; lia).
      by rewrite callee_saved_high by (unfold HW, hwreg in *; lia).
  - done.
  - intros x Hx. pose proof (Hregs x Hx) as Hx5. unfold upd.
    repeat (case_decide; [congruence|]). rewrite <- Hx5 by (unfold HW, hwreg in *; lia).
    by rewrite callee_saved_high by (unfold HW, hwreg in *; lia).
Qed.
End effects.

(** ** Code with jumps *)

Section jumps.
Context (callee : Z -> (Z -> Z) -> mem -> (Z -> Z) * bool * mem).
Context (c : list Z) (base : Z).
Abbreviation steps := (msteps callee c base).
Abbreviation step := (mnext callee c base).

Lemma steps_one x y : step x y -> steps x y.
Proof. apply rtc_once. Qed.

Lemma emit_bytes_app l1 l2 : emit_bytes (l1 ++ l2) = emit_bytes l1 ++ emit_bytes l2.
Proof. unfold emit_bytes. apply map_app. Qed.

Lemma cmp_steps isEq d p q pos k :
  hwreg d -> hwreg p -> hwreg q -> d <> p -> d <> q -> regs_ok k ->
  code_at c pos (gen_cmp isEq d p q) ->
  exists k', steps (pos, k) (pos + Z.of_nat (length (gen_cmp isEq d p q)), k') /\
    sets k k' (Some d)
      (Some (if eqb (rf k (HW p) =? rf k (HW q)) isEq then 2 ^ 64 - 1 else 0)) (mm k).
Proof.
  intros Hd Hp Hq Hdp Hdq Hk Hc. pose proof (Hk p Hp) as Rp. pose proof (Hk q Hq) as Rq.
  unfold gen_cmp in *.
  match type of Hc with code_at _ _ (_ ++ emit_bytes [?a; ?b; ?e; ?f; ?g] ++ _) =>
    change (emit_bytes [a; b; e; f; g]) with (emit_bytes [a; b; e] ++ emit_bytes [f; g]) in * end.
  rewrite !code_at_app in Hc. destruct Hc as [Hc1 [[Hc2 Hc3] Hc4]].
  destruct (exec_mov_const callee d (2 ^ 64 - 1) k Hd Hk) as (k1 & E1 & S1).
  pose proof (encodes_steps callee c base _ _ pos k k1 (enc_mov_const d _ Hd) Hc1 E1) as T1.
  set (p1 := pos + _) in *.
  assert (Hv : forall x, hwreg x -> x <> d -> rf k1 (HW x) = rf k (HW x)).
  { intros x Hx Hxd. rewrite (sets_reg _ _ _ _ _ S1 x Hx). by rewrite decide_False. }
  set (z := rf k (HW p) =? rf k (HW q)).
  assert (T2 : step (p1, k1) (p1 + 3, set_zf z k1)).
  { unfold mnext. cbn [fst snd].
    rewrite (step_data callee c base p1 _ _ k1 (set_zf z k1) Hc2 (dec_cmp q p Hq Hp)); [done|].
    cbn [exec_data]. rewrite !Hv by done. rewrite sub_zero_eq by done. unfold z.
    by rewrite Z.eqb_sym. }
  assert (S2 : sets k (set_zf z k1) (Some d) (Some (2 ^ 64 - 1)) (mm k)).
  { destruct S1. by constructor. }
  pose proof (step_jcc callee c base _ _ isEq 3 (set_zf z k1) Hc3
                (dec_jcc isEq 3 ltac:(lia))) as T3.
  destruct (exec_mov_const callee d 0 (set_zf z k1) Hd) as (k4 & E4 & S4).
  { apply (sets_regs_ok _ _ _ _ _ S2 Hk). intros x [= <-]. lia. }
  pose proof (encodes_steps callee c base _ _ _ _ k4 (enc_mov_const d 0 Hd) Hc4 E4) as T4.
  rewrite !length_app. rewrite !length_app in T4.
  set (k2 := set_zf z k1) in *. set (n1 := length (gen_mov_const_hlp d (2 ^ 64 - 1))) in *.
  assert (T3' : step (p1 + 3, k2) (if eqb z isEq then p1 + 3 + 2 + 3 else p1 + 3 + 2, k2))
    by exact T3.
  assert (T4' : steps (p1 + 5, k2) (p1 + 5 + 3, k4)) by exact T4.
  change (exists k', steps (pos, k) (pos + Z.of_nat (n1 + 8), k') /\
    sets k k' (Some d) (Some (if eqb z isEq then 2 ^ 64 - 1 else 0)) (mm k)).
  replace (pos + Z.of_nat (n1 + 8)) with (p1 + 8) by (unfold p1; lia).
  assert (T12 : steps (pos, k) (p1 + 3, k2)) by (eapply rtc_r; eassumption).
  assert (T13 : steps (pos, k) (if eqb z isEq then p1 + 3 + 2 + 3 else p1 + 3 + 2, k2))
    by (eapply rtc_r; eassumption).
  destruct (eqb z isEq).
  - exists k2. split; [|done]. by replace (p1 + 8) with (p1 + 3 + 2 + 3) by lia.
  - exists k4. split.
    + replace (p1 + 8) with (p1 + 5 + 3) by lia. etrans; [exact T13|].
      by replace (p1 + 3 + 2) with (p1 + 5) by lia.
    + assert (S4' : sets k2 k4 (Some d) (Some 0) (mm k)).
      { rewrite <- (sets_mem _ _ _ _ _ S2). exact S4. }
      exact (sets_trans _ _ _ _ _ _ _ _ S2 S4').
Qed.
(** Where an exit ends: the offset of its [ret] from its start. *)
Definition exit_ret_offset (p : option Z) (b : bool) : Z :=
  (match p with Some _ => 9 | None => 0 end) + (if b then 10 else 6).

(** The state [k1] at the end, at offset [q], of an exit with the value [v].
    Not linked, it returns, and rdx tells the dispatcher where to patch;
    linked, it jumps. *)
Record exits (link : option Z) (k1 : cpu) (q v : Z) (patchable : bool) (m : mem)
    (st : list Z) (di : Z) : Prop := mkExits {
  ex_out : match link with
           | None => mstep callee c base q k1 = MRet k1
           | Some t => exists q', steps (q, k1) (q', set_reg RAX (wrap 64 t) k1) /\
               mstep callee c base q' (set_reg RAX (wrap 64 t) k1) =
                 MJump (wrap 64 t) (set_reg RAX (wrap 64 t) k1)
           end;
  ex_rax : rf k1 RAX = v;
  ex_rdx : rf k1 RDX = if patchable then wrap 64 (base + q) else 0;
  ex_mem : mm k1 = m;
  ex_stk : stk k1 = st;
  ex_rdi : rf k1 RDI = di;
  ex_regs : regs_ok k1;
  ex_range : 0 <= v < 2 ^ 64
}.

Lemma link_area_steps link q k :
  0 <= q -> code_at c q (gen_link_area link) ->
  match link with
  | None => mstep callee c base q k = MRet k
  | Some t => exists q', steps (q, k) (q', set_reg RAX (wrap 64 t) k) /\
      mstep callee c base q' (set_reg RAX (wrap 64 t) k) =
        MJump (wrap 64 t) (set_reg RAX (wrap 64 t) k)
  end.
Proof.
  intros Hq Hc. destruct link as [t|].
  - change (gen_link_area (Some t)) with
      (emit_bytes [0x90] ++ emit_bytes ([0x48; 0xb8] ++ imm64 t) ++ emit_bytes [0xff; 0xe0]) in Hc.
    apply code_at_app in Hc as [H1 H2]. apply code_at_app in H2 as [H2 H3].
    change (q + Z.of_nat (length (emit_bytes [144]))) with (q + 1) in *.
    change (Z.of_nat (length (emit_bytes ([0x48; 0xb8] ++ imm64 t)))) with 10 in H3.
    set (k' := set_reg RAX (wrap 64 t) k).
    assert (Hj : rf k' RAX = wrap 64 t) by done.
    exists (q + 1 + 10). split.
    + apply (rtc_l _ _ (q + 1, k)); [|apply rtc_once].
      * exact (step_data callee c base _ _ _ k k H1 dec_nop eq_refl).
      * exact (step_data callee c base _ _ _ k k' H2 (dec_mov_rax_imm t) eq_refl).
    + rewrite <- Hj. exact (step_jmp callee c base _ _ _ k' H3 dec_jmp_rax).
  - change (gen_link_area None) with (emit_bytes [0xc3] ++ (emit_bytes [0x48; 0xb8] ++ skip 8) ++
      emit_bytes [0xff; 0xe0]) in Hc.
    apply code_at_app in Hc as [H1 _]. exact (step_ret _ _ _ _ _ k H1 dec_ret).
Qed.

Lemma exit_body_steps link v b pos k :
  hwreg v -> regs_ok k -> (b = false -> link = None) -> code_at c pos (gen_exit_as link v None b) ->
  exists k', steps (pos, k) (pos + exit_ret_offset None b, k') /\
    exits link k' (pos + exit_ret_offset None b) (rf k (HW v)) b (mm k) (stk k) (rf k RDI).
Proof.
  intros Hv Hk Hb Hc. unfold gen_exit_as in Hc.
  apply code_at_app in Hc as [Hc1 Hc].
  set (k1 := set_reg 0 (rf k (HW v)) k).
  assert (T1 : steps (pos, k) (pos + 3, k1)).
  { apply (encodes_steps callee c base _ _ pos k k1 (enc_move_low 0 v ltac:(cbn; auto) Hv) Hc1).
    done. }
  change (pos + Z.of_nat (length (gen_move_reg_low 0 v))) with (pos + 3) in *.
  assert (Hr : forall k2, (forall x, hwreg x -> rf k2 (HW x) = rf k (HW x)) -> regs_ok k2).
  { intros k2 H x Hx. rewrite (H x Hx). by apply Hk. }
  destruct b.
  - apply code_at_app in Hc as [Hc2 Hc]. apply code_at_app in Hc as [Hc3 Hc4].
    change (exit_ret_offset None true) with 10. replace (pos + 10) with (pos + 3 + 7) by lia.
    set (k2 := set_reg RDX (wrap 64 (base + (pos + 3 + 7))) k1).
    assert (T2 : step (pos + 3, k1) (pos + 3 + 7, k2)).
    { unfold mnext. cbn [fst snd]. rewrite (step_lea _ _ _ _ _ _ _ k1 Hc2 dec_lea_rdx).
      change (Z.of_nat (length _)) with 7. by rewrite Z.add_0_r. }
    exists k2. split; [eapply rtc_r; eassumption|].
    constructor; try done.
    + apply link_area_steps; [|exact Hc3]. destruct Hc3 as [? _]. exact H.
    + apply Hr. intros x Hx. unfold k2, k1. upd_simpl; done.
    + by apply Hk.
  - apply code_at_app in Hc as [Hc2 Hc]. rewrite (Hb eq_refl). change (exit_ret_offset None false) with 6.
    replace (pos + 6) with (pos + 3 + 3) by lia.
    set (k2 := set_zf (0 =? 0) (set_reg RDX 0 k1)).
    assert (T2 : step (pos + 3, k1) (pos + 3 + 3, k2)).
    { unfold mnext. cbn [fst snd].
      rewrite (step_data _ _ _ _ _ _ k1 k2 Hc2 dec_xor_edx); [done|].
      cbn [exec_data alu_sem]. by rewrite Z.lxor_nilpotent. }
    exists k2. split; [eapply rtc_r; eassumption|].
    constructor; try done.
    + exact (step_ret _ _ _ _ _ k2 Hc dec_ret).
    + apply Hr. intros x Hx. unfold k2, k1. upd_simpl; done.
    + by apply Hk.
Qed.

Lemma exit_cond_steps link v p b pos k :
  hwreg v -> hwreg p -> regs_ok k -> (b = false -> link = None) ->
  code_at c pos (gen_exit_as link v (Some p) b) ->
  if rf k (HW p) =? 0
  then exists k', steps (pos, k) (pos + Z.of_nat (length (gen_exit_as link v (Some p) b)), k') /\
                  sets k k' None None (mm k)
  else exists k', steps (pos, k) (pos + exit_ret_offset (Some p) b, k') /\
    exits link k' (pos + exit_ret_offset (Some p) b) (rf k (HW v)) b (mm k) (stk k) (rf k RDI).
Proof.
  intros Hv Hp Hk Hb Hc. pose proof (Hk p Hp) as Rp.
  change (gen_exit_as link v (Some p) b) with
    (gen_cmp_zero p ++ emit_bytes [0x74; Z.of_nat (length (gen_exit_as link v None b))] ++
     gen_exit_as link v None b) in *.
  apply code_at_app in Hc as [Hc1 Hc]. apply code_at_app in Hc as [Hc2 Hc3].
  set (z := rf k (HW p) =? 0). set (k1 := set_zf z k).
  assert (T1 : steps (pos, k) (pos + 7, k1)).
  { apply (encodes_steps callee c base _ _ pos k k1 (enc_cmp_zero p Hp) Hc1).
    cbn. by rewrite Z.sub_0_r, (wrap64_small _ Rp). }
  change (pos + Z.of_nat (length (gen_cmp_zero p))) with (pos + 7) in *.
  rewrite !length_app. set (n := length (gen_exit_as link v None b)) in *.
  assert (Hn : Z.of_nat n <= 30) by (by destruct b, link).
  assert (T2 : step (pos + 7, k1) (if z then pos + 7 + 2 + Z.of_nat n else pos + 7 + 2, k1)).
  { unfold mnext. cbn [fst snd].
    rewrite (step_jcc callee c base _ _ true (Z.of_nat n) k1 Hc2 (dec_jcc true (Z.of_nat n) ltac:(lia))).
    change (Z.of_nat (length _)) with 2. cbn [zf k1 set_zf]. by destruct z. }
  assert (T12 : steps (pos, k) (if z then pos + 7 + 2 + Z.of_nat n else pos + 7 + 2, k1))
    by (eapply rtc_r; eassumption).
  destruct z.
  - exists k1. split; [|by constructor].
    change (length (gen_cmp_zero p)) with 7%nat. change (length (emit_bytes _)) with 2%nat.
    by replace (pos + Z.of_nat (7 + (2 + n))) with (pos + 7 + 2 + Z.of_nat n) by lia.
  - replace (pos + exit_ret_offset (Some p) b) with (pos + 7 + 2 + exit_ret_offset None b)
      by (unfold exit_ret_offset; lia).
    destruct (exit_body_steps link v b _ k1 Hv Hk Hb Hc3) as (k' & T3 & E).
    exists k'. split; [etrans; eassumption|done].
Qed.
End jumps.

(** ** One instruction *)

(** What the register allocator guarantees: registers exist, the destination
    differs from the operands, and at most four parameters are passed. *)
Record insn_ok (i : x86Instruction Z) : Prop := mkInsnOk {
  io_uses : Forall hwreg (x86_uses i);
  io_def : forall d, x86_def i = Some d -> hwreg d /\ d ∉ x86_uses i;
  io_params : match i with X86_CALL _ ps _ => (length ps <= 4)%nat | _ => True end
}.

Section instruction.
Context (callee : Z -> (Z -> Z) -> mem -> (Z -> Z) * bool * mem).
Context (xcall : Z -> Z -> list (option Z) -> mem -> option (mem * Z)).
Hypothesis Hcall : call_law callee xcall.
Context (c : list Z) (base : Z).
Abbreviation steps := (msteps callee c base).

(** The value the destination holds before. *)
Definition old_dst (i : x86Instruction Z) (k : cpu) : Z :=
  match x86_def i with Some d => rf k (HW d) | None => 0 end.

(** Offset of the end of an exit inside its code. *)
Definition exit_end (i : x86Instruction Z) : Z :=
  match i with X86_EXIT _ p b => exit_ret_offset p b | _ => 0 end.

(** What the code of [i], of length [n], does from offset [p]. *)
Definition insn_effect (link : option Z) (i : x86Instruction Z) (p n : Z) (k : cpu) : Prop :=
  match xeval xcall (rf k RDI) (old_dst i k) (fun d => rf k (HW d)) (mm k) i with
  | XNext v m => exists k', steps (p, k) (p + n, k') /\ sets k k' (x86_def i) v m
  | XExit v b m =>
      exists k', steps (p, k) (p + exit_end i, k') /\
        exits callee c base link k' (p + exit_end i) v b m (stk k) (rf k RDI)
  | XStuck => True
  end.

Lemma straight_effect (kc : code) il p k k' :
  encodes kc il -> code_at c p kc -> exec_seq callee il k = Some k' ->
  steps (p, k) (p + Z.of_nat (length kc), k').
Proof. intros. by eapply encodes_steps. Qed.

Lemma binop_effect link w o d a b p k kc :
  gen_insn (X86_BINOP w o d a b) = Some kc -> code_at c p kc ->
  insn_ok (X86_BINOP w o d a b) -> regs_ok k ->
  insn_effect link (X86_BINOP w o d a b) p (Z.of_nat (length kc)) k.
Proof.
  intros [= <-] Hc [Hu Hd _] Hk. cbn in Hu, Hd. destruct (Hd d eq_refl) as [Hhd Hni].
  rewrite !not_elem_of_cons in Hni. destruct Hni as (Ha & Hb & _).
  inversion Hu as [|? ? Hra Hu']; subst. inversion Hu' as [|? ? Hrb _]; subst.
  unfold insn_effect; cbn [xeval x86_def]. destruct (is_cmp o) eqn:Ho.
  - assert (Hg : exists e, gen_binop w o d a b (binop_mask w) =
                             gen_cmp e d a b ++ gen_mask d (binop_mask w) /\
      forall x y, xbinop64 w o x y = if eqb (x =? y) e then 2 ^ 64 - 1 else 0).
    { destruct o; try discriminate Ho; [exists true|exists false]; (split; [done|]);
        intros x y; cbn [xbinop64]; by destruct (x =? y). }
    destruct Hg as (e & Hg & Hx). rewrite Hg in *. apply code_at_app in Hc as [Hc1 Hc2].
    destruct (cmp_steps callee c base e d a b p k) as (k1 & T1 & S1); try done.
    rewrite <- (Hx) in S1.
    destruct (exec_mask callee d w k1 Hhd) as (k2 & E2 & S2).
    { apply (sets_regs_ok _ _ _ _ _ S1 Hk). intros x [= <-].
      apply xbinop64_range; by apply Hk. }
    pose proof (straight_effect _ _ _ _ _ (enc_mask d _ Hhd) Hc2 E2) as T2.
    exists k2. rewrite length_app, Nat2Z.inj_add, Z.add_assoc. split; [etrans; eassumption|].
    rewrite (sets_dst _ _ _ _ _ S1 Hhd), (sets_mem _ _ _ _ _ S1) in S2.
    exact (sets_trans _ _ _ _ _ _ _ _ S1 S2).
  - destruct (exec_binop callee w o d a b k) as (k' & E & S); try done.
    exists k'. split; [|exact S].
    exact (straight_effect _ _ _ _ _ (enc_binop w o d a b Ho Hhd Hra Hrb) Hc E).
Qed.

Lemma exit_effect link v o b p k kc :
  gen_insn_as link (X86_EXIT v o b) = Some kc -> code_at c p kc ->
  (b = false -> link = None) -> insn_ok (X86_EXIT v o b) -> regs_ok k ->
  insn_effect link (X86_EXIT v o b) p (Z.of_nat (length kc)) k.
Proof.
  intros [= <-] Hc Hb [Hu _ _] Hk. cbn in Hu. inversion Hu as [|? ? Hv Ho]; subst.
  unfold insn_effect. destruct o as [q|]; cbn [xeval x86_def exit_end].
  - cbn in Ho. inversion Ho as [|? ? Hq _]; subst.
    pose proof (exit_cond_steps callee c base link v q b p k Hv Hq Hk Hb Hc) as H.
    by destruct (rf k (HW q) =? 0).
  - by apply exit_body_steps.
Qed.

(** The code of an instruction does what the instruction means. *)
Lemma gen_insn_effect link i p k kc :
  gen_insn_as link i = Some kc -> code_at c p kc -> insn_link_ok i link -> insn_ok i -> regs_ok k ->
  insn_effect link i p (Z.of_nat (length kc)) k.
Proof.
  destruct i as [d v|w d a|w s a|w o d a b|d a t f|t d o|v o b|a ps r|w d off|w s off|v];
    intros Hg Hc Hlk; try (by apply binop_effect);
    try (revert Hg Hc; intros Hg Hc; apply exit_effect; try done;
         intros ->; by apply Hlk; intros ? ? [=]);
    intros [Hu Hd Hp] Hk; cbn [gen_insn_as] in Hg; unfold insn_effect; cbn [xeval x86_def old_dst] in *;
    cbn [x86_uses] in Hu, Hd; try (destruct (Hd d eq_refl) as [Hhd Hni]).
  - injection Hg as <-. destruct (exec_mov_const callee d v k Hhd Hk) as (k' & E & S).
    exists k'. split; [|exact S].
    exact (straight_effect _ _ _ _ _ (enc_mov_const d v Hhd) Hc E).
  - inversion Hu as [|? ? Ha _]; subst. destruct (enc_load w d a Hhd Ha) as (kc' & Hg' & He).
    rewrite Hg in Hg'. injection Hg' as <-.
    eexists. split; [eapply straight_effect; [exact He|exact Hc|reflexivity]|].
    rewrite Z.add_0_r. solve_sets.
  - inversion Hu as [|? ? Ha Hu']; subst. inversion Hu' as [|? ? Hs _]; subst.
    destruct (enc_store w s a Hs Ha) as (kc' & Hg' & He).
    rewrite Hg in Hg'. injection Hg' as <-.
    eexists. split; [eapply straight_effect; [exact He|exact Hc|reflexivity]|].
    rewrite Z.add_0_r. by constructor.
  - injection Hg as <-. rewrite !not_elem_of_cons in Hni. destruct Hni as (Ha & Ht & _ & _).
    rewrite !Forall_cons in Hu. destruct Hu as (Hra & Hrt & Hrf & _).
    destruct (exec_ite callee d a t f k) as (k' & E & S); try done.
    exists k'. split; [|exact S].
    exact (straight_effect _ _ _ _ _ (enc_ite d a t f Hhd Hra Hrt Hrf) Hc E).
  - injection Hg as <-. rewrite !not_elem_of_cons in Hni. destruct Hni as (Ho & _).
    rewrite !Forall_cons in Hu. destruct Hu as (Hro & _).
    destruct (exec_cast callee t d o k) as (k' & E & S); try done.
    exists k'. split; [|exact S].
    exact (straight_effect _ _ _ _ _ (enc_cast t d o Hhd Hro) Hc E).
  - injection Hg as <-. rewrite Forall_cons in Hu. destruct Hu as [Ha Hps].
    assert (Hr : opt_hwreg r) by (destruct r; [by apply Hd|done]).
    destruct (xcall _ _ _ _) as [[m' v]|] eqn:Ex; [|done].
    destruct (exec_call_insns callee xcall a ps r k m' v) as (k' & E & S); try done.
    exists k'. split; [|exact S].
    exact (straight_effect _ _ _ _ _ (enc_call a ps r Ha Hps Hr) Hc E).
  - destruct (enc_read w d off Hhd) as (kc' & Hg' & He).
    rewrite Hg in Hg'. injection Hg' as <-.
    eexists. split; [eapply straight_effect; [exact He|exact Hc|reflexivity]|]. solve_sets.
  - inversion Hu as [|? ? Hs _]; subst. destruct (enc_write w s off Hs) as (kc' & Hg' & He).
    rewrite Hg in Hg'. injection Hg' as <-.
    eexists. split; [eapply straight_effect; [exact He|exact Hc|reflexivity]|].
    by constructor.
  - discriminate.
Qed.

(** Values stay in range. *)
Lemma xeval_range ctx i k v m :
  xeval xcall ctx (old_dst i k) (fun d => rf k (HW d)) (mm k) i = XNext (Some v) m ->
  insn_ok i -> regs_ok k -> 0 <= v < 2 ^ 64.
Proof.
  intros Hx [Hu Hd _] Hk.
  assert (Hold : forall d, x86_def i = Some d -> 0 <= old_dst i k < 2 ^ 64).
  { intros d E. unfold old_dst. rewrite E. apply Hk. by apply Hd. }
  assert (Hr : forall d, d ∈ x86_uses i -> 0 <= rf k (HW d) < 2 ^ 64).
  { intros d E. apply Hk. rewrite Forall_forall in Hu. by apply Hu. }
  destruct i as [d x|w d a|w s a|w o d a b|d a t f|t d o|x o b|a ps r|w d off|w s off|x];
    cbn [xeval x86_def x86_uses] in *; try discriminate.
  - injection Hx as <- _. by apply wrap_range.
  - injection Hx as <- _. apply merge_range; [by eapply Hold|apply load_mem_range].
  - injection Hx as <- _. apply wrap_bits_range.
  - injection Hx as <- _. destruct (_ =? _); apply Hr; rewrite !elem_of_cons; tauto.
  - injection Hx as <- _. apply xcast_range. apply Hr. rewrite elem_of_cons; tauto.
  - destruct o; [|discriminate]. destruct (_ =? _); discriminate.
  - destruct (xcall _ _ _ _) as [[]|]; [|discriminate].
    destruct r; [|discriminate]. injection Hx as <- _.
    by apply wrap_range.
  - injection Hx as <- _. apply merge_range; [by eapply Hold|apply load_mem_range].
Qed.
End instruction.

(** ** Sequences *)

Section sequence.
Context (callee : Z -> (Z -> Z) -> mem -> (Z -> Z) * bool * mem).
Context (xcall : Z -> Z -> list (option Z) -> mem -> option (mem * Z)).
Hypothesis Hcall : call_law callee xcall.
Context (c : list Z) (base : Z).

Lemma xrun_ext ctx old (ρ ρ' : Z -> Z) m l :
  Forall insn_ok l -> (forall x, hwreg x -> ρ' x = ρ x) ->
  xrun xcall ctx old ρ' m l = xrun xcall ctx old ρ m l.
Proof.
  intros Hl. revert old ρ ρ' m. induction Hl as [|i l Hi _ IH]; intros old ρ ρ' m Hρ; [done|].
  cbn [xrun]. rewrite (xeval_ext xcall ctx _ ρ ρ').
  - destruct (xeval _ _ _ _ _ _) as [v m'| |]; [|done|done]. f_equal. apply IH. intros x Hx.
    destruct (x86_def i), v; cbn; try by apply Hρ. case_decide; [done|by apply Hρ].
  - intros x Hx. apply Hρ. pose proof (io_uses _ Hi) as Hu.
    rewrite Forall_forall in Hu. by apply Hu.
Qed.

(** The generated code runs as the instructions say, for the junk that is
    in the registers when it is entered; exits may have been linked. *)
Lemma generateCode_runs l kc p k :
  generateCode_as l = Some kc -> code_at c p kc -> Forall insn_ok (fst <$> l) ->
  Forall (fun il => insn_link_ok il.1 il.2) l -> regs_ok k ->
  exists old, (forall n, 0 <= old n < 2 ^ 64) /\
    forall n v b m,
      xrun xcall (rf k RDI) old (fun d => rf k (HW d)) (mm k) (fst <$> l) = Some (n, v, b, m) ->
      exists i link kc0 k', l !! n = Some (i, link) /\
        generateCode_as (take n l) = Some kc0 /\
        let q := p + Z.of_nat (length kc0) + exit_end i in
        msteps callee c base (p, k) (q, k') /\
        exits callee c base link k' q v b m (stk k) (rf k RDI).
Proof.
  intros Hg Hc Hl Hlk. revert kc p k Hg Hc Hl.
  induction Hlk as [|[i link] l Hilk Hlk IH]; intros kc p k Hg Hc Hl Hk.
  - exists (fun _ => 0). split; [lia|]. done.
  - cbn [generateCode_as] in Hg. destruct (gen_insn_as link i) as [kc1|] eqn:E1; [|done].
    destruct (generateCode_as l) as [kc2|] eqn:E2; [|done]. injection Hg as <-.
    apply code_at_app in Hc as [Hc1 Hc2]. cbn [fmap list_fmap fst] in Hl.
    apply Forall_cons in Hl as [Hi Hl].
    pose proof (gen_insn_effect callee xcall Hcall c base link i p k kc1 E1 Hc1 Hilk Hi Hk) as He.
    assert (Ho : 0 <= old_dst i k < 2 ^ 64).
    { unfold old_dst. destruct (x86_def i) as [d|] eqn:E; [|lia]. apply Hk.
      by apply (io_def _ Hi). }
    unfold insn_effect in He. cbn [fmap list_fmap fst xrun].
    destruct (xeval xcall (rf k RDI) (old_dst i k) (fun d => rf k (HW d)) (mm k) i)
      as [v m|v b m|] eqn:Ex.
    + destruct He as (k1 & T1 & S1).
      assert (Hk1 : regs_ok k1).
      { apply (sets_regs_ok _ _ _ _ _ S1 Hk). intros x ->. by eapply xeval_range. }
      destruct (IH kc2 _ k1 eq_refl Hc2 Hl Hk1) as (old & Hold & Hrun).
      exists (fun n => match n with O => old_dst i k | S n => old n end).
      split; [by intros []|]. intros n v' b' m' Hx. rewrite Ex in Hx.
      rewrite <- (xrun_ext _ old _ (fun d => rf k1 (HW d))) in Hx; [|done|].
      * rewrite <- (sets_rdi _ _ _ _ _ S1), <- (sets_mem _ _ _ _ _ S1) in Hx.
        destruct (xrun _ _ _ _ _ _) as [[[[n' v1] b1] m1]|] eqn:Er; [|done].
        injection Hx as <- <- <- <-.
        destruct (Hrun n' v1 b1 m1 eq_refl) as (i' & link' & kc0 & k2 & Hn & Hg0 & T2 & Hex).
        exists i', link', (kc1 ++ kc0), k2. split; [done|]. split.
        { cbn [take generateCode_as]. by rewrite E1, Hg0. }
        rewrite (sets_stk _ _ _ _ _ S1), (sets_rdi _ _ _ _ _ S1) in Hex.
        rewrite length_app, Nat2Z.inj_add, Z.add_assoc. split; [etrans; eassumption|done].
      * intros x Hxh. rewrite (sets_reg _ _ _ _ _ S1 x Hxh). by destruct (x86_def i), v.
    + exists (fun n => match n with O => old_dst i k | S n => 0 end).
      split; [by intros []|]. intros n v' b' m' Hx. rewrite Ex in Hx.
      injection Hx as <- <- <- <-. destruct He as (k' & T & Hex).
      exists i, link, [], k'. cbn [lookup list_lookup take generateCode_as length].
      rewrite Z.add_0_r. done.
    + exists (fun _ => 0). split; [lia|]. intros n v b m Hx.
      assert (Hst : forall old0, xeval xcall (rf k RDI) old0 (fun d => rf k (HW d)) (mm k) i = XStuck).
      { intros old0. destruct i as [| | | | | |x [y|] b0|a ps r| | |]; cbn in Ex |- *; try discriminate Ex.
        - by destruct (_ =? _).
        - by destruct (xcall _ _ _ _) as [[]|]. }
      by rewrite Hst in Hx.
Qed.
End sequence.
