(* ===== verification/X86Alloc.v ===== *)
(** * Register allocation is correct (pass 2 of [be_x86_64.c])

    [allocateRegisters] walks the instructions once, taking a free hardware
    register for each destination and giving back the register of an operand
    at its last read.  The theorems: two values that are alive together never
    share a hardware register, and so the instructions over hardware registers
    compute what the instructions over the back end's registers compute. *)

From S2P Require Import Prelude Ir Jitter BeX86 BeGen X86Sem X86Exec X86Correct.

(** ** Well-formed input and valid output *)

Definition last_of (xr : list x86Register) (x : nat) : Z :=
  match xr !! x with Some r => x_lastReadIndex r | None => -1 end.

(** What the first pass hands over: instruction [i] of [l] reads registers
    written before, not later than their [lastReadIndex], and writes a
    register for the first time.  [live] lists the registers written so far. *)
Fixpoint xwf (last : nat -> Z) (live : list nat) (i : Z) (l : list (x86Instruction nat)) : Prop :=
  match l with
  | [] => True
  | insn :: l =>
      (forall x, x ∈ x86_uses insn -> x ∈ live /\ i <= last x) /\
      (forall d, x86_def insn = Some d -> d ∉ live) /\
      xwf last (option_list (x86_def insn) ++ live) (i + 1) l
  end.

(** An assignment [idx] of hardware registers that keeps apart a destination,
    the operands of its instruction and every value still needed. *)
Fixpoint alloc_ok (idx : nat -> Z) (last : nat -> Z) (live : list nat) (i : Z)
    (l : list (x86Instruction nat)) : Prop :=
  match l with
  | [] => True
  | insn :: l =>
      (forall x, x ∈ x86_uses insn -> x ∈ live /\ i <= last x /\ hwreg (idx x)) /\
      (forall d, x86_def insn = Some d ->
         hwreg (idx d) /\ forall x, x ∈ live -> i <= last x -> idx x <> idx d) /\
      alloc_ok idx last (option_list (x86_def insn) ++ live) (i + 1) l
  end.

(** ** The steps of the allocator *)

Lemma find_free_Some l k j :
  find_free l k = Some j -> (k <= j)%nat /\ l !! (j - k)%nat = Some true.
Proof.
  revert k. induction l as [|[] l IH]; intros k H; cbn in H; [done| |].
  - injection H as <-. by rewrite Nat.sub_diag.
  - apply IH in H as [H1 H2]. split; [lia|].
    by replace (j - k)%nat with (S (j - S k)) by lia.
Qed.

Lemma set_free_Some p b s r :
  set_free p b s = Some r ->
  0 <= p < Z.of_nat (length (freeRegList s)) /\
  r = (tt, mkRalloc (<[Z.to_nat p := b]> (freeRegList s)) (ra_regs s)).
Proof. unfold set_free. destruct (_ && _) eqn:E; [|done]. intros [= <-]. split; [lia|done]. Qed.

Lemma getFreeReg_Some x s r :
  getFreeReg x s = Some r ->
  exists reg n, ra_regs s !! x = Some reg /\ freeRegList s !! n = Some true /\
    r = (tt, mkRalloc (if x_lastReadIndex reg =? -1 then <[n := true]> (<[n := false]> (freeRegList s))
                       else <[n := false]> (freeRegList s))
                      (<[x := set_xindex (Z.of_nat n) reg]> (ra_regs s))).
Proof.
  unfold getFreeReg, ra_get, getFreeRegRaw. intros H. inv_run.
  match goal with H : find_free _ _ = Some ?j |- _ => apply find_free_Some in H as [_ Hf]; rename j into n end.
  rewrite Nat.sub_0_r in Hf.
  match goal with H : set_free _ false _ = _ |- _ => apply set_free_Some in H as [_ H] end.
  inv_run. match goal with H : ra_regs _ !! x = Some ?y |- _ => exists y, n end.
  repeat split; try done. rewrite Nat2Z.id in H.
  destruct (_ =? _).
  - apply set_free_Some in H as [_ ->]. by rewrite Nat2Z.id.
  - inv_run. done.
Qed.

Lemma free_if_last_Some i x s r :
  free_if_last i x s = Some r ->
  exists reg, ra_regs s !! x = Some reg /\
    r = (tt, mkRalloc (if x_lastReadIndex reg =? i
                       then <[Z.to_nat (x_index reg) := true]> (freeRegList s)
                       else freeRegList s) (ra_regs s)).
Proof.
  unfold free_if_last, ra_get. intros H. inv_run. eexists. split; [eassumption|].
  destruct (_ =? _).
  - by apply set_free_Some in H as [_ ->].
  - inv_run. match goal with |- (_, ?t) = _ => by destruct t end.
Qed.

Fixpoint free_list (i : Z) (us : list nat) : stM ralloc unit :=
  match us with
  | [] => mret tt
  | u :: us => free_if_last i u;; free_list i us
  end.

Lemma free_params_list i ps s : free_params i ps s = free_list i (ps ≫= option_list) s.
Proof.
  revert s. induction ps as [|[p|] ps IH]; intros s; cbn; [done| |apply IH].
  unfold mbind, stM_bind. by destruct (free_if_last i p s) as [[]|].
Qed.

(** The switch of [allocateRegisters] takes a register for the destination,
    then gives back those of the operands. *)
Lemma allocateRegisters_insn_eq i insn s :
  allocateRegisters_insn i insn s =
    (match x86_def insn with Some d => getFreeReg d | None => mret tt end;;
     free_list i (x86_uses insn)) s.
Proof.
  destruct insn as [d v|w d a|w s0 a|w o d a b|d a t f|t d o|v [o|] b|a ps [r|]|w d off|w s0 off|v];
    cbn [allocateRegisters_insn x86_def x86_uses free_list option_list]; run_m;
    repeat (case_match; try done); simplify_eq; try done;
    repeat match goal with u : unit |- _ => destruct u end; try done; by rewrite free_params_list.
Qed.

Lemma free_list_Some i us s r :
  free_list i us s = Some r ->
  exists fl, r = (tt, mkRalloc fl (ra_regs s)) /\ length fl = length (freeRegList s) /\
    forall k, (forall u, u ∈ us -> last_of (ra_regs s) u = i ->
                         Z.to_nat (index_of (ra_regs s) u) <> k) ->
              fl !! k = freeRegList s !! k.
Proof.
  revert s. induction us as [|u us IH]; intros s H; cbn [free_list] in H.
  - inv_run. match goal with |- exists _, (_, ?t) = _ /\ _ => exists (freeRegList t); by destruct t end.
  - apply bind_Some_inv in H as ([] & s1 & H1 & H2).
    apply free_if_last_Some in H1 as (reg & Hreg & [= ->]).
    apply IH in H2 as (fl & -> & Hl & Hk). cbn [ra_regs freeRegList] in *.
    exists fl. split; [done|]. split.
    { rewrite Hl. destruct (_ =? _); [apply length_insert|done]. }
    intros k Hu. rewrite Hk.
    + destruct (Z.eqb_spec (x_lastReadIndex reg) i) as [E|]; [|done].
      apply list_lookup_insert_ne. specialize (Hu u). unfold last_of, index_of in Hu.
      rewrite Hreg in Hu. apply Hu; [set_solver|done].
    + intros u' Hu'. apply Hu. set_solver.
Qed.

(** ** Live values have their own registers *)

Record live_inv (last : nat -> Z) (live : list nat) (i : Z) (s : ralloc) : Prop := mkLiveInv {
  li_len : length (freeRegList s) = REG_NUMBER;
  li_last : forall x, last_of (ra_regs s) x = last x;
  li_busy : forall x, x ∈ live -> i <= last x ->
    hwreg (index_of (ra_regs s) x) /\
    freeRegList s !! Z.to_nat (index_of (ra_regs s) x) = Some false;
  li_apart : forall x y, x ∈ live -> y ∈ live -> i <= last x -> i <= last y -> x <> y ->
    index_of (ra_regs s) x <> index_of (ra_regs s) y
}.

Lemma last_of_insert xr x reg n y :
  xr !! x = Some reg -> last_of (<[x := set_xindex n reg]> xr) y = last_of xr y.
Proof.
  intros H. unfold last_of. destruct (decide (x = y)) as [->|].
  - rewrite list_lookup_insert_eq by (by eapply lookup_lt_Some). by rewrite H.
  - by rewrite list_lookup_insert_ne.
Qed.

Lemma index_of_insert xr x reg n y :
  xr !! x = Some reg ->
  index_of (<[x := set_xindex n reg]> xr) y = if decide (y = x) then n else index_of xr y.
Proof.
  intros H. unfold index_of. case_decide as E.
  - subst. by rewrite list_lookup_insert_eq by (by eapply lookup_lt_Some).
  - by rewrite list_lookup_insert_ne.
Qed.

(** Taking a register for a new value [d]. *)
Lemma getFreeReg_live last live i d s r :
  live_inv last live i s -> d ∉ live -> getFreeReg d s = Some r ->
  exists s1, r = (tt, s1) /\ live_inv last live i s1 /\ hwreg (index_of (ra_regs s1) d) /\
    (last d <> -1 -> freeRegList s1 !! Z.to_nat (index_of (ra_regs s1) d) = Some false) /\
    (forall x, x ∈ live -> i <= last x -> index_of (ra_regs s1) x <> index_of (ra_regs s1) d) /\
    (forall x, x <> d -> index_of (ra_regs s1) x = index_of (ra_regs s) x).
Proof.
  intros [Hl Hlast Hb Ha] Hd (reg & n & Hreg & Hn & ->)%getFreeReg_Some. eexists. split; [done|].
  assert (Hn8 : (n < 8)%nat).
  { change 8%nat with REG_NUMBER. rewrite <- Hl. by eapply lookup_lt_Some. }
  assert (Hne : forall x, x ∈ live -> i <= last x -> index_of (ra_regs s) x <> Z.of_nat n).
  { intros x Hx Hi E. destruct (Hb x Hx Hi) as [_ Hf]. rewrite E, Nat2Z.id in Hf. congruence. }
  assert (Hnd : forall x, x ∈ live -> x <> d) by (intros x Hx ->; done).
  assert (Hidx : forall x, index_of (<[d:=set_xindex (Z.of_nat n) reg]> (ra_regs s)) x =
                   if decide (x = d) then Z.of_nat n else index_of (ra_regs s) x)
    by (intros; by apply index_of_insert).
  split; [constructor|]; cbn [freeRegList ra_regs].
  - destruct (_ =? _); rewrite ?length_insert; done.
  - intros x. rewrite last_of_insert by done. apply Hlast.
  - intros x Hx Hi. rewrite Hidx, decide_False by auto. destruct (Hb x Hx Hi) as [Hh Hf].
    split; [done|]. assert (n <> Z.to_nat (index_of (ra_regs s) x)).
    { pose proof (Hne x Hx Hi). unfold hwreg in Hh. lia. }
    destruct (_ =? _); rewrite !list_lookup_insert_ne by done; done.
  - intros x y Hx Hy. rewrite !Hidx, !decide_False by auto. by apply Ha.
  - rewrite !Hidx, decide_True by done. split; [unfold hwreg; lia|]. split; [|split].
    + intros Hld. rewrite Nat2Z.id. rewrite <- Hlast in Hld. unfold last_of in Hld.
      rewrite Hreg in Hld. destruct (Z.eqb_spec (x_lastReadIndex reg) (-1)); [done|].
      apply list_lookup_insert_eq. by eapply lookup_lt_Some.
    + intros x Hx Hi. rewrite Hidx, decide_False by auto. by apply Hne.
    + intros x Hx. by rewrite Hidx, decide_False.
Qed.

(** Giving back what instruction [i] reads last keeps the rest alive. *)
Lemma free_list_live last live i us s r :
  live_inv last live i s -> (forall u, u ∈ us -> u ∈ live) ->
  free_list i us s = Some r ->
  exists s1, r = (tt, s1) /\ live_inv last live (i + 1) s1 /\ ra_regs s1 = ra_regs s /\
    forall k, (forall u, u ∈ us -> i <= last u -> Z.to_nat (index_of (ra_regs s) u) <> k) ->
              freeRegList s1 !! k = freeRegList s !! k.
Proof.
  intros [Hl Hlast Hb Ha] Hus (fl & -> & Hlen & Hk)%free_list_Some. eexists. split; [done|].
  split; [constructor; cbn [freeRegList ra_regs]|split; [done|]].
  - congruence.
  - done.
  - intros x Hx Hi. destruct (Hb x Hx ltac:(lia)) as [Hh Hf]. split; [done|]. rewrite Hk; [done|].
    intros u Hu Hlu E. rewrite Hlast in Hlu.
    destruct (Hb u (Hus u Hu) ltac:(lia)) as [Hhu _].
    destruct (decide (u = x)) as [->|Hux]; [lia|].
    apply (Ha u x); auto; [lia|lia|]. unfold hwreg in *. lia.
  - intros x y Hx Hy Hix Hiy. apply Ha; auto; lia.
  - cbn. intros k H. apply Hk. intros u Hu Hlu. apply H; [done|]. rewrite Hlast in Hlu. lia.
Qed.

(** One instruction. *)
Lemma allocate_insn_live last live i insn s r :
  0 <= i -> live_inv last live i s ->
  (forall x, x ∈ x86_uses insn -> x ∈ live /\ i <= last x) ->
  (forall d, x86_def insn = Some d -> d ∉ live) ->
  allocateRegisters_insn i insn s = Some r ->
  exists s1, r = (tt, s1) /\
    live_inv last (option_list (x86_def insn) ++ live) (i + 1) s1 /\
    (forall d, x86_def insn = Some d -> hwreg (index_of (ra_regs s1) d) /\
       forall x, x ∈ live -> i <= last x -> index_of (ra_regs s1) x <> index_of (ra_regs s1) d) /\
    (forall x, Some x <> x86_def insn -> index_of (ra_regs s1) x = index_of (ra_regs s) x).
Proof.
  intros H0 Hinv Hu Hd H. rewrite allocateRegisters_insn_eq in H.
  apply bind_Some_inv in H as ([] & s1 & H1 & H2). destruct (x86_def insn) as [d|].
  - specialize (Hd d eq_refl).
    apply (getFreeReg_live _ _ _ _ _ _ Hinv Hd) in H1 as (s1' & [= <-] & Hi1 & Hh & Hf & Hne & Hid).
    apply (free_list_live _ _ _ _ _ _ Hi1) in H2 as (s2 & -> & [Hl Hlast Hb Ha] & Hr & Hk);
      [|by intros u Hin; apply Hu].
    exists s2. split; [done|]. cbn [option_list app]. rewrite Hr in *.
    assert (Hfd : i + 1 <= last d -> freeRegList s2 !! Z.to_nat (index_of (ra_regs s1) d) = Some false).
    { intros Hld. rewrite Hk; [apply Hf; lia|].
      intros u Hin Hiu. destruct (Hu u Hin) as [Hul _]. pose proof (Hne u Hul Hiu).
      destruct (li_busy _ _ _ _ Hi1 u Hul Hiu) as [Hhu _]. unfold hwreg in *. lia. }
    split; [constructor; rewrite ?Hr; try done|split].
    + intros x [->|Hx]%elem_of_cons Hi; [|by apply Hb]. auto.
    + intros x y [->|Hx]%elem_of_cons [->|Hy]%elem_of_cons Hix Hiy Hxy; [done| | |by apply Ha].
      * intros E. apply (Hne y); [done|lia|done].
      * apply Hne; [done|lia].
    + intros d' [= <-]. done.
    + intros x Hx. apply Hid. congruence.
  - unfold mret, stM_ret in H1. injection H1 as <-.
    apply (free_list_live _ _ _ _ _ _ Hinv) in H2 as (s2 & -> & Hi2 & Hr & _);
      [|by intros u Hin; apply Hu].
    exists s2. split; [done|]. split; [done|]. split; [done|]. intros x _. by rewrite Hr.
Qed.

(** The whole pass. *)
Lemma allocateRegisters_loop_ok last live i l s r :
  0 <= i -> live_inv last live i s -> xwf last live i l ->
  allocateRegisters_loop i l s = Some r ->
  exists s1, r = (tt, s1) /\ alloc_ok (index_of (ra_regs s1)) last live i l /\
    forall x, x ∈ live -> index_of (ra_regs s1) x = index_of (ra_regs s) x.
Proof.
  revert live i s. induction l as [|insn l IH]; intros live i s Hi Hinv Hwf H.
  - cbn in H. inv_run. eexists. split; [done|]. by split.
  - cbn [allocateRegisters_loop] in H. apply bind_Some_inv in H as ([] & s1 & H1 & H2).
    destruct Hwf as (Hu & Hd & Hwf).
    pose proof (allocate_insn_live _ _ _ _ _ _ Hi Hinv Hu Hd H1)
      as (s1' & [= <-] & Hi1 & Hdef & Hid).
    destruct (IH _ (i + 1) s1 ltac:(lia) Hi1 Hwf H2) as (s2 & -> & Hok & Hsame).
    exists s2. split; [done|].
    assert (Hold : forall x, x ∈ live -> index_of (ra_regs s2) x = index_of (ra_regs s) x).
    { intros x Hx. rewrite Hsame by (apply elem_of_app; by right). apply Hid.
      intros E. by apply (Hd x). }
    split; [|done]. cbn [alloc_ok]. split; [|split; [|done]].
    + intros x Hx. destruct (Hu x Hx) as [Hxl Hxi]. split; [done|]. split; [done|].
      rewrite Hold by done. by apply (li_busy _ _ _ _ Hinv).
    + intros d E. destruct (Hdef d E) as [Hh Hne].
      assert (Hsd : index_of (ra_regs s2) d = index_of (ra_regs s1) d).
      { apply Hsame. rewrite E. apply elem_of_app. left. apply list_elem_of_here. }
      rewrite Hsd. split; [done|]. intros x Hx Hix.
      rewrite Hsame by (apply elem_of_app; by right). by apply Hne.
Qed.

Lemma allocateRegisters_ok l xr xr' :
  xwf (last_of xr) [] 0 l -> allocateRegisters l xr = Some xr' ->
  alloc_ok (index_of xr') (last_of xr) [] 0 l.
Proof.
  intros Hwf H. unfold allocateRegisters in H.
  destruct (allocateRegisters_loop _ _ _) as [[[] s]|] eqn:E; [|done]. injection H as <-.
  apply (allocateRegisters_loop_ok (last_of xr) []) in E as (s1 & [= <-] & Hok & _); try done.
  constructor; try done; by intros x ? Hx%elem_of_nil || by intros x Hx%elem_of_nil.
Qed.

(** ** A valid assignment computes the same thing *)

Section simulation.
Context (xcall : Z -> Z -> list (option Z) -> mem -> option (mem * Z)) (ctx : Z).
Context (idx last : nat -> Z).

(** The hardware registers hold the values still needed. *)
Definition agree (live : list nat) (i : Z) (ρv : nat -> Z) (ρp : Z -> Z) : Prop :=
  forall x, x ∈ live -> i <= last x -> ρp (idx x) = ρv x.

Lemma alloc_ok_run old live i l ρv ρp m :
  alloc_ok idx last live i l -> agree live i ρv ρp ->
  xrun xcall ctx old ρp m (x86_map idx <$> l) = xrun xcall ctx old ρv m l.
Proof.
  revert old live i ρv ρp m. induction l as [|insn l IH]; intros old live i ρv ρp m Hok Ha; [done|].
  destruct Hok as (Hu & Hd & Hok). cbn [fmap list_fmap xrun].
  rewrite (xeval_map idx xcall ctx _ ρv ρp).
  - destruct (xeval _ _ _ _ _ _) as [v m'| |] eqn:Ex; [|done|done]. f_equal. apply (IH _ _ _ _ _ _ Hok).
    rewrite x86_def_map. intros x Hx Hi. destruct (x86_def insn) as [d|] eqn:Ed; cbn in *.
    + destruct (Hd d eq_refl) as [_ Hne]. destruct v as [v|]; cbn.
      * apply elem_of_cons in Hx. destruct (decide (x = d)) as [->|Hxd].
        { by rewrite decide_True. }
        rewrite decide_False; [apply Ha; [tauto|lia]|]. apply Hne; [tauto|lia].
      * exfalso. exact (xeval_def _ _ _ _ _ _ d _ Ex Ed).
    + apply Ha; [done|lia].
  - intros x Hx. destruct (Hu x Hx) as (Hxl & Hxi & _). by apply Ha.
Qed.
End simulation.

(** The instructions over hardware registers meet what code generation asks. *)
Lemma alloc_ok_insns idx last live i l :
  alloc_ok idx last live i l ->
  Forall (fun insn => match insn with X86_CALL _ ps _ => (length ps <= 4)%nat | _ => True end) l ->
  Forall insn_ok (x86_map idx <$> l).
Proof.
  revert live i. induction l as [|insn l IH]; intros live i Hok Hp; [constructor|].
  destruct Hok as (Hu & Hd & Hok). inversion Hp as [|? ? Hpi Hpl]; subst.
  constructor; [|by eapply IH]. constructor.
  - rewrite x86_uses_map, Forall_fmap, Forall_forall. intros x Hx. by apply Hu.
  - intros d. rewrite x86_def_map, x86_uses_map. intros (x & Ex & ->)%fmap_Some.
    destruct (Hd x Ex) as [Hh Hne]. split; [done|].
    intros (y & E & Hy)%list_elem_of_fmap. destruct (Hu y Hy) as (Hyl & Hyi & _).
    by apply (Hne y Hyl Hyi).
  - destruct insn; cbn in *; try done. by rewrite length_map.
Qed.
