(* ===== verification/X86Select.v ===== *)
(** * Instruction selection is correct (pass 1 of [be_x86_64.c])

    [allocateInstructions] translates each IR instruction into zero, one or
    four instructions over fresh back-end registers.  First what it appends
    ([x_chunk]) and the well-formedness it establishes for the next pass;
    then that the translation computes what the IR says, for blocks where no
    operator is handed a register whose upper bits may be stale. *)

From S2P Require Import Prelude Ir Jitter BeX86 BeGen X86Sem X86Exec X86Correct X86Alloc.

(** ** What one function of the pass does to the state *)

(** The back-end register attached to an IR register. *)
Definition beta (s : inter) (r : nat) : option nat := ir_registers s !! r ≫= backend.
(** The last read of an IR register, as [allocateInstructions] looks it up. *)
Definition ir_last (s : inter) (r : nat) : option Z := lastReadIndex <$> ir_registers s !! r.

Record staged (s0 : inter) (p : nat) (us : list nat) (s : inter) : Prop := mkStaged {
  st_slot : p = length (xinsns s0);
  st_insns : exists u, xinsns s = xinsns s0 ++ [u];
  st_idx : x_instructionIndex s = x_instructionIndex s0;
  st_ir : ir_registers s = ir_registers s0;
  st_len : length (xregs s) = length (xregs s0);
  st_last : forall x, last_of (xregs s) x =
    if decide (x ∈ us) then x_instructionIndex s0 else last_of (xregs s0) x
}.

(** The instruction [insn] was appended and the registers of [us] were marked
    as read by it. *)
Record emitted (s s' : inter) (us : list nat) (insn : x86Instruction nat) : Prop := mkEmitted {
  em_insns : xinsns s' = xinsns s ++ [insn];
  em_idx : x_instructionIndex s' = x_instructionIndex s + 1;
  em_ir : ir_registers s' = ir_registers s;
  em_len : length (xregs s') = length (xregs s);
  em_last : forall x, last_of (xregs s') x =
    if decide (x ∈ us) then x_instructionIndex s else last_of (xregs s) x
}.

Lemma alloc_x86Instruction_staged s p s' :
  alloc_x86Instruction s = Some (p, s') -> staged s p [] s'.
Proof.
  unfold alloc_x86Instruction, memoryPoolAlloc. destruct (_ <=? _); [|done]. intros [= <- <-].
  constructor; try done. by eexists.
Qed.

Lemma get_xreg_Some x s r :
  get_xreg x s = Some r -> exists reg, xregs s !! x = Some reg /\ r = (reg, s).
Proof. unfold get_xreg. intros H. inv_run. eauto. Qed.

Lemma last_of_put xr x reg n y :
  xr !! x = Some reg ->
  last_of (<[x := set_xlastRead n reg]> xr) y = if decide (y = x) then n else last_of xr y.
Proof.
  intros H. unfold last_of. case_decide as E.
  - subst. by rewrite list_lookup_insert_eq by (by eapply lookup_lt_Some).
  - by rewrite list_lookup_insert_ne.
Qed.

Lemma xtouch_staged s0 p us u s r :
  staged s0 p us s -> xtouch u s = Some r ->
  (u < length (xregs s0))%nat /\ exists s', r = (tt, s') /\ staged s0 p (u :: us) s'.
Proof.
  intros [Hp Hi Hx Hir Hl Hlast] H. unfold xtouch in H.
  apply bind_Some_inv in H as (reg & s1 & Hg & H). apply get_xreg_Some in Hg as (? & Hg & [= -> ->]).
  unfold put_xreg in H. inv_run. split; [rewrite <- Hl; by eapply lookup_lt_Some|].
  eexists. split; [done|]. constructor; try done.
  - cbn. rewrite length_insert. done.
  - intros y. unfold xregs in *. cbn. rewrite (last_of_put _ _ _ _ _ Hg), Hx, Hlast. repeat case_decide; rewrite elem_of_cons in *; first [done|congruence|tauto].
Qed.

Lemma xtouch_list_staged s0 p us vs s r :
  staged s0 p us s -> xtouch_list vs s = Some r ->
  exists s', r = (tt, s') /\ staged s0 p (rev vs ++ us) s'.
Proof.
  revert us s. induction vs as [|v vs IH]; intros us s Hs H; cbn in H.
  - inv_run. eauto.
  - apply bind_Some_inv in H as ([] & s1 & H1 & H).
    eapply xtouch_staged in H1 as (_ & s1' & [= <-] & Hs1); [|done].
    destruct (IH _ _ Hs1 H) as (s2 & -> & Hs2). exists s2. split; [done|].
    cbn. by rewrite <- app_assoc.
Qed.

Lemma write_next_emitted s0 p us s insn r :
  staged s0 p us s -> (write_x86Instruction p insn;; next_x86Instruction) s = Some r ->
  exists s', r = (tt, s') /\ emitted s0 s' us insn.
Proof.
  intros [-> [u Hu] Hx Hir Hl Hlast] H. unfold write_x86Instruction, next_x86Instruction in H.
  inv_run. eexists. split; [done|]. constructor; try done.
  - unfold xinsns in *. cbn. rewrite Hu. apply insert_snoc.
  - cbn. by rewrite Hx.
Qed.

(** Open the steps of an [add_*] function. *)
Ltac open_add :=
  repeat match goal with
  | H : (alloc_x86Instruction ≫= _) _ = Some _ |- _ =>
      let p := fresh "p" in let s1 := fresh "s" in let H1 := fresh in
      apply bind_Some_inv in H; destruct H as (p & s1 & H1 & H);
      apply alloc_x86Instruction_staged in H1
  | H1 : staged ?s0 ?p ?us ?s, H : (xtouch ?u ≫= _) ?s = Some _ |- _ =>
      let s1 := fresh "s" in let H2 := fresh in
      apply bind_Some_inv in H; destruct H as ([] & s1 & H2 & H);
      apply (xtouch_staged _ _ _ _ _ _ H1) in H2;
      destruct H2 as (_ & ? & [= <-] & H2); clear H1
  | H1 : staged ?s0 ?p ?us ?s, H : (xtouch_list ?u ≫= _) ?s = Some _ |- _ =>
      let s1 := fresh "s" in let H2 := fresh in
      apply bind_Some_inv in H; destruct H as ([] & s1 & H2 & H);
      apply (xtouch_list_staged _ _ _ _ _ _ H1) in H2;
      destruct H2 as (? & [= <-] & H2); clear H1
  | H1 : staged ?s0 ?p ?us ?s, H : (write_x86Instruction ?p _ ≫= _) ?s = Some _ |- _ =>
      apply (write_next_emitted _ _ _ _ _ _ H1) in H
  end.

Lemma emitted_uses s s' us vs insn :
  emitted s s' us insn -> (forall x, x ∈ us <-> x ∈ vs) -> emitted s s' vs insn.
Proof.
  intros [? ? ? ? Hl] H. constructor; try done. intros x. rewrite Hl.
  by rewrite (decide_ext _ _ _ _ (H x)).
Qed.

Definition emits (s s' : inter) (insn : x86Instruction nat) : Prop :=
  emitted s s' (x86_uses insn) insn.

Lemma emitted_out s s' r us insn :
  (exists s1, r = (tt, s1) /\ emitted s s1 us insn) -> r = (tt, s') ->
  (forall x, x ∈ us <-> x ∈ x86_uses insn) -> emits s s' insn.
Proof. intros (s1 & -> & H) [= <-] Hu. by eapply emitted_uses. Qed.

Ltac close_add := eapply emitted_out; [eassumption|done|]; intros; cbn; rewrite ?elem_of_cons, ?elem_of_nil; tauto.

Lemma add_load_emitted w d a s s' :
  add_load w d a s = Some (tt, s') -> emits s s' (X86_LOAD w d a).
Proof. intros H. unfold add_load in H. open_add. close_add. Qed.

Lemma add_store_emitted w v a s s' :
  add_store w v a s = Some (tt, s') -> emits s s' (X86_STORE w v a).
Proof. intros H. unfold add_store in H. open_add. close_add. Qed.

Lemma add_binop_emitted w k d p q s s' :
  add_binop w k d p q s = Some (tt, s') -> emits s s' (X86_BINOP w k d p q).
Proof. intros H. unfold add_binop in H. open_add. close_add. Qed.

Lemma add_ite_emitted d p t f s s' :
  add_ite d p t f s = Some (tt, s') -> emits s s' (X86_ITE d p t f).
Proof. intros H. unfold add_ite in H. open_add. close_add. Qed.

Lemma add_cast_emitted t d o s s' :
  add_cast t d o s = Some (tt, s') -> emits s s' (X86_CAST t d o).
Proof. intros H. unfold add_cast in H. open_add. close_add. Qed.

Lemma add_call_emitted a ps r s s' :
  add_call a ps r s = Some (tt, s') ->
  emits s s' (X86_CALL a ps r).
Proof.
  intros H. unfold add_call in H. open_add. eapply emitted_out; [eassumption|done|].
  intros x. cbn. rewrite elem_of_app, (list_elem_of_In (rev _) x), <- in_rev, <- list_elem_of_In.
  rewrite ?elem_of_cons, ?elem_of_nil. tauto.
Qed.

Lemma add_read_emitted w d off s s' :
  add_read w d off s = Some (tt, s') -> emits s s' (X86_READ w d off).
Proof. intros H. unfold add_read in H. open_add. close_add. Qed.

Lemma add_write_emitted w v off s s' :
  add_write w v off s = Some (tt, s') -> emits s s' (X86_WRITE w v off).
Proof. intros H. unfold add_write in H. open_add. close_add. Qed.

Lemma add_marker_emitted v s s' :
  add_insn_start_marker v s = Some (tt, s') -> emits s s' (X86_INSN_MARKER v).
Proof. intros H. unfold add_insn_start_marker in H. open_add. close_add. Qed.

Lemma get_put_const d s1 r s0 p us :
  staged s0 p us s1 ->
  (v ← get_xreg d; put_xreg d (mkX86Register true (x_index v) (x_firstWriteIndex v) (x_lastReadIndex v)))
    s1 = Some r ->
  exists s2, r = (tt, s2) /\ staged s0 p us s2.
Proof.
  intros [Hp [u Hu] Hx Hir Hl Hlast] H. apply bind_Some_inv in H as (reg & s2 & Hg & H).
  apply get_xreg_Some in Hg as (? & Hg & [= -> ->]). unfold put_xreg in H. inv_run.
  eexists. split; [done|]. constructor; try done.
  - by eexists.
  - cbn. by rewrite length_insert.
  - intros y. rewrite <- Hlast. unfold last_of, xregs in *. cbn.
    match goal with |- context [<[d:=?v]> ?l !! y] => destruct (decide (y = d)) as [->|] end.
    + rewrite list_lookup_insert_eq by (by eapply lookup_lt_Some). by rewrite Hg.
    + by rewrite list_lookup_insert_ne.
Qed.

Lemma add_mov_const_emitted d v s s' :
  add_mov_const d v s = Some (tt, s') -> emits s s' (X86_MOV_CONST d v).
Proof.
  intros H. unfold add_mov_const in H. open_add.
  apply bind_Some_inv in H as (reg & s2 & Hg & H). apply bind_Some_inv in H as ([] & s3 & Hput & H).
  assert (Hc : (v ← get_xreg d; put_xreg d (mkX86Register true (x_index v) (x_firstWriteIndex v)
                 (x_lastReadIndex v))) s0 = Some (tt, s3)) by (by rewrite (bind_Some_eq _ _ _ _ _ Hg)).
  eapply get_put_const in Hc as (s3' & [= <-] & Hs3); [|eassumption].
  open_add. close_add.
Qed.

Lemma add_exit_emitted v o s s' :
  add_exit v o s = Some (tt, s') -> exists b, emits s s' (X86_EXIT v o b).
Proof.
  intros H. unfold add_exit in H. open_add.
  apply bind_Some_inv in H as (reg & s3 & Hg & H). apply get_xreg_Some in Hg as (? & Hg & [= -> ->]).
  open_add. eexists. eapply emitted_out; [eassumption|done|]. intros y. cbn.
  rewrite elem_of_app, (list_elem_of_In (rev _) y), <- in_rev, <- list_elem_of_In.
  rewrite ?elem_of_cons, ?elem_of_nil. tauto.
Qed.

(** ** Invariant of the pass *)

Definition xdefs (l : list (x86Instruction nat)) : list nat :=
  (l ≫= (fun i => option_list (x86_def i))).

Lemma xdefs_app l1 l2 : xdefs (l1 ++ l2) = xdefs l1 ++ xdefs l2.
Proof. apply bind_app. Qed.

Lemma xwf_snoc last live i l insn :
  xwf last live i l ->
  (forall x, x ∈ x86_uses insn -> (x ∈ live \/ x ∈ xdefs l) /\ i + Z.of_nat (length l) <= last x) ->
  (forall d, x86_def insn = Some d -> (d ∉ live) /\ (d ∉ xdefs l)) ->
  xwf last live i (l ++ [insn]).
Proof.
  revert live i. induction l as [|a l IH]; intros live i Hwf Hu Hd; cbn [app xwf] in *.
  - split; [|split; [|done]].
    + intros x Hx. destruct (Hu x Hx) as [[?|Hn] Hl]; [|by apply elem_of_nil in Hn].
      cbn in Hl. split; [done|lia].
    + intros d E. by apply Hd.
  - destruct Hwf as (Hau & Had & Hwf). split; [done|split; [done|]].
    assert (Hiff : forall x, (x ∈ option_list (x86_def a) ++ live \/ x ∈ xdefs l) <->
                             (x ∈ live \/ x ∈ xdefs (a :: l))).
    { intros x. unfold xdefs. cbn. rewrite !elem_of_app. tauto. }
    apply IH; [done| |].
    + intros x Hx. rewrite Hiff. destruct (Hu x Hx) as [? Hl]. split; [done|].
      cbn [length] in Hl. lia.
    + intros d E. destruct (Hd d E) as [H1 H2]. pose proof (Hiff d). tauto.
Qed.

Lemma xwf_mono last last' live i l :
  (forall x, last x <= last' x) -> xwf last live i l -> xwf last' live i l.
Proof.
  intros H. revert live i. induction l as [|a l IH]; intros live i; cbn; [done|].
  intros (Hu & Hd & Hwf). split; [|split; [done|by apply IH]].
  intros x Hx. destruct (Hu x Hx). split; [done|]. specialize (H x). lia.
Qed.

Record xinv (s : inter) : Prop := mkXinv {
  xi_idx : x_instructionIndex s = Z.of_nat (length (xinsns s));
  xi_def : forall x, x ∈ xdefs (xinsns s) -> (x < length (xregs s))%nat;
  xi_le : forall x, last_of (xregs s) x <= x_instructionIndex s;
  xi_wf : xwf (last_of (xregs s)) [] 0 (xinsns s);
  xi_beta : forall r x, beta s r = Some x -> (x < length (xregs s))%nat;
  xi_inj : forall r1 r2 x, beta s r1 = Some x -> beta s r2 = Some x -> r1 = r2
}.

Lemma emits_xinv s s' insn :
  emits s s' insn -> xinv s ->
  (forall x, x ∈ x86_uses insn -> x ∈ xdefs (xinsns s)) ->
  (forall d, x86_def insn = Some d -> (d ∉ xdefs (xinsns s)) /\ (d < length (xregs s))%nat) ->
  xinv s'.
Proof.
  intros [Hi Hx Hir Hl Hlast] [Jx Jd Jle Jwf Jb Jinj] Hu Hd.
  assert (Hmono : forall x, last_of (xregs s) x <= last_of (xregs s') x).
  { intros x. rewrite Hlast. case_decide; [apply Jle|lia]. }
  assert (Hb : forall r, beta s' r = beta s r) by (intros r; unfold beta; by rewrite Hir).
  constructor.
  - rewrite Hx, Hi, length_app, Jx. cbn. lia.
  - intros x. rewrite Hi, xdefs_app, elem_of_app, Hl. intros [H|H]; [by apply Jd|].
    unfold xdefs in H. cbn in H. rewrite app_nil_r in H. destruct (x86_def insn) as [d|] eqn:E.
    + apply elem_of_cons in H as [->|H]; [by apply Hd|by apply elem_of_nil in H].
    + by apply elem_of_nil in H.
  - intros x. rewrite Hlast, Hx. pose proof (Jle x). case_decide; lia.
  - rewrite Hi. apply xwf_snoc.
    + by apply (xwf_mono (last_of (xregs s))).
    + intros x Hin. split; [right; by apply Hu|]. rewrite Hlast, decide_True by done. lia.
    + intros d E. split; [by apply not_elem_of_nil|]. by apply Hd.
  - intros r x. rewrite Hb, Hl. apply Jb.
  - intros r1 r2 x. rewrite !Hb. apply Jinj.
Qed.

(** A register of the back end was allocated, for the IR register [o] or as a
    temporary. *)
Record allocs (s s' : inter) (x : nat) (o : option nat) : Prop := mkAllocs {
  al_x : x = length (xregs s);
  al_insns : xinsns s' = xinsns s;
  al_idx : x_instructionIndex s' = x_instructionIndex s;
  al_len : length (xregs s') = S (length (xregs s));
  al_last : forall y, last_of (xregs s') y = last_of (xregs s) y;
  al_beta : forall r, beta s' r = if decide (o = Some r) then Some x else beta s r;
  al_irlast : forall r, ir_last s' r = ir_last s r
}.

Lemma alloc_new_register_allocs s x s' :
  alloc_new_register s = Some (x, s') -> ir_registers s' = ir_registers s /\ allocs s s' x None.
Proof.
  unfold alloc_new_register, alloc_x86Register, memoryPoolAlloc, put_xreg. run_m.
  destruct (_ <=? _); [|done]. intros [= <- <-]. split; [done|]. unfold xregs, xinsns.
  constructor; try done; cbn.
  - rewrite length_insert, length_app. unfold xregs. cbn. lia.
  - intros y. unfold xregs. cbn. rewrite insert_snoc. unfold last_of.
    destruct (decide (y < length (buffer (x_registerPool s)))%nat) as [Hy|Hy].
    + by rewrite lookup_app_l.
    + rewrite lookup_app_r by lia. rewrite (lookup_ge_None_2 (buffer _) y) by lia.
      destruct (y - _)%nat as [|k]; [done|]. by destruct k.
Qed.

Lemma allocateRegister_new d s x s' :
  beta s d = None -> allocateRegister (Some d) s = Some (x, s') -> allocs s s' x (Some d).
Proof.
  intros Hb H. cbn [allocateRegister] in H. unfold get_irreg in H. inv_run.
  match goal with H : ir_registers ?s !! d = Some ?y |- _ =>
    rename H into Hd; rename y into reg; rename s into t end.
  unfold beta in Hb. rewrite Hd in Hb. cbn in Hb. rewrite Hb in H. inv_run.
  match goal with H : alloc_new_register _ = _ |- _ =>
    apply alloc_new_register_allocs in H as [Hir [? ? ? ? ? Hbe Hla]] end.
  constructor; try done; intros r.
  - unfold beta, with_ir in *. cbn. rewrite Hir. destruct (decide (Some d = Some r)) as [[= ->]|Hne].
    + rewrite list_lookup_insert_eq by (by eapply lookup_lt_Some). done.
    + rewrite list_lookup_insert_ne by congruence. done.
  - unfold ir_last, with_ir in *. cbn. rewrite Hir. destruct (decide (d = r)) as [->|Hne].
    + rewrite list_lookup_insert_eq by (by eapply lookup_lt_Some). by rewrite Hd.
    + by rewrite list_lookup_insert_ne.
Qed.

Lemma allocateRegister_old r s x y s' :
  beta s r = Some x -> allocateRegister (Some r) s = Some (y, s') -> y = x /\ s' = s.
Proof.
  intros Hb H. cbn [allocateRegister] in H. unfold get_irreg in H. inv_run.
  unfold beta in Hb.
  match goal with H : ir_registers _ !! r = Some _ |- _ => rewrite H in Hb end.
  cbn in Hb. rewrite Hb in H. by inv_run.
Qed.

Lemma allocs_xinv s s' x o :
  allocs s s' x o -> xinv s -> (forall r, o = Some r -> beta s r = None) -> xinv s'.
Proof.
  intros [-> Hi Hx Hl Hlast Hb Hir] [Jx Jd Jle Jwf Jb Jinj] Ho. constructor.
  - by rewrite Hx, Hi.
  - intros y. rewrite Hi, Hl. intros Hy%Jd. lia.
  - intros y. rewrite Hlast, Hx. apply Jle.
  - rewrite Hi. apply (xwf_mono (last_of (xregs s))); [|done]. intros y. by rewrite Hlast.
  - intros r y. rewrite Hb, Hl. case_decide; [intros [= <-]; lia|]. intros Hy%Jb. lia.
  - intros r1 r2 y. rewrite !Hb. repeat case_decide; try congruence.
    + intros [= <-] Hy%Jb. lia.
    + intros Hy%Jb [= <-]. lia.
    + apply Jinj.
Qed.

(** ** The translation of one IR instruction *)

(** The back-end register of an IR register that has one. *)
Definition bt (s : inter) (r : nat) : nat := default 0%nat (beta s r).

(** The instructions appended for [i]; [n] is the next free back-end
    register, [b] whether an exit is patchable. *)
Definition x_chunk (f : nat -> nat) (n : nat) (b : bool) (i : irInstruction) :
    list (x86Instruction nat) :=
  match i with
  | IR_MOV_CONST _ _ v => [X86_MOV_CONST n v]
  | IR_LOAD w _ a => [X86_LOAD w n (f a)]
  | IR_STORE w s a => [X86_STORE w (f s) (f a)]
  | IR_BINOP (IR_BINOP_ ASR w) _ p q =>
      if asr_goto_p0 w =? 0 then [X86_BINOP w ASR n (f p) (f q)]
      else [X86_MOV_CONST (n + 1)%nat (asr_goto_p0 w);
            X86_BINOP IR_REG_64 SHL (n + 2)%nat (f p) (n + 1)%nat;
            X86_BINOP IR_REG_64 ASR (n + 3)%nat (n + 2)%nat (n + 1)%nat;
            X86_BINOP w ASR n (n + 3)%nat (f q)]
  | IR_BINOP (IR_BINOP_ k w) _ p q => [X86_BINOP w k n (f p) (f q)]
  | IR_ITE _ _ p t e => [X86_ITE n (f p) (f t) (f e)]
  | IR_CAST t _ o => [X86_CAST t n (f o)]
  | IR_EXIT v p => [X86_EXIT (f v) (option_map f p) b]
  | IR_CALL _ a ps r => [X86_CALL (f a) (map (option_map f) ps) (option_map (fun _ => n) r)]
  | IR_READ w _ off => [X86_READ w n off]
  | IR_WRITE w s off => [X86_WRITE w (f s) off]
  | IR_INSN_MARKER v => [X86_INSN_MARKER v]
  end.

(** A context read whose result is never used is dropped. *)
Definition dropped (s : inter) (i : irInstruction) : bool :=
  match i with IR_READ _ d _ => bool_decide (ir_last s d = Some (-1)) | _ => false end.

(** The registers of the IR written so far are those of [D]; each one that is
    read somewhere has a back-end register, written by the instructions so
    far. *)
Record irinv (D : list nat) (s : inter) : Prop := mkIrinv {
  ii_beta : forall r, r ∈ D -> ir_last s r <> Some (-1) ->
    exists x, beta s r = Some x /\ x ∈ xdefs (xinsns s);
  ii_dom : forall r x, beta s r = Some x -> r ∈ D
}.

Record selects (D : list nat) (i : irInstruction) (s s' : inter) : Prop := mkSelects {
  se_insns : exists b, xinsns s' =
    xinsns s ++ if dropped s i then [] else x_chunk (bt s) (length (xregs s)) b i;
  se_xinv : xinv s';
  se_irinv : irinv (option_list (ir_def i) ++ D) s';
  se_last : forall r, ir_last s' r = ir_last s r;
  se_beta : forall r, beta s' r =
    if decide (ir_def i = Some r /\ dropped s i = false) then Some (length (xregs s)) else beta s r;
  se_len : (length (xregs s) <= length (xregs s'))%nat
}.

Section one.
Context (D : list nat) (i : irInstruction) (s : inter).
Hypothesis Hx : xinv s.
Hypothesis Hir : irinv D s.
Hypothesis Huse : forall r, r ∈ ir_uses i -> r ∈ D /\ ir_last s r <> Some (-1).
Hypothesis Hdef : forall d, ir_def i = Some d -> d ∉ D.

Lemma use_beta r : r ∈ ir_uses i -> beta s r = Some (bt s r) /\ bt s r ∈ xdefs (xinsns s).
Proof.
  intros [Hr Hl]%Huse. destruct (ii_beta _ _ Hir r Hr Hl) as (x & Hb & Hd).
  unfold bt. by rewrite Hb.
Qed.

Lemma def_beta d : ir_def i = Some d -> beta s d = None.
Proof.
  intros Hd. destruct (beta s d) as [x|] eqn:E; [|done]. exfalso.
  apply (Hdef d Hd). by apply (ii_dom _ _ Hir d x).
Qed.

(** Operands keep their registers once the destination has its own. *)
Lemma use_beta_after s1 n d r :
  allocs s s1 n (Some d) -> ir_def i = Some d -> r ∈ ir_uses i -> beta s1 r = Some (bt s r).
Proof.
  intros Ha Hd Hr. rewrite (al_beta _ _ _ _ Ha). destruct (use_beta r Hr) as [Hb _].
  rewrite decide_False; [done|]. intros [= ->]. rewrite (def_beta r Hd) in Hb. done.
Qed.

(** One instruction was appended after the destination was given a register. *)
Lemma selects_def s1 s' d insn :
  ir_def i = Some d -> dropped s i = false -> allocs s s1 (length (xregs s)) (Some d) ->
  emits s1 s' insn -> (exists b, x_chunk (bt s) (length (xregs s)) b i = [insn]) ->
  x86_uses insn = bt s <$> ir_uses i -> x86_def insn = Some (length (xregs s)) ->
  selects D i s s'.
Proof.
  intros Hd Hdr Ha He [b Hc] Hu Hxd.
  assert (Hx1 : xinv s1) by (apply (allocs_xinv _ _ _ _ Ha Hx); intros r [= <-]; by apply def_beta).
  destruct Ha as [_ Hi Hidx Hlen Hlast Hb Hirl]. pose proof He as [Hei _ Heir Helen _].
  assert (Hb' : forall r, beta s' r = beta s1 r) by (intros; unfold beta; by rewrite Heir).
  assert (Hfresh : length (xregs s) ∉ xdefs (xinsns s)).
  { intros H%(xi_def _ Hx). lia. }
  constructor.
  - exists b. by rewrite Hdr, Hc, Hei, Hi.
  - apply (emits_xinv _ _ _ He Hx1).
    + intros x. rewrite Hu, Hi. intros (r & -> & Hr)%list_elem_of_fmap. by apply use_beta.
    + rewrite Hxd, Hi, Hlen. intros d' [= <-]. split; [done|lia].
  - rewrite Hd. constructor.
    + intros r Hr Hl. unfold ir_last in Hl. rewrite Heir in Hl. fold (ir_last s1 r) in Hl.
      rewrite Hirl in Hl. rewrite Hb', Hb, Hei, xdefs_app, Hi. case_decide as E.
      * eexists. split; [done|]. apply elem_of_app. right. unfold xdefs. cbn. rewrite Hxd.
        apply list_elem_of_here.
      * apply elem_of_cons in Hr as [->|Hr]; [done|].
        destruct (ii_beta _ _ Hir r Hr Hl) as (x & ? & ?). exists x. split; [done|].
        apply elem_of_app. by left.
    + intros r x. rewrite Hb', Hb. case_decide as E.
      * injection E as ->. intros _. apply list_elem_of_here.
      * intros Hr%(ii_dom _ _ Hir). by apply elem_of_cons; right.
  - intros r. unfold ir_last. rewrite Heir. apply Hirl.
  - intros r. rewrite Hb', Hb, Hd, Hdr. apply decide_ext. tauto.
  - lia.
Qed.

(** One instruction without destination was appended. *)
Lemma selects_nodef s' insn :
  ir_def i = None -> dropped s i = false -> emits s s' insn ->
  (exists b, x_chunk (bt s) (length (xregs s)) b i = [insn]) ->
  x86_uses insn = bt s <$> ir_uses i -> x86_def insn = None ->
  selects D i s s'.
Proof.
  intros Hd Hdr He [b Hc] Hu Hxd. pose proof He as [Hei _ Heir Helen _].
  assert (Hb' : forall r, beta s' r = beta s r) by (intros; unfold beta; by rewrite Heir).
  constructor.
  - exists b. by rewrite Hdr, Hc, Hei.
  - apply (emits_xinv _ _ _ He Hx).
    + intros x. rewrite Hu. intros (r & -> & Hr)%list_elem_of_fmap. by apply use_beta.
    + by rewrite Hxd.
  - rewrite Hd. constructor.
    + intros r Hr Hl. unfold ir_last in Hl. rewrite Heir in Hl.
      destruct (ii_beta _ _ Hir r Hr Hl) as (x & ? & ?). exists x. rewrite Hb'.
      split; [done|]. rewrite Hei, xdefs_app. apply elem_of_app. by left.
    + intros r x. rewrite Hb'. apply (ii_dom _ _ Hir).
  - intros r. unfold ir_last. by rewrite Heir.
  - intros r. rewrite Hb', Hd. rewrite decide_False; [done|]. by intros [? _].
  - lia.
Qed.

Lemma allocate_params_old s1 ps vs s2 :
  (forall r, r ∈ ps ≫= option_list -> beta s1 r = Some (bt s r)) ->
  allocate_params ps s1 = Some (vs, s2) -> vs = map (option_map (bt s)) ps /\ s2 = s1.
Proof.
  revert vs s2. induction ps as [|[p|] ps IH]; intros vs s2 Hb H; cbn [allocate_params] in H.
  - by inv_run.
  - apply bind_Some_inv in H as (x & t & H1 & H).
    eapply allocateRegister_old in H1; [|apply Hb; cbn; apply list_elem_of_here].
    destruct H1; subst x t.
    apply bind_Some_inv in H as (l & t & H1 & H). apply IH in H1.
    + destruct H1; subst. by inv_run.
    + intros r Hr. apply Hb. cbn. by apply list_elem_of_further.
  - apply bind_Some_inv in H as (l & t & H1 & H). apply IH in H1; [|done].
    destruct H1; subst. by inv_run.
Qed.
End one.

(** Open the allocation of a destination and of operands. *)
Ltac elem_cons := cbn; rewrite ?elem_of_cons, ?elem_of_nil; tauto.

Ltac open_dst H s1 Ha :=
  apply bind_Some_inv in H; let x := fresh "x" in let H1 := fresh in
  destruct H as (x & s1 & H1 & H); apply allocateRegister_new in H1 as Ha;
  [clear H1; pose proof (al_x _ _ _ _ Ha); subst x
  | eapply def_beta; [eassumption|eassumption|done]].

Ltac use_reg :=
  first [ eapply use_beta_after; [eassumption|eassumption|eassumption|eassumption|done|elem_cons]
        | eapply use_beta; [eassumption|eassumption|elem_cons] ].

Ltac open_use H :=
  apply bind_Some_inv in H; let x := fresh "x" in let t := fresh "t" in let H1 := fresh in
  destruct H as (x & t & H1 & H);
  eapply allocateRegister_old in H1; [|use_reg]; destruct H1; subst x t.

Lemma selects_dropped D w d off s :
  ir_last s d = Some (-1) -> xinv s -> irinv D s -> selects D (IR_READ w d off) s s.
Proof.
  intros Hl Hx [Hb Hd]. assert (Hdr : dropped s (IR_READ w d off) = true)
    by (by apply bool_decide_eq_true_2).
  constructor; try done.
  - exists true. by rewrite Hdr, app_nil_r.
  - constructor.
    + intros r [->|Hr]%elem_of_cons Hn; [done|by apply Hb].
    + intros r x Hr. apply elem_of_cons. right. by eapply Hd.
  - intros r. rewrite Hdr. rewrite decide_False; [done|]. by intros [_ ?].
Qed.

(** A temporary was allocated and written. *)
Record temp_step (s s' : inter) (insn : x86Instruction nat) : Prop := mkTempStep {
  tm_xinv : xinv s';
  tm_insns : xinsns s' = xinsns s ++ [insn];
  tm_beta : forall r, beta s' r = beta s r;
  tm_last : forall r, ir_last s' r = ir_last s r;
  tm_len : length (xregs s') = S (length (xregs s))
}.

Lemma emits_beta s s' insn : emits s s' insn ->
  (forall r, beta s' r = beta s r) /\ (forall r, ir_last s' r = ir_last s r).
Proof. intros [_ _ Hir _ _]. unfold beta, ir_last. by rewrite Hir. Qed.

Lemma temp_step_intro s x s1 s2 insn :
  allocs s s1 x None -> emits s1 s2 insn -> xinv s ->
  (forall y, y ∈ x86_uses insn -> y ∈ xdefs (xinsns s)) -> x86_def insn = Some x ->
  temp_step s s2 insn.
Proof.
  intros Ha He Hx Hu Hd. assert (Hx1 : xinv s1) by (by apply (allocs_xinv _ _ _ _ Ha Hx)).
  destruct (emits_beta _ _ _ He) as [Heb Hel].
  pose proof Ha as [-> Hi Hidx Hlen Hlast Hb Hirl]. pose proof He as [Hei _ _ Helen _].
  constructor.
  - apply (emits_xinv _ _ _ He Hx1); rewrite Hi; [done|]. rewrite Hd. intros d [= <-].
    split; [|lia]. intros H%(xi_def _ Hx). lia.
  - by rewrite Hei, Hi.
  - intros r. rewrite Heb, Hb. by rewrite decide_False.
  - intros r. by rewrite Hel, Hirl.
  - lia.
Qed.

Lemma xdefs_last l insn d : x86_def insn = Some d -> d ∈ xdefs (l ++ [insn]).
Proof.
  intros Hd. rewrite xdefs_app. apply elem_of_app. right. unfold xdefs. cbn. rewrite Hd.
  apply list_elem_of_here.
Qed.

Lemma xdefs_old l insn x : x ∈ xdefs l -> x ∈ xdefs (l ++ [insn]).
Proof. intros H. rewrite xdefs_app. apply elem_of_app. by left. Qed.

(** The four instructions of a narrow arithmetic shift. *)
Lemma asr_temps D w d p q s s1 s' :
  let i := IR_BINOP (IR_BINOP_ ASR w) d p q in let n := length (xregs s) in
  xinv s -> irinv D s ->
  (forall r, r ∈ ir_uses i -> r ∈ D /\ ir_last s r <> Some (-1)) -> d ∉ D ->
  (asr_goto_p0 w =? 0) = false -> allocs s s1 n (Some d) ->
  (shiftRightResult ←
    (shiftValue ← allocateRegister None;
     add_mov_const shiftValue (asr_goto_p0 w);;
     shiftLeftResult ← allocateRegister None;
     add_binop IR_REG_64 SHL shiftLeftResult (bt s p) shiftValue;;
     res ← allocateRegister None;
     add_binop IR_REG_64 ASR res shiftLeftResult shiftValue;;
     mret res);
   add_binop w ASR n shiftRightResult (bt s q)) s1 = Some (tt, s') ->
  exists s4, xinv s4 /\ xinsns s4 = xinsns s ++
      [X86_MOV_CONST (n + 1)%nat (asr_goto_p0 w);
       X86_BINOP IR_REG_64 SHL (n + 2)%nat (bt s p) (n + 1)%nat;
       X86_BINOP IR_REG_64 ASR (n + 3)%nat (n + 2)%nat (n + 1)%nat] /\
    (forall r, beta s4 r = beta s1 r) /\ (forall r, ir_last s4 r = ir_last s1 r) /\
    length (xregs s4) = (n + 4)%nat /\
    emits s4 s' (X86_BINOP w ASR n (n + 3)%nat (bt s q)).
Proof.
  intros i n Hx Hir Hu Hd Hw Ha H.
  assert (Hx1 : xinv s1).
  { apply (allocs_xinv _ _ _ _ Ha Hx). intros r [= <-]. apply (def_beta D i s Hir); [|done]. by intros ? [= <-]. }
  assert (Hp : bt s p ∈ xdefs (xinsns s1)).
  { rewrite (al_insns _ _ _ _ Ha). eapply (use_beta D i); [done|done|]. unfold i. elem_cons. }
  assert (Hn1 : length (xregs s1) = (n + 1)%nat) by (rewrite (al_len _ _ _ _ Ha); unfold n; lia).
  apply bind_Some_inv in H as (res & s7 & H & Hlast).
  apply bind_Some_inv in H as (v & s2 & H1 & H). apply alloc_new_register_allocs in H1 as [_ H1].
  apply bind_Some_inv in H as ([] & s3 & H2 & H). apply add_mov_const_emitted in H2.
  assert (T1 : temp_step s1 s3 (X86_MOV_CONST v (asr_goto_p0 w))).
  { apply (temp_step_intro _ _ _ _ _ H1 H2 Hx1); [|done]. intros y Hy. by apply elem_of_nil in Hy. }
  assert (v = (n + 1)%nat) as -> by (rewrite (al_x _ _ _ _ H1); lia). destruct T1 as [X3 I3 B3 L3 N3].
  apply bind_Some_inv in H as (sl & s4 & H3 & H). apply alloc_new_register_allocs in H3 as [_ H3].
  apply bind_Some_inv in H as ([] & s5 & H4 & H). apply add_binop_emitted in H4.
  assert (T2 : temp_step s3 s5 (X86_BINOP IR_REG_64 SHL sl (bt s p) (n + 1)%nat)).
  { apply (temp_step_intro _ _ _ _ _ H3 H4 X3); [|done]. rewrite I3. cbn [x86_uses].
    intros y [->|[->|Hy]%elem_of_cons]%elem_of_cons; [by apply xdefs_old|by apply xdefs_last|].
    by apply elem_of_nil in Hy. }
  assert (sl = (n + 2)%nat) as -> by (rewrite (al_x _ _ _ _ H3); lia). destruct T2 as [X5 I5 B5 L5 N5].
  apply bind_Some_inv in H as (rs & s6 & H5 & H). apply alloc_new_register_allocs in H5 as [_ H5].
  apply bind_Some_inv in H as ([] & s8 & H6 & H). apply add_binop_emitted in H6.
  assert (T3 : temp_step s5 s8 (X86_BINOP IR_REG_64 ASR rs (n + 2)%nat (n + 1)%nat)).
  { apply (temp_step_intro _ _ _ _ _ H5 H6 X5); [|done]. rewrite I5, I3. cbn [x86_uses].
    intros y [->|[->|Hy]%elem_of_cons]%elem_of_cons; [by apply xdefs_last| |].
    - by apply xdefs_old, xdefs_last.
    - by apply elem_of_nil in Hy. }
  assert (rs = (n + 3)%nat) as -> by (rewrite (al_x _ _ _ _ H5); lia). destruct T3 as [X8 I8 B8 L8 N8].
  injection H as <- <-. apply add_binop_emitted in Hlast.
  exists s8. rewrite I8, I5, I3, (al_insns _ _ _ _ Ha), <- !app_assoc. cbn [app].
  split; [done|]. split; [done|]. split; [|split; [|split; [lia|done]]].
  - intros r. by rewrite B8, B5, B3.
  - intros r. by rewrite L8, L5, L3.
Qed.

Lemma allocate_asr_selects D w d p q s s' :
  let i := IR_BINOP (IR_BINOP_ ASR w) d p q in
  allocate_asr w d p q s = Some (tt, s') -> xinv s -> irinv D s ->
  (forall r, r ∈ ir_uses i -> r ∈ D /\ ir_last s r <> Some (-1)) -> d ∉ D ->
  selects D i s s'.
Proof.
  intros i H Hx Hir Hu Hd.
  assert (Hd' : forall d', ir_def i = Some d' -> d' ∉ D) by (by intros d' [= <-]).
  unfold allocate_asr in H. unfold i in *. open_dst H s1 Ha. open_use H. open_use H.
  destruct (asr_goto_p0 w =? 0) eqn:Hw.
  - open_use H. apply add_binop_emitted in H. eapply selects_def; try done.
    exists true. cbn [x_chunk]. by rewrite Hw.
  - destruct (asr_temps D w d p q s s1 s' Hx Hir Hu Hd Hw Ha H)
      as (s4 & X4 & I4 & B4 & L4 & N4 & He).
    destruct (emits_beta _ _ _ He) as [Heb Hel].
    assert (Hq : bt s q ∈ xdefs (xinsns s)).
    { eapply (use_beta D _ s Hir Hu). elem_cons. }
    constructor.
    + exists true. rewrite (em_insns _ _ _ _ He), I4. cbn [dropped x_chunk]. rewrite Hw.
      by rewrite <- app_assoc.
    + apply (emits_xinv _ _ _ He X4); rewrite I4, xdefs_app; cbn [x86_uses x86_def].
      * intros y [->|[->|Hy]%elem_of_cons]%elem_of_cons; [| |by apply elem_of_nil in Hy];
          apply elem_of_app; [right|by left]. cbn. elem_cons.
      * intros d' [= <-]. rewrite N4. split; [|lia]. rewrite not_elem_of_app. split.
        -- intros Hc%(xi_def _ Hx). lia.
        -- cbn. rewrite !not_elem_of_cons. repeat split; try lia. by apply not_elem_of_nil.
    + cbn [ir_def option_list app]. constructor.
      * intros r Hr Hl. rewrite Hel, L4, (al_irlast _ _ _ _ Ha) in Hl.
        rewrite Heb, B4, (al_beta _ _ _ _ Ha), (em_insns _ _ _ _ He). case_decide as E.
        { eexists. split; [done|]. by apply xdefs_last. }
        apply elem_of_cons in Hr as [->|Hr]; [done|].
        destruct (ii_beta _ _ Hir r Hr Hl) as (x & ? & ?). exists x. split; [done|].
        apply xdefs_old. rewrite I4, xdefs_app. apply elem_of_app. by left.
      * intros r x. rewrite Heb, B4, (al_beta _ _ _ _ Ha). case_decide as E.
        { injection E as ->. intros _. apply list_elem_of_here. }
        intros Hr%(ii_dom _ _ Hir). apply elem_of_cons. by right.
    + intros r. by rewrite Hel, L4, (al_irlast _ _ _ _ Ha).
    + intros r. rewrite Heb, B4, (al_beta _ _ _ _ Ha). apply decide_ext. cbn. split; [by intros [= ->]|by intros [[= ->] _]].
    + rewrite (em_len _ _ _ _ He), N4. lia.
Qed.

Lemma allocateInstruction_selects D i s s' :
  allocateInstruction i s = Some (tt, s') -> xinv s -> irinv D s ->
  (forall r, r ∈ ir_uses i -> r ∈ D /\ ir_last s r <> Some (-1)) ->
  (forall d, ir_def i = Some d -> d ∉ D) ->
  selects D i s s'.
Proof.
  intros H Hx Hir Hu Hd.
  destruct i as [w d v|w d a|w v a|[k w] d p q|w a ps r|w d p t f|t d o|v p|w d off|w v off|v];
    cbn [allocateInstruction] in H.
  - open_dst H s1 Ha. apply add_mov_const_emitted in H.
    eapply selects_def; try done. by exists true.
  - open_dst H s1 Ha. open_use H. apply add_load_emitted in H.
    eapply selects_def; try done. by exists true.
  - open_use H. open_use H. apply add_store_emitted in H.
    eapply selects_nodef; try done. by exists true.
  - destruct k; try (open_dst H s1 Ha; open_use H; open_use H; apply add_binop_emitted in H;
      eapply selects_def; try done; by exists true).
    eapply allocate_asr_selects; try done. by apply Hd.
  - apply bind_Some_inv in H as (vs & t & Hvs & H).
    apply (allocate_params_old s) in Hvs;
      [|intros; eapply use_beta; try eassumption; cbn; by apply list_elem_of_further].
    destruct Hvs; subst vs t.
    destruct r as [r|].
    + apply bind_Some_inv in H as (ro & s1 & Hr & H). open_dst Hr s2 Ha.
      injection Hr as <- <-. open_use H. apply add_call_emitted in H.
      eapply selects_def; try done; [by exists true|]. cbn. by rewrite params_map.
    + apply bind_Some_inv in H as (ro & s1 & Hr & H). injection Hr as <- <-.
      open_use H. apply add_call_emitted in H.
      eapply selects_nodef; try done; [by exists true|]. cbn. by rewrite params_map.
  - open_dst H s1 Ha. open_use H. open_use H. open_use H. apply add_ite_emitted in H.
    eapply selects_def; try done. by exists true.
  - open_dst H s1 Ha. open_use H. apply add_cast_emitted in H.
    eapply selects_def; try done. by exists true.
  - destruct p as [p|].
    + open_use H. open_use H. apply add_exit_emitted in H as [b H].
      eapply selects_nodef; try done. by exists b.
    + open_use H. apply add_exit_emitted in H as [b H].
      eapply selects_nodef; try done. by exists b.
  - apply bind_Some_inv in H as (reg & t & Hr & H). unfold get_irreg in Hr. inv_run.
    match goal with Hg : ir_registers ?t !! d = Some ?y |- _ =>
      rename Hg into Hreg; rename t into s; rename y into reg end.
    assert (Hlast : ir_last s d = Some (lastReadIndex reg)) by (unfold ir_last; by rewrite Hreg).
    destruct (Z.eqb_spec (lastReadIndex reg) (-1)) as [E|E].
    + rewrite E in Hlast. inv_run. by apply selects_dropped.
    + open_dst H s1 Ha. apply add_read_emitted in H.
      eapply selects_def; try done; [|by exists true].
      cbn. apply bool_decide_eq_false_2. rewrite Hlast. congruence.
  - open_use H. apply add_write_emitted in H.
    eapply selects_nodef; try done. by exists true.
  - apply add_marker_emitted in H. eapply selects_nodef; try done. by exists true.
Qed.
