(* ===== verification/X86Const.v ===== *)
(** * Exits with a constant value ([is_patchable] in [be_x86_64.c])

    [add_exit] marks an exit as patchable when the register that holds its
    value was written by [add_mov_const].  Here: the flag means what the main
    loop takes it to mean, every run that comes out of such an exit comes out
    with the same value.  Also what the pass keeps of the state: the sizes of
    the two pools. *)

From S2P Require Import Prelude Ir Jitter BeX86 BeGen X86Sem X86Exec X86Correct X86Alloc X86Select.

(** ** Relations between the states before and after *)

(** Every successful run of [m] relates the states around it. *)
Definition respects {S A} (R : S -> S -> Prop) (m : stM S A) : Prop :=
  forall s x s', m s = Some (x, s') -> R s s'.

Section respects.
Context {S : Type} (R : S -> S -> Prop) `{!PreOrder R}.

Lemma respects_ret {A} (x : A) : respects R (mret x).
Proof. intros s y s' [= _ <-]. reflexivity. Qed.

Lemma respects_bind {A B} (m : stM S A) (f : A -> stM S B) :
  respects R m -> (forall x, respects R (f x)) -> respects R (m ≫= f).
Proof.
  intros Hm Hf s y s' (x & s1 & H1 & H2)%bind_Some_inv.
  transitivity s1; [by eapply Hm|by eapply Hf].
Qed.

Lemma respects_get : respects R get_state.
Proof. intros s x s' [= _ <-]. reflexivity. Qed.

Lemma respects_lift {A} (o : option A) : respects R (lift_option o).
Proof. intros s x s' (y & _ & [= _ <-])%lift_Some_inv. reflexivity. Qed.
End respects.

Create HintDb respects.
#[export] Hint Resolve respects_ret respects_get respects_lift : respects.

(** Follow the structure of the run; the leaves are in the database. *)
Ltac respects_tac :=
  repeat autounfold with respects;
  repeat first
    [ solve [eauto with respects typeclass_instances]
    | apply respects_bind; [apply _| |intros ?]
    | match goal with |- respects _ (match ?x with _ => _ end) => destruct x end ].

(** ** Pool sizes *)

Definition same_pools (s s' : inter) : Prop :=
  pool_size (x_registerPool s') = pool_size (x_registerPool s) /\
  pool_size (x_instructionPool s') = pool_size (x_instructionPool s).

#[export] Instance same_pools_preorder : PreOrder same_pools.
Proof. split; [by intros s|]. intros s1 s2 s3 [H1 H2] [H3 H4]. split; congruence. Qed.

Section same_pools.
Lemma alloc_x86Register_pools : respects same_pools alloc_x86Register.
Proof.
  intros s x s'. unfold alloc_x86Register, memoryPoolAlloc. destruct (_ <=? _); [|done].
  by intros [= _ <-].
Qed.

Lemma alloc_x86Instruction_pools : respects same_pools alloc_x86Instruction.
Proof.
  intros s x s'. unfold alloc_x86Instruction, memoryPoolAlloc. destruct (_ <=? _); [|done].
  by intros [= _ <-].
Qed.

Lemma modify_pools f : (forall s, same_pools s (f s)) -> respects same_pools (modify_state f).
Proof. intros H s x s' [= _ <-]. apply H. Qed.
End same_pools.

#[export] Hint Resolve alloc_x86Register_pools alloc_x86Instruction_pools : respects.
#[export] Hint Extern 3 (respects same_pools (modify_state _)) =>
  apply modify_pools; intros ?; split; reflexivity : respects.
#[export] Hint Unfold get_xreg put_xreg get_irreg xtouch write_x86Instruction next_x86Instruction
  alloc_new_register allocate_asr : respects.

Lemma allocateRegister_pools o : respects same_pools (allocateRegister o).
Proof. unfold allocateRegister. respects_tac. Qed.

Lemma xtouch_list_pools l : respects same_pools (xtouch_list l).
Proof. induction l; cbn [xtouch_list]; respects_tac. Qed.
#[export] Hint Resolve allocateRegister_pools xtouch_list_pools : respects.

#[export] Hint Unfold add_mov_const add_load add_store add_exit add_binop add_ite add_cast add_call
  add_read add_write add_insn_start_marker : respects.

Lemma allocate_params_pools ps : respects same_pools (allocate_params ps).
Proof. induction ps as [|[p|] ps IH]; cbn [allocate_params]; respects_tac. Qed.
#[export] Hint Resolve allocate_params_pools : respects.

Lemma allocateInstruction_pools i : respects same_pools (allocateInstruction i).
Proof. destruct i as [| | |[[] w] ? ? ?|? ? ? []| | |? []| | |]; cbn [allocateInstruction]; respects_tac. Qed.
#[export] Hint Resolve allocateInstruction_pools : respects.

Lemma allocateInstructions_pools l : respects same_pools (allocateInstructions l).
Proof. induction l; cbn [allocateInstructions]; respects_tac. Qed.

(** A back end is reset to the same state before each block. *)
Lemma reset_same_pools s s' f g :
  same_pools s s' -> with_ir (fun _ => f) (reset s') = with_ir (fun _ => f) (reset (with_ir g s)).
Proof.
  intros [H1 H2]. unfold reset, with_ir, memoryPoolReset. cbn. by rewrite H1, H2.
Qed.

(** ** Constant registers *)

Definition const_of (s : inter) (x : nat) : bool :=
  match xregs s !! x with Some r => x_isConstant r | None => false end.

(** The registers marked constant are those a move of a constant wrote, and
    the values of patchable exits are among them. *)
Record const_ok (s : inter) : Prop := mkConstOk {
  co_reg : forall x, const_of s x = true <-> exists v, X86_MOV_CONST x v ∈ xinsns s;
  co_exit : forall x p, X86_EXIT x p true ∈ xinsns s -> exists v, X86_MOV_CONST x v ∈ xinsns s
}.

Definition keeps_const (s s' : inter) : Prop := const_ok s -> const_ok s'.

#[export] Instance keeps_const_preorder : PreOrder keeps_const.
Proof. split; [intros s H; exact H|]. intros s1 s2 s3 H1 H2 H. by apply H2, H1. Qed.

(** No mark changes. *)
Definition const_same (s s' : inter) : Prop := forall x, const_of s' x = const_of s x.

#[export] Instance const_same_preorder : PreOrder const_same.
Proof. split; [by intros s x|]. intros s1 s2 s3 H1 H2 x. by rewrite H2. Qed.

Section const_same.
Lemma alloc_x86Instruction_const : respects const_same alloc_x86Instruction.
Proof.
  intros s x s'. unfold alloc_x86Instruction, memoryPoolAlloc. destruct (_ <=? _); [|done].
  by intros [= _ <-] y.
Qed.

Lemma xtouch_const u : respects const_same (xtouch u).
Proof.
  intros s y s' H. unfold xtouch in H.
  apply bind_Some_inv in H as (reg & s1 & Hg & H). apply get_xreg_Some in Hg as (? & Hg & [= -> ->]).
  unfold put_xreg in H. inv_run. intros y. unfold const_of, xregs in *. cbn.
  destruct (decide (y = u)) as [->|Hne].
  - rewrite list_lookup_insert_eq by (by eapply lookup_lt_Some). by rewrite Hg.
  - by rewrite list_lookup_insert_ne.
Qed.

Lemma write_x86Instruction_const p i : respects const_same (write_x86Instruction p i).
Proof. by intros s y s' [= _ <-] x. Qed.

Lemma next_x86Instruction_const : respects const_same next_x86Instruction.
Proof. by intros s y s' [= _ <-] x. Qed.

Lemma alloc_new_register_const : respects const_same alloc_new_register.
Proof.
  intros s y s'. unfold alloc_new_register, alloc_x86Register, memoryPoolAlloc, put_xreg. run_m.
  destruct (_ <=? _); [|done]. intros [= <- <-] x. unfold const_of, xregs. cbn.
  rewrite insert_snoc. destruct (decide (x < length (buffer (x_registerPool s)))%nat).
  - by rewrite lookup_app_l.
  - rewrite lookup_app_r by lia. rewrite (lookup_ge_None_2 (buffer (x_registerPool s)) x) by lia.
    destruct (x - _)%nat as [|k]; [done|]. by destruct k.
Qed.

Lemma modify_ir_const f : respects const_same (modify_state (with_ir f)).
Proof. by intros s y s' [= _ <-] x. Qed.
End const_same.

Create HintDb respects_const.
#[export] Hint Resolve alloc_x86Instruction_const xtouch_const write_x86Instruction_const
  next_x86Instruction_const alloc_new_register_const modify_ir_const : respects_const.

Ltac const_tac :=
  repeat first
    [ solve [eauto with respects respects_const typeclass_instances]
    | apply respects_bind; [apply _| |intros ?]
    | match goal with |- respects _ (match ?x with _ => _ end) => destruct x end ].

Section const_ok.
Lemma allocateRegister_const o : respects const_same (allocateRegister o).
Proof. unfold allocateRegister, get_irreg. const_tac. Qed.

Lemma xtouch_list_const l : respects const_same (xtouch_list l).
Proof. induction l; cbn [xtouch_list]; const_tac. Qed.

(** One instruction more, that is not a constant move. *)
Lemma keeps_const_emits s s' insn :
  const_same s s' -> emits s s' insn -> (forall x v, insn <> X86_MOV_CONST x v) ->
  (forall x p, insn = X86_EXIT x p true -> const_of s x = true) -> keeps_const s s'.
Proof.
  intros Hle He Hn Hx [Hr Hp]. pose proof (em_insns _ _ _ _ He) as Hi.
  assert (Hold : forall x, (exists v, X86_MOV_CONST x v ∈ xinsns s) ->
                           exists v, X86_MOV_CONST x v ∈ xinsns s').
  { intros x [v Hv]. exists v. rewrite Hi. apply elem_of_app. by left. }
  constructor.
  - intros x. rewrite Hle, Hr. split; [apply Hold|]. intros [v Hv]. exists v.
    rewrite Hi, elem_of_app, list_elem_of_singleton in Hv. destruct Hv as [Hv|Hv]; [done|].
    by destruct (Hn x v).
  - intros x p H. rewrite Hi, elem_of_app in H. destruct H as [H|H].
    + by eapply Hold, Hp.
    + apply list_elem_of_singleton in H. by eapply Hold, Hr, Hx.
Qed.

Lemma keeps_const_same s s' :
  const_same s s' -> xinsns s' = xinsns s -> keeps_const s s'.
Proof.
  intros Hle Hi [Hr Hp]. constructor; rewrite Hi; [|done]. intros x. by rewrite Hle, Hr.
Qed.

Lemma allocateRegister_keeps o : respects keeps_const (allocateRegister o).
Proof.
  intros s x s' H. apply keeps_const_same; [by eapply allocateRegister_const|].
  destruct o as [r|]; cbn [allocateRegister] in H.
  - unfold get_irreg in H. inv_run. match goal with H : context [backend ?y] |- _ => destruct (backend y) end.
    + by inv_run.
    + inv_run. match goal with H : alloc_new_register _ = _ |- _ =>
        apply alloc_new_register_allocs in H as [_ H]; exact (al_insns _ _ _ _ H) end.
  - apply alloc_new_register_allocs in H as [_ H]. exact (al_insns _ _ _ _ H).
Qed.

Lemma add_mov_const_marks d v s s' :
  add_mov_const d v s = Some (tt, s') ->
  forall x, const_of s' x = if decide (x = d) then true else const_of s x.
Proof.
  intros H x. unfold add_mov_const in H.
  apply bind_Some_inv in H as (p & s1 & H1%alloc_x86Instruction_const & H).
  apply bind_Some_inv in H as (reg & s2 & Hg & H).
  apply get_xreg_Some in Hg as (? & Hg & [= -> ->]).
  apply bind_Some_inv in H as ([] & s3 & Hput & H). injection Hput as <-.
  injection H as <-. rewrite <- (H1 x). unfold const_of, xregs in *. cbn. case_decide as Ed.
  - subst x. by rewrite list_lookup_insert_eq by (by eapply lookup_lt_Some).
  - by rewrite list_lookup_insert_ne.
Qed.

Lemma add_mov_const_keeps d v : respects keeps_const (add_mov_const d v).
Proof.
  intros s [] s' H. pose proof (em_insns _ _ _ _ (add_mov_const_emitted _ _ _ _ H)) as Hi.
  pose proof (add_mov_const_marks _ _ _ _ H) as Hc. intros [Hr Hp]. constructor.
  - intros x. rewrite Hc, Hi. case_decide as Ed.
    + subst x. split; [|done]. intros _. exists v. apply elem_of_app. right. by apply list_elem_of_singleton.
    + rewrite Hr. apply exist_proper. intros w. rewrite elem_of_app, list_elem_of_singleton. naive_solver.
  - intros x p H0. rewrite Hi, elem_of_app in H0.
    destruct H0 as [H0|H0%list_elem_of_singleton]; [|done]. destruct (Hp _ _ H0) as [w Hw]. exists w.
    rewrite Hi. apply elem_of_app. by left.
Qed.

(** An exit is patchable when its value is marked constant. *)
Lemma add_exit_spec v o s s' :
  add_exit v o s = Some (tt, s') -> const_same s s' /\ emits s s' (X86_EXIT v o (const_of s v)).
Proof.
  intros H. unfold add_exit in H.
  apply bind_Some_inv in H as (p & s1 & H1 & H). pose proof (alloc_x86Instruction_const _ _ _ H1) as C1.
  apply alloc_x86Instruction_staged in H1.
  apply bind_Some_inv in H as ([] & s2 & H2 & H). pose proof (xtouch_const _ _ _ _ H2) as C2.
  eapply xtouch_staged in H2 as (_ & ? & [= <-] & H2); [|exact H1].
  apply bind_Some_inv in H as ([] & s3 & H3 & H). pose proof (xtouch_list_const _ _ _ _ H3) as C3.
  eapply xtouch_list_staged in H3 as (? & [= <-] & H3); [|exact H2].
  apply bind_Some_inv in H as (reg & s4 & Hg & H). apply get_xreg_Some in Hg as (reg0 & Hg & [= -> ->]).
  assert (C : const_same s s3) by (transitivity s1; [done|]; transitivity s2; done).
  split.
  { transitivity s3; [done|]. injection H as <-. by intros y. }
  eapply write_next_emitted in H as (? & [= <-] & H); [|exact H3].
  assert (x_isConstant reg0 = const_of s v) as <- by (rewrite <- C; unfold const_of; by rewrite Hg).
  eapply emitted_uses; [exact H|]. intros y. cbn [x86_uses].
  rewrite elem_of_app, (list_elem_of_In (rev _) y), <- in_rev, <- list_elem_of_In.
  rewrite ?elem_of_cons, ?elem_of_nil. tauto.
Qed.

Lemma add_exit_keeps v o : respects keeps_const (add_exit v o).
Proof.
  intros s [] s' [Hle He]%add_exit_spec. apply (keeps_const_emits s s' _ Hle He); [done|].
  by intros x p [= -> _ ?].
Qed.
End const_ok.

#[export] Hint Resolve allocateRegister_keeps add_mov_const_keeps add_exit_keeps : respects.

(** The other functions append an instruction and touch registers. *)
Section keeps.
Lemma add_keeps (m : stM inter unit) :
  respects const_same m ->
  (forall s s', m s = Some (tt, s') ->
     exists insn, emits s s' insn /\ (forall x v, insn <> X86_MOV_CONST x v) /\
       (forall x p, insn <> X86_EXIT x p true)) ->
  respects keeps_const m.
Proof.
  intros Hle He s [] s' H. destruct (He s s' H) as (insn & Hi & Hm & Hn).
  apply (keeps_const_emits s s' insn); [by eapply Hle|done|done|]. intros x p ->. by destruct (Hn x p).
Qed.

Lemma add_load_keeps w d a : respects keeps_const (add_load w d a).
Proof.
  apply add_keeps; [unfold add_load; const_tac|].
  intros s s' H%add_load_emitted. by eexists.
Qed.

Lemma add_store_keeps w v a : respects keeps_const (add_store w v a).
Proof.
  apply add_keeps; [unfold add_store; const_tac|]. intros s s' H%add_store_emitted. by eexists.
Qed.

Lemma add_binop_keeps w k d p q : respects keeps_const (add_binop w k d p q).
Proof.
  apply add_keeps; [unfold add_binop; const_tac|]. intros s s' H%add_binop_emitted. by eexists.
Qed.

Lemma add_ite_keeps d p t f : respects keeps_const (add_ite d p t f).
Proof.
  apply add_keeps; [unfold add_ite; const_tac|]. intros s s' H%add_ite_emitted. by eexists.
Qed.

Lemma add_cast_keeps t d o : respects keeps_const (add_cast t d o).
Proof.
  apply add_keeps; [unfold add_cast; const_tac|]. intros s s' H%add_cast_emitted. by eexists.
Qed.

Lemma add_call_keeps a ps r : respects keeps_const (add_call a ps r).
Proof.
  apply add_keeps; [|intros s s' H%add_call_emitted; by eexists].
  unfold add_call. pose proof xtouch_list_const. const_tac.
Qed.

Lemma add_read_keeps w d off : respects keeps_const (add_read w d off).
Proof.
  apply add_keeps; [unfold add_read; const_tac|]. intros s s' H%add_read_emitted. by eexists.
Qed.

Lemma add_write_keeps w v off : respects keeps_const (add_write w v off).
Proof.
  apply add_keeps; [unfold add_write; const_tac|]. intros s s' H%add_write_emitted. by eexists.
Qed.

Lemma add_marker_keeps v : respects keeps_const (add_insn_start_marker v).
Proof.
  apply add_keeps; [unfold add_insn_start_marker; const_tac|].
  intros s s' H%add_marker_emitted. by eexists.
Qed.
End keeps.

#[export] Hint Resolve add_load_keeps add_store_keeps add_binop_keeps add_ite_keeps add_cast_keeps
  add_call_keeps add_read_keeps add_write_keeps add_marker_keeps : respects.

Section pass.
Lemma allocate_params_keeps ps : respects keeps_const (allocate_params ps).
Proof. induction ps as [|[p|] ps IH]; cbn [allocate_params]; const_tac. Qed.

Lemma allocateInstruction_keeps i : respects keeps_const (allocateInstruction i).
Proof.
  pose proof allocate_params_keeps.
  destruct i as [| | |[[] w] ? ? ?|? ? ? []| | |? []| | |]; cbn [allocateInstruction];
    unfold allocate_asr, get_irreg; const_tac.
Qed.

Lemma allocateInstructions_keeps l : respects keeps_const (allocateInstructions l).
Proof. pose proof allocateInstruction_keeps. induction l; cbn [allocateInstructions]; const_tac. Qed.

(** From a state just reset. *)
Lemma allocateInstructions_const_ok l s s' :
  allocateInstructions l s = Some (tt, s') -> xregs s = [] -> xinsns s = [] -> const_ok s'.
Proof.
  intros H Hr Hi. eapply allocateInstructions_keeps; [exact H|]. constructor.
  - intros x. unfold const_of. rewrite Hr, Hi. split; [done|]. by intros [v ?%elem_of_nil].
  - intros x p. rewrite Hi. by intros ?%elem_of_nil.
Qed.
End pass.

(** ** Which exits are patchable *)

(** The registers of the IR a move of a constant writes. *)
Definition const_defs (i : irInstruction) : list nat :=
  match i with IR_MOV_CONST _ d _ => [d] | _ => [] end.

(** Whether a run of the IR leaves by an exit whose value is a register that a
    move of a constant wrote, one of [C] or of the instructions run. *)
Section exit_is_constant.
Context (ir_call : option irRegisterType -> Z -> Z -> list (option (irRegisterType * Z)) -> mem -> option (mem * Z)).
Context (ctx : Z).
Fixpoint exit_is_constant (C : list nat) (l : list irInstruction) (ρ : irEnv) (m : mem) : bool :=
  match l with
  | [] => false
  | i :: l =>
      match ir_step ir_call ctx i ρ m with
      | Some (IrNext ρ' m') => exit_is_constant (const_defs i ++ C) l ρ' m'
      | Some (IrExit _ _) => match i with IR_EXIT v _ => bool_decide (v ∈ C) | _ => false end
      | None => false
      end
  end.

(** Only exits leave the block. *)
Lemma ir_step_exit i ρ m v m' : ir_step ir_call ctx i ρ m = Some (IrExit v m') -> exists x p, i = IR_EXIT x p.
Proof.
  unfold ir_step, def_next. intros H.
  destruct i as [| | | | | | |x [p|]| | |]; [| | | | | | |by exists x, (Some p)|by exists x, None| | |]; exfalso;
    repeat first
      [ discriminate H
      | apply bind_Some in H as (? & ? & H)
      | match type of H with context [match ?x with _ => _ end] => destruct x end ].
Qed.
End exit_is_constant.

(** The registers marked constant are those of [C]. *)
Record const_inv (D C : list nat) (s : inter) : Prop := mkConstInv {
  ci_ok : const_ok s;
  ci_sub : forall r, r ∈ C -> r ∈ D;
  ci_beta : forall r x, beta s r = Some x -> const_of s x = bool_decide (r ∈ C)
}.

Lemma chunk_const f n b i x v :
  X86_MOV_CONST x v ∈ x_chunk f n b i -> (x = n /\ exists w d, i = IR_MOV_CONST w d v) \/ (n < x)%nat.
Proof.
  destruct i as [w d c| | |[[] w] ? ? ?| | |? []| | | |]; cbn [x_chunk]; try destruct (_ =? 0);
    rewrite ?elem_of_cons, ?elem_of_nil; naive_solver lia.
Qed.

(** What the pass makes of one instruction. *)
Section const_step.
Context (D C : list nat) (i : irInstruction) (s s' : inter).
Hypothesis Hrun : allocateInstruction i s = Some (tt, s').
Hypothesis Hsel : selects D i s s'.
Hypothesis Hx : xinv s.
Hypothesis Hc : const_inv D C s.
Hypothesis Hdef : forall d, ir_def i = Some d -> d ∉ D.

Lemma const_step : const_inv (option_list (ir_def i) ++ D) (const_defs i ++ C) s'.
Proof.
  pose proof Hc as [Hok Hsub Hb]. destruct Hsel as [[b Hi] _ _ _ Hbeta _].
  pose proof (allocateInstruction_keeps i s tt s' Hrun Hok) as Hok'.
  constructor; [done| |].
  { intros r. rewrite !elem_of_app. intros [Hr|Hr]; [left|right; by apply Hsub].
    destruct i; [exact Hr|..]; by apply elem_of_nil in Hr. }
  assert (Hmark : forall x, const_of s' x = true <->
    const_of s x = true \/ dropped s i = false /\ exists v, X86_MOV_CONST x v ∈ x_chunk (bt s) (length (xregs s)) b i).
  { intros x. rewrite (co_reg _ Hok'), (co_reg _ Hok), Hi. destruct (dropped s i).
    - rewrite app_nil_r. naive_solver.
    - setoid_rewrite elem_of_app. naive_solver. }
  assert (Hnew : const_of s (length (xregs s)) = false)
    by (unfold const_of; by rewrite lookup_ge_None_2 by lia).
  intros r x. rewrite Hbeta. intros Hbr. apply eq_true_iff_eq. rewrite bool_decide_eq_true, elem_of_app, Hmark.
  destruct (decide (ir_def i = Some r /\ dropped s i = false)) as [[Hd Hdr]|Hd]; revert Hbr.
  - intros Hn. injection Hn as <-. rewrite Hnew.
    assert (Hr : r ∉ C) by (intros ?%Hsub; by destruct (Hdef r Hd)).
    split.
    + intros [?|[_ [v [[_ (w & d & ->)]|?]%chunk_const]]]; [done| |lia]. left. injection Hd as ->. apply list_elem_of_here.
    + intros [Hin|?]; [|done]. right. split; [done|]. destruct i; try by apply elem_of_nil in Hin.
      eexists. apply list_elem_of_here.
  - intros Hbr. rewrite (Hb _ _ Hbr), bool_decide_eq_true. pose proof (xi_beta _ Hx _ _ Hbr). split.
    + intros [?|[_ [v [[-> _]|?]%chunk_const]]]; [by right|lia|lia].
    + intros [Hin|?]; [|by left]. destruct i; try by apply elem_of_nil in Hin.
      apply list_elem_of_singleton in Hin as ->. by destruct Hd.
Qed.
End const_step.

Lemma exit_flag v p s s' x o b :
  allocateInstruction (IR_EXIT v p) s = Some (tt, s') ->
  xinsns s' = xinsns s ++ [X86_EXIT x o b] -> b = const_of s x.
Proof.
  intros H Hi.
  assert (exists s1 y o', const_same s s1 /\ add_exit y o' s1 = Some (tt, s')) as (s1 & y & o' & C & H').
  { destruct p as [p|]; cbn [allocateInstruction] in H;
      apply bind_Some_inv in H as (y & s1 & C1%allocateRegister_const & H).
    - apply bind_Some_inv in H as (y' & s2 & C2%allocateRegister_const & H).
      exists s2, y, (Some y'). split; [by transitivity s1|done].
    - by exists s1, y, None. }
  apply add_exit_spec in H' as [_ He%em_insns]. rewrite He in Hi.
  apply app_inj_tail in Hi as [_ [= -> _ <-]]. apply C.
Qed.

(** ** The value of a patchable exit *)

Fixpoint find_const (x : nat) (l : list (x86Instruction nat)) : option Z :=
  match l with
  | [] => None
  | i :: l =>
      match i with
      | X86_MOV_CONST y v => if decide (x = y) then Some (wrap 64 v) else find_const x l
      | _ => find_const x l
      end
  end.

(** What instruction [n] exits with, when it is an exit with a constant. *)
Definition exit_const (l : list (x86Instruction nat)) (n : nat) : Z :=
  match l !! n with
  | Some (X86_EXIT x _ _) => default 0 (find_const x l)
  | _ => 0
  end.

Lemma find_const_elem x v l : X86_MOV_CONST x v ∈ l -> is_Some (find_const x l).
Proof.
  induction l as [|i l IH]; intros H; [by apply elem_of_nil in H|].
  apply elem_of_cons in H as [<-|H%IH]; cbn [find_const]; [by rewrite decide_True|].
  destruct i; try done. by case_decide.
Qed.

Lemma find_const_live last live i l x : xwf last live i l -> x ∈ live -> find_const x l = None.
Proof.
  revert live i. induction l as [|a l IH]; intros live i Hwf Hx; [done|].
  destruct Hwf as (_ & Hd & Hwf). assert (Hl : find_const x l = None).
  { eapply IH; [exact Hwf|]. apply elem_of_app. by right. }
  destruct a as [y c| | | | | | | | | |]; try exact Hl. cbn [find_const].
  rewrite decide_False; [done|]. intros ->. by destruct (Hd y eq_refl).
Qed.

Section xrun.
Context (xcall : Z -> Z -> list (option Z) -> mem -> option (mem * Z)) (ctx : Z).

(** The register [x], if it is live, or once it is written, holds [w]. *)
Lemma xrun_const last live i l x p n w old ρ m v b m' :
  xwf last live i l -> l !! n = Some (X86_EXIT x p b) ->
  (x ∈ live -> ρ x = w) -> (x ∉ live -> find_const x l = Some w) ->
  xrun xcall ctx old ρ m l = Some (n, v, b, m') -> v = w.
Proof.
  revert live i n old ρ m. induction l as [|a l IH]; intros live i n old ρ m Hwf Hn Hl Hc H; [done|].
  destruct Hwf as (Hu & Hd & Hwf). destruct n as [|n].
  - injection Hn as ->. cbn [xrun xeval] in H.
    assert (Hx : ρ x = w) by (apply Hl; apply Hu; apply list_elem_of_here).
    destruct p as [p|]; [destruct (ρ p =? 0); [by destruct (xrun _ _ _ _ _ _) as [[[[]]]|]|]|];
      injection H as <- _; done.
  - cbn [xrun] in H. destruct (xeval _ _ _ _ _ a) as [v1 m1|v1 b1 m1|] eqn:E; [|done|done].
    destruct (xrun _ _ _ _ m1 l) as [[[[k v2] b2] m2]|] eqn:E2; [|done].
    injection H as <- -> -> ->. eapply (IH _ _ _ _ _ _ Hwf Hn); [| |exact E2].
    + intros [Hx|Hx]%elem_of_app.
      * destruct (x86_def a) as [d|] eqn:Ed; cbn in Hx; [|by apply elem_of_nil in Hx].
        apply list_elem_of_singleton in Hx as <-. specialize (Hc (Hd x eq_refl)).
        destruct v1 as [v1|]; [|by destruct (xeval_def _ _ _ _ _ _ x _ E)]. cbn [set_val].
        rewrite decide_True by done.
        pose proof (find_const_live _ _ _ _ x Hwf (list_elem_of_here _ _)) as Hl0.
        destruct a as [y c| | | | | | | | | |]; try (cbn [find_const] in Hc; congruence).
        cbn in Ed, Hc. injection Ed as ->. rewrite decide_True in Hc by done. injection Hc as <-.
        by injection E as <-.
      * rewrite <- (Hl Hx). destruct (x86_def a) as [d|], v1; cbn [set_val]; try done.
        case_decide as Ex; [|done]. subst d. by destruct (Hd x eq_refl).
    + intros [Hx1 Hx2]%not_elem_of_app. specialize (Hc Hx2). cbn [find_const] in Hc.
      destruct a; try done. cbn in Hx1. case_decide; [|done]. subst. by destruct Hx1; apply list_elem_of_here.
Qed.
End xrun.
