(* ===== verification/X86Sim.v ===== *)
(** * Instruction selection preserves the meaning of the IR

    An IR register of [w] bits lives in a 64-bit register whose low [w] bits
    are its value.  The upper bits are zero except after the operations that
    leave stale ones ([dirty_def]); [clean_ok] is the static check that no
    operator sensitive to them ([needs_clean]) is handed such a register.
    Under it the selected instructions compute what the IR says. *)

From S2P Require Import Prelude Ir Jitter BeX86 BeGen X86Sem X86Exec X86Correct X86Alloc X86Select.

(** Shifting up and back arithmetically extends the sign. *)
Lemma sar_shl n a :
  0 < n < 64 ->
  shift_sem SARop IR_REG_64 (shift_sem SHLop IR_REG_64 a n) n = wrap 64 (to_signed (64 - n) a).
Proof.
  intros Hn. unfold shift_sem. change (bits IR_REG_64) with 64.
  apply Z.bits_inj'. intros i Hi. rewrite !testbit_wrap by lia. destruct (Z.ltb_spec i 64); [|done].
  cbn [andb]. rewrite Z.shiftr_spec by lia. rewrite !testbit_to_signed by lia.
  rewrite testbit_wrap by lia. rewrite Z.shiftl_spec by lia.
  destruct (Z.ltb_spec (Z.min (i + n) (64 - 1)) 64); [|lia]. cbn [andb]. f_equal. lia.
Qed.

(** ** Which registers may have stale upper bits *)

(** Whether helpers leave zeros above a result of 32 bits, as compiled code that
    ends in an operation of 32 bits does; the calling convention does not say. *)
Class CallResults := { zero_extends : bool }.

(** The result of [i] may differ from its value above its width, [U] being
    the registers for which this is so already. *)
Definition dirty_def `{CallResults} (U : list nat) (i : irInstruction) : bool :=
  match i with
  | IR_MOV_CONST w _ v => negb (wrap (bits w) v =? wrap 64 v)
  | IR_LOAD w _ _ | IR_READ w _ _ => bits w <? 32
  | IR_ITE _ _ _ t f => bool_decide (t ∈ U) || bool_decide (f ∈ U)
  | IR_CAST t _ _ => cast_signed t && (bits (cast_dst t) <? 64)
  | IR_CALL (Some w) _ _ _ => bits w <? (if zero_extends then 32 else 64)
  | _ => false
  end.

(** The operands that an instruction uses over all 64 bits. *)
Definition needs_clean (i : irInstruction) : list nat :=
  match i with
  | IR_BINOP (IR_BINOP_ SHR _) _ p _ => [p]
  | IR_BINOP (IR_BINOP_ CMPEQ _) _ p q | IR_BINOP (IR_BINOP_ CMPNE _) _ p q => [p; q]
  | IR_ITE _ _ p _ _ => [p]
  | IR_EXIT _ (Some p) => [p]
  | _ => []
  end.

Definition step_dirty `{CallResults} (U : list nat) (i : irInstruction) : list nat :=
  if dirty_def U i then option_list (ir_def i) ++ U else U.

Definition insn_clean (U : list nat) (i : irInstruction) : bool :=
  forallb (fun r => bool_decide (r ∉ U)) (needs_clean i) &&
  match i with IR_CALL _ _ ps _ => (length ps <=? 4)%nat | _ => true end.

Fixpoint clean_ok `{CallResults} (U : list nat) (l : list irInstruction) : bool :=
  match l with
  | [] => true
  | i :: l => insn_clean U i && clean_ok (step_dirty U i) l
  end.

(** The 64-bit register [x] holds the value [v] of type [t]. *)
Record holds (t : irRegisterType) (dirty : bool) (v x : Z) : Prop := mkHolds {
  ho_range : 0 <= x < 2 ^ 64;
  ho_low : wrap (bits t) x = v;
  ho_clean : dirty = false -> x = v
}.

Lemma holds_value t dirty v x : holds t dirty v x -> 0 <= v < 2 ^ bits t.
Proof. intros [_ <- _]. apply wrap_range. pose proof (bits_pos t). lia. Qed.

Lemma holds_64 dirty v x : holds IR_REG_64 dirty v x -> x = v.
Proof. intros [Hr <- _]. symmetry. by apply (wrap_small 64). Qed.

Lemma holds_clean t v : 0 <= v < 2 ^ bits t -> holds t false v v.
Proof.
  intros H. constructor; [|by apply wrap_small|done].
  assert (2 ^ bits t <= 2 ^ 64) by (by destruct t). lia.
Qed.

Lemma holds_weaken t b v x : holds t false v x -> holds t b v x.
Proof. intros [? ? H]. constructor; try done. intros _. by apply H. Qed.

(** *** Loads *)
Lemma holds_load w old v :
  0 <= old < 2 ^ 64 -> 0 <= v < 2 ^ bits w -> holds w (bits w <? 32) v (merge w old v).
Proof.
  intros Ho Hv. constructor.
  - by apply merge_range.
  - destruct w; cbn [merge bits] in *; try (by apply wrap_small).
    + unfold wrap. rewrite Z.add_mod, Zminus_mod_idemp_r, Z.sub_diag by lia.
      rewrite Z.mod_0_l, Z.add_0_l, Z.mod_mod by lia. by apply Z.mod_small.
    + unfold wrap. rewrite Z.add_mod, Zminus_mod_idemp_r, Z.sub_diag by lia.
      rewrite Z.mod_0_l, Z.add_0_l, Z.mod_mod by lia. by apply Z.mod_small.
  - by destruct w.
Qed.

Lemma wrap_merge w old v : wrap (bits w) (merge w old v) = wrap (bits w) v.
Proof.
  destruct w; cbn [merge bits]; try done; unfold wrap;
    rewrite Z.add_mod, Zminus_mod_idemp_r, Z.sub_diag by lia;
    rewrite Z.mod_0_l, Z.add_0_l, Z.mod_mod by lia; done.
Qed.

(** *** Binary operators *)

Lemma low_wrap w x v : wrap (bits w) x = v -> v = wrap (bits w) v.
Proof. intros <-. rewrite wrap_idem; [done|]. pose proof (bits_pos w). lia. Qed.

Lemma wrap_wrap64 w x : wrap (bits w) (wrap 64 x) = wrap (bits w) x.
Proof. apply wrap_wrap. pose proof (bits_pos w). pose proof (bits_le_64 w). lia. Qed.

(** The count in cl: only its low bits matter. *)
Lemma shift_amount w b y :
  wrap 8 y = b -> b < bits w ->
  shift_count w y = b /\ shift_count IR_REG_64 y = b.
Proof.
  intros Hy Hb.
  assert (Hb0 : 0 <= b) by (rewrite <- Hy; by apply wrap_range).
  assert (H63 : Z.land y 63 = b \/ 64 <= b).
  { destruct (Z_lt_le_dec b 64); [left|by right]. change 63 with (Z.ones 6).
    rewrite (wrap_land_ones 6) by lia. rewrite <- (wrap_wrap 6 8) by lia. rewrite Hy.
    apply wrap_small. lia. }
  assert (H31 : Z.land y 31 = b \/ 32 <= b).
  { destruct (Z_lt_le_dec b 32); [left|by right]. change 31 with (Z.ones 5).
    rewrite (wrap_land_ones 5) by lia. rewrite <- (wrap_wrap 5 8) by lia. rewrite Hy.
    apply wrap_small. lia. }
  pose proof (bits_le_64 w). unfold shift_count. rewrite (decide_True (P := IR_REG_64 = _)) by done.
  destruct w; cbn [bits] in *; destruct (decide _); try done; lia.
Qed.

Lemma holds_masked w v x : v = wrap (bits w) x -> holds w false v (wrap (bits w) x).
Proof. intros ->. apply holds_clean. apply wrap_range. pose proof (bits_pos w). lia. Qed.

Lemma holds_binop w k dp dq vp vq p q v :
  k <> ASR -> holds w dp vp p -> holds (op2_type k w) dq vq q ->
  (k = SHR -> dp = false) -> (is_cmp k = true -> dp = false /\ dq = false) ->
  irBinop_sem k w vp vq = Some v -> holds w false v (xbinop w k p q).
Proof.
  intros Hk Hp Hq Hshr Hcmp Hv. apply holds_masked.
  pose proof (bits_pos w) as Hb0. pose proof (bits_le_64 w) as Hb64.
  pose proof (holds_value _ _ _ _ Hp) as Rp. pose proof (holds_value _ _ _ _ Hq) as Rq.
  destruct Hp as [Xp Lp Cp], Hq as [Xq Lq Cq].
  destruct k; cbn [op2_type irBinop_sem xbinop64 bits] in *; try congruence.
  - injection Hv as <-. rewrite wrap_wrap64, (wrap_add _ p q), Lp, Lq. done.
  - injection Hv as <-. rewrite wrap_wrap64, (wrap_sub _ p q), Lp, Lq. done.
  - injection Hv as <-. rewrite (wrap_lxor (bits w) ltac:(lia) p q), Lp, Lq.
    symmetry. apply wrap_small. apply lxor_range; lia.
  - injection Hv as <-. rewrite (wrap_land (bits w) ltac:(lia) p q), Lp, Lq.
    symmetry. apply wrap_small. apply land_range; lia.
  - injection Hv as <-. rewrite (wrap_lor (bits w) ltac:(lia) p q), Lp, Lq.
    symmetry. apply wrap_small. apply lor_range; lia.
  - destruct (Z.ltb_spec vq (bits w)) as [Hlt|]; [|done]. injection Hv as <-.
    destruct (shift_amount w vq q Lq Hlt) as [_ ->]. cbn [shift_sem].
    change (bits IR_REG_64) with 64. rewrite wrap_wrap64.
    rewrite (wrap_shiftl _ p) by lia. by rewrite Lp.
  - destruct (Z.ltb_spec vq (bits w)) as [Hlt|]; [|done]. injection Hv as <-.
    destruct (shift_amount w vq q Lq Hlt) as [_ ->]. cbn [shift_sem].
    rewrite (Cp (Hshr eq_refl)). symmetry. apply wrap_small. apply shiftr_range; lia.
  - destruct (Z.ltb_spec vq (bits w)) as [Hlt|]; [|done]. injection Hv as <-.
    destruct (shift_amount w vq q Lq Hlt) as [-> _]. cbn [shift_sem].
    rewrite wrap_merge, Lp, wrap_idem by lia. by rewrite (Z.mod_small vq) by lia.
  - injection Hv as <-. destruct (Hcmp eq_refl) as [H1 H2]. rewrite (Cp H1), (Cq H2).
    destruct (vp =? vq); by destruct w.
  - injection Hv as <-. destruct (Hcmp eq_refl) as [H1 H2]. rewrite (Cp H1), (Cq H2).
    destruct (vp =? vq); by destruct w.
Qed.

(** *** Arithmetic shift right *)
Lemma holds_asr_extended w dq vp vq q v :
  holds IR_REG_8 dq vq q -> irBinop_sem ASR w vp vq = Some v ->
  holds w false v (xbinop w ASR (wrap 64 (to_signed (bits w) vp)) q).
Proof.
  intros Hq Hv. apply holds_masked. pose proof (bits_pos w) as Hb0. pose proof (bits_le_64 w) as Hb64.
  pose proof (holds_value _ _ _ _ Hq) as Rq. destruct Hq as [Xq Lq _].
  cbn [irBinop_sem bits] in *. destruct (Z.ltb_spec vq (bits w)) as [Hlt|]; [|done].
  injection Hv as <-. cbn [xbinop64]. destruct (shift_amount w vq q Lq Hlt) as [_ ->].
  cbn [shift_sem]. change (bits IR_REG_64) with 64. rewrite wrap_wrap64.
  assert (- 2 ^ 63 <= to_signed (bits w) vp < 2 ^ 63).
  { pose proof (to_signed_range (bits w) ltac:(lia) vp Hb0).
    assert (2 ^ (bits w - 1) <= 2 ^ 63) by (apply Z.pow_le_mono_r; lia). lia. }
  by rewrite (to_signed_eq 64) by lia.
Qed.

(** The operand of the shift, as the first pass makes it. *)
Lemma asr_operand w p :
  0 <= p < 2 ^ 64 ->
  (if asr_goto_p0 w =? 0 then p
   else xbinop IR_REG_64 ASR (xbinop IR_REG_64 SHL p (asr_goto_p0 w)) (asr_goto_p0 w)) =
  wrap 64 (to_signed (bits w) p).
Proof.
  intros Xp. destruct (Z.eqb_spec (asr_goto_p0 w) 0) as [E|E].
  - destruct w; try discriminate E. change (bits IR_REG_64) with 64.
    assert (Hs : wrap 64 (to_signed 64 p) = wrap 64 p).
    { apply Z.bits_inj'. intros i Hi. rewrite !testbit_wrap by lia.
      destruct (Z.ltb_spec i 64); [|done]. rewrite testbit_to_signed by lia.
      by rewrite Z.min_l by lia. }
    by rewrite Hs, wrap64_small.
  - assert (Hg : 0 < asr_goto_p0 w < 64 /\ bits w = 64 - asr_goto_p0 w) by (by destruct w).
    destruct Hg as [Hg ->]. rewrite <- sar_shl by done. unfold xbinop. cbn [xbinop64].
    change (bits IR_REG_64) with 64.
    assert (Hc : shift_count IR_REG_64 (asr_goto_p0 w) = asr_goto_p0 w) by (by destruct w).
    rewrite Hc.
    pose proof (shift_sem_range SHLop IR_REG_64 p (asr_goto_p0 w) ltac:(lia) Xp) as R1.
    rewrite (wrap64_small _ R1).
    apply wrap64_small. by apply (shift_sem_range SARop IR_REG_64); [lia|].
Qed.

Lemma holds_asr w dp dq vp vq p q v :
  holds w dp vp p -> holds IR_REG_8 dq vq q -> irBinop_sem ASR w vp vq = Some v ->
  holds w false v
    (xbinop w ASR
       (if asr_goto_p0 w =? 0 then p
        else xbinop IR_REG_64 ASR (xbinop IR_REG_64 SHL p (asr_goto_p0 w)) (asr_goto_p0 w)) q).
Proof.
  intros [Xp Lp _] Hq Hv. rewrite asr_operand by done. pose proof (bits_pos w) as Hb0. pose proof (bits_le_64 w).
  rewrite <- (to_signed_wrap (bits w) ltac:(lia) p), Lp. by eapply holds_asr_extended.
Qed.

(** *** Casts *)
Lemma holds_cast t d v x :
  holds (cast_src t) d v x ->
  holds (cast_dst t) (cast_signed t && (bits (cast_dst t) <? 64)) (irCast_sem t v) (xcast t x).
Proof.
  intros Hx. pose proof (holds_value _ _ _ _ Hx) as Rv. destruct Hx as [Xx Lx _].
  pose proof (bits_pos (cast_src t)) as Hs0. pose proof (bits_le_64 (cast_src t)) as Hs64.
  unfold irCast_sem, xcast. destruct (cast_signed t) eqn:E; cbn [andb].
  - assert (Hn : 0 < 64 - bits (cast_src t) < 64) by (by destruct t).
    rewrite sar_shl by done.
    replace (64 - (64 - bits (cast_src t))) with (bits (cast_src t)) by lia.
    rewrite <- (to_signed_wrap (bits (cast_src t)) ltac:(lia) x), Lx. constructor.
    + by apply wrap_range.
    + apply wrap_wrap64.
    + by destruct t.
  - rewrite <- Lx. apply holds_weaken. assert (Hm : wrap (bits (cast_dst t)) (wrap (bits (cast_src t)) x) =
      wrap (Z.min (bits (cast_src t)) (bits (cast_dst t))) x).
    { destruct (Z.leb_spec (bits (cast_src t)) (bits (cast_dst t))) as [Hle|Hlt].
      - rewrite Z.min_l by done. apply wrap_small. pose proof (wrap_range (bits (cast_src t)) x).
        assert (2 ^ bits (cast_src t) <= 2 ^ bits (cast_dst t)) by (apply Z.pow_le_mono_r; lia). lia.
      - rewrite Z.min_r by lia. apply wrap_wrap. pose proof (bits_pos (cast_dst t)). lia. }
    rewrite <- Hm. apply holds_clean. apply wrap_range. pose proof (bits_pos (cast_dst t)). lia.
Qed.

(** ** One IR instruction *)

(** Arguments of a call: what the IR passes and what the registers hold. *)
Definition arg_match (v : option (irRegisterType * Z)) (x : option Z) : Prop :=
  match v, x with
  | None, None => True
  | Some (t, v), Some x => 0 <= x < 2 ^ 64 /\ wrap (bits t) x = v
  | _, _ => False
  end.

(** The same helper called with IR values and with registers: the same memory
    and, to the width asked for, the same result. *)
Definition helper_law `{CallResults}
    (ir_call : option irRegisterType -> Z -> Z -> list (option (irRegisterType * Z)) -> mem -> option (mem * Z))
    (xcall : Z -> Z -> list (option Z) -> mem -> option (mem * Z)) : Prop :=
  forall w a ctx vs xs m m' v, Forall2 arg_match vs xs -> ir_call w a ctx vs m = Some (m', v) ->
    exists v', xcall a ctx xs m = Some (m', v') /\
      forall t, w = Some t -> wrap (bits t) v' = wrap (bits t) v /\
        (zero_extends = true -> t = IR_REG_32 -> 0 <= v' < 2 ^ 32).

(** The back-end registers hold the values of the IR registers. *)
Definition rel (β : nat -> option nat) (U : list nat) (ρ : irEnv) (ρv : nat -> Z) : Prop :=
  forall r t v x, ρ !! r = Some (t, v) -> β r = Some x ->
    holds t (bool_decide (r ∈ U)) v (ρv x).

Section chunk.
Context `{Hcr : CallResults}.
Context (ir_call : option irRegisterType -> Z -> Z -> list (option (irRegisterType * Z)) ->
                   mem -> option (mem * Z)).
Context (xcall : Z -> Z -> list (option Z) -> mem -> option (mem * Z)).
Hypothesis Hlaw : helper_law ir_call xcall.
Context (ctx : Z).

Context (β : nat -> option nat) (f : nat -> nat) (n : nat) (U : list nat).
Context (i : irInstruction) (ρ : irEnv) (ρv : nat -> Z) (m : mem).
Hypothesis Hrel : rel β U ρ ρv.
Hypothesis Huse : forall r, r ∈ ir_uses i -> β r = Some (f r) /\ (f r < n)%nat.
Hypothesis Hclean : insn_clean U i = true.

Lemma use_holds r t v :
  r ∈ ir_uses i -> ρ !! r = Some (t, v) -> holds t (bool_decide (r ∈ U)) v (ρv (f r)).
Proof. intros [Hb _]%Huse Hr. by eapply Hrel. Qed.

Lemma rd_Some w r v : rd w ρ r = Some v -> ρ !! r = Some (w, v).
Proof. unfold rd. destruct (ρ !! r) as [[t x]|]; cbn; [|done]. case_decide; [by intros [= <-]; subst|done]. Qed.

Lemma use_rd w r v :
  r ∈ ir_uses i -> rd w ρ r = Some v -> holds w (bool_decide (r ∈ U)) v (ρv (f r)).
Proof. intros Hr H%rd_Some. by apply use_holds. Qed.

Lemma clean_use r : r ∈ needs_clean i -> bool_decide (r ∈ U) = false.
Proof.
  intros Hr. unfold insn_clean in Hclean. apply andb_true_iff in Hclean as [H _].
  rewrite forallb_forall in H. apply bool_decide_eq_false.
  apply (bool_decide_eq_true (r ∉ U)). apply H. by apply list_elem_of_In.
Qed.

(** What the chunk has to do for the outcome [o] of the IR instruction. *)
Definition chunk_result (b : bool) (old : nat -> Z) (rest : list (x86Instruction nat))
    (o : irOutcome) : Prop :=
  let l := x_chunk f n b i in
  match o with
  | IrExit v m' => xrun xcall ctx old ρv m (l ++ rest) = Some (0%nat, v, b, m')
  | IrNext ρ' m' =>
      exists ρv',
        xrun xcall ctx old ρv m (l ++ rest) =
          later (length l) (xrun xcall ctx (fun k => old (length l + k)%nat) ρv' m' rest) /\
        (forall x, (x < n)%nat -> ρv' x = ρv x) /\
        match ir_def i with
        | None => ρ' = ρ
        | Some d => exists t v, ρ' = <[d := (t, v)]> ρ /\ holds t (dirty_def U i) v (ρv' n)
        end
  end.

(** The chunk is one instruction that writes [x] to the destination. *)
Lemma result_def b old rest d xi t v x m' :
  ir_def i = Some d -> x_chunk f n b i = [xi] -> x86_def xi = Some n ->
  xeval xcall ctx (old 0%nat) ρv m xi = XNext (Some x) m' ->
  holds t (dirty_def U i) v x ->
  chunk_result b old rest (IrNext (<[d := (t, v)]> ρ) m').
Proof.
  intros Hd Hc Hxd Hx Hv. unfold chunk_result. rewrite Hc, Hd.
  exists (set_val ρv (Some n) (Some x)). cbn [app xrun length]. rewrite Hx, Hxd.
  split; [done|split].
  - intros y Hy. cbn. by rewrite decide_False by lia.
  - exists t, v. split; [done|]. cbn. by rewrite decide_True.
Qed.

Lemma result_nodef b old rest xi m' :
  ir_def i = None -> x_chunk f n b i = [xi] -> x86_def xi = None ->
  xeval xcall ctx (old 0%nat) ρv m xi = XNext None m' ->
  chunk_result b old rest (IrNext ρ m').
Proof.
  intros Hd Hc Hxd Hx. unfold chunk_result. rewrite Hc, Hd. exists ρv.
  cbn [app xrun length]. by rewrite Hx, Hxd.
Qed.
End chunk.

Ltac used := cbn; rewrite ?elem_of_cons, ?elem_of_nil; tauto.

Section chunks.
Context `{Hcr : CallResults}.
Context (ir_call : option irRegisterType -> Z -> Z -> list (option (irRegisterType * Z)) ->
                   mem -> option (mem * Z)).
Context (xcall : Z -> Z -> list (option Z) -> mem -> option (mem * Z)).
Hypothesis Hlaw : helper_law ir_call xcall.
Context (ctx : Z) (β : nat -> option nat) (f : nat -> nat) (n : nat) (U : list nat).
Context (ρ : irEnv) (ρv : nat -> Z) (m : mem).
Hypothesis Hrel : rel β U ρ ρv.
Abbreviation uses_ok i := (forall r, r ∈ ir_uses i -> β r = Some (f r) /\ (f r < n)%nat).

Lemma args_hold i ps vs :
  uses_ok i -> (forall r, r ∈ ps ≫= option_list -> r ∈ ir_uses i) ->
  rd_params ρ ps = Some vs ->
  Forall2 arg_match vs (map (option_map ρv) (map (option_map f) ps)).
Proof.
  intros Hu. revert vs. induction ps as [|[p|] ps IH]; intros vs Hin H; cbn in H.
  - injection H as <-. constructor.
  - destruct (ρ !! p) as [[t v]|] eqn:Ep; [|done]. cbn in H.
    destruct (rd_params ρ ps) as [l|] eqn:El; [|done]. injection H as <-.
    constructor; [|apply IH; [|done]].
    + destruct (use_holds β f n U i ρ ρv Hrel Hu p t v) as [? ? _]; [|done|done].
      apply Hin. cbn. apply list_elem_of_here.
    + intros r Hr. apply Hin. cbn. by apply list_elem_of_further.
  - destruct (rd_params ρ ps) as [l|] eqn:El; [|done]. injection H as <-.
    constructor; [done|]. by apply IH.
Qed.

Lemma call_chunk w a ps r old rest b o :
  let i := IR_CALL w a ps r in
  uses_ok i -> (forall k, 0 <= old k < 2 ^ 64) ->
  ir_step ir_call ctx i ρ m = Some o -> chunk_result xcall ctx f n U i ρ ρv m b old rest o.
Proof.
  intros i Hu Hold H. cbn [ir_step i] in H.
  destruct (rd IR_REG_64 ρ a) as [x|] eqn:Ea; [|done]. cbn in H.
  destruct (rd_params ρ ps) as [vs|] eqn:Ep; [|done]. cbn in H.
  assert (Ha : ρv (f a) = x).
  { eapply holds_64. eapply (use_rd β f n U i ρ ρv Hrel Hu); [used|done]. }
  pose proof (args_hold i ps vs Hu ltac:(intros; cbn; by apply list_elem_of_further) Ep) as Hargs.
  destruct (ir_call w x ctx vs m) as [[m' v]|] eqn:Ec; [|done]. cbn [mbind option_bind] in H.
  destruct (Hlaw w x ctx vs _ m m' v Hargs Ec) as (v' & Hx & Hv).
  destruct w as [w|], r as [d|]; try discriminate H; injection H as <-.
  - eapply (result_def xcall ctx f n U i _ _ _ _ _ _ _ _ _ _ (wrap 64 v'));
      [done|done|done| |].
    + cbn [xeval]. rewrite Ha. by rewrite Hx.
    + cbn [dirty_def i]. destruct (Hv w eq_refl) as [<- Hz]. constructor.
      * by apply wrap_range.
      * apply wrap_wrap64.
      * intros Hd. destruct w; cbn [bits] in *; try (by destruct zero_extends); try done.
        destruct zero_extends; [|done]. specialize (Hz eq_refl eq_refl). rewrite !wrap_small by lia. done.
  - eapply (result_nodef xcall ctx f n U i); [done|done|done|].
    cbn [xeval]. rewrite Ha. by rewrite Hx.
Qed.

Lemma asr_chunk w d p q old rest b o :
  let i := IR_BINOP (IR_BINOP_ ASR w) d p q in
  uses_ok i -> ir_step ir_call ctx i ρ m = Some o ->
  chunk_result xcall ctx f n U i ρ ρv m b old rest o.
Proof.
  intros i Hu H. cbn [ir_step i bt_width bt_kind op2_type] in H.
  destruct (rd w ρ p) as [vp|] eqn:Ep; [|done]. cbn [mbind option_bind] in H.
  destruct (rd IR_REG_8 ρ q) as [vq|] eqn:Eq; [|done]. cbn [mbind option_bind] in H.
  destruct (irBinop_sem ASR w vp vq) as [v|] eqn:Ev; [|done]. injection H as <-.
  assert (Hp : holds w _ vp (ρv (f p))) by (eapply (use_rd β f n U i ρ ρv Hrel Hu); [used|done]).
  assert (Hq : holds IR_REG_8 _ vq (ρv (f q)))
    by (eapply (use_rd β f n U i ρ ρv Hrel Hu); [used|done]).
  assert (Hfp : (f p < n)%nat) by (apply Hu; used).
  assert (Hfq : (f q < n)%nat) by (apply Hu; used).
  pose proof (holds_asr w _ _ _ _ _ _ _ Hp Hq Ev) as Hr.
  unfold chunk_result. cbn [x_chunk i ir_def dirty_def]. destruct (asr_goto_p0 w =? 0) eqn:Ew.
  - exists (set_val ρv (Some n) (Some (xbinop w ASR (ρv (f p)) (ρv (f q))))).
    split; [done|split].
    + intros y Hy. cbn. by rewrite decide_False by lia.
    + exists w, v. split; [done|]. cbn -[xbinop]. by rewrite decide_True.
  - set (g := asr_goto_p0 w) in *.
    set (ρ1 := set_val ρv (Some (n + 1)%nat) (Some g)).
    set (ρ2 := set_val ρ1 (Some (n + 2)%nat) (Some (xbinop IR_REG_64 SHL (ρv (f p)) g))).
    set (ρ3 := set_val ρ2 (Some (n + 3)%nat)
                 (Some (xbinop IR_REG_64 ASR (xbinop IR_REG_64 SHL (ρv (f p)) g) g))).
    exists (set_val ρ3 (Some n) (Some (xbinop w ASR (ρ3 (n + 3)%nat) (ρ3 (f q))))).
    assert (Hg : wrap 64 g = g) by (by destruct w).
    assert (Hold : forall y, (y < n)%nat -> ρ3 y = ρv y /\ ρ1 y = ρv y).
    { intros y Hy. cbn. by rewrite !decide_False by lia. }
    assert (H1 : ρ1 (n + 1)%nat = g) by (cbn; by rewrite decide_True).
    assert (H2 : ρ2 (n + 1)%nat = g).
    { cbn. by rewrite decide_False, decide_True by lia. }
    assert (H22 : ρ2 (n + 2)%nat = xbinop IR_REG_64 SHL (ρv (f p)) g) by (cbn -[xbinop]; by rewrite decide_True).
    assert (H3 : ρ3 (n + 3)%nat = xbinop IR_REG_64 ASR (xbinop IR_REG_64 SHL (ρv (f p)) g) g)
      by (cbn -[xbinop]; by rewrite decide_True).
    split; [|split].
    + cbn [app xrun xeval x86_def length]. rewrite Hg. fold ρ1.
      rewrite (proj2 (Hold (f p) Hfp)), H1. fold ρ2. rewrite H22, H2. fold ρ3.
      by rewrite !later_later.
    + intros y Hy. cbn [set_val]. rewrite decide_False by lia. by apply Hold.
    + exists w, v. split; [done|]. cbn [set_val]. rewrite decide_True by done.
      by rewrite H3, (proj1 (Hold (f q) Hfq)).
Qed.

Lemma binop_chunk k w d p q old rest b o :
  let i := IR_BINOP (IR_BINOP_ k w) d p q in
  k <> ASR -> uses_ok i -> insn_clean U i = true -> ir_step ir_call ctx i ρ m = Some o ->
  chunk_result xcall ctx f n U i ρ ρv m b old rest o.
Proof.
  intros i Hk Hu Hc H. cbn [ir_step i bt_width bt_kind] in H.
  destruct (rd w ρ p) as [vp|] eqn:Ep; [|done]. cbn [mbind option_bind] in H.
  destruct (rd (op2_type k w) ρ q) as [vq|] eqn:Eq; [|done]. cbn [mbind option_bind] in H.
  destruct (irBinop_sem k w vp vq) as [v|] eqn:Ev; [|done]. injection H as <-.
  assert (Hp : holds w _ vp (ρv (f p))) by (eapply (use_rd β f n U i ρ ρv Hrel Hu); [used|done]).
  assert (Hq : holds (op2_type k w) _ vq (ρv (f q)))
    by (eapply (use_rd β f n U i ρ ρv Hrel Hu); [used|done]).
  eapply (result_def xcall ctx f n U i _ _ _ _ _ _ _ _ _ _
            (xbinop w k (ρv (f p)) (ρv (f q)))); [done|by destruct k|done|done|].
  eapply (holds_binop w k _ _ vp vq); try done.
  - intros ->. eapply clean_use; [exact Hc|]. used.
  - intros Hcmp. destruct k; try discriminate Hcmp;
      split; (eapply clean_use; [exact Hc|]; used).
Qed.

Lemma insn_chunk i old rest b o :
  uses_ok i -> insn_clean U i = true -> (forall k, 0 <= old k < 2 ^ 64) ->
  ir_step ir_call ctx i ρ m = Some o ->
  chunk_result xcall ctx f n U i ρ ρv m b old rest o.
Proof.
  intros Hu Hc Hold H.
  destruct i as [w d v|w d a|w v a|[k w] d p q|w a ps r|w d p t e|t d x|v p|w d off|w v off|v].
  - injection H as <-. eapply (result_def xcall ctx f n U); [done|done|done|done|].
    cbn [dirty_def]. constructor; [by apply wrap_range|apply wrap_wrap64|].
    intros Hd%negb_false_iff%Z.eqb_eq. by rewrite Hd.
  - cbn [ir_step] in H. destruct (rd IR_REG_64 ρ a) as [x|] eqn:Ea; [|done]. injection H as <-.
    eapply use_rd in Ea; [|exact Hrel|exact Hu|used]. apply holds_64 in Ea.
    eapply (result_def xcall ctx f n U); [done|done|done|cbn [xeval]; by rewrite Ea|].
    cbn [dirty_def]. apply holds_load; [done|apply load_mem_range].
  - cbn [ir_step] in H. destruct (rd IR_REG_64 ρ a) as [x|] eqn:Ea; [|done]. cbn [mbind option_bind] in H.
    destruct (rd w ρ v) as [y|] eqn:Ev; [|done]. injection H as <-.
    eapply use_rd in Ea; [|exact Hrel|exact Hu|used]. apply holds_64 in Ea.
    eapply use_rd in Ev; [|exact Hrel|exact Hu|used].
    eapply (result_nodef xcall ctx f n U); [done|done|done|]. cbn [xeval]. rewrite Ea. f_equal.
    apply store_mem_low. rewrite (ho_low _ _ _ _ Ev). by eapply low_wrap, ho_low.
  - destruct (decide (k = ASR)) as [->|Hk]; [by apply asr_chunk|by apply binop_chunk].
  - by apply call_chunk.
  - cbn [ir_step] in H. destruct (ρ !! p) as [[ty x]|] eqn:Ep; [|done]. cbn [mbind option_bind] in H.
    destruct (rd ty ρ t) as [y|] eqn:Et; [|done]. cbn [mbind option_bind] in H.
    destruct (rd ty ρ e) as [z|] eqn:Ee; [|done]. injection H as <-.
    eapply (use_holds β f n U _ ρ ρv Hrel Hu) in Ep; [|used].
    eapply use_rd in Et; [|exact Hrel|exact Hu|used].
    eapply use_rd in Ee; [|exact Hrel|exact Hu|used].
    rewrite (clean_use U _ Hc p) in Ep by used. pose proof (ho_clean _ _ _ _ Ep eq_refl) as Hp.
    eapply (result_def xcall ctx f n U); [done|done|done|done|]. rewrite Hp. cbn [dirty_def].
    destruct (x =? 0); destruct Et, Ee; constructor; try done; intros Hd%orb_false_iff; tauto.
  - cbn [ir_step] in H. destruct (rd (cast_src t) ρ x) as [y|] eqn:Ex; [|done]. injection H as <-.
    eapply use_rd in Ex; [|exact Hrel|exact Hu|used].
    eapply (result_def xcall ctx f n U); [done|done|done|done|]. by eapply holds_cast.
  - destruct p as [p|]; cbn [ir_step] in H.
    + destruct (rd IR_REG_64 ρ v) as [x|] eqn:Ev; [|done]. cbn [mbind option_bind] in H.
      destruct (ρ !! p) as [[ty y]|] eqn:Ep; [|done]. cbn [mbind option_bind] in H. injection H as <-.
      eapply use_rd in Ev; [|exact Hrel|exact Hu|used]. apply holds_64 in Ev.
      eapply (use_holds β f n U _ ρ ρv Hrel Hu) in Ep; [|used].
      rewrite (clean_use U _ Hc p) in Ep by used. pose proof (ho_clean _ _ _ _ Ep eq_refl) as Hp.
      destruct (y =? 0) eqn:Ey.
      * eapply (result_nodef xcall ctx f n U); [done|done|done|].
        cbn [xeval option_map]. by rewrite Hp, Ey.
      * unfold chunk_result. cbn [x_chunk app xrun xeval option_map]. by rewrite Hp, Ey, Ev.
    + destruct (rd IR_REG_64 ρ v) as [x|] eqn:Ev; [|done]. injection H as <-.
      eapply use_rd in Ev; [|exact Hrel|exact Hu|used]. apply holds_64 in Ev.
      unfold chunk_result. cbn [x_chunk app xrun xeval option_map]. by rewrite Ev.
  - injection H as <-. eapply (result_def xcall ctx f n U); [done|done|done|done|].
    cbn [dirty_def]. apply holds_load; [done|apply load_mem_range].
  - cbn [ir_step] in H. destruct (rd w ρ v) as [y|] eqn:Ev; [|done]. injection H as <-.
    eapply use_rd in Ev; [|exact Hrel|exact Hu|used].
    eapply (result_nodef xcall ctx f n U); [done|done|done|]. cbn [xeval]. f_equal.
    apply store_mem_low. rewrite (ho_low _ _ _ _ Ev). by eapply low_wrap, ho_low.
  - injection H as <-. by eapply (result_nodef xcall ctx f n U).
Qed.
End chunks.
