(* ===== verification/X86Compile.v ===== *)
(** * The compiler is correct: IR blocks and the machine code made from them

    Composition of the three passes: for a block built through the IR builder,
    the bytes [jit] leaves in the code buffer make the machine return what the
    IR says.  Then what block chaining adds: patching the exit the machine
    came out of turns it into a jump. *)

From S2P Require Import Prelude Ir Jitter BeX86 BeGen X86Sem X86Exec X86Correct X86Alloc X86Select X86Const X86Sim.

(** ** Blocks *)

(** Registers are written once, before they are read, and those that are read
    are marked so. *)
Fixpoint ir_wf (last : nat -> option Z) (D : list nat) (l : list irInstruction) : Prop :=
  match l with
  | [] => True
  | i :: l =>
      (forall r, r ∈ ir_uses i -> r ∈ D /\ last r <> Some (-1)) /\
      (forall d, ir_def i = Some d -> d ∉ D) /\
      ir_wf last (option_list (ir_def i) ++ D) l
  end.

Lemma ir_wf_ext last last' D l :
  (forall r, last' r = last r) -> ir_wf last D l -> ir_wf last' D l.
Proof.
  intros H. revert D. induction l as [|i l IH]; intros D; cbn; [done|].
  intros (Hu & Hd & Hl). split; [|split; [done|by apply IH]]. intros r. rewrite H. apply Hu.
Qed.

(** What the builder makes is such a block. *)
Lemma builder_ir_wf j l1 l2 D :
  builder_wf j -> insns j = l1 ++ l2 ->
  (forall r, r ∈ D <-> exists k i, l1 !! k = Some i /\ ir_def i = Some r) ->
  ir_wf (fun r => lastReadIndex <$> regs j !! r) D l2.
Proof.
  intros Hwf. revert l1 D. induction l2 as [|i l2 IH]; intros l1 D Hl HD; [done|].
  assert (Hi : insns j !! length l1 = Some i) by (by rewrite Hl, list_lookup_middle).
  assert (Hpre : forall k i', l1 !! k = Some i' -> insns j !! k = Some i')
    by (intros k i' H; rewrite Hl; by apply lookup_app_l_Some).
  cbn [ir_wf]. split; [|split].
  - intros r Hr. destruct (bw_use _ Hwf _ _ _ Hi Hr) as (x & Hx & Hlt & Hle).
    destruct (bw_reg _ Hwf _ _ Hx) as (_ & _ & k & i' & Hk & Hki & Hd).
    rewrite Hx. cbn. split; [|intros [= E]; lia].
    apply HD. exists k, i'. split; [|done]. rewrite Hl in Hki.
    rewrite lookup_app_l in Hki by lia. done.
  - intros d Hd (k & i' & Hk & Hd')%HD.
    destruct (bw_def _ Hwf _ _ _ Hi Hd) as (x & Hx & Hf).
    destruct (bw_def _ Hwf _ _ _ (Hpre _ _ Hk) Hd') as (x' & Hx' & Hf').
    apply lookup_lt_Some in Hk. rewrite Hx in Hx'. injection Hx' as <-. lia.
  - apply (IH (l1 ++ [i])); [by rewrite Hl, <- app_assoc|].
    intros r. rewrite elem_of_app, HD. split.
    + intros [Hr|(k & i' & Hk & Hd)].
      * destruct (ir_def i) as [d|] eqn:E; cbn in Hr; [|by apply elem_of_nil in Hr].
        apply elem_of_cons in Hr as [->|Hr]; [|by apply elem_of_nil in Hr].
        exists (length l1), i. split; [by apply list_lookup_middle|done].
      * exists k, i'. split; [by apply lookup_app_l_Some|done].
    + intros (k & i' & [Hk|[Hk Hs]]%lookup_app_Some & Hd); [right; eauto|left].
      apply list_lookup_singleton_Some in Hs as [_ <-]. rewrite Hd. apply list_elem_of_here.
Qed.

(** ** The first pass on a block *)

Section selection.
Context `{Hcr : CallResults}.
Context (ir_call : option irRegisterType -> Z -> Z -> list (option (irRegisterType * Z)) ->
                   mem -> option (mem * Z)).
Context (xcall : Z -> Z -> list (option Z) -> mem -> option (mem * Z)).
Hypothesis Hlaw : helper_law ir_call xcall.
Context (ctx : Z).

Lemma holds_mono t b b' v x : (b = true -> b' = true) -> holds t b v x -> holds t b' v x.
Proof.
  intros H [? ? Hc]. constructor; try done. intros ->. apply Hc.
  destruct b; [by specialize (H eq_refl)|done].
Qed.

(** The relation after an instruction. *)
Lemma rel_step D i s s' U ρ ρ' ρv ρv' :
  selects D i s s' -> xinv s -> dropped s i = false ->
  rel (beta s) U ρ ρv ->
  (forall x, (x < length (xregs s))%nat -> ρv' x = ρv x) ->
  match ir_def i with
  | None => ρ' = ρ
  | Some d => exists t v, ρ' = <[d := (t, v)]> ρ /\
                          holds t (dirty_def U i) v (ρv' (length (xregs s)))
  end ->
  rel (beta s') (step_dirty U i) ρ' ρv'.
Proof.
  intros Hsel Hx Hdr Hrel Hsame Hdef r t v x Hr Hb. rewrite (se_beta _ _ _ _ Hsel), Hdr in Hb.
  assert (Hmono : bool_decide (r ∈ U) = true -> bool_decide (r ∈ step_dirty U i) = true).
  { rewrite !bool_decide_eq_true. unfold step_dirty. destruct (dirty_def U i); [|done].
    intros H. apply elem_of_app. by right. }
  assert (Hold : ρ !! r = Some (t, v) -> beta s r = Some x ->
                 holds t (bool_decide (r ∈ step_dirty U i)) v (ρv' x)).
  { intros Hr' Hb'. rewrite Hsame by (by eapply xi_beta).
    eapply holds_mono; [exact Hmono|]. by eapply Hrel. }
  case_decide as E.
  - destruct E as [Ed _]. rewrite Ed in Hdef. injection Hb as <-.
    destruct Hdef as (t' & v' & -> & Hh). rewrite lookup_insert_eq in Hr. injection Hr as <- <-.
    eapply holds_mono; [|exact Hh]. intros Hd. apply bool_decide_eq_true.
    unfold step_dirty. rewrite Hd, Ed. apply list_elem_of_here.
  - destruct (ir_def i) as [d|].
    + destruct Hdef as (t' & v' & -> & _). rewrite lookup_insert_ne in Hr by naive_solver.
      by apply Hold.
    + subst. by apply Hold.
Qed.

(** A dropped read leaves no trace. *)
Lemma rel_dropped D i s s' U ρ ρv d tv :
  selects D i s s' -> dropped s i = true -> ir_def i = Some d -> d ∉ D -> irinv D s ->
  rel (beta s) U ρ ρv -> rel (beta s') (step_dirty U i) (<[d := tv]> ρ) ρv.
Proof.
  intros Hsel Hdr Hd HD Hir Hrel r t v x Hr Hb. rewrite (se_beta _ _ _ _ Hsel), Hdr in Hb.
  rewrite decide_False in Hb by (by intros [_ ?]).
  assert (r <> d) by (intros ->; by apply (ii_dom _ _ Hir) in Hb).
  rewrite lookup_insert_ne in Hr by done. eapply holds_mono; [|by eapply Hrel].
  rewrite !bool_decide_eq_true. unfold step_dirty. destruct (dirty_def U i); [|done].
  intros H'. apply elem_of_app. by right.
Qed.

Definition params_ok (insn : x86Instruction nat) : Prop :=
  match insn with X86_CALL _ ps _ => (length ps <= 4)%nat | _ => True end.

Lemma chunk_params f n b i U : insn_clean U i = true -> Forall params_ok (x_chunk f n b i).
Proof.
  intros H. apply andb_true_iff in H as [_ H].
  destruct i as [| | |[[] w] ? ? ?| | | | | | |]; cbn [x_chunk];
    try (destruct (_ =? _)); repeat first [apply Forall_nil_2 | apply Forall_cons_2; [try done|]].
  cbn. rewrite length_map. by apply Nat.leb_le.
Qed.

Lemma allocateInstructions_sim l D C s s' U :
  allocateInstructions l s = Some (tt, s') -> xinv s -> irinv D s -> const_inv D C s ->
  ir_wf (ir_last s) D l -> clean_ok U l = true ->
  xinv s' /\ exists rest, xinsns s' = xinsns s ++ rest /\ Forall params_ok rest /\
    forall ρ m v m', ir_run ir_call ctx l ρ m = Some (v, m') ->
      exists n, forall ρv old, rel (beta s) U ρ ρv -> (forall k, 0 <= old k < 2 ^ 64) ->
        xrun xcall ctx old ρv m rest = Some (n, v, exit_is_constant ir_call ctx C l ρ m, m').
Proof.
  revert D C s U. induction l as [|i l IH]; intros D C s U H Hx Hir Hco Hwf Hc.
  - cbn in H. inv_run. split; [done|]. exists []. split; [by rewrite app_nil_r|].
    split; [constructor|]. intros ρ m v m' Hr. discriminate Hr.
  - cbn [allocateInstructions] in H. apply bind_Some_inv in H as ([] & s1 & H1 & H2).
    destruct Hwf as (Hu & Hd & Hwf). cbn [clean_ok] in Hc. apply andb_true_iff in Hc as [Hci Hcl].
    pose proof (allocateInstruction_selects D i s s1 H1 Hx Hir Hu Hd) as Hsel.
    pose proof Hsel as [[b Hb] Hx1 Hir1 Hl1 Hbeta _].
    pose proof (const_step D C i s s1 H1 Hsel Hx Hco Hd) as Hco1.
    destruct (IH _ _ s1 (step_dirty U i) H2 Hx1 Hir1 Hco1) as (Hx' & rest & Hrest & Hps & Hsim); [|done|].
    { apply (ir_wf_ext (ir_last s)); [|done]. intros r. by rewrite Hl1. }
    split; [done|]. rewrite Hrest, Hb, <- app_assoc. eexists. split; [done|]. split.
    { apply Forall_app. split; [|done]. destruct (dropped s i); [constructor|by eapply chunk_params]. }
    intros ρ m v m' Hrun. cbn [ir_run] in Hrun. cbn [exit_is_constant].
    destruct (ir_step ir_call ctx i ρ m) as [o|] eqn:Eo; [|done]. cbn [mbind option_bind] in Hrun.
    destruct (dropped s i) eqn:Hdr.
    + destruct i as [| | | | | | | |w d off| |]; try discriminate Hdr. injection Eo as <-.
      destruct (Hsim _ m v m' Hrun) as (n & Hn). exists n.
      intros ρv old Hrel Hold. apply Hn; [|done].
      eapply rel_dropped; try done. by apply Hd.
    + assert (Huse : forall r, r ∈ ir_uses i ->
                beta s r = Some (bt s r) /\ (bt s r < length (xregs s))%nat).
      { intros r Hr. destruct (use_beta D i s Hir Hu r Hr) as [Hbr Hxr].
        split; [done|]. by apply (xi_def _ Hx). }
      pose proof (fun ρv Hrel old Hold => insn_chunk ir_call xcall Hlaw ctx (beta s) (bt s)
        (length (xregs s)) U ρ ρv m Hrel i old rest b o Huse Hci Hold Eo) as Hch.
      unfold chunk_result in Hch. destruct o as [ρ' m1|v1 m1].
      * destruct (Hsim ρ' m1 v m' Hrun) as (n & Hn).
        exists (length (x_chunk (bt s) (length (xregs s)) b i) + n)%nat.
        intros ρv old Hrel Hold. destruct (Hch ρv Hrel old Hold) as (ρv' & -> & Hsame & Hdef).
        rewrite (Hn ρv'); [done| |intros k; apply Hold]. by eapply rel_step.
      * injection Hrun as <- <-. exists 0%nat. intros ρv old Hrel Hold. rewrite (Hch ρv Hrel old Hold).
        destruct (ir_step_exit _ _ _ _ _ _ _ Eo) as (x & p & ->).
        assert (Hxv : x ∈ ir_uses (IR_EXIT x p)) by (apply list_elem_of_here).
        rewrite (exit_flag _ _ _ _ _ _ _ H1 Hb), (ci_beta _ _ _ Hco x (bt s x)); [done|by apply Huse].
Qed.
End selection.

(** ** Functions called by generated code *)

(** What the back end relies on: the helper found at an address behaves as
    the IR says, whatever stale bits its narrow arguments carry, follows the
    calling convention, and returns its result in rax. *)
Class HelperAbi `{CallResults}
    (ir_call : option irRegisterType -> Z -> Z -> list (option (irRegisterType * Z)) -> mem -> option (mem * Z))
    (callee : Z -> (Z -> Z) -> mem -> (Z -> Z) * bool * mem) := {
  helper_call : Z -> Z -> list (option Z) -> mem -> option (mem * Z);
  helper_ir : helper_law ir_call helper_call;
  helper_abi : call_law callee helper_call
}.

(** ** The compiler *)

(** The bytes [c] hold, from offset [p], the code of [l], some of its
    patchable exits being linked. *)
Record block_code (l : list (insnZ * option Z)) (c : list Z) (p : Z) : Prop := mkBlockCode {
  bc_code : exists kc, generateCode_as l = Some kc /\ code_at c p kc;
  bc_links : Forall (fun il => insn_link_ok il.1 il.2) l
}.

(** Offset of the end of instruction [n] of a block when it is an exit. *)
Definition exit_pos (hw : list (x86Instruction Z)) (n : nat) : option Z :=
  i ← hw !! n; kc ← generateCode (take n hw); Some (Z.of_nat (length kc) + exit_end i).

(** Linking does not move code. *)
Lemma gen_insn_as_length link i :
  length <$> gen_insn_as link i = length <$> gen_insn i.
Proof. destruct i as [| | | | | |v [p|] []| | | |], link; done. Qed.

Lemma generateCode_as_length l kc :
  generateCode_as l = Some kc ->
  exists kc', generateCode (fst <$> l) = Some kc' /\ length kc' = length kc.
Proof.
  revert kc. induction l as [|[i link] l IH]; intros kc H; cbn in *; [naive_solver|].
  pose proof (gen_insn_as_length link i) as Hl. destruct (gen_insn_as link i) as [k1|]; [|done].
  destruct (generateCode_as l) as [k2|]; [|done]. injection H as <-.
  destruct (IH k2 eq_refl) as (k2' & -> & Hk2). destruct (gen_insn i) as [k1'|]; [|done].
  injection Hl as Hk1. exists (k1' ++ k2'). split; [done|]. rewrite !length_app. lia.
Qed.

Lemma xrun_exit {R} `{EqDecision R} xcall ctx old (ρ : R -> Z) m l n v b m' :
  xrun xcall ctx old ρ m l = Some (n, v, b, m') -> exists x p, l !! n = Some (X86_EXIT x p b).
Proof.
  revert old ρ m n. induction l as [|i l IH]; intros old ρ m n H; cbn in H; [done|].
  destruct (xeval _ _ _ _ _ i) as [v1 m1|v1 b1 m1|] eqn:E; [| |done].
  - destruct (xrun _ _ _ _ _ l) as [[[[n1 v2] b2] m2]|] eqn:E2; [|done].
    injection H as <- <- <- <-. by apply IH in E2.
  - injection H as <- <- <- <-. destruct i as [| | | | | |x [p|] b'|a ps r| | |]; try done; cbn in E.
    + destruct (_ =? _); [done|]. injection E as _ <- _. eauto.
    + injection E as _ <- _. eauto.
    + by destruct (xcall _ _ _ _) as [[]|].
Qed.

(** What exit [n] of the code made for a block returns, when it is patchable. *)
Definition exit_value (irArray : list irInstruction) (s : inter) (n : nat) : Z :=
  match allocateInstructions irArray s with
  | Some (_, s1) => exit_const (xinsns s1) n
  | None => 0
  end.

Lemma xrun_exit_const xcall ctx last s n v old ρ m m' :
  xwf last [] 0 (xinsns s) -> const_ok s ->
  xrun xcall ctx old ρ m (xinsns s) = Some (n, v, true, m') -> v = exit_const (xinsns s) n.
Proof.
  intros Hwf Hc H. destruct (xrun_exit _ _ _ _ _ _ _ _ _ _ H) as (x & p & Hn).
  destruct (co_exit _ Hc x p) as [c Hin]; [by eapply list_elem_of_lookup_2|].
  destruct (find_const_elem _ _ _ Hin) as [w Hw]. unfold exit_const. rewrite Hn, Hw.
  eapply xrun_const; [exact Hwf|exact Hn| |done|exact H]. by intros ?%elem_of_nil.
Qed.

Section compiler.
Context `{Hcr : CallResults} {ir_call callee} `{!HelperAbi ir_call callee}.
Context (j : jitter) (be : inter).
Hypothesis Hj : builder_wf j.
Hypothesis Hclean : clean_ok [] (insns j) = true.

Lemma reset_xinv : xinv (with_ir (fun _ => regs j) (reset be)) /\
                   irinv [] (with_ir (fun _ => regs j) (reset be)).
Proof.
  assert (Hb : forall r, beta (with_ir (fun _ => regs j) (reset be)) r = None).
  { intros r. unfold beta. cbn. destruct (regs j !! r) as [x|] eqn:E; [|done].
    by destruct (bw_reg _ Hj _ _ E) as (_ & Hb & _). }
  split; constructor; try done.
  - intros x Hx. by apply elem_of_nil in Hx.
  - intros r x. by rewrite Hb.
  - intros r1 r2 x. by rewrite Hb.
  - intros r Hr. by apply elem_of_nil in Hr.
  - intros r x. by rewrite Hb.
Qed.

Lemma reset_const : const_inv [] [] (with_ir (fun _ => regs j) (reset be)).
Proof.
  constructor; [|done|].
  - constructor.
    + intros x. split; [done|]. by intros [v Hv%elem_of_nil].
    + by intros x p Hx%elem_of_nil.
  - intros r x Hb. unfold beta in Hb. cbn in Hb. destruct (regs j !! r) as [y|] eqn:E; [|done].
    destruct (bw_reg _ Hj _ _ E) as (_ & Hn & _). cbn in Hb. congruence.
Qed.

Lemma jitCode_irArray_eq : jitCode_irArray j = insns j.
Proof.
  unfold jitCode_irArray, jitCode_insnNb. destruct (bw_ipool _ Hj) as [-> _].
  rewrite Z.mul_comm, Z.div_mul by done. rewrite Nat2Z.id. apply firstn_all.
Qed.

(** What [allocate] hands to code generation. *)
Lemma allocate_correct hw be1 :
  allocate (insns j) (with_ir (fun _ => regs j) (reset be)) = Some (hw, be1) ->
  Forall insn_ok hw /\
  forall ctx m v m', ir_run ir_call ctx (insns j) ∅ m = Some (v, m') ->
    let b := exit_is_constant ir_call ctx [] (insns j) ∅ m in
    exists n, (b = true -> v = exit_value (insns j) (with_ir (fun _ => regs j) (reset be)) n) /\
      forall old ρp, (forall k, 0 <= old k < 2 ^ 64) ->
      xrun helper_call ctx old ρp m hw = Some (n, v, b, m').
Proof.
  intros H. unfold allocate in H.
  destruct (allocateInstructions _ _) as [[[] s1]|] eqn:E1; [|done]. cbn [mbind option_bind] in H.
  destruct (allocateRegisters _ _) as [xr|] eqn:E2; [|done]. injection H as <- _.
  destruct reset_xinv as [Hx Hir].
  assert (Hwf : ir_wf (ir_last (with_ir (fun _ => regs j) (reset be))) [] (insns j)).
  { apply (builder_ir_wf j []); [done|done|]. intros r. split.
    - intros Hr. by apply elem_of_nil in Hr.
    - intros (k & i & Hk & _). done. }
  pose proof (fun ctx => allocateInstructions_sim ir_call helper_call helper_ir ctx _ _ [] _ _ []
    E1 Hx Hir reset_const Hwf Hclean) as Hsim.
  destruct (Hsim 0) as (Hx1 & rest & Hrest & Hps & _). cbn in Hrest.
  pose proof (allocateRegisters_ok _ _ _ (xi_wf _ Hx1) E2) as Hok.
  split.
  - eapply alloc_ok_insns; [exact Hok|]. by rewrite Hrest.
  - intros ctx m v m' Hrun. destruct (Hsim ctx) as (_ & rest' & Hrest' & _ & Hs).
    cbn in Hrest'. destruct (Hs _ _ _ _ Hrun) as (n & Hn). intros b. exists n. fold b in Hn.
    assert (Hn' : forall ρv old, (forall k, 0 <= old k < 2 ^ 64) ->
              xrun helper_call ctx old ρv m (xinsns s1) = Some (n, v, b, m')).
    { intros ρv old Hold. rewrite Hrest'. apply Hn; [|done].
      intros r t v' x Hr. by rewrite lookup_empty in Hr. }
    split.
    { intros Hb. rewrite Hb in Hn'. unfold exit_value. rewrite E1.
      apply (xrun_exit_const helper_call ctx (last_of (xregs s1)) _ n v (fun _ => 0) (fun _ => 0) m m');
        [exact (xi_wf _ Hx1)|by eapply allocateInstructions_const_ok|]. apply Hn'. lia. }
    intros old ρp Hold.
    rewrite (alloc_ok_run helper_call ctx _ _ old [] 0 _ (fun x => ρp (index_of xr x)) ρp m Hok).
    + by apply Hn'.
    + intros x Hxn. by apply elem_of_nil in Hxn.
Qed.

(** A block in the code buffer, freshly generated or with linked exits, does
    what its IR says; the exit it comes out of does not depend on the links. *)
Lemma block_runs hw be1 ctx m v m' :
  allocate (insns j) (with_ir (fun _ => regs j) (reset be)) = Some (hw, be1) ->
  ir_run ir_call ctx (insns j) ∅ m = Some (v, m') ->
  let b := exit_is_constant ir_call ctx [] (insns j) ∅ m in
  exists n, (exists x p, hw !! n = Some (X86_EXIT x p b)) /\
    (b = true -> v = exit_value (insns j) (with_ir (fun _ => regs j) (reset be)) n) /\
    forall l c p base k, fst <$> l = hw -> block_code l c p ->
      regs_ok k -> rf k RDI = ctx -> mm k = m ->
      exists link q k', snd <$> l !! n = Some link /\ exit_pos hw n = Some q /\
        msteps callee c base (p, k) (p + q, k') /\
        exits callee c base link k' (p + q) v b m' (stk k) ctx.
Proof.
  intros Ha Hrun b. destruct (allocate_correct _ _ Ha) as [Hok Hx].
  destruct (Hx _ _ _ _ Hrun) as (n & Hv & Hn). fold b in Hv, Hn. exists n. split.
  { eapply xrun_exit. exact (Hn (fun _ => 0) (fun _ => 0) ltac:(intros; lia)). }
  split; [done|].
  intros l c p base k Hl [(kc & Hkc & Hc) Hlk] Hk Hdi Hm.
  destruct (generateCode_runs callee helper_call helper_abi c base l kc p k Hkc Hc) as (old & Hold & Hr);
    [by rewrite Hl|done|done|].
  destruct (Hr n v b m') as (i & link & kc0 & k' & Hi & Hkc0 & T & E).
  { rewrite Hl, Hdi, Hm. by apply Hn. }
  exists link, (Z.of_nat (length kc0) + exit_end i), k'. rewrite Hi. split; [done|].
  cbv zeta in T, E. rewrite <- Z.add_assoc in T, E. rewrite Hdi in E. split; [|done].
  unfold exit_pos. rewrite <- Hl, list_lookup_fmap, Hi. cbn [fmap option_fmap option_map mbind option_bind fst].
  apply generateCode_as_length in Hkc0 as (kc' & Hg & Hlen). rewrite fmap_take in Hg.
  by rewrite Hg, <- Hlen.
Qed.
End compiler.

(** ** Linking an exit *)

Section linking.
Lemma code_at_agree c c' p k :
  (forall i, p <= Z.of_nat i < p + Z.of_nat (length k) -> c' !! i = c !! i) ->
  code_at c p k -> code_at c' p k.
Proof.
  intros H [Hp Hc]. split; [done|]. intros i b Hi. rewrite <- (Hc i b Hi). apply H.
  apply lookup_lt_Some in Hi. lia.
Qed.

Lemma patch_length c q t c' :
  patch c q t = Some c' -> (q + 11 <= length c)%nat -> length c' = length c.
Proof.
  unfold patch. intros H Hl. destruct (c !! q) as [b|]; [|done]. cbn [mbind option_bind] in H.
  destruct (b =? 0xc3); [|done]. injection H as <-.
  transitivity (length (take q c ++ [144] ++ take 2 (drop (S q) c) ++ imm64 t ++ drop (q + 11) c));
    [done|].
  rewrite !length_app, !length_take, !length_drop. cbn [length imm64]. lia.
Qed.

Lemma patch_lookup c q t c' :
  patch c q t = Some c' -> (q + 11 <= length c)%nat ->
  c !! q = Some 0xc3 /\ c' !! q = Some 0x90 /\
  (forall i, (i < q \/ q < i < q + 3 \/ q + 11 <= i)%nat -> c' !! i = c !! i) /\
  (forall i, (i < 8)%nat -> c' !! (q + 3 + i)%nat = imm64 t !! i).
Proof.
  unfold patch. intros H Hl. destruct (c !! q) as [b|] eqn:Eb; [|done]. cbn [mbind option_bind] in H.
  destruct (Z.eqb_spec b 0xc3) as [->|]; [|done]. injection H as <-.
  assert (Ht : length (take q c) = q) by (rewrite length_take; lia).
  set (a := take 2 (drop (S q) c)).
  assert (H2 : length a = 2%nat) by (unfold a; rewrite length_take, length_drop; lia).
  set (d := drop (q + 11) c). set (im := imm64 t).
  assert (Him : length im = 8%nat) by done.
  assert (Hi0 : (take q c ++ [144] ++ a ++ im ++ d) !! q = Some 0x90)
    by (rewrite lookup_app_r by lia; by rewrite Ht, Nat.sub_diag).
  assert (Hskip : forall i, (q < i)%nat ->
    (take q c ++ [144] ++ a ++ im ++ d) !! i = (a ++ im ++ d) !! (i - q - 1)%nat).
  { intros i Hi. rewrite lookup_app_r by lia. rewrite Ht.
    destruct (i - q)%nat as [|k] eqn:E; [lia|]. cbn. by rewrite Nat.sub_0_r. }
  split; [done|]. split; [done|]. split.
  - intros i [Hi|[Hi|Hi]].
    + rewrite lookup_app_l by lia. by apply lookup_take_lt.
    + rewrite Hskip by lia. rewrite lookup_app_l by lia. unfold a.
      rewrite lookup_take_lt by lia. rewrite lookup_drop. f_equal. lia.
    + rewrite Hskip by lia. rewrite lookup_app_r by lia. rewrite H2, lookup_app_r by lia.
      rewrite Him. unfold d. rewrite lookup_drop. f_equal. lia.
  - intros i Hi. rewrite Hskip by lia. rewrite lookup_app_r by lia. rewrite H2.
    rewrite lookup_app_l by lia. f_equal. lia.
Qed.

Definition exit_pre (v : Z) (p : option Z) : code :=
  match p with
  | Some p => gen_cmp_zero p ++ emit_bytes [0x74; 30]
  | None => []
  end ++ gen_move_reg_low 0 v ++ gen_lea_rdx_rip.

Lemma gen_exit_split link v p :
  gen_exit_as link v p true = exit_pre v p ++ gen_link_area link ++ gen_lea_rdx_rip.
Proof. destruct p, link; reflexivity. Qed.

Lemma length_exit_pre v p : Z.of_nat (length (exit_pre v p)) = exit_ret_offset p true.
Proof. by destruct p. Qed.

Lemma generateCode_as_app l1 l2 :
  generateCode_as (l1 ++ l2) =
    k1 ← generateCode_as l1; k2 ← generateCode_as l2; Some (k1 ++ k2).
Proof.
  induction l1 as [|[i link] l1 IH]; cbn.
  - by destruct (generateCode_as l2).
  - destruct (gen_insn_as link i); [|done]. cbn. rewrite IH.
    destruct (generateCode_as l1); [|done]. cbn. destruct (generateCode_as l2); [|done].
    cbn. by rewrite app_assoc.
Qed.

Lemma length_link_area link : length (gen_link_area link) = 13%nat.
Proof. by destruct link. Qed.

(** The link area of exit [n], in the middle of the block. *)
Lemma block_split l c p0 n v p link q :
  block_code l c p0 -> l !! n = Some (X86_EXIT v p true, link) ->
  exit_pos (fst <$> l) n = Some q ->
  exists ka kb, 0 <= q /\ Z.of_nat (length ka) = q /\
    (forall link', generateCode_as (<[n := (X86_EXIT v p true, link')]> l) =
       Some (ka ++ gen_link_area link' ++ kb)) /\
    code_at c p0 (ka ++ gen_link_area link ++ kb).
Proof.
  intros [(kc & Hkc & Hc) _] Hn Hq.
  assert (Hsplit : forall link', <[n := (X86_EXIT v p true, link')]> l =
    take n l ++ (X86_EXIT v p true, link') :: drop (S n) l).
  { intros link'. apply insert_take_drop. by eapply lookup_lt_Some. }
  assert (Hl : l = take n l ++ (X86_EXIT v p true, link) :: drop (S n) l)
    by (symmetry; by apply take_drop_middle).
  rewrite Hl in Hkc. rewrite generateCode_as_app in Hkc.
  destruct (generateCode_as (take n l)) as [k1|] eqn:E1; [|done].
  cbn [mbind option_bind generateCode_as gen_insn_as] in Hkc.
  destruct (generateCode_as (drop (S n) l)) as [k2|] eqn:E2; [|done].
  cbn [mbind option_bind] in Hkc. injection Hkc as <-.
  exists (k1 ++ exit_pre v p), (gen_lea_rdx_rip ++ k2).
  assert (Hlen : Z.of_nat (length (k1 ++ exit_pre v p)) = q).
  { unfold exit_pos in Hq. rewrite list_lookup_fmap, Hn in Hq.
    cbn [fmap option_fmap option_map mbind option_bind fst] in Hq.
    apply generateCode_as_length in E1 as (k1' & Hg & Hk1). rewrite fmap_take in Hg.
    change (list_fmap _ _ fst l) with (fst <$> l) in Hq. rewrite Hg in Hq.
    cbn [mbind option_bind exit_end] in Hq. injection Hq as <-.
    rewrite length_app, Nat2Z.inj_add, length_exit_pre, Hk1. done. }
  split; [lia|]. split; [done|]. split.
  - intros link'. rewrite Hsplit, generateCode_as_app, E1.
    cbn [mbind option_bind generateCode_as gen_insn_as]. rewrite E2.
    cbn [mbind option_bind]. by rewrite gen_exit_split, <- !app_assoc.
  - rewrite gen_exit_split in Hc. by rewrite <- !app_assoc in *.
Qed.

(** [patch] on the area of an exit that is not linked succeeds, and links
    that exit and nothing else. *)
Lemma patch_links l c p0 n v p q t :
  block_code l c p0 -> l !! n = Some (X86_EXIT v p true, None) ->
  exit_pos (fst <$> l) n = Some q ->
  (Z.to_nat (p0 + q) + 11 <= length c)%nat /\
  exists c', patch c (Z.to_nat (p0 + q)) t = Some c' /\ length c' = length c /\
    block_code (<[n := (X86_EXIT v p true, Some t)]> l) c' p0.
Proof.
  intros Hb Hn Hq. pose proof Hb as [_ Hlk].
  destruct (block_split l c p0 n v p None q Hb Hn Hq) as (ka & kb & Hq0 & Hka & Hgen & Hc).
  pose proof Hc as [Hp00 _].
  apply code_at_app in Hc as [Hca Hc]. rewrite Hka in Hc.
  apply code_at_app in Hc as [Hcl Hcb].
  assert (Hat : forall i b, gen_link_area None !! i = Some (Some b) ->
            c !! (Z.to_nat (p0 + q) + i)%nat = Some b) by (intros i b Hi; by apply Hcl).
  assert (Hlen : (Z.to_nat (p0 + q) + 11 <= length c)%nat).
  { assert (c !! (Z.to_nat (p0 + q) + 12)%nat = Some 0xe0) as H by (by apply Hat).
    apply lookup_lt_Some in H. lia. }
  assert (H0 : c !! Z.to_nat (p0 + q) = Some 0xc3).
  { rewrite <- (Nat.add_0_r (Z.to_nat (p0 + q))). by apply Hat. }
  destruct (patch c (Z.to_nat (p0 + q)) t) as [c'|] eqn:Ep; [|by unfold patch in Ep; rewrite H0 in Ep].
  split; [done|]. exists c'. split; [done|].
  destruct (patch_lookup _ _ _ _ Ep Hlen) as (_ & Hp0 & Hsame & Himm).
  split; [by apply (patch_length _ _ _ _ Ep)|].
  constructor.
  - eexists. split; [apply Hgen|]. apply code_at_app. split.
    { eapply code_at_agree; [|exact Hca]. intros i Hi. apply Hsame. lia. }
    rewrite Hka. apply code_at_app. split.
    + split; [lia|]. intros i b Hi.
      pose proof (lookup_lt_Some _ _ _ Hi) as Hi13. rewrite length_link_area in Hi13.
      destruct (decide (i = 0%nat)) as [->|Hi0].
      { rewrite Nat.add_0_r, Hp0. injection Hi as <-. done. }
      destruct (decide (3 <= i < 11)%nat) as [Hm|Hm].
      { replace (Z.to_nat (p0 + q) + i)%nat with (Z.to_nat (p0 + q) + 3 + (i - 3))%nat by lia.
        rewrite Himm by lia.
        do 11 (destruct i as [|i]; [try lia; cbn in Hi |- *; congruence || (injection Hi as <-; by rewrite wrap8_byte_of)|]). lia. }
      rewrite Hsame by lia. apply Hat.
      do 13 (destruct i as [|i]; [try lia; exact Hi|]). lia.
    + rewrite length_link_area in *. eapply code_at_agree; [|exact Hcb].
      intros i Hi. apply Hsame. lia.
  - apply Forall_insert; [done|]. intros Hne. by destruct (Hne v p).
Qed.
End linking.

(** What the first pass hands to the second. *)
Lemma builder_xwf `{Hcr : CallResults} j be s :
  builder_wf j -> clean_ok [] (insns j) = true ->
  allocateInstructions (insns j) (with_ir (fun _ => regs j) (reset be)) = Some (tt, s) ->
  xwf (last_of (xregs s)) [] 0 (xinsns s).
Proof.
  intros Hj Hc E. destruct (reset_xinv j be Hj) as [Hx Hir].
  assert (Hwf : ir_wf (ir_last (with_ir (fun _ => regs j) (reset be))) [] (insns j)).
  { apply (builder_ir_wf j []); [done|done|]. intros r. split.
    - intros Hr. by apply elem_of_nil in Hr.
    - intros (k & i & Hk & _). done. }
  assert (Hl : helper_law (fun _ _ _ _ _ => None) (fun _ _ _ _ => None)) by done.
  destruct (allocateInstructions_sim _ _ Hl 0 _ _ [] _ _ [] E Hx Hir (reset_const j be Hj) Hwf Hc) as [Hx1 _].
  exact (xi_wf _ Hx1).
Qed.

(** ** The theorems *)

Section theorems.
Context `{Hcr : CallResults} {ir_call callee} `{!HelperAbi ir_call callee}.
Context (j : jitter) (be : inter).
Hypothesis Hj : builder_wf j.
Hypothesis Hclean : clean_ok [] (insns j) = true.

(** The instructions over hardware registers of the block. *)
Definition block_insns : option (list (x86Instruction Z)) :=
  fst <$> allocate (insns j) (with_ir (fun _ => regs j) (reset be)).

(** Code as [jit] leaves it, no exit linked. *)
Lemma jitCode_block old size n c be1 :
  jitCode j (reset be) old size = Some (n, c, be1) -> size <= Z.of_nat (length old) ->
  exists hw, block_insns = Some hw /\ block_code ((fun i => (i, None)) <$> hw) c 0 /\
             length c = length old.
Proof.
  intros H Hs. unfold jitCode in H. rewrite jitCode_irArray_eq in H by done.
  apply jit_inv in H as (hw & kc & Ha & Eg & _ & _ & Hl & ->). unfold block_insns. rewrite Ha.
  exists hw. split; [done|]. split; [|apply length_flush]. constructor.
  - exists kc. rewrite generateCode_as_None. split; [done|]. by apply code_at_flush.
  - apply Forall_fmap, Forall_true. by intros i.
Qed.

Lemma fmap_fst_None (hw : list (x86Instruction Z)) :
  fst <$> ((fun i => (i, None : option Z)) <$> hw) = hw.
Proof. rewrite <- list_fmap_compose. apply list_fmap_id. Qed.

(** The generated code returns the value the IR exits with. *)
Lemma block_returns old size n c be1 ctx m v m' base k :
  jitCode j (reset be) old size = Some (n, c, be1) -> size <= Z.of_nat (length old) ->
  ir_run ir_call ctx (insns j) ∅ m = Some (v, m') ->
  regs_ok k -> rf k RDI = ctx -> mm k = m ->
  exists fuel k', mrun callee fuel c base 0 k = Some (MRet k') /\
    rf k' RAX = v /\ mm k' = m' /\ stk k' = stk k /\ rf k' RDI = ctx.
Proof.
  intros H Hs Hrun Hk Hdi Hm. destruct (jitCode_block _ _ _ _ _ H Hs) as (hw & Hhw & Hb & _).
  unfold block_insns in Hhw. destruct (allocate _ _) as [[hw' be2]|] eqn:Ea; [|done].
  injection Hhw as ->.
  destruct (block_runs j be Hj Hclean hw be2 ctx m v m' Ea Hrun) as (x & _ & _ & Hall).
  destruct (Hall _ c 0 base k (fmap_fst_None hw) Hb Hk Hdi Hm) as (link & q & k' & Hl & _ & T & E).
  rewrite list_lookup_fmap in Hl. destruct (hw !! x); [|done]. injection Hl as <-.
  rewrite Z.add_0_l in T, E. destruct E as [Hret Hax _ Hmm Hst Hdi' _ _].
  destruct (msteps_mrun callee c base 0 k q k' 1 (MRet k') T) as [fuel Hf].
  { cbn [mrun]. by rewrite Hret. }
  exists fuel, k'. by subst.
Qed.

(** After the exit taken was linked, the same run jumps to the target. *)
Lemma block_chains old size n c be1 ctx m v m' base k :
  jitCode j (reset be) old size = Some (n, c, be1) -> size <= Z.of_nat (length old) ->
  ir_run ir_call ctx (insns j) ∅ m = Some (v, m') ->
  regs_ok k -> rf k RDI = ctx -> mm k = m ->
  exists fuel k', mrun callee fuel c base 0 k = Some (MRet k') /\
    if exit_is_constant ir_call ctx [] (insns j) ∅ m then
      exists q, 0 <= q /\ rf k' RDX = wrap 64 (base + q) /\
      forall t, exists c', patch c (Z.to_nat q) t = Some c' /\ length c' = length c /\
      exists fuel' k2, mrun callee fuel' c' base 0 k = Some (MJump (wrap 64 t) k2) /\
        mm k2 = m' /\ stk k2 = stk k /\ rf k2 RDI = ctx /\ regs_ok k2
    else rf k' RDX = 0.
Proof.
  intros H Hs Hrun Hk Hdi Hm. destruct (jitCode_block _ _ _ _ _ H Hs) as (hw & Hhw & Hb & _).
  unfold block_insns in Hhw. destruct (allocate _ _) as [[hw' be2]|] eqn:Ea; [|done].
  injection Hhw as ->.
  destruct (block_runs j be Hj Hclean hw be2 ctx m v m' Ea Hrun) as (x & (ev & ep & Hx) & _ & Hall).
  set (b := exit_is_constant _ _ _ _ _ _) in *. clearbody b.
  set (l := (fun i => (i, None : option Z)) <$> hw) in *.
  destruct (Hall l c 0 base k (fmap_fst_None hw) Hb Hk Hdi Hm) as (link & q & k' & Hl & Hq & T & E).
  rewrite Z.add_0_l in T, E.
  assert (Hlx : l !! x = Some (X86_EXIT ev ep b, None)) by (unfold l; by rewrite list_lookup_fmap, Hx).
  rewrite Hlx in Hl. injection Hl as <-. destruct E as [Hret Hax Hdx Hmm Hst Hdi' _ _].
  destruct (msteps_mrun callee c base 0 k q k' 1 (MRet k') T) as [fuel Hf].
  { cbn [mrun]. by rewrite Hret. }
  exists fuel, k'. split; [done|]. destruct b; [|done].
  exists q. split.
  { rewrite <- (fmap_fst_None hw) in Hq. fold l in Hq. by destruct (block_split l c 0 x ev ep None q Hb Hlx Hq) as (? & ? & ? & _). }
  split; [done|]. intros t.
  destruct (patch_links l c 0 x ev ep q t Hb Hlx) as (_ & c' & Hp & Hlen & Hb').
  { pose proof (fmap_fst_None hw) as Hl0. fold l in Hl0. by rewrite Hl0. }
  exists c'. split; [done|]. split; [done|].
  assert (Hfst : fst <$> <[x := (X86_EXIT ev ep true, Some t)]> l = hw).
  { rewrite list_fmap_insert. pose proof (fmap_fst_None hw) as Hl0. fold l in Hl0.
    rewrite Hl0. by apply list_insert_id. }
  destruct (Hall _ c' 0 base k Hfst Hb' Hk Hdi Hm) as (link & q' & k2 & Hl & _ & T2 & E2).
  rewrite list_lookup_insert_eq in Hl by (by eapply lookup_lt_Some). injection Hl as <-.
  destruct E2 as [(q2 & T3 & Hj2) _ _ Hmm2 Hst2 Hdi2 Hr2 _].
  destruct (msteps_mrun callee c' base 0 k q2 _ 1 (MJump (wrap 64 t) (set_reg RAX (wrap 64 t) k2))
              (transitivity (R := msteps callee c' base) T2 T3)) as [fuel' Hf'].
  { cbn [mrun]. by rewrite Hj2. }
  exists fuel', (set_reg RAX (wrap 64 t) k2). split; [done|].
  split; [exact Hmm2|split; [exact Hst2|split; [exact Hdi2|]]].
  intros d Hd. cbn [set_reg rf]. unfold upd. rewrite decide_False; [by apply Hr2|].
  unfold HW, RAX, hwreg in *. lia.
Qed.
End theorems.
