(* ===== verification/X86Theorems.v ===== *)
(** * What the back end guarantees

    The statements about the x86_64 back end as a whole: blocks built through
    the IR builder are compiled correctly, exits can be chained, live values
    do not share registers, markers are found, what is written to the code
    buffer is bounded by the block; and what happens when the static check on stale upper bits is not met. *)

From S2P Require Import Prelude Ir Jitter BeX86 BeGen X86Sem X86Exec X86Correct X86Alloc X86Select X86Sim X86Const X86Compile.

(** ** A concrete setting *)

(** One helper, at address 0x1000: it adds its two 64-bit parameters and
    clobbers every register it may. *)
Definition demo_ir_call (w : option irRegisterType) (a ctx : Z)
    (vs : list (option (irRegisterType * Z))) (m : mem) : option (mem * Z) :=
  match vs with
  | [Some (IR_REG_64, x); Some (IR_REG_64, y); None; None] =>
      if a =? 0x1000 then Some (m, x + y) else None
  | _ => None
  end.

Definition demo_helper_call (a ctx : Z) (ps : list (option Z)) (m : mem) : option (mem * Z) :=
  match ps with
  | [Some x; Some y; None; None] => if a =? 0x1000 then Some (m, x + y) else None
  | _ => None
  end.

Definition demo_callee (a : Z) (f : Z -> Z) (m : mem) : (Z -> Z) * bool * mem :=
  (fun r => if decide (r = RAX) then f RSI + f RDX else 57005, true, m).

#[local] Instance demo_results : CallResults := {| zero_extends := false |}.
#[local, program] Instance demo_abi : HelperAbi demo_ir_call demo_callee :=
  {| helper_call := demo_helper_call |}.
Next Obligation.
  intros w a ctx vs xs m m' v H Hc. unfold demo_ir_call in Hc.
  destruct vs as [|[[[] x]|] [|[[[] y]|] [|[[]|] [|[[]|] []]]]]; try discriminate Hc.
  destruct (a =? 0x1000) eqn:E; [|discriminate Hc]. injection Hc as <- <-.
  apply Forall2_cons_inv_l in H as ([x'|] & l1 & Hx & H & ->); [|by destruct Hx].
  apply Forall2_cons_inv_l in H as ([y'|] & l2 & Hy & H & ->); [|by destruct Hy].
  apply Forall2_cons_inv_l in H as ([|] & l3 & H3 & H & ->); [by destruct H3|].
  apply Forall2_cons_inv_l in H as ([|] & l4 & H4 & H & ->); [by destruct H4|].
  apply Forall2_nil_inv_l in H as ->. destruct Hx as [Rx Lx], Hy as [Ry Ly].
  cbn [bits] in Lx, Ly. rewrite wrap_small in Lx, Ly by done. subst.
  unfold demo_helper_call. rewrite E. by eexists.
Qed.
Next Obligation.
  intros f a ps m m' v _ Hr Hc. unfold demo_helper_call in Hc.
  destruct ps as [|[x|] [|[y|] [|[] [|[] []]]]]; try discriminate Hc.
  destruct (a =? 0x1000); [|discriminate Hc]. injection Hc as <- <-.
  eexists _, true. split; [done|]. cbn beta. rewrite decide_True by done.
  assert (f RSI = x) as -> by exact (Hr 0%nat x eq_refl).
  by assert (f RDX = y) as -> by exact (Hr 1%nat y eq_refl).
Qed.

Definition demo_mem : mem := fun a => if decide (a = 4104) then 7 else 0.
Definition demo_cpu : cpu := mkCpu (fun r => if decide (r = RDI) then 4096 else 0) false demo_mem [].
Definition demo_inter : inter := createBackend 32768.

Lemma demo_regs_ok : regs_ok demo_cpu.
Proof.
  intros d Hd. unfold demo_cpu. cbn [rf]. rewrite decide_False; [lia|].
  unfold HW, RDI, hwreg in *. lia.
Qed.

Definition demo_buffer : list Z := replicate 512 0.

(** ** Compilation *)

(** C1. The compiler is correct.  For a block built by any session of requests
    and passing the static check on stale upper bits, if [jitCode] produces
    code, then running it on any machine state that follows the entry
    convention (context pointer in rdi) terminates with [ret]: rax is the value
    the IR exits with, memory is what the IR leaves, the stack and rdi are
    unchanged.  The three passes, byte encodings included, are the code's. *)
Theorem jitCode_correct `{Hcr : CallResults} {ir_call callee} `{!HelperAbi ir_call callee}
    cs j0 j be old size n c be1 ctx m v m' base k :
  session_valid cs (resetJitter j0) = true ->
  irAlloc_session cs (resetJitter j0) = Some (tt, j) ->
  clean_ok [] (insns j) = true ->
  jitCode j (reset be) old size = Some (n, c, be1) -> size <= Z.of_nat (length old) ->
  ir_run ir_call ctx (insns j) ∅ m = Some (v, m') ->
  regs_ok k -> rf k RDI = ctx -> mm k = m ->
  exists fuel k', mrun callee fuel c base 0 k = Some (MRet k') /\
    rf k' RAX = v /\ mm k' = m' /\ stk k' = stk k /\ rf k' RDI = ctx.
Proof.
  intros Hv Hs Hc. assert (Hwf : builder_wf j).
  { by eapply irAlloc_session_keeps_wf; [apply resetJitter_wf| |]. }
  by apply block_returns.
Qed.

Lemma jitCode_correct_witness :
  exists n c be1 m' fuel k',
    jitCode demo_jitter (reset demo_inter) demo_buffer 512 = Some (n, c, be1) /\
    mrun demo_callee fuel c 0 0 demo_cpu = Some (MRet k') /\
    rf k' RAX = 2 ^ 32 /\ mm k' = m' /\ load_mem IR_REG_64 m' (4096 + 16) = 15.
Proof.
  destruct (jitCode demo_jitter (reset demo_inter) demo_buffer 512) as [[[n c] be1]|] eqn:Ej;
    [|vm_compute in Ej; discriminate Ej].
  assert (Ho : option_map (fun o => (o.1, load_mem IR_REG_64 o.2 (4096 + 16)))
                 (ir_run demo_ir_call 4096 (insns demo_jitter) ∅ demo_mem) = Some (2 ^ 32, 15))
    by (vm_compute; reflexivity).
  destruct (ir_run demo_ir_call 4096 (insns demo_jitter) ∅ demo_mem) as [[v m']|] eqn:Er;
    [|discriminate Ho].
  injection Ho as Hv Hm.
  destruct (jitCode_correct demo_session fresh_jitter demo_jitter demo_inter demo_buffer 512
              n c be1 4096 demo_mem v m' 0 demo_cpu) as (fuel & k' & Hr & Ha & Hm' & _ & _);
    [vm_compute; reflexivity|vm_compute; reflexivity|vm_compute; reflexivity|exact Ej
    |vm_compute; discriminate|exact Er|exact demo_regs_ok|reflexivity|reflexivity|].
  exists n, c, be1, m', fuel, k'. split; [reflexivity|]. split; [exact Hr|].
  split; [congruence|]. split; [exact Hm'|exact Hm].
Defined.

(** C2. Chaining.  A block passing the static check on stale upper bits leaves
    with the address of a link area in rdx exactly when the exit it takes has a
    constant value, that is when its register was written by a move of a
    constant; otherwise rdx is 0.  [patch] on that area succeeds for any
    target, keeps the size of the code, and running the patched block from the
    same state now jumps to the target with the memory, stack and context
    pointer the return had. *)
Theorem jitCode_chains `{Hcr : CallResults} {ir_call callee} `{!HelperAbi ir_call callee}
    cs j0 j be old size n c be1 ctx m v m' base k :
  session_valid cs (resetJitter j0) = true ->
  irAlloc_session cs (resetJitter j0) = Some (tt, j) ->
  clean_ok [] (insns j) = true ->
  jitCode j (reset be) old size = Some (n, c, be1) -> size <= Z.of_nat (length old) ->
  ir_run ir_call ctx (insns j) ∅ m = Some (v, m') ->
  regs_ok k -> rf k RDI = ctx -> mm k = m ->
  exists fuel k', mrun callee fuel c base 0 k = Some (MRet k') /\
    if exit_is_constant ir_call ctx [] (insns j) ∅ m then
      exists q, 0 <= q /\ rf k' RDX = wrap 64 (base + q) /\
      forall t, exists c', patch c (Z.to_nat q) t = Some c' /\ length c' = length c /\
      exists fuel' k2, mrun callee fuel' c' base 0 k = Some (MJump (wrap 64 t) k2) /\
        mm k2 = m' /\ stk k2 = stk k /\ rf k2 RDI = ctx /\ regs_ok k2
    else rf k' RDX = 0.
Proof.
  intros Hv Hs Hc. assert (Hwf : builder_wf j).
  { by eapply irAlloc_session_keeps_wf; [apply resetJitter_wf| |]. }
  by apply block_chains.
Qed.

Lemma jitCode_chains_witness :
  exists n c be1 fuel k' q,
    jitCode demo_jitter (reset demo_inter) demo_buffer 512 = Some (n, c, be1) /\
    mrun demo_callee fuel c 0 0 demo_cpu = Some (MRet k') /\ rf k' RDX = wrap 64 q /\
    exists c' fuel' k2, patch c (Z.to_nat q) 0x7f0000001000 = Some c' /\
      mrun demo_callee fuel' c' 0 0 demo_cpu = Some (MJump 0x7f0000001000 k2).
Proof.
  destruct (jitCode demo_jitter (reset demo_inter) demo_buffer 512) as [[[n c] be1]|] eqn:Ej;
    [|vm_compute in Ej; discriminate Ej].
  assert (Hx : exit_is_constant demo_ir_call 4096 [] (insns demo_jitter) ∅ demo_mem = true) by (vm_compute; reflexivity).
  destruct (ir_run demo_ir_call 4096 (insns demo_jitter) ∅ demo_mem) as [[v m']|] eqn:Er;
    [|vm_compute in Er; discriminate Er].
  destruct (jitCode_chains demo_session fresh_jitter demo_jitter demo_inter demo_buffer 512
              n c be1 4096 demo_mem v m' 0 demo_cpu) as (fuel & k' & Hr & Hb);
    [vm_compute; reflexivity|vm_compute; reflexivity|vm_compute; reflexivity|exact Ej
    |vm_compute; discriminate|exact Er|exact demo_regs_ok|reflexivity|reflexivity|].
  rewrite Hx in Hb. destruct Hb as (q & _ & Hq & Ht).
  exists n, c, be1, fuel, k', q. split; [reflexivity|]. split; [exact Hr|]. split; [exact Hq|].
  destruct (Ht 0x7f0000001000) as (c' & Hp & _ & fuel' & k2 & Hj & _).
  exists c', fuel', k2. split; [exact Hp|exact Hj].
Defined.

(** ** The code buffer *)

(** The most bytes [generateCode] writes for an operator and for what the first
    pass makes of an IR instruction. *)
Definition binop_bytes (k : binopKind) (w : irRegisterType) : nat :=
  (match k with
   | ADD | SUB | XOR | AND | OR => 6
   | SHL | SHR => 9
   | ASR => match w with IR_REG_64 => 9 | _ => 37 end
   | ROR => match w with IR_REG_16 => 10 | _ => 9 end
   | CMPEQ | CMPNE => 18
   end + match w with IR_REG_64 => 0 | _ => 13 end)%nat.

Definition insn_bytes (i : irInstruction) : nat :=
  match i with
  | IR_MOV_CONST _ _ _ => 10
  | IR_LOAD w _ _ | IR_STORE w _ _ => match w with IR_REG_16 => 9 | _ => 8 end
  | IR_BINOP (IR_BINOP_ k w) _ _ _ => binop_bytes k w
  | IR_ITE _ _ _ _ _ => 14
  | IR_CAST _ _ _ => 13
  | IR_EXIT _ None => 30
  | IR_EXIT _ (Some _) => 39
  | IR_CALL _ _ _ _ => 45
  | IR_READ w _ _ | IR_WRITE w _ _ => match w with IR_REG_16 => 8 | _ => 7 end
  | IR_INSN_MARKER _ => 0
  end.

Definition block_bytes (l : list irInstruction) : nat := sum_list (insn_bytes <$> l).

Lemma generateCode_app l1 l2 c :
  generateCode (l1 ++ l2) = Some c ->
  exists c1 c2, generateCode l1 = Some c1 /\ generateCode l2 = Some c2 /\ c = c1 ++ c2.
Proof.
  revert c. induction l1 as [|i l1 IH]; intros c H; cbn in H; [by exists [], c|].
  apply bind_Some in H as (ci & Hi & H). apply bind_Some in H as (cs & H & [= <-]).
  destruct (IH _ H) as (c1 & c2 & H1 & H2 & ->). exists (ci ++ c1), c2. cbn. rewrite Hi. cbn. rewrite H1. cbn.
  by rewrite app_assoc.
Qed.

Lemma length_mov_const d v : (length (gen_mov_const_hlp d v) <= 10)%nat.
Proof. unfold gen_mov_const_hlp. destruct (negb _); cbn; lia. Qed.

Lemma length_call a ps r : (length (gen_call a ps r) <= 45)%nat.
Proof.
  unfold gen_call. rewrite !length_app.
  assert (Hp : forall l p, (length (gen_param l p) <= 3)%nat) by (by intros l [x|]; cbn; lia).
  pose proof (Hp 1 (param_at ps 2)). pose proof (Hp 2 (param_at ps 1)). pose proof (Hp 6 (param_at ps 0)).
  destruct (param_at ps 3), r; cbn in *; lia.
Qed.

Lemma chunk_bytes g f n b i c :
  generateCode (x86_map g <$> x_chunk f n b i) = Some c -> (length c <= insn_bytes i)%nat.
Proof.
  destruct i as [w d v|w d a|w s a|[k w] d p q|w a ps r|w d p t e|t d o|v [p|]|w d off|w s off|v];
    cbn [x_chunk fmap list_fmap x86_map generateCode gen_insn mbind option_bind option_map];
    try (destruct w; intros [= <-]; cbn; lia).
  - intros [= <-]. rewrite app_nil_r. apply length_mov_const.
  - assert (Hm := length_mov_const (g (n + 1)%nat)).
    destruct k, w; cbn; intros [= <-]; cbn; lia.
  - intros [= <-]. rewrite app_nil_r. apply length_call.
  - destruct t; intros [= <-]; cbn; lia.
  - destruct b; intros [= <-]; cbn; lia.
  - destruct b; intros [= <-]; cbn; lia.
  - done.
Qed.

Lemma allocateInstructions_bytes l D s s' :
  allocateInstructions l s = Some (tt, s') -> xinv s -> irinv D s -> ir_wf (ir_last s) D l ->
  exists rest, xinsns s' = xinsns s ++ rest /\
    forall g c, generateCode (x86_map g <$> rest) = Some c -> (length c <= block_bytes l)%nat.
Proof.
  revert D s. induction l as [|i l IH]; intros D s H Hx Hir Hwf.
  - cbn in H. inv_run. exists []. rewrite app_nil_r. split; [done|]. by intros g c [= <-].
  - cbn [allocateInstructions] in H. apply bind_Some_inv in H as ([] & s1 & Hi & H2).
    destruct Hwf as (Hu & Hd & Hwf).
    pose proof (allocateInstruction_selects D i s s1 Hi Hx Hir Hu Hd) as [[b Hb] Hx1 Hir1 Hl1 _ _].
    destruct (IH _ s1 H2 Hx1 Hir1) as (rest & Hrest & Hlen).
    { apply (ir_wf_ext (ir_last s)); [|done]. intros r. by rewrite Hl1. }
    rewrite Hrest, Hb, <- app_assoc. eexists. split; [done|]. intros g c Hc.
    rewrite fmap_app in Hc. apply generateCode_app in Hc as (c1 & c2 & E1 & E2%Hlen & ->).
    rewrite length_app. unfold block_bytes in *. cbn [fmap list_fmap sum_list].
    destruct (dropped s i); [injection E1 as <-; cbn; lia|]. apply chunk_bytes in E1. cbn in *. lia.
Qed.

Lemma length_flush_drop c mem :
  length (flush mem c) = length mem /\ drop (length c) (flush mem c) = drop (length c) mem.
Proof.
  split; [apply length_flush|]. revert mem. induction c as [|[b|] c IH]; intros [|o mem]; cbn; try done; apply IH.
Qed.

(** C25. What [jit] writes.  For a block built by any session, the code goes
    to the first [n] bytes of the memory at [buffer], whatever [bufferSize]
    is; the memory after them is unchanged; [n] is at most the sum of what
    each IR instruction can need.  The size is compared with [bufferSize]
    afterwards: [jit] answers [n] when it is within it and stops when it is
    not.  So a block whose bound is within [bufferSize] is accepted with
    nothing written outside the buffer. *)
Theorem jit_respects_buffer cs j0 j be mem bufferSize n mem' s1 :
  session_valid cs (resetJitter j0) = true ->
  irAlloc_session cs (resetJitter j0) = Some (tt, j) ->
  jit_code (insns j) (with_ir (fun _ => regs j) (reset be)) mem = Some (n, mem', s1) ->
  0 <= n <= Z.of_nat (block_bytes (insns j)) /\
  length mem' = length mem /\ drop (Z.to_nat n) mem' = drop (Z.to_nat n) mem /\
  (jitCode j (reset be) mem bufferSize = None <-> bufferSize < n) /\
  (n <= bufferSize -> jitCode j (reset be) mem bufferSize = Some (n, mem', s1)) /\
  (Z.of_nat (block_bytes (insns j)) <= bufferSize ->
   jitCode j (reset be) mem bufferSize = Some (n, mem', s1) /\
   drop (Z.to_nat bufferSize) mem' = drop (Z.to_nat bufferSize) mem).
Proof.
  intros Hv Hs H. assert (Hwf : builder_wf j).
  { by eapply irAlloc_session_keeps_wf; [apply resetJitter_wf| |]. }
  unfold jitCode, jit. rewrite jitCode_irArray_eq, H by done. cbn [mbind option_bind].
  unfold jit_code, allocate, write_code in H.
  destruct (allocateInstructions _ _) as [[[] s]|] eqn:E; [|done]. cbn [mbind option_bind] in H.
  destruct (allocateRegisters _ _) as [xr|]; [|done]. cbn [mbind option_bind] in H.
  destruct (generateCode _) as [c|] eqn:Eg; [|done]. cbn [mbind option_bind] in H.
  destruct (_ <=? _)%nat; [|done]. injection H as <- <- <-. rewrite Nat2Z.id.
  destruct (reset_xinv j be Hwf) as [Hx Hir].
  destruct (allocateInstructions_bytes _ [] _ _ E Hx Hir) as (rest & Hrest & Hlen).
  { apply (builder_ir_wf j []); [done|done|]. intros r. split.
    + intros Hr. by apply elem_of_nil in Hr.
    + by intros (k & i & Hk & _). }
  cbn in Hrest. rewrite Hrest in Eg. apply Hlen in Eg.
  destruct (length_flush_drop c mem) as [Hl Hd].
  destruct (Z.leb_spec (Z.of_nat (length c)) bufferSize); split_and!; try done; try lia; try (split; [done|lia]).
  intros _. split; [done|]. rewrite <- (Nat.sub_add (length c) (Z.to_nat bufferSize)) by lia.
  by rewrite Nat.add_comm, <- !drop_drop, Hd.
Qed.

Lemma jit_respects_buffer_witness :
  exists n mem' s1, jitCode demo_jitter (reset demo_inter) demo_buffer 400 = Some (n, mem', s1) /\
    block_bytes (insns demo_jitter) = 268%nat /\ 0 <= n <= 268 /\
    drop 400 mem' = replicate 112 0 /\ jitCode demo_jitter (reset demo_inter) demo_buffer (n - 1) = None.
Proof.
  destruct (jit_code (insns demo_jitter) (with_ir (fun _ => regs demo_jitter) (reset demo_inter)) demo_buffer)
    as [[[n mem'] s1]|] eqn:E; [|vm_compute in E; discriminate E].
  assert (Hb : block_bytes (insns demo_jitter) = 268%nat) by (vm_compute; reflexivity).
  assert (Hv : session_valid demo_session (resetJitter fresh_jitter) = true) by (vm_compute; reflexivity).
  assert (Hs : irAlloc_session demo_session (resetJitter fresh_jitter) = Some (tt, demo_jitter)) by (vm_compute; reflexivity).
  pose proof (fun size => jit_respects_buffer demo_session fresh_jitter demo_jitter demo_inter demo_buffer size
                n mem' s1 Hv Hs E) as H.
  destruct (H 400) as (Hn & _ & _ & _ & _ & Hok). rewrite Hb in Hn, Hok.
  destruct Hok as [Hj Hd]; [lia|].
  destruct (H (n - 1)) as (_ & _ & _ & Hnone & _).
  exists n, mem', s1. split; [exact Hj|]. split; [exact Hb|]. split; [exact Hn|].
  split; [exact Hd|apply Hnone; lia].
Defined.

(** ** Registers *)

(** C4. Register allocation is sound: on instructions that write each register
    once, before its uses, and read it no later than [lastReadIndex], if
    [allocateRegisters] succeeds, then at every instruction the operands have
    hardware registers r8 to r15 and the destination's register is neither
    that of an operand nor that of any value read at this instruction or
    later. *)
Theorem allocateRegisters_sound l xr xr' :
  xwf (last_of xr) [] 0 l -> allocateRegisters l xr = Some xr' ->
  alloc_ok (index_of xr') (last_of xr) [] 0 l.
Proof. apply allocateRegisters_ok. Qed.

Definition demo_x86 : list (x86Instruction nat) * list x86Register :=
  match allocateInstructions (insns demo_jitter)
          (with_ir (fun _ => regs demo_jitter) (reset demo_inter)) with
  | Some (_, s) => (xinsns s, xregs s)
  | None => ([], [])
  end.

Lemma allocateRegisters_sound_witness :
  exists xr', allocateRegisters demo_x86.1 demo_x86.2 = Some xr' /\
    alloc_ok (index_of xr') (last_of demo_x86.2) [] 0 demo_x86.1 /\
    length demo_x86.1 = 17%nat.
Proof.
  destruct (allocateRegisters demo_x86.1 demo_x86.2) as [xr'|] eqn:E;
    [|vm_compute in E; discriminate E].
  exists xr'. split; [reflexivity|]. split; [|vm_compute; reflexivity].
  apply (allocateRegisters_sound _ _ _); [|exact E].
  destruct (allocateInstructions (insns demo_jitter)
              (with_ir (fun _ => regs demo_jitter) (reset demo_inter))) as [[[] s]|] eqn:Es;
    [|vm_compute in Es; discriminate Es].
  assert (Hwf : builder_wf demo_jitter).
  { apply (irAlloc_session_keeps_wf demo_session (resetJitter fresh_jitter));
      [apply resetJitter_wf|vm_compute; reflexivity|vm_compute; reflexivity]. }
  unfold demo_x86. rewrite Es. apply (builder_xwf demo_jitter demo_inter s Hwf); [|exact Es].
  vm_compute. reflexivity.
Defined.

(** ** Instruction selection *)

(** C3. The first pass preserves meaning: for a block built by a session and
    passing the static check, the back-end instructions exit with the value
    and the memory of the IR, by an exit marked patchable exactly when its
    value was written by a move of a constant, whatever the back-end registers hold at entry
    and whatever stale bits ([old]) the narrow loads keep; the four-instruction
    sequence for narrow arithmetic shifts and dropped context reads are
    included. *)
Theorem allocateInstructions_correct `{Hcr : CallResults} {ir_call xcall} (Hlaw : helper_law ir_call xcall)
    cs j0 j be s ctx m v m' :
  session_valid cs (resetJitter j0) = true ->
  irAlloc_session cs (resetJitter j0) = Some (tt, j) ->
  clean_ok [] (insns j) = true ->
  allocateInstructions (insns j) (with_ir (fun _ => regs j) (reset be)) = Some (tt, s) ->
  ir_run ir_call ctx (insns j) ∅ m = Some (v, m') ->
  exists n, forall ρv old, (forall k, 0 <= old k < 2 ^ 64) ->
    xrun xcall ctx old ρv m (xinsns s) = Some (n, v, exit_is_constant ir_call ctx [] (insns j) ∅ m, m').
Proof.
  intros Hv Hs Hc E Hrun. assert (Hwf : builder_wf j).
  { by eapply irAlloc_session_keeps_wf; [apply resetJitter_wf| |]. }
  destruct (reset_xinv j be Hwf) as [Hx Hir].
  destruct (allocateInstructions_sim _ _ Hlaw ctx _ _ [] _ _ [] E Hx Hir (reset_const _ _ Hwf)) as (_ & rest & Hr & _ & Hsim);
    [|done|].
  - apply (builder_ir_wf j []); [done|done|]. intros r. split.
    + intros Hr. by apply elem_of_nil in Hr.
    + intros (k & i & Hk & _). done.
  - cbn in Hr. rewrite Hr. destruct (Hsim _ _ _ _ Hrun) as (n & Hn). exists n.
    intros ρv old Hold. apply Hn; [|done]. intros r t x y Hxr. by rewrite lookup_empty in Hxr.
Qed.

Lemma allocateInstructions_correct_witness :
  exists s n m', allocateInstructions (insns demo_jitter)
      (with_ir (fun _ => regs demo_jitter) (reset demo_inter)) = Some (tt, s) /\
    xrun demo_helper_call 4096 (fun _ => 255) (fun _ => 0) demo_mem (xinsns s) =
      Some (n, 2 ^ 32, true, m').
Proof.
  destruct (allocateInstructions (insns demo_jitter)
              (with_ir (fun _ => regs demo_jitter) (reset demo_inter))) as [[[] s]|] eqn:Es;
    [|vm_compute in Es; discriminate Es].
  assert (Ho : option_map fst (ir_run demo_ir_call 4096 (insns demo_jitter) ∅ demo_mem) =
               Some (2 ^ 32)) by (vm_compute; reflexivity).
  destruct (ir_run demo_ir_call 4096 (insns demo_jitter) ∅ demo_mem) as [[v m']|] eqn:Er;
    [|discriminate Ho].
  injection Ho as Hv.
  assert (Hx : exit_is_constant demo_ir_call 4096 [] (insns demo_jitter) ∅ demo_mem = true) by (vm_compute; reflexivity).
  destruct (allocateInstructions_correct helper_ir demo_session fresh_jitter demo_jitter demo_inter s
              4096 demo_mem v m') as (n & Hn);
    [vm_compute; reflexivity|vm_compute; reflexivity|vm_compute; reflexivity|exact Es|exact Er|].
  rewrite Hx in Hn. exists s, n, m'. split; [reflexivity|]. rewrite <- Hv. apply Hn. intros k. split; reflexivity || discriminate.
Defined.

(** ** Code of one instruction *)

(** C26. The bytes [gen_binop] writes for an operator, arithmetic shift right
    included, at any place in any buffer, make the machine put the operator's
    value in the destination: modulo [2^w] for the arithmetic and shifts, all
    ones or zero for the comparisons; the other registers and memory are kept
    and control falls through to the end of the bytes.  The operand registers
    hold values of their width, their upper bits zero, but for the value an
    arithmetic shift moves, which is sign-extended to 64 bits, as the first
    pass makes it; a shift whose amount is the width or more has no value. *)
Theorem gen_binop_correct callee c base w o d p q a b v pos k :
  hwreg d -> hwreg p -> hwreg q -> d <> p -> d <> q -> regs_ok k ->
  rf k (HW p) = (if decide (o = ASR) then wrap 64 (to_signed (bits w) a) else a) -> rf k (HW q) = b ->
  0 <= a < 2 ^ bits w -> 0 <= b < 2 ^ bits (op2_type o w) ->
  irBinop_sem o w a b = Some v ->
  code_at c pos (gen_binop w o d p q (binop_mask w)) ->
  exists k', msteps callee c base (pos, k)
      (pos + Z.of_nat (length (gen_binop w o d p q (binop_mask w))), k') /\
    rf k' (HW d) = v /\ mm k' = mm k /\ stk k' = stk k /\ rf k' RDI = rf k RDI /\
    forall x, hwreg x -> x <> d -> rf k' (HW x) = rf k (HW x).
Proof.
  intros Hd Hp Hq Hdp Hdq Hk Ha <- Ra Rb Hv Hc.
  assert (Hh : holds w false v (xbinop w o (rf k (HW p)) (rf k (HW q)))).
  { rewrite Ha. destruct (decide (o = ASR)) as [->|Ho].
    - exact (holds_asr_extended w _ _ _ _ _ (holds_clean _ _ Rb) Hv).
    - by apply (holds_binop w o false false _ _ _ _ _ Ho (holds_clean _ _ Ra) (holds_clean _ _ Rb)). }
  destruct (binop_effect callee (fun _ _ _ _ => None) c base None w o d p q pos k _ eq_refl Hc) as (k' & T & S).
  - constructor; [cbn [x86_uses]; by rewrite !Forall_cons| |done]. intros d' [= <-]. split; [done|].
    cbn [x86_uses]. rewrite !not_elem_of_cons. split; [done|]. split; [done|]. apply not_elem_of_nil.
  - done.
  - exists k'. split; [exact T|]. destruct S as [Sm Ss Sd Sr]. cbn [x86_def] in Sr.
    split; [|split; [done|split; [done|split; [done|]]]].
    + rewrite (Sr d Hd), decide_True by done. by apply (ho_clean _ _ _ _ Hh).
    + intros x Hx Hne. by rewrite (Sr x Hx), decide_False.
Qed.

Definition sub_cpu : cpu :=
  mkCpu (fun r => if decide (r = HW 1) then 3 else if decide (r = HW 2) then 5 else 0) false
        demo_mem [].

Definition asr_cpu : cpu :=
  mkCpu (fun r => if decide (r = HW 1) then wrap 64 (-32752) else if decide (r = HW 2) then 4 else 0) false
        demo_mem [].

Lemma gen_binop_correct_witness :
  (let kc := gen_binop IR_REG_16 SUB 0 1 2 (binop_mask IR_REG_16) in
   exists k', msteps demo_callee (flush (replicate 64 0) kc) 0 (0, sub_cpu)
      (0 + Z.of_nat (length kc), k') /\ rf k' (HW 0) = 65534) /\
  let kc := gen_binop IR_REG_16 ASR 0 1 2 (binop_mask IR_REG_16) in
  exists k', msteps demo_callee (flush (replicate 64 0) kc) 0 (0, asr_cpu)
      (0 + Z.of_nat (length kc), k') /\ rf k' (HW 0) = 0xf801.
Proof.
  split; intros kc.
  - destruct (gen_binop_correct demo_callee (flush (replicate 64 0) kc) 0 IR_REG_16 SUB 0 1 2 3 5 65534
              0 sub_cpu) as (k' & T & Hv & _);
    [split; reflexivity || discriminate|split; reflexivity || discriminate
    |split; reflexivity || discriminate|discriminate|discriminate| |reflexivity|reflexivity
    |split; reflexivity || discriminate|split; reflexivity || discriminate|reflexivity| |].
    + intros x Hx. unfold sub_cpu. cbn [rf]. repeat case_decide; lia.
    + apply code_at_flush. vm_compute. lia.
    + exists k'. split; [exact T|exact Hv].
  - destruct (gen_binop_correct demo_callee (flush (replicate 64 0) kc) 0 IR_REG_16 ASR 0 1 2 0x8010 4 0xf801
              0 asr_cpu) as (k' & T & Hv & _);
    [split; reflexivity || discriminate|split; reflexivity || discriminate
    |split; reflexivity || discriminate|discriminate|discriminate| |reflexivity|reflexivity
    |split; reflexivity || discriminate|split; reflexivity || discriminate|reflexivity| |].
    + intros x Hx. unfold asr_cpu. cbn [rf]. repeat case_decide; [|lia|lia]. by apply (wrap_range 64).
    + apply code_at_flush. vm_compute. lia.
    + exists k'. split; [exact T|exact Hv].
Defined.

(** ** Markers *)

Fixpoint last_marker (res : Z) (l : list (x86Instruction Z)) : Z :=
  match l with
  | [] => res
  | X86_INSN_MARKER v :: l => last_marker v l
  | _ :: l => last_marker res l
  end.

(** The code before a point of the block; markers have none. *)
Fixpoint code_before (l : list (x86Instruction Z)) : option code :=
  match l with
  | [] => Some []
  | X86_INSN_MARKER _ :: l => code_before l
  | i :: l => c ← gen_insn i; cs ← code_before l; Some (c ++ cs)
  end.

Lemma findInsnInCode_loop_skip l1 l2 c1 pos offset res :
  code_before l1 = Some c1 -> pos + Z.of_nat (length c1) < offset ->
  findInsnInCode_loop (l1 ++ l2) pos offset res =
    '(r, c2) ← findInsnInCode_loop l2 (pos + Z.of_nat (length c1)) offset (last_marker res l1);
    Some (r, c1 ++ c2).
Proof.
  revert c1 pos res. induction l1 as [|i l1 IH]; intros c1 pos res Hc Ho.
  - injection Hc as <-. rewrite Z.add_0_r. cbn. by destruct (findInsnInCode_loop l2 pos offset res) as [[]|].
  - destruct i as [| | | | | | | | | |v];
      try (cbn [code_before] in Hc; apply bind_Some in Hc as (c & Eg & Hc); apply bind_Some in Hc as (cs & Ek & [= <-]);
           rewrite length_app, Nat2Z.inj_add, Z.add_assoc in Ho |- *;
           cbn [app findInsnInCode_loop last_marker]; rewrite Eg; cbn [mbind option_bind];
           rewrite (proj2 (Z.leb_gt _ _)) by lia; rewrite (IH cs) by (done || lia);
           destruct (findInsnInCode_loop l2 _ _ _) as [[r c2]|]; [|done]; cbn [mbind option_bind]; by rewrite app_assoc).
    cbn [app findInsnInCode_loop last_marker]. rewrite (proj2 (Z.leb_gt _ _)) by lia.
    by apply IH.
Qed.

(** C33. [findInsn]: for an offset strictly inside or at the end of the code of
    an instruction, the answer is the value of the last marker emitted before
    that instruction, [~0] when there is none.  The code up to the end of that
    instruction is written once more, at the start of the caller's memory. *)
Theorem findInsnInCode_marker l1 i l2 c1 c mem offset :
  code_before l1 = Some c1 -> gen_insn i = Some c ->
  Z.of_nat (length c1) < offset <= Z.of_nat (length (c1 ++ c)) ->
  (length (c1 ++ c) <= length mem)%nat ->
  findInsnInCode (l1 ++ i :: l2) mem offset = Some (last_marker (2 ^ 32 - 1) l1, flush mem (c1 ++ c)).
Proof.
  intros H1 Hi Ho Hm. unfold findInsnInCode. rewrite length_app in Ho.
  rewrite (findInsnInCode_loop_skip _ _ c1) by (done || lia).
  destruct i; try discriminate Hi; cbn [findInsnInCode_loop]; rewrite Hi; cbn [mbind option_bind];
    rewrite (proj2 (Z.leb_le _ _)) by lia; cbn [mbind option_bind]; unfold write_code;
    by rewrite (proj2 (Nat.leb_le _ _)).
Qed.

Definition marked_code : list (x86Instruction Z) :=
  [X86_INSN_MARKER 100; X86_MOV_CONST 0 1; X86_INSN_MARKER 104; X86_MOV_CONST 1 2;
   X86_WRITE IR_REG_64 1 8].

Lemma findInsnInCode_marker_witness :
  fst <$> findInsnInCode marked_code (replicate 32 0) 15 = Some 104 /\
  (** at the first byte of an instruction the previous marker is found *)
  fst <$> findInsnInCode marked_code (replicate 32 0) 10 = Some 100.
Proof.
  split.
  - refine (f_equal (fmap fst) (findInsnInCode_marker
             [X86_INSN_MARKER 100; X86_MOV_CONST 0 1; X86_INSN_MARKER 104] (X86_MOV_CONST 1 2)
             [X86_WRITE IR_REG_64 1 8] (gen_mov_const_hlp 0 1) (gen_mov_const_hlp 1 2) (replicate 32 0) 15 _ _ _ _));
      [reflexivity|reflexivity|split; reflexivity || discriminate|vm_compute; lia].
  - refine (f_equal (fmap fst) (findInsnInCode_marker [X86_INSN_MARKER 100] (X86_MOV_CONST 0 1)
             [X86_INSN_MARKER 104; X86_MOV_CONST 1 2; X86_WRITE IR_REG_64 1 8]
             [] (gen_mov_const_hlp 0 1) (replicate 32 0) 10 _ _ _ _));
      [reflexivity|reflexivity|split; reflexivity || discriminate|vm_compute; lia].
Defined.

(** ** Stale upper bits *)

(** The sign extension of 0xff to 16 bits compared with 0xffff. *)
Definition stale_session : list irCall :=
  [CallMovConst IR_REG_8 255; CallCast IR_CAST_8S_TO_16 0; CallMovConst IR_REG_16 65535;
   CallBinop CMPEQ IR_REG_16 1 2; CallMovConst IR_REG_64 1; CallExitCond 4 (Some 3%nat);
   CallMovConst IR_REG_64 0; CallExit 5].

Definition stale_jitter : jitter :=
  match irAlloc_session stale_session (resetJitter fresh_jitter) with
  | Some (_, j) => j
  | None => fresh_jitter
  end.

(** The static check of the compiler theorem is needed: a session accepted
    by every assertion, whose block compares the 16-bit sign extension of 0xff
    with 0xffff, exits with 1 by the IR's meaning and returns 0 from the
    generated code, because the narrow cast leaves the sign in all 64 bits and
    the comparison looks at them. *)
Theorem stale_bits_miscompiled :
  session_valid stale_session (resetJitter fresh_jitter) = true /\
  irAlloc_session stale_session (resetJitter fresh_jitter) = Some (tt, stale_jitter) /\
  clean_ok [] (insns stale_jitter) = false /\
  option_map fst (ir_run demo_ir_call 4096 (insns stale_jitter) ∅ demo_mem) = Some 1 /\
  option_map (fun r => match mrun demo_callee 40 r.1.2 0 0 demo_cpu with
                       | Some (MRet k) => Some (rf k RAX)
                       | _ => None
                       end)
    (jitCode stale_jitter (reset demo_inter) demo_buffer 512) = Some (Some 0).
Proof. do 4 (split; [vm_compute; reflexivity|]). vm_compute. reflexivity. Qed.

(** * A machine with helpers that only compute

    Helpers at addresses of their own, called with the registers of the host:
    an instance of the interface between the translation and its helpers, from
    what each helper computes and its prototype. *)

(** Parameters as a C prototype reads the registers. *)
Fixpoint narrow (ts : list (option irRegisterType)) (ps : list (option Z)) :
    list (option (irRegisterType * Z)) :=
  match ts, ps with
  | t :: ts, p :: ps => (t ← t; p ← p; Some (t, wrap (bits t) p)) :: narrow ts ps
  | _, _ => []
  end.

Lemma narrow_types ts ps :
  map (option_map fst) (narrow ts ps) = ts ->
  (length ts <= length ps)%nat /\ forall i t, ts !! i = Some (Some t) -> exists x, ps !! i = Some (Some x).
Proof.
  revert ps. induction ts as [|t ts IH]; intros [|p ps] H; cbn in *; try done; [split; [lia|done]..|].
  injection H as Ht H. destruct (IH ps H) as [Hl Hi]. split; [lia|]. intros [|i] t' Ht'; [|by apply (Hi i t')].
  cbn in Ht'. injection Ht' as ->. destruct p as [x|]; [by exists x|done].
Qed.

Lemma narrow_ext ts ps ps' :
  (length ts <= length ps)%nat -> (length ts <= length ps')%nat ->
  (forall i t, ts !! i = Some (Some t) -> ps !! i = ps' !! i) -> narrow ts ps = narrow ts ps'.
Proof.
  revert ps ps'. induction ts as [|t ts IH]; intros [|p ps] [|p' ps'] Hl Hl' H; cbn in *; try done; try lia.
  f_equal; [|apply IH; [lia|lia|]; intros i t' Ht; by apply (H (S i) t')].
  destruct t as [t|]; [|done]. specialize (H 0%nat t eq_refl). cbn in H. by injection H as ->.
Qed.

(** What a machine has of each helper. *)
Record helper_table (helper : Type) := mkTable {
  computes : helper -> list (option (irRegisterType * Z)) -> option (irRegisterType * Z);
  prototype : helper -> list (option irRegisterType);
  at_address : Z -> option helper;
  (** a parameter is read as the prototype says *)
  computes_narrow : forall h vs xs r,
    computes h vs = Some r -> Forall2 arg_match vs xs -> computes h (narrow (prototype h) xs) = Some r;
  computes_types : forall h ps r,
    computes h (narrow (prototype h) ps) = Some r -> map (option_map fst) (narrow (prototype h) ps) = prototype h;
  four_parameters : forall h, length (prototype h) = 4%nat
}.
Arguments computes {helper} _ _ _.
Arguments prototype {helper} _ _.
Arguments at_address {helper} _ _.

Section table.
Context {helper : Type} (table : helper_table helper).

Definition table_call (w : option irRegisterType) (a ctx : Z) (vs : list (option (irRegisterType * Z))) (m : mem) :
    option (mem * Z) :=
  h ← at_address table a; '(t, v) ← computes table h vs;
  if decide (w = Some t) then Some (m, v) else None.

Definition table_helper_call (a ctx : Z) (ps : list (option Z)) (m : mem) : option (mem * Z) :=
  h ← at_address table a; '(t, v) ← computes table h (narrow (prototype table h) ps); Some (m, wrap (bits t) v).

(** The registers of the parameters. *)
Definition in_registers (f : Z -> Z) (ts : list (option irRegisterType)) : list (option Z) :=
  zip_with (fun t (r : Z) => _ ← t; Some (f r)) ts [RSI; RDX; RCX; HW 0].

(** A helper leaves its result in rax, and nothing in the other registers it
    may change. *)
Definition table_callee (a : Z) (f : Z -> Z) (m : mem) : (Z -> Z) * bool * mem :=
  let v := h ← at_address table a; computes table h (narrow (prototype table h) (in_registers f (prototype table h))) in
  (fun r => if decide (r = RAX) then default 0 ((fun tv => wrap (bits tv.1) tv.2) <$> v) else 0, true, m).

Lemma narrow_registers (f : Z -> Z) h ps r :
  (forall i x, ps !! i = Some (Some x) -> f (arg_reg i) = x) ->
  computes table h (narrow (prototype table h) ps) = Some r ->
  narrow (prototype table h) ps = narrow (prototype table h) (in_registers f (prototype table h)).
Proof.
  intros Hf Hp. apply (computes_types _ table), narrow_types in Hp as [Hl Hi].
  pose proof (four_parameters _ table h) as Hlen.
  apply narrow_ext; [done|unfold in_registers; rewrite length_zip_with, Hlen; cbn; lia|].
  intros i t Ht. destruct (Hi i t Ht) as [x Hx]. rewrite Hx. rewrite <- (Hf i x Hx).
  apply lookup_lt_Some in Ht as Hlt. unfold in_registers. rewrite lookup_zip_with, Ht. cbn.
  destruct i as [|[|[|[|i]]]]; [done..|lia].
Qed.

(** Results are zero-extended. *)
Definition table_results : CallResults := {| zero_extends := true |}.

#[program] Definition table_abi : @HelperAbi table_results table_call table_callee := {| helper_call := table_helper_call |}.
Next Obligation.
  intros w a ctx vs xs m m' v Hm Hc. unfold table_call in Hc. unfold table_helper_call.
  destruct (at_address table a) as [h|]; [|done]. cbn [mbind option_bind] in *.
  destruct (computes table h vs) as [[t v']|] eqn:Hp; [|done]. cbn [mbind option_bind] in Hc.
  case_decide; [|done]. simplify_eq. rewrite (computes_narrow _ table _ _ _ _ Hp Hm). exists (wrap (bits t) v).
  split; [done|]. intros t' [= <-]. pose proof (bits_pos t). split; [apply wrap_idem; lia|].
  intros _ ->. by apply (wrap_range 32).
Qed.
Next Obligation.
  intros f a ps m m' v Hl Hf Hc. unfold table_helper_call in Hc. unfold table_callee.
  destruct (at_address table a) as [h|] eqn:Hh; [|done]. cbn [mbind option_bind] in *.
  destruct (computes table h (narrow (prototype table h) ps)) as [[t v']|] eqn:Hp; [|done]. simplify_eq/=.
  eexists _, true. split; [reflexivity|]. cbv beta. rewrite decide_True by done.
  enough (narrow (prototype table h) ps = narrow (prototype table h) (in_registers f (prototype table h))) as <- by (by rewrite Hp).
  by eapply narrow_registers.
Qed.
End table.

(** ** Addresses *)

(** The helpers of a list, 16 bytes apart, the others together. *)
Section addresses.
Context {helper : Type} `{!EqDecision helper} (helpers : list helper).

Definition spread (h : helper) : Z :=
  match list_find (eq h) helpers with Some (i, _) => 0x400000 + 16 * Z.of_nat i | None => 0x500000 end.
Definition helper_at (a : Z) : option helper := list_find (fun h => spread h = a) helpers ≫= fun ih => Some ih.2.

Lemma spread_range h : Z.of_nat (length helpers) < 2 ^ 32 -> 0 <= spread h < 2 ^ 64.
Proof.
  intros Hl. unfold spread. destruct (list_find (eq h) helpers) as [[i h']|] eqn:E; [|lia].
  apply list_find_Some in E as (Hi & _). apply lookup_lt_Some in Hi. lia.
Qed.

Lemma helper_at_spread h : h ∈ helpers -> helper_at (spread h) = Some h.
Proof.
  intros Hh. unfold helper_at. assert (Hs : forall h i, list_find (eq h) helpers = Some (i, h) -> spread h = 0x400000 + 16 * Z.of_nat i)
    by (intros h' i E; unfold spread; by rewrite E).
  assert (Hf : forall h', h' ∈ helpers -> exists i, list_find (eq h') helpers = Some (i, h')).
  { intros h' Hin. destruct (list_find_elem_of (eq h') helpers h' Hin eq_refl) as [[i x] E]. pose proof E as E'.
    apply list_find_Some in E' as (_ & <- & _). by exists i. }
  destruct (list_find_elem_of (fun x => spread x = spread h) helpers h Hh eq_refl) as [[j x] E].
  rewrite E. cbn. f_equal. apply list_find_Some in E as (Hj & Hx & _).
  destruct (Hf h Hh) as [i Ei], (Hf x) as [k Ek]; [by eapply list_elem_of_lookup_2|].
  rewrite (Hs h i Ei), (Hs x k Ek) in Hx. assert (k = i) as -> by lia.
  apply list_find_Some in Ei as (E1 & _ & _). apply list_find_Some in Ek as (E2 & _ & _). congruence.
Qed.
End addresses.
