(* ===== verification/CodeCache.v ===== *)
(** * The translation cache ([src/src/cache/cache.c], [cacheNone.c])

    Translated blocks live in one byte area; each is preceded by a packed
    header [struct tb] (16-bit size, guest pc, pointer to the next block of
    the same hash).  [hlist] holds the heads of the hash chains, [cached] the
    last hit of each chain.  Pointers are addresses, 0 being NULL; the area is
    its bytes, starting at address [area].  Every cache is on the list that
    [root] heads so that a cleaning request reaches all of them. *)

From S2P Require Import Prelude.

(** ** Bytes *)

Definition rd_le (l : list Z) (off : Z) (n : nat) : Z :=
  le_join (take n (drop (Z.to_nat off) l)).

(** A write; outside of the area it corrupts memory, [None] here. *)
Definition put_bytes (l : list Z) (off : Z) (bs : list Z) : option (list Z) :=
  if (0 <=? off) && (off + Z.of_nat (length bs) <=? Z.of_nat (length l))
  then Some (take (Z.to_nat off) l ++ bs ++ drop (Z.to_nat off + length bs) l)
  else None.

(** ** Data *)

Definition HASH_BIT_NB : Z := 14.
Definition HASH_ENTRY_NB : Z := Z.shiftl 1 HASH_BIT_NB.
Definition HASH_MASK : Z := HASH_ENTRY_NB - 1.

(** [sizeof(struct tb)], packed. *)
Definition sizeof_tb : Z := 18.

(** [struct internal_cache], its list link and function pointers apart;
    arrays of pointers are maps, an absent entry being NULL. *)
Record internal_cache := mkCache {
  write_pos : Z;
  clean : Z;
  jitter_area_size : Z;
  cached : gmap Z Z;
  hlist : gmap Z Z;
  area : Z;
  area_end : Z;
  area_bytes : list Z
}.

(** sizeof(struct internal_cache) on x86_64: the two arrays, a link, three
    function pointers, three ints padded, two pointers. *)
Definition sizeof_internal_cache : Z := 2 * HASH_ENTRY_NB * 8 + 8 + 24 + 4 + 8 + 4 + 16.

Definition ptr_at (a : gmap Z Z) (h : Z) : Z := default 0 (a !! h).

(** Fields of the [struct tb] at address [p]. *)
Definition tb_size (c : internal_cache) (p : Z) : Z := rd_le (area_bytes c) (p - area c) 2.
Definition tb_guest_pc (c : internal_cache) (p : Z) : Z := rd_le (area_bytes c) (p - area c + 2) 8.
Definition tb_next (c : internal_cache) (p : Z) : Z := rd_le (area_bytes c) (p - area c + 10) 8.

Definition hash_pc (pc : Z) : Z := Z.land (Z.shiftr pc 2) HASH_MASK.

Definition tb_to_jit_area (tb : Z) : Z := tb + sizeof_tb.

(** ** Operations on one cache *)

Definition cache_reset (c : internal_cache) : internal_cache :=
  mkCache 0 0 (jitter_area_size c) ∅ ∅ (area c) (area_end c) (area_bytes c).

(** The walk of a hash chain. *)
Fixpoint walk (fuel : nat) (c : internal_cache) (pc current : Z) : option Z :=
  match fuel with
  | O => None
  | S fuel =>
      if current =? 0 then Some 0
      else if tb_guest_pc c current =? pc then Some current
      else walk fuel c pc (tb_next c current)
  end.

Definition with_cached (f : gmap Z Z -> gmap Z Z) (c : internal_cache) : internal_cache :=
  mkCache (write_pos c) (clean c) (jitter_area_size c) (f (cached c)) (hlist c) (area c)
          (area_end c) (area_bytes c).

(** [lookup], global cleaning apart: the new cache, the address of the code
    or 0, and the value stored in [*cache_clean_event], if any.  The chain is
    walked with one step per byte of the area, more than it has blocks. *)
Definition cache_lookup (c : internal_cache) (pc : Z) : option (internal_cache * Z * option Z) :=
  if negb (clean c =? 0) then Some (cache_reset c, 0, Some 1)
  else
    let hash := hash_pc pc in
    let current := ptr_at (cached c) hash in
    if negb (current =? 0) && (tb_guest_pc c current =? pc)
    then Some (c, tb_to_jit_area current, None)
    else
      current ← walk (S (length (area_bytes c))) c pc (ptr_at (hlist c) hash);
      if current =? 0 then Some (c, 0, None)
      else Some (with_cached (<[hash := current]>) c, tb_to_jit_area current, None).

(** [append]: the new cache, the address of the copy of [data] and the value
    stored in [*cache_clean_event], if any. *)
Definition cache_append (c : internal_cache) (pc : Z) (data : list Z) :
    option (internal_cache * Z * option Z) :=
  let size := Z.of_nat (length data) in
  let hash := hash_pc pc in
  let full := jitter_area_size c <? write_pos c + size + sizeof_tb in
  let c1 := if full then cache_reset c else c in
  let event := if full then Some 1 else None in
  let off := write_pos c1 in
  let new_tb := area c1 + off in
  b1 ← put_bytes (area_bytes c1) off (le_bytes 2 (size + sizeof_tb));
  b2 ← put_bytes b1 (off + 2) (le_bytes 8 pc);
  b3 ← put_bytes b2 (off + 10) (le_bytes 8 (ptr_at (hlist c1) hash));
  b4 ← put_bytes b3 (off + sizeof_tb) data;
  Some (mkCache (off + size + sizeof_tb) (clean c1) (jitter_area_size c1) (cached c1)
          (<[hash := new_tb]> (hlist c1)) (area c1) (area_end c1) b4,
        tb_to_jit_area new_tb, event).

(** The walk of [lookup_pc] from [p]: the guest pc and the start of the block
    that holds [host_pc], [None] while it has not returned. *)
Fixpoint lookup_pc_loop (fuel : nat) (c : internal_cache) (host_pc p : Z) :
    option (Z * option Z) :=
  match fuel with
  | O => None
  | S fuel =>
      if (p <=? host_pc) && (host_pc <? p + tb_size c p)
      then Some (tb_guest_pc c p, Some (p + sizeof_tb))
      else
        let p := p + tb_size c p in
        if p <? area_end c then lookup_pc_loop fuel c host_pc p else Some (0, None)
  end.

Definition cache_lookup_pc (fuel : nat) (c : internal_cache) (host_pc : Z) :
    option (Z * option Z) :=
  lookup_pc_loop fuel c host_pc (area c).

Definition MIN_CACHE_SIZE : Z := 1024 * 1024.

(** [createCache] on the [size] bytes at [memory], whose contents are
    [bytes], the registration on the list apart. *)
Definition new_cache (memory size : Z) (bytes : list Z) : option internal_cache :=
  if negb (memory =? 0) && (MIN_CACHE_SIZE <=? size) then
    Some (cache_reset
      (mkCache 0 0 (size - sizeof_internal_cache) ∅ ∅ (memory + sizeof_internal_cache)
         (memory + size) (drop (Z.to_nat sizeof_internal_cache) bytes)))
  else None.

(** ** The list of caches *)

Record caches := mkCaches {
  root : list nat;                      (** the list, its head first *)
  cache_store : gmap nat internal_cache;
  is_cache_clean_need : bool
}.

Definition ll_append_cache (cache : nat) (w : caches) : caches :=
  mkCaches (cache :: root w) (cache_store w) (is_cache_clean_need w).

Fixpoint ll_remove (cache : nat) (l : list nat) : option (list nat) :=
  match l with
  | [] => None
  | x :: l => if decide (x = cache) then Some l else l' ← ll_remove cache l; Some (x :: l')
  end.

(** [None]: the assertion that the cache was found failed. *)
Definition ll_remove_cache (cache : nat) (w : caches) : option caches :=
  l ← ll_remove cache (root w);
  Some (mkCaches l (cache_store w) (is_cache_clean_need w)).

Definition ll_clean_cache (c : internal_cache) : internal_cache :=
  mkCache (write_pos c) 1 (jitter_area_size c) (cached c) (hlist c) (area c) (area_end c)
          (area_bytes c).

Definition ll_clean_caches (w : caches) : caches :=
  mkCaches (root w) (foldr (fun id s => alter ll_clean_cache id s) (cache_store w) (root w))
           (is_cache_clean_need w).

Definition createCache (cache : nat) (memory size : Z) (bytes : list Z) (w : caches) :
    option caches :=
  c ← new_cache memory size bytes;
  Some (ll_append_cache cache (mkCaches (root w) (<[cache := c]> (cache_store w))
                                        (is_cache_clean_need w))).

Definition removeCache (cache : nat) (w : caches) : option caches := ll_remove_cache cache w.

Definition cleanCaches (w : caches) : caches := mkCaches (root w) (cache_store w) true.

(** The cleaning that [lookup] starts with. *)
Definition clean_if_needed (w : caches) : caches :=
  if is_cache_clean_need w
  then let w' := ll_clean_caches w in mkCaches (root w') (cache_store w') false
  else w.

(** The whole of [lookup], on the cache [cache]. *)
Definition lookup_in (cache : nat) (pc : Z) (w : caches) : option (caches * Z * option Z) :=
  let w1 := clean_if_needed w in
  c ← cache_store w1 !! cache;
  '(c', p, ev) ← cache_lookup c pc;
  Some (mkCaches (root w1) (<[cache := c']> (cache_store w1)) (is_cache_clean_need w1), p, ev).

Definition append_in (cache : nat) (pc : Z) (data : list Z) (w : caches) :
    option (caches * Z * option Z) :=
  c ← cache_store w !! cache;
  '(c', p, ev) ← cache_append c pc data;
  Some (mkCaches (root w) (<[cache := c']> (cache_store w)) (is_cache_clean_need w), p, ev).

(** ** The cache of [cacheNone.c], for signal handlers: one block, never found *)

Record internal_cache_none := mkCacheNone { none_data : Z; none_pc : Z }.

Definition MIN_CACHE_SIZE_NONE : Z := 4 * 1024.

Definition lookup_none (c : internal_cache_none) (pc : Z) : internal_cache_none * Z * option Z :=
  (c, 0, Some 1).

(** The block stays where [data] is. *)
Definition append_none (c : internal_cache_none) (pc data : Z) : internal_cache_none * Z * option Z :=
  (mkCacheNone data pc, data, None).

Definition lookup_pc_none (c : internal_cache_none) (host_pc : Z) : Z * option Z :=
  (none_pc c, Some (none_data c)).

Definition createCacheNone (memory size : Z) : option internal_cache_none :=
  if negb (memory =? 0) && (MIN_CACHE_SIZE_NONE <=? size) then Some (mkCacheNone 0 0) else None.

(** ** Reading back what was written *)

Section bytes.
Definition slice (l : list Z) (off : Z) (n : nat) : list Z := take n (drop (Z.to_nat off) l).

Lemma put_bytes_Some l off bs l' :
  put_bytes l off bs = Some l' ->
  0 <= off /\ off + Z.of_nat (length bs) <= Z.of_nat (length l) /\ length l' = length l /\
  (forall i, l' !! i = if decide (Z.to_nat off <= i < Z.to_nat off + length bs)%nat
                       then bs !! (i - Z.to_nat off)%nat else l !! i).
Proof.
  unfold put_bytes. destruct (_ && _) eqn:E; [|done].
  apply andb_true_iff in E as [H1%Z.leb_le H2%Z.leb_le]. intros [= <-].
  assert (Ht : length (take (Z.to_nat off) l) = Z.to_nat off) by (rewrite length_take; lia).
  split; [done|]. split; [done|]. split.
  { rewrite !length_app, Ht, length_drop. lia. }
  intros i. case_decide as Hd.
  - rewrite lookup_app_r by lia. rewrite Ht. apply lookup_app_l. lia.
  - destruct (decide (i < Z.to_nat off)%nat).
    + rewrite lookup_app_l by lia. apply lookup_take_lt. lia.
    + rewrite lookup_app_r, Ht by lia. rewrite lookup_app_r by lia.
      rewrite lookup_drop. f_equal. lia.
Qed.

Lemma put_bytes_ok l off bs :
  0 <= off -> off + Z.of_nat (length bs) <= Z.of_nat (length l) ->
  exists l', put_bytes l off bs = Some l'.
Proof.
  intros H1 H2. unfold put_bytes.
  rewrite (proj2 (Z.leb_le _ _) H1), (proj2 (Z.leb_le _ _) H2). eauto.
Qed.

Lemma slice_lookup l off n i :
  slice l off n !! i = if decide (i < n)%nat then l !! (Z.to_nat off + i)%nat else None.
Proof.
  unfold slice. case_decide.
  - rewrite lookup_take_lt by done. by rewrite lookup_drop.
  - apply lookup_take_ge. lia.
Qed.

Lemma slice_put_same l off bs l' :
  put_bytes l off bs = Some l' -> slice l' off (length bs) = bs.
Proof.
  intros (H1 & H2 & Hl & H)%put_bytes_Some. apply list_eq. intros i.
  rewrite slice_lookup. case_decide.
  - rewrite H, decide_True by lia. f_equal. lia.
  - symmetry. apply lookup_ge_None_2. lia.
Qed.

Lemma slice_put_other l off bs l' o n :
  put_bytes l off bs = Some l' -> 0 <= o ->
  o + Z.of_nat n <= off \/ off + Z.of_nat (length bs) <= o ->
  slice l' o n = slice l o n.
Proof.
  intros (H1 & H2 & Hl & H)%put_bytes_Some Ho Hd. apply list_eq. intros i.
  rewrite !slice_lookup. case_decide; [|done]. rewrite H, decide_False by lia. done.
Qed.

Lemma length_le_bytes n v : length (le_bytes n v) = n.
Proof. revert v. induction n; intros v; cbn; auto. Qed.
End bytes.

(** ** What the cache holds *)

(** Blocks in the order they were appended: guest pc and code. *)
Abbreviation block := (Z * list Z)%type.

Definition block_size (b : block) : Z := sizeof_tb + Z.of_nat (length b.2).

Fixpoint blocks_size (es : list block) : Z :=
  match es with [] => 0 | b :: es => block_size b + blocks_size es end.

(** The blocks with the address of their header. *)
Fixpoint tbs (a : Z) (es : list block) : list (Z * block) :=
  match es with [] => [] | b :: es => (a, b) :: tbs (a + block_size b) es end.

(** The last block of the chain [h], and the last one for [pc]. *)
Definition latest (h : Z) (ts : list (Z * block)) : Z :=
  foldl (fun acc t => if hash_pc t.2.1 =? h then t.1 else acc) 0 ts.
Definition find_last (pc : Z) (ts : list (Z * block)) : Z :=
  foldl (fun acc t => if t.2.1 =? pc then t.1 else acc) 0 ts.

(** The cache [c] holds the blocks [es]. *)
Record represents (c : internal_cache) (es : list block) : Prop := mkRepresents {
  rp_area : 0 < area c /\ area c + jitter_area_size c < 2 ^ 64;
  rp_len : Z.of_nat (length (area_bytes c)) = jitter_area_size c;
  rp_end : area_end c = area c + jitter_area_size c;
  rp_pos : write_pos c = blocks_size es /\ blocks_size es <= jitter_area_size c;
  rp_tb : forall i a pc d, tbs (area c) es !! i = Some (a, (pc, d)) ->
    0 <= pc < 2 ^ 64 /\ sizeof_tb + Z.of_nat (length d) < 2 ^ 16 /\
    tb_size c a = sizeof_tb + Z.of_nat (length d) /\
    tb_guest_pc c a = pc /\
    tb_next c a = latest (hash_pc pc) (take i (tbs (area c) es)) /\
    slice (area_bytes c) (a - area c + sizeof_tb) (length d) = d;
  rp_list : forall h, ptr_at (hlist c) h = latest h (tbs (area c) es);
  rp_cached : forall h, ptr_at (cached c) h <> 0 ->
    exists i pc d, tbs (area c) es !! i = Some (ptr_at (cached c) h, (pc, d))
}.

Section tbs_facts.
Lemma blocks_size_app es1 es2 : blocks_size (es1 ++ es2) = blocks_size es1 + blocks_size es2.
Proof. induction es1 as [|b es1 IH]; cbn; [done|]. rewrite IH. lia. Qed.

Lemma block_size_pos b : sizeof_tb <= block_size b.
Proof. unfold block_size. lia. Qed.

Lemma blocks_size_nonneg es : 0 <= blocks_size es.
Proof.
  induction es as [|b es IH]; cbn; [done|]. pose proof (block_size_pos b). unfold sizeof_tb in *. lia.
Qed.

Lemma tbs_app a es1 es2 : tbs a (es1 ++ es2) = tbs a es1 ++ tbs (a + blocks_size es1) es2.
Proof.
  revert a. induction es1 as [|b es1 IH]; intros a; cbn.
  - by rewrite Z.add_0_r.
  - rewrite IH. do 3 f_equal. lia.
Qed.

Lemma length_tbs a es : length (tbs a es) = length es.
Proof. revert a. induction es; intros; cbn; [done|]. by f_equal. Qed.

(** Blocks are inside the area, one after the other. *)
Lemma tbs_lookup a es i p b :
  tbs a es !! i = Some (p, b) ->
  es !! i = Some b /\ p = a + blocks_size (take i es) /\
  blocks_size (take i es) + block_size b <= blocks_size es.
Proof.
  revert a i. induction es as [|b0 es IH]; intros a [|i] H; cbn in *; try done.
  - injection H as <- <-. pose proof (blocks_size_nonneg es). repeat split; lia.
  - apply IH in H as (? & -> & ?). repeat split; [done|lia|lia].
Qed.

Lemma latest_snoc h ts t :
  latest h (ts ++ [t]) = if hash_pc t.2.1 =? h then t.1 else latest h ts.
Proof. unfold latest. by rewrite foldl_app. Qed.

Lemma find_last_snoc pc ts t :
  find_last pc (ts ++ [t]) = if t.2.1 =? pc then t.1 else find_last pc ts.
Proof. unfold find_last. by rewrite foldl_app. Qed.

Lemma find_last_spec pc ts :
  find_last pc ts = 0 /\ (forall t, t ∈ ts -> t.2.1 <> pc) \/
  exists i b, ts !! i = Some (find_last pc ts, b) /\ b.1 = pc.
Proof.
  induction ts as [|t ts IH] using rev_ind.
  - left. split; [done|]. intros t Ht. by apply elem_of_nil in Ht.
  - rewrite find_last_snoc. destruct (Z.eqb_spec t.2.1 pc) as [E|E].
    + right. exists (length ts), t.2. split; [|done].
      rewrite lookup_app_r, Nat.sub_diag by lia. by destruct t.
    + destruct IH as [[H0 H]|(i & b & Hi & Hb)].
      * left. split; [done|]. intros t' [Ht|Ht]%elem_of_app; [by apply H|].
        apply list_elem_of_singleton in Ht as ->. done.
      * right. exists i, b. split; [|done]. by apply lookup_app_l_Some.
Qed.
End tbs_facts.

(** ** Lookup *)

Section lookups.
Context (c : internal_cache) (es : list block).
Hypothesis Hrep : represents c es.

Lemma tbs_bounds i p b :
  tbs (area c) es !! i = Some (p, b) ->
  area c <= p /\ p + block_size b <= area c + write_pos c /\ p <> 0.
Proof.
  intros (_ & -> & Hb)%tbs_lookup. pose proof (blocks_size_nonneg (take i es)).
  destruct (rp_pos _ _ Hrep) as [-> _]. pose proof (rp_area _ _ Hrep). lia.
Qed.

Lemma walk_spec pc i fuel :
  (i <= length es)%nat -> (i < fuel)%nat ->
  walk fuel c pc (latest (hash_pc pc) (take i (tbs (area c) es))) =
    Some (find_last pc (take i (tbs (area c) es))).
Proof.
  revert fuel. induction i as [|i IH]; intros [|fuel] Hi Hf; try lia; [done|].
  destruct (lookup_lt_is_Some_2 (tbs (area c) es) i) as [[a [pc' d]] Ht];
    [rewrite length_tbs; lia|].
  rewrite (take_S_r _ _ _ Ht), latest_snoc, find_last_snoc. cbn [fst snd].
  destruct (Z.eqb_spec (hash_pc pc') (hash_pc pc)) as [Eh|Eh].
  - destruct (rp_tb _ _ Hrep _ _ _ _ Ht) as (_ & _ & _ & Hpc & Hnext & _).
    destruct (tbs_bounds _ _ _ Ht) as (_ & _ & Hn0).
    cbn [walk]. rewrite (proj2 (Z.eqb_neq _ _) Hn0), Hpc.
    destruct (Z.eqb_spec pc' pc) as [E|E]; [done|].
    rewrite Hnext, Eh. apply IH; lia.
  - destruct (Z.eqb_spec pc' pc) as [->|E]; [done|].
    change (walk (S fuel) c pc (latest (hash_pc pc) (take i (tbs (area c) es))) =
            Some (find_last pc (take i (tbs (area c) es)))).
    apply IH; lia.
Qed.

(** The area has room for more steps than blocks. *)
Lemma blocks_fuel : (length es < S (length (area_bytes c)))%nat.
Proof.
  assert (Z.of_nat (length es) <= blocks_size es).
  { clear. induction es as [|b l IH]; cbn [length blocks_size]; [lia|].
    pose proof (block_size_pos b). unfold sizeof_tb in *. lia. }
  destruct (rp_pos _ _ Hrep) as [_ Hp]. pose proof (rp_len _ _ Hrep). lia.
Qed.

Lemma walk_all pc :
  walk (S (length (area_bytes c))) c pc (ptr_at (hlist c) (hash_pc pc)) =
    Some (find_last pc (tbs (area c) es)).
Proof.
  rewrite (rp_list _ _ Hrep).
  pose proof (walk_spec pc (length es) (S (length (area_bytes c))) ltac:(lia) blocks_fuel) as H.
  rewrite !take_ge in H by (rewrite length_tbs; lia). exact H.
Qed.

Lemma represents_cached h p i b :
  tbs (area c) es !! i = Some (p, b) -> represents (with_cached (<[h := p]>) c) es.
Proof.
  intros Hi. destruct Hrep as [? ? ? ? Htb ? Hc]. constructor; try done.
  intros h'. unfold ptr_at, with_cached. cbn. destruct (decide (h = h')) as [->|Hne].
  - rewrite lookup_insert_eq. cbn. intros _. exists i, b.1, b.2. by destruct b.
  - rewrite lookup_insert_ne by done. apply Hc.
Qed.

Lemma cache_lookup_spec pc :
  clean c = 0 ->
  exists c' p, cache_lookup c pc = Some (c', p, None) /\ represents c' es /\ clean c' = 0 /\
    area c' = area c /\ area_bytes c' = area_bytes c /\
    (p = 0 /\ (forall b, b ∈ es -> b.1 <> pc) \/
     exists i a d, tbs (area c) es !! i = Some (a, (pc, d)) /\ p = tb_to_jit_area a).
Proof.
  intros Hc. unfold cache_lookup. rewrite Hc. cbn [negb Z.eqb].
  destruct (negb (ptr_at (cached c) (hash_pc pc) =? 0) &&
            (tb_guest_pc c (ptr_at (cached c) (hash_pc pc)) =? pc)) eqn:E.
  - apply andb_true_iff in E as [E1%negb_true_iff%Z.eqb_neq E2%Z.eqb_eq].
    destruct (rp_cached _ _ Hrep _ E1) as (i & pc' & d & Hi).
    destruct (rp_tb _ _ Hrep _ _ _ _ Hi) as (_ & _ & _ & Hpc & _ & _).
    rewrite E2 in Hpc. subst pc'. eexists _, _. split; [done|].
    do 4 (split; [done|]). right. eauto 6.
  - rewrite walk_all. cbn [mbind option_bind].
    destruct (find_last_spec pc (tbs (area c) es)) as [[H0 Hn]|(i & [pc' d] & Hi & Hb)].
    + rewrite H0. cbn [Z.eqb]. eexists _, _. split; [done|]. do 4 (split; [done|]). left.
      split; [done|]. intros b [j Hj]%list_elem_of_lookup.
      destruct (lookup_lt_is_Some_2 (tbs (area c) es) j) as [[a b'] Ht].
      { rewrite length_tbs. by eapply lookup_lt_Some. }
      pose proof (tbs_lookup _ _ _ _ _ Ht) as (Hj' & _). rewrite Hj in Hj'. injection Hj' as <-.
      apply (Hn (a, b)). by eapply list_elem_of_lookup_2.
    + cbn in Hb. subst pc'. destruct (tbs_bounds _ _ _ Hi) as (_ & _ & Hn0).
      rewrite (proj2 (Z.eqb_neq _ _) Hn0). eexists _, _. split; [done|].
      split; [by eapply represents_cached|]. do 3 (split; [done|]). right. eauto 6.
Qed.
End lookups.

(** ** Reset and creation *)

Lemma cache_reset_represents c es : represents c es -> represents (cache_reset c) [].
Proof.
  intros [Ha Hl He Hp _ _ _]. constructor; try done.
  - split; [done|]. cbn. lia.
Qed.

(** ** Append *)

Section appends.
Context (c : internal_cache) (es : list block) (pc : Z) (d : list Z).
Hypothesis Hrep : represents c es.
Hypothesis Hpc : 0 <= pc < 2 ^ 64.
Hypothesis Hd : sizeof_tb + Z.of_nat (length d) < 2 ^ 16.
Hypothesis Hroom : write_pos c + block_size (pc, d) <= jitter_area_size c.

Lemma latest_bounds h n :
  latest h (take n (tbs (area c) es)) = 0 \/
  area c <= latest h (take n (tbs (area c) es)) < 2 ^ 64.
Proof.
  assert (H : forall ts, (forall p b, (p, b) ∈ ts -> area c <= p < 2 ^ 64) ->
    latest h ts = 0 \/ area c <= latest h ts < 2 ^ 64).
  { intros ts. induction ts as [|[p b] ts IH] using rev_ind; intros H; [by left|].
    rewrite latest_snoc. destruct (_ =? h).
    - right. apply (H p b). apply elem_of_app. right. by apply list_elem_of_singleton.
    - apply IH. intros p' b' Hin. apply (H p' b'). apply elem_of_app. by left. }
  apply H. intros p b [i [Hi _]%lookup_take_Some]%list_elem_of_lookup.
  destruct (tbs_bounds c es Hrep _ _ _ Hi) as (H1 & H2 & _).
  pose proof (rp_area _ _ Hrep). destruct (rp_pos _ _ Hrep) as [E ?].
  pose proof (block_size_pos b). unfold sizeof_tb in *. lia.
Qed.

(** The bytes after the writes of [append]: the new block at [write_pos],
    everything else as before. *)
Lemma append_bytes next :
  0 <= next < 2 ^ 64 ->
  exists b4,
    (b1 ← put_bytes (area_bytes c) (write_pos c) (le_bytes 2 (Z.of_nat (length d) + sizeof_tb));
     b2 ← put_bytes b1 (write_pos c + 2) (le_bytes 8 pc);
     b3 ← put_bytes b2 (write_pos c + 10) (le_bytes 8 next);
     put_bytes b3 (write_pos c + sizeof_tb) d) = Some b4 /\
    length b4 = length (area_bytes c) /\
    rd_le b4 (write_pos c) 2 = sizeof_tb + Z.of_nat (length d) /\
    rd_le b4 (write_pos c + 2) 8 = pc /\ rd_le b4 (write_pos c + 10) 8 = next /\
    slice b4 (write_pos c + sizeof_tb) (length d) = d /\
    (forall o n, 0 <= o -> o + Z.of_nat n <= write_pos c -> slice b4 o n = slice (area_bytes c) o n).
Proof.
  intros Hn. destruct (rp_pos _ _ Hrep) as [Ep _]. pose proof (blocks_size_nonneg es) as Hp0.
  rewrite <- Ep in Hp0. pose proof (rp_len _ _ Hrep) as Hlen.
  unfold block_size in Hroom. cbn [snd] in Hroom. unfold sizeof_tb in *.
  destruct (put_bytes_ok (area_bytes c) (write_pos c) (le_bytes 2 (Z.of_nat (length d) + 18)))
    as [b1 E1]; [lia|rewrite length_le_bytes; lia|].
  pose proof (put_bytes_Some _ _ _ _ E1) as (_ & _ & L1 & _).
  destruct (put_bytes_ok b1 (write_pos c + 2) (le_bytes 8 pc)) as [b2 E2];
    [lia|rewrite length_le_bytes; lia|].
  pose proof (put_bytes_Some _ _ _ _ E2) as (_ & _ & L2 & _).
  destruct (put_bytes_ok b2 (write_pos c + 10) (le_bytes 8 next)) as [b3 E3];
    [lia|rewrite length_le_bytes; lia|].
  pose proof (put_bytes_Some _ _ _ _ E3) as (_ & _ & L3 & _).
  destruct (put_bytes_ok b3 (write_pos c + 18) d) as [b4 E4]; [lia|lia|].
  pose proof (put_bytes_Some _ _ _ _ E4) as (_ & _ & L4 & _).
  exists b4. rewrite E1. cbn [mbind option_bind]. rewrite E2. cbn [mbind option_bind].
  rewrite E3. cbn [mbind option_bind]. split; [done|]. split; [congruence|].
  assert (Hrd : forall l o n v, slice l o n = le_bytes n v -> rd_le l o n = wrap (8 * Z.of_nat n) v).
  { intros l o n v E. unfold rd_le. fold (slice l o n). rewrite E. apply le_join_bytes. }
  pose proof (slice_put_same _ _ _ _ E1) as S1. pose proof (slice_put_same _ _ _ _ E2) as S2.
  pose proof (slice_put_same _ _ _ _ E3) as S3. pose proof (slice_put_same _ _ _ _ E4) as S4.
  rewrite length_le_bytes in S1, S2, S3.
  split; [|split; [|split; [|split; [done|]]]].
  - rewrite (Hrd _ _ _ (Z.of_nat (length d) + 18)); [rewrite wrap_small; lia|]. rewrite <- S1.
    rewrite (slice_put_other _ _ _ _ _ _ E4), (slice_put_other _ _ _ _ _ _ E3),
      (slice_put_other _ _ _ _ _ _ E2); rewrite ?length_le_bytes; try done; lia.
  - rewrite (Hrd _ _ _ pc); [by rewrite wrap_small|]. rewrite <- S2.
    rewrite (slice_put_other _ _ _ _ _ _ E4), (slice_put_other _ _ _ _ _ _ E3);
      rewrite ?length_le_bytes; try done; lia.
  - rewrite (Hrd _ _ _ next); [by rewrite wrap_small|]. rewrite <- S3.
    rewrite (slice_put_other _ _ _ _ _ _ E4); rewrite ?length_le_bytes; try done; lia.
  - intros o n H0 H1.
    rewrite (slice_put_other _ _ _ _ _ _ E4), (slice_put_other _ _ _ _ _ _ E3),
      (slice_put_other _ _ _ _ _ _ E2), (slice_put_other _ _ _ _ _ _ E1);
      rewrite ?length_le_bytes; try done; lia.
Qed.

(** The cache after the append of a block that fits. *)
Lemma append_fits :
  exists c', cache_append c pc d = Some (c', area c + write_pos c + sizeof_tb, None) /\
    represents c' (es ++ [(pc, d)]) /\ area c' = area c /\ clean c' = clean c /\
    jitter_area_size c' = jitter_area_size c /\
    forall o n, 0 <= o -> o + Z.of_nat n <= write_pos c ->
      slice (area_bytes c') o n = slice (area_bytes c) o n.
Proof.
  destruct (rp_pos _ _ Hrep) as [Ep Hp]. pose proof (blocks_size_nonneg es) as Hp0.
  rewrite <- Ep in Hp0. pose proof (rp_area _ _ Hrep) as Harea.
  pose proof Hroom as Hroom'. unfold block_size in Hroom'. cbn [snd] in Hroom'.
  assert (Hnext : 0 <= latest (hash_pc pc) (tbs (area c) es) < 2 ^ 64).
  { pose proof (latest_bounds (hash_pc pc) (length es)) as H.
    rewrite take_ge in H by (rewrite length_tbs; lia). lia. }
  destruct (append_bytes _ Hnext) as (b4 & E & L4 & R1 & R2 & R3 & S4 & Hold).
  unfold cache_append.
  rewrite (proj2 (Z.ltb_ge (jitter_area_size c) (write_pos c + Z.of_nat (length d) + sizeof_tb))) by lia.
  cbv zeta. rewrite (rp_list _ _ Hrep (hash_pc pc)).
  destruct (put_bytes _ _ (le_bytes 2 _)) as [b1|]; [|done]. cbn [mbind option_bind] in E |- *.
  destruct (put_bytes b1 _ _) as [b2|]; [|done]. cbn [mbind option_bind] in E |- *.
  destruct (put_bytes b2 _ _) as [b3|]; [|done]. cbn [mbind option_bind] in E |- *.
  rewrite E. cbn [mbind option_bind]. eexists. split; [done|].
  split; [|by split_and!]. constructor; cbn [area area_bytes area_end jitter_area_size write_pos hlist cached].
  - done.
  - rewrite L4. apply (rp_len _ _ Hrep).
  - apply (rp_end _ _ Hrep).
  - rewrite blocks_size_app. cbn [blocks_size]. unfold block_size in *. cbn [snd] in *. lia.
  - intros i a pc' d' Hi. rewrite tbs_app in Hi |- *. cbn [tbs] in Hi |- *.
    unfold tb_size, tb_guest_pc, tb_next. cbn [area area_bytes].
    apply lookup_app_Some in Hi as [Hi|[Hi1 Hi2]].
    + destruct (rp_tb _ _ Hrep _ _ _ _ Hi) as (H1 & H2 & H3 & H4 & H5 & H6).
      pose proof (tbs_bounds c es Hrep _ _ _ Hi) as (B1 & B2 & _).
      unfold block_size in B2. cbn [snd] in B2. unfold sizeof_tb in B2.
      split; [done|]. split; [done|].
      pose proof (lookup_lt_Some _ _ _ Hi).
      rewrite take_app_le by lia.
      unfold tb_size, tb_guest_pc, tb_next, rd_le in *. fold (slice (area_bytes c)) in *.
      change (take 2 (drop (Z.to_nat (a - area c)) b4)) with (slice b4 (a - area c) 2).
      change (take 8 (drop (Z.to_nat (a - area c + 2)) b4)) with (slice b4 (a - area c + 2) 8).
      change (take 8 (drop (Z.to_nat (a - area c + 10)) b4)) with (slice b4 (a - area c + 10) 8).
      unfold sizeof_tb in *. rewrite !Hold by lia. done.
    + rewrite length_tbs in Hi1, Hi2. apply list_lookup_singleton_Some in Hi2 as [Hi2 Heq].
      injection Heq as <- <- <-.
      rewrite take_app_length' by (rewrite length_tbs; lia).
      rewrite <- Ep, Z.add_simpl_l. done.
  - intros h. rewrite tbs_app. cbn [tbs]. rewrite latest_snoc. cbn [fst snd]. unfold ptr_at.
    destruct (Z.eqb_spec (hash_pc pc) h) as [->|Hne].
    + rewrite lookup_insert_eq. cbn. by rewrite <- Ep.
    + rewrite lookup_insert_ne by done. apply (rp_list _ _ Hrep).
  - intros h Hh. destruct (rp_cached _ _ Hrep h Hh) as (i & pc' & d' & Hi).
    exists i, pc', d'. rewrite tbs_app. by apply lookup_app_l_Some.
Qed.
End appends.

(** The test of [append] for a full area. *)
Definition append_full (c : internal_cache) (d : list Z) : bool :=
  jitter_area_size c <? write_pos c + Z.of_nat (length d) + sizeof_tb.

Lemma append_full_reset c pc d :
  append_full c d = true -> append_full (cache_reset c) d = false ->
  cache_append c pc d =
    ('(c', p, _) ← cache_append (cache_reset c) pc d; Some (c', p, Some 1)).
Proof.
  unfold append_full, cache_append. cbv zeta. intros -> ->.
  repeat (destruct (put_bytes _ _ _); [|done]; cbn [mbind option_bind]). done.
Qed.

Section append_spec.
Context (c : internal_cache) (es : list block) (pc : Z) (d : list Z).
Hypothesis Hpc : 0 <= pc < 2 ^ 64.
Hypothesis Hd : sizeof_tb + Z.of_nat (length d) < 2 ^ 16.

(** The code copied by an append is read back at the address returned. *)
Lemma append_code c' :
  represents c' (es ++ [(pc, d)]) ->
  slice (area_bytes c') (blocks_size es + sizeof_tb) (length d) = d /\
  tb_size c' (area c' + blocks_size es) = sizeof_tb + Z.of_nat (length d).
Proof.
  intros Hrep. assert (Hi : tbs (area c') (es ++ [(pc, d)]) !! length es =
                     Some (area c' + blocks_size es, (pc, d))).
  { rewrite tbs_app, lookup_app_r by (rewrite length_tbs; lia).
    by rewrite length_tbs, Nat.sub_diag. }
  destruct (rp_tb _ _ Hrep _ _ _ _ Hi) as (_ & _ & H1 & _ & _ & H2).
  split; [|done]. rewrite <- H2 at 2. f_equal. lia.
Qed.

(** An append, whatever the state of the area: earlier blocks are only
    dropped all together, with an event. *)
Lemma cache_append_spec :
  represents c es -> 2 ^ 16 <= jitter_area_size c ->
  let full := append_full c d in
  let es' := if full then [] else es in
  exists c', cache_append c pc d = Some (c', area c' + blocks_size es' + sizeof_tb,
                                        if full then Some 1 else None) /\
    represents c' (es' ++ [(pc, d)]) /\ area c' = area c /\
    clean c' = (if full then 0 else clean c) /\ jitter_area_size c' = jitter_area_size c.
Proof.
  intros Hrep Hsz. cbv zeta. destruct (append_full c d) eqn:Ef.
  - pose proof (cache_reset_represents _ _ Hrep) as Hr.
    assert (Ef' : append_full (cache_reset c) d = false).
    { unfold append_full, cache_reset. cbn. apply Z.ltb_ge. unfold sizeof_tb in *. lia. }
    rewrite append_full_reset by done.
    destruct (append_fits (cache_reset c) [] pc d Hr Hpc Hd) as (c' & E & Hr' & Ha & Hc & Hj & _).
    { unfold append_full in Ef'. apply Z.ltb_ge in Ef'. unfold block_size. cbn [snd]. lia. }
    rewrite E. cbn [mbind option_bind]. exists c'. rewrite Ha, Hc, Hj. by split_and!.
  - unfold append_full in Ef. apply Z.ltb_ge in Ef.
    destruct (append_fits c es pc d Hrep Hpc Hd) as (c' & E & Hr' & Ha & Hc & Hj & _).
    { unfold block_size. cbn [snd]. lia. }
    destruct (rp_pos _ _ Hrep) as [Ep _].
    exists c'. rewrite E, Ep, Ha. by split_and!.
Qed.
End append_spec.

(** ** Finding the block of a host address *)

Section lookup_pcs.
Context (c : internal_cache) (es : list block).
Hypothesis Hrep : represents c es.

(** The walk reaches the [n]th block when the address is in no earlier one. *)
Lemma lookup_pc_reach host_pc n fuel :
  (n <= length es)%nat -> area c + blocks_size (take n es) <= host_pc < area_end c ->
  lookup_pc_loop (n + fuel) c host_pc (area c) =
    lookup_pc_loop fuel c host_pc (area c + blocks_size (take n es)).
Proof.
  revert fuel. induction n as [|n IH]; intros fuel Hn Hh.
  - cbn. by rewrite Z.add_0_r.
  - destruct (lookup_lt_is_Some_2 es n ltac:(lia)) as [[pc d] Hi].
    rewrite (take_S_r _ _ _ Hi), blocks_size_app in Hh |- *. cbn [blocks_size] in Hh |- *.
    pose proof (block_size_pos (pc, d)) as Hb. unfold sizeof_tb in Hb.
    replace (S n + fuel)%nat with (n + S fuel)%nat by lia. rewrite IH by lia.
    assert (Ht : tbs (area c) es !! n = Some (area c + blocks_size (take n es), (pc, d))).
    { rewrite <- (take_drop n es) at 1. rewrite (drop_S _ _ _ Hi), tbs_app, lookup_app_r.
      - by rewrite length_tbs, length_take, Nat.min_l, Nat.sub_diag by lia.
      - rewrite length_tbs, length_take. lia. }
    destruct (rp_tb _ _ Hrep _ _ _ _ Ht) as (_ & _ & Hs & _).
    cbn [lookup_pc_loop]. rewrite Hs. unfold block_size in Hh. cbn [snd] in Hh.
    rewrite (proj2 (Z.ltb_ge _ _)) by lia. rewrite andb_false_r.
    rewrite (proj2 (Z.ltb_lt _ _)) by lia. f_equal. unfold block_size. cbn [snd]. lia.
Qed.

Lemma lookup_pc_hit host_pc i a pc d fuel :
  tbs (area c) es !! i = Some (a, (pc, d)) ->
  a <= host_pc < a + block_size (pc, d) -> (length es <= fuel)%nat ->
  cache_lookup_pc fuel c host_pc = Some (pc, Some (tb_to_jit_area a)).
Proof.
  intros Hi Hh Hf. pose proof (lookup_lt_Some _ _ _ Hi) as Hl. rewrite length_tbs in Hl.
  pose proof (tbs_bounds c es Hrep _ _ _ Hi) as (_ & B & _).
  destruct (rp_tb _ _ Hrep _ _ _ _ Hi) as (_ & _ & Hs & Hg & _).
  apply tbs_lookup in Hi as (Hi & -> & _).
  destruct (rp_pos _ _ Hrep) as [Ep Hp]. pose proof (rp_end _ _ Hrep) as He.
  unfold cache_lookup_pc. replace fuel with (i + S (fuel - i - 1))%nat by lia.
  rewrite lookup_pc_reach by lia. cbn [lookup_pc_loop]. rewrite Hs, Hg.
  unfold block_size in Hh. cbn [snd] in Hh.
  rewrite (proj2 (Z.leb_le _ _)), (proj2 (Z.ltb_lt _ _)) by lia. done.
Qed.

(** On the zero bytes after the last block the walk stays where it is. *)
Lemma lookup_pc_stuck host_pc fuel :
  area c + write_pos c <= host_pc < area_end c ->
  rd_le (area_bytes c) (write_pos c) 2 = 0 ->
  cache_lookup_pc fuel c host_pc = None.
Proof.
  intros Hh Hz. unfold cache_lookup_pc. destruct (rp_pos _ _ Hrep) as [Ep _].
  assert (Hs : forall fuel, lookup_pc_loop fuel c host_pc (area c + write_pos c) = None).
  { intros f. induction f as [|f IH]; [done|]. cbn [lookup_pc_loop]. unfold tb_size.
    rewrite Z.add_simpl_l, Hz, Z.add_0_r.
    rewrite (proj2 (Z.ltb_ge _ _)) by lia. rewrite andb_false_r.
    rewrite (proj2 (Z.ltb_lt _ _)) by lia. exact IH. }
  pose proof (lookup_pc_reach host_pc (length es) fuel (le_n _)) as H.
  rewrite take_ge in H by lia. rewrite <- Ep, Hs in H.
  destruct (lookup_pc_loop fuel c host_pc (area c)) as [r|] eqn:E; [|done].
  exfalso. enough (Hm : lookup_pc_loop (length es + fuel) c host_pc (area c) = Some r)
    by (rewrite H in Hm; [done|lia]).
  clear - E. revert E. generalize (area c), (length es). induction fuel as [|f IH]; intros p n E; [done|].
  replace (n + S f)%nat with (S (n + f)) by lia. cbn [lookup_pc_loop] in E |- *.
  destruct (_ && _); [done|]. destruct (_ <? _); [|done]. by apply IH.
Qed.
End lookup_pcs.

Lemma new_cache_represents memory size bytes :
  0 < memory -> memory + size < 2 ^ 64 -> MIN_CACHE_SIZE <= size ->
  Z.of_nat (length bytes) = size ->
  exists c, new_cache memory size bytes = Some c /\ represents c [] /\ clean c = 0 /\
    write_pos c = 0 /\ jitter_area_size c = size - sizeof_internal_cache.
Proof.
  intros Hm Hs Hmin Hl. unfold new_cache.
  rewrite (proj2 (Z.eqb_neq _ _)), (proj2 (Z.leb_le _ _)) by lia. cbn [negb andb].
  eexists. split; [done|]. split; [|by split_and!].
  assert (sizeof_internal_cache = 262208) by reflexivity. unfold MIN_CACHE_SIZE in *.
  constructor; cbn [cache_reset area jitter_area_size area_bytes area_end write_pos hlist cached blocks_size];
    try done; try lia.
  rewrite length_drop. lia.
Qed.
