(* ===== verification/CacheSpec.v ===== *)
(** * What the caches promise, and that they keep it

    The abstract caches: a finite map from guest pc to code per cache, a use
    count and the pending cleaning requests.  [caches_refine] shows that any
    admissible history of creations, removals, cleaning requests, lookups and
    appends gives on the byte areas of CodeCache.v the results that it gives
    on the maps; [lookup_pc_finds] is what the signal code relies on. *)

From S2P Require Import Prelude CodeCache.

(** ** Histories *)

Inductive cache_op :=
| OpCreate (cache : nat) (memory size : Z) (bytes : list Z)
| OpRemove (cache : nat)
| OpClean
| OpLookup (cache : nat) (pc : Z)
| OpAppend (cache : nat) (pc : Z) (data : list Z).

(** What the caller sees: the code found, the cleaning event. *)
Inductive cache_obs :=
| ObsNone
| ObsLookup (code : option (list Z)) (event : option Z)
| ObsAppend (code : list Z) (event : option Z).

(** The code at the address [p] that a call has returned. *)
Definition code_at (c : internal_cache) (p : Z) : list Z :=
  slice (area_bytes c) (p - area c) (Z.to_nat (tb_size c (p - sizeof_tb) - sizeof_tb)).

Definition run_op (op : cache_op) (w : caches) : option (caches * cache_obs) :=
  match op with
  | OpCreate id memory size bytes => w' ← createCache id memory size bytes w; Some (w', ObsNone)
  | OpRemove id => w' ← removeCache id w; Some (w', ObsNone)
  | OpClean => Some (cleanCaches w, ObsNone)
  | OpLookup id pc =>
      '(w', p, ev) ← lookup_in id pc w;
      c ← cache_store w' !! id;
      Some (w', ObsLookup (if p =? 0 then None else Some (code_at c p)) ev)
  | OpAppend id pc d =>
      '(w', p, ev) ← append_in id pc d w;
      c ← cache_store w' !! id;
      Some (w', ObsAppend (code_at c p) ev)
  end.

(** ** The abstract caches *)

Record spec_cache := mkSpec {
  sc_map : gmap Z (list Z);
  sc_used : Z;
  sc_size : Z;
  sc_clean : bool
}.

Record spec_world := mkSpecWorld { sw_caches : gmap nat spec_cache; sw_need : bool }.

Definition spec_flag (w : spec_world) : spec_world :=
  if sw_need w
  then mkSpecWorld ((fun s => mkSpec (sc_map s) (sc_used s) (sc_size s) true) <$> sw_caches w) false
  else w.

Definition spec_lookup (pc : Z) (s : spec_cache) : spec_cache * option (list Z) * option Z :=
  if sc_clean s then (mkSpec ∅ 0 (sc_size s) false, None, Some 1)
  else (s, sc_map s !! pc, None).

Definition spec_append (pc : Z) (d : list Z) (s : spec_cache) : spec_cache * option Z :=
  let n := Z.of_nat (length d) + sizeof_tb in
  if sc_size s <? sc_used s + n
  then (mkSpec {[pc := d]} n (sc_size s) false, Some 1)
  else (mkSpec (<[pc := d]> (sc_map s)) (sc_used s + n) (sc_size s) (sc_clean s), None).

(** [None]: the history is not one the program makes (a cache created twice
    or used after its removal, a pc appended that is already present, a block
    the 16-bit size cannot hold). *)
Definition spec_op (op : cache_op) (w : spec_world) : option (spec_world * cache_obs) :=
  match op with
  | OpCreate id memory size bytes =>
      if decide (sw_caches w !! id = None /\ 0 < memory /\ memory + size < 2 ^ 64 /\
                 MIN_CACHE_SIZE <= size /\ Z.of_nat (length bytes) = size)
      then Some (mkSpecWorld (<[id := mkSpec ∅ 0 (size - sizeof_internal_cache) false]> (sw_caches w))
                             (sw_need w), ObsNone)
      else None
  | OpRemove id =>
      _ ← sw_caches w !! id; Some (mkSpecWorld (delete id (sw_caches w)) (sw_need w), ObsNone)
  | OpClean => Some (mkSpecWorld (sw_caches w) true, ObsNone)
  | OpLookup id pc =>
      let w := spec_flag w in
      s ← sw_caches w !! id;
      let '(s', r, ev) := spec_lookup pc s in
      Some (mkSpecWorld (<[id := s']> (sw_caches w)) (sw_need w), ObsLookup r ev)
  | OpAppend id pc d =>
      s ← sw_caches w !! id;
      if decide (sc_map s !! pc = None /\ 0 <= pc < 2 ^ 64 /\ sizeof_tb + Z.of_nat (length d) < 2 ^ 16)
      then let '(s', ev) := spec_append pc d s in
           Some (mkSpecWorld (<[id := s']> (sw_caches w)) (sw_need w), ObsAppend d ev)
      else None
  end.

Section runs.
Context {W : Type} (step : cache_op -> W -> option (W * cache_obs)).
Fixpoint run_ops (ops : list cache_op) (w : W) : option (W * list cache_obs) :=
  match ops with
  | [] => Some (w, [])
  | op :: ops => '(w, o) ← step op w; '(w, os) ← run_ops ops w; Some (w, o :: os)
  end.
End runs.

(** ** The relation *)

Record holds_blocks (c : internal_cache) (s : spec_cache) (es : list block) : Prop := mkHolds {
  cr_represents : represents c es;
  cr_nodup : NoDup es.*1;
  cr_map : sc_map s = list_to_map es;
  cr_used : sc_used s = write_pos c;
  cr_size : sc_size s = jitter_area_size c /\ 2 ^ 16 <= jitter_area_size c;
  cr_clean : clean c = if sc_clean s then 1 else 0
}.

Definition cache_rel (c : internal_cache) (s : spec_cache) : Prop := exists es, holds_blocks c s es.

Record world_rel (w : caches) (sw : spec_world) : Prop := mkWorldRel {
  wr_need : is_cache_clean_need w = sw_need sw;
  wr_root : forall id, id ∈ root w <-> is_Some (sw_caches sw !! id);
  wr_nodup : NoDup (root w);
  wr_caches : forall id s, sw_caches sw !! id = Some s ->
    exists c, cache_store w !! id = Some c /\ cache_rel c s
}.

(** ** One operation on one cache *)

Lemma code_at_block c es i a pc d :
  represents c es -> tbs (area c) es !! i = Some (a, (pc, d)) -> code_at c (tb_to_jit_area a) = d.
Proof.
  intros Hrep Hi. destruct (rp_tb _ _ Hrep _ _ _ _ Hi) as (_ & _ & Hs & _ & _ & Hd).
  unfold code_at, tb_to_jit_area. rewrite Z.add_simpl_r, Hs, Z.add_simpl_l, Nat2Z.id.
  rewrite <- Hd at 2. f_equal. lia.
Qed.

Lemma rel_reset c s :
  cache_rel c s -> cache_rel (cache_reset c) (mkSpec ∅ 0 (sc_size s) false).
Proof.
  intros (es & [Hr _ _ _ [Hs Hs'] _]). exists []. constructor; try done.
  - by apply cache_reset_represents in Hr.
  - constructor.
Qed.

Lemma rel_set_clean c s :
  cache_rel c s -> cache_rel (ll_clean_cache c) (mkSpec (sc_map s) (sc_used s) (sc_size s) true).
Proof. intros (es & [[] ? ? ? [? ?] ?]). exists es. by constructor; [constructor|..]. Qed.

Lemma rel_lookup c s pc :
  cache_rel c s ->
  exists c' p, cache_lookup c pc = Some (c', p, (spec_lookup pc s).2) /\
    cache_rel c' (spec_lookup pc s).1.1 /\
    (if p =? 0 then None else Some (code_at c' p)) = (spec_lookup pc s).1.2.
Proof.
  intros Hrel. pose proof Hrel as (es & [Hr Hnd Hm Hu Hs Hc]). unfold spec_lookup.
  destruct (sc_clean s) eqn:Ec; cbn [fst snd].
  - eexists _, _. unfold cache_lookup. rewrite Hc. split; [done|]. split; [|done].
    by apply rel_reset in Hrel.
  - destruct (cache_lookup_spec c es Hr pc Hc) as (c' & p & E & Hr' & Hc' & Ha & Hb & Hp).
    exists c', p. split; [done|]. pose proof (rp_pos _ _ Hr) as [Ew _].
    pose proof (rp_pos _ _ Hr') as [Ew' _]. split.
    { exists es. assert (jitter_area_size c' = jitter_area_size c) as Ej.
      { rewrite <- (rp_len _ _ Hr), <- (rp_len _ _ Hr'). by rewrite Hb. }
      constructor; rewrite ?Ec, ?Ej; try done. by rewrite Hu, Ew, Ew'. }
    destruct Hp as [[-> Hn]|(i & a & d & Hi & ->)].
    + cbn. rewrite Hm. symmetry. apply not_elem_of_list_to_map. intros Hin.
      apply list_elem_of_fmap in Hin as (b & -> & Hin). by apply (Hn b).
    + destruct (tbs_bounds c es Hr _ _ _ Hi) as (B & _ & _).
      pose proof (rp_area _ _ Hr). unfold tb_to_jit_area at 1, sizeof_tb.
      rewrite (proj2 (Z.eqb_neq _ _)) by lia.
      rewrite <- Ha in Hi. rewrite (code_at_block _ _ _ _ _ _ Hr' Hi), Hm. symmetry.
      apply elem_of_list_to_map; [done|].
      apply tbs_lookup in Hi as [Hi _]. by eapply list_elem_of_lookup_2.
Qed.

Lemma rel_append c s pc d :
  cache_rel c s -> sc_map s !! pc = None -> 0 <= pc < 2 ^ 64 ->
  sizeof_tb + Z.of_nat (length d) < 2 ^ 16 ->
  exists c' p, cache_append c pc d = Some (c', p, (spec_append pc d s).2) /\
    cache_rel c' (spec_append pc d s).1 /\ code_at c' p = d.
Proof.
  intros (es & [Hr Hnd Hm Hu [Hs Hs'] Hc]) Hnone Hpc Hd.
  destruct (cache_append_spec c es pc d Hpc Hd Hr Hs') as (c' & E & Hr' & Ha & Hc' & Hj).
  set (es' := if append_full c d then [] else es) in *.
  assert (Hcode : code_at c' (area c' + blocks_size es' + sizeof_tb) = d).
  { apply (code_at_block _ _ (length es') _ pc d Hr').
    rewrite tbs_app, lookup_app_r, length_tbs, Nat.sub_diag by (rewrite length_tbs; lia). done. }
  pose proof (rp_pos _ _ Hr') as [Ew' _]. rewrite blocks_size_app in Ew'. cbn [blocks_size] in Ew'.
  unfold block_size in Ew'. cbn [snd] in Ew'. pose proof (rp_pos _ _ Hr) as [Ew _].
  unfold spec_append, append_full in *. rewrite Hs, Hu, Z.add_assoc.
  destruct (jitter_area_size c <? write_pos c + Z.of_nat (length d) + sizeof_tb) eqn:Ef;
    cbn [fst snd]; eexists _, _; (split; [exact E|]); (split; [|done]).
  - exists [(pc, d)]. constructor; cbn [sc_map sc_used sc_size sc_clean]; try done.
    + apply NoDup_singleton.
    + rewrite Ew'. subst es'. cbn. lia.
    + by rewrite Hj.
  - exists (es ++ [(pc, d)]). constructor; cbn [sc_map sc_used sc_size sc_clean]; try done.
    + rewrite fmap_app. apply NoDup_app. split; [done|]. split; [|apply NoDup_singleton].
      intros x Hx ->%list_elem_of_singleton. cbn in Hx. rewrite Hm in Hnone.
      by apply not_elem_of_list_to_map in Hnone.
    + rewrite Hm. symmetry. apply list_to_map_snoc. rewrite Hm in Hnone.
      by apply not_elem_of_list_to_map.
    + rewrite Ew', Ew. subst es'. cbn. lia.
    + by rewrite Hj.
    + by rewrite Hc', Hc.
Qed.

(** ** The list of caches *)

Lemma ll_remove_spec id l :
  id ∈ l -> NoDup l ->
  exists l', ll_remove id l = Some l' /\ NoDup l' /\ forall x, x ∈ l' <-> x ∈ l /\ x <> id.
Proof.
  induction l as [|y l IH]; intros Hin Hnd; [by apply elem_of_nil in Hin|].
  apply NoDup_cons in Hnd as [Hy Hnd]. cbn [ll_remove]. case_decide as E.
  - subst y. exists l. split; [done|]. split; [done|]. intros x. rewrite elem_of_cons.
    split; [|by intros [[->|] ?]]. intros Hx. split; [by right|]. by intros ->.
  - apply elem_of_cons in Hin as [->|Hin]; [done|].
    destruct (IH Hin Hnd) as (l' & -> & Hnd' & Hl'). exists (y :: l'). split; [done|].
    split; [apply NoDup_cons; split; [|done]; rewrite Hl'; by intros [? _]|].
    intros x. rewrite !elem_of_cons, Hl'. split; [intros [->|[? ?]]; auto|].
    intros [[->|] ?]; auto.
Qed.

Lemma clean_all_lookup (l : list nat) (m : gmap nat internal_cache) id :
  NoDup l ->
  foldr (fun id s => alter ll_clean_cache id s) m l !! id =
    if decide (id ∈ l) then ll_clean_cache <$> m !! id else m !! id.
Proof.
  induction l as [|x l IH]; intros Hnd; cbn [foldr].
  - by rewrite decide_False by apply not_elem_of_nil.
  - apply NoDup_cons in Hnd as [Hx Hnd]. specialize (IH Hnd). destruct (decide (x = id)) as [->|Hne].
    + rewrite lookup_alter_eq, IH, decide_False by done.
      by rewrite decide_True by (apply elem_of_cons; auto).
    + rewrite lookup_alter_ne, IH by done.
      apply decide_ext. rewrite elem_of_cons. split; [auto|by intros [->|]].
Qed.

(** Updating one cache on both sides. *)
Lemma world_rel_update w sw id c s need :
  world_rel w sw -> is_Some (sw_caches sw !! id) -> cache_rel c s -> need = sw_need sw ->
  world_rel (mkCaches (root w) (<[id := c]> (cache_store w)) need)
            (mkSpecWorld (<[id := s]> (sw_caches sw)) (sw_need sw)).
Proof.
  intros [Hn Hr Hnd Hc] Hid Hrel ->. constructor; cbn; try done.
  - intros id'. rewrite Hr. destruct (decide (id = id')) as [->|].
    + rewrite lookup_insert_eq. split; eauto.
    + by rewrite lookup_insert_ne.
  - intros id' s'. destruct (decide (id = id')) as [->|].
    + rewrite !lookup_insert_eq. intros [= <-]. eauto.
    + rewrite !lookup_insert_ne by done. apply Hc.
Qed.

Lemma world_rel_flag w sw :
  world_rel w sw ->
  world_rel (clean_if_needed w) (spec_flag sw).
Proof.
  intros Hw. pose proof Hw as [Hn Hr Hnd Hc]. unfold spec_flag, clean_if_needed. rewrite Hn.
  destruct (sw_need sw); [|done]. constructor; cbn; try done.
  - intros id. rewrite Hr, lookup_fmap, fmap_is_Some. done.
  - intros id s. rewrite lookup_fmap, clean_all_lookup by done. intros (s0 & Hs0 & ->)%fmap_Some.
    rewrite decide_True by (apply Hr; eauto). destruct (Hc _ _ Hs0) as (c & -> & Hrel).
    eexists. split; [done|]. by apply rel_set_clean.
Qed.

Lemma world_rel_create w sw id c s need :
  world_rel w sw -> sw_caches sw !! id = None -> cache_rel c s -> need = sw_need sw ->
  world_rel (ll_append_cache id (mkCaches (root w) (<[id := c]> (cache_store w)) need))
            (mkSpecWorld (<[id := s]> (sw_caches sw)) (sw_need sw)).
Proof.
  intros [Hn Hr Hnd Hc] Hid Hrel ->. constructor; cbn; try done.
  - intros id'. rewrite elem_of_cons, Hr. destruct (decide (id = id')) as [->|].
    + rewrite lookup_insert_eq. split; eauto.
    + rewrite lookup_insert_ne by done. split; [by intros [->|]|by right].
  - apply NoDup_cons. split; [|done]. rewrite Hr, Hid. by intros [].
  - intros id' s'. destruct (decide (id = id')) as [->|].
    + rewrite !lookup_insert_eq. intros [= <-]. eauto.
    + rewrite !lookup_insert_ne by done. apply Hc.
Qed.

Lemma run_op_refines op w sw sw' o :
  world_rel w sw -> spec_op op sw = Some (sw', o) ->
  exists w', run_op op w = Some (w', o) /\ world_rel w' sw'.
Proof.
  intros Hw. pose proof Hw as [Hn Hr Hnd Hc]. destruct op as [id mem sz bytes|id| |id pc|id pc d];
    cbn [spec_op run_op].
  - case_decide as E; [|done]. destruct E as (Hid & H1 & H2 & H3 & H4). intros [= <- <-].
    destruct (new_cache_represents mem sz bytes H1 H2 H3 H4) as (c & E & Hrep & Hcl & Hp & Hj).
    unfold createCache. rewrite E. cbn [mbind option_bind]. eexists. split; [done|].
    apply world_rel_create; try done. exists []. constructor; try done; [constructor|].
    assert (sizeof_internal_cache = 262208) by reflexivity. unfold MIN_CACHE_SIZE in *.
    cbn [sc_size]. lia.
  - destruct (sw_caches sw !! id) as [s|] eqn:Hid; [|done]. cbn [mbind option_bind]. intros [= <- <-].
    unfold removeCache, ll_remove_cache.
    destruct (ll_remove_spec id (root w)) as (l' & -> & Hnd' & Hl'); [apply Hr; eauto|done|].
    cbn [mbind option_bind]. eexists. split; [done|]. constructor; cbn; try done.
    + intros x. rewrite Hl', Hr, lookup_delete. case_decide as Ed.
      * subst x. split; [by intros [_ ?]|by intros []].
      * split; [by intros [? _]|]. intros ?. split; [done|]. by intros ->.
    + intros x s'. rewrite lookup_delete_Some. intros [_ Hs]. by apply Hc.
  - intros [= <- <-]. eexists. split; [done|]. constructor; try done.
  - apply world_rel_flag in Hw. unfold lookup_in.
    destruct (sw_caches (spec_flag sw) !! id) as [s|] eqn:Hid; [|done]. cbn [mbind option_bind].
    destruct (spec_lookup pc s) as [[s' r] ev] eqn:Es. intros [= <- <-].
    destruct (wr_caches _ _ Hw _ _ Hid) as (c & -> & Hrel). cbn [mbind option_bind].
    destruct (rel_lookup c s pc Hrel) as (c' & p & -> & Hrel' & Hobs).
    rewrite Es in Hrel', Hobs |- *. cbn [fst snd mbind option_bind cache_store] in *.
    rewrite lookup_insert_eq. cbn [mbind option_bind]. rewrite Hobs. eexists. split; [done|].
    apply world_rel_update; try done; eauto using wr_need.
  - unfold append_in. destruct (sw_caches sw !! id) as [s|] eqn:Hid; [|done]. cbn [mbind option_bind].
    case_decide as E; [|done]. destruct E as (H1 & H2 & H3).
    destruct (spec_append pc d s) as [s' ev] eqn:Es. intros [= <- <-].
    destruct (Hc _ _ Hid) as (c & -> & Hrel). cbn [mbind option_bind].
    destruct (rel_append c s pc d Hrel H1 H2 H3) as (c' & p & -> & Hrel' & Hobs).
    rewrite Es in Hrel' |- *. cbn [fst snd mbind option_bind cache_store] in *.
    rewrite lookup_insert_eq. cbn [mbind option_bind]. rewrite Hobs. eexists. split; [done|].
    by apply world_rel_update.
Qed.

Lemma run_ops_refines ops w sw sw' os :
  world_rel w sw -> run_ops spec_op ops sw = Some (sw', os) ->
  exists w', run_ops run_op ops w = Some (w', os) /\ world_rel w' sw'.
Proof.
  revert w sw os. induction ops as [|op ops IH]; intros w sw os Hw H; cbn [run_ops] in *.
  - injection H as <- <-. eauto.
  - destruct (spec_op op sw) as [[sw1 o]|] eqn:E; [|done]. cbn [mbind option_bind] in H.
    destruct (run_ops spec_op ops sw1) as [[sw2 os']|] eqn:E2; [|done]. cbn [mbind option_bind] in H.
    injection H as <- <-. destruct (run_op_refines _ _ _ _ _ Hw E) as (w1 & -> & Hw1).
    cbn [mbind option_bind]. destruct (IH _ _ _ Hw1 E2) as (w2 & -> & Hw2). eauto.
Qed.

Definition no_caches : caches := mkCaches [] ∅ false.
Definition no_spec : spec_world := mkSpecWorld ∅ false.

Lemma no_caches_rel : world_rel no_caches no_spec.
Proof.
  constructor; try done; cbn.
  - intros id. rewrite lookup_empty. split; [by intros ?%elem_of_nil|by intros []].
  - constructor.
Qed.

(** Two threads with small areas. *)
Definition tiny_cache (a : Z) : internal_cache :=
  mkCache 0 0 64 ∅ ∅ a (a + 64) (replicate 64 0).
Definition tiny_world : caches :=
  mkCaches [0%nat; 1%nat] {[0%nat := tiny_cache 4096; 1%nat := tiny_cache 8192]} false.

Lemma tiny_represents : represents (tiny_cache 4096) [].
Proof. by constructor. Qed.

(** ** Properties *)

(** C14. Any history of cache creations, removals, cleaning requests, lookups
    and appends gives, on the packed headers and hash chains in the byte
    areas, exactly the codes and cleaning events it gives on finite maps. *)
Theorem caches_refine ops sw os :
  run_ops spec_op ops no_spec = Some (sw, os) ->
  exists w, run_ops run_op ops no_caches = Some (w, os) /\ world_rel w sw.
Proof. apply run_ops_refines, no_caches_rel. Qed.

(** C31. [lookup_pc] finds the block that holds a host address, its guest pc
    and the start of its code, in at most one step per block. *)
Theorem lookup_pc_finds c es i a pc d host_pc fuel :
  represents c es -> tbs (area c) es !! i = Some (a, (pc, d)) ->
  a <= host_pc < a + block_size (pc, d) -> (length es <= fuel)%nat ->
  cache_lookup_pc fuel c host_pc = Some (pc, Some (tb_to_jit_area a)).
Proof. intros Hr. by apply lookup_pc_hit. Qed.

(** For an address of the area that no block holds yet, [lookup_pc] never
    returns: the size it advances by is the 0 of the unused bytes. *)
Theorem lookup_pc_diverges c es host_pc :
  represents c es -> area c + write_pos c <= host_pc < area_end c ->
  rd_le (area_bytes c) (write_pos c) 2 = 0 ->
  forall fuel, cache_lookup_pc fuel c host_pc = None.
Proof. intros Hr Hh Hz fuel. by apply (lookup_pc_stuck c es Hr). Qed.

(** ** Witnesses *)

Definition demo_create : cache_op :=
  OpCreate 0 4096 MIN_CACHE_SIZE (replicate (Z.to_nat MIN_CACHE_SIZE) 0).

Lemma demo_created ops :
  run_ops spec_op (demo_create :: ops) no_spec =
    ('(w, os) ← run_ops spec_op ops
       (mkSpecWorld {[0%nat := mkSpec ∅ 0 (MIN_CACHE_SIZE - sizeof_internal_cache) false]} false);
     Some (w, ObsNone :: os)).
Proof.
  cbn [run_ops spec_op demo_create]. rewrite decide_True; [done|].
  split; [done|]. do 3 (split; [done|]). rewrite length_replicate.
  apply Z2Nat.id. discriminate.
Qed.

Lemma caches_refine_witness :
  exists w, run_ops run_op [demo_create; OpLookup 0 400; OpAppend 0 400 [1; 2; 3]; OpLookup 0 400]
              no_caches =
    Some (w, [ObsNone; ObsLookup None None; ObsAppend [1; 2; 3] None; ObsLookup (Some [1; 2; 3]) None]).
Proof.
  edestruct (caches_refine [demo_create; OpLookup 0 400; OpAppend 0 400 [1; 2; 3]; OpLookup 0 400])
    as (w & Hw & _); [rewrite demo_created; vm_compute; reflexivity|].
  exists w. exact Hw.
Defined.

Lemma lookup_pc_finds_witness :
  exists c, represents c [(400, [7; 8; 9])] /\
    cache_lookup_pc 1 c (4096 + 19) = Some (400, Some (4096 + 18)).
Proof.
  destruct (append_fits (tiny_cache 4096) [] 400 [7; 8; 9] tiny_represents) as (c & _ & Hc & Ha & _);
    [done|done|done|].
  exists c. split; [exact Hc|].
  apply (lookup_pc_finds c [(400, [7; 8; 9])] 0 4096 400 [7; 8; 9] (4096 + 19) 1 Hc).
  - by rewrite Ha.
  - done.
  - cbn. lia.
Defined.

Lemma lookup_pc_diverges_witness :
  represents (tiny_cache 4096) [] /\ forall fuel, cache_lookup_pc fuel (tiny_cache 4096) 4100 = None.
Proof.
  split; [apply tiny_represents|].
  apply (lookup_pc_diverges (tiny_cache 4096) [] 4100 tiny_represents); [done|reflexivity].
Defined.
