(* ===== verification/CacheThreads.v ===== *)
(** * Cleaning requests and concurrent lookups ([src/src/cache/cache.c])

    [cleanCaches] sets a flag; [lookup] tests it, marks every cache with the
    list locked, and clears it, without a lock around the three.  Here each of
    these is a step and the threads, each with its cache, interleave. *)

From S2P Require Import Prelude CodeCache CacheSpec.

(** Where a lookup is: before its test of the flag, before it takes
    [ll_mutex], with the caches still to mark, the lock given back and the
    flag still set, at the part that is about its own cache, returned. *)
Inductive lookup_phase :=
| LTest
| LMark
| LMarking (l : list nat)
| LClear
| LLocal
| LDone (p : Z) (event : option Z).

Definition mark_cache (id : nat) (w : caches) : caches :=
  mkCaches (root w) (alter ll_clean_cache id (cache_store w)) (is_cache_clean_need w).

(** The caches and the holder of [ll_mutex]. *)
Record shared := mkShared { sh_caches : caches; ll_mutex : option nat }.

(** One step of the lookup of [pc] by the thread [t].  With the mutex taken it
    waits. *)
Definition lookup_step (t : nat) (pc : Z) (ph : lookup_phase) (s : shared) : option (lookup_phase * shared) :=
  let w := sh_caches s in
  match ph with
  | LTest => Some (if is_cache_clean_need w then LMark else LLocal, s)
  | LMark =>
      match ll_mutex s with
      | None => Some (LMarking (root w), mkShared w (Some t))
      | Some _ => Some (LMark, s)
      end
  | LMarking (x :: l) => Some (LMarking l, mkShared (mark_cache x w) (ll_mutex s))
  | LMarking [] => Some (LClear, mkShared w None)
  | LClear => Some (LLocal, mkShared (mkCaches (root w) (cache_store w) false) (ll_mutex s))
  | LLocal =>
      c ← cache_store w !! t;
      '(c', p, ev) ← cache_lookup c pc;
      Some (LDone p ev, mkShared (mkCaches (root w) (<[t := c']> (cache_store w)) (is_cache_clean_need w)) (ll_mutex s))
  | LDone _ _ => None
  end.

(** What the threads do: request a cleaning, start a lookup when they are in
    none, take one step of it, append.  A thread is named by its cache. *)
Inductive thread_event :=
| EvRequest
| EvStart (t : nat) (pc : Z)
| EvStep (t : nat)
| EvAppend (t : nat) (pc : Z) (data : list Z).

Record system := mkSystem { sy_shared : shared; sy_threads : gmap nat (Z * lookup_phase) }.

Definition returned (o : option (Z * lookup_phase)) : bool :=
  match o with None | Some (_, LDone _ _) => true | _ => false end.

Definition system_step (e : thread_event) (y : system) : option system :=
  let s := sy_shared y in
  match e with
  | EvRequest => Some (mkSystem (mkShared (cleanCaches (sh_caches s)) (ll_mutex s)) (sy_threads y))
  | EvStart t pc =>
      if returned (sy_threads y !! t) then Some (mkSystem s (<[t := (pc, LTest)]> (sy_threads y))) else None
  | EvStep t =>
      '(pc, ph) ← sy_threads y !! t;
      '(ph', s') ← lookup_step t pc ph s;
      Some (mkSystem s' (<[t := (pc, ph')]> (sy_threads y)))
  | EvAppend t pc d =>
      '(w', _, _) ← append_in t pc d (sh_caches s); Some (mkSystem (mkShared w' (ll_mutex s)) (sy_threads y))
  end.

Fixpoint system_run (es : list thread_event) (y : system) : option system :=
  match es with [] => Some y | e :: es => y ← system_step e y; system_run es y end.


(** ** A lookup that nothing interrupts *)

Fixpoint lookup_steps (n : nat) (t : nat) (pc : Z) (ph : lookup_phase) (s : shared) : option (lookup_phase * shared) :=
  match n with
  | O => Some (ph, s)
  | S n => match ph with
           | LDone _ _ => Some (ph, s)
           | _ => '(ph, s) ← lookup_step t pc ph s; lookup_steps n t pc ph s
           end
  end.

Lemma alter_clean_comm x y (m : gmap nat internal_cache) :
  alter ll_clean_cache x (alter ll_clean_cache y m) = alter ll_clean_cache y (alter ll_clean_cache x m).
Proof.
  apply map_eq. intros i. rewrite !lookup_alter. destruct (decide (x = i)), (decide (y = i)); subst; rewrite ?decide_True, ?decide_False by done; try done.
Qed.

Lemma mark_first l x (m : gmap nat internal_cache) :
  foldr (fun id s => alter ll_clean_cache id s) (alter ll_clean_cache x m) l =
  alter ll_clean_cache x (foldr (fun id s => alter ll_clean_cache id s) m l).
Proof. induction l as [|y l IH]; cbn; [done|]. by rewrite IH, alter_clean_comm. Qed.

(** Marking the caches of [l] one after the other. *)
Lemma marking_steps l n t pc w mx :
  lookup_steps (length l + n) t pc (LMarking l) (mkShared w mx) =
  lookup_steps n t pc (LMarking [])
    (mkShared (mkCaches (root w) (foldr (fun id s => alter ll_clean_cache id s) (cache_store w) l)
                        (is_cache_clean_need w)) mx).
Proof.
  revert w. induction l as [|x l IH]; intros w; [by destruct w|].
  cbn [length Nat.add lookup_steps lookup_step mbind option_bind sh_caches ll_mutex].
  rewrite IH. cbn [root cache_store is_cache_clean_need mark_cache foldr]. by rewrite mark_first.
Qed.

(** Run without interference, the steps of [lookup] are the whole call. *)
Theorem lookup_steps_atomic t pc w :
  lookup_steps (length (root w) + 5) t pc LTest (mkShared w None) =
    ('(w', p, ev) ← lookup_in t pc w; Some (LDone p ev, mkShared w' None)).
Proof.
  replace (length (root w) + 5)%nat with (S (S (length (root w) + 3))) by lia.
  unfold lookup_in, clean_if_needed. cbn [lookup_steps lookup_step mbind option_bind sh_caches ll_mutex].
  destruct (is_cache_clean_need w) eqn:En; cbn [lookup_steps lookup_step mbind option_bind sh_caches ll_mutex].
  - rewrite marking_steps. cbn [lookup_steps lookup_step mbind option_bind sh_caches ll_mutex root cache_store is_cache_clean_need].
    unfold ll_clean_caches. cbn [root cache_store is_cache_clean_need].
    destruct (_ !! t) as [c|]; [|done]. cbn [mbind option_bind].
    by destruct (cache_lookup c pc) as [[[c' p] ev]|].
  - destruct (length (root w) + 3)%nat as [|n]; cbn [lookup_steps]; destruct (cache_store w !! t) as [c|]; try done;
      cbn [mbind option_bind]; destruct (cache_lookup c pc) as [[[c' p] ev]|]; try done; by destruct n.
Qed.

(** ** A request that no lookup is in the middle of *)
























(** ** The end of the lookup *)





(** ** Properties *)


(** ** What is lost *)

Definition tiny_system : system := mkSystem (mkShared tiny_world None) ∅.

(** A request made while another thread is between its marking and its
    clearing of the flag is lost: thread 1 requests a cleaning after it
    appended a block, thread 0 clears the flag without having marked the
    caches again, and thread 1 still finds the stale block. *)
Theorem cleaning_request_lost :
  exists y p,
    system_run (EvRequest :: EvStart 0 0 :: replicate 5 (EvStep 0) ++ EvStart 1 400 :: replicate 7 (EvStep 1) ++
                [EvAppend 1 400 [7; 8; 9]; EvRequest; EvStep 0; EvStart 1 400; EvStep 1; EvStep 1]) tiny_system = Some y /\
    sy_threads y !! 1%nat = Some (400, LDone p None) /\ p <> 0.
Proof. eexists _, _. split; [vm_compute; reflexivity|]. by split. Qed.

(** So is the mark of a thread that is between a lookup and the append that
    follows when its area is full: [reset] clears it, and the block appended
    then, translated before the request, is found by the next lookup. *)
Theorem append_drops_mark :
  exists y p,
    system_run ([EvAppend 1 100 [7; 8; 9]; EvAppend 1 200 [7; 8; 9]; EvAppend 1 300 [7; 8; 9];
                 EvStart 1 400; EvStep 1; EvStep 1; EvRequest; EvStart 0 0] ++ replicate 7 (EvStep 0) ++
                [EvAppend 1 400 [7; 8; 9]; EvStart 1 400; EvStep 1; EvStep 1]) tiny_system = Some y /\
    sy_threads y !! 0%nat = Some (0, LDone 0 (Some 1)) /\
    sy_threads y !! 1%nat = Some (400, LDone p None) /\ p <> 0.
Proof. eexists _, _. split; [vm_compute; reflexivity|]. by split_and!. Qed.

(** ** Witness *)



