(* ===== verification/Loop.v ===== *)
(** * The translation loop ([loop_common] of [src/src/main.c])

    Look the guest pc up in the cache; translate and append the block when it
    is not there, linking the exit the previous block came out of to it;
    execute; go on at the pc the code returned.  The front end ([struct
    target]) is an interface here; the cache, the builder, the back end and
    the machine are the ones of the other files. *)

From S2P Require Import Prelude Ir Jitter BeX86 BeGen X86Sem X86Exec CodeCache.

(** ** What the loop calls *)

(** [struct target], as the loop uses it.  [isLooping] may change the guest
    context, which is in memory; [disassemble] describes at most [maxInsn]
    guest instructions from [pc] to the builder. *)
Class Target := {
  isLooping : mem -> bool * mem;
  disassemble : mem -> Z -> Z -> list irCall;
  (** a target that goes on is left as it is *)
  isLooping_same : forall m m', isLooping m = (true, m') -> m' = m
}.

(** The machine code runs on: helpers at their addresses, what the C caller
    leaves in the registers when it calls [execute] on the code at an address,
    and where the guest context is. *)
Class Host := {
  callee : Z -> (Z -> Z) -> mem -> (Z -> Z) * bool * mem;
  host_regs : mem -> Z -> Z -> Z;
  host_regs_ok : forall m a r, 0 <= host_regs m a r < 2 ^ 64;
  backend_address : Z;
  jitBuffer_address : Z;
  target_runtime : Z
}.

(** The [struct cache] the loop was given: cache [id] of the list of caches,
    or the one of [cacheNone.c]. *)
Inductive cache_object :=
  | Cache (id : nat) (w : caches)
  | CacheNone (c : internal_cache_none).

Definition lookup_cache (o : cache_object) (pc : Z) : option (cache_object * Z * option Z) :=
  match o with
  | Cache id w => '(w, p, ev) ← lookup_in id pc w; Some (Cache id w, p, ev)
  | CacheNone c => let '(c, p, ev) := lookup_none c pc in Some (CacheNone c, p, ev)
  end.

(** [data] is the address of the bytes [bs]. *)
Definition append_cache (o : cache_object) (pc data : Z) (bs : list Z) :
    option (cache_object * Z * option Z) :=
  match o with
  | Cache id w => '(w, p, ev) ← append_in id pc bs w; Some (Cache id w, p, ev)
  | CacheNone c => let '(c, p, ev) := append_none c pc data in Some (CacheNone c, p, ev)
  end.

(** ** Execution *)

Section execution.
Context `{Host}.

(** Run the code [c] loaded at [base] from offset [p]: a linked exit jumps to
    another block of the same area. *)
Fixpoint run_area (fuel : nat) (c : list Z) (base p : Z) (k : cpu) : option cpu :=
  match fuel with
  | O => None
  | S fuel =>
      match mstep callee c base p k with
      | MNext p' k' => run_area fuel c base p' k'
      | MJump t k' => run_area fuel c base (t - base) k'
      | MRet k' => Some k'
      | MStuck => None
      end
  end.

(** [execute_be_x86_64] ([be_x86_64_asm.S]), the saving of the stack pointer
    for [restore_be_x86_64] apart: arguments in rdi, rsi and rdx, the result
    in rax and rdx. *)
Definition execute_prologue : list insn :=
  [Ipush RBP; Ipush RBX; Ipush 12; Ipush 13; Ipush 14; Ipush 15; Imov RAX RSI; Imov RDI RDX].
Definition execute_epilogue : list insn :=
  [Ipop 15; Ipop 14; Ipop 13; Ipop 12; Ipop RBX; Ipop RBP].

Definition execute_be_x86_64 (fuel : nat) (c : list Z) (base : Z) (k : cpu) : option cpu :=
  k1 ← exec_seq callee execute_prologue k;
  k2 ← run_area fuel c base (rf k1 RAX - base) k1;
  exec_seq callee execute_epilogue k2.

(** The C call [backend->execute(backend, buffer, context)]: the values of
    [result] and [link_patch_area], and the memory. *)
Definition execute (fuel : nat) (c : list Z) (base buffer context : Z) (m : mem) :
    option (Z * Z * mem) :=
  let f := upd (upd (upd (host_regs m buffer) RDI backend_address) RSI buffer) RDX context in
  k ← execute_be_x86_64 fuel c base (mkCpu f false m []);
  Some (rf k RAX, rf k RDX, mm k).
End execution.

(** ** The loop *)

Record loop_state := mkLoop {
  l_cache : cache_object;
  currentPc : Z;
  prevCurrentPc : Z;
  result : Z;                  (** [result.result] *)
  link_patch_area : Z;         (** [result.link_patch_area], 0 being NULL *)
  handle : jitter;
  l_backend : inter;
  jitBuffer : list Z;
  l_mem : mem
}.

Definition jitBuffer_size : Z := 16 * 1024.

Section loop.
Context `{Target} `{Host}.

(** Where the code of the cache is: its bytes and their address. *)
Definition code_area (o : cache_object) (buf : list Z) : option (list Z * Z) :=
  match o with
  | Cache id w => c ← cache_store w !! id; Some (area_bytes c, area c)
  | CacheNone _ => Some (buf, jitBuffer_address)
  end.

Definition set_area (bs : list Z) (c : internal_cache) : internal_cache :=
  mkCache (write_pos c) (clean c) (jitter_area_size c) (cached c) (hlist c) (area c) (area_end c) bs.

(** [backend->patch(backend, link, cache_area)] *)
Definition patch_cache (o : cache_object) (buf : list Z) (link cache_area : Z) :
    option (cache_object * list Z) :=
  match o with
  | Cache id w =>
      c ← cache_store w !! id;
      if area c <=? link then
        bs ← patch (area_bytes c) (Z.to_nat (link - area c)) cache_area;
        Some (Cache id (mkCaches (root w) (<[id := set_area bs c]> (cache_store w))
                                 (is_cache_clean_need w)), buf)
      else None
  | CacheNone c =>
      if jitBuffer_address <=? link then
        buf ← patch buf (Z.to_nat (link - jitBuffer_address)) cache_area; Some (CacheNone c, buf)
      else None
  end.

(** Execute the block at [cache_area] and go on where it says. *)
Definition execute_block (fuel : nat) (o : cache_object) (j : jitter) (be : inter) (buf : list Z)
    (cache_area : Z) (st : loop_state) : option loop_state :=
  '(c, base) ← code_area o buf;
  '(res, link, m) ← execute fuel c base cache_area target_runtime (l_mem st);
  Some (mkLoop o res (currentPc st) res link j be buf m).

(** The body of the loop. *)
Definition loop_body (max_insn : Z) (fuel : nat) (st : loop_state) : option loop_state :=
  '(o1, cache_area, ev1) ← lookup_cache (l_cache st) (currentPc st);
  let is_cache_was_cleaned := default 0 ev1 in
  if negb (cache_area =? 0) then
    execute_block fuel o1 (handle st) (l_backend st) (jitBuffer st) cache_area st
  else
    '(_, j) ← irAlloc_session (disassemble (l_mem st) (currentPc st) max_insn) (resetJitter (handle st));
    '(jitSize, buf, be) ← jitCode j (reset (l_backend st)) (jitBuffer st) jitBuffer_size;
    if 0 <? jitSize then
      '(o2, cache_area, ev2) ← append_cache o1 (currentPc st) jitBuffer_address (take (Z.to_nat jitSize) buf);
      let is_cache_was_cleaned := default is_cache_was_cleaned ev2 in
      '(o3, buf) ←
        (if (prevCurrentPc st <? currentPc st) && negb (link_patch_area st =? 0)
            && (is_cache_was_cleaned =? 0)
         then patch_cache o2 buf (link_patch_area st) cache_area
         else Some (o2, buf));
      execute_block fuel o3 j be buf cache_area st
    else None.

Definition set_loop_mem (m : mem) (st : loop_state) : loop_state :=
  mkLoop (l_cache st) (currentPc st) (prevCurrentPc st) (result st) (link_patch_area st)
         (handle st) (l_backend st) (jitBuffer st) m.

Definition set_loop_cache (o : cache_object) (st : loop_state) : loop_state :=
  mkLoop o (currentPc st) (prevCurrentPc st) (result st) (link_patch_area st)
         (handle st) (l_backend st) (jitBuffer st) (l_mem st).

(** Asking for a cleaning, or cleaning, only marks a cache. *)
Definition only_marked (id : nat) (w w' : caches) : Prop :=
  cache_store w' !! id = cache_store w !! id \/
  cache_store w' !! id = ll_clean_cache <$> cache_store w !! id.

(** The loop among the other threads: a turn, or what others do to the list
    of caches between two turns, which for this cache is to mark it. *)
Inductive loop_step (max_insn : Z) : loop_state -> loop_state -> Prop :=
  | step_turn fuel st st' :
      (isLooping (l_mem st)).1 = true -> loop_body max_insn fuel st = Some st' ->
      loop_step max_insn st st'
  | step_others id w w' st :
      l_cache st = Cache id w -> only_marked id w w' ->
      loop_step max_insn st (set_loop_cache (Cache id w') st).

(** [n] turns of the loop at most; [true] when it ended. *)
Fixpoint loop_turns (max_insn : Z) (fuel n : nat) (st : loop_state) : option (loop_state * bool) :=
  let '(go, m) := isLooping (l_mem st) in
  if go then
    match n with
    | O => Some (st, false)
    | S n => st' ← loop_body max_insn fuel st; loop_turns max_insn fuel n st'
    end
  else Some (set_loop_mem m st, true).

Definition loop_init (o : cache_object) (entry : Z) (j : jitter) (be : inter) (buf : list Z) (m : mem) :
    loop_state :=
  mkLoop o entry (2 ^ 64 - 1) 0 0 j be buf m.

(** [loop_common]: the memory it ends with. *)
Definition loop_common (max_insn : Z) (fuel n : nat) (o : cache_object) (entry : Z) (j : jitter)
    (be : inter) (buf : list Z) (m : mem) : option (loop_state * bool) :=
  loop_turns max_insn fuel n (loop_init o entry j be buf m).

(** ** What the guest program means *)

(** The block at [pc] through the builder, from a jitter as created. *)
Definition guest_block (max_insn : Z) (j0 : jitter) (m : mem) (pc : Z) : option jitter :=
  '(_, j) ← irAlloc_session (disassemble m pc max_insn) (resetJitter j0); Some j.
End loop.

(** One block of the guest program, as the IR says. *)
Definition guest_step `{Target} `{Host}
    (ir_call : option irRegisterType -> Z -> Z -> list (option (irRegisterType * Z)) -> mem -> option (mem * Z))
    (max_insn : Z) (j0 : jitter) (s : Z * mem) : option (Z * mem) :=
  j ← guest_block max_insn j0 s.2 s.1;
  ir_run ir_call target_runtime (insns j) ∅ s.2.
