(* ===== verification/LoopBlocks.v ===== *)
(** * Blocks of the cache and the links between them

    What the loop keeps true of the cache: its blocks are translations of the
    guest blocks, an exit is linked only when it always leaves for the same
    pc, and then to a block of that pc appended later.  Appending and linking
    keep it. *)

From S2P Require Import Prelude Ir Jitter BeX86 BeGen X86Sem X86Exec X86Correct X86Const X86Sim X86Compile CodeCache Loop.

(** ** Writing in a block *)

Section rewrite.
Context (c : internal_cache) (es : list block) (i : nat) (pc : Z) (d d' : list Z).
Hypothesis Hrep : represents c es.
Hypothesis Hi : es !! i = Some (pc, d).
Hypothesis Hlen : length d' = length d.

Lemma tbs_insert a b' : forall es i b, es !! i = Some b -> block_size b' = block_size b ->
  tbs a (<[i := b']> es) = <[i := (a + blocks_size (take i es), b')]> (tbs a es).
Proof.
  clear. intros es. revert a. induction es as [|b0 es IH]; intros a [|i] b Hi Hb; cbn in *; try done.
  - injection Hi as ->. by rewrite Z.add_0_r, Hb.
  - f_equal. rewrite (IH _ _ _ Hi Hb). do 2 f_equal. lia.
Qed.

Lemma tbs_lookup_at a : forall es i b, es !! i = Some b ->
  tbs a es !! i = Some (a + blocks_size (take i es), b).
Proof.
  clear. intros es. revert a. induction es as [|b0 es IH]; intros a [|i] b Hi; cbn in *; try done.
  - injection Hi as ->. by rewrite Z.add_0_r.
  - rewrite (IH _ _ _ Hi). do 2 f_equal. lia.
Qed.

Lemma latest_same h : forall ts ts', Forall2 (fun t t' => t.1 = t'.1 /\ t.2.1 = t'.2.1) ts ts' ->
  latest h ts = latest h ts'.
Proof.
  clear. intros ts ts'. unfold latest. generalize 0. intros z H. revert z.
  induction H as [|t t' ts ts' [H1 H2] _ IH]; intros z; [done|]. cbn. rewrite H1, H2. apply IH.
Qed.

(** Offset of the code of the block in the area. *)
Definition code_offset (es : list block) (i : nat) : Z := blocks_size (take i es) + sizeof_tb.

Lemma put_block_bounds : 0 <= code_offset es i /\
  code_offset es i + Z.of_nat (length d') <= Z.of_nat (length (area_bytes c)) /\
  code_offset es i + Z.of_nat (length d') <= write_pos c.
Proof.
  destruct (tbs_lookup 0 _ _ _ _ (tbs_lookup_at 0 _ _ _ Hi)) as (_ & _ & H).
  pose proof (blocks_size_nonneg (take i es)). pose proof (rp_len _ _ Hrep).
  destruct (rp_pos _ _ Hrep) as [-> ?]. unfold code_offset, block_size, sizeof_tb in *. cbn [snd] in H. lia.
Qed.

Let ts := tbs (area c) es.
Let ts' := tbs (area c) (<[i := (pc, d')]> es).

Lemma rewrite_tbs : ts' = <[i := (area c + blocks_size (take i es), (pc, d'))]> ts.
Proof. apply (tbs_insert _ _ _ _ _ Hi). unfold block_size. cbn [snd]. lia. Qed.

Lemma rewrite_latest h n : latest h (take n ts') = latest h (take n ts).
Proof.
  apply latest_same. rewrite rewrite_tbs. apply Forall2_take. apply Forall2_same_length_lookup_2.
  { by rewrite length_insert. }
  intros k t t' Hk Hk'. destruct (decide (k = i)) as [->|Hne].
  - rewrite list_lookup_insert_eq in Hk by (eapply lookup_lt_Some; exact Hk'). injection Hk as <-.
    unfold ts in Hk'. rewrite (tbs_lookup_at _ _ _ _ Hi) in Hk'. by injection Hk' as <-.
  - rewrite list_lookup_insert_ne in Hk by done. rewrite Hk in Hk'. by injection Hk' as <-.
Qed.

Lemma blocks_size_take_lt : forall (es : list block) k n b, es !! k = Some b -> (k < n)%nat ->
  blocks_size (take k es) + block_size b <= blocks_size (take n es).
Proof.
  clear. intros es k n b Hk Hn.
  assert (Hs : blocks_size (take k es) + block_size b = blocks_size (take (S k) es)).
  { rewrite (take_S_r _ _ _ Hk), blocks_size_app. cbn. lia. }
  rewrite Hs. replace (take (S k) es) with (take (S k) (take n es)) by (rewrite take_take; f_equal; lia).
  rewrite <- (take_drop (S k) (take n es)) at 2. rewrite blocks_size_app.
  pose proof (blocks_size_nonneg (drop (S k) (take n es))). lia.
Qed.

Lemma represents_rewrite bs :
  put_bytes (area_bytes c) (code_offset es i) d' = Some bs ->
  represents (set_area bs c) (<[i := (pc, d')]> es).
Proof.
  intros Hput. destruct (put_bytes_Some _ _ _ _ Hput) as (Hoff & _ & Hl & _).
  assert (Hsize : forall n, blocks_size (take n (<[i := (pc, d')]> es)) = blocks_size (take n es)).
  { clear - Hi Hlen. revert i Hi. induction es as [|b0 l IH]; intros [|i] Hi [|n]; cbn in *; try done.
    - injection Hi as ->. unfold block_size. cbn [snd]. lia.
    - rewrite (IH _ Hi). done. }
  assert (Hall : blocks_size (<[i := (pc, d')]> es) = blocks_size es).
  { rewrite <- (take_ge (<[i := (pc, d')]> es) (length es)) by (rewrite length_insert; lia).
    by rewrite Hsize, take_ge by lia. }
  constructor; cbn [set_area area jitter_area_size area_bytes area_end write_pos hlist cached].
  - apply (rp_area _ _ Hrep).
  - rewrite Hl. apply (rp_len _ _ Hrep).
  - apply (rp_end _ _ Hrep).
  - rewrite Hall. apply (rp_pos _ _ Hrep).
  - intros k a pck dk Hk. fold ts' in Hk |- *. rewrite rewrite_latest.
    assert (Hts : exists dk0, ts !! k = Some (a, (pck, dk0)) /\ length dk0 = length dk /\
                  (k = i -> dk = d') /\ (k <> i -> dk = dk0)).
    { rewrite rewrite_tbs in Hk. destruct (decide (k = i)) as [->|Hne].
      - rewrite list_lookup_insert_eq in Hk.
        + injection Hk as <- <- <-. exists d. split; [by apply tbs_lookup_at|]. by split_and!.
        + unfold ts. rewrite length_tbs. by eapply lookup_lt_Some.
      - rewrite list_lookup_insert_ne in Hk by done. exists dk. by split_and!. }
    destruct Hts as (dk0 & Ht & Hdl & Heq & Hneq).
    destruct (rp_tb _ _ Hrep _ _ _ _ Ht) as (H1 & H2 & H3 & H4 & H5 & H6).
    destruct (tbs_lookup _ _ _ _ _ Ht) as (Hek & Ha & _).
    unfold tb_size, tb_guest_pc, tb_next, rd_le in *. cbn [set_area area_bytes area].
    rewrite <- Hdl. unfold code_offset in *.
    assert (Ho : a - area c = blocks_size (take k es)) by lia.
    pose proof (blocks_size_nonneg (take k es)) as Hk0.
    assert (Hhd : forall o n, 0 <= o -> o + Z.of_nat n <= 18 ->
              slice bs (a - area c + o) n = slice (area_bytes c) (a - area c + o) n).
    { intros o n Ho1 Ho2. apply (slice_put_other _ _ _ _ _ _ Hput); [lia|].
      destruct (decide (k < i)%nat) as [Hki|Hki].
      - pose proof (blocks_size_take_lt es _ _ _ Hek Hki) as Hb. unfold block_size, sizeof_tb in *. lia.
      - destruct (decide (k = i)) as [->|Hne]; [unfold sizeof_tb; lia|].
        pose proof (blocks_size_take_lt es _ k _ Hi ltac:(lia)) as Hb.
        unfold block_size, sizeof_tb in *. cbn [snd] in Hb. lia. }
    pose proof (Hhd 0 2%nat ltac:(lia) ltac:(lia)) as E1. rewrite Z.add_0_r in E1.
    pose proof (Hhd 2 8%nat ltac:(lia) ltac:(lia)) as E2.
    pose proof (Hhd 10 8%nat ltac:(lia) ltac:(lia)) as E3. unfold slice in E1, E2, E3.
    rewrite E1, E2, E3. split; [done|]. split; [done|]. split; [done|]. split; [done|]. split; [done|].
    destruct (decide (k = i)) as [->|Hne].
    + rewrite (Heq eq_refl), Hdl, (Heq eq_refl), Ho. exact (slice_put_same _ _ _ _ Hput).
    + rewrite (Hneq Hne). transitivity (slice (area_bytes c) (a - area c + sizeof_tb) (length dk0)); [|exact H6].
      apply (slice_put_other _ _ _ _ _ _ Hput).
      * unfold sizeof_tb. lia.
      * destruct (decide (k < i)%nat) as [Hki|Hki].
        -- pose proof (blocks_size_take_lt es _ _ _ Hek Hki) as Hb. unfold block_size, sizeof_tb in *.
           cbn [snd] in Hb. lia.
        -- pose proof (blocks_size_take_lt es _ k _ Hi ltac:(lia)) as Hb.
           unfold block_size, sizeof_tb in *. cbn [snd] in Hb. lia.
  - intros h. rewrite (rp_list _ _ Hrep). symmetry. fold ts ts'.
    pose proof (rewrite_latest h (length es)) as H.
    rewrite !take_ge in H; [done| |]; unfold ts, ts'; rewrite length_tbs, ?length_insert; lia.
  - intros h Hh. destruct (rp_cached _ _ Hrep h Hh) as (k & pck & dk & Hk).
    fold ts ts' in Hk |- *. rewrite rewrite_tbs. destruct (decide (k = i)) as [->|Hne].
    + unfold ts in Hk. rewrite (tbs_lookup_at _ _ _ _ Hi) in Hk. injection Hk as Hk1 Hk2 Hk3.
      exists i, pc, d'. rewrite list_lookup_insert_eq; [by rewrite Hk1|].
      unfold ts. rewrite length_tbs. by eapply lookup_lt_Some.
    + exists k, pck, dk. by rewrite list_lookup_insert_ne.
Qed.
End rewrite.

(** ** Linking an exit of a block of the area *)

Section patching.
Lemma slice_at l off n d i :
  slice l off n = d -> (i < n)%nat -> l !! (Z.to_nat off + i)%nat = d !! i.
Proof. intros <- Hi. rewrite slice_lookup. by rewrite decide_True. Qed.

Lemma imm64_lookup t i : (i < 8)%nat -> is_Some (imm64 t !! i).
Proof. intros. apply lookup_lt_is_Some_2. cbn. lia. Qed.

(** Patching the area is patching the block in its place. *)
Lemma patch_put l off d q t d' :
  0 <= off -> slice l off (length d) = d -> off + Z.of_nat (length d) <= Z.of_nat (length l) ->
  patch d q t = Some d' -> (q + 11 <= length d)%nat ->
  exists l', patch l (Z.to_nat off + q) t = Some l' /\ put_bytes l off d' = Some l'.
Proof.
  intros Ho Hs Hlen Hp Hq. destruct (patch_lookup _ _ _ _ Hp Hq) as (H0 & H1 & H2 & H3).
  assert (Hld : length d' = length d) by (by eapply patch_length).
  assert (Hat : forall i, (i < length d)%nat -> l !! (Z.to_nat off + i)%nat = d !! i)
    by (intros i Hi; by apply (slice_at _ _ _ _ _ Hs)).
  destruct (patch l (Z.to_nat off + q) t) as [l'|] eqn:Ep.
  2:{ unfold patch in Ep. rewrite Hat, H0 in Ep by lia. done. }
  exists l'. split; [done|].
  assert (Hql : (Z.to_nat off + q + 11 <= length l)%nat) by lia.
  destruct (patch_lookup _ _ _ _ Ep Hql) as (_ & G1 & G2 & G3).
  destruct (put_bytes_ok l off d' Ho ltac:(lia)) as [l2 Hl2]. rewrite Hl2. f_equal.
  destruct (put_bytes_Some _ _ _ _ Hl2) as (_ & _ & _ & Hb).
  apply list_eq. intros i. rewrite Hb. case_decide as Hi.
  - set (k := (i - Z.to_nat off)%nat). assert (Ek : i = (Z.to_nat off + k)%nat) by lia.
    assert (Hk : (k < length d)%nat) by lia. rewrite Ek.
    destruct (decide (k = q)) as [->|Hkq]; [by rewrite H1, G1|].
    destruct (decide (q + 3 <= k < q + 11)%nat) as [Hm|Hm].
    + pose proof (H3 (k - q - 3)%nat ltac:(lia)) as E1. pose proof (G3 (k - q - 3)%nat ltac:(lia)) as E2.
      replace (q + 3 + (k - q - 3))%nat with k in E1 by lia.
      replace (Z.to_nat off + q + 3 + (k - q - 3))%nat with (Z.to_nat off + k)%nat in E2 by lia.
      by rewrite E1, E2.
    + rewrite H2 by lia. rewrite G2 by lia. symmetry. by apply Hat.
  - rewrite G2; [done|]. lia.
Qed.
End patching.

(** ** What the blocks are *)

(** A block of the cache: guest pc, the builder that described it, its
    instructions, which of them are linked and where to, its code. *)
Record lblock := mkLblock {
  lb_pc : Z;
  lb_jitter : jitter;
  lb_insns : list insnZ;
  lb_links : list (option Z);
  lb_code : list Z
}.

Definition lb_block (b : lblock) : block := (lb_pc b, lb_code b).

(** Address of the code of the [i]th block. *)
Definition block_addr (base : Z) (bs : list lblock) (i : nat) : Z :=
  base + code_offset (lb_block <$> bs) i.

Definition relink (n : nat) (t : Z) (code : list Z) (b : lblock) : lblock :=
  mkLblock (lb_pc b) (lb_jitter b) (lb_insns b) (<[n := Some t]> (lb_links b)) code.

Section blocks.
Context `{Hcr : CallResults}.
(** The guest code, the same all along, and the back end and the builder as
    created. *)
Context (session : Z -> list irCall) (j0 : jitter) (be0 : inter).

(** What exit [n] of a block returns when it is patchable. *)
Definition lb_value (b : lblock) (n : nat) : Z :=
  exit_value (insns (lb_jitter b)) (with_ir (fun _ => regs (lb_jitter b)) (reset be0)) n.

Record translated (b : lblock) : Prop := mkTranslated {
  tr_session : irAlloc_session (session (lb_pc b)) (resetJitter j0) = Some (tt, lb_jitter b);
  tr_wf : builder_wf (lb_jitter b);
  tr_clean : clean_ok [] (insns (lb_jitter b)) = true;
  tr_insns : block_insns (lb_jitter b) be0 = Some (lb_insns b);
  tr_links : length (lb_links b) = length (lb_insns b);
  tr_code : block_code (zip (lb_insns b) (lb_links b)) (lb_code b) 0
}.

(** A linked exit goes to a later block, of the pc it leaves for. *)
Definition links_forward (base : Z) (bs : list lblock) : Prop :=
  forall i b n t, bs !! i = Some b -> lb_links b !! n = Some (Some t) ->
  exists i' b', (i < i')%nat /\ bs !! i' = Some b' /\ t = block_addr base bs i' /\
                lb_value b n = lb_pc b'.

(** [lk] is NULL or the link area of a patchable exit, not linked yet, that
    always leaves for [pc]. *)
Definition link_target (base : Z) (bs : list lblock) (lk pc : Z) : Prop :=
  lk = 0 \/
  exists i b n q x p, bs !! i = Some b /\ lb_insns b !! n = Some (X86_EXIT x p true) /\
    lb_links b !! n = Some None /\ exit_pos (lb_insns b) n = Some q /\
    lk = block_addr base bs i + q /\ lb_value b n = pc.

Record blocks_ok (c : internal_cache) (bs : list lblock) : Prop := mkBlocksOk {
  bk_rep : represents c (lb_block <$> bs);
  bk_trans : forall i b, bs !! i = Some b -> translated b;
  bk_links : links_forward (area c) bs;
  bk_size : 2 ^ 16 <= jitter_area_size c
}.

Lemma blocks_ok_reset c bs : blocks_ok c bs -> blocks_ok (cache_reset c) [].
Proof.
  intros [Hr _ _ Hs]. constructor; [by eapply cache_reset_represents|done|done|done].
Qed.

Lemma blocks_ok_clean c bs : blocks_ok c bs -> blocks_ok (ll_clean_cache c) bs.
Proof.
  intros [Hr Ht Hl Hs]. constructor; [|done|done|done].
  destruct Hr as [? ? ? ? Htb ? ?]. by constructor.
Qed.

Lemma block_addr_app base bs bs' i : (i <= length bs)%nat ->
  block_addr base (bs ++ bs') i = block_addr base bs i.
Proof.
  intros Hi. unfold block_addr, code_offset. rewrite fmap_app.
  by rewrite take_app_le by (rewrite length_fmap; lia).
Qed.

Lemma tbs_block_addr a bs i p b :
  tbs a (lb_block <$> bs) !! i = Some (p, b) -> tb_to_jit_area p = block_addr a bs i.
Proof.
  intros (_ & -> & _)%tbs_lookup. unfold tb_to_jit_area, block_addr, code_offset. lia.
Qed.

(** [lookup] of a cache with no cleaning to do. *)
Lemma blocks_lookup c bs pc : blocks_ok c bs -> clean c = 0 ->
  exists c' p, cache_lookup c pc = Some (c', p, None) /\ blocks_ok c' bs /\ area c' = area c /\
    (p = 0 \/ exists i b, bs !! i = Some b /\ lb_pc b = pc /\ p = block_addr (area c) bs i).
Proof.
  intros [Hr Ht Hl Hs] Hc. unfold cache_lookup in *.
  destruct (cache_lookup_spec c _ Hr pc Hc) as (c' & p & E & Hr' & _ & Ha & Hb & Hp).
  pose proof (rp_len _ _ Hr). pose proof (rp_len _ _ Hr').
  exists c', p. split; [exact E|]. split; [|split; [done|]].
  - constructor; [done|done|by rewrite Ha|]. rewrite Hb in *. lia.
  - destruct Hp as [[-> _]|(i & a & d & Hi & ->)]; [by left|right].
    destruct (tbs_lookup _ _ _ _ _ Hi) as (He & _). rewrite list_lookup_fmap in He.
    destruct (bs !! i) as [b|] eqn:Eb; [|done]. injection He as He _.
    exists i, b. split; [done|]. split; [done|]. by eapply tbs_block_addr.
Qed.

(** What a block that is not linked adds. *)
Lemma blocks_ok_snoc c c' bs b :
  blocks_ok c bs -> represents c' (lb_block <$> (bs ++ [b])) -> area c' = area c ->
  jitter_area_size c' = jitter_area_size c ->
  translated b -> Forall (eq None) (lb_links b) -> blocks_ok c' (bs ++ [b]).
Proof.
  intros [Hr Ht Hl Hs] Hr' Ha Hj Hb Hnone. constructor; [done| |rewrite Ha|by rewrite Hj].
  - intros i b' [Hi|[_ Hi]]%lookup_app_Some; [by eapply Ht|].
    by apply list_lookup_singleton_Some in Hi as [_ <-].
  - intros i b1 n t Hi Hn. apply lookup_app_Some in Hi as [Hi|[_ Hi]].
    + destruct (Hl _ _ _ _ Hi Hn) as (i' & b' & Hlt & Hi' & -> & Hv).
      exists i', b'. split; [done|]. split; [by apply lookup_app_l_Some|]. split; [|done].
      rewrite block_addr_app; [done|]. apply lookup_lt_Some in Hi'. lia.
    + apply list_lookup_singleton_Some in Hi as [_ <-]. rewrite Forall_lookup in Hnone.
      by specialize (Hnone _ _ Hn).
Qed.

(** [append]: the block is the last one; an event when the others were
    dropped. *)
Lemma blocks_append c bs b :
  blocks_ok c bs -> 0 <= lb_pc b < 2 ^ 64 -> sizeof_tb + Z.of_nat (length (lb_code b)) < 2 ^ 16 ->
  translated b -> Forall (eq None) (lb_links b) ->
  exists c' ev bs', cache_append c (lb_pc b) (lb_code b) =
      Some (c', block_addr (area c') (bs' ++ [b]) (length bs'), ev) /\
    blocks_ok c' (bs' ++ [b]) /\ area c' = area c /\
    (bs' = bs /\ ev = None \/ bs' = [] /\ ev = Some 1).
Proof.
  intros Hok Hpc Hd Hb Hnone. pose proof (bk_rep _ _ Hok) as Hr.
  destruct (cache_append_spec c _ (lb_pc b) (lb_code b) Hpc Hd Hr (bk_size _ _ Hok))
    as (c' & E & Hr' & Ha & _ & Hj).
  exists c', (if append_full c (lb_code b) then Some 1 else None),
    (if append_full c (lb_code b) then [] else bs).
  assert (Hes : (if append_full c (lb_code b) then [] else lb_block <$> bs) =
                lb_block <$> (if append_full c (lb_code b) then [] else bs))
    by (by destruct (append_full c (lb_code b))).
  rewrite Hes in E, Hr'. change [(lb_pc b, lb_code b)] with (lb_block <$> [b]) in Hr'.
  rewrite <- fmap_app in Hr'. split.
  { rewrite E. do 3 f_equal. rewrite block_addr_app by done. unfold block_addr, code_offset.
    rewrite take_ge by (rewrite length_fmap; lia). lia. }
  split; [|split; [done|by destruct (append_full c (lb_code b)); [right|left]]].
  destruct (append_full c (lb_code b)).
  - apply (blocks_ok_snoc (cache_reset c)); try done. by eapply blocks_ok_reset.
  - by apply (blocks_ok_snoc c).
Qed.

Lemma link_target_app base bs bs' lk pc :
  link_target base bs lk pc -> link_target base (bs ++ bs') lk pc.
Proof.
  intros [->|(i & b & n & q & x & p & Hi & Hn & Hl & Hq & -> & Hv)]; [by left|right].
  exists i, b, n, q, x, p. split_and!; try done; [by apply lookup_app_l_Some|].
  rewrite block_addr_app; [done|]. apply lookup_lt_Some in Hi. lia.
Qed.

Lemma relink_addr base bs i b n t d k :
  bs !! i = Some b -> length d = length (lb_code b) ->
  block_addr base (<[i := relink n t d b]> bs) k = block_addr base bs k.
Proof.
  intros Hi Hd. unfold block_addr, code_offset. do 2 f_equal.
  revert i k Hi. induction bs as [|b0 bs IH]; intros [|i] [|k] Hi; cbn in *; try done.
  - injection Hi as ->. unfold block_size. cbn. lia.
  - rewrite (IH _ _ Hi). done.
Qed.

(** The block of an exit that gets linked. *)
Lemma translated_relink b n x p q t :
  translated b -> lb_insns b !! n = Some (X86_EXIT x p true) -> lb_links b !! n = Some None ->
  exit_pos (lb_insns b) n = Some q ->
  exists d, patch (lb_code b) (Z.to_nat q) t = Some d /\ length d = length (lb_code b) /\
    (Z.to_nat q + 11 <= length (lb_code b))%nat /\ 0 <= q /\ translated (relink n t d b).
Proof.
  intros [Hs Hw Hc Hi Hl Hcode] Hn Hln Hq.
  assert (Hz : zip (lb_insns b) (lb_links b) !! n = Some (X86_EXIT x p true, None)).
  { apply lookup_zip_with_Some. by eexists _, _. }
  assert (Hfst : fst <$> zip (lb_insns b) (lb_links b) = lb_insns b) by (apply fst_zip; lia).
  destruct (block_split _ _ 0 n x p None q Hcode Hz ltac:(by rewrite Hfst)) as (_ & _ & Hq0 & _).
  destruct (patch_links _ _ 0 n x p q t Hcode Hz) as (Hlen & d & Hp & Hd & Hb); [by rewrite Hfst|].
  rewrite Z.add_0_l in *. exists d. split_and!; try done.
  constructor; try done; cbn [relink lb_links lb_insns lb_code].
  - by rewrite length_insert.
  - rewrite <- (list_insert_id (lb_insns b) n (X86_EXIT x p true)) by done.
    by rewrite <- insert_zip_with.
Qed.

(** Linking to the last block. *)
Lemma blocks_patch c bs b' lk :
  blocks_ok c (bs ++ [b']) -> link_target (area c) bs lk (lb_pc b') -> lk <> 0 ->
  exists bytes bs', area c <= lk /\
    patch (area_bytes c) (Z.to_nat (lk - area c)) (block_addr (area c) (bs ++ [b']) (length bs)) =
      Some bytes /\
    blocks_ok (set_area bytes c) bs' /\ bs' !! length bs = Some b' /\
    block_addr (area c) bs' (length bs) = block_addr (area c) (bs ++ [b']) (length bs).
Proof.
  intros Hok [->|(i & b & n & q & x & p & Hi & Hn & Hl & Hq & -> & Hv)] Hlk; [done|].
  pose proof (bk_rep _ _ Hok) as Hr. pose proof (lookup_lt_Some _ _ _ Hi) as Hilt.
  set (all := bs ++ [b']) in *. set (t := block_addr (area c) all (length bs)).
  assert (Hai : all !! i = Some b) by (by apply lookup_app_l_Some).
  destruct (translated_relink b n x p q t (bk_trans _ _ Hok _ _ Hai) Hn Hl Hq)
    as (d & Hp & Hd & Hq11 & Hq0 & Ht).
  assert (Hei : (lb_block <$> all) !! i = Some (lb_pc b, lb_code b)) by (by rewrite list_lookup_fmap, Hai).
  destruct (put_block_bounds c _ i _ _ d Hr Hei Hd) as (Ho1 & Ho2 & _).
  destruct (rp_tb _ _ Hr _ _ _ _ (tbs_lookup_at _ _ _ _ Hei)) as (_ & _ & _ & _ & _ & Hs).
  replace (area c + blocks_size (take i (lb_block <$> all)) - area c + sizeof_tb)
    with (code_offset (lb_block <$> all) i) in Hs by (unfold code_offset; lia).
  destruct (patch_put (area_bytes c) _ _ _ _ _ Ho1 Hs ltac:(lia) Hp Hq11) as (bytes & Hpb & Hput).
  exists bytes, (<[i := relink n t d b]> all).
  assert (Hab : block_addr (area c) bs i = area c + code_offset (lb_block <$> all) i).
  { unfold all. rewrite <- (block_addr_app _ bs [b']) by lia. done. }
  split; [rewrite Hab; lia|]. split.
  { rewrite <- Hpb. f_equal. rewrite Hab. lia. }
  assert (Hlast : all !! length bs = Some b') by (unfold all; by apply list_lookup_middle).
  split; [|split].
  - constructor.
    + rewrite list_fmap_insert. by apply (represents_rewrite c _ i _ _ d Hr Hei Hd).
    + intros k bk Hk. destruct (decide (k = i)) as [->|Hne].
      * rewrite list_lookup_insert_eq in Hk by (by eapply lookup_lt_Some). by injection Hk as <-.
      * rewrite list_lookup_insert_ne in Hk by done. by eapply (bk_trans _ _ Hok).
    + intros k bk n' t' Hk Hn'. cbn [set_area area].
      assert (Hcase : (k = i /\ n' = n /\ bk = relink n t d b /\ t' = t) \/
                      exists b0, all !! k = Some b0 /\ lb_links b0 !! n' = Some (Some t') /\
                                 lb_value bk n' = lb_value b0 n').
      { destruct (decide (k = i)) as [->|Hne].
        - rewrite list_lookup_insert_eq in Hk by (by eapply lookup_lt_Some). injection Hk as <-.
          cbn [relink lb_links] in Hn'. destruct (decide (n' = n)) as [->|Hnn].
          + left. rewrite list_lookup_insert_eq in Hn' by (by eapply lookup_lt_Some).
            by injection Hn' as <-.
          + right. rewrite list_lookup_insert_ne in Hn' by done. by exists b.
        - right. rewrite list_lookup_insert_ne in Hk by done. by exists bk. }
      destruct Hcase as [(-> & -> & -> & ->)|(b0 & Hb0 & Hl0 & Hv0)].
      * exists (length bs), b'. split; [done|]. split; [by rewrite list_lookup_insert_ne by lia|].
        split; [by rewrite (relink_addr _ _ _ _ _ _ _ _ Hai Hd)|done].
      * destruct (bk_links _ _ Hok _ _ _ _ Hb0 Hl0) as (i' & b1 & Hlt & Hi' & -> & Hv1).
        destruct (decide (i' = i)) as [->|Hne].
        -- exists i, (relink n t d b). split; [done|]. rewrite Hai in Hi'. injection Hi' as <-.
           split; [by apply list_lookup_insert_eq; eapply lookup_lt_Some|].
           split; [by rewrite (relink_addr _ _ _ _ _ _ _ _ Hai Hd)|]. by rewrite Hv0.
        -- exists i', b1. split; [done|]. split; [by rewrite list_lookup_insert_ne|].
           split; [by rewrite (relink_addr _ _ _ _ _ _ _ _ Hai Hd)|]. by rewrite Hv0.
    + apply (bk_size _ _ Hok).
  - by rewrite list_lookup_insert_ne by lia.
  - by rewrite (relink_addr _ _ _ _ _ _ _ _ Hai Hd).
Qed.
End blocks.
