(* ===== verification/LoopExec.v ===== *)
(** * Executing blocks, and the loop as a whole

    Running the code of a block of the cache runs one or more blocks of the
    guest program, following the links, and comes back with the next pc; so
    does one turn of the loop. *)

From S2P Require Import Prelude Ir Jitter BeX86 BeGen X86Sem X86Exec X86Correct X86Const X86Sim X86Compile CodeCache Loop LoopBlocks.

(** ** Running code *)

Section running.
Context `{Host}.

Lemma run_area_mono f f' c base p k k' :
  run_area f c base p k = Some k' -> (f <= f')%nat -> run_area f' c base p k = Some k'.
Proof.
  revert f' p k. induction f as [|f IH]; intros [|f'] p k Hr Hf; try done; try lia.
  cbn [run_area] in *. destruct (mstep callee c base p k); try done; apply IH; (done || lia).
Qed.

Definition runs (c : list Z) (base p : Z) (k k' : cpu) : Prop :=
  exists f, run_area f c base p k = Some k'.

Lemma runs_steps c base p k p' k1 k' :
  msteps callee c base (p, k) (p', k1) -> runs c base p' k1 k' -> runs c base p k k'.
Proof.
  intros Hs. remember (p, k) as s1 eqn:E1. remember (p', k1) as s2 eqn:E2.
  revert p k E1. induction Hs as [s|s s3 s4 Hst Hs IH]; intros p k -> Hr.
  - by injection E2 as -> ->.
  - destruct s3 as [p3 k3]. destruct (IH E2 p3 k3 eq_refl Hr) as [f Hf].
    exists (S f). cbn [run_area]. unfold mnext in Hst. cbn [fst snd] in Hst. by rewrite Hst.
Qed.

Lemma runs_ret c base p k : mstep callee c base p k = MRet k -> runs c base p k k.
Proof. intros Hm. exists 1%nat. cbn [run_area]. by rewrite Hm. Qed.

Lemma runs_jump c base p k t k1 k' :
  mstep callee c base p k = MJump t k1 -> runs c base (t - base) k1 k' -> runs c base p k k'.
Proof. intros Hm [f Hf]. exists (S f). cbn [run_area]. by rewrite Hm. Qed.
End running.

(** The state in which [execute] enters the code at [buffer]. *)
Definition entry_cpu `{Host} (buffer context : Z) (m : mem) : cpu :=
  let f := upd (upd (upd (host_regs m buffer) RDI backend_address) RSI buffer) RDX context in
  let k := mkCpu f false m [] in
  set_reg RDI context (set_reg RAX buffer (set_stk [f 15; f 14; f 13; f 12; f RBX; f RBP] k)).

Section executing.
Context `{Host}.

Lemma entry_cpu_ok buffer context m :
  regs_ok (entry_cpu buffer context m) /\ rf (entry_cpu buffer context m) RDI = context /\
  mm (entry_cpu buffer context m) = m.
Proof.
  split; [|done]. intros d Hd. unfold entry_cpu. cbn [set_reg set_stk rf].
  unfold upd, HW, RAX, RDI, RSI, RDX, hwreg in *. rewrite !decide_False by lia. apply host_regs_ok.
Qed.

(** What [execute] returns, when the code gives back its stack. *)
Lemma execute_returns c base buffer context m k' :
  runs c base (buffer - base) (entry_cpu buffer context m) k' ->
  stk k' = stk (entry_cpu buffer context m) ->
  exists f, forall f', (f <= f')%nat ->
    execute f' c base buffer context m = Some (rf k' RAX, rf k' RDX, mm k').
Proof.
  intros [f Hf] Hst. exists f. intros f' Hle. apply (run_area_mono _ f') in Hf; [|done].
  unfold execute, execute_be_x86_64. cbv zeta.
  replace (exec_seq callee execute_prologue _) with (Some (entry_cpu buffer context m)) by reflexivity.
  cbn [mbind option_bind]. change (rf (entry_cpu buffer context m) RAX) with buffer. rewrite Hf.
  cbn [mbind option_bind]. unfold execute_epilogue. cbn [exec_seq exec_data mbind option_bind].
  rewrite Hst. reflexivity.
Qed.
End executing.

(** Code found again where the block is copied. *)
Lemma code_at_slice l off d kc :
  0 <= off -> slice l off (length d) = d -> code_at d 0 kc -> code_at l off kc.
Proof.
  intros Ho Hs [_ Hc]. split; [done|]. intros i b Hi. specialize (Hc i b Hi). cbn in Hc.
  rewrite (slice_at _ _ _ _ _ Hs); [done|]. by eapply lookup_lt_Some.
Qed.

(** ** The guest program *)

Section program.
Context `{Target} `{Host}.
Context `{Hcr : CallResults} {ir_call} `{!HelperAbi ir_call callee}.
Context (max_insn : Z) (j0 : jitter) (be0 : inter).

Definition guest_next (s s' : Z * mem) : Prop := guest_step ir_call max_insn j0 s = Some s'.

(** The front end's part of the contract, for the block at [pc]: requests the
    builder accepts, a block without stale operands, that fits in the
    buffers. *)
Definition block_ready (s : Z * mem) : bool :=
  let cs := disassemble s.2 s.1 max_insn in
  session_valid cs (resetJitter j0) &&
  match irAlloc_session cs (resetJitter j0) with
  | Some (_, j) =>
      clean_ok [] (insns j) &&
      match jitCode j (reset be0) (replicate (Z.to_nat jitBuffer_size) 0) jitBuffer_size with
      | Some (n, _, _) => 0 <? n
      | None => false
      end
  | None => false
  end.

(** A program the loop runs: at whatever pc it reaches, its code is [code]
    every time, is accepted, and means something. *)
Record runnable (code : Z -> list irCall) (s0 : Z * mem) : Prop := mkRunnable {
  rn_pc : 0 <= s0.1 < 2 ^ 64;
  rn_code : forall s, rtc guest_next s0 s -> disassemble s.2 s.1 max_insn = code s.1;
  rn_ready : forall s, rtc guest_next s0 s -> block_ready s = true;
  rn_step : forall s, rtc guest_next s0 s -> exists s', guest_next s s'
}.

(** ** Translating a block *)

Lemma resetJitter_sizes j j' :
  pool_size (registerPoolAllocator j') = pool_size (registerPoolAllocator j) ->
  pool_size (instructionPoolAllocator j') = pool_size (instructionPoolAllocator j) ->
  resetJitter j' = resetJitter j.
Proof. intros H1 H2. unfold resetJitter, memoryPoolReset. by rewrite H1, H2. Qed.

Lemma reset_back_end g be be' :
  same_pools be be' -> with_ir (fun _ => g) (reset be') = with_ir (fun _ => g) (reset be).
Proof. intros [H1 H2]. unfold with_ir, reset, memoryPoolReset. cbn. by rewrite H1, H2. Qed.

Lemma allocate_pools l s hw s' : allocate l s = Some (hw, s') -> same_pools s s'.
Proof.
  unfold allocate. intros E. destruct (allocateInstructions l s) as [[[] s1]|] eqn:E1; [|done].
  cbn [mbind option_bind] in E. destruct (allocateRegisters _ _); [|done]. injection E as _ <-.
  apply (allocateInstructions_pools _ _ _ _ E1).
Qed.

(** A block that is ready is translated, whatever was translated before. *)
Lemma ready_translated j be buf m pc :
  block_ready (pc, m) = true -> resetJitter j = resetJitter j0 -> same_pools be0 be ->
  Z.of_nat (length buf) = jitBuffer_size ->
  exists j1 hw n buf' be1,
    irAlloc_session (disassemble m pc max_insn) (resetJitter j) = Some (tt, j1) /\
    jitCode j1 (reset be) buf jitBuffer_size = Some (n, buf', be1) /\
    0 < n <= jitBuffer_size /\ Z.of_nat (length buf') = jitBuffer_size /\
    resetJitter j1 = resetJitter j0 /\ same_pools be0 be1 /\
    builder_wf j1 /\ clean_ok [] (insns j1) = true /\ block_insns j1 be0 = Some hw /\
    block_code (zip hw (replicate (length hw) None)) (take (Z.to_nat n) buf') 0 /\
    block_code (zip hw (replicate (length hw) None)) buf' 0.
Proof.
  intros Hr -> Hbe Hbuf. unfold block_ready in Hr. cbn [fst snd] in Hr.
  generalize dependent (replicate (Z.to_nat jitBuffer_size) 0). intros zeros Hr.
  apply andb_true_iff in Hr as [Hv Hr].
  destruct (irAlloc_session _ _) as [[[] j1]|] eqn:Es; [|done].
  apply andb_true_iff in Hr as [Hc Hr].
  assert (Hwf : builder_wf j1) by (by eapply irAlloc_session_keeps_wf; [apply resetJitter_wf| |]).
  destruct (irAlloc_session_pool_sizes _ _ _ Hv Es) as [P1 P2].
  destruct (jitCode j1 (reset be0) _ _) as [[[n0 c0] b0]|] eqn:Ej; [|done].
  unfold jitCode in Ej. rewrite <- (reset_back_end (regs j1) _ _ Hbe) in Ej.
  apply jit_inv in Ej as (hw & kc & Ea & Eg & -> & Hle & _ & _). apply Z.ltb_lt in Hr.
  assert (Ej' : jitCode j1 (reset be) buf jitBuffer_size = Some (Z.of_nat (length kc), flush buf kc, b0)).
  { unfold jitCode. apply (jit_intro _ _ _ _ hw); done || lia. }
  rename b0 into be1.
  destruct (jitCode_block j1 be Hwf _ _ _ _ _ Ej' ltac:(lia)) as (hw' & Hhw & Hb & Hl).
  assert (Hz : forall l : list insnZ, (fun i => (i, None : option Z)) <$> l = zip l (replicate (length l) None)).
  { intros l. induction l as [|x l IH]; [done|]. cbn. by rewrite <- IH. }
  rewrite Hz in Hb.
  exists j1, hw', (Z.of_nat (length kc)), (flush buf kc), be1.
  assert (Hbe1 : same_pools be0 be1).
  { apply allocate_pools in Ea. destruct Ea, Hbe. split; cbn in *; congruence. }
  split; [done|]. split; [exact Ej'|]. split; [done|]. split; [by rewrite Hl|].
  split; [by apply resetJitter_sizes|]. split; [done|]. split; [done|]. split; [done|].
  split. { unfold block_insns in *. by rewrite <- (reset_back_end _ _ _ Hbe). }
  split; [|done]. destruct Hb as [(kc' & Hg' & Hcode) Hlk]. constructor; [|done].
  exists kc'. split; [done|].
  assert (Hkl : length kc' = length kc).
  { apply generateCode_as_length in Hg' as (kc2 & Hg2 & <-). rewrite fst_zip in Hg2 by (rewrite length_replicate; lia).
    unfold block_insns in Hhw. rewrite (jitCode_irArray_eq j1 Hwf) in Ea. rewrite Ea in Hhw.
    injection Hhw as ->. rewrite Eg in Hg2. by injection Hg2 as ->. }
  eapply code_at_agree; [|exact Hcode]. intros i Hi. apply lookup_take_lt. lia.
Qed.

(** ** Executing a block *)

Section chain.
Context (session : Z -> list irCall) (s0 : Z * mem).
Hypothesis Hrun : runnable session s0.

Lemma guest_next_block b m s' :
  translated session j0 be0 b -> rtc guest_next s0 (lb_pc b, m) -> guest_next (lb_pc b, m) s' ->
  ir_run ir_call target_runtime (insns (lb_jitter b)) ∅ m = Some s'.
Proof.
  intros Ht Hr Hs. unfold guest_next, guest_step, guest_block in Hs. cbn [fst snd] in Hs.
  pose proof (rn_code _ _ Hrun _ Hr) as Hcode. cbn [fst snd] in Hcode. rewrite Hcode in Hs.
  by rewrite (tr_session _ _ _ _ Ht) in Hs.
Qed.

(** The code of a block, at its place in the area. *)
Lemma block_in_area c bs i b :
  blocks_ok session j0 be0 c bs -> bs !! i = Some b ->
  let off := code_offset (lb_block <$> bs) i in
  block_code (zip (lb_insns b) (lb_links b)) (area_bytes c) off /\
  0 <= off /\ 0 < area c /\ area c + off + Z.of_nat (length (lb_code b)) < 2 ^ 64.
Proof.
  intros Hok Hi off. pose proof (bk_rep _ _ _ _ _ Hok) as Hrep.
  destruct (bk_trans _ _ _ _ _ Hok _ _ Hi) as [_ _ _ _ _ [(kc & Hg & Hc) Hlk]].
  assert (Hei : (lb_block <$> bs) !! i = Some (lb_pc b, lb_code b)) by (by rewrite list_lookup_fmap, Hi).
  destruct (rp_tb _ _ Hrep _ _ _ _ (tbs_lookup_at _ _ _ _ Hei)) as (_ & _ & _ & _ & _ & Hs).
  destruct (put_block_bounds _ _ _ _ _ (lb_code b) Hrep Hei eq_refl) as (Ho & Hob & _).
  replace (area c + blocks_size (take i (lb_block <$> bs)) - area c + sizeof_tb)
    with off in Hs by (unfold off, code_offset; lia).
  pose proof (rp_area _ _ Hrep) as [Ha0 Ha1]. pose proof (rp_len _ _ Hrep). fold off in Ho, Hob.
  split; [|lia]. constructor; [|done]. exists kc. split; [done|].
  by apply (code_at_slice _ _ (lb_code b)).
Qed.

(** One block: it returns through an exit that is not linked, or jumps to a
    later block, of the pc the guest goes to. *)
Lemma run_block c bs i b m k :
  blocks_ok session j0 be0 c bs -> bs !! i = Some b ->
  rtc guest_next s0 (lb_pc b, m) -> regs_ok k -> rf k RDI = target_runtime -> mm k = m ->
  exists v m' p' k', guest_next (lb_pc b, m) (v, m') /\ 0 <= v < 2 ^ 64 /\
    msteps callee (area_bytes c) (area c) (block_addr (area c) bs i - area c, k) (p', k') /\
    mm k' = m' /\ stk k' = stk k /\
    (mstep callee (area_bytes c) (area c) p' k' = MRet k' /\ rf k' RAX = v /\
       link_target be0 (area c) bs (rf k' RDX) v \/
     exists i' b', (i < i')%nat /\ bs !! i' = Some b' /\ lb_pc b' = v /\ regs_ok k' /\
       rf k' RDI = target_runtime /\
       mstep callee (area_bytes c) (area c) p' k' = MJump (block_addr (area c) bs i') k').
Proof.
  intros Hok Hi Hreach Hk Hdi Hm.
  destruct (rn_step _ _ Hrun _ Hreach) as [[v m'] Hstep].
  pose proof (bk_trans _ _ _ _ _ Hok _ _ Hi) as Ht.
  pose proof (guest_next_block _ _ _ Ht Hreach Hstep) as Hir.
  pose proof Ht as [_ Hwf Hcl Hins Hll [_ Hlk]].
  unfold block_insns in Hins. destruct (allocate _ _) as [[hw be1]|] eqn:Ea; [|done].
  injection Hins as Hhw. subst hw.
  destruct (block_runs _ _ Hwf Hcl _ _ _ _ _ _ Ea Hir) as (x & (ev & ep & Hx) & Hval & Hall).
  set (pb := exit_is_constant _ _ _ _ _ _) in *. clearbody pb.
  destruct (block_in_area _ _ _ _ Hok Hi) as (Hcode & Ho & Ha0 & Ha1).
  set (off := code_offset (lb_block <$> bs) i) in *.
  assert (Hfz : fst <$> zip (lb_insns b) (lb_links b) = lb_insns b) by (apply fst_zip; lia).
  destruct (Hall _ (area_bytes c) off (area c) k Hfz Hcode Hk Hdi Hm)
    as (link & q & k' & Hl & Hq & T & [Hout Hax Hdx Hmm Hst Hdi' Hregs Hrange]).
  assert (Hln : lb_links b !! x = Some link).
  { apply fmap_Some in Hl as ([xi l0] & Hz & ->).
    by apply lookup_zip_with_Some in Hz as (xi' & l0' & [= -> ->] & _ & Hln). }
  replace (block_addr (area c) bs i - area c) with off by (unfold block_addr, off; lia).
  exists v, m'. destruct link as [t|].
  - assert (pb = true) as ->.
    { destruct pb; [done|]. enough (Some t = None) by done. rewrite Forall_lookup in Hlk.
      apply (Hlk x (X86_EXIT ev ep false, Some t)); [|done].
      apply lookup_zip_with_Some. by eexists _, _. }
    destruct (bk_links _ _ _ _ _ Hok _ _ _ _ Hi Hln) as (i' & b' & Hlt & Hi' & -> & Hv).
    destruct (block_in_area _ _ _ _ Hok Hi') as (_ & Ho' & _ & Ha').
    rewrite wrap_small in Hout by (unfold block_addr; lia).
    destruct Hout as (q' & T2 & Hjump). eexists q', _.
    split; [done|]. split; [done|]. split; [etrans; [exact T|exact T2]|].
    split; [exact Hmm|]. split; [exact Hst|]. right. exists i', b'.
    split; [done|]. split; [done|]. split; [by rewrite <- Hv, (Hval eq_refl)|].
    split; [|by split]. intros d Hd. cbn [set_reg rf]. unfold upd.
    rewrite decide_False; [by apply Hregs|]. unfold HW, RAX, hwreg in *. lia.
  - exists (off + q), k'. split_and!; try done; try lia. left. split_and!; try done.
    destruct pb; [|by left]. right. exists i, b, x, q, ev, ep.
    destruct (translated_relink _ _ _ b x ev ep q 0 Ht Hx Hln Hq) as (_ & _ & _ & Hq11 & Hq0 & _).
    split_and!; try done.
    + rewrite Hdx. unfold block_addr. fold off. rewrite wrap_small; lia.
    + symmetry. by apply Hval.
Qed.

(** Blocks linked one after the other: each is later in the area. *)
Lemma run_chain c bs i b m k :
  blocks_ok session j0 be0 c bs -> bs !! i = Some b ->
  rtc guest_next s0 (lb_pc b, m) -> regs_ok k -> rf k RDI = target_runtime -> mm k = m ->
  exists k', runs (area_bytes c) (area c) (block_addr (area c) bs i - area c) k k' /\
    tc guest_next (lb_pc b, m) (rf k' RAX, mm k') /\ stk k' = stk k /\
    link_target be0 (area c) bs (rf k' RDX) (rf k' RAX) /\ 0 <= rf k' RAX < 2 ^ 64.
Proof.
  intros Hok. remember (length bs - i)%nat as n eqn:En. revert i b m k En.
  induction (lt_wf n) as [n _ IH]. intros i b m k -> Hi Hreach Hk Hdi Hm.
  destruct (run_block c bs i b m k Hok Hi Hreach Hk Hdi Hm)
    as (v & m' & p' & k' & Hg & Hv & T & Hmm & Hst & [(Hret & Hax & Hlt)|(i' & b' & Hlt & Hi' & Hpc & Hr & Hd & Hj)]).
  - exists k'. split; [by eapply runs_steps, runs_ret|]. subst. split; [by apply tc_once|]. done.
  - subst v. pose proof (lookup_lt_Some _ _ _ Hi').
    destruct (IH (length bs - i')%nat ltac:(lia) i' b' m' k' eq_refl Hi')
      as (k2 & R & G & S & L & V); [by eapply rtc_r|done|done|done|].
    exists k2. split; [by eapply runs_steps, runs_jump|]. split; [by eapply tc_l|].
    by rewrite S.
Qed.

(** ** The cache around a turn *)

Lemma set_clean_all l (st : gmap nat internal_cache) id :
  foldr (fun id s => alter ll_clean_cache id s) st l !! id = st !! id \/
  foldr (fun id s => alter ll_clean_cache id s) st l !! id = ll_clean_cache <$> st !! id.
Proof.
  induction l as [|x l IH]; cbn [foldr]; [by left|]. destruct (decide (x = id)) as [->|Hne].
  - right. rewrite lookup_alter_eq. destruct IH as [-> | ->]; [done|]. by destruct (st !! id).
  - by rewrite lookup_alter_ne.
Qed.

Lemma clean_if_needed_marks id w : only_marked id w (clean_if_needed w).
Proof.
  unfold clean_if_needed. destruct (is_cache_clean_need w); [|by left].
  apply (set_clean_all (root w) (cache_store w) id).
Qed.

Lemma cleanCaches_marks id w : only_marked id w (cleanCaches w).
Proof. by left. Qed.

Lemma only_marked_ok id w w' c bs :
  only_marked id w w' -> cache_store w !! id = Some c -> blocks_ok session j0 be0 c bs ->
  exists c', cache_store w' !! id = Some c' /\ blocks_ok session j0 be0 c' bs /\ area c' = area c.
Proof.
  intros [Hm|Hm] Hc Hok; rewrite Hm, Hc; eexists; (split; [done|]); [done|].
  split; [by apply blocks_ok_clean|done].
Qed.

Lemma lookup_in_ok id w c bs pc :
  cache_store w !! id = Some c -> blocks_ok session j0 be0 c bs ->
  exists w' c' p ev bs', lookup_in id pc w = Some (w', p, ev) /\ cache_store w' !! id = Some c' /\
    blocks_ok session j0 be0 c' bs' /\ area c' = area c /\
    (ev = None /\ bs' = bs /\
       (p = 0 \/ exists i b, bs !! i = Some b /\ lb_pc b = pc /\ p = block_addr (area c) bs i) \/
     ev = Some 1 /\ bs' = [] /\ p = 0).
Proof.
  intros Hc Hok. destruct (only_marked_ok id w _ c bs (clean_if_needed_marks id w) Hc Hok)
    as (c1 & Hc1 & Hok1 & Ha1).
  unfold lookup_in. cbv zeta. rewrite Hc1. cbn [mbind option_bind].
  destruct (Z.eq_dec (clean c1) 0) as [Hcl|Hcl].
  - destruct (blocks_lookup _ _ _ _ _ pc Hok1 Hcl) as (c' & p & E & Hok' & Ha & Hp). rewrite E.
    cbn [mbind option_bind]. eexists _, c', p, None, bs. split; [done|]. cbn [cache_store].
    split; [by apply lookup_insert_eq|]. split; [done|]. split; [congruence|]. left.
    split; [done|]. split; [done|]. by rewrite <- Ha1.
  - unfold cache_lookup. rewrite (proj2 (Z.eqb_neq _ _) Hcl). cbn [negb mbind option_bind].
    eexists _, (cache_reset c1), 0, (Some 1), []. split; [done|]. cbn [cache_store].
    split; [by apply lookup_insert_eq|]. split; [by eapply blocks_ok_reset|]. split; [done|]. by right.
Qed.

(** [append] of a translated block, and the linking that follows it. *)
Lemma append_in_ok id w c bs b :
  cache_store w !! id = Some c -> blocks_ok session j0 be0 c bs -> 0 <= lb_pc b < 2 ^ 64 ->
  sizeof_tb + Z.of_nat (length (lb_code b)) < 2 ^ 16 ->
  translated session j0 be0 b -> Forall (eq None) (lb_links b) ->
  exists w' c' ev bs', append_in id (lb_pc b) (lb_code b) w =
      Some (w', block_addr (area c') (bs' ++ [b]) (length bs'), ev) /\
    cache_store w' !! id = Some c' /\ blocks_ok session j0 be0 c' (bs' ++ [b]) /\ area c' = area c /\
    (bs' = bs /\ ev = None \/ bs' = [] /\ ev = Some 1).
Proof.
  intros Hc Hok Hpc Hd Hb Hn.
  destruct (blocks_append _ _ _ _ _ _ Hok Hpc Hd Hb Hn) as (c' & ev & bs' & E & Hok' & Ha & Hev).
  unfold append_in. rewrite Hc. cbn [mbind option_bind]. rewrite E. cbn [mbind option_bind].
  eexists _, c', ev, bs'. split; [done|]. cbn [cache_store]. split; [by apply lookup_insert_eq|]. done.
Qed.

Lemma patch_cache_ok id w c bs b lk buf :
  cache_store w !! id = Some c -> blocks_ok session j0 be0 c (bs ++ [b]) ->
  link_target be0 (area c) bs lk (lb_pc b) -> lk <> 0 ->
  exists w' c' bs', patch_cache (Cache id w) buf lk (block_addr (area c) (bs ++ [b]) (length bs)) =
      Some (Cache id w', buf) /\
    cache_store w' !! id = Some c' /\ blocks_ok session j0 be0 c' bs' /\ area c' = area c /\
    bs' !! length bs = Some b /\
    block_addr (area c) (bs ++ [b]) (length bs) = block_addr (area c') bs' (length bs).
Proof.
  intros Hc Hok Hl Hlk.
  destruct (blocks_patch _ _ _ _ _ _ _ Hok Hl Hlk) as (bytes & bs' & Ha & Hp & Hok' & Hi & Hadr).
  cbn [patch_cache]. rewrite Hc. cbn [mbind option_bind]. rewrite (proj2 (Z.leb_le _ _) Ha), Hp.
  cbn [mbind option_bind]. eexists _, _, bs'. split; [done|]. cbn [cache_store].
  split; [by apply lookup_insert_eq|]. split; [done|]. split; [done|]. split; [done|]. by rewrite <- Hadr.
Qed.

(** ** One turn *)

(** The state at the head of the loop. *)
Record loop_ok (st : loop_state) : Prop := mkLoopOk {
  lo_cache : exists id w c bs, l_cache st = Cache id w /\ cache_store w !! id = Some c /\
    blocks_ok session j0 be0 c bs /\ link_target be0 (area c) bs (link_patch_area st) (currentPc st);
  lo_pc : 0 <= currentPc st < 2 ^ 64;
  lo_reach : rtc guest_next s0 (currentPc st, l_mem st);
  lo_handle : resetJitter (handle st) = resetJitter j0;
  lo_backend : same_pools be0 (l_backend st);
  lo_buffer : Z.of_nat (length (jitBuffer st)) = jitBuffer_size
}.

(** From a state to the next, one or more blocks of the guest. *)
Definition turn_ok (st st' : loop_state) : Prop :=
  loop_ok st' /\ tc guest_next (currentPc st, l_mem st) (currentPc st', l_mem st').

Lemma tc_rtc_after {A} (R : relation A) x y z : rtc R x y -> tc R y z -> rtc R x z.
Proof. intros. etrans; [done|]. by apply tc_rtc. Qed.

Lemma execute_block_ok id w c bs i b j be buf st :
  cache_store w !! id = Some c -> blocks_ok session j0 be0 c bs -> bs !! i = Some b ->
  lb_pc b = currentPc st -> rtc guest_next s0 (currentPc st, l_mem st) ->
  resetJitter j = resetJitter j0 -> same_pools be0 be -> Z.of_nat (length buf) = jitBuffer_size ->
  exists st', turn_ok st st' /\ exists f, forall f', (f <= f')%nat ->
    execute_block f' (Cache id w) j be buf (block_addr (area c) bs i) st = Some st'.
Proof.
  intros Hc Hok Hi Hpc Hr Hj Hb Hl.
  destruct (entry_cpu_ok (block_addr (area c) bs i) target_runtime (l_mem st)) as (Hk & Hd & Hm).
  rewrite <- Hpc in Hr.
  destruct (run_chain c bs i b (l_mem st) _ Hok Hi Hr Hk Hd Hm) as (k' & R & G & S & L & V).
  destruct (execute_returns _ _ _ _ _ _ R S) as [f Hf].
  exists (mkLoop (Cache id w) (rf k' RAX) (currentPc st) (rf k' RAX) (rf k' RDX) j be buf (mm k')).
  split.
  - rewrite Hpc in *. split; [|exact G]. constructor; try done.
    + exists id, w, c, bs. by split_and!.
    + by eapply tc_rtc_after.
  - exists f. intros f' Hle. unfold execute_block. cbn [code_area]. rewrite Hc.
    cbn [mbind option_bind]. by rewrite (Hf f' Hle).
Qed.

(** The block the front end describes at the current pc. *)
Definition new_block (pc : Z) (j : jitter) (hw : list insnZ) (code : list Z) : lblock :=
  mkLblock pc j hw (replicate (length hw) None) code.

(** A turn that translates: [o1], the cache after the lookup, has no block of
    the current pc or was just emptied. *)
Lemma translate_turn id w c bs ev1 st :
  loop_ok st -> cache_store w !! id = Some c -> blocks_ok session j0 be0 c bs ->
  (ev1 = None /\ link_target be0 (area c) bs (link_patch_area st) (currentPc st) \/ ev1 = Some 1) ->
  lookup_cache (l_cache st) (currentPc st) = Some (Cache id w, 0, ev1) ->
  exists st', turn_ok st st' /\ exists f, forall f', (f <= f')%nat ->
    loop_body max_insn f' st = Some st'.
Proof.
  intros Hst Hc Hok Hev Hl. destruct Hst as [_ Hpc Hr Hj Hb Hbuf].
  destruct (ready_translated (handle st) (l_backend st) (jitBuffer st) (l_mem st) (currentPc st)
              (rn_ready _ _ Hrun _ Hr) Hj Hb Hbuf)
    as (j1 & hw & n & buf' & be1 & Es & Ej & Hn & Hbuf' & Hj1 & Hb1 & Hwf & Hcl & Hins & Hcode & _).
  set (b := new_block (currentPc st) j1 hw (take (Z.to_nat n) buf')).
  assert (Hses : disassemble (l_mem st) (currentPc st) max_insn = session (currentPc st))
    by exact (rn_code _ _ Hrun _ Hr).
  assert (Hb' : translated session j0 be0 b).
  { constructor; try done; cbn [b new_block lb_pc lb_jitter lb_insns lb_links].
    - rewrite <- Hses, <- Hj. exact Es.
    - apply length_replicate. }
  assert (Hlen : Z.of_nat (length (lb_code b)) <= jitBuffer_size).
  { cbn. rewrite length_take. lia. }
  unfold jitBuffer_size in Hlen.
  destruct (append_in_ok id w c bs b Hc Hok Hpc) as (w2 & c2 & ev2 & bs2 & E2 & Hc2 & Hok2 & Ha2 & Hev2);
    [unfold sizeof_tb; lia|done|by apply Forall_replicate|].
  set (adr := block_addr (area c2) (bs2 ++ [b]) (length bs2)) in *.
  set (link_it := (prevCurrentPc st <? currentPc st) && negb (link_patch_area st =? 0) &&
                    (default (default 0 ev1) ev2 =? 0)).
  (* the cache after the linking, if any *)
  assert (Hpatch : exists w3 c3 bs3,
    (if link_it then patch_cache (Cache id w2) buf' (link_patch_area st) adr
     else Some (Cache id w2, buf')) = Some (Cache id w3, buf') /\
    cache_store w3 !! id = Some c3 /\ blocks_ok session j0 be0 c3 bs3 /\
    bs3 !! length bs2 = Some b /\ adr = block_addr (area c3) bs3 (length bs2)).
  { destruct link_it eqn:El.
    - unfold link_it in El. apply andb_true_iff in El as [[_ Hlk]%andb_true_iff Hcl0].
      apply negb_true_iff, Z.eqb_neq in Hlk.
      destruct Hev2 as [[-> ->]|[-> ->]]; [|done]. cbn [default] in Hcl0.
      destruct Hev as [[-> Hlt]| ->]; [|done].
      destruct (patch_cache_ok id w2 c2 bs b (link_patch_area st) buf' Hc2 Hok2) as
        (w3 & c3 & bs3 & Ep & Hc3 & Hok3 & _ & Hi3 & Hadr); [by rewrite Ha2|done|].
      exists w3, c3, bs3. by split_and!.
    - exists w2, c2, (bs2 ++ [b]). split_and!; try done. by apply list_lookup_middle. }
  destruct Hpatch as (w3 & c3 & bs3 & Ep & Hc3 & Hok3 & Hi3 & Hadr).
  destruct (execute_block_ok id w3 c3 bs3 (length bs2) b j1 be1 buf' st Hc3 Hok3 Hi3 eq_refl Hr
              Hj1 Hb1 Hbuf') as (st' & Hturn & f & Hf).
  exists st'. split; [done|]. exists f. intros f' Hle. unfold loop_body. rewrite Hl.
  cbn [mbind option_bind Z.eqb negb]. rewrite Es. cbn [mbind option_bind]. rewrite Ej.
  cbn [mbind option_bind]. rewrite (proj2 (Z.ltb_lt _ _)) by lia.
  change (lb_pc b) with (currentPc st) in E2. change (lb_code b) with (take (Z.to_nat n) buf') in E2.
  unfold append_cache. rewrite E2. cbn [mbind option_bind]. fold link_it.
  rewrite Ep. cbn [mbind option_bind]. rewrite Hadr. by apply Hf.
Qed.

(** Every turn of the loop succeeds. *)
Lemma loop_body_ok st : loop_ok st ->
  exists st', turn_ok st st' /\ exists f, forall f', (f <= f')%nat ->
    loop_body max_insn f' st = Some st'.
Proof.
  intros Hst. pose proof Hst as [(id & w & c & bs & Ho & Hc & Hok & Hlt) _ Hr Hj Hb Hbuf].
  destruct (lookup_in_ok id w c bs (currentPc st) Hc Hok)
    as (w1 & c1 & p & ev & bs1 & El & Hc1 & Hok1 & Ha1 & Hev).
  assert (Hl : lookup_cache (l_cache st) (currentPc st) = Some (Cache id w1, p, ev)).
  { rewrite Ho. cbn [lookup_cache]. by rewrite El. }
  destruct Hev as [(-> & -> & [->|(i & b & Hi & Hpc & ->)])|(-> & -> & ->)].
  - eapply translate_turn; try done. left. by rewrite Ha1.
  - destruct (execute_block_ok id w1 c1 bs i b (handle st) (l_backend st) (jitBuffer st) st
                Hc1 Hok1 Hi Hpc Hr Hj Hb Hbuf) as (st' & Hturn & f & Hf).
    exists st'. split; [done|]. exists f. intros f' Hle. unfold loop_body. rewrite Hl.
    cbn [mbind option_bind]. destruct (block_in_area _ _ _ _ Hok Hi) as (_ & Ho' & Ha & _).
    rewrite (proj2 (Z.eqb_neq _ _)) by (unfold block_addr; lia). cbn [negb].
    rewrite <- Ha1. by apply Hf.
  - eapply translate_turn; try done. by right.
Qed.

(** Cleaning requests, from helpers or other threads, between two turns. *)
Lemma mark_ok st w w' id :
  loop_ok st -> l_cache st = Cache id w -> only_marked id w w' ->
  loop_ok (set_loop_cache (Cache id w') st).
Proof.
  intros [(id' & w0 & c & bs & Ho & Hc & Hok & Hlt) ? ? ? ? ?] E Hm. rewrite E in Ho.
  injection Ho as <- <-. destruct (only_marked_ok id w w' c bs Hm Hc Hok) as (c' & Hc' & Hok' & Ha).
  constructor; try done. exists id, w', c', bs. split_and!; try done. by rewrite Ha.
Qed.
End chain.
End program.
