(* ===== verification/LoopTheorems.v ===== *)
(** * What the translation loop guarantees

    With the cache, the loop runs the guest program, one or more blocks a
    turn, whatever cleaning is asked for meanwhile; links only lead forward;
    it stops when the guest stays stopped.  Without the cache, for signal
    handlers, it runs the guest program exactly, block by block. *)

From S2P Require Import Prelude Ir IrTyping Jitter BeX86 BeGen X86Sem X86Exec X86Correct X86Const X86Sim X86Compile X86Theorems CodeCache Loop LoopBlocks LoopExec.

(** ** Fuel *)

Section fuel.
Context `{Target} `{Host}.

Lemma execute_mono f f' c base buffer context m r :
  execute f c base buffer context m = Some r -> (f <= f')%nat ->
  execute f' c base buffer context m = Some r.
Proof.
  unfold execute, execute_be_x86_64. intros He Hf. destruct (exec_seq _ _ _) as [k1|]; [|done].
  cbn [mbind option_bind] in *. destruct (run_area f _ _ _ _) as [k2|] eqn:E; [|done].
  by rewrite (run_area_mono _ _ _ _ _ _ _ E Hf).
Qed.

Lemma execute_block_mono f f' o j be buf a st r :
  execute_block f o j be buf a st = Some r -> (f <= f')%nat ->
  execute_block f' o j be buf a st = Some r.
Proof.
  unfold execute_block. intros He Hf. destruct (code_area o buf) as [[c base]|]; [|done].
  cbn [mbind option_bind] in *. destruct (execute f _ _ _ _ _) as [x|] eqn:E; [|done].
  by rewrite (execute_mono _ _ _ _ _ _ _ _ E Hf).
Qed.

Lemma loop_body_mono n f f' st r :
  loop_body n f st = Some r -> (f <= f')%nat -> loop_body n f' st = Some r.
Proof.
  unfold loop_body. intros He Hf.
  destruct (lookup_cache _ _) as [[[o1 p1] ev1]|]; [|done]. cbn [mbind option_bind] in *.
  destruct (negb (p1 =? 0)); [by eapply execute_block_mono|].
  destruct (irAlloc_session _ _) as [[[] j]|]; [|done]. cbn [mbind option_bind] in *.
  destruct (jitCode _ _ _ _) as [[[sz b] be]|]; [|done]. cbn [mbind option_bind] in *.
  destruct (0 <? sz); [|done].
  destruct (append_cache _ _ _ _) as [[[o2 p2] ev2]|]; [|done]. cbn [mbind option_bind] in *.
  destruct (if (_ && _ && _)%bool then _ else _) as [[o3 b3]|]; [|done].
  cbn [mbind option_bind] in *. by eapply execute_block_mono.
Qed.
End fuel.

(** ** With the cache *)

Section cached.
Context `{Target} `{Host}.
Context `{Hcr : CallResults} {ir_call} `{!HelperAbi ir_call callee}.
Context (max_insn : Z) (j0 : jitter) (be0 : inter) (program : Z -> list irCall).

(** The loop starts with an empty cache. *)
Record starts_empty (o : cache_object) (buf : list Z) : Prop := mkStartsEmpty {
  se_cache : exists id w c, o = Cache id w /\ cache_store w !! id = Some c /\ represents c [] /\
               2 ^ 16 <= jitter_area_size c;
  se_buffer : Z.of_nat (length buf) = jitBuffer_size
}.

Lemma loop_init_ok o buf entry m :
  runnable (ir_call := ir_call) max_insn j0 be0 program (entry, m) -> starts_empty o buf ->
  loop_ok (ir_call := ir_call) max_insn j0 be0 program (entry, m) (loop_init o entry j0 be0 buf m).
Proof.
  intros Hrun [(id & w & c & -> & Hc & Hr & Hs) Hb]. constructor; cbn; try done.
  - exists id, w, c, []. split_and!; try done; by left.
  - apply (rn_pc _ _ _ _ _ Hrun).
Qed.

Lemma loop_step_ok s0 st st' :
  runnable (ir_call := ir_call) max_insn j0 be0 program s0 ->
  loop_ok (ir_call := ir_call) max_insn j0 be0 program s0 st -> loop_step max_insn st st' ->
  loop_ok (ir_call := ir_call) max_insn j0 be0 program s0 st'.
Proof.
  intros Hrun Hst Hs. inversion Hs as [fuel s s' _ Hb|id w w' s Ho Hm]; subst.
  - destruct (loop_body_ok _ _ _ _ _ Hrun _ Hst) as (s2 & [Hok _] & f & Hf).
    specialize (Hf (Nat.max f fuel) ltac:(lia)).
    apply (loop_body_mono _ _ (Nat.max f fuel)) in Hb; [|lia]. rewrite Hb in Hf.
    by injection Hf as ->.
  - by eapply mark_ok.
Qed.

Lemma loop_steps_ok s0 st st' :
  runnable (ir_call := ir_call) max_insn j0 be0 program s0 ->
  loop_ok (ir_call := ir_call) max_insn j0 be0 program s0 st -> rtc (loop_step max_insn) st st' ->
  loop_ok (ir_call := ir_call) max_insn j0 be0 program s0 st'.
Proof.
  intros Hrun Hst Hs. induction Hs as [|s s1 s2 H1 _ IH]; [done|]. apply IH. by eapply loop_step_ok.
Qed.

Lemma loop_turns_mono f f' n st r :
  loop_turns max_insn f n st = Some r -> (f <= f')%nat -> loop_turns max_insn f' n st = Some r.
Proof.
  revert st. induction n as [|n IH]; intros st Hl Hf; cbn [loop_turns] in *;
    destruct (isLooping (l_mem st)) as [[] m]; try done.
  destruct (loop_body max_insn f st) as [st1|] eqn:E; [|done]. cbn [mbind option_bind] in *.
  rewrite (loop_body_mono _ _ _ _ _ E Hf). cbn [mbind option_bind]. by apply IH.
Qed.

(** How a loop that ended left the guest. *)
Definition ended (s0 : Z * mem) (r : option (loop_state * bool)) : Prop :=
  exists st m, r = Some (set_loop_mem m st, true) /\
    rtc (guest_next (ir_call := ir_call) max_insn j0) s0 (currentPc st, l_mem st) /\
    isLooping (l_mem st) = (false, m).

Lemma loop_turns_end s0 N n k st :
  runnable (ir_call := ir_call) max_insn j0 be0 program s0 ->
  (forall i s, nsteps (guest_next (ir_call := ir_call) max_insn j0) i s0 s -> (N <= i)%nat ->
     (isLooping s.2).1 = false) ->
  loop_ok (ir_call := ir_call) max_insn j0 be0 program s0 st ->
  nsteps (guest_next (ir_call := ir_call) max_insn j0) k s0 (currentPc st, l_mem st) ->
  (N <= k + n)%nat -> exists f, ended s0 (loop_turns max_insn f n st).
Proof.
  intros Hrun Hstop. revert k st. induction n as [|n IH]; intros k st Hst Hk Hn;
    destruct (isLooping (l_mem st)) as [[] m] eqn:El.
  - specialize (Hstop k _ Hk ltac:(lia)). cbn in Hstop. by rewrite El in Hstop.
  - exists 0%nat, st, m. cbn [loop_turns]. rewrite El. split; [done|]. split; [|done].
    exact (lo_reach _ _ _ _ _ _ Hst).
  - destruct (loop_body_ok _ _ _ _ _ Hrun _ Hst) as (st1 & [Hok G] & f & Hf).
    apply tc_nsteps in G as (i & Hi & G).
    destruct (IH (k + i)%nat st1 Hok) as (f' & st2 & m2 & E & R); [by eapply nsteps_trans|lia|].
    exists (Nat.max f f'), st2, m2. split; [|done]. cbn [loop_turns]. rewrite El, Hf by lia.
    cbn [mbind option_bind]. eapply loop_turns_mono; [exact E|lia].
  - exists 0%nat, st, m. cbn [loop_turns]. rewrite El. split; [done|]. split; [|done].
    exact (lo_reach _ _ _ _ _ _ Hst).
Qed.
End cached.

(** ** Without the cache *)

Section uncached.
Context `{Target} `{Host}.
Context `{Hcr : CallResults} {ir_call} `{!HelperAbi ir_call callee}.
Context (max_insn : Z) (j0 : jitter) (be0 : inter).

(** The guest program run as long as it wants to, [n] blocks at most. *)
Fixpoint guest_run (n : nat) (s : Z * mem) : option (Z * mem * bool) :=
  let '(go, m) := isLooping s.2 in
  if go then
    match n with
    | O => Some (s, false)
    | S n => s' ← guest_step ir_call max_insn j0 s; guest_run n s'
    end
  else Some ((s.1, m), true).

Record uncached_ok (st : loop_state) : Prop := mkUncachedOk {
  uo_cache : exists c, l_cache st = CacheNone c;
  uo_handle : resetJitter (handle st) = resetJitter j0;
  uo_backend : same_pools be0 (l_backend st);
  uo_buffer : Z.of_nat (length (jitBuffer st)) = jitBuffer_size
}.

(** A turn is a block. *)
Lemma uncached_turn st v m' :
  uncached_ok st -> block_ready max_insn j0 be0 (currentPc st, l_mem st) = true ->
  guest_step ir_call max_insn j0 (currentPc st, l_mem st) = Some (v, m') ->
  exists st' f, loop_body max_insn f st = Some st' /\ uncached_ok st' /\
    currentPc st' = v /\ l_mem st' = m'.
Proof.
  intros [[c Hc] Hj Hb Hbuf] Hready Hstep.
  destruct (ready_translated _ _ _ _ _ (jitBuffer st) _ _ Hready Hj Hb Hbuf)
    as (j1 & hw & n & buf' & be1 & Es & Ej & Hn & Hbuf' & Hj1 & Hb1 & Hwf & Hcl & Hins & _ & Hcode).
  assert (Hir : ir_run ir_call target_runtime (insns j1) ∅ (l_mem st) = Some (v, m')).
  { unfold guest_step, guest_block in Hstep. cbn [fst snd] in Hstep. rewrite <- Hj in Hstep.
    by rewrite Es in Hstep. }
  unfold block_insns in Hins. destruct (allocate _ _) as [[hw' be2]|] eqn:Ea; [|done].
  injection Hins as ->.
  destruct (block_runs _ _ Hwf Hcl _ _ _ _ _ _ Ea Hir) as (x & _ & _ & Hall).
  set (pb := exit_is_constant _ _ _ _ _ _) in *. clearbody pb.
  destruct (entry_cpu_ok jitBuffer_address target_runtime (l_mem st)) as (Hk & Hd & Hm).
  assert (Hfz : fst <$> zip hw (replicate (length hw) (None : option Z)) = hw)
    by (apply fst_zip; rewrite length_replicate; lia).
  destruct (Hall _ buf' 0 jitBuffer_address _ Hfz Hcode Hk Hd Hm)
    as (link & q & k' & Hl & _ & T & [Hout Hax _ Hmm Hst _ _ _]).
  assert (link = None) as ->.
  { apply fmap_Some in Hl as ([xi l0] & Hz & ->). apply lookup_zip_with_Some in Hz as
      (xi' & l0' & [= -> ->] & _ & Hln). by apply lookup_replicate in Hln as [-> _]. }
  rewrite <- (Z.sub_diag jitBuffer_address) in T at 1.
  pose proof (runs_steps _ _ _ _ _ _ _ T (runs_ret _ _ _ _ Hout)) as R.
  destruct (execute_returns _ _ _ _ _ _ R Hst) as [f Hf].
  eexists _, f. unfold loop_body. rewrite Hc. cbn [lookup_cache lookup_none mbind option_bind Z.eqb negb].
  rewrite Es. cbn [mbind option_bind]. rewrite Ej. cbn [mbind option_bind].
  rewrite (proj2 (Z.ltb_lt _ _)) by lia. cbn [append_cache append_none mbind option_bind default Z.eqb].
  rewrite andb_false_r. cbn [mbind option_bind]. unfold execute_block. cbn [code_area mbind option_bind].
  rewrite (Hf f (le_n _)). cbn [mbind option_bind]. split; [done|]. split; [|by split].
  constructor; cbn; try done. by eexists.
Qed.

Lemma uncached_turns n st s b :
  uncached_ok st -> guest_run n (currentPc st, l_mem st) = Some (s, b) ->
  (forall i s', guest_run i (currentPc st, l_mem st) = Some (s', false) ->
     block_ready max_insn j0 be0 s' = true) ->
  exists f st', loop_turns max_insn f n st = Some (st', b) /\ (currentPc st', l_mem st') = s.
Proof.
  revert st. induction n as [|n IH]; intros st Hst Hg Hready; cbn [guest_run] in Hg; cbn [snd fst] in Hg;
    destruct (isLooping (l_mem st)) as [[] m] eqn:El.
  - injection Hg as <- <-. exists 0%nat, st. cbn [loop_turns]. by rewrite El.
  - injection Hg as <- <-. exists 0%nat, (set_loop_mem m st). cbn [loop_turns]. by rewrite El.
  - destruct (guest_step _ _ _ _) as [[v m']|] eqn:Es; [|done]. cbn [mbind option_bind] in Hg.
    destruct (uncached_turn st v m' Hst) as (st1 & f & Hf & Hok & <- & <-); [|done|].
    { apply (Hready 0%nat). cbn [guest_run snd]. by rewrite El. }
    destruct (IH st1 Hok Hg) as (f' & st2 & E & Hs).
    { intros i s' Hi. apply (Hready (S i)). cbn [guest_run snd]. rewrite El, Es. exact Hi. }
    exists (Nat.max f f'), st2. split; [|done]. cbn [loop_turns]. rewrite El.
    rewrite (loop_body_mono _ _ (Nat.max f f') _ _ Hf) by lia. cbn [mbind option_bind].
    eapply loop_turns_mono; [exact E|lia].
  - injection Hg as <- <-. exists 0%nat, (set_loop_mem m st). cbn [loop_turns]. by rewrite El.
Qed.
End uncached.

(** ** A guest program *)

(** The context is at 8192: whether to go on, a counter, another counter. *)
Definition demo_context : Z := 8192.

(** At 100: count down, go on unless the counter is 0, leave for 200. *)
Definition demo_svc : list irCall :=
  [CallReadContext IR_REG_64 8; CallMovConst IR_REG_64 1; CallBinop SUB IR_REG_64 0 1;
   CallWriteContext IR_REG_64 2 8; CallMovConst IR_REG_64 0; CallBinop CMPNE IR_REG_64 2 3;
   CallWriteContext IR_REG_64 4 0; CallMovConst IR_REG_64 200; CallExit 5].

(** Elsewhere: count up, leave for 100, by a register. *)
Definition demo_ret : list irCall :=
  [CallReadContext IR_REG_64 16; CallMovConst IR_REG_64 1; CallBinop ADD IR_REG_64 0 1;
   CallWriteContext IR_REG_64 2 16; CallMovConst IR_REG_64 60; CallMovConst IR_REG_64 40;
   CallBinop ADD IR_REG_64 3 4; CallExit 5].

#[local, program] Instance demo_target : Target := {
  isLooping := fun m => (negb (load_mem IR_REG_64 m demo_context =? 0), m);
  disassemble := fun _ pc _ => if pc =? 100 then demo_svc else demo_ret
}.
Next Obligation. by intros m m' [= _ <-]. Qed.

#[local, program] Instance demo_host : Host := {
  callee := demo_callee;
  host_regs := fun _ _ _ => 0;
  backend_address := 2 ^ 20;
  jitBuffer_address := 2 ^ 21;
  target_runtime := demo_context
}.
Next Obligation. done. Qed.

#[local] Existing Instances demo_results demo_abi.
#[local] Instance demo_loop_abi : HelperAbi demo_ir_call (@callee demo_host) := demo_abi.

(** The guest counts down from [n]. *)
Definition demo_guest (n : Z) : mem :=
  store_mem IR_REG_64 (store_mem IR_REG_64 (fun _ => 0) demo_context 1) (demo_context + 8) n.

Lemma demo_ready pc m : block_ready 10 fresh_jitter demo_inter (pc, m) = true.
Proof.
  unfold block_ready. cbn [fst snd disassemble demo_target].
  destruct (pc =? 100); vm_compute; reflexivity.
Qed.

Lemma demo_step (s : Z * mem) : exists s', guest_next (ir_call := demo_ir_call) 10 fresh_jitter s s'.
Proof.
  destruct s as [pc m]. unfold guest_next, guest_step, guest_block.
  cbn [fst snd disassemble demo_target].
  assert (Hblk : exists j, irAlloc_session (if pc =? 100 then demo_svc else demo_ret)
                             (resetJitter fresh_jitter) = Some (tt, j) /\
            ir_check (fun _ _ _ => false) ∅ (insns j) = true).
  { destruct (pc =? 100); eexists; (split; [vm_compute; reflexivity|vm_compute; reflexivity]). }
  destruct Hblk as (j & -> & Hc). cbn [mbind option_bind].
  edestruct (ir_check_runs (fun _ _ _ => false) demo_ir_call target_runtime) as [s' Hs];
    [done|exact Hc| |exists s'; exact Hs].
  intros r t c Hr. by rewrite lookup_empty in Hr.
Qed.

Definition demo_code (pc : Z) : list irCall := if pc =? 100 then demo_svc else demo_ret.

Lemma demo_runnable n :
  runnable (ir_call := demo_ir_call) 10 fresh_jitter demo_inter demo_code (100, demo_guest n).
Proof.
  constructor.
  - split; [discriminate|reflexivity].
  - intros s _. reflexivity.
  - intros [pc m] _. apply demo_ready.
  - intros s _. apply demo_step.
Qed.

Definition demo_area (size : Z) : internal_cache :=
  mkCache 0 0 size ∅ ∅ (2 ^ 24) (2 ^ 24 + size) (replicate (Z.to_nat size) 0).

Definition demo_cache (size : Z) : cache_object :=
  Cache 0 (mkCaches [0%nat] {[0%nat := demo_area size]} false).

Lemma empty_represents size a bytes :
  0 < a -> a + size < 2 ^ 64 -> 0 <= size -> Z.of_nat (length bytes) = size ->
  represents (mkCache 0 0 size ∅ ∅ a (a + size) bytes) [].
Proof. intros. by constructor. Qed.

Lemma demo_starts_empty :
  starts_empty (demo_cache (2 ^ 16)) (replicate (Z.to_nat jitBuffer_size) 0).
Proof.
  constructor.
  - eexists 0%nat, _, (demo_area (2 ^ 16)). split; [reflexivity|].
    split; [apply lookup_singleton_eq|]. split; [|discriminate].
    apply empty_represents; [reflexivity|reflexivity|discriminate|].
    rewrite length_replicate. apply Z2Nat.id. discriminate.
  - rewrite length_replicate. apply Z2Nat.id. discriminate.
Qed.

(** A guest that asks for the end in its first block. *)
#[program] Definition stop_target : Target := {|
  isLooping := fun m => (negb (wrap 8 (m demo_context) =? 1), m);
  disassemble := fun _ _ _ =>
    [CallMovConst IR_REG_8 1; CallWriteContext IR_REG_8 0 0; CallMovConst IR_REG_64 100; CallExit 1]
|}.
Next Obligation. by intros m m' [= _ <-]. Qed.

Lemma stop_next s s' :
  @guest_next stop_target demo_host demo_ir_call 10 fresh_jitter s s' -> (@isLooping stop_target s'.2).1 = false.
Proof.
  destruct s as [pc m]. unfold guest_next, guest_step, guest_block. intros Hs.
  vm_compute in Hs. injection Hs as <-. vm_compute. reflexivity.
Qed.

Lemma stop_step s : exists s', @guest_next stop_target demo_host demo_ir_call 10 fresh_jitter s s'.
Proof. destruct s as [pc m]. eexists. unfold guest_next, guest_step, guest_block. vm_compute. reflexivity. Qed.

Lemma stop_runnable m :
  @runnable stop_target demo_host demo_results demo_ir_call 10 fresh_jitter demo_inter (fun pc => @disassemble stop_target m pc 10) (100, m).
Proof.
  constructor.
  - split; [discriminate|reflexivity].
  - intros s _. reflexivity.
  - intros [pc m'] _. vm_compute. reflexivity.
  - intros s _. apply stop_step.
Qed.

(** ** Properties *)

(** The loop at its head, and the next turn. *)
Lemma loop_at_head `{Target} `{Host} `{Hcr : CallResults} {ir_call} `{!HelperAbi ir_call callee}
    max_insn j0 be0 program o buf entry m st :
  runnable (ir_call := ir_call) max_insn j0 be0 program (entry, m) -> starts_empty o buf ->
  rtc (loop_step max_insn) (loop_init o entry j0 be0 buf m) st ->
  rtc (guest_next (ir_call := ir_call) max_insn j0) (entry, m) (currentPc st, l_mem st) /\
  exists fuel st', loop_body max_insn fuel st = Some st' /\
    tc (guest_next (ir_call := ir_call) max_insn j0) (currentPc st, l_mem st) (currentPc st', l_mem st').
Proof.
  intros Hrun Hse Hs. assert (Hst := loop_steps_ok _ _ _ _ _ _ _ Hrun (loop_init_ok _ _ _ _ _ _ _ _ Hrun Hse) Hs).
  split; [exact (lo_reach _ _ _ _ _ _ Hst)|].
  destruct (loop_body_ok _ _ _ _ _ Hrun _ Hst) as (st' & [_ G] & f & Hf). exists f, st'.
  split; [by apply Hf|exact G].
Qed.

(** C15. The translation loop runs the guest program.  For a program whose
    blocks the front end describes properly, the same at each pc every time, from an
    empty cache and whatever cleaning requests come between the turns: the pc
    and the memory at the head of the loop are a state the guest program
    reaches, and the next turn succeeds (no assertion fails, the machine is
    never stuck, every chain of linked blocks ends) and takes the guest one or
    more blocks further. *)
Theorem loop_refines_guest `{Target} `{Host} `{Hcr : CallResults} {ir_call} `{!HelperAbi ir_call callee}
    max_insn j0 be0 program o buf entry m st :
  runnable (ir_call := ir_call) max_insn j0 be0 program (entry, m) -> starts_empty o buf ->
  rtc (loop_step max_insn) (loop_init o entry j0 be0 buf m) st ->
  rtc (guest_next (ir_call := ir_call) max_insn j0) (entry, m) (currentPc st, l_mem st) /\
  exists fuel st', loop_body max_insn fuel st = Some st' /\
    tc (guest_next (ir_call := ir_call) max_insn j0) (currentPc st, l_mem st) (currentPc st', l_mem st').
Proof. apply loop_at_head. Qed.

Lemma loop_refines_guest_witness :
  exists fuel st', loop_body 10 fuel (loop_init (demo_cache (2 ^ 16)) 100 fresh_jitter demo_inter
      (replicate (Z.to_nat jitBuffer_size) 0) (demo_guest 3)) = Some st' /\
    tc (guest_next (ir_call := demo_ir_call) 10 fresh_jitter) (100, demo_guest 3)
       (currentPc st', l_mem st').
Proof.
  destruct (loop_refines_guest 10 fresh_jitter demo_inter _ (demo_cache (2 ^ 16))
              (replicate (Z.to_nat jitBuffer_size) 0) 100 (demo_guest 3) _
              (demo_runnable 3) demo_starts_empty (rtc_refl _ _)) as (_ & fuel & st' & E & G).
  exists fuel, st'. split; [exact E|exact G].
Defined.

(** C16. Links are safe.  At any point of such a run the area holds a sequence
    of blocks, each the translation of the guest block of its pc, some of whose
    exits are linked; a linked exit always leaves for one and the same pc, and
    jumps to the first byte of a block of that pc that was appended later.  So
    chains cannot loop, whatever order of pcs they follow. *)
Theorem links_lead_forward `{Target} `{Host} `{Hcr : CallResults} {ir_call} `{!HelperAbi ir_call callee}
    max_insn j0 be0 program o buf entry m st :
  runnable (ir_call := ir_call) max_insn j0 be0 program (entry, m) -> starts_empty o buf ->
  rtc (loop_step max_insn) (loop_init o entry j0 be0 buf m) st ->
  exists id w c bs, l_cache st = Cache id w /\ cache_store w !! id = Some c /\
    represents c (lb_block <$> bs) /\
    (forall i b, bs !! i = Some b ->
       translated program j0 be0 b) /\
    forall i b n t, bs !! i = Some b -> lb_links b !! n = Some (Some t) ->
      exists i' b', (i < i')%nat /\ bs !! i' = Some b' /\ t = block_addr (area c) bs i' /\
        lb_value be0 b n = lb_pc b'.
Proof.
  intros Hrun Hse Hs. assert (Hst := loop_steps_ok _ _ _ _ _ _ _ Hrun (loop_init_ok _ _ _ _ _ _ _ _ Hrun Hse) Hs).
  destruct (lo_cache _ _ _ _ _ _ Hst) as (id & w & c & bs & Ho & Hc & [Hr Ht Hl _] & _).
  exists id, w, c, bs. split; [done|]. split; [done|]. split; [done|]. split; [exact Ht|exact Hl].
Qed.

Lemma links_lead_forward_witness :
  exists id w c bs, l_cache (loop_init (demo_cache (2 ^ 16)) 100 fresh_jitter demo_inter
      (replicate (Z.to_nat jitBuffer_size) 0) (demo_guest 3)) = Cache id w /\
    cache_store w !! id = Some c /\ represents c (lb_block <$> bs).
Proof.
  destruct (links_lead_forward 10 fresh_jitter demo_inter _ (demo_cache (2 ^ 16))
              (replicate (Z.to_nat jitBuffer_size) 0) 100 (demo_guest 3) _
              (demo_runnable 3) demo_starts_empty (rtc_refl _ _)) as (id & w & c & bs & E1 & E2 & E3 & _).
  exists id, w, c, bs. split; [exact E1|]. split; [exact E2|exact E3].
Defined.

(** C17. The loop stops.  When the guest program, from its [N]th block on, does
    not want to go on, then [loop_common] ends within [N] turns, in a state the
    guest program reaches. *)
Theorem loop_stops `{Target} `{Host} `{Hcr : CallResults} {ir_call} `{!HelperAbi ir_call callee}
    max_insn j0 be0 program o buf entry m N :
  runnable (ir_call := ir_call) max_insn j0 be0 program (entry, m) -> starts_empty o buf ->
  (forall i s, nsteps (guest_next (ir_call := ir_call) max_insn j0) i (entry, m) s -> (N <= i)%nat ->
     (isLooping s.2).1 = false) ->
  exists fuel, ended (ir_call := ir_call) max_insn j0 (entry, m)
                 (loop_common max_insn fuel N o entry j0 be0 buf m).
Proof.
  intros Hrun Hse Hstop.
  apply (loop_turns_end max_insn j0 be0 program (entry, m) N N 0 _ Hrun Hstop); [|constructor|lia].
  by apply loop_init_ok.
Qed.

Lemma loop_stops_witness :
  exists fuel, @ended stop_target demo_host demo_ir_call 10 fresh_jitter (100, demo_guest 0)
    (@loop_common stop_target demo_host 10 fuel 1 (demo_cache (2 ^ 16)) 100 fresh_jitter demo_inter
       (replicate (Z.to_nat jitBuffer_size) 0) (demo_guest 0)).
Proof.
  apply (@loop_stops stop_target demo_host demo_results demo_ir_call demo_loop_abi 10 fresh_jitter demo_inter _
           (demo_cache (2 ^ 16)) (replicate (Z.to_nat jitBuffer_size) 0) 100 (demo_guest 0) 1
           (stop_runnable _) demo_starts_empty).
  intros i s Hs Hi. destruct i as [|i]; [inversion Hi|].
  apply nsteps_inv_r in Hs as (s1 & _ & Hs). exact (stop_next s1 s Hs).
Defined.

(** C18. Signal handlers run exactly.  On the cache of [cacheNone.c] every turn
    is one block: the loop ends after the same block, with the same pc and
    memory, as the guest program run by its meaning; code that changes while
    it runs included. *)
Theorem nocache_exact `{Target} `{Host} `{Hcr : CallResults} {ir_call} `{!HelperAbi ir_call callee}
    max_insn j0 be0 c buf entry m n s b :
  Z.of_nat (length buf) = jitBuffer_size ->
  guest_run (ir_call := ir_call) max_insn j0 n (entry, m) = Some (s, b) ->
  (forall i s', guest_run (ir_call := ir_call) max_insn j0 i (entry, m) = Some (s', false) ->
     block_ready max_insn j0 be0 s' = true) ->
  exists fuel st, loop_common max_insn fuel n (CacheNone c) entry j0 be0 buf m = Some (st, b) /\
    (currentPc st, l_mem st) = s.
Proof.
  intros Hbuf Hg Hready. apply (uncached_turns max_insn j0 be0 n); [|done|done].
  constructor; try done. by eexists.
Qed.

Lemma nocache_exact_witness :
  exists s fuel st, guest_run (ir_call := demo_ir_call) 10 fresh_jitter 5 (100, demo_guest 2) = Some (s, true) /\
    loop_common 10 fuel 5 (CacheNone (mkCacheNone 0 0)) 100 fresh_jitter demo_inter
      (replicate (Z.to_nat jitBuffer_size) 0) (demo_guest 2) = Some (st, true) /\
    (currentPc st, l_mem st) = s.
Proof.
  assert (Hb : option_map snd (guest_run (ir_call := demo_ir_call) 10 fresh_jitter 5 (100, demo_guest 2)) =
               Some true) by (vm_compute; reflexivity).
  destruct (guest_run 10 fresh_jitter 5 (100, demo_guest 2)) as [[s b]|] eqn:Eg; [|discriminate Hb].
  injection Hb as ->.
  destruct (nocache_exact 10 fresh_jitter demo_inter (mkCacheNone 0 0)
              (replicate (Z.to_nat jitBuffer_size) 0) 100 (demo_guest 2) 5 s true
              (se_buffer _ _ demo_starts_empty) Eg) as (fuel & st & E & Hs).
  { intros i [pc m] _. apply demo_ready. }
  exists s, fuel, st. split; [reflexivity|]. split; [exact E|exact Hs].
Defined.

(** Linked blocks do not look at [isLooping].  In this guest the block at
    100 asks for the end of the loop the second time it runs, by a block that
    leaves for a constant pc, as the code of a system call does.  By the
    guest's meaning, and without the cache, the loop ends there, the block at
    200 having run once; with the cache the block at 100 was linked to it
    meanwhile, so it runs a second time before the loop ends. *)
Theorem chained_exit_overshoots :
  let buf := replicate (Z.to_nat jitBuffer_size) 0 in
  let count (r : option (loop_state * bool)) :=
    '(st, b) ← r; Some (currentPc st, load_mem IR_REG_64 (l_mem st) (demo_context + 16), b) in
  count (loop_common 10 60 5 (demo_cache 4096) 100 fresh_jitter demo_inter buf (demo_guest 2)) =
    Some (100, 2, true) /\
  count (loop_common 10 60 5 (CacheNone (mkCacheNone 0 0)) 100 fresh_jitter demo_inter buf (demo_guest 2)) =
    Some (200, 1, true) /\
  (s ← guest_run (ir_call := demo_ir_call) 10 fresh_jitter 5 (100, demo_guest 2);
   Some (s.1.1, load_mem IR_REG_64 s.1.2 (demo_context + 16), s.2)) = Some (200, 1, true).
Proof. split; [|split]; vm_compute; reflexivity. Qed.

(** * Programs the loop runs

    A program of a guest architecture is given by its blocks: a relation on the
    guest's states, an invariant of the program, and how the process holds a
    state.  If what the loop translates and runs at a state of the invariant is
    a block, the loop runs the program. *)

Section guest.
Context `{T : Target} {host : Host}.
Context `{Hcr : CallResults} {ir_call : option irRegisterType -> Z -> Z -> list (option (irRegisterType * Z)) -> mem -> option (mem * Z)}
  `{!HelperAbi ir_call callee}.
Context (maxInsn : Z) (j0 : jitter) (be0 : inter) (program : Z -> list irCall).
Context {G : Type} (block : G -> G -> Prop) (rep : G -> Z * mem -> Prop) (I : G -> Prop).
Abbreviation guest_next := (guest_next (ir_call := ir_call) maxInsn j0).

(** The translator's buffers are large enough for the blocks, and a pc has the
    same code every time; the process goes on as the guest. *)
Record guest_program : Prop := mkGuestProgram {
  gp_translated : forall g h, I g -> rep g h ->
    block_ready maxInsn j0 be0 h = true /\ disassemble h.2 h.1 maxInsn = program h.1;
  gp_next : forall g h, I g -> rep g h -> exists g' h', block g g' /\ I g' /\ guest_next h h' /\ rep g' h'
}.

Hypothesis Hprog : guest_program.

Lemma guest_nexts_block g h h' :
  I g -> rep g h -> rtc guest_next h h' -> exists g', rtc block g g' /\ I g' /\ rep g' h'.
Proof.
  intros Hg Hm Hs. revert g Hg Hm. induction Hs as [h|h h1 h' H1 _ IH]; intros g Hg Hm; [by exists g|].
  destruct (gp_next Hprog g h Hg Hm) as (g1 & h2 & Hb & Hg1 & H2 & Hm1).
  unfold LoopExec.guest_next in H1, H2. rewrite H1 in H2. simplify_eq.
  destruct (IH g1 Hg1 Hm1) as (g' & Hg' & HI & Hm'). exists g'. split; [by eapply rtc_l|done].
Qed.

Lemma guest_nexts_block_tc g h h' :
  I g -> rep g h -> tc guest_next h h' -> exists g', tc block g g' /\ I g' /\ rep g' h'.
Proof.
  intros Hg Hm Hs. assert (exists h1, guest_next h h1 /\ rtc guest_next h1 h') as (h1 & H1 & H2).
  { destruct Hs as [h h1 H1|h h1 h2 H1 H2]; exists h1; [by split|]. split; [done|by apply tc_rtc]. }
  destruct (gp_next Hprog g h Hg Hm) as (g1 & h2 & Hb & Hg1 & H3 & Hm1).
  unfold LoopExec.guest_next in H1, H3. rewrite H1 in H3. simplify_eq.
  destruct (guest_nexts_block g1 h2 h' Hg1 Hm1 H2) as (g' & Hg' & HI & Hm').
  exists g'. split; [by eapply tc_rtc_r; [apply tc_once|]|done].
Qed.

Lemma guest_runnable g0 h0 :
  I g0 -> rep g0 h0 -> 0 <= h0.1 < 2 ^ 64 -> runnable (ir_call := ir_call) maxInsn j0 be0 program h0.
Proof.
  intros HI0 Hrep Hpc.
  assert (Hreach : forall h, rtc guest_next h0 h -> exists g, I g /\ rep g h).
  { intros h Hh. destruct (guest_nexts_block g0 h0 h) as (g & _ & Hg & Hm); [done..|]. by exists g. }
  constructor; [done|..].
  - intros h Hh. destruct (Hreach h Hh) as (g & Hg & Hm). by apply (gp_translated Hprog g h).
  - intros h Hh. destruct (Hreach h Hh) as (g & Hg & Hm). by apply (gp_translated Hprog g h).
  - intros h Hh. destruct (Hreach h Hh) as (g & Hg & Hm).
    destruct (gp_next Hprog g h Hg Hm) as (_ & h1 & _ & _ & H1 & _). by exists h1.
Qed.

(** The loop runs such a program: at its head the process is at a state that
    the program reaches, and the next turn succeeds and goes on with it. *)
Lemma loop_runs_program o buf g0 entry m st :
  I g0 -> rep g0 (entry, m) -> 0 <= entry < 2 ^ 64 -> starts_empty o buf ->
  rtc (loop_step maxInsn) (loop_init o entry j0 be0 buf m) st ->
  exists g, rtc block g0 g /\ I g /\ rep g (currentPc st, l_mem st) /\
    exists fuel st' g', loop_body maxInsn fuel st = Some st' /\ tc block g g' /\ I g' /\
      rep g' (currentPc st', l_mem st').
Proof.
  intros Hg0 Hm0 He Hse Hst. assert (Hrun := guest_runnable g0 (entry, m) Hg0 Hm0 He).
  destruct (loop_at_head maxInsn j0 be0 program o buf entry m st Hrun Hse Hst) as (Hr & fuel & st' & Hb & Hr').
  destruct (guest_nexts_block g0 _ _ Hg0 Hm0 Hr) as (g & Hg & HI & Hm).
  exists g. split; [done|]. split; [done|]. split; [done|].
  destruct (guest_nexts_block_tc g _ _ HI Hm Hr') as (g' & Hg' & HI' & Hm').
  by exists fuel, st', g'.
Qed.
End guest.
