(* ===== verification/Main.v ===== *)
(** * The process around the loop ([src/src/main.c], [src/src/umeq.h])

    Sizes of the contexts by memory profile, the choice of the profile, the
    two ways of running the loop with the thread's context saved around it,
    and the options of the command line. *)

From S2P Require Import Prelude Ir IrTyping Jitter BeX86 BeGen X86Sem X86Exec X86Correct X86Const X86Sim X86Compile X86Theorems CodeCache Loop LoopBlocks LoopExec LoopTheorems.
From stdpp Require Import strings.
#[local] Open Scope Z_scope.

(** ** Memory profiles *)

Definition KB : Z := 1024.
Definition MB : Z := KB * KB.

Record memory_config := mkConfig {
  max_insn : Z;
  jitter_context_size : Z;
  be_context_size : Z;
  cache_size : Z
}.

Inductive memory_profile := MEM_PROFILE_2M | MEM_PROFILE_4M | MEM_PROFILE_8M | MEM_PROFILE_16M.

#[global] Instance memory_profile_eq_dec : EqDecision memory_profile.
Proof. solve_decision. Defined.

Definition cache_memory_config (p : memory_profile) : memory_config :=
  match p with
  | MEM_PROFILE_2M => mkConfig 10 (64 * KB) (64 * KB) (1 * MB)
  | MEM_PROFILE_4M => mkConfig 10 (64 * KB) (64 * KB) (3 * MB)
  | MEM_PROFILE_8M => mkConfig 20 (128 * KB) (128 * KB) (6 * MB)
  | MEM_PROFILE_16M => mkConfig 40 (256 * KB) (256 * KB) (14 * MB)
  end.

(** The soft limit [setup_memory_profile] asks for, 0 for none. *)
Definition wanted_soft_limit (rlim_cur rlim_max : Z) : Z :=
  if (16 * MB <=? rlim_max) && (rlim_cur <? rlim_max) then 16 * MB
  else if (8 * MB <=? rlim_max) && (rlim_cur <? rlim_max) then 8 * MB
  else if (4 * MB <=? rlim_max) && (rlim_cur <? rlim_max) then 4 * MB
  else if (2 * MB <=? rlim_max) && (rlim_cur <? rlim_max) then 2 * MB
  else 0.

(** The soft limit once it was asked for; [setrlimit] says whether the system
    accepts a limit. *)
Definition raise_soft_limit (setrlimit : Z -> bool) (rlim_cur rlim_max : Z) : Z :=
  let new_soft_limit := wanted_soft_limit rlim_cur rlim_max in
  if rlim_cur <? new_soft_limit then
    if setrlimit new_soft_limit then new_soft_limit else rlim_cur
  else rlim_cur.

Definition profile_of_limit (current_soft_limit : Z) : option memory_profile :=
  if 16 * MB <=? current_soft_limit then Some MEM_PROFILE_16M
  else if 8 * MB <=? current_soft_limit then Some MEM_PROFILE_8M
  else if 4 * MB <=? current_soft_limit then Some MEM_PROFILE_4M
  else if 2 * MB <=? current_soft_limit then Some MEM_PROFILE_2M
  else None.

(** [setup_memory_profile]: the profile and the soft limit of the stack;
    [None] when the process stops.  [getrlimit] gives the two limits or
    fails; the profile is then the one it was. *)
Definition setup_memory_profile (getrlimit : option (Z * Z)) (setrlimit : Z -> bool)
    (profile : memory_profile) : option memory_profile :=
  match getrlimit with
  | None => Some profile
  | Some (rlim_cur, rlim_max) => profile_of_limit (raise_soft_limit setrlimit rlim_cur rlim_max)
  end.

(** ** Running the loop *)

(** The rest of [struct target]. *)
Class TargetArch := {
  #[global] ta_target :: Target;
  init : mem -> Z -> Z -> Z -> Z -> Z -> mem;
  getExitStatus : mem -> Z * mem
}.

(** [struct tls_context]; the target is the address of its runtime here, 0
    being NULL, and the cache its object. *)
Record tls_context := mkTls {
  tls_target : Z;
  tls_target_runtime : Z;
  tls_cache : option nat
}.

(** [setup_thread_area]; the C code leaves [cache] as it is. *)
Definition setup_thread_area (t : tls_context) : tls_context := mkTls 0 0 (tls_cache t).

Record process := mkProcess { p_tls : tls_context; p_caches : caches }.

Section running.
Context `{TargetArch} `{Host}.

(** The thread's context points to the new target and cache while the loop
    runs, and is put back at the end.  Only helpers, which are parameters,
    read it meanwhile.

    [loop_cache] on the memory [bytes] at [memory] for the cache, named [id]:
    [None] when it stops the process, [Some None] when it is still running
    after [n] turns, else the exit status, the memory and the process. *)
Definition loop_cache (fuel n : nat) (profile : memory_profile) (id : nat) (memory : Z)
    (bytes buf : list Z) (entry stack_entry signum parent_target : Z) (p : process) (m : mem) :
    option (option (Z * mem * process)) :=
  let cfg := cache_memory_config profile in
  let backend := createBackend (be_context_size cfg) in
  handle ← createJitter (jitter_context_size cfg);
  let m := init m (tls_target (p_tls p)) entry stack_entry signum parent_target in
  w ← createCache id memory (cache_size cfg) bytes (p_caches p);
  '(st, stopped) ← loop_common (max_insn cfg) fuel n (Cache id w) entry handle backend buf m;
  if stopped : bool then
    match l_cache st with
    | Cache id' w =>
        w ← removeCache id' w;
        let '(status, m) := getExitStatus (l_mem st) in
        Some (Some (status, m, mkProcess (p_tls p) w))
    | CacheNone _ => None
    end
  else Some None.

(** [loop_nocache]: the contexts have the sizes of the first profile. *)
Definition loop_nocache (fuel n : nat) (memory : Z) (buf : list Z)
    (entry stack_entry signum parent_target : Z) (p : process) (m : mem) :
    option (option (Z * mem * process)) :=
  let cfg := cache_memory_config MEM_PROFILE_2M in
  let backend := createBackend (be_context_size cfg) in
  handle ← createJitter (jitter_context_size cfg);
  let m := init m (tls_target (p_tls p)) entry stack_entry signum parent_target in
  c ← createCacheNone memory MIN_CACHE_SIZE_NONE;
  '(st, stopped) ← loop_common (max_insn cfg) fuel n (CacheNone c) entry handle backend buf m;
  if stopped : bool then
    let '(status, m) := getExitStatus (l_mem st) in
    Some (Some (status, m, mkProcess (p_tls p) (p_caches p)))
  else Some None.

Definition loop (fuel n : nat) (profile : memory_profile) (id : nat) (memory : Z)
    (bytes buf : list Z) (entry stack_entry signum parent_target : Z) (p : process) (m : mem) :
    option (option (Z * mem * process)) :=
  if negb (signum =? 0)
  then loop_nocache fuel n memory buf entry stack_entry signum parent_target p m
  else loop_cache fuel n profile id memory bytes buf entry stack_entry signum parent_target p m.
End running.

(** ** Options *)

(** What [main] takes from the command line: the environment to add and to
    remove, a name for the program, two flags, and where the guest's own
    arguments start. *)
Record options := mkOptions {
  additionnal_env : list (option string);
  unset_env : list (option string);
  target_argv0 : option string;
  is_under_proot : bool;
  is_umeq_call_in_execve : bool;
  target_argv0_index : nat
}.

Inductive outcome :=
  | Options (o : options)
  | Version                    (** the version was displayed *)
  | Assert                     (** an assertion failed *)
  | Undefined.                 (** an access outside of an array *)

(** [argv[i]]: the terminating NULL is there, nothing after it. *)
Definition arg (argv : list string) (i : nat) : option (option string) :=
  if (i <? length argv)%nat then Some (argv !! i)
  else if (i =? length argv)%nat then Some None else None.

Definition env_size : nat := 16.

(** One turn of the loop on the options: [inl] to go on. *)
Definition option_step (argv : list string) (o : options) : options + outcome :=
  let i := target_argv0_index o in
  match arg argv i with
  | None => inr Undefined
  | Some None => inr (Options o)
  | Some (Some s) =>
      if decide (s = "-E"%string) then
        match arg argv (i + 1) with
        | Some v =>
            if (length (additionnal_env o) <? env_size)%nat
            then inl (mkOptions (additionnal_env o ++ [v]) (unset_env o) (target_argv0 o) true
                                (is_umeq_call_in_execve o) (i + 2))
            else inr Undefined
        | None => inr Undefined
        end
      else if decide (s = "-U"%string) then
        match arg argv (i + 1) with
        | Some v =>
            if (length (unset_env o) <? env_size)%nat
            then inl (mkOptions (additionnal_env o) (unset_env o ++ [v]) (target_argv0 o) true
                                (is_umeq_call_in_execve o) (i + 2))
            else inr Undefined
        | None => inr Undefined
        end
      else if decide (s = "-0"%string) then
        match arg argv (i + 1) with
        | Some v => inl (mkOptions (additionnal_env o) (unset_env o) v true
                                   (is_umeq_call_in_execve o) (i + 2))
        | None => inr Undefined
        end
      else if decide (s = "-execve"%string) then
        inl (mkOptions (additionnal_env o) (unset_env o) (target_argv0 o) (is_under_proot o) true (i + 1))
      else if decide (s = "-version"%string) then inr Version
      else inr (Options o)
  end.

Fixpoint option_loop (fuel : nat) (argv : list string) (o : options) : option outcome :=
  match fuel with
  | O => None
  | S fuel =>
      match option_step argv o with
      | inl o => option_loop fuel argv o
      | inr r => Some r
      end
  end.

(** The assertions after the loop. *)
Definition option_asserts (o : options) : outcome :=
  if (length (additionnal_env o) <? env_size)%nat && (length (unset_env o) <? env_size)%nat then
    if is_umeq_call_in_execve o then
      if bool_decide (is_Some (target_argv0 o))
      then Options (mkOptions (additionnal_env o) (unset_env o) (target_argv0 o) false true
                              (target_argv0_index o))
      else Assert
    else Options o
  else Assert.

(** The option part of [main].  Each turn moves forward, so one turn per
    argument and one more are enough. *)
Definition parse_options (argv : list string) : option outcome :=
  r ← option_loop (S (length argv)) argv (mkOptions [] [] None false false 1);
  Some (match r with Options o => option_asserts o | r => r end).

(** ** Profiles *)

Section profiles.
(** What [loop_cache] and [loop_common] take on the stack. *)
Definition stack_use (p : memory_profile) : Z :=
  let cfg := cache_memory_config p in
  be_context_size cfg + jitter_context_size cfg + cache_size cfg + jitBuffer_size.

Definition profile_limit (p : memory_profile) : Z :=
  match p with
  | MEM_PROFILE_2M => 2 * MB | MEM_PROFILE_4M => 4 * MB
  | MEM_PROFILE_8M => 8 * MB | MEM_PROFILE_16M => 16 * MB
  end.

Lemma profile_of_limit_Some l p :
  profile_of_limit l = Some p ->
  profile_limit p <= l /\ forall p', profile_limit p' <= l -> profile_limit p' <= profile_limit p.
Proof.
  unfold profile_of_limit.
  destruct (Z.leb_spec (16 * MB) l); [|destruct (Z.leb_spec (8 * MB) l);
    [|destruct (Z.leb_spec (4 * MB) l); [|destruct (Z.leb_spec (2 * MB) l); [|done]]]];
    intros [= <-]; (split; [done|]); intros []; unfold profile_limit, MB, KB in *; lia.
Qed.

Lemma profile_of_limit_None l : profile_of_limit l = None -> l < 2 * MB.
Proof.
  unfold profile_of_limit.
  destruct (Z.leb_spec (16 * MB) l); [done|]. destruct (Z.leb_spec (8 * MB) l); [done|].
  destruct (Z.leb_spec (4 * MB) l); [done|]. by destruct (Z.leb_spec (2 * MB) l).
Qed.

Lemma stack_use_limit p : stack_use p + 880 * KB <= profile_limit p.
Proof. destruct p; vm_compute; discriminate. Qed.
End profiles.

(** ** Options, rendered and read back *)

Inductive cli_option := OptE (v : string) | OptU (v : string) | Opt0 (v : string) | OptExecve.

Definition render_option (o : cli_option) : list string :=
  match o with
  | OptE v => ["-E"; v] | OptU v => ["-U"; v] | Opt0 v => ["-0"; v] | OptExecve => ["-execve"]
  end%string.

Definition apply_option (o : options) (c : cli_option) : options :=
  let n := (target_argv0_index o + length (render_option c))%nat in
  match c with
  | OptE v => mkOptions (additionnal_env o ++ [Some v]) (unset_env o) (target_argv0 o) true
                        (is_umeq_call_in_execve o) n
  | OptU v => mkOptions (additionnal_env o) (unset_env o ++ [Some v]) (target_argv0 o) true
                        (is_umeq_call_in_execve o) n
  | Opt0 v => mkOptions (additionnal_env o) (unset_env o) (Some v) true (is_umeq_call_in_execve o) n
  | OptExecve => mkOptions (additionnal_env o) (unset_env o) (target_argv0 o) (is_under_proot o) true n
  end.

(** What a list of options means, the last ones first in effect. *)
Definition apply_options (cs : list cli_option) (o : options) : options := foldl apply_option o cs.

Definition is_option (s : string) : bool :=
  bool_decide (s ∈ ["-E"; "-U"; "-0"; "-execve"; "-version"]%string).

Section options.
Context (argv : list string).

Lemma arg_lt i s : argv !! i = Some s -> arg argv i = Some (Some s).
Proof.
  intros Hi. unfold arg. rewrite (proj2 (Nat.ltb_lt _ _)) by (by eapply lookup_lt_Some). by rewrite Hi.
Qed.

Lemma option_step_option o c :
  (forall k s, render_option c !! k = Some s -> argv !! (target_argv0_index o + k)%nat = Some s) ->
  (length (additionnal_env (apply_option o c)) <= env_size)%nat ->
  (length (unset_env (apply_option o c)) <= env_size)%nat ->
  option_step argv o = inl (apply_option o c).
Proof.
  intros Ha He Hu. pose proof (Ha 0%nat) as H0. rewrite Nat.add_0_r in H0.
  pose proof (Ha 1%nat) as H1. unfold option_step.
  destruct c as [v|v|v|]; cbn [render_option] in H0, H1; specialize (H0 _ eq_refl);
    rewrite (arg_lt _ _ H0); cbn [apply_option additionnal_env unset_env] in He, Hu;
    rewrite ?List.length_app in He; rewrite ?List.length_app in Hu;
    cbn [Datatypes.length] in He, Hu;
    repeat (rewrite decide_False by done); rewrite decide_True by done; try done;
    rewrite (arg_lt _ _ (H1 _ eq_refl)); try rewrite (proj2 (Nat.ltb_lt _ _)) by lia; done.
Qed.

Lemma apply_options_grow cs o :
  (length (additionnal_env o) <= length (additionnal_env (apply_options cs o)))%nat /\
  (length (unset_env o) <= length (unset_env (apply_options cs o)))%nat.
Proof.
  revert o. induction cs as [|c cs IH]; intros o; [done|]. destruct (IH (apply_option o c)) as [H1 H2].
  cbn [apply_options foldl]. fold (apply_options cs (apply_option o c)).
  assert (length (additionnal_env o) <= length (additionnal_env (apply_option o c)) /\
          length (unset_env o) <= length (unset_env (apply_option o c)))%nat.
  { destruct c; cbn [apply_option additionnal_env unset_env]; rewrite ?List.length_app; lia. }
  lia.
Qed.

Lemma option_loop_options cs rest o fuel :
  drop (target_argv0_index o) argv = (cs ≫= render_option) ++ rest ->
  (length (additionnal_env (apply_options cs o)) <= env_size)%nat ->
  (length (unset_env (apply_options cs o)) <= env_size)%nat ->
  option_loop (length cs + fuel) argv o = option_loop fuel argv (apply_options cs o) /\
  drop (target_argv0_index (apply_options cs o)) argv = rest.
Proof.
  revert o. induction cs as [|c cs IH]; intros o Hd He Hu; [done|].
  cbn [apply_options foldl] in He, Hu |- *. fold (apply_options cs (apply_option o c)) in He, Hu |- *.
  destruct (apply_options_grow cs (apply_option o c)).
  cbn [Datatypes.length Nat.add option_loop]. rewrite (option_step_option o c); [|clear IH|lia|lia].
  - apply IH; [|done|done]. replace (target_argv0_index (apply_option o c))
      with (target_argv0_index o + length (render_option c))%nat by (by destruct c).
    rewrite <- drop_drop, Hd. cbn. by rewrite <- app_assoc, drop_app_length.
  - intros k s Hk. rewrite <- lookup_drop, Hd. cbn. rewrite <- app_assoc. by apply lookup_app_l_Some.
Qed.

Lemma option_step_program o prog rest :
  drop (target_argv0_index o) argv = prog :: rest -> is_option prog = false ->
  option_step argv o = inr (Options o).
Proof.
  intros Hd Hp. unfold option_step.
  assert (Hi : argv !! target_argv0_index o = Some prog).
  { rewrite <- (Nat.add_0_r (target_argv0_index o)), <- lookup_drop, Hd. done. }
  rewrite (arg_lt _ _ Hi). apply bool_decide_eq_false in Hp. rewrite !not_elem_of_cons in Hp.
  destruct Hp as (? & ? & ? & ? & ? & _). by rewrite !decide_False.
Qed.
End options.

(** ** The list of caches around the loop *)

Section root.
Context `{Target} `{Host}.

Lemma clean_if_needed_root w : root (clean_if_needed w) = root w.
Proof. unfold clean_if_needed. by destruct (is_cache_clean_need w). Qed.

(** A turn works on its own cache and leaves the list as it is. *)
Lemma loop_body_root n f st st' id w :
  loop_body n f st = Some st' -> l_cache st = Cache id w ->
  exists w', l_cache st' = Cache id w' /\ root w' = root w.
Proof.
  unfold loop_body. intros Hb Ho. rewrite Ho in Hb. cbn [lookup_cache] in Hb. unfold lookup_in in Hb.
  cbv zeta in Hb. pose proof (clean_if_needed_root w) as Hr. set (w1 := clean_if_needed w) in *.
  destruct (cache_store w1 !! id) as [c|]; [|done]. cbn [mbind option_bind] in Hb.
  destruct (cache_lookup c (currentPc st)) as [[[c1 p] ev]|]; [|done]. cbn [mbind option_bind] in Hb.
  set (w2 := mkCaches _ _ _) in Hb. assert (Hr2 : root w2 = root w) by done.
  assert (Hex : forall j be buf a w3, root w3 = root w -> forall st'',
    execute_block f (Cache id w3) j be buf a st = Some st'' ->
    exists w', l_cache st'' = Cache id w' /\ root w' = root w).
  { intros j be buf a w3 Hw st'' He. unfold execute_block in He.
    destruct (code_area _ _) as [[b base]|]; [|done]. cbn [mbind option_bind] in He.
    destruct (execute _ _ _ _ _ _) as [[[r l] m]|]; [|done]. injection He as <-. by eexists. }
  destruct (negb (p =? 0)); [by eapply Hex|].
  destruct (irAlloc_session _ _) as [[[] j]|]; [|done]. cbn [mbind option_bind] in Hb.
  destruct (jitCode _ _ _ _) as [[[sz buf] be]|]; [|done]. cbn [mbind option_bind] in Hb.
  destruct (0 <? sz); [|done]. cbn [append_cache] in Hb. unfold append_in in Hb.
  destruct (cache_store w2 !! id) as [c2|]; [|done]. cbn [mbind option_bind] in Hb.
  destruct (cache_append c2 _ _) as [[[c3 a] ev2]|]; [|done]. cbn [mbind option_bind] in Hb.
  set (w3 := mkCaches _ _ _) in Hb. assert (Hr3 : root w3 = root w) by done.
  destruct (_ && _ && _)%bool; [|cbn [mbind option_bind] in Hb; eapply Hex; [|exact Hb]; done].
  cbn [patch_cache] in Hb. destruct (cache_store w3 !! id) as [c4|]; [|done]. cbn [mbind option_bind] in Hb.
  destruct (area c4 <=? _); [|done]. destruct (patch _ _ _) as [bs|]; [|done].
  cbn [mbind option_bind] in Hb. eapply Hex; [|exact Hb]. done.
Qed.

Lemma loop_turns_root n f k st st' b id w :
  loop_turns n f k st = Some (st', b) -> l_cache st = Cache id w ->
  exists w', l_cache st' = Cache id w' /\ root w' = root w.
Proof.
  revert st w. induction k as [|k IH]; intros st w Hl Ho; cbn [loop_turns] in Hl;
    destruct (isLooping (l_mem st)) as [[] m]; try (injection Hl as <- _; exists w; split; [exact Ho|reflexivity]).
  destruct (loop_body n f st) as [st1|] eqn:E; [|done]. cbn [mbind option_bind] in Hl.
  destruct (loop_body_root _ _ _ _ _ _ E Ho) as (w1 & Ho1 & <-). by eapply IH.
Qed.
End root.

(** ** Properties *)

(** The memory profile fits the stack.  When [setup_memory_profile]
    returns a profile after reading the limits, the contexts, the cache and the
    code buffer of the loop leave at least 880 KB of the soft limit in force;
    no larger profile has its limit granted; and it stops the process only when
    that limit is below 2 MB. *)
Theorem memory_profile_fits rlim_cur rlim_max setrlimit profile :
  let lim := raise_soft_limit setrlimit rlim_cur rlim_max in
  match setup_memory_profile (Some (rlim_cur, rlim_max)) setrlimit profile with
  | Some p => stack_use p + 880 * KB <= lim /\
      forall p', profile_limit p' <= lim -> profile_limit p' <= profile_limit p
  | None => lim < 2 * MB
  end.
Proof.
  intros lim. unfold setup_memory_profile. fold lim.
  destruct (profile_of_limit lim) as [p|] eqn:E; [|by apply profile_of_limit_None].
  destruct (profile_of_limit_Some _ _ E) as [H1 H2]. split; [|exact H2].
  pose proof (stack_use_limit p). lia.
Qed.

(** The soft limit is raised when it can be: it never goes down, never above
    the hard limit, and when the system grants what is asked for, either it was
    raised to the largest of 16, 8, 4 and 2 MB that the hard limit allows, or it
    was at least that already, or no limit of at least 2 MB is allowed. *)
Theorem soft_limit_raised rlim_cur rlim_max setrlimit :
  0 <= rlim_cur <= rlim_max ->
  let lim := raise_soft_limit setrlimit rlim_cur rlim_max in
  rlim_cur <= lim <= rlim_max /\
  ((forall l, setrlimit l = true) ->
   forall p, profile_limit p <= rlim_max -> profile_limit p <= lim).
Proof.
  intros Hr lim. unfold lim, raise_soft_limit, wanted_soft_limit.
  destruct (Z.ltb_spec rlim_cur rlim_max) as [Hlt|Hge].
  - rewrite !andb_true_r.
    assert (Hcase : forall want, want <= rlim_max ->
      (forall p, profile_limit p <= rlim_max -> profile_limit p <= want) ->
      let l := if rlim_cur <? want then if setrlimit want then want else rlim_cur else rlim_cur in
      rlim_cur <= l <= rlim_max /\
      ((forall l, setrlimit l = true) -> forall p, profile_limit p <= rlim_max -> profile_limit p <= l)).
    { intros want Hw Hmax. cbv zeta.
      destruct (Z.ltb_spec rlim_cur want); [destruct (setrlimit want) eqn:Es|];
        (split; [lia|]); intros Hs p Hp; specialize (Hmax p Hp); [lia|by rewrite Hs in Es|lia]. }
    destruct (Z.leb_spec (16 * MB) rlim_max); [|destruct (Z.leb_spec (8 * MB) rlim_max);
      [|destruct (Z.leb_spec (4 * MB) rlim_max); [|destruct (Z.leb_spec (2 * MB) rlim_max)]]];
      apply Hcase; try lia; intros []; unfold profile_limit, MB, KB in *; lia.
  - rewrite !andb_false_r. replace (rlim_cur <? 0) with false by lia. split; [lia|].
    intros _ p Hp. lia.
Qed.

Lemma soft_limit_raised_witness :
  8 * MB <= raise_soft_limit (fun _ => true) (1 * MB) (12 * MB) <= 12 * MB.
Proof.
  destruct (soft_limit_raised (1 * MB) (12 * MB) (fun _ => true)) as [H1 H2].
  { split; vm_compute; discriminate. }
  split; [|apply H1]. apply (H2 (fun _ => eq_refl) MEM_PROFILE_8M). vm_compute. discriminate.
Defined.

(** Options are read back.  For at most fifteen [-E] and fifteen [-U]
    options, in any order with [-0] and [-execve], the last with a name, the
    option part of [main] collects exactly the values given, in order, the last
    name, and stops at the first argument that is no option, whatever follows. *)
Theorem parse_render_options umeq cs prog rest :
  let o := apply_options cs (mkOptions [] [] None false false 1) in
  is_option prog = false ->
  (length (additionnal_env o) < env_size)%nat -> (length (unset_env o) < env_size)%nat ->
  (is_umeq_call_in_execve o = true -> is_Some (target_argv0 o)) ->
  parse_options (umeq :: (cs ≫= render_option) ++ prog :: rest) =
    Some (Options (mkOptions (additionnal_env o) (unset_env o) (target_argv0 o)
                     (is_under_proot o && negb (is_umeq_call_in_execve o))
                     (is_umeq_call_in_execve o) (target_argv0_index o))).
Proof.
  intros o Hp He Hu Hx. unfold parse_options.
  set (argv := umeq :: (cs ≫= render_option) ++ prog :: rest).
  destruct (option_loop_options argv cs (prog :: rest) (mkOptions [] [] None false false 1)
              (S (length argv) - length cs)) as [E Hd]; [done|fold o; lia|fold o; lia|].
  fold o in E, Hd.
  assert (Hlen : (length cs <= length argv)%nat).
  { unfold argv. cbn. rewrite List.length_app. clear. induction cs as [|c cs IH]; [cbn; lia|].
    cbn. rewrite List.length_app. destruct c; cbn in *; lia. }
  replace (length cs + (S (length argv) - length cs))%nat with (S (length argv)) in E by lia.
  rewrite E. destruct (S (length argv) - length cs)%nat as [|k] eqn:Ek; [lia|].
  cbn [option_loop]. rewrite (option_step_program _ _ _ _ Hd Hp). cbn [mbind option_bind].
  unfold option_asserts. rewrite (proj2 (Nat.ltb_lt _ _) He), (proj2 (Nat.ltb_lt _ _) Hu). cbn [andb].
  destruct (is_umeq_call_in_execve o) eqn:Ee.
  - rewrite bool_decide_true by (by apply Hx). by rewrite andb_false_r.
  - rewrite andb_true_r. f_equal. f_equal. destruct o; cbn in *. by subst.
Qed.

Lemma parse_render_options_witness :
  parse_options ["umeq"; "-E"; "A=1"; "-0"; "sh"; "-E"; "B=2"; "/bin/sh"; "-E"]%string =
    Some (Options (mkOptions [Some "A=1"; Some "B=2"]%string [] (Some "sh"%string) true false 7)).
Proof.
  apply (parse_render_options "umeq" [OptE "A=1"; Opt0 "sh"; OptE "B=2"]%string "/bin/sh" ["-E"]%string);
    [reflexivity|vm_compute; lia|vm_compute; lia|discriminate].
Defined.

(** What is not checked in time: seventeen [-E] options write past the
    array before its size is asserted; an option that lacks its value makes the
    scan go past the end of the arguments; sixteen, which fit, are refused. *)
Theorem options_unchecked :
  parse_options ("umeq" :: concat (replicate 17 ["-E"; "A=1"]) ++ ["/bin/sh"])%string = Some Undefined /\
  parse_options ["umeq"; "-E"]%string = Some Undefined /\
  parse_options ("umeq" :: concat (replicate 16 ["-E"; "A=1"]) ++ ["/bin/sh"])%string = Some Assert.
Proof. split; [|split]; vm_compute; reflexivity. Qed.

(** ** The whole of [loop_cache] *)

Lemma loop_config_sizes p :
  JITTER_MIN_CONTEXT_SIZE <= jitter_context_size (cache_memory_config p) /\
  MIN_CACHE_SIZE <= cache_size (cache_memory_config p) /\
  2 ^ 16 <= cache_size (cache_memory_config p) - sizeof_internal_cache.
Proof. destruct p; split_and!; vm_compute; discriminate. Qed.

(** C32. [loop_cache] does its work.  With any memory profile, on memory of the
    sizes it allocates: a guest program that the front end describes properly
    and that from its [N]th block on does not want to go on ends within [N]
    turns, without an assertion failing, in a state it reaches by its meaning;
    the status is what the target answers for that state; the thread's context
    and the list of caches are those of before the call. *)
Theorem loop_cache_ends `{TargetArch} `{Host} `{Hcr : CallResults} {ir_call} `{!HelperAbi ir_call callee}
    profile id memory bytes buf entry stack_entry parent_target p m N j0 program :
  let cfg := cache_memory_config profile in
  let m0 := init m (tls_target (p_tls p)) entry stack_entry 0 parent_target in
  0 < memory -> memory + cache_size cfg < 2 ^ 64 -> Z.of_nat (length bytes) = cache_size cfg ->
  Z.of_nat (length buf) = jitBuffer_size ->
  createJitter (jitter_context_size cfg) = Some j0 ->
  runnable (ir_call := ir_call) (max_insn cfg) j0 (createBackend (be_context_size cfg)) program (entry, m0) ->
  (forall i s, nsteps (guest_next (ir_call := ir_call) (max_insn cfg) j0) i (entry, m0) s ->
     (N <= i)%nat -> (isLooping s.2).1 = false) ->
  exists fuel w' s m1 m2 status,
    loop fuel N profile id memory bytes buf entry stack_entry 0 parent_target p m =
      Some (Some (status, m2, mkProcess (p_tls p) w')) /\
    root w' = root (p_caches p) /\
    rtc (guest_next (ir_call := ir_call) (max_insn cfg) j0) (entry, m0) s /\
    isLooping s.2 = (false, m1) /\ getExitStatus m1 = (status, m2).
Proof.
  intros cfg m0 Hm Hms Hbytes Hbuf Hj Hrun Hstop. destruct (loop_config_sizes profile) as (_ & Hcs & H16).
  fold cfg in Hcs, H16.
  destruct (new_cache_represents memory (cache_size cfg) bytes Hm Hms Hcs Hbytes)
    as (c & Hc & Hrep & _ & _ & Hsize).
  set (w := ll_append_cache id (mkCaches (root (p_caches p)) (<[id := c]> (cache_store (p_caches p)))
                                          (is_cache_clean_need (p_caches p)))).
  assert (Hcreate : createCache id memory (cache_size cfg) bytes (p_caches p) = Some w)
    by (unfold createCache; by rewrite Hc).
  assert (Hse : starts_empty (Cache id w) buf).
  { constructor; [|done]. exists id, w, c. split; [done|]. split; [apply lookup_insert_eq|].
    split; [done|]. by rewrite Hsize. }
  destruct (loop_turns_end (max_insn cfg) j0 (createBackend (be_context_size cfg)) program (entry, m0) N N 0
              (loop_init (Cache id w) entry j0 (createBackend (be_context_size cfg)) buf m0) Hrun Hstop)
    as (fuel & st & m1 & E & Hr & Hl); [by apply loop_init_ok|constructor|lia|].
  destruct (loop_turns_root _ _ _ _ _ _ id w E eq_refl) as (w1 & Ho & Hroot).
  destruct (getExitStatus m1) as [status m2] eqn:Es.
  exists fuel, (mkCaches (root (p_caches p)) (cache_store w1) (is_cache_clean_need w1)),
    (currentPc st, l_mem st), m1, m2, status.
  split; [|by split_and!]. unfold loop. cbn [Z.eqb negb]. unfold loop_cache. fold cfg. rewrite Hj.
  cbn [mbind option_bind]. fold m0. rewrite Hcreate. cbn [mbind option_bind]. unfold loop_common.
  rewrite E. cbn [mbind option_bind]. rewrite Ho. unfold removeCache, ll_remove_cache. rewrite Hroot.
  cbn [w ll_append_cache root ll_remove]. rewrite decide_True by done. cbn [mbind option_bind].
  cbn [set_loop_mem l_mem]. by rewrite Es.
Qed.

#[program] Definition stop_arch : TargetArch := {|
  ta_target := stop_target;
  init := fun m _ _ _ _ _ => m;
  getExitStatus := fun m => (7, m)
|}.

Definition profile_jitter : jitter := default fresh_jitter (createJitter (64 * KB)).

Lemma stop_arch_next s s' :
  @guest_next stop_target demo_host demo_ir_call 10 profile_jitter s s' ->
  (@isLooping stop_target s'.2).1 = false.
Proof.
  destruct s as [pc m]. unfold guest_next, guest_step, guest_block. intros Hs.
  vm_compute in Hs. injection Hs as <-. vm_compute. reflexivity.
Qed.

Lemma stop_arch_runnable m :
  @runnable stop_target demo_host demo_results demo_ir_call 10 profile_jitter (createBackend (64 * KB)) (fun pc => @disassemble stop_target m pc 10) (100, m).
Proof.
  constructor.
  - split; [discriminate|reflexivity].
  - intros s _. reflexivity.
  - intros [pc m'] _. vm_compute. reflexivity.
  - intros [pc m'] _. eexists. unfold guest_next, guest_step, guest_block. vm_compute. reflexivity.
Qed.

Lemma loop_cache_ends_witness :
  exists fuel w' m2, @loop stop_arch demo_host fuel 1 MEM_PROFILE_2M 3 4096
      (replicate (Z.to_nat (1 * MB)) 0) (replicate (Z.to_nat jitBuffer_size) 0) 100 0 0 0
      (mkProcess (mkTls 0 0 None) (mkCaches [] ∅ false)) (demo_guest 0) =
    Some (Some (7, m2, mkProcess (mkTls 0 0 None) w')) /\ root w' = [].
Proof.
  destruct (@loop_cache_ends stop_arch demo_host demo_results demo_ir_call demo_loop_abi MEM_PROFILE_2M 3 4096
              (replicate (Z.to_nat (1 * MB)) 0) (replicate (Z.to_nat jitBuffer_size) 0) 100 0 0
              (mkProcess (mkTls 0 0 None) (mkCaches [] ∅ false)) (demo_guest 0) 1 profile_jitter
              (fun pc => @disassemble stop_target (demo_guest 0) pc 10))
    as (fuel & w' & s & m1 & m2 & status & E & Hr & _ & _ & Hs).
  - reflexivity.
  - reflexivity.
  - rewrite length_replicate. apply Z2Nat.id. discriminate.
  - rewrite length_replicate. apply Z2Nat.id. discriminate.
  - reflexivity.
  - exact (stop_arch_runnable (demo_guest 0)).
  - intros i s Hs Hi. destruct i as [|i]; [inversion Hi|].
    apply nsteps_inv_r in Hs as (s1 & _ & Hs). exact (stop_arch_next s1 s Hs).
  - injection Hs as <- <-. exists fuel, w', m1. split; [exact E|exact Hr].
Defined.
