(* ===== verification/Mutex.v ===== *)
(** * The mutex of the static binary ([src/src/runtime/pthread.c])

    umeq is linked without a C library: [pthread_mutex_lock] and
    [pthread_mutex_unlock], which guard the list of caches and the address
    space of the guest, are a futex word and the two functions [ll_lock] and
    [ll_unlock].  A thread is the point of these functions it is at; the
    atomic accesses to the word and the two system calls are the steps, taken
    in any order by any number of threads.

    Of [futex(2)] the model has what is documented: [FUTEX_WAIT] compares the
    word and puts the thread to sleep in one step, or returns at once;
    [FUTEX_WAKE] with 1 wakes one of the sleepers, whichever, if there is one;
    a sleeper may also return for no reason. *)

From S2P Require Import Prelude.

(** ** Threads *)

Inductive point :=
  | Idle                        (** outside of the lock *)
  | LockCas                     (** [__sync_val_compare_and_swap(addr, 0, 1)] *)
  | LockClaim                   (** [__sync_val_compare_and_swap(addr, 1, 2)] *)
  | LockWait                    (** calling [futex_wait] *)
  | Asleep                      (** in [futex_wait] *)
  | LockRetry                   (** [__sync_bool_compare_and_swap(addr, 0, 2)] *)
  | Critical                    (** the lock is held *)
  | UnlockRead                  (** [oldval = *addr] *)
  | UnlockCas (oldval : Z)      (** [__sync_bool_compare_and_swap(addr, oldval, 0)] *)
  | UnlockWake.                 (** calling [futex_wake] *)

#[global] Instance point_eq_dec : EqDecision point.
Proof. solve_decision. Defined.

(** The value before, and the word after. *)
Definition val_compare_and_swap (word old new : Z) : Z * Z :=
  (word, if word =? old then new else word).

Definition bool_compare_and_swap (word old new : Z) : bool * Z :=
  (word =? old, if word =? old then new else word).

(** One step of [ll_lock]; [None] where it does not take steps by itself. *)
Definition ll_lock_step (word : Z) (p : point) : option (Z * point) :=
  match p with
  | LockCas =>
      let '(old, word) := val_compare_and_swap word 0 1 in
      Some (word, if negb (old =? 0) then LockClaim else Critical)
  | LockClaim =>
      let '(oldval, word) := val_compare_and_swap word 1 2 in
      Some (word, if negb (oldval =? 0) then LockWait else LockRetry)
  | LockWait => Some (word, if word =? 2 then Asleep else LockRetry)
  | LockRetry =>
      let '(done, word) := bool_compare_and_swap word 0 2 in
      Some (word, if done : bool then Critical else LockClaim)
  | _ => None
  end.

(** One step of [ll_unlock], the call to [futex_wake] apart. *)
Definition ll_unlock_step (word : Z) (p : point) : option (Z * point) :=
  match p with
  | UnlockRead => Some (word, UnlockCas word)
  | UnlockCas oldval =>
      let '(done, word) := bool_compare_and_swap word oldval 0 in
      Some (word, if done : bool then if 1 <? oldval then UnlockWake else Idle else UnlockRead)
  | _ => None
  end.

Definition own_step (word : Z) (p : point) : option (Z * point) :=
  match ll_lock_step word p with Some r => Some r | None => ll_unlock_step word p end.

(** ** The threads together *)

Record mutex := mkMutex { lock : Z; threads : list point }.

(** Steps that finish the calls in progress: those of the threads, the wake up
    of a sleeper or of none, and the end of what the lock protects. *)
Inductive finish : mutex -> mutex -> Prop :=
  | finish_own w w' l i p p' :
      l !! i = Some p -> own_step w p = Some (w', p') ->
      finish (mkMutex w l) (mkMutex w' (<[i := p']> l))
  | finish_wake w l i j :
      l !! i = Some UnlockWake -> l !! j = Some Asleep ->
      finish (mkMutex w l) (mkMutex w (<[j := LockRetry]> (<[i := Idle]> l)))
  | finish_wake_none w l i :
      l !! i = Some UnlockWake -> Asleep ∉ l ->
      finish (mkMutex w l) (mkMutex w (<[i := Idle]> l))
  | finish_unlock w l i :
      l !! i = Some Critical -> finish (mkMutex w l) (mkMutex w (<[i := UnlockRead]> l)).

(** Any step: also a call of [pthread_mutex_lock], and a [futex_wait] that
    returns for no reason. *)
Inductive mutex_step : mutex -> mutex -> Prop :=
  | step_finish s s' : finish s s' -> mutex_step s s'
  | step_call w l i :
      l !! i = Some Idle -> mutex_step (mkMutex w l) (mkMutex w (<[i := LockCas]> l))
  | step_spurious w l i :
      l !! i = Some Asleep -> mutex_step (mkMutex w l) (mkMutex w (<[i := LockRetry]> l)).

(** [PTHREAD_MUTEX_INITIALIZER], for [n] threads. *)
Definition mutex_init (n : nat) : mutex := mkMutex 0 (replicate n Idle).

(** ** The lock it stands for *)

(** What a caller sees of a thread. *)
Inductive phase := Away | Asking | Holding.

Definition phase_of (p : point) : phase :=
  match p with
  | Idle | UnlockWake => Away
  | LockCas | LockClaim | LockWait | Asleep | LockRetry => Asking
  | Critical | UnlockRead | UnlockCas _ => Holding
  end.

(** An atomic lock: it is only taken when nobody holds it. *)
Inductive lock_step : list phase -> list phase -> Prop :=
  | lock_ask l i : l !! i = Some Away -> lock_step l (<[i := Asking]> l)
  | lock_take l i : l !! i = Some Asking -> Holding ∉ l -> lock_step l (<[i := Holding]> l)
  | lock_release l i : l !! i = Some Holding -> lock_step l (<[i := Away]> l).

(** ** Counting threads *)

Fixpoint total (f : point -> Z) (l : list point) : Z :=
  match l with
  | [] => 0
  | p :: l => f p + total f l
  end.

Lemma total_insert f l i p p' :
  l !! i = Some p -> total f (<[i := p']> l) = total f l - f p + f p'.
Proof.
  revert i. induction l as [|q l IH]; [done|]. intros [|i]; simpl.
  - intros [= ->]. lia.
  - intros Hi. rewrite (IH i Hi). lia.
Qed.

Section nonnegative.
Context (f : point -> Z) (Hf : forall p, 0 <= f p).

Lemma total_nonneg l : 0 <= total f l.
Proof. induction l as [|q l IH]; simpl; [lia|]. pose proof (Hf q). lia. Qed.

Lemma total_ge l i p : l !! i = Some p -> f p <= total f l.
Proof.
  revert i. induction l as [|q l IH]; [done|]. intros [|i]; simpl.
  - intros [= ->]. pose proof (total_nonneg l). lia.
  - intros Hi. specialize (IH i Hi). pose proof (Hf q). lia.
Qed.

Lemma total_ge2 l i j p q : i <> j -> l !! i = Some p -> l !! j = Some q -> f p + f q <= total f l.
Proof.
  revert i j. induction l as [|r l IH]; [done|]. intros [|i] [|j] Hij; simpl; [done|..].
  - intros [= ->] Hj. pose proof (total_ge l j q Hj). lia.
  - intros Hi [= ->]. pose proof (total_ge l i p Hi). lia.
  - intros Hi Hj. assert (Hne : i <> j) by congruence. specialize (IH i j Hne Hi Hj). pose proof (Hf r). lia.
Qed.
End nonnegative.

Lemma total_pos f l : 0 < total f l -> exists i p, l !! i = Some p /\ 0 < f p.
Proof.
  induction l as [|q l IH]; simpl; [lia|]. intros H.
  destruct (decide (0 < f q)) as [Hq|Hq]; [by exists O, q|].
  destruct IH as (i & p & Hi & Hp); [lia|]. by exists (S i), p.
Qed.

Lemma total_replicate f n p : total f (replicate n p) = Z.of_nat n * f p.
Proof. induction n as [|n IH]; [done|]. cbn [replicate total]. rewrite IH. lia. Qed.

Lemma total_bound f l k : (forall p, f p <= k) -> total f l <= k * Z.of_nat (length l).
Proof. intros Hf. induction l as [|q l IH]; simpl; [lia|]. pose proof (Hf q). lia. Qed.

(** ** The invariant *)

Definition holding (p : point) : Z :=
  match p with Critical | UnlockRead | UnlockCas _ => 1 | _ => 0 end.
Definition asleep (p : point) : Z := match p with Asleep => 1 | _ => 0 end.

(** Threads that will look at the word again, or wake one that will. *)
Definition rescuing (p : point) : Z :=
  match p with LockClaim | LockWait | LockRetry | UnlockWake => 1 | _ => 0 end.

Lemma holding_nonneg p : 0 <= holding p. Proof. by destruct p. Qed.
Lemma asleep_nonneg p : 0 <= asleep p. Proof. by destruct p. Qed.
Lemma rescuing_nonneg p : 0 <= rescuing p. Proof. by destruct p. Qed.

#[local] Hint Resolve holding_nonneg asleep_nonneg rescuing_nonneg : core.

Record mutex_ok (s : mutex) : Prop := mkMutexOk {
  mx_word : lock s = 0 \/ lock s = 1 \/ lock s = 2;
  mx_held : total holding (threads s) = if lock s =? 0 then 0 else 1;
  mx_rescue : 0 < total asleep (threads s) -> lock s = 2 \/ 0 < total rescuing (threads s)
}.

Lemma mutex_init_ok n : mutex_ok (mutex_init n).
Proof. constructor; cbn [mutex_init lock threads]; rewrite ?total_replicate; cbn; lia. Qed.

(** All totals after an update, from those before. *)
Ltac update_totals :=
  repeat match goal with
  | H : ?l !! ?i = Some ?p |- context [total ?f (<[?i := ?q]> ?l)] =>
      rewrite (total_insert f l i p q H)
  end.

(** The totals are nonnegative and count the threads at hand. *)
Ltac count_thread Hi :=
  match type of Hi with
  | ?l !! ?i = Some ?p =>
      pose proof (total_ge holding holding_nonneg l i p Hi);
      pose proof (total_ge asleep asleep_nonneg l i p Hi);
      pose proof (total_ge rescuing rescuing_nonneg l i p Hi)
  end.

Lemma own_step_ok w w' l i p p' :
  mutex_ok (mkMutex w l) -> l !! i = Some p -> own_step w p = Some (w', p') ->
  mutex_ok (mkMutex w' (<[i := p']> l)).
Proof.
  intros [Hw Hh Hr] Hi Hs. count_thread Hi. cbn [lock threads] in *.
  destruct p as [| | | | | | | |old|]; try discriminate Hs;
    unfold own_step, ll_lock_step, ll_unlock_step, val_compare_and_swap, bool_compare_and_swap in Hs;
    try (destruct (Z.eqb_spec w old); [subst old|]);
    destruct Hw as [-> | [-> | ->]]; cbn in Hs; injection Hs as <- <-;
    constructor; cbn [lock threads]; update_totals; cbn in *; lia.
Qed.

Lemma finish_ok s s' : finish s s' -> mutex_ok s -> mutex_ok s'.
Proof.
  intros [w w' l i p p' Hi Hs|w l i j Hi Hj|w l i Hi Hn|w l i Hi] Hok.
  - by eapply own_step_ok.
  - destruct Hok as [Hw Hh Hr]. cbn [lock threads] in *.
    assert (Hij : i <> j) by (intros ->; rewrite Hi in Hj; discriminate).
    assert (Hj' : <[i:=Idle]> l !! j = Some Asleep) by by rewrite list_lookup_insert_ne.
    constructor; cbn [lock threads]; update_totals; cbn; lia.
  - destruct Hok as [Hw Hh Hr]. cbn [lock threads] in *.
    constructor; cbn [lock threads]; update_totals; cbn; [lia|lia|].
    assert (Hz : ~ 0 < total asleep l).
    { intros (k & [] & Hk & Hp)%total_pos; cbn in Hp; try lia. apply Hn. by eapply list_elem_of_lookup_2. }
    lia.
  - destruct Hok as [Hw Hh Hr]. constructor; cbn [lock threads] in *; update_totals; cbn; lia.
Qed.

Lemma mutex_step_ok s s' : mutex_step s s' -> mutex_ok s -> mutex_ok s'.
Proof.
  intros [s1 s2 Hf|w l i Hi|w l i Hi] Hok; [by eapply finish_ok| |];
    destruct Hok as [Hw Hh Hr]; constructor; cbn [lock threads] in *; update_totals; cbn; lia.
Qed.

Lemma mutex_steps_ok s s' : rtc mutex_step s s' -> mutex_ok s -> mutex_ok s'.
Proof. induction 1; eauto using mutex_step_ok. Qed.

(** ** Refinement *)

Lemma fmap_same (l : list point) i p p' :
  l !! i = Some p -> phase_of p' = phase_of p -> phase_of <$> <[i := p']> l = phase_of <$> l.
Proof.
  intros Hi Hp. rewrite list_fmap_insert, Hp. apply list_insert_id. by rewrite list_lookup_fmap, Hi.
Qed.

Lemma nobody_holds l : total holding l = 0 -> Holding ∉ phase_of <$> l.
Proof.
  intros H (p & Hp & (i & Hi)%list_elem_of_lookup_1)%list_elem_of_fmap.
  pose proof (total_ge holding holding_nonneg l i p Hi). destruct p; cbn in *; try discriminate Hp; lia.
Qed.

(** What a step of the word does to the phase of its thread. *)
Lemma own_step_phase w w' p p' :
  own_step w p = Some (w', p') ->
  phase_of p' = phase_of p \/ (phase_of p = Asking /\ phase_of p' = Holding /\ w = 0) \/
  (phase_of p = Holding /\ phase_of p' = Away).
Proof.
  intros Hs. destruct p as [| | | | | | | |old|]; try discriminate Hs;
    unfold own_step, ll_lock_step, ll_unlock_step, val_compare_and_swap, bool_compare_and_swap in Hs.
  - destruct (Z.eqb_spec w 0); injection Hs as <- <-; cbn; auto.
  - destruct (Z.eqb_spec w 0); injection Hs as <- <-; cbn; auto.
  - destruct (Z.eqb_spec w 2); injection Hs as <- <-; cbn; auto.
  - destruct (Z.eqb_spec w 0); injection Hs as <- <-; cbn; auto.
  - injection Hs as <- <-; cbn; auto.
  - destruct (Z.eqb_spec w old), (Z.ltb_spec 1 old); injection Hs as <- <-; cbn; auto.
Qed.

Lemma own_step_refines w w' l i p p' :
  mutex_ok (mkMutex w l) -> l !! i = Some p -> own_step w p = Some (w', p') ->
  rtc lock_step (phase_of <$> l) (phase_of <$> <[i := p']> l).
Proof.
  intros [_ Hh _] Hi Hs.
  destruct (own_step_phase _ _ _ _ Hs) as [Hp|[(Hp & Hp' & ->)|(Hp & Hp')]].
  - by rewrite (fmap_same _ _ _ _ Hi Hp).
  - apply rtc_once. rewrite list_fmap_insert, Hp'. constructor; [by rewrite list_lookup_fmap, Hi; f_equal/=|].
    by apply nobody_holds.
  - apply rtc_once. rewrite list_fmap_insert, Hp'. constructor. rewrite list_lookup_fmap, Hi. by f_equal/=.
Qed.

Lemma mutex_step_refines s s' :
  mutex_step s s' -> mutex_ok s -> rtc lock_step (phase_of <$> threads s) (phase_of <$> threads s').
Proof.
  intros [s1 s2 [w w' l i p p' Hi Hs|w l i j Hi Hj|w l i Hi Hn|w l i Hi]|w l i Hi|w l i Hi] Hok;
    cbn [threads].
  - by eapply own_step_refines.
  - assert (Hj' : <[i:=Idle]> l !! j = Some Asleep)
      by (rewrite list_lookup_insert_ne; [done|intros ->; rewrite Hi in Hj; discriminate]).
    rewrite (fmap_same _ _ _ LockRetry Hj') by done. by rewrite (fmap_same _ _ _ Idle Hi).
  - by rewrite (fmap_same _ _ _ Idle Hi).
  - by rewrite (fmap_same _ _ _ UnlockRead Hi).
  - apply rtc_once. rewrite list_fmap_insert. constructor. by rewrite list_lookup_fmap, Hi.
  - by rewrite (fmap_same _ _ _ LockRetry Hi).
Qed.

(** ** Termination *)

(** How often the thread still takes or leaves the lock. *)
Definition events (p : point) : Z :=
  match p with
  | Idle | UnlockWake => 0
  | Critical | UnlockRead | UnlockCas _ => 1
  | _ => 2
  end.

(** How far the thread is from sleeping, or from changing the word, while the
    word stays [w]. *)
Definition weight (w : Z) (p : point) : Z :=
  match p with
  | Idle => 0
  | LockCas => 4
  | LockClaim => if w =? 0 then 5 else 3
  | LockWait => if w =? 2 then 2 else 5
  | Asleep => 1
  | LockRetry => 4
  | Critical => 4
  | UnlockRead => 2
  | UnlockCas old => if w =? old then 1 else 3
  | UnlockWake => 5
  end.

Definition measure (s : mutex) : Z :=
  (2 * total events (threads s) + (if lock s =? 1 then 1 else 0)) * (5 * Z.of_nat (length (threads s)) + 1)
  + total (weight (lock s)) (threads s).

Lemma weight_range w p : 0 <= weight w p <= 5.
Proof. destruct p; cbn; repeat case_match; lia. Qed.

Lemma total_weight_range w l : 0 <= total (weight w) l <= 5 * Z.of_nat (length l).
Proof.
  split; [apply total_nonneg; intros; apply weight_range|].
  apply total_bound. intros. apply weight_range.
Qed.

Lemma events_nonneg p : 0 <= events p. Proof. by destruct p. Qed.

Lemma measure_nonneg s : 0 <= measure s.
Proof.
  unfold measure. pose proof (total_weight_range (lock s) (threads s)).
  pose proof (total_nonneg events events_nonneg (threads s)). destruct (lock s =? 1); nia.
Qed.

(** A taking or leaving of the lock, or a claim, outweighs all the rest. *)
Lemma measure_event w l w' l' :
  length l' = length l ->
  2 * total events l' + (if w' =? 1 then 1 else 0) < 2 * total events l + (if w =? 1 then 1 else 0) ->
  measure (mkMutex w' l') < measure (mkMutex w l).
Proof.
  intros Hl He. unfold measure. cbn [lock threads]. rewrite Hl.
  pose proof (total_weight_range w l). pose proof (total_weight_range w' l'). rewrite Hl in *. nia.
Qed.

Lemma measure_weight w l l' :
  length l' = length l -> total events l' = total events l ->
  total (weight w) l' < total (weight w) l -> measure (mkMutex w l') < measure (mkMutex w l).
Proof. intros Hl He Hw. unfold measure. cbn [lock threads]. rewrite Hl, He. lia. Qed.

(** What an own step does: an event, or the thread comes closer. *)
Lemma own_step_closer w w' p p' :
  w = 0 \/ w = 1 \/ w = 2 -> own_step w p = Some (w', p') ->
  2 * events p' + (if w' =? 1 then 1 else 0) < 2 * events p + (if w =? 1 then 1 else 0) \/
  w' = w /\ events p' = events p /\ weight w p' < weight w p.
Proof.
  intros Hw Hs. destruct p as [| | | | | | | |old|]; try discriminate Hs;
    unfold own_step, ll_lock_step, ll_unlock_step, val_compare_and_swap, bool_compare_and_swap in Hs.
  6: { destruct (Z.eqb_spec w old) as [<-|Hne]; injection Hs as <- <-.
       - left. destruct Hw as [-> | [-> | ->]]; cbn; lia.
       - right. cbn [weight events]. by rewrite (proj2 (Z.eqb_neq _ _) Hne). }
  5: { injection Hs as <- <-. right. cbn [weight events]. by rewrite Z.eqb_refl. }
  all: destruct Hw as [-> | [-> | ->]]; cbn in Hs; injection Hs as <- <-; cbn; lia.
Qed.

Lemma finish_decreases s s' : finish s s' -> mutex_ok s -> measure s' < measure s.
Proof.
  intros [w w' l i p p' Hi Hs|w l i j Hi Hj|w l i Hi Hn|w l i Hi] [Hw _ _]; cbn [lock] in Hw.
  - destruct (own_step_closer _ _ _ _ Hw Hs) as [He|(-> & He & Hwt)].
    + apply measure_event; [apply length_insert|]. update_totals. lia.
    + apply measure_weight; [apply length_insert| |]; update_totals; lia.
  - assert (Hj' : <[i:=Idle]> l !! j = Some Asleep)
      by (rewrite list_lookup_insert_ne; [done|intros ->; rewrite Hi in Hj; discriminate]).
    apply measure_weight; [by rewrite !length_insert|..]; update_totals; cbn; lia.
  - apply measure_weight; [apply length_insert|..]; update_totals; cbn; lia.
  - apply measure_weight; [apply length_insert|..]; update_totals; cbn; lia.
Qed.

Lemma finish_steps_bound k s s' : nsteps finish k s s' -> mutex_ok s -> Z.of_nat k <= measure s - measure s'.
Proof.
  induction 1 as [s|k s1 s2 s3 H1 H2 IH]; intros Hok; [lia|].
  pose proof (finish_decreases _ _ H1 Hok). specialize (IH (finish_ok _ _ H1 Hok)). lia.
Qed.

Lemma measure_bound s :
  measure s <= (4 * Z.of_nat (length (threads s)) + 2) * (5 * Z.of_nat (length (threads s)) + 1).
Proof.
  unfold measure. pose proof (total_weight_range (lock s) (threads s)).
  assert (He : total events (threads s) <= 2 * Z.of_nat (length (threads s)))
    by (apply total_bound; intros []; cbn; lia).
  destruct (lock s =? 1); nia.
Qed.

(** ** Progress *)

(** A thread that is neither outside nor asleep can go on. *)
Lemma point_goes_on w l i p :
  l !! i = Some p -> p = Idle \/ p = Asleep \/ exists s', finish (mkMutex w l) s'.
Proof.
  intros Hi. destruct p; auto; right; right.
  all: try (eexists; eapply finish_own; [exact Hi|reflexivity]).
  - eexists. by apply finish_unlock.
  - destruct (decide (Asleep ∈ l)) as [(j & Hj)%list_elem_of_lookup_1|Hn].
    + eexists. by eapply finish_wake.
    + eexists. by eapply finish_wake_none.
Qed.

Lemma stuck_is_idle s :
  mutex_ok s -> ~ (exists s', finish s s') -> s = mutex_init (length (threads s)).
Proof.
  destruct s as [w l]. intros [_ Hh Hr] Hs. cbn [lock threads] in *.
  assert (Hp : forall i p, l !! i = Some p -> p = Idle \/ p = Asleep).
  { intros i p Hi. destruct (point_goes_on w l i p Hi) as [?|[?|?]]; tauto. }
  assert (Hno : forall f, f Idle = 0 -> f Asleep = 0 -> ~ 0 < total f l).
  { intros f H1 H2 (i & p & Hi & Hf)%total_pos. destruct (Hp i p Hi) as [-> | ->]; lia. }
  pose proof (Hno holding eq_refl eq_refl). pose proof (Hno rescuing eq_refl eq_refl).
  pose proof (total_nonneg asleep asleep_nonneg l).
  destruct (Z.eqb_spec w 0) as [->|]; [|lia]. unfold mutex_init. f_equal.
  symmetry. apply replicate_as_elem_of. split; [done|]. intros p (i & Hi)%list_elem_of_lookup_1.
  destruct (Hp i p Hi) as [?| ->]; [done|].
  pose proof (total_ge asleep asleep_nonneg l i Asleep Hi). cbn in *. lia.
Qed.

Lemma finish_length s s' : finish s s' -> length (threads s') = length (threads s).
Proof. intros []; cbn [threads]; by rewrite ?length_insert. Qed.

Lemma mutex_step_length s s' : mutex_step s s' -> length (threads s') = length (threads s).
Proof. intros [s1 s2 Hf| |]; [by apply finish_length|..]; cbn [threads]; by rewrite ?length_insert. Qed.

Lemma finish_is_step s s' : rtc finish s s' -> rtc mutex_step s s'.
Proof. apply rtc_subrel. intros ??. by constructor. Qed.

Lemma mutex_steps_length s s' : rtc mutex_step s s' -> length (threads s') = length (threads s).
Proof. induction 1 as [|s1 s2 s3 H1 _ IH]; [done|]. by rewrite IH, (mutex_step_length _ _ H1). Qed.

(** ** Properties *)

(** C34. The mutex is a lock.  In any interleaving of any number of threads,
    sleepers that wake up for no reason included, what the callers see is a
    run of an atomic lock that is only taken when nobody holds it: never two
    threads between their [pthread_mutex_lock] and [pthread_mutex_unlock]. *)
Theorem mutex_refines_lock n s :
  rtc mutex_step (mutex_init n) s ->
  rtc lock_step (replicate n Away) (phase_of <$> threads s) /\
  forall i j p q, threads s !! i = Some p -> threads s !! j = Some q ->
    phase_of p = Holding -> phase_of q = Holding -> i = j.
Proof.
  intros Hs. assert (Hok : mutex_ok s) by eauto using mutex_steps_ok, mutex_init_ok. split.
  - replace (replicate n Away) with (phase_of <$> threads (mutex_init n)) by apply fmap_replicate.
    assert (H0 := mutex_init_ok n). induction Hs as [s|s1 s2 s3 H1 H2 IH]; [done|].
    etrans; [exact (mutex_step_refines _ _ H1 H0)|]. eauto using mutex_step_ok.
  - intros i j p q Hi Hj Hp Hq. destruct (decide (i = j)) as [|Hij]; [done|exfalso].
    destruct Hok as [_ Hh _]. pose proof (total_ge2 holding holding_nonneg _ _ _ _ _ Hij Hi Hj).
    destruct p, q; cbn in *; try discriminate; case_match; lia.
Qed.

(** Two threads: one takes the lock, the other goes to sleep, the first leaves. *)
Definition contended : mutex := mkMutex 0 [UnlockWake; Asleep].

Lemma contended_reached : rtc mutex_step (mutex_init 2) contended.
Proof.
  eapply rtc_l; [by apply (step_call _ _ 0)|].
  eapply rtc_l; [by apply (step_call _ _ 1)|].
  eapply rtc_l; [apply step_finish; by eapply (finish_own _ _ _ 0)|].
  do 3 (eapply rtc_l; [apply step_finish; by eapply (finish_own _ _ _ 1)|]).
  eapply rtc_l; [apply step_finish; by eapply (finish_unlock _ _ 0)|].
  do 2 (eapply rtc_l; [apply step_finish; by eapply (finish_own _ _ _ 0)|]).
  apply rtc_refl.
Qed.

Lemma mutex_refines_lock_witness :
  rtc lock_step [Away; Away] [Away; Asking].
Proof. exact (proj1 (mutex_refines_lock 2 contended contended_reached)). Defined.

(** C35. No wake up is lost, and nothing spins.  From any state the threads can
    be in, if no thread calls again and none wakes up for no reason, the calls
    in progress end within (4n + 2) (5n + 1) steps of all [n] threads together,
    whatever their order, and when none can go on the lock is free, every
    thread has returned from its [pthread_mutex_unlock] and none is asleep. *)
Theorem mutex_quiesces n s :
  rtc mutex_step (mutex_init n) s ->
  (forall k s', nsteps finish k s s' -> Z.of_nat k <= (4 * Z.of_nat n + 2) * (5 * Z.of_nat n + 1)) /\
  (forall s', rtc finish s s' -> ~ (exists s'', finish s' s'') -> s' = mutex_init n).
Proof.
  intros Hs. assert (Hok : mutex_ok s) by eauto using mutex_steps_ok, mutex_init_ok.
  assert (Hl : length (threads s) = n)
    by (rewrite (mutex_steps_length _ _ Hs); apply length_replicate). split.
  - intros k s' Hk. pose proof (finish_steps_bound _ _ _ Hk Hok). pose proof (measure_nonneg s').
    pose proof (measure_bound s). rewrite Hl in *. lia.
  - intros s' Hf Hstuck. pose proof (finish_is_step _ _ Hf) as Hf'.
    rewrite <- Hl, <- (mutex_steps_length _ _ Hf'). apply stuck_is_idle; [|done].
    eauto using mutex_steps_ok.
Qed.

Lemma mutex_quiesces_witness :
  nsteps finish 1 contended (mkMutex 0 [Idle; LockRetry]) /\ Z.of_nat 1 <= 110.
Proof.
  assert (Hk : nsteps finish 1 contended (mkMutex 0 [Idle; LockRetry]))
    by (apply nsteps_once; by apply (finish_wake 0 [UnlockWake; Asleep] 0 1)).
  split; [exact Hk|exact (proj1 (mutex_quiesces 2 contended contended_reached) _ _ Hk)].
Defined.
