(* ===== verification/IrRequests.v ===== *)
(** * The meaning of a session of requests

    What a list of requests to the builder means, without the builder: the
    registers of the session are the list of the values they were given.  It
    is the meaning of the block the builder makes of the session, and sessions
    can be put one after the other: this is how the front end is verified, one
    guest instruction at a time. *)

From S2P Require Import Prelude Ir Jitter.

(** A register with its type and value. *)
Abbreviation irValues := (list (irRegisterType * Z)).

Definition rdv (w : irRegisterType) (vs : irValues) (r : nat) : option Z :=
  '(t, v) ← vs !! r; if decide (t = w) then Some v else None.

Fixpoint rdv_params (vs : irValues) (ps : list (option nat)) : option (list (option (irRegisterType * Z))) :=
  match ps with
  | [] => Some []
  | None :: ps => l ← rdv_params vs ps; Some (None :: l)
  | Some p :: ps => tv ← vs !! p; l ← rdv_params vs ps; Some (Some tv :: l)
  end.

Inductive reqOutcome :=
  | ReqNext (vs : irValues) (m : mem)
  | ReqExit (v : Z) (m : mem).

Section requests.
Context (ir_call : option irRegisterType -> Z -> Z -> list (option (irRegisterType * Z)) ->
                   mem -> option (mem * Z)).
Context (ctx : Z).

Definition new_value (vs : irValues) (m : mem) (t : irRegisterType) (v : Z) : option reqOutcome :=
  Some (ReqNext (vs ++ [(t, v)]) m).

Definition req_step (c : irCall) (vs : irValues) (m : mem) : option reqOutcome :=
  match c with
  | CallMovConst w v => new_value vs m w (wrap (bits w) v)
  | CallLoad w a => x ← rdv IR_REG_64 vs a; new_value vs m w (load_mem w m x)
  | CallStore w s a =>
      x ← rdv IR_REG_64 vs a; v ← rdv w vs s; Some (ReqNext vs (store_mem w m x v))
  | CallBinop k w p q =>
      x ← rdv w vs p; y ← rdv (op2_type k w) vs q;
      z ← irBinop_sem k w x y; new_value vs m w z
  | CallCallVoid a ps =>
      x ← rdv IR_REG_64 vs a; l ← rdv_params vs ps;
      '(m', _) ← ir_call None x ctx l m; Some (ReqNext vs m')
  | CallCall w a ps =>
      x ← rdv IR_REG_64 vs a; l ← rdv_params vs ps;
      '(m', v) ← ir_call (Some w) x ctx l m; new_value vs m' w (wrap (bits w) v)
  | CallIte _ p t f =>
      '(ty, x) ← vs !! p; y ← rdv ty vs t; z ← rdv ty vs f;
      new_value vs m ty (if x =? 0 then z else y)
  | CallCast t o => x ← rdv (cast_src t) vs o; new_value vs m (cast_dst t) (irCast_sem t x)
  | CallExit v => x ← rdv IR_REG_64 vs v; Some (ReqExit x m)
  | CallExitCond v None => x ← rdv IR_REG_64 vs v; Some (ReqExit x m)
  | CallExitCond v (Some p) =>
      x ← rdv IR_REG_64 vs v; '(_, y) ← vs !! p;
      Some (if y =? 0 then ReqNext vs m else ReqExit x m)
  | CallReadContext w off => new_value vs m w (load_mem w m (ctx + to_signed 32 off))
  | CallWriteContext w s off =>
      v ← rdv w vs s; Some (ReqNext vs (store_mem w m (ctx + to_signed 32 off) v))
  | CallMarker _ => Some (ReqNext vs m)
  end.

Fixpoint req_run (cs : list irCall) (vs : irValues) (m : mem) : option reqOutcome :=
  match cs with
  | [] => Some (ReqNext vs m)
  | c :: cs =>
      o ← req_step c vs m;
      match o with
      | ReqNext vs' m' => req_run cs vs' m'
      | ReqExit v m' => Some (ReqExit v m')
      end
  end.

(** Open the binds of a successful step. *)
Ltac open_binds Hs :=
  repeat match type of Hs with
  | ?x ≫= _ = Some _ =>
      let y := fresh "y" in
      destruct x as [y|]; cbn [mbind option_bind] in Hs; [try destruct y as [? y]|done]
  end;
  repeat match type of Hs with context [if ?b then _ else _] => destruct b end.

Lemma req_run_app cs cs' vs m :
  req_run (cs ++ cs') vs m =
    (o ← req_run cs vs m;
     match o with ReqNext vs' m' => req_run cs' vs' m' | ReqExit v m' => Some (ReqExit v m') end).
Proof.
  revert vs m. induction cs as [|c cs IH]; intros vs m; [done|]. cbn [app req_run].
  destruct (req_step c vs m) as [[vs' m'|v m']|]; cbn [mbind option_bind]; [apply IH|done|done].
Qed.

(** ** Renumbering *)

Definition shift_call (n : nat) (c : irCall) : irCall :=
  let s r := (n + r)%nat in
  match c with
  | CallMovConst w v => CallMovConst w v
  | CallLoad w a => CallLoad w (s a)
  | CallStore w src a => CallStore w (s src) (s a)
  | CallBinop k w a b => CallBinop k w (s a) (s b)
  | CallCallVoid a ps => CallCallVoid (s a) (map (option_map s) ps)
  | CallCall w a ps => CallCall w (s a) (map (option_map s) ps)
  | CallIte w p t f => CallIte w (s p) (s t) (s f)
  | CallCast t o => CallCast t (s o)
  | CallExit v => CallExit (s v)
  | CallExitCond v p => CallExitCond (s v) (option_map s p)
  | CallReadContext w off => CallReadContext w off
  | CallWriteContext w src off => CallWriteContext w (s src) off
  | CallMarker v => CallMarker v
  end.

(** How many registers a session creates. *)
Definition returns_reg (c : irCall) : bool :=
  match c with
  | CallMovConst _ _ | CallLoad _ _ | CallBinop _ _ _ _ | CallCall _ _ _ | CallIte _ _ _ _
  | CallCast _ _ | CallReadContext _ _ => true
  | CallStore _ _ _ | CallCallVoid _ _ | CallExit _ | CallExitCond _ _ | CallWriteContext _ _ _
  | CallMarker _ => false
  end.

Fixpoint count_regs (cs : list irCall) : nat :=
  match cs with
  | [] => 0
  | c :: cs => (if returns_reg c then 1 else 0) + count_regs cs
  end.

Lemma count_regs_app cs cs' : count_regs (cs ++ cs') = (count_regs cs + count_regs cs')%nat.
Proof. induction cs as [|c cs IH]; [done|]. cbn [app count_regs]. rewrite IH. lia. Qed.

Lemma count_regs_shift n cs : count_regs (map (shift_call n) cs) = count_regs cs.
Proof. induction cs as [|c cs IH]; [done|]. cbn [map count_regs]. rewrite IH. by destruct c. Qed.

Lemma req_step_count c vs m vs' m' :
  req_step c vs m = Some (ReqNext vs' m') -> length vs' = (length vs + if returns_reg c then 1 else 0)%nat.
Proof.
  intros Hs. destruct c as [w v|w a|w s a|k w a b|a ps|w a ps|w p t f|t o|v|v [p|]|w off|w s off|v];
    cbn [req_step returns_reg] in *; unfold new_value in Hs; open_binds Hs;
    try discriminate Hs; injection Hs as <- <-; rewrite ?length_app; cbn [length]; lia.
Qed.

Lemma req_run_count cs vs m vs' m' :
  req_run cs vs m = Some (ReqNext vs' m') -> length vs' = (length vs + count_regs cs)%nat.
Proof.
  revert vs m. induction cs as [|c cs IH]; intros vs m; cbn [req_run count_regs].
  - intros [= <- <-]. lia.
  - destruct (req_step c vs m) as [[vs1 m1|]|] eqn:E; cbn [mbind option_bind]; [|done|done].
    intros H. rewrite (IH _ _ H), (req_step_count _ _ _ _ _ E). lia.
Qed.

(** The registers before a session are not looked at by it. *)
Definition with_values (vs0 : irValues) (o : reqOutcome) : reqOutcome :=
  match o with ReqNext vs m => ReqNext (vs0 ++ vs) m | ReqExit v m => ReqExit v m end.

Lemma rdv_shift w vs0 vs r : rdv w (vs0 ++ vs) (length vs0 + r) = rdv w vs r.
Proof. unfold rdv. by rewrite lookup_app_r, Nat.add_comm, Nat.add_sub by lia. Qed.

Lemma lookup_shift (vs0 vs : irValues) r : (vs0 ++ vs) !! (length vs0 + r)%nat = vs !! r.
Proof. by rewrite lookup_app_r, Nat.add_comm, Nat.add_sub by lia. Qed.

Lemma rdv_params_shift vs0 vs ps :
  rdv_params (vs0 ++ vs) (map (option_map (fun r => (length vs0 + r)%nat)) ps) = rdv_params vs ps.
Proof.
  induction ps as [|[p|] ps IH]; cbn [map rdv_params option_map]; [done| |];
    rewrite ?lookup_shift, IH; done.
Qed.

Lemma req_step_shift c vs0 vs m :
  req_step (shift_call (length vs0) c) (vs0 ++ vs) m = with_values vs0 <$> req_step c vs m.
Proof.
  destruct c as [w v|w a|w s a|k w a b|a ps|w a ps|w p t f|t o|v|v [p|]|w off|w s off|v];
    unfold shift_call, req_step; cbn [option_map];
    rewrite ?rdv_shift, ?rdv_params_shift, ?lookup_shift; unfold new_value;
    repeat (match goal with
            | |- context [mbind (M := option) _ ?x] => destruct x as [?|]; cbn [mbind option_bind]; [|done]
            | |- context [let '(_, _) := ?x in _] => destruct x
            end; rewrite ?rdv_shift);
    cbn [fmap option_fmap option_map with_values]; rewrite <- ?(assoc_L (++)); try done.
  by destruct (_ =? 0).
Qed.

Lemma req_run_shift cs vs0 vs m :
  req_run (map (shift_call (length vs0)) cs) (vs0 ++ vs) m = with_values vs0 <$> req_run cs vs m.
Proof.
  revert vs m. induction cs as [|c cs IH]; intros vs m; [done|]. cbn [map req_run].
  rewrite req_step_shift.
  destruct (req_step c vs m) as [[vs' m'|v m']|]; cbn [fmap option_fmap option_map mbind option_bind with_values];
    [apply IH|done|done].
Qed.

(** ** The block the builder makes *)

Definition env_is (ρ : irEnv) (vs : irValues) : Prop := forall r, ρ !! r = vs !! r.

Lemma env_is_snoc ρ vs t v : env_is ρ vs -> env_is (<[length vs := (t, v)]> ρ) (vs ++ [(t, v)]).
Proof.
  intros H r. destruct (decide (r = length vs)) as [->|Hne].
  - rewrite lookup_insert_eq. by rewrite lookup_app_r, Nat.sub_diag by lia.
  - rewrite lookup_insert_ne by done. rewrite H. destruct (decide (r < length vs)%nat).
    + by rewrite lookup_app_l.
    + rewrite !lookup_ge_None_2; [done| |lia]. rewrite length_app. cbn. lia.
Qed.

Lemma env_is_rd ρ vs w r : env_is ρ vs -> rd w ρ r = rdv w vs r.
Proof. intros H. unfold rd, rdv. by rewrite H. Qed.

Lemma env_is_params ρ vs ps : env_is ρ vs -> rd_params ρ ps = rdv_params vs ps.
Proof.
  intros H. induction ps as [|[p|] ps IH]; cbn [rd_params rdv_params]; [done| |]; rewrite IH, ?H; done.
Qed.

(** An IR outcome and the outcome of a request. *)
Definition same_outcome (o : option irOutcome) (o' : option reqOutcome) : Prop :=
  match o, o' with
  | Some (IrNext ρ m), Some (ReqNext vs m') => m = m' /\ env_is ρ vs
  | Some (IrExit v m), Some (ReqExit v' m') => v = v' /\ m = m'
  | None, None => True
  | _, _ => False
  end.

Lemma same_def ρ vs m w v :
  env_is ρ vs -> same_outcome (def_next ρ m (length vs) w v) (new_value vs m w v).
Proof. intros H. split; [done|by apply env_is_snoc]. Qed.

(** Read the operands in both worlds. *)
Ltac read_values H :=
  repeat (rewrite ?(env_is_rd _ _ _ _ H), ?(env_is_params _ _ _ H), ?H;
          match goal with
          | |- same_outcome (?x ≫= _) (?x ≫= _) =>
              let y := fresh "y" in
              destruct x as [y|]; cbn [mbind option_bind]; [try destruct y as [? y]|exact I]
          end).

Lemma call_insn_step c ρ vs m :
  env_is ρ vs -> same_outcome (ir_step ir_call ctx (call_insn c (length vs)) ρ m) (req_step c vs m).
Proof.
  intros H.
  destruct c as [w v|w a|w s a|k w a b|a ps|w a ps|w p t f|t o|v|v [p|]|w off|w s off|v];
    cbn [call_insn ir_step req_step bt_kind bt_width]; read_values H; try (by apply same_def); try done.
  - rewrite (wrap_wrap (bits w) 64) by (pose proof (bits_pos w); pose proof (bits_le_64 w); lia).
    by apply same_def.
  - by destruct (y0 =? 0).
Qed.


(** Whether a request creates a register does not depend on the values. *)
Lemma call_type_grows c j vs m vs' m' :
  valid_args j (call_args c) -> length vs = length (regs j) -> req_step c vs m = Some (ReqNext vs' m') ->
  length vs' = (length (regs j) + match call_type c (regs j) with Some _ => 1 | None => 0 end)%nat.
Proof.
  intros Ha Hl Hs.
  destruct c as [w v|w a|w s a|k w a b|a ps|w a ps|w p t f|t o|v|v [p|]|w off|w s off|v];
    cbn [req_step call_type call_args] in *; unfold new_value in Hs;
    open_binds Hs;
    try discriminate Hs; injection Hs as <- <-; rewrite ?length_app; cbn [length];
    try lia.
  all: assert (Ht : (t < length (regs j))%nat) by (unfold valid_args in Ha; rewrite Forall_forall in Ha; apply Ha; set_solver).
  all: destruct (lookup_lt_is_Some_2 _ _ Ht) as [z Hz]; rewrite Hz; cbn [fmap option_fmap option_map]; lia.
Qed.

(** The instructions a session adds mean what the session means. *)
Lemma session_run cs j j' :
  session_valid cs j = true -> irAlloc_session cs j = Some (tt, j') ->
  exists new, insns j' = insns j ++ new /\
    forall ρ vs m, env_is ρ vs -> length vs = length (regs j) ->
      ir_run ir_call ctx new ρ m =
        match req_run cs vs m with Some (ReqExit v m') => Some (v, m') | _ => None end.
Proof.
  revert j. induction cs as [|c cs IH]; intros j Hv Hs.
  - injection Hs as <-. exists []. split; [by rewrite app_nil_r|]. done.
  - cbn [irAlloc_session] in Hs. apply bind_Some_inv in Hs as (r & j1 & H1 & H2).
    cbn [session_valid] in Hv. apply andb_true_iff in Hv as [Ha Hv]. rewrite H1 in Hv.
    apply session_valid_args in Ha. destruct (IH j1 Hv H2) as (new & E & Hnew).
    rewrite irAlloc_run_eq in H1 by done. unfold run_spec in H1.
    destruct (_ && _ && _); [|done]. injection H1 as <- <-. rewrite insns_emit, <- app_assoc in E.
    exists (call_insn c (length (regs j)) :: new). split; [exact E|].
    intros ρ vs m Hρ Hl. cbn [ir_run req_run]. rewrite <- Hl.
    pose proof (call_insn_step c ρ vs m Hρ) as Hstep.
    destruct (ir_step ir_call ctx (call_insn c (length vs)) ρ m) as [[ρ1 m1|v1 m1]|],
             (req_step c vs m) as [[vs2 m2|v2 m2]|] eqn:E2; try done; cbn [mbind option_bind].
    + destruct Hstep as [-> Hρ1]. apply Hnew; [done|]. rewrite length_regs_emit.
      by apply (call_type_grows c j vs m vs2 m2).
    + by destruct Hstep as [-> ->].
Qed.

(** What the guest program means at a block: the meaning of the session. *)
Lemma session_block cs j0 j m :
  session_valid cs (resetJitter j0) = true -> irAlloc_session cs (resetJitter j0) = Some (tt, j) ->
  ir_run ir_call ctx (insns j) ∅ m =
    match req_run cs [] m with Some (ReqExit v m') => Some (v, m') | _ => None end.
Proof.
  intros Hv Hs. destruct (session_run _ _ _ Hv Hs) as (new & E & Hnew).
  assert (E' : insns j = new) by exact E. rewrite E'. apply Hnew; [|done].
  intros r. by rewrite lookup_empty.
Qed.
End requests.
