(* ===== verification/FrontGen.v ===== *)
(** * What a front end asks the builder for
      ([struct irInstructionAllocator] of [src/src/jitter/jitter.h])

    A front end only ever calls the builder through the table of functions it
    was given, so a translation is a list of requests.  The registers of one
    guest instruction are numbered from 0 in the order they are created;
    [put_insn] puts the requests of an instruction after those of its block.
    [S] is what the front end keeps for itself while it translates. *)

From S2P Require Import Prelude Ir Jitter IrRequests.

(** ** Requests of one instruction *)

Record gstate (S : Type) := mkGen {
  front : S;
  requests : list irCall
}.
Arguments mkGen {S} _ _.
Arguments front {S} _.
Arguments requests {S} _.

Definition genM (S : Type) : Type -> Type := stM (gstate S).

Section requests.
Context {S : Type}.
Abbreviation gen := (genM S).

(** A request that returns no register, and one that does: the next one. *)
Definition request (c : irCall) : gen unit :=
  modify_state (fun s => mkGen (front s) (requests s ++ [c])).

Definition request_reg (c : irCall) : gen nat := fun s =>
  Some (count_regs (requests s), mkGen (front s) (requests s ++ [c])).

End requests.

(** The table [struct irInstructionAllocator]: [add_mov_const_64] is
    [add_mov_const IR_REG_64], and so on. *)
Module ir.
Section ir.
Context {S : Type}.
Abbreviation gen := (genM S).

Definition add_mov_const (w : irRegisterType) (v : Z) : gen nat := request_reg (CallMovConst w (wrap (bits w) v)).
Definition add_load (w : irRegisterType) (a : nat) : gen nat := request_reg (CallLoad w a).
Definition add_store (w : irRegisterType) (src a : nat) : gen unit := request (CallStore w src a).
Definition add_binop (k : binopKind) (w : irRegisterType) (a b : nat) : gen nat := request_reg (CallBinop k w a b).
Definition add_call_void (a : nat) (ps : list (option nat)) : gen unit := request (CallCallVoid a ps).
Definition add_call (w : irRegisterType) (a : nat) (ps : list (option nat)) : gen nat := request_reg (CallCall w a ps).
Definition add_ite (w : irRegisterType) (p t f : nat) : gen nat := request_reg (CallIte w p t f).
Definition add_cast (t : irCastType) (o : nat) : gen nat := request_reg (CallCast t o).
Definition add_exit (v : nat) : gen unit := request (CallExit v).
Definition add_exit_cond (v p : nat) : gen unit := request (CallExitCond v (Some p)).
Definition add_read_context (w : irRegisterType) (off : Z) : gen nat := request_reg (CallReadContext w off).
Definition add_write_context (w : irRegisterType) (src : nat) (off : Z) : gen unit :=
  request (CallWriteContext w src off).
End ir.
End ir.

(** ** Fields of an instruction *)

(** [INSN(msb, lsb)] *)
Definition INSN (insn msb lsb : Z) : Z := Z.land (Z.shiftr insn lsb) (Z.shiftl 1 (msb - lsb + 1) - 1).

(** A field of one bit, as a condition. *)
Definition INSN1 (insn bit : Z) : bool := negb (INSN insn bit bit =? 0).

(** [(imm << k) >> k] on an [int64_t], for a field of [64 - k] bits. *)
Definition sign_extend (n v : Z) : Z := to_signed n v.

Section constants.
Context {S : Type}.
Definition mk_8 : Z -> genM S nat := ir.add_mov_const IR_REG_8.
Definition mk_16 : Z -> genM S nat := ir.add_mov_const IR_REG_16.
Definition mk_32 : Z -> genM S nat := ir.add_mov_const IR_REG_32.
Definition mk_64 : Z -> genM S nat := ir.add_mov_const IR_REG_64.

(** The requests of an instruction, after those of the block so far: its
    registers come after those that exist. *)
Definition put_insn (g : genM S bool) : genM S bool := fun s =>
  match g (mkGen (front s) []) with
  | Some (isExit, s') =>
      Some (isExit, mkGen (front s')
                          (requests s ++ map (shift_call (count_regs (requests s))) (requests s')))
  | None => None
  end.
End constants.
