(* ===== verification/FrontWp.v ===== *)
(** * Reasoning about what a front end requests

    [gwp g Q X] says that running [g] makes requests whose meaning, from the
    register values [vs] and the memory [m], ends in [Q], or leaves the block
    in [X].  There is a rule for each request. *)

From S2P Require Import Prelude Ir Jitter IrRequests FrontGen.

Section gwp.
Context (ir_call : option irRegisterType -> Z -> Z -> list (option (irRegisterType * Z)) ->
                   mem -> option (mem * Z)).
Context (ctx : Z) {S : Type}.
Abbreviation gen := (genM S).

(** ** Weakest preconditions *)

Definition gwp {A} (g : gen A) (Q : A -> S -> irValues -> mem -> Prop) (E : A -> Z -> mem -> Prop)
    (st : S) (vs : irValues) (m : mem) : Prop :=
  forall rs, count_regs rs = length vs ->
  exists a st' new, g (mkGen st rs) = Some (a, mkGen st' (rs ++ new)) /\
    match req_run ir_call ctx new vs m with
    | Some (ReqNext vs' m') => Q a st' vs' m'
    | Some (ReqExit v m') => E a v m'
    | None => False
    end.

Definition no_exit {A} : A -> Z -> mem -> Prop := fun _ _ _ => False.

Lemma gwp_ret {A} (a : A) Q E st vs m : Q a st vs m -> gwp (mret a) Q E st vs m.
Proof. intros H rs _. exists a, st, []. rewrite app_nil_r. by split. Qed.

Lemma gwp_mono {A} (g : gen A) Q Q' E E' st vs m :
  gwp g Q E st vs m -> (forall a st' vs' m', Q a st' vs' m' -> Q' a st' vs' m') ->
  (forall a v m', E a v m' -> E' a v m') -> gwp g Q' E' st vs m.
Proof.
  intros H HQ HE rs Hrs. destruct (H rs Hrs) as (a & st' & new & E1 & H1). exists a, st', new.
  split; [done|]. destruct (req_run _ _ new vs m) as [[]|]; eauto.
Qed.

Lemma gwp_bind {A B} (g : gen A) (k : A -> gen B) Q E st vs m :
  gwp g (fun a st' vs' m' => gwp (k a) Q E st' vs' m') no_exit st vs m -> gwp (g ≫= k) Q E st vs m.
Proof.
  intros H rs Hrs. destruct (H rs Hrs) as (a & st1 & new1 & E1 & H1).
  destruct (req_run ir_call ctx new1 vs m) as [[vs1 m1|v1 m1]|] eqn:R1; [|done|done].
  destruct (H1 (rs ++ new1)) as (b & st2 & new2 & E2 & H2).
  { rewrite count_regs_app, Hrs. symmetry. by eapply req_run_count. }
  exists b, st2, (new1 ++ new2). split.
  - unfold mbind, stM_bind. rewrite E1. by rewrite E2, app_assoc.
  - by rewrite req_run_app, R1.
Qed.

(** The last step may leave the block. *)
Lemma gwp_last {A B} (g : gen A) (b : B) Q E st vs m :
  gwp g (fun _ st' vs' m' => Q b st' vs' m') (fun _ v m' => E b v m') st vs m ->
  gwp (g ;; mret b) Q E st vs m.
Proof.
  intros H rs Hrs. destruct (H rs Hrs) as (a & st' & new & E1 & H1). exists b, st', new.
  split; [|done]. unfold mbind, stM_bind. by rewrite E1.
Qed.

Lemma gwp_request_reg c Q E st vs m t v :
  req_step ir_call ctx c vs m = Some (ReqNext (vs ++ [(t, v)]) m) -> Q (length vs) st (vs ++ [(t, v)]) m ->
  gwp (request_reg c) Q E st vs m.
Proof.
  intros Hc HQ rs Hrs. exists (length vs), st, [c]. split; [unfold request_reg; cbn; by rewrite Hrs|].
  cbn [req_run]. rewrite Hc. done.
Qed.

Lemma gwp_request c Q E st vs m m' :
  req_step ir_call ctx c vs m = Some (ReqNext vs m') -> Q tt st vs m' -> gwp (request c) Q E st vs m.
Proof.
  intros Hc HQ rs Hrs. exists tt, st, [c]. split; [done|]. cbn [req_run]. rewrite Hc. done.
Qed.

Lemma gwp_exit v Q (E : unit -> Z -> mem -> Prop) st vs m x :
  rdv IR_REG_64 vs v = Some x -> E tt x m -> gwp (ir.add_exit v) Q E st vs m.
Proof.
  intros Hv HE rs Hrs. exists tt, st, [CallExit v]. split; [done|]. cbn [req_run req_step]. by rewrite Hv.
Qed.

(** ** Requests *)

Lemma gwp_mov_const w v Q E st vs m :
  Q (length vs) st (vs ++ [(w, wrap (bits w) v)]) m -> gwp (ir.add_mov_const w v) Q E st vs m.
Proof.
  intros HQ. eapply gwp_request_reg; [|exact HQ]. cbn. unfold new_value.
  by rewrite wrap_idem by (pose proof (bits_pos w); lia).
Qed.

Lemma gwp_load w a x Q E st vs m :
  rdv IR_REG_64 vs a = Some x -> Q (length vs) st (vs ++ [(w, load_mem w m x)]) m ->
  gwp (ir.add_load w a) Q E st vs m.
Proof. intros Ha HQ. eapply gwp_request_reg; [|exact HQ]. cbn. by rewrite Ha. Qed.

Lemma gwp_store w s a x v Q E st vs m :
  rdv IR_REG_64 vs a = Some x -> rdv w vs s = Some v -> Q tt st vs (store_mem w m x v) ->
  gwp (ir.add_store w s a) Q E st vs m.
Proof. intros Ha Hs HQ. eapply gwp_request; [|exact HQ]. cbn. by rewrite Ha, Hs. Qed.

Lemma gwp_binop k w a b x y z Q E st vs m :
  rdv w vs a = Some x -> rdv (op2_type k w) vs b = Some y -> irBinop_sem k w x y = Some z ->
  Q (length vs) st (vs ++ [(w, z)]) m -> gwp (ir.add_binop k w a b) Q E st vs m.
Proof. intros Ha Hb Hz HQ. eapply gwp_request_reg; [|exact HQ]. cbn. by rewrite Ha, Hb; cbn; rewrite Hz. Qed.

Lemma gwp_cast t o x Q E st vs m :
  rdv (cast_src t) vs o = Some x -> Q (length vs) st (vs ++ [(cast_dst t, irCast_sem t x)]) m ->
  gwp (ir.add_cast t o) Q E st vs m.
Proof. intros Ho HQ. eapply gwp_request_reg; [|exact HQ]. cbn. by rewrite Ho. Qed.

Lemma gwp_ite w p t f ty x y z Q E st vs m :
  vs !! p = Some (ty, x) -> rdv ty vs t = Some y -> rdv ty vs f = Some z ->
  Q (length vs) st (vs ++ [(ty, if x =? 0 then z else y)]) m -> gwp (ir.add_ite w p t f) Q E st vs m.
Proof. intros Hp Ht Hf HQ. eapply gwp_request_reg; [|exact HQ]. cbn. rewrite Hp; cbn. by rewrite Ht, Hf. Qed.

Lemma offset_signed off : 0 <= off < 2 ^ 31 -> to_signed 32 off = off.
Proof.
  intros H. unfold to_signed. rewrite wrap_small by lia. change (2 ^ (32 - 1)) with (2 ^ 31).
  rewrite (proj2 (Z.ltb_lt off (2 ^ 31))) by lia. done.
Qed.

Lemma gwp_read_context w off Q E st vs m :
  0 <= off < 2 ^ 31 -> Q (length vs) st (vs ++ [(w, load_mem w m (ctx + off))]) m ->
  gwp (ir.add_read_context w off) Q E st vs m.
Proof. intros Ho HQ. eapply gwp_request_reg; [|exact HQ]. cbn. by rewrite offset_signed. Qed.

Lemma gwp_write_context w s off v Q E st vs m :
  0 <= off < 2 ^ 31 -> rdv w vs s = Some v -> Q tt st vs (store_mem w m (ctx + off) v) ->
  gwp (ir.add_write_context w s off) Q E st vs m.
Proof. intros Ho Hs HQ. eapply gwp_request; [|exact HQ]. cbn. by rewrite Hs, offset_signed. Qed.
(** The registers of an instruction come after those of the block. *)
Lemma gwp_put_insn (g : gen bool) Q E st vs m :
  gwp g (fun a st' _ m' => forall vs', Q a st' vs' m') E st [] m -> gwp (put_insn g) Q E st vs m.
Proof.
  intros Hg rs Hrs. destruct (Hg [] eq_refl) as (a & st' & new & Eg & Hr). cbn [app] in Eg.
  exists a, st', (map (shift_call (count_regs rs)) new). split; [unfold put_insn; cbn [front requests]; by rewrite Eg|].
  pose proof (req_run_shift ir_call ctx new vs [] m) as Hsh. rewrite app_nil_r in Hsh. rewrite Hrs, Hsh.
  destruct (req_run ir_call ctx new [] m) as [[vs' m'|v m']|]; [|done|done]. cbn. apply Hr.
Qed.

(** The first part leaves the block, the second has no more to request. *)
Lemma gwp_bind_exit {A B} (g : gen A) (k : A -> gen B) (b : B) Q E st vs m :
  gwp g (fun _ _ _ _ => False) (fun a v m' => k a = mret b /\ E b v m') st vs m -> gwp (g ≫= k) Q E st vs m.
Proof.
  intros Hg rs Hrs. destruct (Hg rs Hrs) as (a & st' & new & Eg & Hr).
  destruct (req_run ir_call ctx new vs m) as [[vs' m'|v m']|] eqn:Er; [done| |done]. destruct Hr as [Hk HE].
  exists b, st', new. split; [|by rewrite Er]. unfold mbind, stM_bind. rewrite Eg. by rewrite Hk.
Qed.

(** What a part requests whatever the state. *)
Definition total {A} (g : gen A) : Prop :=
  forall st rs, exists a st' new, g (mkGen st rs) = Some (a, mkGen st' (rs ++ new)).

(** The first part may leave the block, the second requests the rest anyway. *)
Lemma gwp_bind_leave {A B} (g : gen A) (k : A -> gen B) Q E st vs m :
  gwp g (fun a st' vs' m' => gwp (k a) Q E st' vs' m') (fun a v m' => total (k a) /\ forall b, E b v m') st vs m ->
  gwp (g ≫= k) Q E st vs m.
Proof.
  intros Hg rs Hrs. destruct (Hg rs Hrs) as (a & st1 & new1 & E1 & H1).
  destruct (req_run ir_call ctx new1 vs m) as [[vs1 m1|v1 m1]|] eqn:R1; [| |done].
  - destruct (H1 (rs ++ new1)) as (b & st2 & new2 & E2 & H2).
    { rewrite count_regs_app, Hrs. symmetry. by eapply req_run_count. }
    exists b, st2, (new1 ++ new2). split; [|by rewrite req_run_app, R1].
    unfold mbind, stM_bind. rewrite E1. by rewrite E2, app_assoc.
  - destruct H1 as [Ht HE]. destruct (Ht st1 (rs ++ new1)) as (b & st2 & new2 & E2).
    exists b, st2, (new1 ++ new2). split; [|rewrite req_run_app, R1; apply HE].
    unfold mbind, stM_bind. rewrite E1. by rewrite E2, app_assoc.
Qed.

Lemma gwp_exit_cond v p ty x y Q (E : unit -> Z -> mem -> Prop) st vs m :
  rdv IR_REG_64 vs v = Some x -> vs !! p = Some (ty, y) -> (if y =? 0 then Q tt st vs m else E tt x m) ->
  gwp (ir.add_exit_cond v p) Q E st vs m.
Proof.
  intros Hv Hp HQ rs Hrs. exists tt, st, [CallExitCond v (Some p)]. split; [done|]. cbn [req_run req_step].
  rewrite Hv. cbn [mbind option_bind]. rewrite Hp. cbn [mbind option_bind]. by destruct (y =? 0).
Qed.

Lemma gwp_marker v Q E st vs m : Q tt st vs m -> gwp (request (CallMarker v)) Q E st vs m.
Proof. intros HQ. by eapply gwp_request. Qed.

End gwp.

(** * The guest behind the requests

    [awp] is [gwp] on guest states: a front end says how a state of its guest is
    kept in memory ([GuestRep]), and what its requests do is stated on that
    state. *)

(** ** Values *)

(** Values have the range of their type. *)
Definition values_ok (vs : irValues) : Prop := Forall (fun tv => 0 <= tv.2 < 2 ^ bits tv.1) vs.

Lemma rdv_range w vs r v : values_ok vs -> rdv w vs r = Some v -> 0 <= v < 2 ^ bits w.
Proof.
  intros Hok Hr. unfold rdv in Hr. destruct (vs !! r) as [[t x]|] eqn:E; [|done]. cbn in Hr.
  case_decide; [|done]. simplify_eq. by eapply (Forall_lookup_1 _ _ _ _ Hok) in E.
Qed.

Lemma values_ok_snoc vs t v : values_ok vs -> 0 <= v < 2 ^ bits t -> values_ok (vs ++ [(t, v)]).
Proof. intros. apply Forall_app. by split; [|apply Forall_singleton]. Qed.

Lemma bytes_range w : 1 <= bits w / 8 <= 8.
Proof. by destruct w. Qed.

Lemma length_store w v : Z.of_nat (length (le_bytes (Z.to_nat (bits w / 8)) v)) = bits w / 8.
Proof. rewrite length_le_bytes'. pose proof (bytes_range w). lia. Qed.

Lemma irBinop_range k w x y z :
  0 <= x < 2 ^ bits w -> 0 <= y < 2 ^ bits (op2_type k w) -> irBinop_sem k w x y = Some z ->
  0 <= z < 2 ^ bits w.
Proof.
  intros Hx Hy Hz. pose proof (bits_pos w). destruct k; cbn in Hz, Hy; repeat case_match; simplify_eq.
  all: try (apply wrap_range; lia).
  all: try (apply land_range || apply lor_range || apply lxor_range); try lia.
  all: try (apply shiftr_range; lia).
  all: try (apply ones_range; lia).
Qed.

Lemma rdv_app_l w vs vs' r v : rdv w vs r = Some v -> rdv w (vs ++ vs') r = Some v.
Proof.
  unfold rdv. destruct (vs !! r) as [tv|] eqn:E; [|done]. by rewrite (lookup_app_l_Some _ _ _ _ E).
Qed.

Lemma rdv_params_app_l vs vs' ps l : rdv_params vs ps = Some l -> rdv_params (vs ++ vs') ps = Some l.
Proof.
  revert l. induction ps as [|[p|] ps IH]; intros l; cbn [rdv_params]; [done| |].
  - destruct (vs !! p) as [tv|] eqn:E; [|done]. cbn [mbind option_bind].
    rewrite (lookup_app_l_Some _ _ _ _ E). cbn [mbind option_bind].
    destruct (rdv_params vs ps) as [l'|]; [|done]. by rewrite (IH l').
  - destruct (rdv_params vs ps) as [l'|]; [|done]. cbn [mbind option_bind]. by rewrite (IH l').
Qed.

Lemma rdv_last w vs v : rdv w (vs ++ [(w, v)]) (length vs) = Some v.
Proof. unfold rdv. rewrite lookup_app_r, Nat.sub_diag by lia. cbn. by rewrite decide_True. Qed.

Lemma store_bytes_at bs m m' a x :
  m x = m' x -> store_bytes bs m a x = store_bytes bs m' a x.
Proof.
  revert m m' a. induction bs as [|b bs IH]; intros m m' a E; cbn; [done|]. apply IH.
  by case_decide.
Qed.

(** ** Registers that keep their values *)

(** Registers keep their values. *)
Definition extends (vs vs' : irValues) : Prop := forall t r x, rdv t vs r = Some x -> rdv t vs' r = Some x.

Lemma rdv_lookup t vs r x : rdv t vs r = Some x -> vs !! r = Some (t, x).
Proof.
  unfold rdv. destruct (vs !! r) as [[t' x']|]; [|done]. cbn. case_decide; [|done]. by intros [= ->]; subst.
Qed.

Lemma rdv_params_None vs ps l : rdv_params vs ps = Some l -> rdv_params vs (None :: ps) = Some (None :: l).
Proof. cbn. by intros ->. Qed.

Lemma rdv_params_Some t vs p v ps l :
  rdv t vs p = Some v -> rdv_params vs ps = Some l -> rdv_params vs (Some p :: ps) = Some (Some (t, v) :: l).
Proof. intros Hp Hl. cbn. by rewrite (rdv_lookup _ _ _ _ Hp), Hl. Qed.

(** Find the value of a register: the last one, an earlier one, or one known
    to be kept. *)
Ltac rdv :=
  first
    [ eassumption
    | apply rdv_last
    | apply rdv_app_l; rdv
    | match goal with He : extends ?vs ?vs' |- rdv _ ?vs' _ = Some _ => apply He; rdv end ].

Ltac params :=
  repeat first
    [ eapply rdv_params_Some; [rdv|]
    | apply rdv_params_None
    | reflexivity ].

Lemma extends_refl vs : extends vs vs.
Proof. by intros ???. Qed.

Lemma extends_app vs vs' l : extends vs vs' -> extends vs (vs' ++ l).
Proof. intros He t r x Hr. apply rdv_app_l. by apply He. Qed.

Lemma extends_trans vs1 vs2 vs3 : extends vs1 vs2 -> extends vs2 vs3 -> extends vs1 vs3.
Proof. intros H1 H2 t r x Hr. by apply H2, H1. Qed.

Ltac extends :=
  first [ apply extends_refl | eassumption | apply extends_app; extends
        | match goal with He : extends _ ?vs |- extends _ ?vs => eapply extends_trans; [|exact He]; extends end ].

Lemma rdv_eq t vs r v v' : rdv t vs r = Some v -> v = v' -> rdv t vs r = Some v'.
Proof. by intros ? <-. Qed.

Ltac yields := split; [eapply rdv_eq; [rdv|]|split; [extends|done]].

(** ** Weakest preconditions on guest states *)

(** How the states [G] of a guest are kept in memory, around the context at
    [ctx], and what its front end keeps for itself between instructions. *)
Class GuestRep (ctx : Z) (S G : Type) := {
  front_init : S;
  guest_represents : G -> mem -> Prop
}.
Arguments front_init ctx {S G _}.
Arguments guest_represents ctx {S G _} _ _.

(** To the precondition on memory, and what is left after one request. *)
Ltac awp_intro := intros; intros Hok m Hm.
Ltac awp_done := split; [done|]; split; [first [done|apply values_ok_snoc; [done|]]|].

Section sim.
Context {ir_call : option irRegisterType -> Z -> Z -> list (option (irRegisterType * Z)) ->
                   mem -> option (mem * Z)}.
Context {ctx : Z} {S G : Type} `{!GuestRep ctx S G}.
Abbreviation gen := (genM S).
Abbreviation gwp := (gwp ir_call ctx).

Definition awp {A} (g : gen A) (Q : A -> irValues -> G -> Prop) (E : A -> Z -> G -> Prop)
    (vs : irValues) (s : G) : Prop :=
  values_ok vs -> forall m, guest_represents ctx s m ->
  gwp g (fun a st' vs' m' =>
           st' = front_init ctx /\ values_ok vs' /\ exists s', guest_represents ctx s' m' /\ Q a vs' s')
        (fun a v m' => exists s', guest_represents ctx s' m' /\ E a v s') (front_init ctx) vs m.

Definition never {A} : A -> Z -> G -> Prop := fun _ _ _ => False.

(** A sequence that leaves in [r] the value [v]. *)
Definition yields (v : Z) (w : irRegisterType) (vs : irValues) (s : G) : nat -> irValues -> G -> Prop :=
  fun r vs' s' => rdv w vs' r = Some v /\ extends vs vs' /\ s' = s.

Lemma awp_ret {A} (a : A) Q E vs s : Q a vs s -> awp (mret a) Q E vs s.
Proof. intros HQ Hok m Hm. apply gwp_ret. eauto. Qed.

Lemma awp_bind {A B} (g : gen A) (k : A -> gen B) Q E vs s :
  awp g (fun a vs' s' => awp (k a) Q E vs' s') never vs s -> awp (g ≫= k) Q E vs s.
Proof.
  intros Hg Hok m Hm. apply gwp_bind. eapply gwp_mono; [by apply Hg| |].
  - cbn. intros a st' vs' m' (-> & Hok' & s' & Hm' & Hk). by apply Hk.
  - by intros a v m' (s' & _ & []).
Qed.

Lemma awp_bind_leave {A B} (g : gen A) (k : A -> gen B) Q E vs s :
  awp g (fun a vs' s' => awp (k a) Q E vs' s') (fun a v s' => total (k a) /\ forall b, E b v s') vs s ->
  awp (g ≫= k) Q E vs s.
Proof.
  intros Hg Hok m Hm. apply gwp_bind_leave. eapply gwp_mono; [by apply Hg| |].
  - cbn. intros a st' vs' m' (-> & Hok' & s' & Hm' & Hk). by apply Hk.
  - cbn. intros a v m' (s' & Hm' & Ht & HE). split; [done|]. intros b. by exists s'.
Qed.

Lemma awp_exit_cond v p ty x y Q (E : unit -> Z -> G -> Prop) vs s :
  rdv IR_REG_64 vs v = Some x -> vs !! p = Some (ty, y) -> (if y =? 0 then Q tt vs s else E tt x s) ->
  awp (ir.add_exit_cond v p) Q E vs s.
Proof.
  awp_intro. eapply gwp_exit_cond; [done..|]. destruct (y =? 0); [awp_done|]; by exists s.
Qed.

Lemma awp_exit v x Q (E : unit -> Z -> G -> Prop) vs s :
  rdv IR_REG_64 vs v = Some x -> E tt x s -> awp (ir.add_exit v) Q E vs s.
Proof. awp_intro. eapply gwp_exit; [done|]. by exists s. Qed.

Lemma awp_last {A B} (g : gen A) (b : B) Q E vs s :
  awp g (fun _ vs' s' => Q b vs' s') (fun _ v s' => E b v s') vs s -> awp (g ;; mret b) Q E vs s.
Proof. intros Hg Hok m Hm. apply gwp_last. by apply Hg. Qed.

Lemma awp_mono {A} (g : gen A) Q Q' E vs s :
  awp g Q E vs s -> (forall a vs' s', Q a vs' s' -> Q' a vs' s') -> awp g Q' E vs s.
Proof.
  intros Hg HQ Hok m Hm. eapply gwp_mono; [by apply Hg| |done].
  intros a st' vs' m' (-> & Hok' & s' & Hm' & HQ'). split; [done|]. split; [done|]. eauto.
Qed.

Lemma awp_mono_exit {A} (g : gen A) Q (E E' : A -> Z -> G -> Prop) vs s :
  awp g Q E vs s -> (forall a v s', E a v s' -> E' a v s') -> awp g Q E' vs s.
Proof.
  intros Hg HE Hok m Hm. eapply gwp_mono; [by apply Hg|done|].
  cbn. intros a v m' (s' & Hm' & H). eauto.
Qed.

Lemma awp_mov_const w v Q E vs s :
  Q (length vs) (vs ++ [(w, wrap (bits w) v)]) s -> awp (ir.add_mov_const w v) Q E vs s.
Proof.
  awp_intro. apply gwp_mov_const. awp_done; [|by eauto]. apply wrap_range. pose proof (bits_pos w). lia.
Qed.

Lemma awp_binop k w a b x y z Q E vs s :
  rdv w vs a = Some x -> rdv (op2_type k w) vs b = Some y -> irBinop_sem k w x y = Some z ->
  Q (length vs) (vs ++ [(w, z)]) s -> awp (ir.add_binop k w a b) Q E vs s.
Proof.
  awp_intro. eapply gwp_binop; [done..|]. awp_done; [|by eauto].
  eapply irBinop_range; [eapply rdv_range..|]; done.
Qed.

Lemma awp_cast t o x Q E vs s :
  rdv (cast_src t) vs o = Some x -> Q (length vs) (vs ++ [(cast_dst t, irCast_sem t x)]) s ->
  awp (ir.add_cast t o) Q E vs s.
Proof.
  awp_intro. eapply gwp_cast; [done..|]. awp_done; [|by eauto]. apply wrap_range.
  pose proof (bits_pos (cast_dst t)). cbn. lia.
Qed.

Lemma awp_ite w p t f ty x y z Q E vs s :
  vs !! p = Some (ty, x) -> rdv ty vs t = Some y -> rdv ty vs f = Some z ->
  Q (length vs) (vs ++ [(ty, if x =? 0 then z else y)]) s -> awp (ir.add_ite w p t f) Q E vs s.
Proof.
  awp_intro. eapply gwp_ite; [done..|]. awp_done; [|by eauto].
  cbn. destruct (x =? 0); by eapply rdv_range.
Qed.

Lemma awp_ok {A} (g : gen A) Q E vs s : (values_ok vs -> awp g Q E vs s) -> awp g Q E vs s.
Proof. intros Hg Hok. by apply Hg. Qed.

Lemma awp_mk_8 v Q E vs s : 0 <= v < 256 -> Q (length vs) (vs ++ [(IR_REG_8, v)]) s -> awp (mk_8 v) Q E vs s.
Proof. intros Hv HQ. apply awp_mov_const. by rewrite wrap_small. Qed.

(** A context field that is not part of the guest's state. *)
Lemma awp_write_hidden w r off v Q E vs s :
  0 <= off < 2 ^ 31 -> rdv w vs r = Some v ->
  (forall m, guest_represents ctx s m -> guest_represents ctx s (store_mem w m (ctx + off) v)) ->
  Q tt vs s -> awp (ir.add_write_context w r off) Q E vs s.
Proof. awp_intro. eapply gwp_write_context; [done..|]. awp_done. eauto. Qed.
End sim.
