(* ===== verification/FrontTyped.v ===== *)
(** * Requests the builder accepts

    The builder asserts that the registers of a request exist and have the types
    of its operands.  [session_ok] is a static check of a list of requests,
    after which the only reason to stop is a full pool; [gives] says that what
    a front end requests passes the check, and how many requests there are. *)

From S2P Require Import Prelude Ir Jitter IrRequests FrontGen.

(** ** The check *)

(** The types of the registers, by index. *)
Abbreviation regTypes := (list irRegisterType).

Definition known (Γ : regTypes) (r : nat) : bool := bool_decide (r < length Γ)%nat.
Definition typed (Γ : regTypes) (r : nat) (t : irRegisterType) : bool := bool_decide (Γ !! r = Some t).

Definition request_ok (c : irCall) (Γ : regTypes) : bool :=
  forallb (known Γ) (call_args c) &&
  match c with
  | CallStore w s _ => typed Γ s w
  | CallBinop k w a b => typed Γ a w && typed Γ b (op2_type k w)
  | CallIte _ p t f => bool_decide (Γ !! p = Γ !! t) && bool_decide (Γ !! p = Γ !! f)
  | CallExit v | CallExitCond v _ => typed Γ v IR_REG_64
  | _ => true
  end.

Definition types_after (c : irCall) (Γ : regTypes) : regTypes :=
  Γ ++ match c with
       | CallMovConst w _ | CallLoad w _ | CallReadContext w _ | CallCall w _ _ | CallBinop _ w _ _ => [w]
       | CallIte _ _ t _ => option_list (Γ !! t)
       | CallCast t _ => [cast_dst t]
       | _ => []
       end.

Fixpoint session_types (cs : list irCall) (Γ : regTypes) : regTypes :=
  match cs with
  | [] => Γ
  | c :: cs => session_types cs (types_after c Γ)
  end.

Fixpoint session_ok (cs : list irCall) (Γ : regTypes) : bool :=
  match cs with
  | [] => true
  | c :: cs => request_ok c Γ && session_ok cs (types_after c Γ)
  end.

Lemma session_ok_app cs cs' Γ :
  session_ok (cs ++ cs') Γ = session_ok cs Γ && session_ok cs' (session_types cs Γ).
Proof. revert Γ. induction cs as [|c cs IH]; intros Γ; [done|]. cbn. by rewrite IH, andb_assoc. Qed.

Lemma session_types_app cs cs' Γ : session_types (cs ++ cs') Γ = session_types cs' (session_types cs Γ).
Proof. revert Γ. induction cs as [|c cs IH]; intros Γ; [done|]. cbn. by rewrite IH. Qed.

Lemma session_types_prefix cs Γ : Γ `prefix_of` session_types cs Γ.
Proof.
  revert Γ. induction cs as [|c cs IH]; intros Γ; [done|]. cbn.
  etrans; [|apply IH]. apply prefix_app_r. done.
Qed.

Lemma forallb_known us Γ : forallb (known Γ) us = true <-> Forall (fun r => r < length Γ)%nat us.
Proof.
  rewrite forallb_forall, Forall_forall. unfold known.
  split; intros H x Hx; [apply (bool_decide_eq_true_1 _ (H x (proj1 (list_elem_of_In _ _) Hx)))|].
  apply bool_decide_eq_true_2, H. by apply list_elem_of_In.
Qed.

Lemma types_after_length c Γ :
  request_ok c Γ = true -> length (types_after c Γ) = (length Γ + count_regs [c])%nat.
Proof.
  intros [Hk _]%andb_true_iff. apply forallb_known in Hk. unfold types_after. rewrite length_app. f_equal.
  destruct c; try done. cbn in *. decompose_Forall_hyps.
  match goal with H : (trueOp < _)%nat |- _ => apply lookup_lt_is_Some_2 in H as [x ->] end. done.
Qed.

Lemma session_types_length cs Γ :
  session_ok cs Γ = true -> length (session_types cs Γ) = (length Γ + count_regs cs)%nat.
Proof.
  revert Γ. induction cs as [|c cs IH]; intros Γ; cbn; [lia|]. intros [Hc Hcs]%andb_true_iff.
  rewrite (IH _ Hcs), (types_after_length _ _ Hc). cbn. lia.
Qed.

(** ** The builder's side *)

(** [Γ] is the types of the registers of the builder. *)
Definition types_of (j : jitter) : regTypes := type <$> regs j.

Lemma has_type_typed j r t : has_type (regs j) r t = typed (types_of j) r t.
Proof. unfold has_type, typed, types_of. by rewrite list_lookup_fmap. Qed.

Lemma request_ok_asserts c j : request_ok c (types_of j) = true -> call_asserts c (regs j) = true.
Proof.
  intros [_ H]%andb_true_iff. destruct c; try done; unfold call_asserts; rewrite ?has_type_typed; try done.
  unfold types_of in H. by rewrite !list_lookup_fmap in H.
Qed.

Lemma request_ok_args c j : request_ok c (types_of j) = true -> valid_args j (call_args c).
Proof.
  intros [H _]%andb_true_iff. apply forallb_known in H. unfold types_of in H. by rewrite length_fmap in H.
Qed.

Lemma types_of_emit c j :
  request_ok c (types_of j) = true ->
  types_of (emit (call_type c (regs j)) (call_insn c (length (regs j))) j) = types_after c (types_of j).
Proof.
  intros Hok. pose proof (request_ok_args _ _ Hok) as Ha. unfold types_of, types_after. rewrite regs_emit.
  assert (Hty : forall us k l, type <$> touch_list k us l = type <$> l).
  { intros us k l. apply list_eq. intros r. rewrite !list_lookup_fmap, lookup_touch_list.
    destruct (l !! r); [|done]. cbn. by case_decide. }
  rewrite Hty, fmap_app. f_equal. destruct c; try done. cbn. unfold valid_args in Ha. cbn in Ha.
  decompose_Forall_hyps. rewrite list_lookup_fmap. by destruct (regs j !! trueOp).
Qed.

(** The room that [rs] registers and [is] instructions take. *)
Definition pools_fit (rs is' : nat) (j : jitter) : Prop :=
  pool_index (registerPoolAllocator j) + sizeof_irRegister * Z.of_nat rs <= pool_size (registerPoolAllocator j) /\
  pool_index (instructionPoolAllocator j) + sizeof_irInstruction * Z.of_nat is'
    <= pool_size (instructionPoolAllocator j).

(** A session that passes the check never stops on an assertion: the builder
    takes all of it when the pools have the room. *)
Lemma session_accepted cs j :
  session_ok cs (types_of j) = true -> pools_fit (count_regs cs) (length cs) j ->
  session_valid cs j = true /\
  exists j', irAlloc_session cs j = Some (tt, j') /\ types_of j' = session_types cs (types_of j).
Proof.
  revert j. induction cs as [|c cs IH]; intros j; [by eauto|].
  cbn [session_ok session_valid irAlloc_session length session_types]. intros [Hc Hcs]%andb_true_iff [Hr Hi].
  pose proof (request_ok_args _ _ Hc) as Ha.
  assert (Hct : count (call_type c (regs j)) = Z.of_nat (count_regs [c])).
  { pose proof (types_after_length _ _ Hc) as Hl. rewrite <- types_of_emit in Hl by done.
    unfold types_of in Hl. rewrite !length_fmap, length_regs_emit in Hl.
    unfold count. destruct (call_type c (regs j)); lia. }
  cbn [count_regs] in Hr, Hct.
  assert (Hrun : irAlloc_run c j = Some ((fun _ => length (regs j)) <$> call_type c (regs j),
                   emit (call_type c (regs j)) (call_insn c (length (regs j))) j)).
  { rewrite (irAlloc_run_eq _ _ Ha). unfold run_spec. rewrite (request_ok_asserts _ _ Hc).
    assert (room_b (call_type c (regs j)) j = true) as ->.
    { unfold room_b. apply orb_true_iff. left. apply Z.leb_le. rewrite Hct. unfold sizeof_irRegister in *. lia. }
    assert (insn_room_b j = true) as ->; [|done].
    apply Z.leb_le. unfold sizeof_irInstruction in *. lia. }
  rewrite <- types_of_emit in Hcs |- * by done.
  destruct (IH _ Hcs) as (Hv & j' & Hs & Ht).
  { split; cbn; rewrite ?Hct; unfold sizeof_irRegister, sizeof_irInstruction in *; lia. }
  rewrite (bind_Some_eq _ _ _ _ _ Hrun), Hrun. split; [|by exists j'].
  apply andb_true_iff. split; [|exact Hv]. apply forallb_forall. intros r Hr'. apply Nat.ltb_lt.
  unfold valid_args in Ha. rewrite Forall_forall in Ha. apply Ha. by apply list_elem_of_In.
Qed.

(** ** What a front end requests *)

Section gives.
Context {S : Type}.
Abbreviation gen := (genM S).

(** Where registers of types [Γ] exist, [g] returns, makes at most [k]
    requests, all accepted, and its result satisfies [P] of the types of the
    registers that exist then. *)
Definition gives {A} (P : A -> regTypes -> Prop) (k : nat) (g : gen A) (Γ : regTypes) : Prop :=
  forall st rs, count_regs rs = length Γ ->
  exists a st' new, g (mkGen st rs) = Some (a, mkGen st' (rs ++ new)) /\
    session_ok new Γ = true /\ P a (session_types new Γ) /\ (length new <= k)%nat.

(** A register of a type; a result without one. *)
Definition reg (t : irRegisterType) (r : nat) (Γ : regTypes) : Prop := Γ !! r = Some t.
Definition some_reg (r : nat) (Γ : regTypes) : Prop := exists t, reg t r Γ.
Definition any {A} (a : A) (Γ : regTypes) : Prop := True.
Definition opt (t : irRegisterType) (o : option nat) (Γ : regTypes) : Prop :=
  match o with Some r => reg t r Γ | None => True end.

Lemma gives_ret {A} (P : A -> regTypes -> Prop) k a Γ : P a Γ -> gives P k (mret a) Γ.
Proof. intros HP st rs _. exists a, st, []. rewrite app_nil_r. repeat split; [done|]. cbn. lia. Qed.

Lemma gives_bind {A B} (P1 : A -> regTypes -> Prop) (P : B -> regTypes -> Prop) k1 k2 k g h Γ :
  gives P1 k1 g Γ ->
  (forall a Γ', Γ `prefix_of` Γ' -> P1 a Γ' -> gives P k2 (h a) Γ') ->
  (k1 + k2 <= k)%nat -> gives P k (g ≫= h) Γ.
Proof.
  intros Hg Hh Hk st rs Hrs. destruct (Hg st rs Hrs) as (a & st1 & new1 & E1 & Ok1 & HP1 & L1).
  destruct (Hh a _ (session_types_prefix new1 Γ) HP1 st1 (rs ++ new1)) as (b & st2 & new2 & E2 & Ok2 & HP2 & L2).
  { rewrite count_regs_app, Hrs. symmetry. by apply session_types_length. }
  exists b, st2, (new1 ++ new2). split.
  - unfold mbind, stM_bind. rewrite E1. by rewrite E2, app_assoc.
  - rewrite session_ok_app, session_types_app, Ok1, Ok2, length_app. repeat split; [done|]. lia.
Qed.

Lemma gives_mono {A} (P P' : A -> regTypes -> Prop) k k' g Γ :
  gives P k g Γ -> (forall a Γ', P a Γ' -> P' a Γ') -> (k <= k')%nat -> gives P' k' g Γ.
Proof.
  intros Hg HP Hk st rs Hrs. destruct (Hg st rs Hrs) as (a & st' & new & E & Ok & H & L).
  exists a, st', new. repeat split; [done..|by apply HP|lia].
Qed.

Lemma gives_if {A} (P : A -> regTypes -> Prop) k (b : bool) g1 g2 Γ :
  gives P k g1 Γ -> gives P k g2 Γ -> gives P k (if b then g1 else g2) Γ.
Proof. by destruct b. Qed.

Lemma gives_request_reg c t Γ :
  request_ok c Γ = true -> types_after c Γ = Γ ++ [t] -> gives (reg t) 1 (request_reg c) Γ.
Proof.
  intros Hc Ht st rs Hrs. exists (length Γ), st, [c].
  split; [unfold request_reg; cbn; by rewrite Hrs|]. cbn. rewrite Hc, Ht. repeat split; [|done].
  apply list_lookup_middle. done.
Qed.

Lemma gives_request c Γ : request_ok c Γ = true -> gives any 1 (request c) Γ.
Proof. intros Hc st rs Hrs. exists tt, st, [c]. split; [done|]. cbn. by rewrite Hc. Qed.

(** ** Requests *)

Lemma known_reg Γ r t : reg t r Γ -> known Γ r = true.
Proof. intros H. apply bool_decide_eq_true_2. by eapply lookup_lt_Some. Qed.

Lemma typed_reg Γ r t : reg t r Γ -> typed Γ r t = true.
Proof. intros H. by apply bool_decide_eq_true_2. Qed.

Definition params_known (Γ : regTypes) (ps : list (option nat)) : Prop :=
  forallb (known Γ) (ps ≫= option_list) = true.

Lemma params_nil Γ : params_known Γ [].
Proof. done. Qed.

Lemma params_None Γ ps : params_known Γ ps -> params_known Γ (None :: ps).
Proof. done. Qed.

Lemma params_Some Γ t r ps : reg t r Γ -> params_known Γ ps -> params_known Γ (Some r :: ps).
Proof. intros Hr%known_reg Hps. unfold params_known. cbn. by rewrite Hr. Qed.

Lemma gives_mov_const w v Γ : gives (reg w) 1 (ir.add_mov_const w v) Γ.
Proof. by apply gives_request_reg. Qed.

Lemma gives_load t w a Γ : reg t a Γ -> gives (reg w) 1 (ir.add_load w a) Γ.
Proof. intros Ha%known_reg. apply gives_request_reg; [|done]. unfold request_ok. cbn. by rewrite Ha. Qed.

Lemma gives_store t w s a Γ : reg w s Γ -> reg t a Γ -> gives any 1 (ir.add_store w s a) Γ.
Proof.
  intros Hs Ha%known_reg. apply gives_request. unfold request_ok. cbn.
  by rewrite Ha, (known_reg _ _ _ Hs), typed_reg.
Qed.

Lemma gives_binop k w a b Γ :
  reg w a Γ -> reg (op2_type k w) b Γ -> gives (reg w) 1 (ir.add_binop k w a b) Γ.
Proof.
  intros Ha Hb. apply gives_request_reg; [|done]. unfold request_ok. cbn.
  by rewrite (known_reg _ _ _ Ha), (known_reg _ _ _ Hb), !typed_reg.
Qed.

Lemma gives_call_void t a ps Γ : reg t a Γ -> params_known Γ ps -> gives any 1 (ir.add_call_void a ps) Γ.
Proof.
  intros Ha%known_reg Hps. apply gives_request. unfold request_ok. cbn.
  unfold params_known in Hps. by rewrite Ha, Hps.
Qed.

Lemma gives_call t w a ps Γ : reg t a Γ -> params_known Γ ps -> gives (reg w) 1 (ir.add_call w a ps) Γ.
Proof.
  intros Ha%known_reg Hps. apply gives_request_reg; [|done]. unfold request_ok. cbn.
  unfold params_known in Hps. by rewrite Ha, Hps.
Qed.

Lemma gives_ite w ty p t f Γ :
  reg ty p Γ -> reg ty t Γ -> reg ty f Γ -> gives (reg ty) 1 (ir.add_ite w p t f) Γ.
Proof.
  unfold reg. intros Hp Ht Hf. apply gives_request_reg; [|unfold types_after; by rewrite Ht].
  unfold request_ok. cbn. rewrite (known_reg _ _ _ Hp), (known_reg _ _ _ Ht), (known_reg _ _ _ Hf), Hp, Ht, Hf.
  by rewrite bool_decide_eq_true_2.
Qed.

Lemma gives_cast w t o Γ : reg w o Γ -> gives (reg (cast_dst t)) 1 (ir.add_cast t o) Γ.
Proof. intros Ho%known_reg. apply gives_request_reg; [|done]. unfold request_ok. cbn. by rewrite Ho. Qed.

Lemma gives_exit v Γ : reg IR_REG_64 v Γ -> gives any 1 (ir.add_exit v) Γ.
Proof. intros Hv. apply gives_request. unfold request_ok. cbn. by rewrite (known_reg _ _ _ Hv), typed_reg. Qed.

Lemma gives_exit_cond t v p Γ : reg IR_REG_64 v Γ -> reg t p Γ -> gives any 1 (ir.add_exit_cond v p) Γ.
Proof.
  intros Hv Hp%known_reg. apply gives_request. unfold request_ok. cbn.
  by rewrite (known_reg _ _ _ Hv), Hp, typed_reg.
Qed.

Lemma gives_read_context w off Γ : gives (reg w) 1 (ir.add_read_context w off) Γ.
Proof. by apply gives_request_reg. Qed.

Lemma gives_write_context t w s off Γ : reg t s Γ -> gives any 1 (ir.add_write_context w s off) Γ.
Proof. intros Hs%known_reg. apply gives_request. unfold request_ok. cbn. by rewrite Hs. Qed.

Lemma gives_mk_8 v Γ : gives (reg IR_REG_8) 1 (mk_8 v) Γ.
Proof. apply gives_mov_const. Qed.
Lemma gives_mk_16 v Γ : gives (reg IR_REG_16) 1 (mk_16 v) Γ.
Proof. apply gives_mov_const. Qed.
Lemma gives_mk_32 v Γ : gives (reg IR_REG_32) 1 (mk_32 v) Γ.
Proof. apply gives_mov_const. Qed.
Lemma gives_mk_64 v Γ : gives (reg IR_REG_64) 1 (mk_64 v) Γ.
Proof. apply gives_mov_const. Qed.

Lemma gives_marker v Γ : gives any 1 (request (CallMarker v)) Γ.
Proof. by apply gives_request. Qed.

Lemma gives_modify f Γ :
  (forall st rs, requests (f (mkGen st rs)) = rs) -> gives any 0 (modify_state f : gen unit) Γ.
Proof.
  intros Hf st rs _. exists tt, (front (f (mkGen st rs))), []. rewrite app_nil_r. repeat split; [|done].
  unfold modify_state. pose proof (Hf st rs) as E. destruct (f (mkGen st rs)). cbn in *. by subst.
Qed.

(** ** Sequences *)

Lemma gives_step {A B} (P1 : A -> regTypes -> Prop) (P : B -> regTypes -> Prop) k1 k g h Γ :
  gives P1 k1 g Γ -> (k1 <= k)%nat ->
  (forall a Γ', Γ `prefix_of` Γ' -> P1 a Γ' -> gives P (k - k1) (h a) Γ') -> gives P k (g ≫= h) Γ.
Proof. intros Hg Hk Hh. eapply gives_bind; [exact Hg|exact Hh|lia]. Qed.

Lemma gives_bind_ret {A B} (P : B -> regTypes -> Prop) k (a : A) h Γ :
  gives P k (h a) Γ -> gives P k (mret a ≫= h) Γ.
Proof. done. Qed.

Lemma gives_assoc {A B C} (P : C -> regTypes -> Prop) k (g : gen A) (f : A -> gen B) h Γ :
  gives P k (g ≫= (fun a => f a ≫= h)) Γ -> gives P k ((g ≫= f) ≫= h) Γ.
Proof.
  intros H st rs Hrs. destruct (H st rs Hrs) as (a & st' & new & E & Hr). exists a, st', new.
  split; [|done]. unfold mbind, stM_bind in *. destruct (g (mkGen st rs)) as [[x s]|]; [exact E|done].
Qed.

Lemma reg_prefix Γ Γ' t r : Γ `prefix_of` Γ' -> reg t r Γ -> reg t r Γ'.
Proof. intros Hp H. by eapply prefix_lookup_Some. Qed.

Lemma params_prefix Γ Γ' ps : Γ `prefix_of` Γ' -> params_known Γ ps -> params_known Γ' ps.
Proof.
  intros Hp. unfold params_known. rewrite !forallb_known, !Forall_forall. intros H x Hx.
  apply prefix_length in Hp. specialize (H x Hx). lia.
Qed.

Lemma opt_prefix Γ Γ' t o : Γ `prefix_of` Γ' -> opt t o Γ -> opt t o Γ'.
Proof. destruct o; [apply reg_prefix|done]. Qed.

(** ** Blocks *)

Lemma request_ok_shift c Γ0 Γ : request_ok (shift_call (length Γ0) c) (Γ0 ++ Γ) = request_ok c Γ.
Proof.
  assert (Hk : forall r, known (Γ0 ++ Γ) (length Γ0 + r) = known Γ r).
  { intros r. unfold known. apply bool_decide_ext. rewrite length_app. lia. }
  assert (Hl : forall r, (Γ0 ++ Γ) !! (length Γ0 + r)%nat = Γ !! r).
  { intros r. rewrite lookup_app_r by lia. f_equal. lia. }
  assert (Ht : forall r t, typed (Γ0 ++ Γ) (length Γ0 + r) t = typed Γ r t) by (intros; unfold typed; by rewrite Hl).
  assert (Hps : forall ps : list (option nat), forallb (known (Γ0 ++ Γ)) (map (option_map (Nat.add (length Γ0))) ps ≫= option_list)
                          = forallb (known Γ) (ps ≫= option_list)).
  { induction ps as [|[p|] ps IH]; [done| |exact IH]. cbn. by rewrite Hk, IH. }
  unfold request_ok. destruct c as [| | | | | | | | |v [p|]| | |]; cbn; rewrite ?Hk, ?Ht, ?Hl, ?Hps; done.
Qed.

Lemma types_after_shift c Γ0 Γ : types_after (shift_call (length Γ0) c) (Γ0 ++ Γ) = Γ0 ++ types_after c Γ.
Proof.
  unfold types_after. rewrite <- app_assoc. f_equal. f_equal. destruct c; try done. cbn.
  rewrite lookup_app_r by lia. by rewrite Nat.add_comm, Nat.add_sub.
Qed.

Lemma session_ok_shift cs Γ0 Γ : session_ok (map (shift_call (length Γ0)) cs) (Γ0 ++ Γ) = session_ok cs Γ.
Proof.
  revert Γ. induction cs as [|c cs IH]; intros Γ; [done|]. cbn.
  by rewrite request_ok_shift, types_after_shift, IH.
Qed.
End gives.

Section block.
Context {S : Type}.
Abbreviation gen := (genM S).

(** The types do not matter after an instruction. *)
Lemma gives_put_insn (g : genM S bool) k Γ : gives any k g [] -> gives any k (put_insn g) Γ.
Proof.
  intros Hg st rs Hrs. destruct (Hg st [] eq_refl) as (a & st' & new & E & Ok & _ & L). cbn [app] in E.
  exists a, st', (map (shift_call (count_regs rs)) new).
  split; [unfold put_insn; cbn [front requests]; by rewrite E|]. split; [|by rewrite length_map].
  rewrite Hrs. rewrite <- Ok. rewrite <- (session_ok_shift new Γ []). by rewrite app_nil_r.
Qed.

(** A session of at most [k] requests fits in pools with the room for [k]
    registers and [k] instructions, whatever [j] was used for before. *)
Definition room_for (k : Z) (j : jitter) : Prop :=
  sizeof_irRegister * k <= pool_size (registerPoolAllocator j) /\
  sizeof_irInstruction * k <= pool_size (instructionPoolAllocator j).

Lemma count_regs_length cs : (count_regs cs <= length cs)%nat.
Proof. induction cs as [|c cs IH]; [done|]. cbn. destruct (returns_reg c); lia. Qed.

Lemma gives_accepted {A} (g : gen A) k st j :
  gives any k g [] -> room_for (Z.of_nat k) j ->
  exists a s j', g (mkGen st []) = Some (a, s) /\
    session_valid (requests s) (resetJitter j) = true /\
    irAlloc_session (requests s) (resetJitter j) = Some (tt, j') /\ builder_wf j'.
Proof.
  intros Hg [Hr Hi]. destruct (Hg st [] eq_refl) as (a & st' & new & E & Ok & _ & L).
  pose proof (count_regs_length new). cbn [app] in E.
  destruct (session_accepted new (resetJitter j)) as (Hv & j' & Hs & _); [done| |].
  { split; cbn; unfold sizeof_irRegister, sizeof_irInstruction in *; lia. }
  exists a, (mkGen st' new), j'. split; [done|]. split; [done|]. split; [done|].
  by apply (irAlloc_session_keeps_wf new (resetJitter j)); [apply resetJitter_wf| |].
Qed.
End block.

(** ** Automation *)

Create HintDb gives discriminated.
#[export] Hint Constants Opaque : gives.
#[export] Hint Resolve gives_put_insn : gives.
#[export] Hint Extern 0 (reg _ _ _) => eassumption : gives.
#[export] Hint Extern 1 (reg (op2_type (if ?b then _ else _) _) _ _) => destruct b; eassumption : gives.
#[export] Hint Resolve gives_mov_const gives_load gives_store gives_binop gives_call_void gives_call gives_ite
  gives_mk_8 gives_mk_16 gives_mk_32 gives_mk_64 gives_marker gives_cast gives_exit gives_exit_cond gives_read_context gives_write_context
  params_nil params_None params_Some : gives.

(** Registers known before a request are known after it. *)
Ltac keep_regs :=
  repeat match goal with
         | Hp : ?Γ `prefix_of` ?Γ', H : reg _ _ ?Γ |- _ => apply (reg_prefix _ _ _ _ Hp) in H
         | Hp : ?Γ `prefix_of` ?Γ', H : opt _ _ ?Γ |- _ => apply (opt_prefix _ _ _ _ Hp) in H
         | Hp : ?Γ `prefix_of` ?Γ', H : params_known ?Γ _ |- _ => apply (params_prefix _ _ _ Hp) in H
         end;
  repeat match goal with
         | Hp : _ `prefix_of` _ |- _ => clear Hp
         | H : any _ _ |- _ => clear H
         | H : some_reg _ _ |- _ => destruct H as [? H]
         end.

Ltac head_const g := lazymatch g with ?f _ => head_const f | _ => g end.
Ltac unfold_head g :=
  let f := head_const g in
  lazymatch f with @request => fail | @request_reg => fail | @put_insn => fail | _ => unfold f end;
  repeat match goal with E : INSN1 ?i ?n = _ |- context [INSN1 ?i ?n] => rewrite E end.

Ltac gives_known := solve [eauto 9 with gives].

Ltac gives_next :=
  lazymatch goal with
  | |- context [Nat.mul _ _] => idtac
  | |- gives _ ?k _ _ => let k' := eval compute in k in change k with k'
  end.
Ltac gives_cost := first [apply leb_complete; reflexivity|lia].

Ltac gives_case x := first [match goal with E : x = _ |- _ => rewrite E end|destruct x eqn:?].

Ltac gives_one :=
  cbv beta zeta iota;
  lazymatch goal with
  | |- gives _ _ (mret _ ≫= _) _ => apply gives_bind_ret
  | |- gives _ _ ((_ ≫= _) ≫= _) _ => apply gives_assoc
  | |- gives _ _ (mret _) _ => apply gives_ret; first [exact I|eassumption|eexists; eassumption]
  | |- gives _ _ (match ?x with _ => _ end ≫= _) _ => gives_case x
  | |- gives _ _ (match ?x with _ => _ end) _ => gives_case x
  | |- gives _ _ (?g ≫= _) _ =>
      first [ eapply gives_step; [gives_known|gives_cost|intros ???? ; keep_regs; gives_next]
            | unfold_head g ]
  | |- gives _ _ ?g _ =>
      first [ eapply gives_mono; [gives_known|intros; first [exact I|assumption|eexists; eassumption]|gives_cost]
            | unfold_head g ]
  end.
Ltac gives := intros; repeat gives_one.

(** ** Examples *)

(** Guest memory that holds one instruction everywhere, and a builder with
    pools of a megabyte. *)
Definition filled (insn : Z) : mem := fun a => byte_of insn (a `mod` 4).
Definition roomy : jitter := mkJitter (mkPool [] 0 (2 ^ 20)) 0 0 (mkPool [] 0 (2 ^ 20)).
