(* ===== verification/TargetGen.v ===== *)
(** * What the targets share
      ([src/src/target/target.h], and what the [*_signal.c] files and the files
      of the contexts have in common)

    The context of a thread is a structure in memory.  A guest signal handler
    runs in a context of its own, which points to the one it interrupted. *)

From S2P Require Import Prelude Ir Jitter BeX86 BeGen CodeCache Loop Main IrRequests FrontGen FrontWp.

(** ** Structures in memory *)

(** [struct target] is before the registers of a context. *)
Definition sizeof_target : Z := 32.

(** Fields of a structure at [a]. *)
Definition get32 (a off : Z) (m : mem) : Z := load_mem IR_REG_32 m (a + off).
Definition get64 (a off : Z) (m : mem) : Z := load_mem IR_REG_64 m (a + off).
Definition set32 (a off v : Z) (m : mem) : mem := store_mem IR_REG_32 m (a + off) v.
Definition set64 (a off v : Z) (m : mem) : mem := store_mem IR_REG_64 m (a + off) v.
Definition set8 (a off v : Z) (m : mem) : mem := store_mem IR_REG_8 m (a + off) v.

(** [for(i = 0; i < n; i++)] on a memory. *)
Definition for_each (n : nat) (f : Z -> mem -> mem) (m : mem) : mem :=
  foldl (fun m i => f (Z.of_nat i) m) m (seq 0 n).

(** A field copied from the same one at [from]. *)
Definition copy64 (c from off : Z) (m : mem) : mem := set64 c off (get64 from off m) m.
Definition copy32 (c from off : Z) (m : mem) : mem := set32 c off (get32 from off m) m.

(** [container_of] *)
Definition regs_of (target : Z) : Z := target + sizeof_target.

(** ** Signals of the guest *)

(** The tables of handlers and flags, shared by the threads. *)
Record guest_signals := mkSignals {
  guest_signals_handler : Z -> Z;
  sa_flags : Z -> Z
}.

Definition set_entry (f : Z -> Z) (i v : Z) : Z -> Z := fun j => if j =? i then v else f j.

Definition SA_ONSTACK : Z := 0x08000000.

Definition MINSIGSTKSZ : Z := 2048.
Definition errno_EPERM : Z := 1.
Definition errno_ENOMEM : Z := 12.
Definition errno_EFAULT : Z := 14.
Definition errno_EINVAL : Z := 22.

(** ** Signals of the host *)

(** [struct kernel_sigaction], the handler as the function it is. *)
Inductive host_handler :=
  | HandlerValue (v : Z)              (** [SIG_ERR], [SIG_DFL], [SIG_IGN] *)
  | wrap_signal_handler
  | wrap_signal_sigaction.

Record kernel_sigaction := mkSigaction {
  k_sa_handler : host_handler;
  k_sa_flags : Z;
  k_sa_restorer : bool;               (** [wrap_signal_restorer], or NULL *)
  k_sa_mask : Z
}.

Definition SA_RESTORER : Z := 0x04000000.
Definition SA_SIGINFO : Z := 4.
Definition NSIG : Z := 65.

(** The members of the host's [siginfo_t]. *)
Record siginfo := mkSiginfo {
  si_signo : Z; si_errno : Z; si_code : Z; si_pid : Z; si_uid : Z; si_band : Z; si_fd : Z;
  si_status : Z; si_utime : Z; si_stime : Z; si_addr : Z; si_int : Z; si_ptr : Z; si_timerid : Z; si_overrun : Z
}.

Definition SIGPOLL : Z := 29.
Definition SIGCHLD : Z := 17.

(** [struct host_signal_info] *)
Record host_signal_info := mkSignalInfo {
  signal_siginfo : siginfo;
  host_pc : Z;                        (** of [context], [REG_RIP] *)
  is_sigaction_handler : bool
}.

Definition SIGNAL_LOCATION_UNKNOWN : Z := 0.
Definition SIGNAL_LOCATION_UMEQ_CODE : Z := 1.
Definition SIGNAL_LOCATION_JITTER_EXEC : Z := 2.

(** What [getExitStatus] asks the backend for: to resume the interrupted code
    elsewhere. *)
Inductive exit_request :=
  | Resume
  | AlternateExit (pc : Z).

(** ** A field after a store *)

Lemma get32_set32 a off v m :
  0 <= a + off -> a + off + 4 <= 2 ^ 64 -> get32 a off (set32 a off v m) = wrap 32 v.
Proof. intros. by apply (load_store_same IR_REG_32). Qed.

Lemma get32_set32_other a off a' off' v m :
  0 <= a + off -> a + off + 4 <= 2 ^ 64 -> 0 <= a' + off' -> a' + off' + 4 <= 2 ^ 64 ->
  a + off + 4 <= a' + off' \/ a' + off' + 4 <= a + off ->
  get32 a off (set32 a' off' v m) = get32 a off m.
Proof. intros. apply load_store_disjoint; change (bits IR_REG_32 / 8) with 4; lia. Qed.

Lemma store_bytes_at' bs m a x :
  0 <= a -> a + Z.of_nat (length bs) <= 2 ^ 64 -> x < a \/ a + Z.of_nat (length bs) <= x ->
  store_bytes bs m a x = m x.
Proof.
  revert m a. induction bs as [|b bs IH]; intros m a Ha He Hd; cbn [store_bytes length] in *; [done|].
  rewrite IH by lia. case_decide as Hq; [|done]. rewrite wrap_small in Hq by lia. lia.
Qed.

Lemma store_mem_at w a v m x :
  0 <= a -> a + bits w / 8 <= 2 ^ 64 -> x < a \/ a + bits w / 8 <= x -> store_mem w m a v x = m x.
Proof. intros. pose proof (bytes_range w). unfold store_mem. apply store_bytes_at'; rewrite ?length_store; lia. Qed.

Lemma set64_at a off v m x :
  0 <= a + off -> a + off + 8 <= 2 ^ 64 -> x < a + off \/ a + off + 8 <= x -> set64 a off v m x = m x.
Proof. by apply (store_mem_at IR_REG_64). Qed.

Lemma set32_at a off v m x :
  0 <= a + off -> a + off + 4 <= 2 ^ 64 -> x < a + off \/ a + off + 4 <= x -> set32 a off v m x = m x.
Proof. by apply (store_mem_at IR_REG_32). Qed.

Lemma set8_at a off v m x :
  0 <= a + off -> a + off + 1 <= 2 ^ 64 -> x < a + off \/ a + off + 1 <= x -> set8 a off v m x = m x.
Proof. by apply (store_mem_at IR_REG_8). Qed.

Lemma load_same w m m' a :
  0 <= a -> a + bits w / 8 <= 2 ^ 64 -> (forall x, a <= x < a + bits w / 8 -> m' x = m x) ->
  load_mem w m' a = load_mem w m a.
Proof.
  intros Ha Hb Hx. pose proof (bytes_range w). unfold load_mem. f_equal. apply load_bytes_ext. intros x Hr.
  rewrite wrap_small by lia. apply Hx. lia.
Qed.

Lemma get64_same a off m m' :
  0 <= a + off -> a + off + 8 <= 2 ^ 64 -> (forall x, a + off <= x < a + off + 8 -> m' x = m x) ->
  get64 a off m' = get64 a off m.
Proof. by apply (load_same IR_REG_64). Qed.

Lemma get32_same a off m m' :
  0 <= a + off -> a + off + 4 <= 2 ^ 64 -> (forall x, a + off <= x < a + off + 4 -> m' x = m x) ->
  get32 a off m' = get32 a off m.
Proof. by apply (load_same IR_REG_32). Qed.

Lemma get64_set64 a off v m : 0 <= a + off -> a + off + 8 <= 2 ^ 64 -> get64 a off (set64 a off v m) = wrap 64 v.
Proof. intros. by apply (load_store_same IR_REG_64). Qed.

Lemma get64_range a off m : 0 <= get64 a off m < 2 ^ 64.
Proof. apply (load_mem_range IR_REG_64). Qed.

Lemma get32_range a off m : 0 <= get32 a off m < 2 ^ 32.
Proof. apply (load_mem_range IR_REG_32). Qed.

(** ** Loops over a structure *)

Lemma for_each_inv (P : Z -> mem -> Prop) n f m :
  P 0 m -> (forall i m, 0 <= i < Z.of_nat n -> P i m -> P (i + 1) (f i m)) -> P (Z.of_nat n) (for_each n f m).
Proof.
  intros H0 Hs. unfold for_each. induction n as [|n IH]; [done|].
  rewrite seq_S, foldl_app. cbn [foldl]. replace (Z.of_nat (S n)) with (Z.of_nat n + 1) by lia.
  apply Hs; [lia|]. apply IH. intros i m' Hi. apply Hs. lia.
Qed.

Lemma for_each_at n f m x :
  (forall i m, 0 <= i < Z.of_nat n -> f i m x = m x) -> for_each n f m x = m x.
Proof.
  intros Hf. apply (for_each_inv (fun _ m' => m' x = m x)); [done|]. intros i m' Hi <-. by apply Hf.
Qed.


Definition copy_words (w : irRegisterType) (n : nat) (b : Z) (d : Z -> Z) (a : Z) (s : Z -> Z) : mem -> mem :=
  for_each n (fun i m => store_mem w m (b + d i) (load_mem w m (a + s i))).

Section copy.
Context (w : irRegisterType) (k : Z) (n : nat) (a b A B : Z) (s d : Z -> Z).
Hypothesis Hk : k = bits w / 8.
Hypothesis Hs : forall i, a + s i = A + k * i.
Hypothesis Hd : forall i, b + d i = B + k * i.
Hypothesis HA : 0 <= A /\ A + k * Z.of_nat n <= 2 ^ 64.
Hypothesis HB : 0 <= B /\ B + k * Z.of_nat n <= 2 ^ 64.
Hypothesis HAB : A + k * Z.of_nat n <= B \/ B + k * Z.of_nat n <= A.

Lemma word_inside i : 0 <= i < Z.of_nat n -> 0 < k /\ 0 <= k * i /\ k * i + k <= k * Z.of_nat n.
Proof. clear Hs Hd HA HB HAB. pose proof (bytes_range w). subst k. nia. Qed.

Lemma copy_words_at m x : x < B \/ B + k * Z.of_nat n <= x -> copy_words w n b d a s m x = m x.
Proof.
  clear Hs HA HAB. intros Hx. apply for_each_at. intros i m' Hi. pose proof (word_inside i Hi). apply store_mem_at; rewrite Hd, <- ?Hk; lia.
Qed.

Lemma copy_words_get m j :
  0 <= j < Z.of_nat n -> load_mem w (copy_words w n b d a s m) (b + d j) = load_mem w m (a + s j).
Proof.
  intros [H0 Hj]. enough (H : (forall x, x < B \/ B + k * Z.of_nat n <= x -> copy_words w n b d a s m x = m x) /\
    (j < Z.of_nat n -> load_mem w (copy_words w n b d a s m) (b + d j) = load_mem w m (a + s j))) by by apply H.
  apply (for_each_inv (fun l m' => (forall x, x < B \/ B + k * Z.of_nat n <= x -> m' x = m x) /\
    (j < l -> load_mem w m' (b + d j) = load_mem w m (a + s j)))); [split; [done|lia]|].
  intros i m' Hi [Hx Hr]. pose proof (word_inside i Hi). pose proof (word_inside j ltac:(lia)). split.
  - intros x Hx'. rewrite store_mem_at by (rewrite Hd, <- ?Hk; lia). by apply Hx.
  - intros Hij. destruct (decide (i = j)) as [->|Hne].
    + rewrite load_store_same by (rewrite Hd, <- ?Hk; lia). rewrite wrap_small by apply load_mem_range.
      apply load_same; rewrite Hs, <- ?Hk; [lia..|]. intros x Hx'. apply Hx. lia.
    + rewrite <- Hr by lia. apply load_same; rewrite Hd, <- ?Hk; [lia..|]. intros x Hx'.
      apply store_mem_at; rewrite Hd, <- ?Hk; nia.
Qed.
End copy.

Lemma get64_set64_other a off b off' v m :
  0 <= a + off -> a + off + 8 <= 2 ^ 64 -> 0 <= b + off' -> b + off' + 8 <= 2 ^ 64 ->
  a + off + 8 <= b + off' \/ b + off' + 8 <= a + off -> get64 a off (set64 b off' v m) = get64 a off m.
Proof. intros. apply get64_same; [lia..|]. intros x Hx. apply set64_at; lia. Qed.

Lemma get64_set32_other a off b off' v m :
  0 <= a + off -> a + off + 8 <= 2 ^ 64 -> 0 <= b + off' -> b + off' + 4 <= 2 ^ 64 ->
  a + off + 8 <= b + off' \/ b + off' + 4 <= a + off -> get64 a off (set32 b off' v m) = get64 a off m.
Proof. intros. apply get64_same; [lia..|]. intros x Hx. apply set32_at; lia. Qed.

Lemma get32_set64_other a off b off' v m :
  0 <= a + off -> a + off + 4 <= 2 ^ 64 -> 0 <= b + off' -> b + off' + 8 <= 2 ^ 64 ->
  a + off + 4 <= b + off' \/ b + off' + 8 <= a + off -> get32 a off (set64 b off' v m) = get32 a off m.
Proof. intros. apply get32_same; [lia..|]. intros x Hx. apply set64_at; lia. Qed.
