(* ===== verification/ArmPseudo.v ===== *)
(** * Shared functions of the ARM pseudocode

    The flags, the arithmetic and the shifts that the descriptions of A64 and
    A32 instructions use, and what the front ends and helpers compute in their
    place. *)

From S2P Require Import Prelude Ir FrontGen.

(** ** Fields and flags *)

(** Unsigned fields of [n] bits. *)
Definition field (n v : Z) : bool := (0 <=? v) && (v <? 2 ^ n).

(** [PSTATE.<N,Z,C,V>] *)
Record pstate := mkFlags { flagN : bool; flagZ : bool; flagC : bool; flagV : bool }.

(** The flags in the word [nzcv]. *)
Definition flags_of (v : Z) : pstate :=
  mkFlags (Z.testbit v 31) (Z.testbit v 30) (Z.testbit v 29) (Z.testbit v 28).

(** ** Functions of the pseudocode *)

Definition AddWithCarry (n x y : Z) (carry_in : bool) : Z * pstate :=
  let unsigned_sum := x + y + Z.b2z carry_in in
  let signed_sum := to_signed n x + to_signed n y + Z.b2z carry_in in
  let result := wrap n unsigned_sum in
  (result, mkFlags (Z.testbit result (n - 1)) (result =? 0) (negb (result =? unsigned_sum))
                   (negb (to_signed n result =? signed_sum))).

Definition NOT (n x : Z) : Z := Z.ones n - x.

Definition ConditionHolds (cond : Z) (f : pstate) : bool :=
  let result :=
    match Z.shiftr cond 1 with
    | 0 => flagZ f
    | 1 => flagC f
    | 2 => flagN f
    | 3 => flagV f
    | 4 => flagC f && negb (flagZ f)
    | 5 => Bool.eqb (flagN f) (flagV f)
    | 6 => Bool.eqb (flagN f) (flagV f) && negb (flagZ f)
    | _ => true
    end in
  if Z.odd cond && negb (cond =? 15) then negb result else result.

Definition LSL (n x k : Z) : Z := wrap n (Z.shiftl x k).

Definition LSR (x k : Z) : Z := Z.shiftr x k.

Definition ASR (n x k : Z) : Z := wrap n (Z.shiftr (to_signed n x) k).

Definition ROR (n x k : Z) : Z := wrap n (Z.lor (Z.shiftr x k) (Z.shiftl x (n - k))).

Definition Shift (n type x k : Z) : Z :=
  match type with 0 => LSL n x k | 1 => LSR x k | 2 => ASR n x k | _ => ROR n x k end.

Definition SignExtend (k x : Z) : Z := to_signed k x.

Definition logical (opc x y : Z) : Z :=
  match opc with 1 => Z.lor x y | 2 => Z.lxor x y | _ => Z.land x y end.

(** Flags of a logical operation. *)
Definition logical_flags (n r : Z) : pstate := mkFlags (Z.testbit r (n - 1)) (r =? 0) false false.

(** Bits in the order opposite to theirs, [n] of them. *)
Fixpoint BitReverse (n : nat) (x : Z) : Z :=
  match n with O => 0 | S n => (x mod 2) * 2 ^ Z.of_nat n + BitReverse n (x / 2) end.

(** The bytes of each group of [group], in [count] groups, reversed. *)
Fixpoint Reverse_bytes (count group : nat) (x : Z) : Z :=
  match count with
  | O => 0
  | S c => let w := 8 * Z.of_nat group in
           le_join (rev (le_bytes group x)) + 2 ^ w * Reverse_bytes c group (x / 2 ^ w)
  end.

Definition CountLeadingZeroBits (n x : Z) : Z := if x =? 0 then n else n - 1 - Z.log2 x.

(** ** Fields of an instruction *)

Lemma INSN_eq insn msb lsb :
  0 <= lsb <= msb -> INSN insn msb lsb = (insn / 2 ^ lsb) mod 2 ^ (msb - lsb + 1).
Proof.
  intros H. unfold INSN. rewrite Z.shiftr_div_pow2 by lia.
  rewrite Z.shiftl_1_l, Z.sub_1_r, <- Z.ones_equiv. by rewrite Z.land_ones by lia.
Qed.

Lemma INSN_range insn msb lsb : 0 <= lsb <= msb -> 0 <= INSN insn msb lsb < 2 ^ (msb - lsb + 1).
Proof. intros H. rewrite INSN_eq by done. apply Z.mod_pos_bound. lia. Qed.

Lemma INSN1_eq insn bit b : INSN insn bit bit = Z.b2z b -> INSN1 insn bit = b.
Proof. unfold INSN1. intros ->. by destruct b. Qed.

Lemma b2z_range b : 0 <= Z.b2z b <= 1.
Proof. destruct b; cbn; lia. Qed.

Ltac field_numerals :=
  repeat match goal with
  | |- context [2 ^ ?k] => let v := eval vm_compute in (2 ^ k) in change (2 ^ k) with v
  end.

Ltac insn_field :=
  rewrite INSN_eq by lia; field_numerals; Z.div_mod_to_equations; lia.

(** ** Flags *)

Lemma sign_bit w x : 0 < w -> 0 <= x < 2 ^ w -> Z.testbit x (w - 1) = (2 ^ (w - 1) <=? x).
Proof.
  intros Hw Hx. assert (2 ^ w = 2 * 2 ^ (w - 1)) by (rewrite <- Z.pow_succ_r by lia; f_equal; lia).
  rewrite Z.testbit_odd, Z.shiftr_div_pow2 by lia. destruct (Z.leb_spec (2 ^ (w - 1)) x).
  - replace (x / 2 ^ (w - 1)) with 1; [done|]. apply Z.div_unique with (x - 2 ^ (w - 1)); lia.
  - by rewrite Z.div_small by lia.
Qed.

Lemma to_signed_bit w x : 0 < w -> 0 <= x < 2 ^ w -> to_signed w x = if 2 ^ (w - 1) <=? x then x - 2 ^ w else x.
Proof.
  intros Hw Hx. unfold to_signed. rewrite wrap_small by done.
  destruct (Z.ltb_spec x (2 ^ (w - 1))), (Z.leb_spec (2 ^ (w - 1)) x); lia.
Qed.

(** Arithmetic on numerals. *)
Ltac znum :=
  repeat match goal with
  | |- context [Zpos ?p - Zpos ?q] =>
      let v := eval vm_compute in (Zpos p - Zpos q) in change (Zpos p - Zpos q) with v
  | |- context [Zpos ?p + Zpos ?q] =>
      let v := eval vm_compute in (Zpos p + Zpos q) in change (Zpos p + Zpos q) with v
  | |- context [Zpos ?p + 0] => change (Zpos p + 0) with (Zpos p)
  | |- context [Zpos ?p ^ Zpos ?q] =>
      let v := eval vm_compute in (Zpos p ^ Zpos q) in change (Zpos p ^ Zpos q) with v
  end.

Ltac word_bit :=
  znum; rewrite ?Z.lor_spec; rewrite ?Z.land_spec, ?Z.shiftr_spec by lia; rewrite ?Z.land_spec; znum;
  repeat match goal with
  | |- context [Z.testbit (if ?b then ?x else ?y) ?k] =>
      replace (Z.testbit (if b then x else y) k) with (if b then Z.testbit x k else Z.testbit y k) by (by destruct b)
  end;
  repeat match goal with
  | |- context [Z.testbit (Zpos ?p) ?k] =>
      let v := eval vm_compute in (Z.testbit (Zpos p) k) in change (Z.testbit (Zpos p) k) with v
  | |- context [Z.testbit 0 ?k] => change (Z.testbit 0 k) with false
  end.

(** The word the helpers put together. *)
Definition nzcv_word (w calc : Z) (c : bool) (v old : Z) : Z :=
  Z.lor (Z.lor (Z.lor (Z.lor (Z.shiftr (Z.land calc (2 ^ (w - 1))) (w - 32))
    (if calc =? 0 then 0x40000000 else 0)) (if c then 0x20000000 else 0))
    (Z.land (Z.shiftr v (w - 29)) 0x10000000)) (Z.land old 0x0fffffff).

Lemma flags_of_nzcv_word w calc c v old :
  w = 32 \/ w = 64 ->
  flags_of (nzcv_word w calc c v old) = mkFlags (Z.testbit calc (w - 1)) (calc =? 0) c (Z.testbit v (w - 1)).
Proof.
  unfold flags_of, nzcv_word. intros [->| ->]; f_equal; word_bit; rewrite ?andb_false_r, ?andb_true_r;
    destruct (calc =? 0), c; rewrite ?orb_false_r; cbn [orb]; done.
Qed.

Lemma nzcv_word_range w calc c v old :
  w = 32 \/ w = 64 -> 0 <= calc < 2 ^ w -> 0 <= nzcv_word w calc c v old < 2 ^ 32.
Proof.
  intros Hw Hc. unfold nzcv_word.
  assert (Hm : forall a k, 0 <= k < 2 ^ 32 -> 0 <= Z.land a k < 2 ^ 32).
  { intros a k Hk. apply bits_range; [lia|apply Z.land_nonneg; lia|].
    intros i Hi. by rewrite Z.land_spec, (range_testbit 32 k), andb_false_r. }
  repeat apply lor_range; try lia.
  - split; [apply Z.shiftr_nonneg, Z.land_nonneg; lia|].
    rewrite Z.shiftr_div_pow2 by lia. apply Z.div_lt_upper_bound; [lia|].
    destruct Hw as [-> | ->]; znum.
    + change (2 ^ (32 - 32)) with 1. apply (land_range 32); lia.
    + apply (land_range 64); lia.
  - destruct (calc =? 0); lia.
  - destruct c; lia.
  - apply Hm. lia.
  - apply Hm. lia.
Qed.

(** Overflow is the sign of the operands against the sign of the result. *)
Lemma overflow_bit w x y c :
  w = 32 \/ w = 64 -> 0 <= x < 2 ^ w -> 0 <= y < 2 ^ w ->
  let r := wrap w (x + y + Z.b2z c) in
  Z.testbit (Z.land (Z.lxor r x) (Z.lxor r y)) (w - 1) = negb (to_signed w r =? to_signed w x + to_signed w y + Z.b2z c).
Proof.
  intros Hw Hx Hy r. assert (0 <= r < 2 ^ w) as Hr by (apply wrap_range; lia).
  pose proof (b2z_range c) as Hc. assert (r = x + y + Z.b2z c \/ r = x + y + Z.b2z c - 2 ^ w) as Hrv.
  { unfold r, wrap. destruct (Z_lt_ge_dec (x + y + Z.b2z c) (2 ^ w)); [left; apply Z.mod_small; lia|right].
    symmetry. apply Z.mod_unique with 1; lia. }
  clearbody r. rewrite Z.land_spec, !Z.lxor_spec, !sign_bit, !to_signed_bit by lia.
  generalize dependent (Z.b2z c). intros d Hd Hrv.
  destruct Hw as [-> | ->]; znum; repeat match goal with |- context [?a <=? ?b] => destruct (Z.leb_spec a b) end;
    cbn [xorb andb]; symmetry; first [apply negb_true_iff, Z.eqb_neq|apply negb_false_iff, Z.eqb_eq]; lia.
Qed.

Lemma carry_out w x y c :
  w = 32 \/ w = 64 -> 0 <= x < 2 ^ w -> 0 <= y < 2 ^ w ->
  let r := wrap w (x + y + Z.b2z c) in
  (if c : bool then r <=? x else r <? x) = negb (r =? x + y + Z.b2z c).
Proof.
  intros Hw Hx Hy r. assert (0 <= r < 2 ^ w) as Hr by (apply wrap_range; lia).
  assert (r = x + y + Z.b2z c \/ r = x + y + Z.b2z c - 2 ^ w) as Hrv.
  { pose proof (b2z_range c) as Hc. unfold r, wrap.
    destruct (Z_lt_ge_dec (x + y + Z.b2z c) (2 ^ w)); [left; apply Z.mod_small; lia|right].
    symmetry. apply Z.mod_unique with 1; lia. }
  clearbody r. destruct c; cbn [Z.b2z] in *; lia.
Qed.

Lemma NOT_range w y : 0 <= w -> 0 <= y < 2 ^ w -> 0 <= NOT w y < 2 ^ w.
Proof. intros. unfold NOT. rewrite Z.ones_equiv. lia. Qed.

Lemma sub_is_add_not w x y : 0 <= w -> wrap w (x + NOT w y + 1) = wrap w (x - y).
Proof.
  intros. unfold NOT, wrap. rewrite Z.ones_equiv.
  replace (x + (Z.pred (2 ^ w) - y) + 1) with (x - y + 1 * 2 ^ w) by lia. by rewrite Z.mod_add by lia.
Qed.

Lemma sub_flags w x y :
  w = 32 \/ w = 64 -> 0 <= x < 2 ^ w -> 0 <= y < 2 ^ w ->
  let r := wrap w (x - y) in
  mkFlags (Z.testbit r (w - 1)) (r =? 0) (y <=? x) (Z.testbit (Z.land (Z.lxor x y) (Z.lxor x r)) (w - 1)) =
  (AddWithCarry w x (NOT w y) true).2.
Proof.
  intros Hw Hx Hy r. assert (Hny := NOT_range w y ltac:(lia) Hy).
  unfold AddWithCarry. cbn [snd Z.b2z]. rewrite sub_is_add_not by lia. fold r.
  assert (0 <= r < 2 ^ w) as Hr by (apply wrap_range; lia).
  assert (r = x - y \/ r = x - y + 2 ^ w) as Hrv.
  { unfold r, wrap. destruct (Z_lt_ge_dec x y); [right|left; apply Z.mod_small; lia].
    symmetry. apply Z.mod_unique with (-1); lia. }
  clearbody r. f_equal.
  - unfold NOT in *. rewrite Z.ones_equiv in *. destruct (Z.leb_spec y x); symmetry;
      first [apply negb_true_iff, Z.eqb_neq|apply negb_false_iff, Z.eqb_eq]; lia.
  - rewrite Z.land_spec, !Z.lxor_spec, !sign_bit, !to_signed_bit by lia.
    unfold NOT in *. rewrite Z.ones_equiv in *.
    destruct Hw as [-> | ->]; znum; repeat match goal with |- context [?a <=? ?b] => destruct (Z.leb_spec a b) end;
      cbn [xorb andb]; symmetry; first [apply negb_true_iff, Z.eqb_neq|apply negb_false_iff, Z.eqb_eq]; lia.
Qed.

Lemma test_bit v k : 0 <= k -> negb (Z.land v (2 ^ k) =? 0) = Z.testbit v k.
Proof.
  intros Hk. destruct (Z.testbit v k) eqn:E.
  - apply negb_true_iff, Z.eqb_neq. intros H. assert (Z.testbit (Z.land v (2 ^ k)) k = false) as H1
      by (rewrite H; apply Z.testbit_0_l).
    rewrite Z.land_spec, E, Z.pow2_bits_true in H1 by lia. done.
  - apply negb_false_iff, Z.eqb_eq. apply Z.bits_inj'. intros i Hi. rewrite Z.land_spec, Z.testbit_0_l.
    destruct (Z.eq_dec i k) as [-> |]; [by rewrite E|]. by rewrite Z.pow2_bits_false, andb_false_r by lia.
Qed.

Lemma one_bit v k : 0 <= k -> Z.land (Z.shiftr v k) 1 = Z.b2z (Z.testbit v k).
Proof.
  intros Hk. rewrite (Z.land_ones _ 1) by lia. change (2 ^ 1) with 2. rewrite <- Z.bit0_mod.
  by rewrite Z.shiftr_spec by lia.
Qed.

(** ** Bits and shifts *)

Lemma wrap_bits_lor n a b : 0 <= n -> wrap n (Z.lor a b) = Z.lor (wrap n a) (wrap n b).
Proof.
  intros Hn. apply Z.bits_inj'. intros i Hi. rewrite Z.lor_spec, !testbit_wrap, Z.lor_spec by done.
  by destruct (i <? n).
Qed.

Lemma wrap_bits_land n a b : 0 <= n -> wrap n (Z.land a b) = Z.land (wrap n a) (wrap n b).
Proof.
  intros Hn. apply Z.bits_inj'. intros i Hi. rewrite Z.land_spec, !testbit_wrap, Z.land_spec by done.
  by destruct (i <? n).
Qed.

Lemma wrap_bits_lxor n a b : 0 <= n -> wrap n (Z.lxor a b) = Z.lxor (wrap n a) (wrap n b).
Proof.
  intros Hn. apply Z.bits_inj'. intros i Hi. rewrite Z.lxor_spec, !testbit_wrap, Z.lxor_spec by done.
  by destruct (i <? n).
Qed.

Lemma Shift_0 n type x : 0 <= n -> 0 <= x < 2 ^ n -> Shift n type x 0 = x.
Proof.
  intros Hn Hx. assert (Hl : LSL n x 0 = x) by (unfold LSL; rewrite Z.shiftl_0_r; by apply wrap_small).
  assert (Ha : ASR n x 0 = x).
  { unfold ASR. rewrite Z.shiftr_0_r. destruct (decide (n = 0)) as [->|].
    - cbn in Hx. assert (x = 0) as -> by lia. done.
    - rewrite to_signed_bit by lia. destruct (Z.leb_spec (2 ^ (n - 1)) x); [|by apply wrap_small].
      unfold wrap. symmetry. apply Z.mod_unique with (-1); lia. }
  assert (Hr : ROR n x 0 = x).
  { unfold ROR. rewrite Z.shiftr_0_r, Z.sub_0_r. rewrite wrap_bits_lor, Z.shiftl_mul_pow2 by lia.
    replace (wrap n (x * 2 ^ n)) with 0 by (unfold wrap; symmetry; apply Z.mod_mul; lia).
    rewrite Z.lor_0_r. by apply wrap_small. }
  unfold Shift. by repeat case_match.
Qed.

Lemma wrap_to_signed n k x : 0 < n <= k -> wrap n (to_signed k x) = wrap n x.
Proof.
  intros H. apply Z.bits_inj'. intros i Hi. rewrite !testbit_wrap by lia.
  destruct (Z.ltb_spec i n); [|done]. rewrite testbit_to_signed by lia. by rewrite Z.min_l by lia.
Qed.

(** Shifting up and back extends the sign. *)
Lemma shift_up_and_back n len x :
  0 < len < n -> ASR n (LSL n x (n - len)) (n - len) = wrap n (to_signed len x).
Proof.
  intros H. unfold ASR, LSL. apply Z.bits_inj'. intros i Hi. rewrite !testbit_wrap by lia.
  destruct (Z.ltb_spec i n); [|done]. rewrite Z.shiftr_spec by lia. rewrite !testbit_to_signed by lia.
  rewrite testbit_wrap by lia. rewrite Z.shiftl_spec by lia.
  destruct (Z.ltb_spec (Z.min (i + (n - len)) (n - 1)) n); [|lia]. cbn [andb]. f_equal. lia.
Qed.

Lemma LSL_wrap n x k : 0 <= n -> 0 <= k -> LSL n (wrap n x) k = wrap n (x * 2 ^ k).
Proof.
  intros Hn Hk. unfold LSL. rewrite Z.shiftl_mul_pow2 by done. unfold wrap. by rewrite Zmult_mod_idemp_l.
Qed.

Lemma NOT_lxor n x : 0 <= n -> 0 <= x < 2 ^ n -> Z.lxor x (Z.ones n) = NOT n x.
Proof.
  intros Hn Hx. unfold NOT. apply Z.add_cancel_r with x. replace (Z.ones n - x + x) with (Z.ones n) by lia.
  rewrite Z.add_nocarry_lxor.
  - by rewrite Z.lxor_comm, <- Z.lxor_assoc, Z.lxor_nilpotent, Z.lxor_0_l.
  - apply Z.bits_inj'. intros i Hi. rewrite Z.land_spec, Z.lxor_spec, Z.testbit_0_l.
    destruct (Z.ltb_spec i n); [rewrite Z.ones_spec_low by lia; by destruct (Z.testbit x i)|].
    by rewrite (range_testbit n x), andb_false_r by lia.
Qed.

Lemma wrap_NOT n y : 0 <= n <= 64 -> wrap n (NOT 64 y) = NOT n (wrap n y).
Proof.
  intros Hn. unfold NOT, wrap. rewrite !Z.ones_equiv. pose proof (Z.mod_pos_bound y (2 ^ n) ltac:(lia)).
  symmetry. apply Z.mod_unique with (2 ^ (64 - n) - 1 - y / 2 ^ n); [lia|].
  replace (2 ^ 64) with (2 ^ n * 2 ^ (64 - n)) by (rewrite <- Z.pow_add_r by lia; f_equal; lia).
  pose proof (Z.div_mod y (2 ^ n) ltac:(lia)). lia.
Qed.

(** ** Finite checks *)

Definition upto (n : nat) : list Z := map Z.of_nat (seq 0 n).

Lemma forallb_upto n P k : forallb P (upto n) = true -> 0 <= k < Z.of_nat n -> P k = true.
Proof.
  intros HP Hk. rewrite forallb_forall in HP. apply HP. unfold upto. apply in_map_iff.
  exists (Z.to_nat k). split; [lia|]. apply in_seq. lia.
Qed.

(** * Counts and reversals of bits and bytes

    Networks of swaps of parts of a word, as both front ends request them, and
    the reversals of the architecture they compute. *)

(** ** Leading bits *)

(** One bit more. *)
Lemma CountLeadingZeroBits_succ k x :
  0 <= k ->
  CountLeadingZeroBits (k + 1) (wrap (k + 1) x) =
    if Z.testbit x k then 0 else 1 + CountLeadingZeroBits k (wrap k x).
Proof.
  intros Hk. assert (Hs : wrap (k + 1) x = wrap k x + 2 ^ k * Z.b2z (Z.testbit x k)).
  { unfold wrap. rewrite Z.pow_add_r by lia. change (2 ^ 1) with 2. rewrite Z.rem_mul_r by lia. do 2 f_equal.
    rewrite Z.testbit_spec' by lia. done. }
  assert (Hw := wrap_range k x Hk).
  destruct (Z.testbit x k); cbn [Z.b2z] in Hs; rewrite Hs; unfold CountLeadingZeroBits.
  - rewrite (proj2 (Z.eqb_neq _ 0)) by lia. rewrite (Z.log2_unique _ k); [lia|lia|].
    rewrite Z.pow_succ_r by lia. lia.
  - rewrite Z.mul_0_r, Z.add_0_r. destruct (_ =? 0); lia.
Qed.

Lemma count_range n x : 0 <= n -> 0 <= x < 2 ^ n -> 0 <= CountLeadingZeroBits n x <= n.
Proof.
  intros Hn Hx. unfold CountLeadingZeroBits. destruct (Z.eqb_spec x 0); [lia|].
  pose proof (Z.log2_nonneg x). assert (Z.log2 x < n) by (apply Z.log2_lt_pow2; lia). lia.
Qed.

(** ** Networks of swaps *)

(** What [swap_parts] computes on [n] bits. *)
Definition swap_value (n c d k x : Z) : Z :=
  Z.lor (wrap n (Z.shiftl (Z.land x (wrap n c)) k)) (Z.shiftr (Z.land x (wrap n d)) k).

(** Where bit [i] of the result comes from, when it comes from one place. *)
Definition swap_source (n : Z) (stage : Z * Z * Z) (i : Z) : option Z :=
  let '(c, d, k) := stage in
  let up := (k <=? i) && Z.testbit c (i - k) in
  let down := (i + k <? n) && Z.testbit d (i + k) in
  match up, down with
  | true, false => Some (i - k)
  | false, true => Some (i + k)
  | _, _ => None
  end.

Lemma swap_value_bit n c d k x i j :
  0 <= k -> 0 <= i < n -> swap_source n (c, d, k) i = Some j ->
  0 <= j < n /\ Z.testbit (swap_value n c d k x) i = Z.testbit x j.
Proof.
  intros Hk Hi Hs. unfold swap_source in Hs. unfold swap_value.
  rewrite Z.lor_spec, testbit_wrap, Z.shiftr_spec, Z.land_spec, testbit_wrap by lia.
  destruct (Z.ltb_spec i n); [|lia]. cbn [andb].
  destruct (Z.leb_spec k i), (Z.ltb_spec (i + k) n); cbn [andb] in *.
  - rewrite Z.shiftl_spec_high, Z.land_spec, testbit_wrap by lia. rewrite (proj2 (Z.ltb_lt (i - k) n)) by lia.
    cbn [andb]. destruct (Z.testbit c (i - k)), (Z.testbit d (i + k)); simplify_eq; (split; [lia|]);
      by rewrite ?andb_false_r, ?andb_true_r, ?orb_false_r.
  - rewrite Z.shiftl_spec_high, Z.land_spec, testbit_wrap by lia. rewrite (proj2 (Z.ltb_lt (i - k) n)) by lia.
    rewrite andb_false_r, orb_false_r. cbn [andb]. destruct (Z.testbit c (i - k)); simplify_eq.
    split; [lia|]. by rewrite andb_true_r.
  - rewrite Z.shiftl_spec_low by lia. cbn [orb andb]. destruct (Z.testbit d (i + k)); simplify_eq.
    split; [lia|]. by rewrite andb_true_r.
  - done.
Qed.

Definition swaps_value (n : Z) (stages : list (Z * Z * Z)) (x : Z) : Z :=
  foldl (fun y stage => swap_value n stage.1.1 stage.1.2 stage.2 y) x stages.

Definition swaps_source (n : Z) (stages : list (Z * Z * Z)) (i : Z) : option Z :=
  foldr (fun stage k j => i ← k j; swap_source n stage i) Some stages i.

Lemma swaps_value_bit n stages x i j :
  Forall (fun stage => 0 <= stage.2) stages -> 0 <= i < n -> swaps_source n stages i = Some j ->
  0 <= j < n /\ Z.testbit (swaps_value n stages x) i = Z.testbit x j.
Proof.
  intros Hst Hi. revert x j. induction Hst as [|[[c d] k] stages Hk Hst IH]; intros x j Hs.
  - cbn in Hs. by simplify_eq.
  - unfold swaps_source in Hs. cbn [foldr] in Hs.
    destruct (foldr _ Some stages i) as [i'|] eqn:E; [|done]. cbn [mbind option_bind] in Hs.
    destruct (IH (swap_value n c d k x) i' E) as [Hi' Hb].
    destruct (swap_value_bit n c d k x i' j Hk Hi' Hs) as [Hj Hb']. split; [done|].
    change (swaps_value n ((c, d, k) :: stages) x) with (swaps_value n stages (swap_value n c d k x)). by rewrite Hb.
Qed.

Lemma swap_value_range n c d k x : 0 <= n -> 0 <= k -> 0 <= swap_value n c d k x < 2 ^ n.
Proof.
  intros Hn Hk. apply lor_range; [done|by apply wrap_range|]. apply shiftr_range; [done|].
  apply bits_range; [done|apply Z.land_nonneg; right; apply wrap_range; lia|].
  intros i Hi. rewrite Z.land_spec, testbit_wrap by done. rewrite (proj2 (Z.ltb_ge i n)) by lia. apply andb_false_r.
Qed.

Lemma swaps_value_range n stages x :
  Forall (fun stage => 0 <= stage.2) stages -> 0 <= n -> 0 <= x < 2 ^ n -> 0 <= swaps_value n stages x < 2 ^ n.
Proof.
  intros Hst Hn. revert x. induction Hst as [|[[c d] k] stages Hk Hst IH]; intros x Hx; [done|].
  change (swaps_value n ((c, d, k) :: stages) x) with (swaps_value n stages (swap_value n c d k x)).
  apply IH. by apply swap_value_range.
Qed.

(** A network is known by where each bit comes from. *)
Lemma swaps_permute n stages (perm : Z -> Z) x v :
  forallb (fun i => bool_decide (swaps_source (Z.of_nat n) stages i = Some (perm i))) (upto n) = true ->
  Forall (fun stage => 0 <= stage.2) stages -> 0 <= x < 2 ^ Z.of_nat n -> 0 <= v < 2 ^ Z.of_nat n ->
  (forall i, 0 <= i < Z.of_nat n -> Z.testbit v i = Z.testbit x (perm i)) ->
  swaps_value (Z.of_nat n) stages x = v.
Proof.
  intros Hp Hst Hx Hv Hb. apply Z.bits_inj'. intros i Hi. destruct (Z.ltb_spec i (Z.of_nat n)).
  - assert (H1 := forallb_upto n _ i Hp ltac:(lia)). apply bool_decide_eq_true in H1.
    destruct (swaps_value_bit (Z.of_nat n) _ x i _ Hst ltac:(lia) H1) as [_ ->]. by rewrite Hb by lia.
  - rewrite (range_testbit (Z.of_nat n) v) by lia. apply (range_testbit (Z.of_nat n)); [|done].
    apply swaps_value_range; [done|lia|done].
Qed.

(** ** The reversals, bit by bit *)

Lemma testbit_concat w lo hi i :
  0 <= w -> 0 <= lo < 2 ^ w -> 0 <= i -> Z.testbit (lo + 2 ^ w * hi) i = if i <? w then Z.testbit lo i else Z.testbit hi (i - w).
Proof.
  intros Hw Hlo Hi. replace (lo + 2 ^ w * hi) with (Z.lor lo (Z.shiftl hi w)).
  2:{ rewrite <- Z.lxor_lor.
      2:{ apply Z.bits_inj'. intros j Hj. rewrite Z.land_spec, Z.testbit_0_l. destruct (Z.ltb_spec j w).
          - by rewrite Z.shiftl_spec_low, andb_false_r by lia.
          - by rewrite (range_testbit w lo) by lia. }
      rewrite <- Z.add_nocarry_lxor; [rewrite Z.shiftl_mul_pow2 by lia; lia|].
      apply Z.bits_inj'. intros j Hj. rewrite Z.land_spec, Z.testbit_0_l. destruct (Z.ltb_spec j w).
      - by rewrite Z.shiftl_spec_low, andb_false_r by lia.
      - by rewrite (range_testbit w lo) by lia. }
  rewrite Z.lor_spec. destruct (Z.ltb_spec i w).
  - by rewrite Z.shiftl_spec_low, orb_false_r by lia.
  - by rewrite Z.shiftl_spec_high, (range_testbit w lo) by lia.
Qed.

Lemma BitReverse_range n x : 0 <= BitReverse n x < 2 ^ Z.of_nat n.
Proof.
  revert x. induction n as [|n IH]; intros x; cbn [BitReverse]; [done|].
  pose proof (IH (x / 2)). pose proof (Z.mod_pos_bound x 2 ltac:(lia)). rewrite Nat2Z.inj_succ, Z.pow_succ_r by lia. nia.
Qed.

Lemma BitReverse_bit n x i :
  0 <= i < Z.of_nat n -> Z.testbit (BitReverse n x) i = Z.testbit x (Z.of_nat n - 1 - i).
Proof.
  revert x i. induction n as [|n IH]; intros x i Hi; [lia|]. cbn [BitReverse].
  rewrite Z.add_comm, (Z.mul_comm (x mod 2)), testbit_concat by (lia || apply BitReverse_range).
  destruct (Z.ltb_spec i (Z.of_nat n)).
  - rewrite IH by lia. change (x / 2) with (x / 2 ^ 1). rewrite <- Z.shiftr_div_pow2, Z.shiftr_spec by lia. f_equal. lia.
  - replace (i - Z.of_nat n) with 0 by lia. replace (Z.of_nat (S n) - 1 - i) with 0 by lia.
    rewrite <- Z.bit0_mod. by destruct (Z.testbit x 0).
Qed.

Lemma le_join_bit l i :
  Forall (fun b => 0 <= b < 256) l -> 0 <= i ->
  Z.testbit (le_join l) i = Z.testbit (nth (Z.to_nat (i / 8)) l 0) (i mod 8).
Proof.
  intros Hl. revert i. induction Hl as [|b l Hb Hl IH]; intros i Hi; cbn [le_join].
  - rewrite Z.testbit_0_l. destruct (Z.to_nat (i / 8)); cbn [nth]; by rewrite Z.testbit_0_l.
  - change 256 with (2 ^ 8) in *. rewrite testbit_concat by lia. destruct (Z.ltb_spec i 8).
    + rewrite Z.div_small, Z.mod_small by lia. done.
    + rewrite IH by lia. replace (i / 8) with (1 + (i - 8) / 8) by (Z.div_mod_to_equations; lia).
      replace (i mod 8) with ((i - 8) mod 8) by (Z.div_mod_to_equations; lia).
      rewrite Z2Nat.inj_add by (try apply Z.div_pos; lia). done.
Qed.

Lemma le_bytes_nth n v k i :
  (k < n)%nat -> 0 <= i < 8 -> Z.testbit (nth k (le_bytes n v) 0) i = Z.testbit v (8 * Z.of_nat k + i).
Proof.
  revert v k. induction n as [|n IH]; intros v k Hk Hi; [lia|]. cbn [le_bytes]. destruct k as [|k]; cbn [nth].
  - change (v mod 256) with (wrap 8 v). rewrite testbit_wrap by lia. rewrite (proj2 (Z.ltb_lt i 8)) by lia. done.
  - rewrite IH by lia. change 256 with (2 ^ 8). rewrite <- Z.shiftr_div_pow2, Z.shiftr_spec by lia. f_equal. lia.
Qed.

Lemma le_bytes_small n v : Forall (fun b => 0 <= b < 256) (le_bytes n v).
Proof. revert v. induction n; intros v; cbn [le_bytes]; constructor; [apply Z.mod_pos_bound; lia|done]. Qed.

(** Bytes of a group in the opposite order. *)
Definition byte_source (group : Z) (i : Z) : Z :=
  let w := 8 * group in
  i / w * w + 8 * (group - 1 - i mod w / 8) + i mod 8.

Lemma reversed_bytes_bit n v i :
  0 <= i < 8 * Z.of_nat n ->
  Z.testbit (le_join (rev (le_bytes n v))) i = Z.testbit v (8 * (Z.of_nat n - 1 - i / 8) + i mod 8).
Proof.
  intros Hi. rewrite le_join_bit by (lia || apply Forall_rev, le_bytes_small).
  assert (0 <= i / 8 < Z.of_nat n) as Hd by (Z.div_mod_to_equations; lia).
  rewrite rev_nth by (rewrite length_le_bytes'; lia). rewrite length_le_bytes'.
  rewrite le_bytes_nth by (try apply Z.mod_pos_bound; lia). f_equal. lia.
Qed.

Lemma reversed_bytes_range n v : 0 <= le_join (rev (le_bytes n v)) < 2 ^ (8 * Z.of_nat n).
Proof.
  pose proof (le_join_range (rev (le_bytes n v)) ltac:(apply Forall_rev, le_bytes_small)) as H.
  by rewrite length_rev, length_le_bytes' in H.
Qed.

Lemma Reverse_bytes_range count group x :
  0 <= Reverse_bytes count group x < 2 ^ (8 * Z.of_nat group * Z.of_nat count).
Proof.
  revert x. induction count as [|c IH]; intros x; cbn [Reverse_bytes]; [by rewrite Z.mul_0_r|].
  pose proof (IH (x / 2 ^ (8 * Z.of_nat group))). pose proof (reversed_bytes_range group x).
  replace (8 * Z.of_nat group * Z.of_nat (S c)) with (8 * Z.of_nat group + 8 * Z.of_nat group * Z.of_nat c) by lia.
  rewrite Z.pow_add_r by lia. nia.
Qed.

Lemma Reverse_bytes_bit count group x i :
  (0 < group)%nat -> 0 <= i < 8 * Z.of_nat group * Z.of_nat count ->
  Z.testbit (Reverse_bytes count group x) i = Z.testbit x (byte_source (Z.of_nat group) i).
Proof.
  intros Hg. revert x i. induction count as [|c IH]; intros x i Hi; [lia|]. cbn [Reverse_bytes].
  rewrite testbit_concat by (lia || apply reversed_bytes_range). set (w := 8 * Z.of_nat group) in *.
  unfold byte_source. fold w. destruct (Z.ltb_spec i w).
  - rewrite reversed_bytes_bit by lia. rewrite (Z.div_small i w), (Z.mod_small i w) by lia. f_equal.
  - rewrite IH by lia. rewrite <- Z.shiftr_div_pow2 by lia. unfold byte_source. fold w.
    assert (Hq : (i - w) / w = i / w - 1) by (replace (i - w) with (i + (-1) * w) by lia; rewrite Z.div_add by lia; lia).
    assert (Hm : (i - w) mod w = i mod w) by (replace (i - w) with (i + (-1) * w) by lia; by rewrite Z.mod_add by lia).
    assert (Hm8 : (i - w) mod 8 = i mod 8)
      by (replace (i - w) with (i + (- Z.of_nat group) * 8) by lia; by rewrite Z.mod_add by lia).
    rewrite Hq, Hm, Hm8. assert (0 <= i mod w / 8 < Z.of_nat group).
    { pose proof (Z.mod_pos_bound i w ltac:(lia)). Z.div_mod_to_equations. lia. }
    assert (1 <= i / w) by (apply Z.div_le_lower_bound; lia).
    pose proof (Z.mod_pos_bound i 8 ltac:(lia)). rewrite Z.shiftr_spec by nia. f_equal. lia.
Qed.

(** ** What the networks are *)

Lemma network_BitReverse (n : nat) stages x :
  forallb (fun i => bool_decide (swaps_source (Z.of_nat n) stages i = Some (Z.of_nat n - 1 - i))) (upto n) = true ->
  Forall (fun stage => 0 <= stage.2) stages -> 0 <= x < 2 ^ Z.of_nat n ->
  swaps_value (Z.of_nat n) stages x = BitReverse n x.
Proof.
  intros Hp Hst Hx. apply (swaps_permute n _ (fun i => Z.of_nat n - 1 - i)); [done..|apply BitReverse_range|].
  apply BitReverse_bit.
Qed.

Lemma network_Reverse_bytes (n count group : nat) stages x :
  forallb (fun i => bool_decide (swaps_source (Z.of_nat n) stages i = Some (byte_source (Z.of_nat group) i))) (upto n) = true ->
  Forall (fun stage => 0 <= stage.2) stages -> 0 <= x < 2 ^ Z.of_nat n ->
  (0 < group)%nat -> n = (8 * group * count)%nat ->
  swaps_value (Z.of_nat n) stages x = Reverse_bytes count group x.
Proof.
  intros Hp Hst Hx Hg Hn. pose proof (Reverse_bytes_range count group x) as Hr.
  assert (8 * Z.of_nat group * Z.of_nat count = Z.of_nat n) as E by lia. rewrite E in Hr.
  apply (swaps_permute n _ (byte_source (Z.of_nat group))); [done..|]. intros i Hi. apply Reverse_bytes_bit; [done|lia].
Qed.

(** The stages of the loop of the bit reversal. *)
Fixpoint rbit_stages (cs : list Z) (i : Z) : list (Z * Z * Z) :=
  match cs with [] => [] | c :: cs => (c, Z.lnot c, Z.shiftl 1 i) :: rbit_stages cs (i + 1) end.

Ltac stages := cbn [rbit_stages]; repeat (apply Forall_cons; split; [by vm_compute|]); by apply Forall_nil.
(** The constants of the front end. *)
Ltac network L := apply L; [vm_compute; reflexivity|stages|assumption|..]; lia.

Definition rbit_stages_32 : list (Z * Z * Z) :=
  rbit_stages [0x55555555; 0x33333333; 0x0F0F0F0F; 0x00FF00FF; 0x0000FFFF] 0.
Lemma network_rbit_32 x : 0 <= x < 2 ^ 32 -> swaps_value 32 rbit_stages_32 x = BitReverse 32 x.
Proof. intros Hx. network (network_BitReverse 32%nat). Qed.
