(* ===== verification/Arm64Gen.v ===== *)
(** * The AArch64 front end: requests to the builder
      ([src/src/target/arm64/arm64_private.h] and the sequence shortcuts of
      [src/src/target/arm64/disassembler/arm64_disassembler.c])

    [Arm64Decode.v] puts the requests of a block one after the other.  Where C
    leaves the order of the arguments of a call open, they are evaluated from
    left to right. *)

From S2P Require Import Prelude Ir Jitter IrRequests FrontGen.

(** ** The guest context *)

(** Offsets in [struct arm64_registers]. *)
Definition off_r (index : Z) : Z := 8 * index.
Definition off_pc : Z := 256.
Definition off_v (index : Z) : Z := 272 + 16 * index.
Definition off_v_lsb (index : Z) : Z := off_v index.
Definition off_v_msb (index : Z) : Z := off_v index + 8.
Definition off_v_d (no index : Z) : Z := off_v no + 8 * index.
Definition off_v_s (no index : Z) : Z := off_v no + 4 * index.
Definition off_v_h (no index : Z) : Z := off_v no + 2 * index.
Definition off_v_b (no index : Z) : Z := off_v no + index.
Definition off_tpidr_el0 : Z := 784.
Definition off_nzcv : Z := 804.
Definition off_is_stepin : Z := 816.
Definition off_helper_pc : Z := 832.

(** The C helpers whose address is put in the code. *)
Inductive arm64_helper :=
  | arm64_gdb_breakpoint_instruction | arm64_gdb_stepin_instruction | arm64_clean_caches
  | arm64_hlp_compute_next_nzcv_32 | arm64_hlp_compute_next_nzcv_64 | arm64_hlp_compute_flags_pred
  | arm64_hlp_compute_bitfield | arm64_hlp_udiv_64 | arm64_hlp_udiv_32 | arm64_hlp_sdiv_64
  | arm64_hlp_sdiv_32 | arm64_hlp_umul_lsb_64 | arm64_hlp_umul_lsb_32 | arm64_hlp_smul_lsb_64
  | arm64_hlp_umul_msb_64 | arm64_hlp_smul_msb_64 | arm64_hlp_clz | arm64_hlp_cls
  | arm64_hlp_ldxr | arm64_hlp_ldaxr | arm64_hlp_stxr | arm64_hlp_stlxr
  | arm64_hlp_ldxp_dirty | arm64_hlp_ldaxp_dirty | arm64_hlp_stxp_dirty | arm64_hlp_stlxp_dirty
  | arm64_hlp_clrex | arm64_hlp_memory_barrier | arm64_hlp_syscall | arm64_hlp_dirty_crc32
  | arm64_hlp_write_fpsr | arm64_hlp_read_fpsr | arm64_hlp_write_fpcr | arm64_hlp_read_fpcr
  | arm64_hlp_dirty_simd_dup_element | arm64_hlp_dirty_simd_dup_general
  | arm64_hlp_dirty_advanced_simd_load_store_multiple_structure_simd
  | arm64_hlp_dirty_advanced_simd_load_store_multiple_structure_post_index_simd
  | arm64_hlp_dirty_advanced_simd_load_store_single_structure_simd
  | arm64_hlp_dirty_advanced_simd_load_store_single_structure_post_index_simd
  | arm64_hlp_dirty_scvtf_scalar_integer_simd | arm64_hlp_dirty_ucvtf_scalar_integer_simd
  | arm64_hlp_dirty_fcvtxx_scalar_integer_simd
  | arm64_hlp_dirty_floating_point_data_processing_1_source
  | arm64_hlp_dirty_floating_point_data_processing_2_source_simd
  | arm64_hlp_dirty_floating_point_data_processing_3_source_simd
  | arm64_hlp_dirty_floating_point_immediate_simd | arm64_hlp_dirty_floating_point_compare_simd
  | arm64_hlp_dirty_floating_point_conditional_select_simd
  | arm64_hlp_dirty_floating_point_conditional_compare
  | arm64_hlp_dirty_conversion_between_floating_point_and_fixed_point
  | arm64_hlp_dirty_advanced_simd_shift_by_immediate_simd
  | arm64_hlp_dirty_advanced_simd_scalar_three_different_simd
  | arm64_hlp_dirty_advanced_simd_scalar_two_reg_misc_simd
  | arm64_hlp_dirty_advanced_simd_scalar_pair_wise_simd
  | arm64_hlp_dirty_advanced_simd_table_lookup_simd | arm64_hlp_dirty_advanced_simd_permute_simd
  | arm64_hlp_dirty_advanced_simd_ext_simd | arm64_hlp_dirty_advanced_simd_simd_three_different_simd
  | arm64_hlp_dirty_advanced_simd_two_reg_misc_simd | arm64_hlp_dirty_advanced_simd_accross_lanes_simd
  | arm64_hlp_dirty_advanced_simd_scalar_three_same_simd | arm64_hlp_dirty_advanced_simd_three_same_simd
  | arm64_hlp_dirty_advanced_simd_vector_x_indexed_element_simd
  | arm64_hlp_dirty_advanced_simd_scalar_x_indexed_element_simd
  | arm64_hlp_dirty_advanced_simd_scalar_shift_by_immediate_simd.

#[global] Instance arm64_helper_eq_dec : EqDecision arm64_helper.
Proof. solve_decision. Defined.

(** Where the linker put each helper. *)
Class HelperAddress := { helper_address : arm64_helper -> Z }.

(** ** Sequence shortcuts *)

(** The state of the front end is [context->regs.is_stepin]. *)
Abbreviation gen := (genM bool).
Abbreviation is_stepin := front.

(** The name of a result width: [mk_call_32], [mk_call_64]. *)
Section shortcuts.
Context `{HelperAddress}.
(** [context->pc] *)
Context (pc : Z).

Definition mk_helper (h : arm64_helper) : gen nat := mk_64 (helper_address h).

Definition mk_call_void (address : nat) (params : list (option nat)) : gen unit :=
  r ← mk_64 pc; ir.add_write_context IR_REG_64 r off_helper_pc;;
  ir.add_call_void address params;;
  r ← mk_64 0; ir.add_write_context IR_REG_64 r off_helper_pc.

Definition mk_call (w : irRegisterType) (address : nat) (params : list (option nat)) : gen nat :=
  r ← mk_64 pc; ir.add_write_context IR_REG_64 r off_helper_pc;;
  res ← ir.add_call w address params;
  r ← mk_64 0; ir.add_write_context IR_REG_64 r off_helper_pc;;
  mret res.

(** [ZERO_REG] reads register 31 as zero, [SP_REG] as the stack pointer. *)
Definition ZERO_REG : bool := true.
Definition SP_REG : bool := false.

Definition read_x (index : Z) (is_zero : bool) : gen nat :=
  if (index =? 31) && is_zero then mk_64 0 else ir.add_read_context IR_REG_64 (off_r index).

Definition write_x (index : Z) (value : nat) (is_zero : bool) : gen unit :=
  if (index =? 31) && is_zero then mret tt
  else ir.add_write_context IR_REG_64 value (off_r index).

Definition read_w (index : Z) (is_zero : bool) : gen nat :=
  if (index =? 31) && is_zero then mk_32 0 else ir.add_read_context IR_REG_32 (off_r index).

Definition write_w (index : Z) (value : nat) (is_zero : bool) : gen unit :=
  if (index =? 31) && is_zero then mret tt
  else r ← ir.add_cast IR_CAST_32U_TO_64 value; ir.add_write_context IR_REG_64 r (off_r index).

Definition write_w_sign_extend (index : Z) (value : nat) (is_zero : bool) : gen unit :=
  if (index =? 31) && is_zero then mret tt
  else r ← ir.add_cast IR_CAST_32S_TO_64 value; ir.add_write_context IR_REG_64 r (off_r index).

Definition write_pc (value : nat) : gen unit := ir.add_write_context IR_REG_64 value off_pc.
Definition read_nzcv : gen nat := ir.add_read_context IR_REG_32 off_nzcv.
Definition write_nzcv (value : nat) : gen unit := ir.add_write_context IR_REG_32 value off_nzcv.

Definition mk_ror_imm (w : irRegisterType) (op : nat) (rotation : Z) : gen nat :=
  r ← mk_8 rotation; ir.add_binop ROR w op r.
Definition mk_ror_imm_64 : nat -> Z -> gen nat := mk_ror_imm IR_REG_64.
Definition mk_ror_imm_32 : nat -> Z -> gen nat := mk_ror_imm IR_REG_32.

(** [enum ops] *)
Definition OPS_ADD : Z := 0.
Definition OPS_SUB : Z := 1.
Definition OPS_LOGICAL : Z := 2.
Definition OPS_ADC : Z := 3.

Definition mk_next_nzcv_64 (ops : Z) (op1 op2 : nat) : gen nat :=
  p0 ← mk_32 ops; p3 ← read_nzcv;
  a ← mk_helper arm64_hlp_compute_next_nzcv_64;
  mk_call IR_REG_32 a [Some p0; Some op1; Some op2; Some p3].

Definition mk_next_nzcv_32 (ops : Z) (op1 op2 : nat) : gen nat :=
  p0 ← mk_32 ops; p3 ← read_nzcv;
  a ← mk_helper arm64_hlp_compute_next_nzcv_32;
  mk_call IR_REG_32 a [Some p0; Some op1; Some op2; Some p3].

(** The condition of the instructions that have one. *)
Definition mk_flags_pred (cond : Z) : gen nat :=
  p0 ← mk_32 cond; p1 ← read_nzcv;
  a ← mk_helper arm64_hlp_compute_flags_pred;
  mk_call IR_REG_32 a [Some p0; Some p1; None; None].

Definition mk_extend_reg_64 (rm type shift : Z) : gen nat :=
  unshifted ←
    (match type with
     | 0 => r ← read_x rm ZERO_REG; c ← mk_64 0xff; ir.add_binop AND IR_REG_64 r c
     | 1 => r ← read_x rm ZERO_REG; c ← mk_64 0xffff; ir.add_binop AND IR_REG_64 r c
     | 2 => r ← read_x rm ZERO_REG; c ← mk_64 0xffffffff; ir.add_binop AND IR_REG_64 r c
     | 4 => r ← read_x rm ZERO_REG; c ← mk_8 56; s ← ir.add_binop SHL IR_REG_64 r c;
            c ← mk_8 56; ir.add_binop ASR IR_REG_64 s c
     | 5 => r ← read_x rm ZERO_REG; c ← mk_8 48; s ← ir.add_binop SHL IR_REG_64 r c;
            c ← mk_8 48; ir.add_binop ASR IR_REG_64 s c
     | 6 => r ← read_x rm ZERO_REG; c ← mk_8 32; s ← ir.add_binop SHL IR_REG_64 r c;
            c ← mk_8 32; ir.add_binop ASR IR_REG_64 s c
     | _ => read_x rm ZERO_REG
     end);
  if negb (shift =? 0) then c ← mk_8 shift; ir.add_binop SHL IR_REG_64 unshifted c
  else mret unshifted.

Definition mk_extend_reg_32 (rm type shift : Z) : gen nat :=
  unshifted ←
    (match type with
     | 0 => r ← read_w rm ZERO_REG; c ← mk_32 0xff; ir.add_binop AND IR_REG_32 r c
     | 1 => r ← read_w rm ZERO_REG; c ← mk_32 0xffff; ir.add_binop AND IR_REG_32 r c
     | 4 => r ← read_w rm ZERO_REG; c ← mk_8 24; s ← ir.add_binop SHL IR_REG_32 r c;
            c ← mk_8 24; ir.add_binop ASR IR_REG_32 s c
     | 5 => r ← read_w rm ZERO_REG; c ← mk_8 16; s ← ir.add_binop SHL IR_REG_32 r c;
            c ← mk_8 16; ir.add_binop ASR IR_REG_32 s c
     | _ => read_w rm ZERO_REG
     end);
  if negb (shift =? 0) then c ← mk_8 shift; ir.add_binop SHL IR_REG_32 unshifted c
  else mret unshifted.

(** [mk_mul_u_lsb_64], [mk_mul_u_lsb_32], [mk_mul_u_msb_64], [mk_mul_s_msb_64],
    [mk_mul_s_lsb_64]: a call of two parameters. *)
Definition mk_call2 (w : irRegisterType) (h : arm64_helper) (op1 op2 : nat) : gen nat :=
  a ← mk_helper h; mk_call w a [Some op1; Some op2; None; None].
Definition mk_mul_u_lsb_64 := mk_call2 IR_REG_64 arm64_hlp_umul_lsb_64.
Definition mk_mul_u_lsb_32 := mk_call2 IR_REG_32 arm64_hlp_umul_lsb_32.
Definition mk_mul_u_msb_64 := mk_call2 IR_REG_64 arm64_hlp_umul_msb_64.
Definition mk_mul_s_msb_64 := mk_call2 IR_REG_64 arm64_hlp_smul_msb_64.
Definition mk_mul_s_lsb_64 := mk_call2 IR_REG_64 arm64_hlp_smul_lsb_64.

(** A call without parameters but the context. *)
Definition mk_call0 (h : arm64_helper) : gen unit :=
  a ← mk_helper h; mk_call_void a [None; None; None; None].
Definition mk_barrier : gen unit := mk_call0 arm64_hlp_memory_barrier.
Definition mk_gdb_breakpoint_instruction : gen unit := mk_call0 arm64_gdb_breakpoint_instruction.
Definition mk_gdb_stepin_instruction : gen unit := mk_call0 arm64_gdb_stepin_instruction.

(** A helper that decodes the instruction itself. *)
Definition mk_dirty (h : arm64_helper) (insn : Z) : gen bool :=
  p0 ← mk_32 insn; a ← mk_helper h; mk_call_void a [Some p0; None; None; None];; mret false.

Definition stepin : gen bool := fun s => Some (is_stepin s, s).
Definition clear_stepin : gen unit := modify_state (fun s => mkGen false (requests s)).

Definition mk_exit (next_pc : nat) : gen unit :=
  write_pc next_pc;;
  b ← stepin;
  (if b : bool then mk_gdb_stepin_instruction;; clear_stepin else mret tt);;
  ir.add_exit next_pc.

Definition mk_exit_pred (next_pc pred : nat) : gen unit :=
  write_pc next_pc;;
  b ← stepin;
  (if b : bool then mk_gdb_stepin_instruction;; clear_stepin else mret tt);;
  ir.add_exit_cond next_pc pred.

(** [fatal_illegal_opcode], and [assert_illegal_opcode] when it fails: the
    function returns 1 at once. *)
Definition illegal_opcode : gen bool := mk_gdb_breakpoint_instruction;; mret true.

(** The branch both ways, under single stepping or not. *)
Definition mk_branch (pred : nat) (is_32 : bool) (target : Z) : gen bool :=
  b ← stepin;
  (if b : bool then
     p ← (if is_32 : bool then ir.add_cast IR_CAST_32U_TO_64 pred else mret pred);
     t ← mk_64 target; f ← mk_64 (pc + 4);
     next_pc ← ir.add_ite IR_REG_64 p t f;
     mk_exit next_pc
   else
     t ← mk_64 target; mk_exit_pred t pred;;
     f ← mk_64 (pc + 4); mk_exit f);;
  mret true.
End shortcuts.
