(* ===== verification/Arm64Dis.v ===== *)
(** * The AArch64 front end: integer instructions
      ([src/src/target/arm64/disassembler/arm64_disassembler.c])

    One definition per [dis_*] function, in the order of the file.  The result
    is [isExit]: whether the block ends here. *)

From S2P Require Import Prelude Ir Jitter FrontGen Arm64Gen.

#[local] Open Scope c_scope.

(** The fields most instructions have. *)
Definition f_rd (insn : Z) : Z := INSN insn 4 0.
Definition f_rn (insn : Z) : Z := INSN insn 9 5.
Definition f_rm (insn : Z) : Z := INSN insn 20 16.

Section dis.
Context `{HelperAddress}.
(** [context->pc] *)
Context (pc : Z).

(** A test with [is_64], [read_x] or [read_w], [write_x] or [write_w]. *)
Definition width (is_64 : bool) : irRegisterType := if is_64 then IR_REG_64 else IR_REG_32.
Definition read_xw (is_64 : bool) (index : Z) (is_zero : bool) : gen nat :=
  if is_64 then read_x index is_zero else read_w index is_zero.
Definition write_xw (is_64 : bool) (index : Z) (value : nat) (is_zero : bool) : gen unit :=
  if is_64 then write_x index value is_zero else write_w index value is_zero.
(** [value] is of 64 bits: narrowed before [write_w]. *)
Definition write_x_or_low (is_64 : bool) (index : Z) (value : nat) (is_zero : bool) : gen unit :=
  if is_64 then write_x index value is_zero
  else r ← ir.add_cast IR_CAST_64_TO_32 value; write_w index r is_zero.

(** ** Loads and stores of pairs *)

(** One access of a pair. *)
Definition pair_load (is_64 is_signed : bool) (rt : Z) (address : nat) : gen unit :=
  if is_64 then r ← ir.add_load IR_REG_64 address; write_x rt r ZERO_REG
  else if is_signed then r ← ir.add_load IR_REG_32 address; write_w_sign_extend rt r ZERO_REG
  else r ← ir.add_load IR_REG_32 address; write_w rt r ZERO_REG.

Definition pair_store (is_64 : bool) (rt : Z) (address : nat) : gen unit :=
  if is_64 then r ← read_x rt ZERO_REG; ir.add_store IR_REG_64 r address
  else r ← read_w rt ZERO_REG; ir.add_store IR_REG_32 r address.

Definition dis_load_store_pair (insn : Z) : gen bool :=
  let is_64 := INSN1 insn 31 in
  let is_signed := INSN1 insn 30 in
  let is_load := INSN1 insn 22 in
  let imm7 := INSN insn 21 15 in
  let rt2 := INSN insn 14 10 in
  let rn := f_rn insn in
  let rt := f_rd insn in
  let is_wb := INSN1 insn 23 in
  let is_not_postindex := INSN1 insn 24 in
  let offset := Z.shiftl (sign_extend 7 imm7) (2 + Z.b2z is_64) in
  address1 ←
    (if is_not_postindex then
       b ← read_x rn SP_REG; o ← mk_64 offset; ir.add_binop ADD IR_REG_64 b o
     else read_x rn SP_REG);
  o ← mk_64 (if is_64 then 8 else 4);
  address2 ← ir.add_binop ADD IR_REG_64 address1 o;
  (if is_load then
     pair_load is_64 is_signed rt address1;; pair_load is_64 is_signed rt2 address2
   else
     pair_store is_64 rt address1;; pair_store is_64 rt2 address2);;
  (if is_wb then
     if is_not_postindex then write_x rn address1 SP_REG
     else o ← mk_64 offset; a ← ir.add_binop ADD IR_REG_64 address1 o; write_x rn a SP_REG
   else mret tt);;
  mret false.

Definition dis_load_store_no_allocate_pair_offset (insn : Z) : gen bool :=
  let is_64 := INSN1 insn 31 in
  let is_load := INSN1 insn 22 in
  let imm7 := INSN insn 21 15 in
  let rt2 := INSN insn 14 10 in
  let rn := f_rn insn in
  let rt := f_rd insn in
  let offset := Z.shiftl (sign_extend 7 imm7) (2 + Z.b2z is_64) in
  b ← read_x rn SP_REG; o ← mk_64 offset; address1 ← ir.add_binop ADD IR_REG_64 b o;
  o ← mk_64 (if is_64 then 8 else 4);
  address2 ← ir.add_binop ADD IR_REG_64 address1 o;
  (if is_load then
     pair_load is_64 false rt address1;; pair_load is_64 false rt2 address2
   else
     pair_store is_64 rt address1;; pair_store is_64 rt2 address2);;
  mret false.

Definition dis_load_store_pair_pre_indexed (insn : Z) : gen bool := dis_load_store_pair insn.
Definition dis_load_store_pair_offset (insn : Z) : gen bool := dis_load_store_pair insn.
Definition dis_load_store_pair_post_indexed (insn : Z) : gen bool := dis_load_store_pair insn.

(** ** Addition and subtraction *)

Definition dis_add_sub (insn : Z) (op1 op2 : nat) (is_rd_zero_reg : bool) : gen bool :=
  let is_64 := INSN1 insn 31 in
  let is_sub := INSN1 insn 30 in
  let S := INSN1 insn 29 in
  let rd := f_rd insn in
  res ← ir.add_binop (if is_sub then SUB else ADD) (width is_64) op1 op2;
  (if S then
     let ops := if is_sub then OPS_SUB else OPS_ADD in
     f ← (if is_64 then mk_next_nzcv_64 pc ops op1 op2 else mk_next_nzcv_32 pc ops op1 op2);
     write_nzcv f
   else mret tt);;
  write_xw is_64 rd res (if S then ZERO_REG else is_rd_zero_reg);;
  mret false.

Definition dis_add_sub_immediate_insn (insn : Z) : gen bool :=
  let is_64 := INSN1 insn 31 in
  let shift := INSN insn 23 22 in
  let imm12 := INSN insn 21 10 in
  let rn := f_rn insn in
  if (shift =? 2) || (shift =? 3) then illegal_opcode pc else
  let imm12 := if shift =? 1 then Z.shiftl imm12 12 else imm12 in
  op1 ← read_xw is_64 rn SP_REG;
  op2 ← (if is_64 then mk_64 imm12 else mk_32 imm12);
  dis_add_sub insn op1 op2 SP_REG.

Definition dis_add_sub_shifted_register_insn (insn : Z) : gen bool :=
  let is_64 := INSN1 insn 31 in
  let shift := INSN insn 23 22 in
  let imm6 := INSN insn 15 10 in
  let rn := f_rn insn in
  let rm := f_rm insn in
  op1 ← read_xw is_64 rn ZERO_REG;
  if negb (imm6 =? 0) then
    if negb is_64 && negb (imm6 <? 32) then illegal_opcode pc else
    let shifted k :=
      r ← read_xw is_64 rm ZERO_REG; s ← mk_8 imm6; op2 ← ir.add_binop k (width is_64) r s;
      dis_add_sub insn op1 op2 ZERO_REG in
    match shift with
    | 0 => shifted SHL
    | 1 => shifted SHR
    | 2 => shifted ASR
    | _ => illegal_opcode pc
    end
  else
    op2 ← read_xw is_64 rm ZERO_REG;
    dis_add_sub insn op1 op2 ZERO_REG.

Definition dis_add_sub_extended_register_insn (insn : Z) : gen bool :=
  let is_64 := INSN1 insn 31 in
  let rn := f_rn insn in
  let rm := f_rm insn in
  let option := INSN insn 15 13 in
  let imm3 := INSN insn 12 10 in
  op1 ← read_xw is_64 rn SP_REG;
  op2 ← (if is_64 then mk_extend_reg_64 rm option imm3 else mk_extend_reg_32 rm option imm3);
  dis_add_sub insn op1 op2 SP_REG.

(** ** Addresses and constants *)

Definition dis_adrp (insn : Z) : gen bool :=
  let imm := Z.shiftl (INSN insn 23 5) 14 + Z.shiftl (INSN insn 30 29) 12 in
  let rd := f_rd insn in
  let imm := sign_extend 33 imm in
  r ← mk_64 (Z.land pc (wrap 64 (Z.lnot 0xfff)) + imm);
  write_x rd r ZERO_REG;; mret false.

Definition dis_adr (insn : Z) : gen bool :=
  let imm := Z.shiftl (INSN insn 23 5) 2 + INSN insn 30 29 in
  let rd := f_rd insn in
  let imm := sign_extend 21 imm in
  r ← mk_64 (pc + imm);
  write_x rd r ZERO_REG;; mret false.

Definition dis_movn (insn : Z) : gen bool :=
  let is_64 := INSN1 insn 31 in
  let imm16 := INSN insn 20 5 in
  let rd := f_rd insn in
  let pos := Z.shiftl (INSN insn 22 21) 4 in
  let imm16 := Z.lnot (Z.shiftl imm16 pos) in
  r ← (if is_64 then mk_64 imm16 else mk_32 imm16);
  write_xw is_64 rd r ZERO_REG;; mret false.

Definition dis_movz (insn : Z) : gen bool :=
  let is_64 := INSN1 insn 31 in
  let imm16 := INSN insn 20 5 in
  let rd := f_rd insn in
  let pos := Z.shiftl (INSN insn 22 21) 4 in
  let imm16 := Z.shiftl imm16 pos in
  r ← (if is_64 then mk_64 imm16 else mk_32 imm16);
  write_xw is_64 rd r ZERO_REG;; mret false.

Definition dis_movk (insn : Z) : gen bool :=
  let is_64 := INSN1 insn 31 in
  let imm16 := INSN insn 20 5 in
  let rd := f_rd insn in
  let pos := Z.shiftl (INSN insn 22 21) 4 in
  let mask := Z.shiftl 0xffff pos in
  let imm16 := Z.shiftl imm16 pos in
  x ← read_x rd ZERO_REG; c ← mk_64 (Z.lnot mask);
  kept ← ir.add_binop AND IR_REG_64 x c;
  c ← mk_64 imm16;
  res ← ir.add_binop OR IR_REG_64 kept c;
  write_x_or_low is_64 rd res ZERO_REG;; mret false.

(** ** Logical operations *)

(** The flags of a logical operation. *)
Definition set_flags_logical (is_64 : bool) (res : nat) : gen unit :=
  f ← (if is_64 then z ← mk_64 0; mk_next_nzcv_64 pc OPS_LOGICAL res z
       else r ← ir.add_cast IR_CAST_64_TO_32 res; z ← mk_32 0; mk_next_nzcv_32 pc OPS_LOGICAL r z);
  write_nzcv f.

(** [and], [orr], [eor], [ands], by [opc] *)
Definition logical_binop (opc : Z) : binopKind :=
  match opc with 1 => OR | 2 => XOR | _ => AND end.

Definition dis_logical_shifted_register (insn : Z) : gen bool :=
  let is_64 := INSN1 insn 31 in
  let opc := INSN insn 30 29 in
  let n := INSN1 insn 21 in
  let shift := INSN insn 23 22 in
  let imm6 := INSN insn 15 10 in
  let rm := f_rm insn in
  let rn := f_rn insn in
  let rd := f_rd insn in
  let is_setflags := opc =? 3 in
  let shifted k :=
    if is_64 then r ← read_x rm ZERO_REG; s ← mk_8 imm6; ir.add_binop k IR_REG_64 r s
    else r ← read_w rm ZERO_REG; s ← mk_8 imm6; t ← ir.add_binop k IR_REG_32 r s;
         ir.add_cast IR_CAST_32U_TO_64 t in
  op2 ←
    (if negb (imm6 =? 0) then
       match shift with
       | 0 => r ← read_x rm ZERO_REG; s ← mk_8 imm6; ir.add_binop SHL IR_REG_64 r s
       | 1 => shifted SHR
       | 2 => shifted ASR
       | _ => shifted ROR
       end
     else read_x rm ZERO_REG);
  op2_inverted ← (if n then c ← mk_64 (Z.lnot 0); ir.add_binop XOR IR_REG_64 op2 c else mret op2);
  x ← read_x rn ZERO_REG;
  res ← ir.add_binop (logical_binop opc) IR_REG_64 x op2_inverted;
  (if is_setflags then set_flags_logical is_64 res else mret tt);;
  write_x_or_low is_64 rd res ZERO_REG;; mret false.

(** ** Branches *)

Definition dis_b_A_bl (insn : Z) : gen bool :=
  let is_l := INSN1 insn 31 in
  let imm26 := sign_extend 28 (Z.shiftl (INSN insn 25 0) 2) in
  (if is_l then r ← mk_64 (pc + 4); write_x 30 r ZERO_REG else mret tt);;
  t ← mk_64 (pc + imm26);
  mk_exit pc t;; mret true.

Definition dis_svc (insn : Z) : gen bool :=
  r ← mk_64 (pc + 4); write_pc r;;
  mk_call0 pc arm64_hlp_syscall;;
  r ← mk_64 (pc + 4); mk_exit pc r;;
  mret true.

Definition dis_brk (insn : Z) : gen bool :=
  r ← mk_64 pc; write_pc r;;
  mk_gdb_breakpoint_instruction pc;;
  r ← mk_64 pc; ir.add_exit r;;
  mret true.

Definition dis_br (insn : Z) : gen bool :=
  ret ← read_x (f_rn insn) ZERO_REG;
  mk_exit pc ret;; mret true.

Definition dis_blr (insn : Z) : gen bool :=
  ret ← read_x (f_rn insn) ZERO_REG;
  r ← mk_64 (pc + 4); write_x 30 r ZERO_REG;;
  mk_exit pc ret;; mret true.

Definition dis_ret (insn : Z) : gen bool :=
  ret ← read_x (f_rn insn) ZERO_REG;
  mk_exit pc ret;; mret true.

Definition dis_conditionnal_branch_immediate_insn (insn : Z) : gen bool :=
  let cond := INSN insn 3 0 in
  let imm19 := sign_extend 21 (Z.shiftl (INSN insn 23 5) 2) in
  pred ← mk_flags_pred pc cond;
  mk_branch pc pred true (pc + imm19).

Definition dis_load_register_literal (insn : Z) : gen bool :=
  let opc := INSN insn 31 30 in
  let imm19 := sign_extend 21 (Z.shiftl (INSN insn 23 5) 2) in
  let rt := f_rd insn in
  if opc =? 3 then mret false else
  address ← mk_64 (pc + imm19);
  (match opc with
   | 0 => r ← ir.add_load IR_REG_32 address; write_w rt r ZERO_REG
   | 1 => r ← ir.add_load IR_REG_64 address; write_x rt r ZERO_REG
   | _ => r ← ir.add_load IR_REG_32 address; write_w_sign_extend rt r ZERO_REG
   end);;
  mret false.

Definition dis_cbz_A_cbnz (insn : Z) : gen bool :=
  let is_64 := INSN1 insn 31 in
  let imm19 := sign_extend 21 (Z.shiftl (INSN insn 23 5) 2) in
  let rt := f_rd insn in
  let is_cmp_not_zero := INSN1 insn 24 in
  let k := if is_cmp_not_zero then CMPNE else CMPEQ in
  pred ←
    (if is_64 then x ← read_x rt ZERO_REG; z ← mk_64 0; ir.add_binop k IR_REG_64 x z
     else x ← read_w rt ZERO_REG; z ← mk_32 0; p ← ir.add_binop k IR_REG_32 x z;
          ir.add_cast IR_CAST_32U_TO_64 p);
  mk_branch pc pred false (pc + imm19).

Definition dis_cbnz (insn : Z) : gen bool := dis_cbz_A_cbnz insn.
Definition dis_cbz (insn : Z) : gen bool := dis_cbz_A_cbnz insn.

(** ** Conditional comparison and selection *)

Definition dis_ccmp_A_ccmn (insn : Z) (op2 : nat) : gen bool :=
  let is_64 := INSN1 insn 31 in
  let op := INSN1 insn 30 in
  let cond := INSN insn 15 12 in
  let rn := f_rn insn in
  let nzcv := INSN insn 4 0 in
  pred ← mk_flags_pred pc cond;
  p0 ← mk_32 (if op then OPS_SUB else OPS_ADD);
  p1 ← read_xw is_64 rn ZERO_REG;
  p3 ← read_nzcv;
  a ← mk_helper (if is_64 then arm64_hlp_compute_next_nzcv_64 else arm64_hlp_compute_next_nzcv_32);
  res_true ← mk_call pc IR_REG_32 a [Some p0; Some p1; Some op2; Some p3];
  res_false ← mk_32 (Z.shiftl nzcv 28);
  res ← ir.add_ite IR_REG_32 pred res_true res_false;
  write_nzcv res;; mret false.

Definition dis_ccmp_A_ccmn_immediate (insn : Z) : gen bool :=
  let is_64 := INSN1 insn 31 in
  let imm5 := INSN insn 20 16 in
  op2 ← (if is_64 then mk_64 imm5 else mk_32 imm5);
  dis_ccmp_A_ccmn insn op2.

Definition dis_ccmp_A_ccmn_register (insn : Z) : gen bool :=
  let is_64 := INSN1 insn 31 in
  op2 ← read_xw is_64 (f_rm insn) ZERO_REG;
  dis_ccmp_A_ccmn insn op2.

Definition dis_cond_select (insn : Z) (op2 : nat) : gen bool :=
  let is_64 := INSN1 insn 31 in
  let rd := f_rd insn in
  let rn := f_rn insn in
  let cond := INSN insn 15 12 in
  pred ← mk_flags_pred pc cond;
  p ← ir.add_cast IR_CAST_32U_TO_64 pred;
  x ← read_x rn ZERO_REG;
  res ← ir.add_ite IR_REG_64 p x op2;
  write_x_or_low is_64 rd res ZERO_REG;; mret false.

Definition dis_csneg (insn : Z) : gen bool :=
  z ← mk_64 0; x ← read_x (f_rm insn) ZERO_REG; r ← ir.add_binop SUB IR_REG_64 z x;
  dis_cond_select insn r.

Definition dis_csinv (insn : Z) : gen bool :=
  x ← read_x (f_rm insn) ZERO_REG; c ← mk_64 (Z.lnot 0); r ← ir.add_binop XOR IR_REG_64 x c;
  dis_cond_select insn r.

Definition dis_csinc (insn : Z) : gen bool :=
  x ← read_x (f_rm insn) ZERO_REG; c ← mk_64 1; r ← ir.add_binop ADD IR_REG_64 x c;
  dis_cond_select insn r.

Definition dis_csel (insn : Z) : gen bool :=
  x ← read_x (f_rm insn) ZERO_REG; dis_cond_select insn x.

(** ** Loads and stores of a register *)

(** The register width of a [size] field of 0, 1, 2 or 3. *)
Definition size_type (size : Z) : irRegisterType :=
  match size with 0 => IR_REG_8 | 1 => IR_REG_16 | 2 => IR_REG_32 | _ => IR_REG_64 end.

Definition dis_load_store_register (size opc rt : Z) (address : nat) : gen bool :=
  match opc with
  | 0 =>
      (match size with
       | 0 => r ← read_x rt ZERO_REG; v ← ir.add_cast IR_CAST_64_TO_8 r; ir.add_store IR_REG_8 v address
       | 1 => r ← read_x rt ZERO_REG; v ← ir.add_cast IR_CAST_64_TO_16 r; ir.add_store IR_REG_16 v address
       | 2 => r ← read_w rt ZERO_REG; ir.add_store IR_REG_32 r address
       | _ => r ← read_x rt ZERO_REG; ir.add_store IR_REG_64 r address
       end);;
      mret false
  | 1 =>
      res ←
        (match size with
         | 0 => r ← ir.add_load IR_REG_8 address; ir.add_cast IR_CAST_8U_TO_64 r
         | 1 => r ← ir.add_load IR_REG_16 address; ir.add_cast IR_CAST_16U_TO_64 r
         | 2 => r ← ir.add_load IR_REG_32 address; ir.add_cast IR_CAST_32U_TO_64 r
         | _ => ir.add_load IR_REG_64 address
         end);
      write_x rt res ZERO_REG;; mret false
  | 2 =>
      if size =? 3 then illegal_opcode pc else
      res ←
        (match size with
         | 0 => r ← ir.add_load IR_REG_8 address; ir.add_cast IR_CAST_8S_TO_64 r
         | 1 => r ← ir.add_load IR_REG_16 address; ir.add_cast IR_CAST_16S_TO_64 r
         | _ => r ← ir.add_load IR_REG_32 address; ir.add_cast IR_CAST_32S_TO_64 r
         end);
      write_x rt res ZERO_REG;; mret false
  | _ =>
      if 2 <=? size then illegal_opcode pc else
      res ←
        (match size with
         | 0 => r ← ir.add_load IR_REG_8 address; ir.add_cast IR_CAST_8S_TO_32 r
         | _ => r ← ir.add_load IR_REG_16 address; ir.add_cast IR_CAST_16S_TO_32 r
         end);
      write_w rt res ZERO_REG;; mret false
  end.

Definition dis_load_store_register_unsigned_offset (insn : Z) : gen bool :=
  let size := INSN insn 31 30 in
  let opc := INSN insn 23 22 in
  let imm12 := INSN insn 21 10 in
  if (size =? 3) && (opc =? 2) then mret false else
  b ← read_x (f_rn insn) SP_REG; o ← mk_64 (Z.shiftl imm12 size);
  address ← ir.add_binop ADD IR_REG_64 b o;
  dis_load_store_register size opc (f_rd insn) address.

Definition dis_load_store_register_unscaled_immediate (insn : Z) : gen bool :=
  let size := INSN insn 31 30 in
  let opc := INSN insn 23 22 in
  let imm9 := sign_extend 9 (INSN insn 20 12) in
  if (size =? 3) && (opc =? 2) then mret false else
  b ← read_x (f_rn insn) SP_REG; o ← mk_64 imm9;
  address ← ir.add_binop ADD IR_REG_64 b o;
  dis_load_store_register size opc (f_rd insn) address.

Definition dis_load_store_register_immediate_post_indexed (insn : Z) : gen bool :=
  let size := INSN insn 31 30 in
  let opc := INSN insn 23 22 in
  let imm9 := sign_extend 9 (INSN insn 20 12) in
  let rn := f_rn insn in
  address ← read_x rn SP_REG;
  res ← dis_load_store_register size opc (f_rd insn) address;
  o ← mk_64 imm9; a ← ir.add_binop ADD IR_REG_64 address o; write_x rn a SP_REG;;
  mret res.

Definition dis_load_store_register_register_offset (insn : Z) : gen bool :=
  let size := INSN insn 31 30 in
  let opc := INSN insn 23 22 in
  let rm := f_rm insn in
  let option := INSN insn 15 13 in
  let S := INSN1 insn 12 in
  if (size =? 3) && (opc =? 2) then mret false else
  let go offset_not_scale :=
    offset ← (if S && negb (size =? 0)
              then s ← mk_8 size; ir.add_binop SHL IR_REG_64 offset_not_scale s
              else mret offset_not_scale);
    b ← read_x (f_rn insn) SP_REG;
    address ← ir.add_binop ADD IR_REG_64 b offset;
    dis_load_store_register size opc (f_rd insn) address in
  if (option =? 3) || (option =? 7) then r ← read_x rm ZERO_REG; go r
  else if option =? 2 then w ← read_w rm ZERO_REG; r ← ir.add_cast IR_CAST_32U_TO_64 w; go r
  else if option =? 6 then w ← read_w rm ZERO_REG; r ← ir.add_cast IR_CAST_32S_TO_64 w; go r
  else illegal_opcode pc.

Definition dis_load_store_register_unprivileged (insn : Z) : gen bool :=
  dis_load_store_register_unscaled_immediate insn.

Definition dis_load_store_register_immediate_pre_indexed (insn : Z) : gen bool :=
  let size := INSN insn 31 30 in
  let opc := INSN insn 23 22 in
  let imm9 := sign_extend 9 (INSN insn 20 12) in
  let rn := f_rn insn in
  b ← read_x rn SP_REG; o ← mk_64 imm9;
  address ← ir.add_binop ADD IR_REG_64 b o;
  res ← dis_load_store_register size opc (f_rd insn) address;
  write_x rn address SP_REG;;
  mret res.
End dis.
