(* ===== verification/Arm64DisData.v ===== *)
(** * The AArch64 front end: bit fields, products, exclusive accesses, system
      ([src/src/target/arm64/disassembler/arm64_disassembler.c], from
      [rotateRight] on) *)

From S2P Require Import Prelude Ir Jitter FrontGen Arm64Gen Arm64Dis.

#[local] Open Scope c_scope.

(** ** Immediates of the logical operations *)

(** [rotate] is below [width] where it is called; for a [rotate] of 0 the
    shifted part is 0. *)
Definition rotateRight (value rotate width : Z) : Z :=
  let rotate := Z.land rotate 63 in
  wrap 64 (Z.lor (Z.shiftl (Z.land value (Z.shiftl 1 rotate - 1)) (width - rotate)) (Z.shiftr value rotate)).

(** [for (i = width; i < size; i *= 2) immediate |= immediate << i;] from a
    [width] of at least 2: five doublings reach 64. *)
Fixpoint replicate_pattern (fuel : nat) (immediate i size : Z) : Z :=
  match fuel with
  | O => immediate
  | S fuel =>
      if i <? size
      then replicate_pattern fuel (wrap 64 (Z.lor immediate (Z.shiftl immediate i))) (i * 2) size
      else immediate
  end.

(** [for (width = 0x20; width >= 2; width >>= 1)]: at the first clear bit of
    [imms]. *)
Fixpoint immediate_of_width (fuel : nat) (width immr imms size : Z) : Z :=
  match fuel with
  | O => 0
  | S fuel =>
      if 2 <=? width then
        if Z.land imms width =? 0 then
          let mask := width - 1 in
          let pattern := Z.shiftl 1 (Z.land imms mask + 1) - 1 in
          let pattern := rotateRight pattern (Z.land immr mask) width in
          replicate_pattern 6 (Z.land pattern (Z.shiftl 1 width - 1)) width size
        else immediate_of_width fuel (Z.shiftr width 1) immr imms size
      else 0
  end.

(** An [imms] of 63 with [n] set is not an encoding; the shift by 64 is then
    taken as the x86 instruction takes it. *)
Definition logical_immediate (is_64 : bool) (n immr imms : Z) : Z :=
  if n =? 1 then rotateRight (wrap 64 (Z.shiftl 1 (Z.land (imms + 1) 63) - 1)) immr 64
  else immediate_of_width 6 0x20 immr imms (if is_64 then 64 else 32).

Section dis.
Context `{HelperAddress}.
(** [context->pc] *)
Context (pc : Z).

Definition dis_logical_immediate (insn : Z) : gen bool :=
  let is_64 := INSN1 insn 31 in
  let opc := INSN insn 30 29 in
  let rn := f_rn insn in
  let rd := f_rd insn in
  let immediate := logical_immediate is_64 (INSN insn 22 22) (INSN insn 21 16) (INSN insn 15 10) in
  let is_setflags := opc =? 3 in
  x ← read_x rn ZERO_REG; c ← mk_64 immediate;
  res ← ir.add_binop (logical_binop opc) IR_REG_64 x c;
  (if is_setflags then set_flags_logical pc is_64 res else mret tt);;
  write_x_or_low is_64 rd res (if is_setflags then ZERO_REG else SP_REG);;
  mret false.

(** ** Bit fields *)

Definition dis_bitfield_insn (insn : Z) : gen bool :=
  let is_64 := INSN1 insn 31 in
  let rn := f_rn insn in
  let rd := f_rd insn in
  p0 ← mk_32 insn; p1 ← read_x rn ZERO_REG; p2 ← read_x rd ZERO_REG;
  a ← mk_helper arm64_hlp_compute_bitfield;
  res ← mk_call pc IR_REG_64 a [Some p0; Some p1; Some p2; None];
  write_x_or_low is_64 rd res ZERO_REG;; mret false.

Definition dis_extr (insn : Z) : gen bool :=
  let is_64 := INSN1 insn 31 in
  let imms := INSN insn 15 10 in
  let rd := f_rd insn in
  let rn := f_rn insn in
  let rm := f_rm insn in
  if rn =? rm then
    x ← read_xw is_64 rm ZERO_REG;
    res ← mk_ror_imm (width is_64) x imms;
    write_xw is_64 rd res ZERO_REG;; mret false
  else
    if negb is_64 && negb (imms <? 32) then illegal_opcode pc else
    x ← read_xw is_64 rm ZERO_REG; s ← mk_8 imms; lo ← ir.add_binop SHR (width is_64) x s;
    y ← read_xw is_64 rn ZERO_REG; s ← mk_8 ((if is_64 then 64 else 32) - imms);
    hi ← ir.add_binop SHL (width is_64) y s;
    res ← ir.add_binop OR (width is_64) lo hi;
    write_xw is_64 rd res ZERO_REG;; mret false.

(** ** Division, variable shifts *)

(** The result of the 64-bit division is requested as 32 bits. *)
Definition dis_div (h64 h32 : arm64_helper) (insn : Z) : gen bool :=
  let is_64 := INSN1 insn 31 in
  p0 ← read_xw is_64 (f_rn insn) ZERO_REG;
  p1 ← read_xw is_64 (f_rm insn) ZERO_REG;
  a ← mk_helper (if is_64 then h64 else h32);
  res ← mk_call pc IR_REG_32 a [Some p0; Some p1; None; None];
  write_xw is_64 (f_rd insn) res ZERO_REG;; mret false.

Definition dis_udiv : Z -> gen bool := dis_div arm64_hlp_udiv_64 arm64_hlp_udiv_32.
Definition dis_sdiv : Z -> gen bool := dis_div arm64_hlp_sdiv_64 arm64_hlp_sdiv_32.

(** The amount of a variable shift: [rm & mask], as 8 bits. *)
Definition shift_amount (rm mask : Z) : gen nat :=
  y ← read_x rm ZERO_REG; c ← mk_64 mask; a ← ir.add_binop AND IR_REG_64 y c;
  ir.add_cast IR_CAST_64_TO_8 a.

Definition dis_lslv (insn : Z) : gen bool :=
  let is_64 := INSN1 insn 31 in
  let mask := if is_64 then 0x3f else 0x1f in
  x ← read_x (f_rn insn) ZERO_REG; s ← shift_amount (f_rm insn) mask;
  res ← ir.add_binop SHL IR_REG_64 x s;
  write_x_or_low is_64 (f_rd insn) res ZERO_REG;; mret false.

Definition dis_lsrv (insn : Z) : gen bool :=
  let is_64 := INSN1 insn 31 in
  let mask := if is_64 then 0x3f else 0x1f in
  let mask_res := if is_64 then Z.lnot 0 else 0xffffffff in
  x ← read_x (f_rn insn) ZERO_REG; c ← mk_64 mask_res; x ← ir.add_binop AND IR_REG_64 x c;
  s ← shift_amount (f_rm insn) mask;
  res ← ir.add_binop SHR IR_REG_64 x s;
  write_x_or_low is_64 (f_rd insn) res ZERO_REG;; mret false.

Definition dis_asrv (insn : Z) : gen bool :=
  let is_64 := INSN1 insn 31 in
  let mask := if is_64 then 0x3f else 0x1f in
  x ← read_xw is_64 (f_rn insn) ZERO_REG; s ← shift_amount (f_rm insn) mask;
  res ← ir.add_binop ASR (width is_64) x s;
  write_xw is_64 (f_rd insn) res ZERO_REG;; mret false.

Definition dis_rorv (insn : Z) : gen bool :=
  let is_64 := INSN1 insn 31 in
  x ← read_xw is_64 (f_rn insn) ZERO_REG; s ← shift_amount (f_rm insn) (if is_64 then 0x3f else 0x1f);
  res ← ir.add_binop ROR (width is_64) x s;
  write_xw is_64 (f_rd insn) res ZERO_REG;; mret false.

Definition dis_crc32 (insn : Z) : gen bool := mk_dirty pc arm64_hlp_dirty_crc32 insn.

Definition dis_tbz_A_tbnz (insn : Z) : gen bool :=
  let bit_pos := Z.lor (Z.shiftl (INSN insn 31 31) 5) (INSN insn 23 19) in
  let imm14 := sign_extend 16 (Z.shiftl (INSN insn 18 5) 2) in
  let rt := f_rd insn in
  let is_tbnz := INSN1 insn 24 in
  x ← read_x rt ZERO_REG; c ← mk_64 (Z.shiftl 1 bit_pos);
  res ← ir.add_binop AND IR_REG_64 x c;
  z ← mk_64 0;
  pred ← ir.add_binop (if is_tbnz then CMPNE else CMPEQ) IR_REG_64 res z;
  mk_branch pc pred false (pc + imm14).

(** ** Products *)

Definition f_ra (insn : Z) : Z := INSN insn 14 10.

Definition dis_mul_add (k : binopKind) (insn : Z) : gen bool :=
  let is_64 := INSN1 insn 31 in
  a ← read_xw is_64 (f_ra insn) ZERO_REG;
  x ← read_xw is_64 (f_rn insn) ZERO_REG;
  y ← read_xw is_64 (f_rm insn) ZERO_REG;
  p ← (if is_64 then mk_mul_u_lsb_64 pc x y else mk_mul_u_lsb_32 pc x y);
  res ← ir.add_binop k (width is_64) a p;
  write_xw is_64 (f_rd insn) res ZERO_REG;; mret false.

Definition dis_madd : Z -> gen bool := dis_mul_add ADD.
Definition dis_msub : Z -> gen bool := dis_mul_add SUB.

Definition dis_mul_add_long (k : binopKind) (signed : bool) (insn : Z) : gen bool :=
  let ext := if signed then IR_CAST_32S_TO_64 else IR_CAST_32U_TO_64 in
  w ← read_w (f_rn insn) ZERO_REG; x ← ir.add_cast ext w;
  w ← read_w (f_rm insn) ZERO_REG; y ← ir.add_cast ext w;
  mult ← (if signed then mk_mul_s_lsb_64 pc x y else mk_mul_u_lsb_64 pc x y);
  a ← read_x (f_ra insn) ZERO_REG;
  res ← ir.add_binop k IR_REG_64 a mult;
  write_x (f_rd insn) res ZERO_REG;; mret false.

Definition dis_smaddl : Z -> gen bool := dis_mul_add_long ADD true.
Definition dis_smsubl : Z -> gen bool := dis_mul_add_long SUB true.
Definition dis_umaddl : Z -> gen bool := dis_mul_add_long ADD false.
Definition dis_umsubl : Z -> gen bool := dis_mul_add_long SUB false.

Definition dis_smulh (insn : Z) : gen bool :=
  x ← read_x (f_rn insn) ZERO_REG; y ← read_x (f_rm insn) ZERO_REG;
  r ← mk_mul_s_msb_64 pc x y; write_x (f_rd insn) r ZERO_REG;; mret false.

Definition dis_umulh (insn : Z) : gen bool :=
  x ← read_x (f_rn insn) ZERO_REG; y ← read_x (f_rm insn) ZERO_REG;
  r ← mk_mul_u_msb_64 pc x y; write_x (f_rd insn) r ZERO_REG;; mret false.

(** ** System registers *)

Definition mk_read_fp (h : arm64_helper) : gen nat :=
  a ← mk_helper h; mk_call pc IR_REG_32 a [None; None; None; None].
Definition read_fpsr : gen nat := mk_read_fp arm64_hlp_read_fpsr.
Definition read_fpcr : gen nat := mk_read_fp arm64_hlp_read_fpcr.

Definition mk_write_fp (h : arm64_helper) (value : nat) : gen unit :=
  a ← mk_helper h; mk_call_void pc a [Some value; None; None; None].
Definition write_fpsr : nat -> gen unit := mk_write_fp arm64_hlp_write_fpsr.
Definition write_fpcr : nat -> gen unit := mk_write_fp arm64_hlp_write_fpcr.

(** [op0], [op1], [crn], [crm], [op2] *)
Definition sysreg (insn : Z) : Z * Z * Z * Z * Z :=
  (2 + INSN insn 19 19, INSN insn 18 16, INSN insn 15 12, INSN insn 11 8, INSN insn 7 5).

Definition dis_msr_register (insn : Z) : gen bool :=
  let rt := f_rd insn in
  let reg := sysreg insn in
  if bool_decide (reg = (3, 3, 0xd, 0, 2)) then
    x ← read_x rt ZERO_REG; ir.add_write_context IR_REG_64 x off_tpidr_el0;; mret false
  else if bool_decide (reg = (3, 3, 4, 2, 0)) then
    x ← read_w rt ZERO_REG; write_nzcv x;; mret false
  else if bool_decide (reg = (3, 3, 4, 4, 0)) then
    x ← read_w rt ZERO_REG; write_fpcr x;; mret false
  else if bool_decide (reg = (3, 3, 4, 4, 1)) then
    x ← read_w rt ZERO_REG; write_fpsr x;; mret false
  else illegal_opcode pc.

Definition dis_mrs_register (insn : Z) : gen bool :=
  let rt := f_rd insn in
  let reg := sysreg insn in
  let value (g : gen nat) : gen bool := r ← g; write_x rt r ZERO_REG;; mret false in
  if bool_decide (reg = (3, 3, 0xd, 0, 2)) then value (ir.add_read_context IR_REG_64 off_tpidr_el0)
  else if bool_decide (reg = (3, 3, 0, 0, 7)) then value (mk_64 (Z.lor (Z.shiftl 1 4) 7))
  else if bool_decide (reg = (3, 3, 4, 2, 0)) then value (r ← read_nzcv; ir.add_cast IR_CAST_32U_TO_64 r)
  else if bool_decide (reg = (3, 3, 4, 4, 0)) then value read_fpcr
  else if bool_decide (reg = (3, 3, 4, 4, 1)) then value read_fpsr
  else if bool_decide (reg = (3, 3, 0, 0, 1)) then value (mk_64 0x80030003)
  else if bool_decide (reg = (3, 3, 0xe, 0, 2)) then value (mk_64 0)
  else illegal_opcode pc.

(** ** Exclusive accesses *)

Definition dis_load_excl (h : arm64_helper) (insn : Z) : gen bool :=
  p0 ← read_x (f_rn insn) SP_REG; p1 ← mk_32 (INSN insn 31 30);
  a ← mk_helper h; result ← mk_call pc IR_REG_64 a [Some p0; Some p1; None; None];
  write_x (f_rd insn) result ZERO_REG;; mret false.

Definition dis_load_exclusive : Z -> gen bool := dis_load_excl arm64_hlp_ldxr.
Definition dis_load_aquire_exclusive : Z -> gen bool := dis_load_excl arm64_hlp_ldaxr.
Definition dis_load_aquire_exclusive_pair : Z -> gen bool := mk_dirty pc arm64_hlp_ldaxp_dirty.
Definition dis_load_exclusive_pair : Z -> gen bool := mk_dirty pc arm64_hlp_ldxp_dirty.

Definition dis_load_aquire (insn : Z) : gen bool :=
  let size := INSN insn 31 30 in
  let rt := f_rd insn in
  let rn := f_rn insn in
  (match size with
   | 3 => a ← read_x rn SP_REG; r ← ir.add_load IR_REG_64 a; write_x rt r ZERO_REG
   | 2 => a ← read_x rn SP_REG; r ← ir.add_load IR_REG_32 a; write_w rt r ZERO_REG
   | 1 => a ← read_x rn SP_REG; r ← ir.add_load IR_REG_16 a; r ← ir.add_cast IR_CAST_16U_TO_64 r;
          write_x rt r ZERO_REG
   | _ => a ← read_x rn SP_REG; r ← ir.add_load IR_REG_8 a; r ← ir.add_cast IR_CAST_8U_TO_64 r;
          write_x rt r ZERO_REG
   end);;
  mk_barrier pc;; mret false.

Definition dis_store_release (insn : Z) : gen bool :=
  let size := INSN insn 31 30 in
  let rt := f_rd insn in
  let rn := f_rn insn in
  mk_barrier pc;;
  (match size with
   | 3 => r ← read_x rt ZERO_REG; a ← read_x rn SP_REG; ir.add_store IR_REG_64 r a
   | 2 => r ← read_w rt ZERO_REG; a ← read_x rn SP_REG; ir.add_store IR_REG_32 r a
   | 1 => r ← read_x rt ZERO_REG; r ← ir.add_cast IR_CAST_64_TO_16 r; a ← read_x rn SP_REG;
          ir.add_store IR_REG_16 r a
   | _ => r ← read_x rt ZERO_REG; r ← ir.add_cast IR_CAST_64_TO_8 r; a ← read_x rn SP_REG;
          ir.add_store IR_REG_8 r a
   end);;
  mret false.

Definition dis_store_excl (h : arm64_helper) (insn : Z) : gen bool :=
  p0 ← read_x (f_rn insn) SP_REG; p1 ← mk_32 (INSN insn 31 30);
  p2 ← read_x (f_rd insn) ZERO_REG;
  a ← mk_helper h; result ← mk_call pc IR_REG_32 a [Some p0; Some p1; Some p2; None];
  write_w (f_rm insn) result ZERO_REG;; mret false.

Definition dis_store_exclusive : Z -> gen bool := dis_store_excl arm64_hlp_stxr.
Definition dis_store_release_exclusive : Z -> gen bool := dis_store_excl arm64_hlp_stlxr.
Definition dis_store_exclusive_pair : Z -> gen bool := mk_dirty pc arm64_hlp_stxp_dirty.
Definition dis_store_release_exclusive_pair : Z -> gen bool := mk_dirty pc arm64_hlp_stlxp_dirty.

(** ** Reversals *)

(** [((x & c) << n) | ((x & d) >> n)] *)
Definition swap_parts (w : irRegisterType) (c d n : Z) (x : nat) : gen nat :=
  m ← ir.add_mov_const w c; a ← ir.add_binop AND w x m; s ← mk_8 n; l ← ir.add_binop SHL w a s;
  m ← ir.add_mov_const w d; a ← ir.add_binop AND w x m; s ← mk_8 n; r ← ir.add_binop SHR w a s;
  ir.add_binop OR w l r.

(** The loop of [dis_rbit_64] and [dis_rbit_32] over its constants. *)
Fixpoint rbit_loop (w : irRegisterType) (cs : list Z) (i : Z) (x : nat) : gen nat :=
  match cs with
  | [] => mret x
  | c :: cs => y ← swap_parts w c (Z.lnot c) (Z.shiftl 1 i) x; rbit_loop w cs (i + 1) y
  end.

Definition dis_rbit_64 (insn : Z) : gen bool :=
  x ← read_x (f_rn insn) ZERO_REG;
  r ← rbit_loop IR_REG_64 [0x5555555555555555; 0x3333333333333333; 0x0F0F0F0F0F0F0F0F;
                           0x00FF00FF00FF00FF; 0x0000FFFF0000FFFF; 0x00000000FFFFFFFF] 0 x;
  write_x (f_rd insn) r ZERO_REG;; mret false.

Definition dis_rbit_32 (insn : Z) : gen bool :=
  x ← read_w (f_rn insn) ZERO_REG;
  r ← rbit_loop IR_REG_32 [0x55555555; 0x33333333; 0x0F0F0F0F; 0x00FF00FF; 0x0000FFFF] 0 x;
  write_w (f_rd insn) r ZERO_REG;; mret false.

Definition dis_rbit (insn : Z) : gen bool :=
  if INSN1 insn 31 then dis_rbit_64 insn else dis_rbit_32 insn.

Definition dis_rev16 (insn : Z) : gen bool :=
  if INSN1 insn 31 then
    x ← read_x (f_rn insn) ZERO_REG;
    r ← swap_parts IR_REG_64 0x00ff00ff00ff00ff 0xff00ff00ff00ff00 8 x;
    write_x (f_rd insn) r ZERO_REG;; mret false
  else
    x ← read_w (f_rn insn) ZERO_REG;
    r ← swap_parts IR_REG_32 0x00ff00ff 0xff00ff00 8 x;
    write_w (f_rd insn) r ZERO_REG;; mret false.

Definition dis_rev32 (insn : Z) : gen bool :=
  x ← read_x (f_rn insn) ZERO_REG;
  phase1 ← swap_parts IR_REG_64 0x0000ffff0000ffff 0xffff0000ffff0000 16 x;
  res ← swap_parts IR_REG_64 0x00ff00ff00ff00ff 0xff00ff00ff00ff00 8 phase1;
  write_x (f_rd insn) res ZERO_REG;; mret false.

Definition dis_rev (insn : Z) : gen bool :=
  if INSN1 insn 31 then
    x ← read_x (f_rn insn) ZERO_REG;
    phase1 ← swap_parts IR_REG_64 0x00000000ffffffff 0xffffffff00000000 32 x;
    phase2 ← swap_parts IR_REG_64 0x0000ffff0000ffff 0xffff0000ffff0000 16 phase1;
    res ← swap_parts IR_REG_64 0x00ff00ff00ff00ff 0xff00ff00ff00ff00 8 phase2;
    write_x (f_rd insn) res ZERO_REG;; mret false
  else
    x ← read_w (f_rn insn) ZERO_REG;
    phase1 ← swap_parts IR_REG_32 0x0000ffff 0xffff0000 16 x;
    res ← swap_parts IR_REG_32 0x00ff00ff 0xff00ff00 8 phase1;
    write_w (f_rd insn) res ZERO_REG;; mret false.

(** Counting leading bits: [dis_clz] and [dis_cls]. *)
Definition dis_count (h : arm64_helper) (insn : Z) : gen bool :=
  let is_64 := INSN1 insn 31 in
  p0 ← read_x (f_rn insn) ZERO_REG; p1 ← mk_32 (if is_64 then 63 else 31);
  a ← mk_helper h; res ← mk_call pc IR_REG_64 a [Some p0; Some p1; None; None];
  write_x_or_low is_64 (f_rd insn) res ZERO_REG;; mret false.

Definition dis_clz : Z -> gen bool := dis_count arm64_hlp_clz.
Definition dis_cls : Z -> gen bool := dis_count arm64_hlp_cls.

(** ** Barriers and cache maintenance *)

Definition dis_clrex (insn : Z) : gen bool := mk_call0 pc arm64_hlp_clrex;; mret false.
Definition dis_dsb (insn : Z) : gen bool := mk_barrier pc;; mret false.
Definition dis_dmb (insn : Z) : gen bool := mk_barrier pc;; mret false.
Definition dis_isb (insn : Z) : gen bool := mk_barrier pc;; mret false.

Definition dis_sys (insn : Z) : gen bool :=
  let op := (INSN insn 18 16, INSN insn 15 12, INSN insn 11 8, INSN insn 7 5) in
  if bool_decide (op = (3, 7, 10, 1)) || bool_decide (op = (3, 7, 11, 1)) || bool_decide (op = (3, 7, 14, 1))
  then mret false
  else if bool_decide (op = (3, 7, 5, 1)) then
    mk_call0 pc arm64_clean_caches;;
    r ← mk_64 (pc + 4); mk_exit pc r;;
    mret true
  else illegal_opcode pc.

(** ** Addition with carry *)

Definition dis_add_substract_with_carry (insn : Z) : gen bool :=
  let is_64 := INSN1 insn 31 in
  let is_sub := INSN1 insn 30 in
  let S := INSN1 insn 29 in
  f ← read_nzcv; s ← mk_8 29; c ← ir.add_binop SHR IR_REG_32 f s; one ← mk_32 1;
  carry ← ir.add_binop AND IR_REG_32 c one;
  op1 ← read_xw is_64 (f_rn insn) ZERO_REG;
  op2 ← read_xw is_64 (f_rm insn) ZERO_REG;
  op2_inverted ←
    (if is_sub then
       ones ← (if is_64 then mk_64 (Z.lnot 0) else mk_32 (Z.lnot 0));
       ir.add_binop XOR (width is_64) op2 ones
     else mret op2);
  sum ← ir.add_binop ADD (width is_64) op1 op2_inverted;
  cx ← (if is_64 then ir.add_cast IR_CAST_32U_TO_64 carry else mret carry);
  res ← ir.add_binop ADD (width is_64) sum cx;
  (if S then
     n ← (if is_64 then mk_next_nzcv_64 pc OPS_ADC op1 op2_inverted
          else mk_next_nzcv_32 pc OPS_ADC op1 op2_inverted);
     write_nzcv n
   else mret tt);;
  write_xw is_64 (f_rd insn) res ZERO_REG;; mret false.
End dis.
