(* ===== verification/Arm64Simd.v ===== *)
(** * The AArch64 front end: SIMD and floating point
      ([src/src/target/arm64/disassembler/arm64_disassembler.c])

    The moves, loads and stores are translated here; the arithmetic is left to
    helpers that decode the instruction themselves ([arm64_helpers_simd.c],
    [arm64_helpers_fpu.c]). *)

From S2P Require Import Prelude Ir Jitter FrontGen Arm64Gen Arm64Dis.

#[local] Open Scope c_scope.

(** ** Registers *)

Definition write_v_lsb (index : Z) (value : nat) : gen unit := ir.add_write_context IR_REG_64 value (off_v_lsb index).
Definition write_v_msb (index : Z) (value : nat) : gen unit := ir.add_write_context IR_REG_64 value (off_v_msb index).
Definition read_v_lsb (index : Z) : gen nat := ir.add_read_context IR_REG_64 (off_v_lsb index).
Definition read_v_msb (index : Z) : gen nat := ir.add_read_context IR_REG_64 (off_v_msb index).

Definition write_d (index : Z) (value : nat) : gen unit := ir.add_write_context IR_REG_64 value (off_v_d index 0).
Definition write_d_by_index (no index : Z) (value : nat) : gen unit :=
  ir.add_write_context IR_REG_64 value (off_v_d no index).
Definition read_d (index : Z) : gen nat := ir.add_read_context IR_REG_64 (off_v_d index 0).
Definition read_d_by_index (no index : Z) : gen nat := ir.add_read_context IR_REG_64 (off_v_d no index).

Definition write_s (index : Z) (value : nat) : gen unit :=
  r ← ir.add_cast IR_CAST_32U_TO_64 value; ir.add_write_context IR_REG_64 r (off_v_d index 0).
Definition write_s_by_index (no index : Z) (value : nat) : gen unit :=
  ir.add_write_context IR_REG_32 value (off_v_s no index).
Definition read_s (index : Z) : gen nat := ir.add_read_context IR_REG_32 (off_v_s index 0).
Definition read_s_by_index (no index : Z) : gen nat := ir.add_read_context IR_REG_32 (off_v_s no index).

Definition write_h (index : Z) (value : nat) : gen unit :=
  r ← ir.add_cast IR_CAST_16U_TO_64 value; ir.add_write_context IR_REG_64 r (off_v_d index 0).
Definition write_h_by_index (no index : Z) (value : nat) : gen unit :=
  ir.add_write_context IR_REG_16 value (off_v_h no index).
Definition read_h (index : Z) : gen nat := ir.add_read_context IR_REG_16 (off_v_h index 0).
Definition read_h_by_index (no index : Z) : gen nat := ir.add_read_context IR_REG_16 (off_v_h no index).

Definition write_b (index : Z) (value : nat) : gen unit :=
  r ← ir.add_cast IR_CAST_8U_TO_64 value; ir.add_write_context IR_REG_64 r (off_v_d index 0).
Definition write_b_by_index (no index : Z) (value : nat) : gen unit :=
  ir.add_write_context IR_REG_8 value (off_v_b no index).
Definition read_b (index : Z) : gen nat := ir.add_read_context IR_REG_8 (off_v_b index 0).
Definition read_b_by_index (no index : Z) : gen nat := ir.add_read_context IR_REG_8 (off_v_b no index).

(** ** Immediates *)

(** [imm8 << k0 | imm8 << k1 | ...] *)
Definition spread (v : Z) (ks : list Z) : Z := foldr (fun k r => Z.lor (wrap 64 (Z.shiftl v k)) r) 0 ks.

(** [for(i=0;i<8;i++) imm64 |= (imm8&(1<<i))?(0xffUL << (8*i)):0] *)
Definition bytes_of_bits (imm8 : Z) : Z :=
  foldl (fun imm64 i => Z.lor imm64 (if Z.testbit imm8 i then Z.shiftl 0xff (8 * i) else 0)) 0
        [0; 1; 2; 3; 4; 5; 6; 7].

(** [None] when [*is_illegal] is set; the four cases of [cmode] 14 and 15
    leave nothing illegal. *)
Definition simd_immediate (op cmode imm8 : Z) : option Z :=
  match Z.shiftr cmode 1 with
  | 0 => Some (spread imm8 [32; 0])
  | 1 => Some (spread imm8 [40; 8])
  | 2 => Some (spread imm8 [48; 16])
  | 3 => Some (spread imm8 [56; 24])
  | 4 => Some (spread imm8 [48; 32; 16; 0])
  | 5 => Some (spread imm8 [56; 40; 24; 8])
  | 6 =>
      if Z.odd cmode
      then Some (Z.lor (spread imm8 [48; 16]) (Z.lor (Z.shiftl 0xffff 32) 0xffff))
      else Some (Z.lor (spread imm8 [40; 8]) (Z.lor (Z.shiftl 0xff 32) 0xff))
  | 7 =>
      let imm8_7 := Z.land (Z.shiftr imm8 7) 1 in
      let imm8_6_not := Z.land (Z.shiftr (Z.lnot imm8) 6) 1 in
      let imm8_6 := Z.land (Z.shiftr imm8 6) 1 in
      let imm8_5_0 := Z.land imm8 0x3f in
      match Z.odd cmode, op =? 0 with
      | false, true => Some (spread imm8 [56; 48; 40; 32; 24; 16; 8; 0])
      | false, false => Some (bytes_of_bits imm8)
      | true, true =>
          let imm32 := Z.lor (Z.lor (spread imm8_7 [31]) (spread imm8_6_not [30]))
                             (Z.lor (spread imm8_6 [29; 28; 27; 26; 25]) (spread imm8_5_0 [19])) in
          Some (spread imm32 [32; 0])
      | true, false =>
          Some (Z.lor (Z.lor (spread imm8_7 [63]) (spread imm8_6_not [62]))
                      (Z.lor (spread imm8_6 [61; 60; 59; 58; 57; 56; 55; 54]) (spread imm8_5_0 [48])))
      end
  | _ => None
  end.

Section dis.
Context `{HelperAddress}.
(** [context->pc] *)
Context (pc : Z).

(** ** Loads and stores *)

(** An address 8 bytes further. *)
Definition plus_8 (address : nat) : gen nat := c ← mk_64 8; ir.add_binop ADD IR_REG_64 address c.

Definition zero_msb (rt : Z) : gen unit := z ← mk_64 0; write_v_msb rt z.

(** Both accesses of a pair are made like this one, for an [opc] of 0, 1, 2. *)
Definition pair_load_simd (opc rt : Z) (address : nat) : gen unit :=
  match opc with
  | 0 => r ← ir.add_load IR_REG_32 address; write_s rt r;; zero_msb rt
  | 1 => r ← ir.add_load IR_REG_64 address; write_d rt r;; zero_msb rt
  | _ => r ← ir.add_load IR_REG_64 address; write_v_lsb rt r;;
         a ← plus_8 address; r ← ir.add_load IR_REG_64 a; write_v_msb rt r
  end.

Definition pair_store_simd (opc rt : Z) (address : nat) : gen unit :=
  match opc with
  | 0 => r ← read_s rt; ir.add_store IR_REG_32 r address
  | 1 => r ← read_d rt; ir.add_store IR_REG_64 r address
  | _ => r ← read_v_lsb rt; ir.add_store IR_REG_64 r address;;
         r ← read_v_msb rt; a ← plus_8 address; ir.add_store IR_REG_64 r a
  end.

Definition dis_load_store_pair_simd_vfp (insn : Z) : gen bool :=
  let opc := INSN insn 31 30 in
  let is_load := INSN1 insn 22 in
  let rt2 := INSN insn 14 10 in
  let rn := f_rn insn in
  let rt := f_rd insn in
  let is_wb := INSN1 insn 23 in
  let is_not_postindex := negb (INSN insn 24 23 =? 1) in
  let offset := Z.shiftl (sign_extend 7 (INSN insn 21 15)) (2 + opc) in
  address1 ←
    (if is_not_postindex then
       b ← read_x rn SP_REG; o ← mk_64 offset; ir.add_binop ADD IR_REG_64 b o
     else read_x rn SP_REG);
  o ← mk_64 (Z.shiftl 4 opc);
  address2 ← ir.add_binop ADD IR_REG_64 address1 o;
  if opc =? 3 then illegal_opcode pc else
  (if is_load then pair_load_simd opc rt address1;; pair_load_simd opc rt2 address2
   else pair_store_simd opc rt address1;; pair_store_simd opc rt2 address2);;
  (if is_wb then
     if is_not_postindex then write_x rn address1 SP_REG
     else o ← mk_64 offset; a ← ir.add_binop ADD IR_REG_64 address1 o; write_x rn a SP_REG
   else mret tt);;
  mret false.

Definition dis_load_store_no_allocate_pair_offset_simd_vfp (insn : Z) : gen bool := dis_load_store_pair_simd_vfp insn.
Definition dis_load_store_pair_pre_indexed_simd_vfp (insn : Z) : gen bool := dis_load_store_pair_simd_vfp insn.
Definition dis_load_store_pair_offset_simd_vfp (insn : Z) : gen bool := dis_load_store_pair_simd_vfp insn.
Definition dis_load_store_pair_post_indexed_simd_vfp (insn : Z) : gen bool := dis_load_store_pair_simd_vfp insn.

Definition dis_load_store_register_simd (is_load : bool) (size rt : Z) (address : nat) : gen bool :=
  if is_load then
    match size with
    | 0 => r ← ir.add_load IR_REG_8 address; write_b rt r;; zero_msb rt;; mret false
    | 1 => r ← ir.add_load IR_REG_16 address; write_h rt r;; zero_msb rt;; mret false
    | 2 => r ← ir.add_load IR_REG_32 address; write_s rt r;; zero_msb rt;; mret false
    | 3 => r ← ir.add_load IR_REG_64 address; write_d rt r;; zero_msb rt;; mret false
    | 4 => r ← ir.add_load IR_REG_64 address; write_v_lsb rt r;;
           a ← plus_8 address; r ← ir.add_load IR_REG_64 a; write_v_msb rt r;; mret false
    | _ => illegal_opcode pc
    end
  else
    match size with
    | 0 => r ← read_b rt; ir.add_store IR_REG_8 r address;; mret false
    | 1 => r ← read_h rt; ir.add_store IR_REG_16 r address;; mret false
    | 2 => r ← read_s rt; ir.add_store IR_REG_32 r address;; mret false
    | 3 => r ← read_d rt; ir.add_store IR_REG_64 r address;; mret false
    | 4 => r ← read_v_lsb rt; ir.add_store IR_REG_64 r address;;
           r ← read_v_msb rt; a ← plus_8 address; ir.add_store IR_REG_64 r a;; mret false
    | _ => illegal_opcode pc
    end.

(** [(INSN(23,23) << 2) | INSN(31,30)] *)
Definition simd_size (insn : Z) : Z := Z.lor (Z.shiftl (INSN insn 23 23) 2) (INSN insn 31 30).

Definition dis_load_store_register_unsigned_offset_simd (insn : Z) : gen bool :=
  let size := simd_size insn in
  b ← read_x (f_rn insn) SP_REG; o ← mk_64 (Z.shiftl (INSN insn 21 10) size);
  address ← ir.add_binop ADD IR_REG_64 b o;
  dis_load_store_register_simd (INSN1 insn 22) size (f_rd insn) address.

Definition dis_load_store_register_unscaled_immediate_simd (insn : Z) : gen bool :=
  let imm9 := sign_extend 9 (INSN insn 20 12) in
  b ← read_x (f_rn insn) SP_REG; o ← mk_64 imm9;
  address ← ir.add_binop ADD IR_REG_64 b o;
  dis_load_store_register_simd (INSN1 insn 22) (simd_size insn) (f_rd insn) address.

Definition dis_load_store_register_immediate_post_indexed_simd (insn : Z) : gen bool :=
  let rn := f_rn insn in
  let imm9 := sign_extend 9 (INSN insn 20 12) in
  address ← read_x rn SP_REG;
  res ← dis_load_store_register_simd (INSN1 insn 22) (simd_size insn) (f_rd insn) address;
  o ← mk_64 imm9; a ← ir.add_binop ADD IR_REG_64 address o; write_x rn a SP_REG;;
  mret res.

Definition dis_load_store_register_register_offset_simd (insn : Z) : gen bool :=
  let size := simd_size insn in
  let rm := f_rm insn in
  let option := INSN insn 15 13 in
  let S := INSN1 insn 12 in
  let go offset_not_scale :=
    offset ← (if S && negb (size =? 0)
              then s ← mk_8 size; ir.add_binop SHL IR_REG_64 offset_not_scale s
              else mret offset_not_scale);
    b ← read_x (f_rn insn) SP_REG;
    address ← ir.add_binop ADD IR_REG_64 b offset;
    dis_load_store_register_simd (INSN1 insn 22) size (f_rd insn) address in
  if (option =? 3) || (option =? 7) then r ← read_x rm ZERO_REG; go r
  else if option =? 2 then w ← read_w rm ZERO_REG; r ← ir.add_cast IR_CAST_32U_TO_64 w; go r
  else if option =? 6 then w ← read_w rm ZERO_REG; r ← ir.add_cast IR_CAST_32S_TO_64 w; go r
  else illegal_opcode pc.

Definition dis_load_store_register_immediate_pre_indexed_simd (insn : Z) : gen bool :=
  let rn := f_rn insn in
  let imm9 := sign_extend 9 (INSN insn 20 12) in
  b ← read_x rn SP_REG; o ← mk_64 imm9;
  address ← ir.add_binop ADD IR_REG_64 b o;
  res ← dis_load_store_register_simd (INSN1 insn 22) (simd_size insn) (f_rd insn) address;
  write_x rn address SP_REG;;
  mret res.

(** The upper half of the register is left as it was for 32 and 64 bits. *)
Definition dis_load_register_literal_simd (insn : Z) : gen bool :=
  let opc := INSN insn 31 30 in
  let imm19 := Z.shiftl (sign_extend 19 (INSN insn 23 5)) 2 in
  let rt := f_rd insn in
  address ← mk_64 (pc + imm19);
  match opc with
  | 0 => r ← ir.add_load IR_REG_32 address; write_s rt r;; mret false
  | 1 => r ← ir.add_load IR_REG_64 address; write_d rt r;; mret false
  | 2 => address2 ← mk_64 (pc + imm19 + 8);
         r ← ir.add_load IR_REG_64 address; write_v_lsb rt r;;
         r ← ir.add_load IR_REG_64 address2; write_v_msb rt r;; mret false
  | _ => illegal_opcode pc
  end.

(** ** Moves *)

(** [sf], [type], [rmode], [opcode] *)
Definition fmov_key (insn : Z) : Z * Z * Z * Z :=
  (INSN insn 31 31, INSN insn 23 22, INSN insn 20 19, INSN insn 18 16).

Definition dis_fmov (insn : Z) : gen bool :=
  let rn := f_rn insn in
  let rd := f_rd insn in
  let key := fmov_key insn in
  if bool_decide (key = (0, 0, 0, 7)) then
    r ← read_w rn ZERO_REG; write_s rd r;; zero_msb rd;; mret false
  else if bool_decide (key = (0, 0, 0, 6)) then
    r ← read_s rn; write_w rd r ZERO_REG;; mret false
  else if bool_decide (key = (1, 1, 0, 7)) then
    r ← read_x rn ZERO_REG; write_d rd r;; zero_msb rd;; mret false
  else if bool_decide (key = (1, 1, 0, 6)) then
    r ← read_d rn; write_x rd r ZERO_REG;; mret false
  else if bool_decide (key = (1, 2, 1, 6)) then
    r ← read_v_msb rn; write_x rd r ZERO_REG;; mret false
  else if bool_decide (key = (1, 2, 1, 7)) then
    r ← read_x rn ZERO_REG; write_v_msb rd r;; mret false
  else illegal_opcode pc.

Definition dis_fmov_register (insn : Z) : gen bool :=
  let rd := f_rd insn in
  let rn := f_rn insn in
  (if INSN1 insn 22 then r ← read_d rn; write_d rd r else r ← read_s rn; write_s rd r);;
  zero_msb rd;; mret false.

Definition dis_smov (insn : Z) : gen bool :=
  let q := INSN1 insn 30 in
  let q_imm5 := INSN insn 20 16 in
  let rd := f_rd insn in
  let rn := f_rn insn in
  let result (g : gen nat) : gen bool :=
    res ← g; (if q then write_x rd res ZERO_REG else write_w rd res ZERO_REG);; mret false in
  if Z.testbit q_imm5 0 then
    result (r ← ir.add_read_context IR_REG_8 (off_v_b rn (Z.shiftr q_imm5 1));
            ir.add_cast (if q then IR_CAST_8S_TO_64 else IR_CAST_8S_TO_32) r)
  else if Z.testbit q_imm5 1 then
    result (r ← ir.add_read_context IR_REG_16 (off_v_h rn (Z.shiftr q_imm5 2));
            ir.add_cast (if q then IR_CAST_16S_TO_64 else IR_CAST_16S_TO_32) r)
  else if Z.testbit q_imm5 2 then
    result (r ← ir.add_read_context IR_REG_32 (off_v_s rn (Z.shiftr q_imm5 3));
            ir.add_cast IR_CAST_32S_TO_64 r)
  else if Z.testbit q_imm5 3 then
    result (ir.add_read_context IR_REG_64 (off_v_d rn (Z.land (Z.shiftr q_imm5 4) 1)))
  else illegal_opcode pc.

Definition dis_umov (insn : Z) : gen bool :=
  let q_imm5 := Z.lor (Z.shiftl (INSN insn 30 30) 5) (INSN insn 20 16) in
  let rd := f_rd insn in
  let rn := f_rn insn in
  let result (g : gen nat) : gen bool := res ← g; write_x rd res ZERO_REG;; mret false in
  if Z.testbit q_imm5 0 then
    result (r ← ir.add_read_context IR_REG_8 (off_v_b rn (Z.shiftr q_imm5 1));
            ir.add_cast IR_CAST_8U_TO_64 r)
  else if Z.testbit q_imm5 1 then
    result (r ← ir.add_read_context IR_REG_16 (off_v_h rn (Z.shiftr q_imm5 2));
            ir.add_cast IR_CAST_16U_TO_64 r)
  else if Z.testbit q_imm5 2 then
    result (r ← ir.add_read_context IR_REG_32 (off_v_s rn (Z.shiftr q_imm5 3));
            ir.add_cast IR_CAST_32U_TO_64 r)
  else if Z.testbit q_imm5 3 then
    result (ir.add_read_context IR_REG_64 (off_v_d rn (Z.land (Z.shiftr q_imm5 4) 1)))
  else illegal_opcode pc.

Definition dis_insn_element (insn : Z) : gen bool :=
  let rd := f_rd insn in
  let rn := f_rn insn in
  let imm5 := INSN insn 20 16 in
  let imm4 := INSN insn 14 11 in
  (if Z.testbit imm5 0 then r ← read_b_by_index rn imm4; write_b_by_index rd (Z.shiftr imm5 1) r
   else if Z.testbit imm5 1 then r ← read_h_by_index rn (Z.shiftr imm4 1); write_h_by_index rd (Z.shiftr imm5 2) r
   else if Z.testbit imm5 2 then r ← read_s_by_index rn (Z.shiftr imm4 2); write_s_by_index rd (Z.shiftr imm5 3) r
   else if Z.testbit imm5 3 then r ← read_d_by_index rn (Z.shiftr imm4 3); write_d_by_index rd (Z.shiftr imm5 4) r
   else mret tt);;
  mret false.

Definition dis_insn_general (insn : Z) : gen bool :=
  let rd := f_rd insn in
  let rn := f_rn insn in
  let imm5 := INSN insn 20 16 in
  (if Z.testbit imm5 0 then
     w ← read_w rn ZERO_REG; r ← ir.add_cast IR_CAST_32_TO_8 w; write_b_by_index rd (Z.shiftr imm5 1) r
   else if Z.testbit imm5 1 then
     w ← read_w rn ZERO_REG; r ← ir.add_cast IR_CAST_32_TO_16 w; write_h_by_index rd (Z.shiftr imm5 2) r
   else if Z.testbit imm5 2 then r ← read_w rn ZERO_REG; write_s_by_index rd (Z.shiftr imm5 3) r
   else if Z.testbit imm5 3 then r ← read_x rn ZERO_REG; write_d_by_index rd (Z.shiftr imm5 4) r
   else mret tt);;
  mret false.

(** ** Immediates *)

(** [imm8] of the modified immediates. *)
Definition simd_imm8 (insn : Z) : Z := Z.shiftl (INSN insn 18 16) 5 + INSN insn 9 5.

(** The constant, inverted or not, then what is done with it.  It is requested
    before [is_illegal] is looked at. *)
Definition with_immediate (insn : Z) (inverted : bool) (k : nat -> gen unit) : gen bool :=
  let imm := simd_immediate (INSN insn 29 29) (INSN insn 15 12) (simd_imm8 insn) in
  let v := default 0 imm in
  imm64 ← mk_64 (if inverted then Z.lnot v else v);
  match imm with
  | Some _ => k imm64;; mret false
  | None => illegal_opcode pc
  end.

Definition move_immediate (insn : Z) (imm64 : nat) : gen unit :=
  write_v_lsb (f_rd insn) imm64;;
  if INSN1 insn 30 then write_v_msb (f_rd insn) imm64 else zero_msb (f_rd insn).

Definition combine_immediate (k : binopKind) (insn : Z) (imm64 : nat) : gen unit :=
  x ← read_v_lsb (f_rd insn); r ← ir.add_binop k IR_REG_64 x imm64; write_v_lsb (f_rd insn) r;;
  if INSN1 insn 30 then
    x ← read_v_msb (f_rd insn); r ← ir.add_binop k IR_REG_64 x imm64; write_v_msb (f_rd insn) r
  else zero_msb (f_rd insn).

Definition dis_mvni (insn : Z) : gen bool := with_immediate insn true (move_immediate insn).
Definition dis_movi (insn : Z) : gen bool := with_immediate insn false (move_immediate insn).
Definition dis_bic_immediate (insn : Z) : gen bool := with_immediate insn true (combine_immediate AND insn).
Definition dis_orr_immediate (insn : Z) : gen bool := with_immediate insn false (combine_immediate OR insn).
Definition dis_fmov_immediate (insn : Z) : gen bool := with_immediate insn false (move_immediate insn).

Definition dis_advanced_simd_scalar_copy (insn : Z) : gen bool :=
  let rn := f_rn insn in
  let rd := f_rd insn in
  let imm5 := INSN insn 20 16 in
  let clear : gen unit := z ← mk_64 0; write_v_lsb rd z;; z ← mk_64 0; write_v_msb rd z in
  (if Z.testbit imm5 0 then v ← read_b_by_index rn (Z.shiftr imm5 1); clear;; write_b rd v
   else if Z.testbit imm5 1 then v ← read_h_by_index rn (Z.shiftr imm5 2); clear;; write_h rd v
   else if Z.testbit imm5 2 then v ← read_s_by_index rn (Z.shiftr imm5 3); clear;; write_s rd v
   else v ← read_d_by_index rn (Z.shiftr imm5 4); clear;; write_d rd v);;
  mret false.

(** ** Instructions left to helpers *)

Definition dis_dup_element (insn : Z) : gen bool :=
  mk_dirty pc arm64_hlp_dirty_simd_dup_element insn.
Definition dis_dup_general (insn : Z) : gen bool :=
  mk_dirty pc arm64_hlp_dirty_simd_dup_general insn.
Definition dis_load_store_multiple_structure (insn : Z) : gen bool :=
  mk_dirty pc arm64_hlp_dirty_advanced_simd_load_store_multiple_structure_simd insn.
Definition dis_load_store_multiple_structure_post_index (insn : Z) : gen bool :=
  mk_dirty pc arm64_hlp_dirty_advanced_simd_load_store_multiple_structure_post_index_simd insn.
Definition dis_load_store_single_structure (insn : Z) : gen bool :=
  mk_dirty pc arm64_hlp_dirty_advanced_simd_load_store_single_structure_simd insn.
Definition dis_load_store_single_structure_post_index (insn : Z) : gen bool :=
  mk_dirty pc arm64_hlp_dirty_advanced_simd_load_store_single_structure_post_index_simd insn.
Definition dis_scvtf_scalar_integer (insn : Z) : gen bool :=
  mk_dirty pc arm64_hlp_dirty_scvtf_scalar_integer_simd insn.
Definition dis_ucvtf_scalar_integer (insn : Z) : gen bool :=
  mk_dirty pc arm64_hlp_dirty_ucvtf_scalar_integer_simd insn.
Definition dis_fcvtxx_scalar_integer (insn : Z) : gen bool :=
  mk_dirty pc arm64_hlp_dirty_fcvtxx_scalar_integer_simd insn.
Definition dis_floating_point_data_processing_3_source (insn : Z) : gen bool :=
  mk_dirty pc arm64_hlp_dirty_floating_point_data_processing_3_source_simd insn.
Definition dis_floating_point_immediate (insn : Z) : gen bool :=
  mk_dirty pc arm64_hlp_dirty_floating_point_immediate_simd insn.
Definition dis_floating_point_compare (insn : Z) : gen bool :=
  mk_dirty pc arm64_hlp_dirty_floating_point_compare_simd insn.
Definition dis_floating_point_data_processing_2_source (insn : Z) : gen bool :=
  mk_dirty pc arm64_hlp_dirty_floating_point_data_processing_2_source_simd insn.
Definition dis_floating_point_conditional_select (insn : Z) : gen bool :=
  mk_dirty pc arm64_hlp_dirty_floating_point_conditional_select_simd insn.
Definition dis_advanced_simd_shift_by_immediate (insn : Z) : gen bool :=
  mk_dirty pc arm64_hlp_dirty_advanced_simd_shift_by_immediate_simd insn.
Definition dis_advanced_simd_scalar_three_different (insn : Z) : gen bool :=
  mk_dirty pc arm64_hlp_dirty_advanced_simd_scalar_three_different_simd insn.
Definition dis_advanced_simd_scalar_two_reg_misc (insn : Z) : gen bool :=
  mk_dirty pc arm64_hlp_dirty_advanced_simd_scalar_two_reg_misc_simd insn.
Definition dis_advanced_simd_scalar_pair_wise (insn : Z) : gen bool :=
  mk_dirty pc arm64_hlp_dirty_advanced_simd_scalar_pair_wise_simd insn.
Definition dis_advanced_simd_table_lookup (insn : Z) : gen bool :=
  mk_dirty pc arm64_hlp_dirty_advanced_simd_table_lookup_simd insn.
Definition dis_advanced_simd_permute (insn : Z) : gen bool :=
  mk_dirty pc arm64_hlp_dirty_advanced_simd_permute_simd insn.
Definition dis_advanced_simd_ext (insn : Z) : gen bool :=
  mk_dirty pc arm64_hlp_dirty_advanced_simd_ext_simd insn.
Definition dis_advanced_simd_three_different (insn : Z) : gen bool :=
  mk_dirty pc arm64_hlp_dirty_advanced_simd_simd_three_different_simd insn.
Definition dis_advanced_simd_two_reg_misc (insn : Z) : gen bool :=
  mk_dirty pc arm64_hlp_dirty_advanced_simd_two_reg_misc_simd insn.
Definition dis_advanced_simd_accross_lanes (insn : Z) : gen bool :=
  mk_dirty pc arm64_hlp_dirty_advanced_simd_accross_lanes_simd insn.
Definition dis_advanced_simd_scalar_three_same (insn : Z) : gen bool :=
  mk_dirty pc arm64_hlp_dirty_advanced_simd_scalar_three_same_simd insn.
Definition dis_advanced_simd_three_same (insn : Z) : gen bool :=
  mk_dirty pc arm64_hlp_dirty_advanced_simd_three_same_simd insn.
Definition dis_advanced_simd_vector_x_indexed_element (insn : Z) : gen bool :=
  mk_dirty pc arm64_hlp_dirty_advanced_simd_vector_x_indexed_element_simd insn.
Definition dis_advanced_simd_scalar_x_indexed_element (insn : Z) : gen bool :=
  mk_dirty pc arm64_hlp_dirty_advanced_simd_scalar_x_indexed_element_simd insn.
Definition dis_advanced_simd_scalar_shift_by_immediate (insn : Z) : gen bool :=
  mk_dirty pc arm64_hlp_dirty_advanced_simd_scalar_shift_by_immediate_simd insn.
Definition dis_floating_point_conditional_compare (insn : Z) : gen bool :=
  mk_dirty pc arm64_hlp_dirty_floating_point_conditional_compare insn.
Definition dis_conversion_between_floating_point_and_fixed_point_insn (insn : Z) : gen bool :=
  mk_dirty pc arm64_hlp_dirty_conversion_between_floating_point_and_fixed_point insn.
End dis.
