(* ===== verification/Arm64Decode.v ===== *)
(** * The AArch64 front end: decoding
      ([src/src/target/arm64/disassembler/arm64_disassembler.c], from
      [dis_load_store_exclusive] to [disassemble_insn]) *)

From S2P Require Import Prelude Ir Jitter IrRequests FrontGen Arm64Gen Arm64Dis Arm64DisData Arm64Simd.

#[local] Open Scope c_scope.

Section decode.
Context `{HelperAddress}.
(** [context->pc] *)
Context (pc : Z).

(** ** Loads and stores *)

Definition dis_load_store_exclusive (insn : Z) : gen bool :=
  let o2 := INSN insn 23 23 in
  let o1 := INSN insn 21 21 in
  let o0 := INSN insn 15 15 in
  let l := INSN insn 22 22 in
  match o0, o1, o2, l with
  | 1, 0, 0, 1 => dis_load_aquire_exclusive pc insn
  | 1, 1, 0, 1 => dis_load_aquire_exclusive_pair pc insn
  | 0, 1, 0, 1 => dis_load_exclusive_pair pc insn
  | 1, 0, 1, 1 => dis_load_aquire pc insn
  | 0, 0, 0, 1 => dis_load_exclusive pc insn
  | 0, 0, 0, 0 => dis_store_exclusive pc insn
  | 1, 0, 0, 0 => dis_store_release_exclusive pc insn
  | 1, 0, 1, 0 => dis_store_release pc insn
  | 0, 1, 0, 0 => dis_store_exclusive_pair pc insn
  | 1, 1, 0, 0 => dis_store_release_exclusive_pair pc insn
  | _, _, _, _ => illegal_opcode pc
  end.

Definition dis_load_store_insn (insn : Z) : gen bool :=
  let simd := INSN1 insn 26 in
  match INSN insn 29 28 with
  | 0 =>
      if INSN insn 28 24 =? 0x08 then dis_load_store_exclusive insn
      else
        match INSN insn 24 23 with
        | 0 => dis_load_store_multiple_structure pc insn
        | 1 => dis_load_store_multiple_structure_post_index pc insn
        | 2 => dis_load_store_single_structure pc insn
        | _ => dis_load_store_single_structure_post_index pc insn
        end
  | 1 => if simd then dis_load_register_literal_simd pc insn else dis_load_register_literal pc insn
  | 2 =>
      match INSN insn 24 23 with
      | 0 => if simd then dis_load_store_no_allocate_pair_offset_simd_vfp pc insn
             else dis_load_store_no_allocate_pair_offset insn
      | 1 => if simd then dis_load_store_pair_post_indexed_simd_vfp pc insn
             else dis_load_store_pair_post_indexed insn
      | 2 => if simd then dis_load_store_pair_offset_simd_vfp pc insn
             else dis_load_store_pair_offset insn
      | _ => if simd then dis_load_store_pair_pre_indexed_simd_vfp pc insn
             else dis_load_store_pair_pre_indexed insn
      end
  | _ =>
      if INSN1 insn 24 then
        if simd then dis_load_store_register_unsigned_offset_simd pc insn
        else dis_load_store_register_unsigned_offset pc insn
      else
        match INSN insn 11 10 with
        | 0 => if simd then dis_load_store_register_unscaled_immediate_simd pc insn
               else dis_load_store_register_unscaled_immediate pc insn
        | 1 => if simd then dis_load_store_register_immediate_post_indexed_simd pc insn
               else dis_load_store_register_immediate_post_indexed pc insn
        | 2 => if INSN1 insn 21 then
                 if simd then dis_load_store_register_register_offset_simd pc insn
                 else dis_load_store_register_register_offset pc insn
               else dis_load_store_register_unprivileged pc insn
        | _ => if simd then dis_load_store_register_immediate_pre_indexed_simd pc insn
               else dis_load_store_register_immediate_pre_indexed pc insn
        end
  end.

(** ** Data processing *)

Definition dis_data_processing_immediate_insn (insn : Z) : gen bool :=
  match INSN insn 25 23 with
  | 0 | 1 => if INSN1 insn 31 then dis_adrp pc insn else dis_adr pc insn
  | 2 | 3 => dis_add_sub_immediate_insn pc insn
  | 4 => dis_logical_immediate pc insn
  | 5 =>
      match INSN insn 30 29 with
      | 0 => dis_movn insn
      | 2 => dis_movz insn
      | 3 => dis_movk insn
      | _ => illegal_opcode pc
      end
  | 6 => dis_bitfield_insn pc insn
  | _ => dis_extr pc insn
  end.

Definition dis_conditional_select (insn : Z) : gen bool :=
  let op2 := negb (INSN insn 11 10 =? 0) in
  if INSN1 insn 30 then
    if op2 then dis_csneg pc insn else dis_csinv pc insn
  else
    if op2 then dis_csinc pc insn else dis_csel pc insn.

Definition dis_data_processing_1_source (insn : Z) : gen bool :=
  match INSN insn 15 10 with
  | 0 => dis_rbit insn
  | 1 => dis_rev16 insn
  | 2 => if INSN1 insn 31 then dis_rev32 insn else dis_rev insn
  | 3 => dis_rev insn
  | 4 => dis_clz pc insn
  | 5 => dis_cls pc insn
  | _ => illegal_opcode pc
  end.

Definition dis_data_processing_2_source (insn : Z) : gen bool :=
  match INSN insn 15 10 with
  | 2 => dis_udiv pc insn
  | 3 => dis_sdiv pc insn
  | 8 => dis_lslv insn
  | 9 => dis_lsrv insn
  | 10 => dis_asrv insn
  | 11 => dis_rorv insn
  | 16 | 17 | 18 | 19 | 20 | 21 | 22 | 23 => dis_crc32 pc insn
  | _ => illegal_opcode pc
  end.

Definition dis_data_processing_3_source (insn : Z) : gen bool :=
  match Z.lor (Z.shiftl (INSN insn 23 21) 1) (INSN insn 15 15) with
  | 0 => dis_madd pc insn
  | 1 => dis_msub pc insn
  | 2 => dis_smaddl pc insn
  | 3 => dis_smsubl pc insn
  | 4 => dis_smulh pc insn
  | 10 => dis_umaddl pc insn
  | 11 => dis_umsubl pc insn
  | 12 => dis_umulh pc insn
  | _ => illegal_opcode pc
  end.

Definition dis_data_processing_register_insn (insn : Z) : gen bool :=
  if INSN1 insn 28 then
    if INSN1 insn 24 then dis_data_processing_3_source insn
    else
      match INSN insn 23 21 with
      | 0 => dis_add_substract_with_carry pc insn
      | 2 => if INSN1 insn 11 then dis_ccmp_A_ccmn_immediate pc insn
             else dis_ccmp_A_ccmn_register pc insn
      | 4 => dis_conditional_select insn
      | 6 => if INSN1 insn 30 then dis_data_processing_1_source insn
             else dis_data_processing_2_source insn
      | _ => illegal_opcode pc
      end
  else
    if INSN1 insn 24 then
      if INSN1 insn 21 then dis_add_sub_extended_register_insn pc insn
      else dis_add_sub_shifted_register_insn pc insn
    else dis_logical_shifted_register pc insn.

(** ** Branches, exceptions, system *)

Definition dis_exception_insn (insn : Z) : gen bool :=
  match INSN insn 23 21, INSN insn 1 0 with
  | 0, 1 => dis_svc pc insn
  | 1, 0 => dis_brk pc insn
  | _, _ => illegal_opcode pc
  end.

Definition dis_unconditionnal_branch_register (insn : Z) : gen bool :=
  match INSN insn 24 21 with
  | 0 => dis_br pc insn
  | 1 => dis_blr pc insn
  | 2 => dis_ret pc insn
  | _ => illegal_opcode pc
  end.

Definition dis_system (insn : Z) : gen bool :=
  let op0 := INSN insn 20 19 in
  let crn := INSN insn 15 12 in
  if INSN1 insn 21 then
    if (op0 =? 2) || (op0 =? 3) then dis_mrs_register pc insn else illegal_opcode pc
  else
    match op0 with
    | 0 =>
        if crn =? 3 then
          match INSN insn 7 5 with
          | 2 => dis_clrex pc insn
          | 4 => dis_dsb pc insn
          | 5 => dis_dmb pc insn
          | 6 => dis_isb pc insn
          | _ => illegal_opcode pc
          end
        else if crn =? 2 then mret false
        else illegal_opcode pc
    | 1 => dis_sys pc insn
    | _ => dis_msr_register pc insn
    end.

Definition dis_branch_A_exception_A_system_insn (insn : Z) : gen bool :=
  match INSN insn 30 29 with
  | 0 => dis_b_A_bl pc insn
  | 1 =>
      if INSN1 insn 25 then dis_tbz_A_tbnz pc insn
      else if INSN1 insn 24 then dis_cbnz pc insn else dis_cbz pc insn
  | 2 =>
      if INSN1 insn 31 then
        if INSN1 insn 25 then dis_unconditionnal_branch_register insn
        else if INSN1 insn 24 then dis_system insn else dis_exception_insn insn
      else dis_conditionnal_branch_immediate_insn pc insn
  | _ => illegal_opcode pc
  end.

(** ** SIMD and floating point *)

Definition dis_floating_point_data_processing_1_source (insn : Z) : gen bool :=
  if INSN insn 20 15 =? 0 then dis_fmov_register insn
  else mk_dirty pc arm64_hlp_dirty_floating_point_data_processing_1_source insn.

Definition dis_conversion_between_floating_point_and_integer_insn (insn : Z) : gen bool :=
  let key := fmov_key insn in
  let type := INSN insn 23 22 in
  let rmode := INSN insn 20 19 in
  let opcode := INSN insn 18 16 in
  if bool_decide (key ∈ [(0, 0, 0, 7); (0, 0, 0, 6); (1, 1, 0, 7); (1, 1, 0, 6); (1, 2, 1, 6); (1, 2, 1, 7)])
  then dis_fmov pc insn
  else if (Z.land type 2 =? 0) && (rmode =? 0) && (opcode =? 2) then dis_scvtf_scalar_integer pc insn
  else if (Z.land type 2 =? 0) && (rmode =? 0) && (opcode =? 3) then dis_ucvtf_scalar_integer pc insn
  else dis_fcvtxx_scalar_integer pc insn.

Definition dis_advanced_simd_copy (insn : Z) : gen bool :=
  if INSN1 insn 29 then dis_insn_element insn
  else
    match INSN insn 14 11 with
    | 0 => dis_dup_element pc insn
    | 1 => dis_dup_general pc insn
    | 3 => dis_insn_general insn
    | 5 => dis_smov pc insn
    | 7 => dis_umov pc insn
    | _ => illegal_opcode pc
    end.

Definition dis_advanced_simd_modified_immediate (insn : Z) : gen bool :=
  let op := INSN1 insn 29 in
  match INSN insn 15 12 with
  | 0 | 2 | 4 | 6 | 8 | 10 | 12 | 13 => if op then dis_mvni pc insn else dis_movi pc insn
  | 14 => dis_movi pc insn
  | 1 | 3 | 5 | 7 | 9 | 11 => if op then dis_bic_immediate pc insn else dis_orr_immediate pc insn
  | _ => dis_fmov_immediate pc insn
  end.

(** [assert_illegal_opcode((insn & mask) == value)], then the translation. *)
Definition dis_checked (insn mask value : Z) (g : gen bool) : gen bool :=
  if Z.land insn mask =? value then g else illegal_opcode pc.

Definition dis_advanced_simd (insn : Z) : gen bool :=
  if negb (INSN1 insn 28) then
    if negb (INSN1 insn 24) then
      if negb (INSN1 insn 10) then
        if negb (INSN1 insn 21) then
          if negb (INSN1 insn 29) then
            if negb (INSN1 insn 11)
            then dis_checked insn 0xbf208c00 0x0e000000 (dis_advanced_simd_table_lookup pc insn)
            else dis_checked insn 0xbf208c00 0x0e000800 (dis_advanced_simd_permute pc insn)
          else dis_checked insn 0xbf208400 0x2e000000 (dis_advanced_simd_ext pc insn)
        else
          if negb (INSN1 insn 11)
          then dis_checked insn 0x9f200c00 0x0e200000 (dis_advanced_simd_three_different pc insn)
          else if negb (INSN1 insn 20)
          then dis_checked insn 0x9f3e0c00 0x0e200800 (dis_advanced_simd_two_reg_misc pc insn)
          else dis_checked insn 0x9f3e0c00 0x0e300800 (dis_advanced_simd_accross_lanes pc insn)
      else
        if negb (INSN1 insn 21)
        then dis_checked insn 0x9fe08400 0x0e000400 (dis_advanced_simd_copy insn)
        else dis_checked insn 0x9f200400 0x0e200400 (dis_advanced_simd_three_same pc insn)
    else
      if negb (INSN1 insn 10)
      then dis_checked insn 0x9f000400 0x0f000000 (dis_advanced_simd_vector_x_indexed_element pc insn)
      else if INSN insn 22 19 =? 0
      then dis_checked insn 0x9ff80400 0x0f000400 (dis_advanced_simd_modified_immediate insn)
      else dis_checked insn 0x9f000400 0x0f000400 (dis_advanced_simd_shift_by_immediate pc insn)
  else
    if negb (INSN1 insn 24) then
      if negb (INSN1 insn 10) then
        if negb (INSN1 insn 11)
        then dis_checked insn 0xdf200c00 0x5e200000 (dis_advanced_simd_scalar_three_different pc insn)
        else if negb (INSN1 insn 20)
        then dis_checked insn 0xdf3e0c00 0x5e200800 (dis_advanced_simd_scalar_two_reg_misc pc insn)
        else dis_checked insn 0xdf3e0c00 0x5e300800 (dis_advanced_simd_scalar_pair_wise pc insn)
      else
        if negb (INSN1 insn 21)
        then dis_checked insn 0xdfe08400 0x5e000400 (dis_advanced_simd_scalar_copy insn)
        else dis_checked insn 0xdf200400 0x5e200400 (dis_advanced_simd_scalar_three_same pc insn)
    else
      if negb (INSN1 insn 30) then illegal_opcode pc
      else if negb (INSN1 insn 10)
      then dis_checked insn 0xdf000400 0x5f000000 (dis_advanced_simd_scalar_x_indexed_element pc insn)
      else dis_checked insn 0xdf800400 0x5f000400 (dis_advanced_simd_scalar_shift_by_immediate pc insn).

Definition dis_data_processing_simd_insn (insn : Z) : gen bool :=
  if INSN1 insn 28 then
    if INSN1 insn 30 then dis_advanced_simd insn
    else if INSN1 insn 24 then dis_floating_point_data_processing_3_source pc insn
    else if INSN1 insn 21 then
      match INSN insn 11 10 with
      | 0 =>
          if INSN1 insn 12 then dis_floating_point_immediate pc insn
          else if INSN1 insn 13 then dis_floating_point_compare pc insn
          else if INSN1 insn 14 then dis_floating_point_data_processing_1_source insn
          else dis_conversion_between_floating_point_and_integer_insn insn
      | 1 => dis_floating_point_conditional_compare pc insn
      | 2 => dis_floating_point_data_processing_2_source pc insn
      | _ => dis_floating_point_conditional_select pc insn
      end
    else
      dis_conversion_between_floating_point_and_fixed_point_insn pc insn;; mret false
  else dis_advanced_simd insn.

(** ** All instructions *)

Definition disassemble_insn (insn : Z) : gen bool :=
  if INSN insn 28 27 =? 0 then illegal_opcode pc
  else if INSN insn 28 26 =? 4 then dis_data_processing_immediate_insn insn
  else if INSN insn 28 26 =? 5 then dis_branch_A_exception_A_system_insn insn
  else if (INSN insn 27 27 =? 1) && (INSN insn 25 25 =? 0) then dis_load_store_insn insn
  else if INSN insn 27 25 =? 5 then dis_data_processing_register_insn insn
  else if INSN insn 28 25 =? 7 then dis_data_processing_simd_insn insn
  else if INSN insn 28 25 =? 15 then dis_data_processing_simd_insn insn
  else illegal_opcode pc.
End decode.

(** * The AArch64 front end: blocks
      ([disassemble_arm64] and [disassemble_arm64_with_marker] of
      [src/src/target/arm64/disassembler/arm64_disassembler.c]) *)

Section block.
Context `{HelperAddress}.
(** The guest memory the code is read from. *)
Context (m : mem).

(** [*pc_ptr]: guest addresses are host addresses ([g_2_h] of
    [src/src/target/target64.h]). *)
Definition fetch (pc : Z) : Z := load_mem IR_REG_32 m pc.

(** The last request of a block that has no branch. *)
Definition exit_to (pc : Z) (next : Z) : gen bool := r ← mk_64 next; mk_exit pc r;; mret true.

(** The loop of both functions, at its [i]th turn, with the instruction at
    [pc]; [marker] is a request of its own before each instruction.  [fuel] is
    the number of turns left, so it is never exhausted first. *)
Fixpoint disassemble_loop (marker : bool) (fuel : nat) (maxInsn i pc : Z) : gen unit :=
  match fuel with
  | O => fail_state
  | S fuel =>
      (if marker then request (CallMarker (4 * i)) else mret tt);;
      isExit ← put_insn (disassemble_insn pc (fetch pc));
      if isExit : bool then mret tt
      else
        b ← stepin;
        if i + 1 <? (if b : bool then 1 else maxInsn)
        then disassemble_loop marker fuel maxInsn (i + 1) (wrap 64 (pc + 4))
        else put_insn (exit_to pc (pc + 4));; mret tt
  end.

(** [None] when an assertion fails; the C code does nothing defined when there
    is no turn at all. *)
Definition disassemble_block (marker : bool) (pc maxInsn : Z) (is_stepin : bool) : option (list irCall * bool) :=
  if (Z.land pc 3 =? 0) && (0 <? (if is_stepin then 1 else maxInsn)) then
    '(_, s) ← disassemble_loop marker (Z.to_nat (Z.max 1 maxInsn)) maxInsn 0 pc (mkGen is_stepin []);
    Some (requests s, Arm64Gen.is_stepin s)
  else None.

Definition disassemble_arm64 : Z -> Z -> bool -> option (list irCall * bool) := disassemble_block false.
Definition disassemble_arm64_with_marker : Z -> Z -> bool -> option (list irCall * bool) := disassemble_block true.
End block.
