(* ===== verification/Arm64Typed.v ===== *)
(** * AArch64: every block is a session the builder accepts

    Whatever the instruction, what [disassemble_insn] requests passes the
    builder's assertions, and takes a bounded room: so any block does, and the
    only way a guest stops the builder is to fill its pools. *)

From S2P Require Import Prelude Ir Jitter Main IrRequests FrontGen FrontTyped Arm64Gen Arm64Dis Arm64DisData Arm64Simd Arm64Decode.
#[local] Open Scope c_scope.

(** ** Shortcuts *)

Section shortcuts.
Context `{HelperAddress} (pc : Z).

Lemma arm64_gives_read_x i z Γ : gives (reg IR_REG_64) 1 (read_x i z) Γ.
Proof. gives. Qed.

Lemma arm64_gives_read_w i z Γ : gives (reg IR_REG_32) 1 (read_w i z) Γ.
Proof. gives. Qed.

Lemma arm64_gives_write_x t i v z Γ : reg t v Γ -> gives any 1 (write_x i v z) Γ.
Proof. gives. Qed.

Lemma arm64_gives_write_w t i v z Γ : reg t v Γ -> gives any 2 (write_w i v z) Γ.
Proof. gives. Qed.

Lemma arm64_gives_call w t a ps Γ : reg t a Γ -> params_known Γ ps -> gives (reg w) 5 (mk_call pc w a ps) Γ.
Proof. gives. Qed.

Lemma arm64_gives_call_void t a ps Γ : reg t a Γ -> params_known Γ ps -> gives any 5 (mk_call_void pc a ps) Γ.
Proof. gives. Qed.

Lemma arm64_gives_stepin Γ : gives any 0 stepin Γ.
Proof. intros st rs _. exists st, st, []. rewrite app_nil_r. repeat split; auto. Qed.

Lemma arm64_gives_clear_stepin Γ : gives any 0 clear_stepin Γ.
Proof. by apply gives_modify. Qed.
#[local] Hint Resolve arm64_gives_read_x arm64_gives_read_w arm64_gives_write_x arm64_gives_write_w arm64_gives_call arm64_gives_call_void
  arm64_gives_stepin arm64_gives_clear_stepin : gives.

Lemma arm64_gives_mk_exit r Γ : reg IR_REG_64 r Γ -> gives any 8 (mk_exit pc r) Γ.
Proof. gives. Qed.

Lemma arm64_gives_mk_exit_pred t r p Γ :
  reg IR_REG_64 r Γ -> reg t p Γ -> gives any 8 (mk_exit_pred pc r p) Γ.
Proof. gives. Qed.
#[local] Hint Resolve arm64_gives_mk_exit arm64_gives_mk_exit_pred : gives.

Lemma arm64_gives_mk_next_nzcv (is_64 : bool) o a b ta tb Γ :
  reg ta a Γ -> reg tb b Γ ->
  gives (reg IR_REG_32) 8 ((if is_64 then mk_next_nzcv_64 else mk_next_nzcv_32) pc o a b) Γ.
Proof. destruct is_64; gives. Qed.

(** The predicate of [mk_branch] has the type that its second argument says. *)
Lemma arm64_gives_mk_branch (is_32 : bool) p target Γ :
  reg (if is_32 then IR_REG_32 else IR_REG_64) p Γ -> gives any 20 (mk_branch pc p is_32 target) Γ.
Proof. destruct is_32; gives. Qed.

Lemma arm64_reg_logical opc w r Γ : reg w r Γ -> reg (op2_type (logical_binop opc) w) r Γ.
Proof. unfold logical_binop. by repeat case_match. Qed.
End shortcuts.
#[export] Hint Resolve arm64_gives_read_x arm64_gives_read_w arm64_gives_write_x arm64_gives_write_w arm64_gives_call arm64_gives_call_void
  arm64_gives_stepin arm64_gives_clear_stepin arm64_gives_mk_exit arm64_gives_mk_exit_pred arm64_gives_mk_branch arm64_reg_logical : gives.

(** ** Groups of instructions *)

Section dis.
Context `{HelperAddress} (pc insn : Z).

Lemma arm64_gives_mk_next_nzcv_64 o a b ta tb Γ :
  reg ta a Γ -> reg tb b Γ -> gives (reg IR_REG_32) 8 (mk_next_nzcv_64 pc o a b) Γ.
Proof. apply (arm64_gives_mk_next_nzcv pc true). Qed.

Lemma arm64_gives_mk_next_nzcv_32 o a b ta tb Γ :
  reg ta a Γ -> reg tb b Γ -> gives (reg IR_REG_32) 8 (mk_next_nzcv_32 pc o a b) Γ.
Proof. apply (arm64_gives_mk_next_nzcv pc false). Qed.
#[local] Hint Resolve arm64_gives_mk_next_nzcv_64 arm64_gives_mk_next_nzcv_32 : gives.

Lemma arm64_gives_dis_load_store_register size opc rt t a Γ :
  reg t a Γ -> gives any 12 (dis_load_store_register pc size opc rt a) Γ.
Proof. gives. Qed.
#[local] Hint Resolve arm64_gives_dis_load_store_register : gives.

Lemma arm64_gives_dis_load_store_insn Γ : gives any 57 (dis_load_store_insn pc insn) Γ.
Proof. gives. Qed.

Lemma arm64_gives_dis_data_processing_immediate_insn Γ : gives any 57 (dis_data_processing_immediate_insn pc insn) Γ.
Proof. gives. Qed.

Lemma arm64_gives_dis_data_processing_register_insn Γ : gives any 57 (dis_data_processing_register_insn pc insn) Γ.
Proof. gives. Qed.

Lemma arm64_gives_dis_branch_A_exception_A_system_insn Γ :
  gives any 57 (dis_branch_A_exception_A_system_insn pc insn) Γ.
Proof. gives. Qed.

Lemma arm64_gives_dis_data_processing_simd_insn Γ : gives any 57 (dis_data_processing_simd_insn pc insn) Γ.
Proof. gives. Qed.
#[local] Hint Resolve arm64_gives_dis_load_store_insn arm64_gives_dis_data_processing_immediate_insn
  arm64_gives_dis_data_processing_register_insn arm64_gives_dis_branch_A_exception_A_system_insn
  arm64_gives_dis_data_processing_simd_insn : gives.

Lemma arm64_gives_disassemble_insn Γ : gives any 57 (disassemble_insn pc insn) Γ.
Proof. gives. Qed.
End dis.
#[export] Hint Resolve arm64_gives_disassemble_insn : gives.

(** ** Blocks *)

Section block.
Context `{HelperAddress} (m : mem).

Lemma arm64_gives_exit_to pc next Γ : gives any 9 (exit_to pc next) Γ.
Proof. gives. Qed.
#[local] Hint Resolve arm64_gives_exit_to : gives.

Lemma arm64_gives_disassemble_loop marker fuel maxInsn i pc Γ :
  0 <= i -> maxInsn - i <= Z.of_nat fuel -> (0 < fuel)%nat ->
  gives any (58 * fuel + 9) (disassemble_loop m marker fuel maxInsn i pc) Γ.
Proof.
  revert i pc Γ. induction fuel as [|fuel IH]; intros i pc Γ Hi Hfuel Hpos; [lia|].
  cbn [disassemble_loop]. gives.
  all: match goal with E : (_ <? (if ?b then _ else _)) = true |- _ => apply Z.ltb_lt in E; destruct b; [lia|] end.
  all: eapply gives_mono; [apply IH; lia|done|lia].
Qed.
End block.

(** C9. Whatever the guest's memory holds, and whether it is run step by step
    or not, a block of AArch64 code is translated, and the builder takes the
    whole session: none of its assertions on operands fails, and the block it
    builds is well formed, provided its pools have the room for 58 objects an
    instruction and 9 for the last exit. *)
Theorem arm64_blocks_accepted `{HelperAddress} m marker pc maxInsn is_stepin j :
  Z.land pc 3 = 0 -> 0 < maxInsn -> room_for (58 * maxInsn + 9) j ->
  exists cs st j', disassemble_block m marker pc maxInsn is_stepin = Some (cs, st) /\
    session_valid cs (resetJitter j) = true /\
    irAlloc_session cs (resetJitter j) = Some (tt, j') /\ builder_wf j'.
Proof.
  intros Hpc Hn Hroom. unfold disassemble_block. rewrite Hpc.
  assert ((0 <? (if is_stepin then 1 else maxInsn)) = true) as -> by (destruct is_stepin; lia).
  destruct (gives_accepted (disassemble_loop m marker (Z.to_nat (Z.max 1 maxInsn)) maxInsn 0 pc)
              (58 * Z.to_nat (Z.max 1 maxInsn) + 9) is_stepin j) as (a & s & j' & E & Hv & Hs & Hwf).
  - apply arm64_gives_disassemble_loop; lia.
  - replace (Z.of_nat _) with (58 * maxInsn + 9) by lia. exact Hroom.
  - cbn [Z.eqb andb]. rewrite E. cbn. eauto 10.
Qed.

(** ** Blocks that fill the pools *)

#[local] Instance demo_address : HelperAddress := { helper_address _ := 0x70000000 }.

(** What the builder of a profile does with the block at [pc]. *)
Definition build (p : memory_profile) (m : mem) (pc : Z) : option jitter :=
  '(cs, _) ← disassemble_arm64 m pc (max_insn (cache_memory_config p)) false;
  j ← createJitter (jitter_context_size (cache_memory_config p));
  '(_, j) ← irAlloc_session cs j; Some j.

(** A block of [rbit x0, x0] stops the builder, with each of the memory
    profiles. *)
Theorem rbit_fills_pools p : build p (filled 0xdac00000) 0x8000 = None.
Proof. destruct p; vm_compute; reflexivity. Qed.

(** With pools of a megabyte it is accepted. *)
Lemma arm64_blocks_accepted_witness :
  Z.land 0x8000 3 = 0 /\ room_for (58 * 40 + 9) roomy /\
  exists cs st j', disassemble_block (filled 0xdac00000) false 0x8000 40 false = Some (cs, st) /\
    session_valid cs (resetJitter roomy) = true /\ irAlloc_session cs (resetJitter roomy) = Some (tt, j') /\
    builder_wf j'.
Proof.
  assert (Hroom : room_for (58 * 40 + 9) roomy) by (vm_compute; split; discriminate).
  split; [reflexivity|]. split; [exact Hroom|].
  exact (arm64_blocks_accepted (filled 0xdac00000) false 0x8000 40 false roomy eq_refl eq_refl Hroom).
Defined.
