(* ===== verification/Arm64Helpers.v ===== *)
(** * Helpers of the AArch64 front end
      ([src/src/target/arm64/disassembler/arm64_helpers.c])

    The helpers that only compute: flags, conditions, bit fields, divisions,
    products, counts of leading bits.  Unsigned parameters are in range;
    signed ones are given as the bits the generated code passes. *)

From S2P Require Import Prelude Ir FrontGen Arm64Gen.

(** ** Flags *)

(** [oldnzcv & 0x20000000] and so on are tests; [n], [z], [c], [v] are words
    with at most one bit set. *)
Definition compute_next_nzcv (w : Z) (opcode op1 op2 oldnzcv : Z) : option Z :=
  let c_in := Z.land (Z.shiftr oldnzcv 29) 1 in
  let sign_v x := Z.land (Z.shiftr x (w - 29)) 0x10000000 in
  let carry (b : bool) := if b then 0x20000000 else 0 in
  let finish calc c v :=
    let n := Z.shiftr (Z.land calc (2 ^ (w - 1))) (w - 32) in
    let z := if calc =? 0 then 0x40000000 else 0 in
    Some (Z.lor (Z.lor (Z.lor (Z.lor n z) c) v) (Z.land oldnzcv 0x0fffffff)) in
  match opcode with
  | 0 =>
      let calc := wrap w (op1 + op2) in
      finish calc (carry (calc <? op1)) (sign_v (Z.land (Z.lxor calc op1) (Z.lxor calc op2)))
  | 1 =>
      let calc := wrap w (op1 - op2) in
      finish calc (carry (op2 <=? op1)) (sign_v (Z.land (Z.lxor op1 op2) (Z.lxor op1 calc)))
  | 2 => finish op1 0 0
  | 3 =>
      let calc := wrap w (op1 + op2 + c_in) in
      finish calc (carry (if negb (c_in =? 0) then calc <=? op1 else calc <? op1))
             (sign_v (Z.land (Z.lxor calc op1) (Z.lxor calc op2)))
  | _ => None
  end.

Definition hlp_compute_next_nzcv_32 : Z -> Z -> Z -> Z -> option Z := compute_next_nzcv 32.
Definition hlp_compute_next_nzcv_64 : Z -> Z -> Z -> Z -> option Z := compute_next_nzcv 64.

Definition hlp_compute_flags_pred (cond nzcv : Z) : option Z :=
  let test b := negb (Z.land nzcv b =? 0) in
  let bit (b : bool) := if b then 1 else 0 in
  let n := Z.land (Z.shiftr nzcv 31) 1 in
  let z := Z.land (Z.shiftr nzcv 30) 1 in
  let v := Z.land (Z.shiftr nzcv 28) 1 in
  pred ←
    match Z.shiftr cond 1 with
    | 0 => Some (bit (test 0x40000000))
    | 1 => Some (bit (test 0x20000000))
    | 2 => Some (bit (test 0x80000000))
    | 3 => Some (bit (test 0x10000000))
    | 4 => Some (bit (test 0x20000000 && negb (test 0x40000000)))
    | 5 => Some (bit (n =? v))
    | 6 => Some (bit ((z =? 0) && (n =? v)))
    | 7 => Some 1
    | _ => None
    end;
  Some (if Z.odd cond && negb (cond =? 15) then 1 - pred else pred).

(** ** Bit fields *)

(** [int64_t] values are kept as their 64 bits.  A shift by the width of the
    register only happens on a value whose shifted part is masked off, and is
    taken as the x86 instruction takes it. *)
Definition shl64 (a b : Z) : Z := wrap 64 (Z.shiftl a (Z.land b 63)).

(** [mask], and [diff] once it is not negative. *)
Definition bitfield_mask (reg_size R S : Z) : Z * Z :=
  let reg_mask := if reg_size =? 64 then Z.ones 64 else 0xffffffff in
  let diff := S - R in
  if 0 <=? diff then
    (if diff <? reg_size - 1 then shl64 1 (diff + 1) - 1 else reg_mask, diff)
  else
    let mask := shl64 1 (S + 1) - 1 in
    (Z.lor (Z.shiftr mask R) (shl64 mask (reg_size - R)), diff + reg_size).

(** [topbits] *)
Definition bitfield_topbits (reg_size diff : Z) : Z := shl64 (shl64 1 (reg_size - diff - 1) - 1) (diff + 1).

Definition hlp_compute_bitfield (insn rn rd : Z) : option Z :=
  let is64 := INSN1 insn 31 in
  let reg_size := if is64 then 64 else 32 in
  let R := INSN insn 21 16 in
  let S := INSN insn 15 10 in
  let '(mask, diff) := bitfield_mask reg_size R S in
  '(inzero, extend) ←
    match Z.land insn 0xFF800000 with
    | 0x33000000 | 0xB3000000 => Some (false, false)
    | 0x13000000 | 0x93000000 => Some (true, true)
    | 0x53000000 | 0xD3000000 => Some (true, false)
    | _ => None
    end;
  let dst := if inzero : bool then 0 else rd in
  let src := if is64 then rn else Z.land rn 0xffffffff in
  let result := Z.lor (Z.shiftr src R) (shl64 src (reg_size - R)) in
  let signbits := if extend && Z.testbit src S then bitfield_topbits reg_size diff else 0 in
  Some (Z.lor (Z.lor signbits (Z.land result mask)) (Z.land dst (Z.lxor mask (Z.ones 64)))).

(** ** Divisions and products *)

Definition hlp_udiv (op1 op2 : Z) : Z := if negb (op2 =? 0) then op1 / op2 else 0.

(** [INT_MIN / -1] is undefined in C and answered first. *)
Definition hlp_sdiv (w op1 op2 : Z) : Z :=
  let a := to_signed w op1 in
  let b := to_signed w op2 in
  if (op1 =? 2 ^ (w - 1)) && (op2 =? Z.ones w) then op1
  else if negb (b =? 0) then wrap w (Z.quot a b) else 0.

Definition hlp_umul_lsb (w op1 op2 : Z) : Z := wrap w (op1 * op2).
Definition hlp_smul_lsb_64 (op1 op2 : Z) : Z := wrap 64 (to_signed 64 op1 * to_signed 64 op2).
Definition hlp_umul_msb_64 (op1 op2 : Z) : Z := Z.shiftr (op1 * op2) 64.
Definition hlp_smul_msb_64 (op1 op2 : Z) : Z := wrap 64 (Z.shiftr (to_signed 64 op1 * to_signed 64 op2) 64).

(** ** Counts *)

(** [for(i = start_index; i >= 0; i--)]: [n] bits left, the next one [n - 1]. *)
Fixpoint clz_loop (n : nat) (rn res : Z) : Z :=
  match n with
  | O => res
  | S i => if Z.testbit rn (Z.of_nat i) then res else clz_loop i rn (res + 1)
  end.

Fixpoint cls_loop (n : nat) (rn : Z) (sign : bool) (res : Z) : Z :=
  match n with
  | O => res
  | S i => if negb (Bool.eqb (Z.testbit rn (Z.of_nat i)) sign) then res else cls_loop i rn sign (res + 1)
  end.

Definition hlp_clz (rn start_index : Z) : Z := clz_loop (Z.to_nat (start_index + 1)) rn 0.
Definition hlp_cls (rn start_index : Z) : Z :=
  cls_loop (Z.to_nat start_index) rn (Z.testbit rn start_index) 0.

(** ** How the code calls them *)

(** The width of the result, and the result on parameters of the right
    types. *)
Definition pure_helper (h : arm64_helper) (args : list (option (irRegisterType * Z))) :
    option (irRegisterType * Z) :=
  match h, args with
  | arm64_hlp_compute_next_nzcv_32, [Some (IR_REG_32, o); Some (IR_REG_32, a); Some (IR_REG_32, b); Some (IR_REG_32, f)] =>
      v ← hlp_compute_next_nzcv_32 o a b f; Some (IR_REG_32, v)
  | arm64_hlp_compute_next_nzcv_64, [Some (IR_REG_32, o); Some (IR_REG_64, a); Some (IR_REG_64, b); Some (IR_REG_32, f)] =>
      v ← hlp_compute_next_nzcv_64 o a b f; Some (IR_REG_32, v)
  | arm64_hlp_compute_flags_pred, [Some (IR_REG_32, c); Some (IR_REG_32, f); None; None] =>
      v ← hlp_compute_flags_pred c f; Some (IR_REG_32, v)
  | arm64_hlp_compute_bitfield, [Some (IR_REG_32, i); Some (IR_REG_64, n); Some (IR_REG_64, d); None] =>
      v ← hlp_compute_bitfield i n d; Some (IR_REG_64, v)
  | arm64_hlp_udiv_64, [Some (IR_REG_64, a); Some (IR_REG_64, b); None; None] => Some (IR_REG_64, hlp_udiv a b)
  | arm64_hlp_udiv_32, [Some (IR_REG_32, a); Some (IR_REG_32, b); None; None] => Some (IR_REG_32, hlp_udiv a b)
  | arm64_hlp_sdiv_64, [Some (IR_REG_64, a); Some (IR_REG_64, b); None; None] => Some (IR_REG_64, hlp_sdiv 64 a b)
  | arm64_hlp_sdiv_32, [Some (IR_REG_32, a); Some (IR_REG_32, b); None; None] => Some (IR_REG_32, hlp_sdiv 32 a b)
  | arm64_hlp_umul_lsb_64, [Some (IR_REG_64, a); Some (IR_REG_64, b); None; None] => Some (IR_REG_64, hlp_umul_lsb 64 a b)
  | arm64_hlp_umul_lsb_32, [Some (IR_REG_32, a); Some (IR_REG_32, b); None; None] => Some (IR_REG_32, hlp_umul_lsb 32 a b)
  | arm64_hlp_smul_lsb_64, [Some (IR_REG_64, a); Some (IR_REG_64, b); None; None] => Some (IR_REG_64, hlp_smul_lsb_64 a b)
  | arm64_hlp_umul_msb_64, [Some (IR_REG_64, a); Some (IR_REG_64, b); None; None] => Some (IR_REG_64, hlp_umul_msb_64 a b)
  | arm64_hlp_smul_msb_64, [Some (IR_REG_64, a); Some (IR_REG_64, b); None; None] => Some (IR_REG_64, hlp_smul_msb_64 a b)
  | arm64_hlp_clz, [Some (IR_REG_64, a); Some (IR_REG_32, s); None; None] => Some (IR_REG_64, hlp_clz a s)
  | arm64_hlp_cls, [Some (IR_REG_64, a); Some (IR_REG_32, s); None; None] => Some (IR_REG_64, hlp_cls a s)
  | _, _ => None
  end.

(** The code reaches the helpers, called as their prototypes say. *)
Class Arm64Calls `{HelperAddress}
    (ir_call : option irRegisterType -> Z -> Z -> list (option (irRegisterType * Z)) -> mem -> option (mem * Z))
    (ctx : Z) := {
  pure_call : forall h args w v m,
    pure_helper h args = Some (w, v) -> ir_call (Some w) (helper_address h) ctx args m = Some (m, v);
  helper_address_range : forall h, 0 <= helper_address h < 2 ^ 64
}.
