(* ===== verification/Arm64Isa.v ===== *)
(** * The instructions the AArch64 front end is verified for

    The A64 integer instructions independently of the front end, after the
    pseudocode of the architecture: their encodings, and what they do to the
    registers, the flags and the memory of the guest. *)

From S2P Require Import Prelude Ir ArmPseudo.

(** ** Instructions *)

(** How a load or a store computes its address. *)
Inductive addressing :=
  | UnsignedOffset (imm12 : Z)
  | UnscaledOffset (imm9 : Z)
  | PostIndex (imm9 : Z)
  | PreIndex (imm9 : Z)
  | RegisterOffset (rm option : Z) (scaled : bool).

Inductive pair_addressing := PairNoAllocate | PairPostIndex | PairOffset | PairPreIndex.

(** Fields are named as in the architecture; [sf] is set for 64 bits. *)
Inductive arm_insn :=
  | AddSubImmediate (sf op setflags sh : bool) (imm12 rn rd : Z)
  | AddSubShifted (sf op setflags : bool) (shift rm imm6 rn rd : Z)
  | AddSubExtended (sf op setflags : bool) (rm option imm3 rn rd : Z)
  | AddSubCarry (sf op setflags : bool) (rm rn rd : Z)
  | LogicalImmediate (sf : bool) (opc : Z) (n : bool) (immr imms rn rd : Z)
  | LogicalShifted (sf : bool) (opc shift : Z) (n : bool) (rm imm6 rn rd : Z)
  | MoveWide (sf : bool) (opc hw imm16 rd : Z)
  | PcRelative (page : bool) (immlo immhi rd : Z)
  | BitfieldMove (sf : bool) (opc immr imms rn rd : Z)
  | Extract (sf : bool) (rm imms rn rd : Z)
  | ConditionalSelect (sf op : bool) (rm cond : Z) (o2 : bool) (rn rd : Z)
  | ConditionalCompare (sf op imm : bool) (rm cond rn flags : Z)
  | ShiftVariable (sf : bool) (op2 rm rn rd : Z)
  | Divide32 (signed : bool) (rm rn rd : Z)
  | MultiplyAdd (sf o0 : bool) (rm ra rn rd : Z)
  | MultiplyAddLong (u o0 : bool) (rm ra rn rd : Z)
  | MultiplyHigh (u : bool) (rm rn rd : Z)
  | Reverse (sf : bool) (opc rn rd : Z)
  | CountLeading (sf sign : bool) (rn rd : Z)
  | Branch (link : bool) (imm26 : Z)
  | BranchRegister (opc rn : Z)
  | BranchConditional (imm19 cond : Z)
  | CompareBranch (sf op : bool) (imm19 rt : Z)
  | TestBranch (op : bool) (b5 b40 imm14 rt : Z)
  | LoadStore (size opc : Z) (mode : addressing) (rn rt : Z)
  | LoadStorePair (opc : Z) (mode : pair_addressing) (load : bool) (imm7 rt2 rn rt : Z)
  | LoadLiteral (opc imm19 rt : Z).

(** ** Encodings *)

Definition encode (i : arm_insn) : Z :=
  match i with
  | AddSubImmediate sf op st sh imm12 rn rd =>
      0x11000000 + Z.b2z sf * 2^31 + Z.b2z op * 2^30 + Z.b2z st * 2^29 + Z.b2z sh * 2^22
      + imm12 * 2^10 + rn * 2^5 + rd
  | AddSubShifted sf op st shift rm imm6 rn rd =>
      0x0b000000 + Z.b2z sf * 2^31 + Z.b2z op * 2^30 + Z.b2z st * 2^29 + shift * 2^22 + rm * 2^16
      + imm6 * 2^10 + rn * 2^5 + rd
  | AddSubExtended sf op st rm option imm3 rn rd =>
      0x0b200000 + Z.b2z sf * 2^31 + Z.b2z op * 2^30 + Z.b2z st * 2^29 + rm * 2^16 + option * 2^13
      + imm3 * 2^10 + rn * 2^5 + rd
  | AddSubCarry sf op st rm rn rd =>
      0x1a000000 + Z.b2z sf * 2^31 + Z.b2z op * 2^30 + Z.b2z st * 2^29 + rm * 2^16 + rn * 2^5 + rd
  | LogicalImmediate sf opc n immr imms rn rd =>
      0x12000000 + Z.b2z sf * 2^31 + opc * 2^29 + Z.b2z n * 2^22 + immr * 2^16 + imms * 2^10
      + rn * 2^5 + rd
  | LogicalShifted sf opc shift n rm imm6 rn rd =>
      0x0a000000 + Z.b2z sf * 2^31 + opc * 2^29 + shift * 2^22 + Z.b2z n * 2^21 + rm * 2^16
      + imm6 * 2^10 + rn * 2^5 + rd
  | MoveWide sf opc hw imm16 rd =>
      0x12800000 + Z.b2z sf * 2^31 + opc * 2^29 + hw * 2^21 + imm16 * 2^5 + rd
  | PcRelative page immlo immhi rd =>
      0x10000000 + Z.b2z page * 2^31 + immlo * 2^29 + immhi * 2^5 + rd
  | BitfieldMove sf opc immr imms rn rd =>
      0x13000000 + Z.b2z sf * 2^31 + opc * 2^29 + Z.b2z sf * 2^22 + immr * 2^16 + imms * 2^10
      + rn * 2^5 + rd
  | Extract sf rm imms rn rd =>
      0x13800000 + Z.b2z sf * 2^31 + Z.b2z sf * 2^22 + rm * 2^16 + imms * 2^10 + rn * 2^5 + rd
  | ConditionalSelect sf op rm cond o2 rn rd =>
      0x1a800000 + Z.b2z sf * 2^31 + Z.b2z op * 2^30 + rm * 2^16 + cond * 2^12 + Z.b2z o2 * 2^10
      + rn * 2^5 + rd
  | ConditionalCompare sf op imm rm cond rn flags =>
      0x3a400000 + Z.b2z sf * 2^31 + Z.b2z op * 2^30 + rm * 2^16 + cond * 2^12 + Z.b2z imm * 2^11
      + rn * 2^5 + flags
  | ShiftVariable sf op2 rm rn rd =>
      0x1ac02000 + Z.b2z sf * 2^31 + rm * 2^16 + op2 * 2^10 + rn * 2^5 + rd
  | Divide32 signed rm rn rd =>
      0x1ac00800 + rm * 2^16 + Z.b2z signed * 2^10 + rn * 2^5 + rd
  | MultiplyAdd sf o0 rm ra rn rd =>
      0x1b000000 + Z.b2z sf * 2^31 + rm * 2^16 + Z.b2z o0 * 2^15 + ra * 2^10 + rn * 2^5 + rd
  | MultiplyAddLong u o0 rm ra rn rd =>
      0x9b200000 + Z.b2z u * 2^23 + rm * 2^16 + Z.b2z o0 * 2^15 + ra * 2^10 + rn * 2^5 + rd
  | MultiplyHigh u rm rn rd =>
      0x9b407c00 + Z.b2z u * 2^23 + rm * 2^16 + rn * 2^5 + rd
  | Reverse sf opc rn rd =>
      0x5ac00000 + Z.b2z sf * 2^31 + opc * 2^10 + rn * 2^5 + rd
  | CountLeading sf sign rn rd =>
      0x5ac01000 + Z.b2z sf * 2^31 + Z.b2z sign * 2^10 + rn * 2^5 + rd
  | Branch link imm26 => 0x14000000 + Z.b2z link * 2^31 + imm26
  | BranchRegister opc rn => 0xd61f0000 + opc * 2^21 + rn * 2^5
  | BranchConditional imm19 cond => 0x54000000 + imm19 * 2^5 + cond
  | CompareBranch sf op imm19 rt => 0x34000000 + Z.b2z sf * 2^31 + Z.b2z op * 2^24 + imm19 * 2^5 + rt
  | TestBranch op b5 b40 imm14 rt =>
      0x36000000 + b5 * 2^31 + Z.b2z op * 2^24 + b40 * 2^19 + imm14 * 2^5 + rt
  | LoadStore size opc mode rn rt =>
      0x38000000 + size * 2^30 + opc * 2^22 + rn * 2^5 + rt
      + match mode with
        | UnsignedOffset imm12 => 2^24 + imm12 * 2^10
        | UnscaledOffset imm9 => imm9 * 2^12
        | PostIndex imm9 => imm9 * 2^12 + 2^10
        | PreIndex imm9 => imm9 * 2^12 + 3 * 2^10
        | RegisterOffset rm option scaled =>
            2^21 + rm * 2^16 + option * 2^13 + Z.b2z scaled * 2^12 + 2 * 2^10
        end
  | LoadStorePair opc mode load imm7 rt2 rn rt =>
      0x28000000 + opc * 2^30
      + match mode with
        | PairNoAllocate => 0 | PairPostIndex => 1 | PairOffset => 2 | PairPreIndex => 3
        end * 2^23
      + Z.b2z load * 2^22 + imm7 * 2^15 + rt2 * 2^10 + rn * 2^5 + rt
  | LoadLiteral opc imm19 rt => 0x18000000 + opc * 2^30 + imm19 * 2^5 + rt
  end.

Definition reg (r : Z) : bool := field 5 r.

(** A shift amount or a bit number of the register width. *)
Definition amount (sf : bool) (v : Z) : bool := field (if sf then 6 else 5) v.

Definition valid_mode (size opc : Z) (mode : addressing) : bool :=
  match mode with
  | UnsignedOffset imm12 => field 12 imm12
  | UnscaledOffset imm9 => field 9 imm9
  | PostIndex imm9 | PreIndex imm9 => field 9 imm9 && negb ((size =? 3) && (opc =? 2))
  | RegisterOffset rm option _ => reg rm && field 3 option && Z.testbit option 1
  end.

(** The allocated encodings.  Not described here: 64-bit divisions, which the
    front end asks for at the wrong width, and [Extract] by 0 of two
    registers, which it asks as a shift by the width. *)
Definition valid (i : arm_insn) : bool :=
  match i with
  | AddSubImmediate _ _ _ _ imm12 rn rd => field 12 imm12 && reg rn && reg rd
  | AddSubShifted sf _ _ shift rm imm6 rn rd =>
      field 2 shift && negb (shift =? 3) && reg rm && amount sf imm6 && reg rn && reg rd
  | AddSubExtended _ _ _ rm option imm3 rn rd =>
      reg rm && field 3 option && field 3 imm3 && (imm3 <=? 4) && reg rn && reg rd
  | AddSubCarry _ _ _ rm rn rd => reg rm && reg rn && reg rd
  | LogicalImmediate sf opc n immr imms rn rd =>
      field 2 opc && field 6 immr && field 6 imms && reg rn && reg rd
      && (if n then sf && negb (imms =? 63) else negb (imms =? 63) && negb (imms =? 62) && negb (imms =? 61)
                                                 && negb (imms =? 59) && negb (imms =? 55) && negb (imms =? 47)
                                                 && negb (imms =? 31))
  | LogicalShifted sf opc shift _ rm imm6 rn rd =>
      field 2 opc && field 2 shift && reg rm && amount sf imm6 && reg rn && reg rd
  | MoveWide sf opc hw imm16 rd =>
      field 2 opc && negb (opc =? 1) && field (if sf then 2 else 1) hw && field 16 imm16 && reg rd
  | PcRelative _ immlo immhi rd => field 2 immlo && field 19 immhi && reg rd
  | BitfieldMove sf opc immr imms rn rd =>
      field 2 opc && negb (opc =? 3) && amount sf immr && amount sf imms && reg rn && reg rd
  | Extract sf rm imms rn rd =>
      reg rm && amount sf imms && reg rn && reg rd && ((rn =? rm) || negb (imms =? 0))
  | ConditionalSelect _ _ rm cond _ rn rd => reg rm && field 4 cond && reg rn && reg rd
  | ConditionalCompare _ _ _ rm cond rn flags => reg rm && field 4 cond && reg rn && field 4 flags
  | ShiftVariable _ op2 rm rn rd => field 2 op2 && reg rm && reg rn && reg rd
  | Divide32 _ rm rn rd => reg rm && reg rn && reg rd
  | MultiplyAdd _ _ rm ra rn rd | MultiplyAddLong _ _ rm ra rn rd => reg rm && reg ra && reg rn && reg rd
  | MultiplyHigh _ rm rn rd => reg rm && reg rn && reg rd
  | Reverse sf opc rn rd => field 2 opc && (sf || negb (opc =? 3)) && reg rn && reg rd
  | CountLeading _ _ rn rd => reg rn && reg rd
  | Branch _ imm26 => field 26 imm26
  | BranchRegister opc rn => field 2 opc && negb (opc =? 3) && reg rn
  | BranchConditional imm19 cond => field 19 imm19 && field 4 cond
  | CompareBranch _ _ imm19 rt => field 19 imm19 && reg rt
  | TestBranch _ b5 b40 imm14 rt => field 1 b5 && reg b40 && field 14 imm14 && reg rt
  | LoadStore size opc mode rn rt =>
      field 2 size && field 2 opc && negb ((opc =? 3) && (2 <=? size)) && valid_mode size opc mode
      && reg rn && reg rt
  | LoadStorePair opc mode load imm7 rt2 rn rt =>
      field 2 opc && negb (opc =? 3) && field 7 imm7 && reg rt2 && reg rn && reg rt
      && (negb (opc =? 1) || load && match mode with PairNoAllocate => false | _ => true end)
  | LoadLiteral opc imm19 rt => field 2 opc && field 19 imm19 && reg rt
  end.

(** ** The state of the guest *)

(** Register 31 is the stack pointer. *)
Record arm_state := mkArm {
  register : Z -> Z;
  flags : pstate;
  memory : mem
}.

(** [X[i]] of [n] bits, with 31 the zero register, and with 31 [SP]. *)
Definition gpr (n i : Z) (s : arm_state) : Z := wrap n (if i =? 31 then 0 else register s i).
Definition gpr_sp (n i : Z) (s : arm_state) : Z := wrap n (register s i).

Definition set_gpr_sp (i v : Z) (s : arm_state) : arm_state :=
  mkArm (fun j => if j =? i then v else register s j) (flags s) (memory s).
Definition set_gpr (i v : Z) (s : arm_state) : arm_state := if i =? 31 then s else set_gpr_sp i v s.
Definition set_flags (f : pstate) (s : arm_state) : arm_state := mkArm (register s) f (memory s).
Definition set_memory (m : mem) (s : arm_state) : arm_state := mkArm (register s) (flags s) m.

(** ** Shared functions of the pseudocode *)

Definition datasize (sf : bool) : Z := if sf then 64 else 32.

(** The low 8, 16, 32 or 64 bits, unsigned or signed, then shifted. *)
Definition Extend (n option x k : Z) : Z :=
  let len := 8 * 2 ^ (option mod 4) in
  wrap n ((if 4 <=? option then to_signed len x else wrap len x) * 2 ^ k).

(** [count] copies of the [esize] bits of [x]. *)
Fixpoint Replicate (count : nat) (esize x : Z) : Z :=
  match count with O => 0 | S c => x + 2 ^ esize * Replicate c esize x end.

(** [wmask] and [tmask], for an allocated [immN:imms]. *)
Definition DecodeBitMasks (n : Z) (immN : bool) (imms immr : Z) : Z * Z :=
  let len := Z.log2 (64 * Z.b2z immN + (63 - imms)) in
  let esize := 2 ^ len in
  let s := imms mod esize in
  let r := immr mod esize in
  let d := (s - r) mod esize in
  let welem := Z.ones (s + 1) in
  let telem := Z.ones (d + 1) in
  (Replicate (Z.to_nat (n / esize)) esize (ROR esize welem r), Replicate (Z.to_nat (n / esize)) esize telem).

Definition CountLeadingSignBits (n x : Z) : Z :=
  CountLeadingZeroBits (n - 1) (wrap (n - 1) (Z.lxor (Z.shiftr x 1) x)).

(** ** Execution *)

Section execution.
(** Whether the guest may access [n] bytes at an address. *)
Context (accessible : Z -> Z -> bool).

Definition Mem_read (w : irRegisterType) (a : Z) (s : arm_state) : option Z :=
  if accessible a (bits w / 8) then Some (load_mem w (memory s) a) else None.

Definition Mem_write (w : irRegisterType) (a v : Z) (s : arm_state) : option arm_state :=
  if accessible a (bits w / 8) then Some (set_memory (store_mem w (memory s) a v) s) else None.

Definition add_sub (sf op st is_sp : bool) (x y rd : Z) (s : arm_state) : arm_state :=
  let n := datasize sf in
  let '(r, f) := AddWithCarry n x (if op then NOT n y else y) op in
  if st then set_gpr rd r (set_flags f s)
  else if is_sp then set_gpr_sp rd r s else set_gpr rd r s.

Definition logical_op (sf : bool) (opc : Z) (is_sp : bool) (x y rd : Z) (s : arm_state) : arm_state :=
  let n := datasize sf in
  let r := logical opc x y in
  if opc =? 3 then set_gpr rd r (set_flags (logical_flags n r) s)
  else if is_sp then set_gpr_sp rd r s else set_gpr rd r s.

Definition access_type (size : Z) : irRegisterType :=
  match size with 0 => IR_REG_8 | 1 => IR_REG_16 | 2 => IR_REG_32 | _ => IR_REG_64 end.

(** One access of [size] at [a]; [opc] 2 and 3 extend the sign. *)
Definition load_store (size opc a rt : Z) (s : arm_state) : option arm_state :=
  let w := access_type size in
  match opc with
  | 0 => Mem_write w a (gpr 64 rt s) s
  | 1 => v ← Mem_read w a s; Some (set_gpr rt v s)
  | 2 => v ← Mem_read w a s; Some (set_gpr rt (wrap 64 (to_signed (bits w) v)) s)
  | _ => v ← Mem_read w a s; Some (set_gpr rt (wrap 32 (to_signed (bits w) v)) s)
  end.

Definition load_store_insn (size opc : Z) (mode : addressing) (rn rt : Z) (s : arm_state) : option arm_state :=
  let base := gpr_sp 64 rn s in
  let access a := if (size =? 3) && (opc =? 2) then Some s else load_store size opc a rt s in
  match mode with
  | UnsignedOffset imm12 => access (wrap 64 (base + imm12 * 2 ^ size))
  | UnscaledOffset imm9 => access (wrap 64 (base + SignExtend 9 imm9))
  | PostIndex imm9 => s' ← access base; Some (set_gpr_sp rn (wrap 64 (base + SignExtend 9 imm9)) s')
  | PreIndex imm9 =>
      let a := wrap 64 (base + SignExtend 9 imm9) in s' ← access a; Some (set_gpr_sp rn a s')
  | RegisterOffset rm option scaled =>
      access (wrap 64 (base + Extend 64 option (gpr 64 rm s) (if scaled then size else 0)))
  end.

Definition load_store_pair (opc : Z) (load : bool) (a rt2 rt : Z) (s : arm_state) : option arm_state :=
  let w := if opc =? 2 then IR_REG_64 else IR_REG_32 in
  let a2 := wrap 64 (a + bits w / 8) in
  let extend v := if opc =? 1 then wrap 64 (to_signed 32 v) else v in
  if load then
    v ← Mem_read w a s; v2 ← Mem_read w a2 s; Some (set_gpr rt2 (extend v2) (set_gpr rt (extend v) s))
  else
    s' ← Mem_write w a (gpr 64 rt s) s; Mem_write w a2 (gpr 64 rt2 s) s'.

Definition load_store_pair_insn (opc : Z) (mode : pair_addressing) (load : bool) (imm7 rt2 rn rt : Z)
    (s : arm_state) : option arm_state :=
  let base := gpr_sp 64 rn s in
  let offset := SignExtend 7 imm7 * (if opc =? 2 then 8 else 4) in
  match mode with
  | PairNoAllocate | PairOffset => load_store_pair opc load (wrap 64 (base + offset)) rt2 rt s
  | PairPostIndex =>
      s' ← load_store_pair opc load base rt2 rt s; Some (set_gpr_sp rn (wrap 64 (base + offset)) s')
  | PairPreIndex =>
      let a := wrap 64 (base + offset) in
      s' ← load_store_pair opc load a rt2 rt s; Some (set_gpr_sp rn a s')
  end.

Definition divide (n : Z) (signed : bool) (x y : Z) : Z :=
  if signed then (if y =? 0 then 0 else wrap n (Z.quot (to_signed n x) (to_signed n y)))
  else (if y =? 0 then 0 else x / y).

(** The state after the instruction at [pc], and where it branches if it
    does; [None] when it accesses memory it may not. *)
Definition arm_exec (pc : Z) (i : arm_insn) (s : arm_state) : option (arm_state * option Z) :=
  let next (s : arm_state) : option (arm_state * option Z) := Some (s, None) in
  let fall (s : option arm_state) := s ← s; next s in
  let branch (b : bool) (offset : Z) (s : arm_state) := Some (s, Some (wrap 64 (if b then pc + offset else pc + 4))) in
  match i with
  | AddSubImmediate sf op st sh imm12 rn rd =>
      next (add_sub sf op st true (gpr_sp (datasize sf) rn s) (if sh then imm12 * 2 ^ 12 else imm12) rd s)
  | AddSubShifted sf op st shift rm imm6 rn rd =>
      let n := datasize sf in
      next (add_sub sf op st false (gpr n rn s) (Shift n shift (gpr n rm s) imm6) rd s)
  | AddSubExtended sf op st rm option imm3 rn rd =>
      let n := datasize sf in
      next (add_sub sf op st true (gpr_sp n rn s) (Extend n option (gpr n rm s) imm3) rd s)
  | AddSubCarry sf op st rm rn rd =>
      let n := datasize sf in
      let y := if op then NOT n (gpr n rm s) else gpr n rm s in
      let sum := AddWithCarry n (gpr n rn s) y (flagC (flags s)) in
      next (set_gpr rd sum.1 (if st then set_flags sum.2 s else s))
  | LogicalImmediate sf opc n immr imms rn rd =>
      let imm := (DecodeBitMasks (datasize sf) n imms immr).1 in
      next (logical_op sf opc true (gpr (datasize sf) rn s) imm rd s)
  | LogicalShifted sf opc shift inv rm imm6 rn rd =>
      let n := datasize sf in
      let y := Shift n shift (gpr n rm s) imm6 in
      next (logical_op sf opc false (gpr n rn s) (if inv then NOT n y else y) rd s)
  | MoveWide sf opc hw imm16 rd =>
      let n := datasize sf in
      let pos := 16 * hw in
      let imm := Z.shiftl imm16 pos in
      next (set_gpr rd (match opc with
                        | 0 => NOT n imm
                        | 2 => imm
                        | _ => Z.lor (Z.ldiff (gpr n rd s) (Z.shiftl 0xffff pos)) imm
                        end) s)
  | PcRelative page immlo immhi rd =>
      let imm := immhi * 4 + immlo in
      next (set_gpr rd (wrap 64 (if page then pc - pc mod 2 ^ 12 + SignExtend 33 (imm * 2 ^ 12)
                                 else pc + SignExtend 21 imm)) s)
  | BitfieldMove sf opc immr imms rn rd =>
      let n := datasize sf in
      let wmask := (DecodeBitMasks n sf imms immr).1 in
      let tmask := (DecodeBitMasks n sf imms immr).2 in
      let src := gpr n rn s in
      let dst := if opc =? 1 then gpr n rd s else 0 in
      let bot := Z.lor (Z.ldiff dst wmask) (Z.land (ROR n src immr) wmask) in
      let top := if opc =? 0 then (if Z.testbit src imms then Z.ones n else 0) else dst in
      next (set_gpr rd (Z.lor (Z.ldiff top tmask) (Z.land bot tmask)) s)
  | Extract sf rm imms rn rd =>
      let n := datasize sf in
      next (set_gpr rd (wrap n (Z.shiftr (gpr n rn s * 2 ^ n + gpr n rm s) imms)) s)
  | ConditionalSelect sf op rm cond o2 rn rd =>
      let n := datasize sf in
      let y := if op then NOT n (gpr n rm s) else gpr n rm s in
      let y := if o2 then wrap n (y + 1) else y in
      next (set_gpr rd (if ConditionHolds cond (flags s) then gpr n rn s else y) s)
  | ConditionalCompare sf op imm rm cond rn nzcv =>
      let n := datasize sf in
      let y := if imm then rm else gpr n rm s in
      let sum := AddWithCarry n (gpr n rn s) (if op then NOT n y else y) op in
      next (set_flags (if ConditionHolds cond (flags s) then sum.2
                       else mkFlags (Z.testbit nzcv 3) (Z.testbit nzcv 2) (Z.testbit nzcv 1) (Z.testbit nzcv 0)) s)
  | ShiftVariable sf op2 rm rn rd =>
      let n := datasize sf in
      next (set_gpr rd (Shift n op2 (gpr n rn s) (gpr n rm s mod n)) s)
  | Divide32 signed rm rn rd =>
      next (set_gpr rd (divide 32 signed (gpr 32 rn s) (gpr 32 rm s)) s)
  | MultiplyAdd sf o0 rm ra rn rd =>
      let n := datasize sf in
      let p := gpr n rn s * gpr n rm s in
      next (set_gpr rd (wrap n (if o0 then gpr n ra s - p else gpr n ra s + p)) s)
  | MultiplyAddLong u o0 rm ra rn rd =>
      let ext x := if u then x else to_signed 32 x in
      let p := ext (gpr 32 rn s) * ext (gpr 32 rm s) in
      next (set_gpr rd (wrap 64 (if o0 then gpr 64 ra s - p else gpr 64 ra s + p)) s)
  | MultiplyHigh u rm rn rd =>
      let int x := if u then x else to_signed 64 x in
      next (set_gpr rd (wrap 64 (Z.shiftr (int (gpr 64 rn s) * int (gpr 64 rm s)) 64)) s)
  | Reverse sf opc rn rd =>
      let x := gpr (datasize sf) rn s in
      let groups := if sf then 2%nat else 1%nat in
      next (set_gpr rd (match opc with
                        | 0 => BitReverse (32 * groups)%nat x
                        | 1 => Reverse_bytes (2 * groups)%nat 2 x
                        | 2 => Reverse_bytes groups 4 x
                        | _ => Reverse_bytes 1 8 x
                        end) s)
  | CountLeading sf sign rn rd =>
      let n := datasize sf in
      next (set_gpr rd ((if sign then CountLeadingSignBits n else CountLeadingZeroBits n) (gpr n rn s)) s)
  | Branch link imm26 =>
      branch true (SignExtend 28 (imm26 * 4)) (if link then set_gpr 30 (wrap 64 (pc + 4)) s else s)
  | BranchRegister opc rn =>
      Some (if opc =? 1 then set_gpr 30 (wrap 64 (pc + 4)) s else s, Some (gpr 64 rn s))
  | BranchConditional imm19 cond =>
      branch (ConditionHolds cond (flags s)) (SignExtend 21 (imm19 * 4)) s
  | CompareBranch sf op imm19 rt =>
      branch (Bool.eqb (gpr (datasize sf) rt s =? 0) (negb op)) (SignExtend 21 (imm19 * 4)) s
  | TestBranch op b5 b40 imm14 rt =>
      branch (Bool.eqb (Z.testbit (gpr 64 rt s) (b5 * 32 + b40)) op) (SignExtend 16 (imm14 * 4)) s
  | LoadStore size opc mode rn rt => fall (load_store_insn size opc mode rn rt s)
  | LoadStorePair opc mode load imm7 rt2 rn rt => fall (load_store_pair_insn opc mode load imm7 rt2 rn rt s)
  | LoadLiteral opc imm19 rt =>
      let a := wrap 64 (pc + SignExtend 21 (imm19 * 4)) in
      match opc with
      | 0 => fall (load_store 2 1 a rt s)
      | 1 => fall (load_store 3 1 a rt s)
      | 2 => fall (load_store 2 2 a rt s)
      | _ => next s
      end
  end.
End execution.
