(* ===== verification/Arm64Wp.v ===== *)
(** * Reasoning about what the AArch64 front end requests

    The guest registers are fields of the context in memory; there is a rule
    for each sequence shortcut of [Arm64Gen.v]. *)

From S2P Require Import Prelude Ir Jitter IrRequests FrontGen FrontWp Arm64Gen Arm64Dis Arm64Helpers.

Section registers.
Context (ctx : Z).

(** ** The guest registers in memory *)

Definition get_reg (m : mem) (off : Z) : Z := load_mem IR_REG_64 m (ctx + off).
Definition set_reg (off v : Z) (m : mem) : mem := store_mem IR_REG_64 m (ctx + off) v.

(** Register [i] with 31 the stack pointer, and with 31 zero. *)
Definition XSP (m : mem) (i : Z) : Z := get_reg m (off_r i).
Definition X (m : mem) (i : Z) : Z := if i =? 31 then 0 else XSP m i.
Definition set_XSP (i v : Z) (m : mem) : mem := set_reg (off_r i) v m.
Definition set_X (i v : Z) (m : mem) : mem := if i =? 31 then m else set_XSP i v m.
Definition nzcv (m : mem) : Z := load_mem IR_REG_32 m (ctx + off_nzcv).
Definition set_nzcv (v : Z) (m : mem) : mem := store_mem IR_REG_32 m (ctx + off_nzcv) v.
Definition set_helper_pc (v : Z) (m : mem) : mem := set_reg off_helper_pc v m.
Definition set_pc (v : Z) (m : mem) : mem := set_reg off_pc v m.

(** Register [i] as the [is_zero] of the shortcuts says. *)
Definition XZ (m : mem) (i : Z) (is_zero : bool) : Z := if is_zero then X m i else XSP m i.
Definition set_XZ (i v : Z) (is_zero : bool) (m : mem) : mem :=
  if is_zero then set_X i v m else set_XSP i v m.

(** The context does not wrap around the address space. *)
Definition ctx_ok : Prop := 0 <= ctx /\ ctx + 848 <= 2 ^ 64.
End registers.

Existing Class ctx_ok.

(** ** Fields of the context *)

(** The fields an instruction touches do not meet. *)
Lemma get_set_reg_other ctx off off' v m :
  ctx_ok ctx -> 0 <= off <= 840 -> 0 <= off' <= 840 -> off + 8 <= off' \/ off' + 8 <= off ->
  get_reg ctx (set_reg ctx off' v m) off = get_reg ctx m off.
Proof.
  intros [H0 H1] Ho Ho' Hd. unfold get_reg, set_reg.
  apply load_store_disjoint; change (bits IR_REG_64 / 8) with 8; lia.
Qed.

Lemma get_set_reg_same ctx off v m :
  ctx_ok ctx -> 0 <= off <= 840 -> get_reg ctx (set_reg ctx off v m) off = wrap 64 v.
Proof.
  intros [H0 H1] Ho. unfold get_reg, set_reg.
  apply (load_store_same IR_REG_64); change (bits IR_REG_64 / 8) with 8; lia.
Qed.

Section fields.
Context (ctx : Z) {Hctx : ctx_ok ctx}.
Abbreviation XSP := (XSP ctx).
Abbreviation X := (X ctx).

Lemma XSP_range m i : 0 <= XSP m i < 2 ^ 64.
Proof. apply (load_mem_range IR_REG_64). Qed.

Lemma X_range m i : 0 <= X m i < 2 ^ 64.
Proof. unfold Arm64Wp.X. destruct (i =? 31); [lia|apply XSP_range]. Qed.

Lemma XZ_range m i z : 0 <= XZ ctx m i z < 2 ^ 64.
Proof. destruct z; [apply X_range|apply XSP_range]. Qed.

Lemma nzcv_range m : 0 <= nzcv ctx m < 2 ^ 32.
Proof. apply (load_mem_range IR_REG_32). Qed.

Lemma XSP_helper_pc v m i : 0 <= i <= 31 -> XSP (set_helper_pc ctx v m) i = XSP m i.
Proof. intros. apply get_set_reg_other; [done|unfold off_r, off_helper_pc; lia..]. Qed.

Lemma X_helper_pc v m i : 0 <= i <= 31 -> X (set_helper_pc ctx v m) i = X m i.
Proof. intros. unfold Arm64Wp.X. by rewrite XSP_helper_pc. Qed.

Lemma XZ_helper_pc v m i z : 0 <= i <= 31 -> XZ ctx (set_helper_pc ctx v m) i z = XZ ctx m i z.
Proof. intros. destruct z; [by apply X_helper_pc|by apply XSP_helper_pc]. Qed.

Lemma nzcv_helper_pc v m : nzcv ctx (set_helper_pc ctx v m) = nzcv ctx m.
Proof.
  destruct Hctx as [H0 H1]. unfold nzcv, set_helper_pc, set_reg.
  apply load_store_disjoint; unfold off_helper_pc, off_nzcv; cbn [bits];
    change (64 / 8) with 8; change (32 / 8) with 4; lia.
Qed.

Lemma XSP_set_nzcv v m i : 0 <= i <= 31 -> XSP (set_nzcv ctx v m) i = XSP m i.
Proof.
  intros Hi. destruct Hctx as [H0 H1]. unfold Arm64Wp.XSP, get_reg, set_nzcv.
  apply load_store_disjoint; unfold off_r, off_nzcv; cbn [bits];
    change (64 / 8) with 8; change (32 / 8) with 4; lia.
Qed.

Lemma X_set_nzcv v m i : 0 <= i <= 31 -> X (set_nzcv ctx v m) i = X m i.
Proof. intros. unfold Arm64Wp.X. by rewrite XSP_set_nzcv. Qed.

Lemma XSP_set_XSP v m i j : 0 <= i <= 31 -> 0 <= j <= 31 ->
  XSP (set_XSP ctx j v m) i = if i =? j then wrap 64 v else XSP m i.
Proof.
  intros Hi Hj. unfold Arm64Wp.XSP, set_XSP. destruct (Z.eqb_spec i j) as [->|Hne].
  - apply get_set_reg_same; [done|unfold off_r; lia].
  - apply get_set_reg_other; [done|unfold off_r; lia..].
Qed.

Lemma nzcv_set_XSP v m i : 0 <= i <= 31 -> nzcv ctx (set_XSP ctx i v m) = nzcv ctx m.
Proof.
  intros Hi. destruct Hctx as [H0 H1]. unfold nzcv, set_XSP, set_reg.
  apply load_store_disjoint; unfold off_r, off_nzcv; cbn [bits];
    change (64 / 8) with 8; change (32 / 8) with 4; lia.
Qed.

(** The low half, as [read_w] reads it. *)
Lemma W_low m i : load_mem IR_REG_32 m (ctx + off_r i) = wrap 32 (XSP m i).
Proof. apply load_mem_low. Qed.
End fields.

(** A call told where it comes from. *)
Definition called (ctx pc : Z) (m : mem) : mem := set_helper_pc ctx 0 (set_helper_pc ctx pc m).

Section shortcuts.
Context `{HelperAddress} {ir_call ctx} `{!Arm64Calls ir_call ctx}.
Context {Hctx : ctx_ok ctx}.
Abbreviation gwp := (gwp ir_call ctx).
Abbreviation X := (X ctx).
Abbreviation XSP := (XSP ctx).
Abbreviation XZ := (XZ ctx).

Lemma called_XSP pc m i : 0 <= i <= 31 -> XSP (called ctx pc m) i = XSP m i.
Proof. intros. unfold called. by rewrite !XSP_helper_pc. Qed.
Lemma called_X pc m i : 0 <= i <= 31 -> X (called ctx pc m) i = X m i.
Proof. intros. unfold called. by rewrite !X_helper_pc. Qed.
Lemma called_XZ pc m i z : 0 <= i <= 31 -> XZ (called ctx pc m) i z = XZ m i z.
Proof. intros. unfold called. by rewrite !XZ_helper_pc. Qed.
Lemma called_nzcv pc m : nzcv ctx (called ctx pc m) = nzcv ctx m.
Proof. unfold called. by rewrite !nzcv_helper_pc. Qed.

(** ** Registers *)

Lemma off_r_range i : 0 <= i <= 31 -> 0 <= off_r i < 2 ^ 31.
Proof. unfold off_r. lia. Qed.

Lemma gwp_read_x i z Q E st vs m :
  0 <= i <= 31 -> Q (length vs) st (vs ++ [(IR_REG_64, XZ m i z)]) m -> gwp (read_x i z) Q E st vs m.
Proof.
  intros Hi HQ. unfold read_x.
  destruct z; [|rewrite andb_false_r; apply gwp_read_context; [by apply off_r_range|exact HQ]].
  cbn [Arm64Wp.XZ] in HQ. unfold Arm64Wp.X in HQ. rewrite andb_true_r. destruct (i =? 31).
  - apply gwp_mov_const. exact HQ.
  - apply gwp_read_context; [by apply off_r_range|exact HQ].
Qed.

Lemma gwp_read_w i z Q E st vs m :
  0 <= i <= 31 -> Q (length vs) st (vs ++ [(IR_REG_32, wrap 32 (XZ m i z))]) m -> gwp (read_w i z) Q E st vs m.
Proof.
  intros Hi HQ. unfold read_w.
  destruct z; [|rewrite andb_false_r; apply gwp_read_context; [by apply off_r_range|rewrite W_low; exact HQ]].
  cbn [Arm64Wp.XZ] in HQ. unfold Arm64Wp.X in HQ. rewrite andb_true_r. destruct (i =? 31).
  - apply gwp_mov_const. exact HQ.
  - apply gwp_read_context; [by apply off_r_range|rewrite W_low; exact HQ].
Qed.

Lemma gwp_write_x i r z v Q E st vs m :
  0 <= i <= 31 -> rdv IR_REG_64 vs r = Some v -> Q tt st vs (set_XZ ctx i v z m) ->
  gwp (write_x i r z) Q E st vs m.
Proof.
  intros Hi Hr HQ. unfold write_x. destruct z; cbn [set_XZ] in HQ; unfold set_X in HQ.
  - rewrite andb_true_r. destruct (i =? 31); [by apply gwp_ret|].
    eapply gwp_write_context; [by apply off_r_range|done|exact HQ].
  - rewrite andb_false_r. eapply gwp_write_context; [by apply off_r_range|done|exact HQ].
Qed.

(** A write of a 32-bit register clears the upper half; whether a register is
    created for that depends on [i]. *)
Lemma gwp_write_w i r z v Q E st vs m :
  0 <= i <= 31 -> rdv IR_REG_32 vs r = Some v -> 0 <= v < 2 ^ 32 ->
  (forall ext, Q tt st (vs ++ ext) (set_XZ ctx i v z m)) -> gwp (write_w i r z) Q E st vs m.
Proof.
  intros Hi Hr Hv HQ. unfold write_w.
  assert (Hwr : forall k, gwp (r0 ← ir.add_cast IR_CAST_32U_TO_64 r; ir.add_write_context IR_REG_64 r0 (off_r i))
                    (fun _ st' vs' m' => st' = st /\ (exists ext, vs' = vs ++ ext) /\ m' = set_XSP ctx i v m) k st vs m).
  { intros k. apply gwp_bind. eapply gwp_cast; [exact Hr|]. eapply gwp_write_context; [by apply off_r_range| |].
    - unfold rdv. rewrite lookup_app_r, Nat.sub_diag by lia. reflexivity.
    - split; [done|]. split; [by eexists|].
      unfold irCast_sem. cbn [cast_dst cast_signed bits]. by rewrite wrap_small by lia. }
  destruct z; cbn [set_XZ] in HQ; unfold set_X in HQ.
  - rewrite andb_true_r. destruct (i =? 31); [apply gwp_ret; rewrite <- (app_nil_r vs); by apply HQ|].
    eapply gwp_mono; [apply Hwr| |done]. intros [] ? ? ? (-> & [ext ->] & ->). apply HQ.
  - rewrite andb_false_r. eapply gwp_mono; [apply Hwr| |done]. intros [] ? ? ? (-> & [ext ->] & ->). apply HQ.
Qed.

Lemma gwp_write_w_sign_extend i r z v Q E st vs m :
  0 <= i <= 31 -> rdv IR_REG_32 vs r = Some v ->
  (forall ext, Q tt st (vs ++ ext) (set_XZ ctx i (wrap 64 (to_signed 32 v)) z m)) ->
  gwp (write_w_sign_extend i r z) Q E st vs m.
Proof.
  intros Hi Hr HQ. unfold write_w_sign_extend.
  assert (Hwr : forall k, gwp (r0 ← ir.add_cast IR_CAST_32S_TO_64 r; ir.add_write_context IR_REG_64 r0 (off_r i))
                    (fun _ st' vs' m' => st' = st /\ (exists ext, vs' = vs ++ ext) /\ m' = set_XSP ctx i (wrap 64 (to_signed 32 v)) m) k st vs m).
  { intros k. apply gwp_bind. eapply gwp_cast; [exact Hr|]. eapply gwp_write_context; [by apply off_r_range| |by eauto].
    unfold rdv. by rewrite lookup_app_r, Nat.sub_diag by lia. }
  destruct z; cbn [set_XZ] in HQ; unfold set_X in HQ.
  - rewrite andb_true_r. destruct (i =? 31); [apply gwp_ret; rewrite <- (app_nil_r vs); by apply HQ|].
    eapply gwp_mono; [apply Hwr| |done]. intros [] ? ? ? (-> & [ext ->] & ->). apply HQ.
  - rewrite andb_false_r. eapply gwp_mono; [apply Hwr| |done]. intros [] ? ? ? (-> & [ext ->] & ->). apply HQ.
Qed.

Lemma gwp_read_nzcv Q E st vs m :
  Q (length vs) st (vs ++ [(IR_REG_32, nzcv ctx m)]) m -> gwp read_nzcv Q E st vs m.
Proof. intros HQ. by apply gwp_read_context. Qed.

Lemma gwp_write_nzcv r v Q E st vs m :
  rdv IR_REG_32 vs r = Some v -> Q tt st vs (set_nzcv ctx v m) -> gwp (write_nzcv r) Q E st vs m.
Proof. intros Hr HQ. by eapply gwp_write_context. Qed.

(** ** Calls *)

Lemma gwp_mk_call pc w h a ps l v Q E st vs m :
  rdv IR_REG_64 vs a = Some (helper_address h) -> rdv_params vs ps = Some l ->
  pure_helper h l = Some (w, v) ->
  Q (S (length vs)) st (((vs ++ [(IR_REG_64, wrap 64 pc)]) ++ [(w, wrap (bits w) v)]) ++ [(IR_REG_64, 0)])
    (called ctx (wrap 64 pc) m) ->
  gwp (mk_call pc w a ps) Q E st vs m.
Proof.
  intros Ha Hl Hv HQ. unfold mk_call.
  apply gwp_bind, gwp_mov_const. apply gwp_bind. eapply gwp_write_context; [done|apply rdv_last|].
  change (bits IR_REG_64) with 64.
  apply gwp_bind. eapply gwp_request_reg.
  { cbn [req_step]. rewrite (rdv_app_l _ _ _ _ _ Ha), (rdv_params_app_l _ _ _ _ Hl). cbn [mbind option_bind].
    rewrite (pure_call _ _ _ _ _ Hv). cbn [mbind option_bind]. reflexivity. }
  rewrite length_app. cbn [length]. rewrite Nat.add_1_r.
  apply gwp_bind, gwp_mov_const. apply gwp_bind. eapply gwp_write_context; [done|apply rdv_last|].
  apply gwp_ret. change (wrap (bits IR_REG_64) 0) with 0. exact HQ.
Qed.

Lemma gwp_mk_helper h Q E st vs m :
  Q (length vs) st (vs ++ [(IR_REG_64, helper_address h)]) m -> gwp (mk_helper h) Q E st vs m.
Proof.
  intros HQ. apply gwp_mov_const. rewrite (wrap_small (bits IR_REG_64)); [exact HQ|].
  apply helper_address_range.
Qed.

(** ** Leaving the block *)

Lemma gwp_mk_exit pc r v Q (E : unit -> Z -> mem -> Prop) vs m :
  rdv IR_REG_64 vs r = Some v -> E tt v (set_pc ctx v m) -> gwp (mk_exit pc r) Q E false vs m.
Proof.
  intros Hr HE. unfold mk_exit. apply gwp_bind. eapply gwp_write_context; [done|exact Hr|].
  apply gwp_bind. intros rs Hrs. exists false, false, []. rewrite app_nil_r. split; [done|]. cbn [req_run].
  apply gwp_bind. apply gwp_ret. by eapply gwp_exit.
Qed.

(** The taken branch leaves first; a branch that is not taken has stored the
    target before it stores the next address. *)
Lemma gwp_mk_branch pc pred is_32 target ty x Q (E : bool -> Z -> mem -> Prop) vs m :
  vs !! pred = Some (ty, x) ->
  E true (if x =? 0 then wrap 64 (pc + 4) else wrap 64 target)
    (if x =? 0 then set_pc ctx (wrap 64 (pc + 4)) (set_pc ctx (wrap 64 target) m)
     else set_pc ctx (wrap 64 target) m) ->
  gwp (mk_branch pc pred is_32 target) Q E false vs m.
Proof.
  intros Hp HE rs Hrs. unfold mk_branch, mk_exit_pred, mk_exit.
  exists true, false,
    [CallMovConst IR_REG_64 (wrap 64 target); CallWriteContext IR_REG_64 (length vs) off_pc;
     CallExitCond (length vs) (Some pred); CallMovConst IR_REG_64 (wrap 64 (pc + 4));
     CallWriteContext IR_REG_64 (S (length vs)) off_pc; CallExit (S (length vs))].
  assert (Hrs' : count_regs (((rs ++ [CallMovConst IR_REG_64 (wrap 64 target)])
      ++ [CallWriteContext IR_REG_64 (count_regs rs) off_pc])
      ++ [CallExitCond (count_regs rs) (Some pred)]) = S (length vs)).
  { rewrite !count_regs_app, Hrs. cbn. lia. }
  split.
  { run_m. cbn [is_stepin requests stepin request request_reg write_pc mk_64 ir.add_mov_const
      ir.add_write_context ir.add_exit_cond ir.add_exit].
    unfold stepin, write_pc, mk_64, ir.add_mov_const, ir.add_write_context, ir.add_exit_cond, ir.add_exit,
      request, request_reg, modify_state. run_m. cbn [is_stepin requests bits].
    rewrite Hrs', Hrs. by rewrite <- !app_assoc. }
  cbn [req_run req_step mbind option_bind new_value]. rewrite rdv_last. cbn [mbind option_bind].
  rewrite (lookup_app_l_Some _ _ _ _ Hp). cbn [mbind option_bind].
  change (bits IR_REG_64) with 64. rewrite !(wrap_idem 64) by lia.
  destruct (x =? 0); rewrite rdv_last; cbn [mbind option_bind]; [|exact HE].
  replace (S (length vs)) with (length (vs ++ [(IR_REG_64, wrap 64 target)])) by (rewrite length_app; cbn; lia).
  rewrite rdv_last. cbn [mbind option_bind]. rewrite rdv_last. exact HE.
Qed.
End shortcuts.
