(* ===== verification/Arm64Sim.v ===== *)
(** * The guest state behind the requests

    The registers and the flags of the guest are fields of the context in
    memory, the rest of the memory is its own.  [awp] is [gwp] on these
    states: what the front end adds for itself, the pc around the calls of
    helpers and before an exit, is no longer seen. *)

From S2P Require Import Prelude Ir Jitter IrRequests FrontGen FrontWp ArmPseudo Arm64Gen Arm64Dis Arm64Helpers Arm64Isa Arm64Wp.

(** The guest uses neither the context nor an address that wraps around. *)
Definition guest_accessible (ctx a n : Z) : bool :=
  (0 <=? a) && (a + n <=? 2 ^ 64) && ((a + n <=? ctx) || (ctx + 848 <=? a)).

Record represents (ctx : Z) (s : arm_state) (m : mem) : Prop := mkRepresents {
  rep_register : forall i, 0 <= i <= 31 -> register s i = XSP ctx m i;
  rep_flags : flags s = flags_of (nzcv ctx m);
  rep_memory : forall a, guest_accessible ctx a 1 = true -> memory s a = m a;
  rep_stepin : load_mem IR_REG_32 m (ctx + off_is_stepin) = 0
}.

Lemma to_signed_bounds n v : 0 < n <= 64 -> - 2 ^ (n - 1) <= to_signed n v < 2 ^ (n - 1).
Proof. intros. apply to_signed_range; lia. Qed.

#[export] Instance arm64_guest ctx : GuestRep ctx bool arm_state := {|
  front_init := false;
  guest_represents := represents ctx
|}.

Section sim.
Context `{HelperAddress} {ir_call ctx} `{!Arm64Calls ir_call ctx}.
Context {Hctx : ctx_ok ctx}.
Abbreviation represents := (represents ctx).
Abbreviation gwp := (gwp ir_call ctx).

(** ** What keeps a representation *)

Lemma stepin_other w a v m :
  0 <= a -> a + bits w / 8 <= 2 ^ 64 -> a + bits w / 8 <= ctx + off_is_stepin \/ ctx + off_is_stepin + 4 <= a ->
  load_mem IR_REG_32 (store_mem w m a v) (ctx + off_is_stepin) = load_mem IR_REG_32 m (ctx + off_is_stepin).
Proof.
  destruct Hctx as [H0 H1]. unfold off_is_stepin. intros. pose proof (bytes_range w).
  apply load_store_disjoint; change (bits IR_REG_32 / 8) with 4; lia.
Qed.

Lemma rep_context w off v s m :
  represents s m -> 0 <= off -> off + bits w / 8 <= 848 ->
  (forall i, 0 <= i <= 31 -> XSP ctx (store_mem w m (ctx + off) v) i = XSP ctx m i) ->
  nzcv ctx (store_mem w m (ctx + off) v) = nzcv ctx m ->
  off + bits w / 8 <= off_is_stepin \/ off_is_stepin + 4 <= off ->
  represents s (store_mem w m (ctx + off) v).
Proof.
  destruct Hctx as [H0 H1]. intros [Hr Hf Hm Hst] Ho Hoe HX Hn Hs. split.
  - intros i Hi. by rewrite HX, Hr.
  - by rewrite Hn.
  - intros a Ha. rewrite Hm by done. unfold guest_accessible in Ha.
    pose proof (bytes_range w).
    unfold store_mem. symmetry. apply store_bytes_other; rewrite ?length_store; lia.
  - rewrite stepin_other by lia. done.
Qed.

Lemma rep_set_pc v s m : represents s m -> represents s (set_pc ctx v m).
Proof.
  intros Hm. destruct Hctx. apply rep_context; try done.
  - intros i Hi. apply get_set_reg_other; [done|unfold off_r, off_pc; lia..].
  - unfold nzcv. apply load_store_disjoint; unfold off_pc, off_nzcv; cbn [bits];
      change (64 / 8) with 8; change (32 / 8) with 4; lia.
  - by left.
Qed.

Lemma rep_set_helper_pc v s m : represents s m -> represents s (set_helper_pc ctx v m).
Proof.
  intros Hm. apply rep_context; try done.
  - intros. by apply XSP_helper_pc.
  - by apply nzcv_helper_pc.
  - by right.
Qed.

Lemma rep_called v s m : represents s m -> represents s (called ctx v m).
Proof. intros. by apply rep_set_helper_pc, rep_set_helper_pc. Qed.

Lemma rep_outside w off v s m a :
  represents s m -> 0 <= off -> off + bits w / 8 <= 848 -> guest_accessible ctx a 1 = true ->
  store_mem w m (ctx + off) v a = memory s a.
Proof.
  destruct Hctx as [H0 H1]. intros [_ _ Hm _] Ho Hoe Ha. rewrite Hm by done. unfold guest_accessible in Ha.
  pose proof (bytes_range w).
  unfold store_mem. apply store_bytes_other; rewrite ?length_store; lia.
Qed.

Lemma rep_set_XSP i v s m :
  represents s m -> 0 <= i <= 31 -> 0 <= v < 2 ^ 64 -> represents (set_gpr_sp i v s) (set_XSP ctx i v m).
Proof.
  intros Hm Hi Hv. split; cbn.
  - intros j Hj. rewrite XSP_set_XSP by done. destruct (j =? i); [by rewrite wrap_small|by apply Hm].
  - rewrite nzcv_set_XSP by done. apply Hm.
  - intros a Ha. symmetry. apply rep_outside; unfold off_r; cbn; try done; change (64 / 8) with 8; lia.
  - destruct Hctx. unfold set_XSP, set_reg. rewrite stepin_other; [apply Hm|..];
      unfold off_r, off_is_stepin; change (bits IR_REG_64 / 8) with 8; lia.
Qed.

Lemma rep_set_nzcv v s m :
  represents s m -> 0 <= v < 2 ^ 32 -> represents (set_flags (flags_of v) s) (set_nzcv ctx v m).
Proof.
  intros Hm Hv. split; cbn.
  - intros i Hi. rewrite XSP_set_nzcv by done. by apply Hm.
  - f_equal. unfold nzcv, set_nzcv. destruct Hctx. symmetry.
    rewrite (load_store_same IR_REG_32) by (unfold off_nzcv; cbn [bits]; change (32 / 8) with 4; lia).
    by apply wrap_small.
  - intros a Ha. symmetry. by apply rep_outside.
  - destruct Hctx. unfold set_nzcv. rewrite stepin_other; [apply Hm|..];
      unfold off_nzcv, off_is_stepin; change (bits IR_REG_32 / 8) with 4; lia.
Qed.

Lemma accessible_byte a n x :
  guest_accessible ctx a n = true -> a <= x < a + n -> guest_accessible ctx x 1 = true.
Proof. unfold guest_accessible. lia. Qed.

(** Accesses of the guest. *)
Lemma rep_load w a s m :
  represents s m -> guest_accessible ctx a (bits w / 8) = true -> load_mem w m a = load_mem w (memory s) a.
Proof.
  intros Hm Ha. unfold load_mem. f_equal. apply load_bytes_ext. intros x Hx.
  assert (guest_accessible ctx x 1 = true) as Hx1.
  { eapply accessible_byte; [exact Ha|]. pose proof (bytes_range w). lia. }
  rewrite wrap_small by (unfold guest_accessible in Hx1; lia). symmetry. by apply Hm.
Qed.

Lemma rep_store w a v s m :
  represents s m -> guest_accessible ctx a (bits w / 8) = true ->
  represents (set_memory (store_mem w (memory s) a v) s) (store_mem w m a v).
Proof.
  destruct Hctx as [H0 H1]. intros Hm Ha. unfold guest_accessible in Ha. split; cbn.
  - intros i Hi. rewrite (rep_register _ _ _ Hm) by done. symmetry. unfold XSP, get_reg.
    pose proof (bytes_range w).
    apply load_store_disjoint; unfold off_r; change (bits IR_REG_64 / 8) with 8; lia.
  - rewrite (rep_flags _ _ _ Hm). f_equal. unfold nzcv. symmetry.
    pose proof (bytes_range w).
    apply load_store_disjoint; unfold off_nzcv; change (bits IR_REG_32 / 8) with 4; lia.
  - intros x Hx. apply store_bytes_at. by apply Hm.
  - rewrite stepin_other; [apply Hm|lia..|]. unfold off_is_stepin. lia.
Qed.

(** ** Registers as the shortcuts read them *)

Definition gprz (n i : Z) (is_zero : bool) (s : arm_state) : Z := if is_zero then gpr n i s else gpr_sp n i s.
Definition set_gprz (i v : Z) (is_zero : bool) (s : arm_state) : arm_state :=
  if is_zero then set_gpr i v s else set_gpr_sp i v s.

Lemma rep_XZ n i z s m : represents s m -> 0 <= i <= 31 -> gprz n i z s = wrap n (XZ ctx m i z).
Proof.
  intros Hm Hi. pose proof (rep_register _ _ _ Hm i Hi) as E.
  destruct z; cbn; unfold gpr, gpr_sp, X; [|by rewrite E]. destruct (i =? 31); [done|by rewrite E].
Qed.

Lemma rep_set_XZ i v z s m :
  represents s m -> 0 <= i <= 31 -> 0 <= v < 2 ^ 64 -> represents (set_gprz i v z s) (set_XZ ctx i v z m).
Proof.
  intros. destruct z; cbn; [|by apply rep_set_XSP]. unfold set_gpr, set_X.
  destruct (i =? 31); [done|by apply rep_set_XSP].
Qed.

(** ** Weakest preconditions on guest states *)

Abbreviation awp := (awp (ir_call := ir_call) (ctx := ctx)).

Lemma awp_read_x i z Q E vs s :
  0 <= i <= 31 -> Q (length vs) (vs ++ [(IR_REG_64, gprz 64 i z s)]) s -> awp (read_x i z) Q E vs s.
Proof.
  awp_intro. rewrite (rep_XZ 64 i z s m) in * by done. apply gwp_read_x; [done|].
  rewrite (wrap_small 64) in * by (by apply XZ_range). awp_done; [by apply XZ_range|by eauto].
Qed.

Lemma awp_read_w i z Q E vs s :
  0 <= i <= 31 -> Q (length vs) (vs ++ [(IR_REG_32, gprz 32 i z s)]) s -> awp (read_w i z) Q E vs s.
Proof.
  awp_intro. rewrite (rep_XZ 32 i z s m) in * by done. apply gwp_read_w; [done|].
  awp_done; [apply (wrap_range 32); lia|by eauto].
Qed.

Lemma awp_write_x i r z v Q E vs s :
  0 <= i <= 31 -> rdv IR_REG_64 vs r = Some v -> Q tt vs (set_gprz i v z s) -> awp (write_x i r z) Q E vs s.
Proof.
  awp_intro. eapply gwp_write_x; [done..|]. awp_done. eexists. split; [|done].
  apply rep_set_XZ; [done..|]. by eapply (rdv_range IR_REG_64).
Qed.

(** A write of 32 bits may create a register. *)
Lemma awp_write_w i r z v Q E vs s :
  0 <= i <= 31 -> rdv IR_REG_32 vs r = Some v -> (forall ext, Q tt (vs ++ ext) (set_gprz i v z s)) ->
  awp (write_w i r z) Q E vs s.
Proof.
  awp_intro. assert (0 <= v < 2 ^ 32) as Hv by (by eapply (rdv_range IR_REG_32)).
  destruct (decide (i = 31 /\ z = true)) as [[-> ->]|Hi].
  - unfold write_w. cbn. apply gwp_ret. awp_done. exists s. split; [done|].
    rewrite <- (app_nil_r vs). auto.
  - unfold write_w. replace ((i =? 31) && z) with false by (destruct (Z.eqb_spec i 31), z; naive_solver).
    apply gwp_bind. eapply gwp_cast; [done|]. eapply gwp_write_context; [by apply off_r_range|apply rdv_last|].
    unfold irCast_sem. cbn [cast_dst cast_signed bits]. rewrite (wrap_small 64) by lia.
    awp_done; [cbn; lia|]. eexists. split; [|done].
    assert (set_gprz i v z s = set_gpr_sp i v s) as ->
      by (destruct z; cbn; [unfold set_gpr; destruct (Z.eqb_spec i 31); naive_solver|done]).
    apply rep_set_XSP; [done..|lia].
Qed.

Lemma awp_write_w_sign_extend i r z v Q E vs s :
  0 <= i <= 31 -> rdv IR_REG_32 vs r = Some v ->
  (forall ext, Q tt (vs ++ ext) (set_gprz i (wrap 64 (to_signed 32 v)) z s)) ->
  awp (write_w_sign_extend i r z) Q E vs s.
Proof.
  awp_intro. assert (0 <= wrap 64 (to_signed 32 v) < 2 ^ 64) as Hv by (apply wrap_range; lia).
  destruct (decide (i = 31 /\ z = true)) as [[-> ->]|Hi].
  - unfold write_w_sign_extend. cbn. apply gwp_ret. awp_done. exists s. split; [done|].
    rewrite <- (app_nil_r vs). auto.
  - unfold write_w_sign_extend.
    replace ((i =? 31) && z) with false by (destruct (Z.eqb_spec i 31), z; naive_solver).
    apply gwp_bind. eapply gwp_cast; [done|]. eapply gwp_write_context; [by apply off_r_range|apply rdv_last|].
    change (irCast_sem IR_CAST_32S_TO_64 v) with (wrap 64 (to_signed 32 v)).
    awp_done; [done|]. eexists. split; [|done].
    assert (set_gprz i (wrap 64 (to_signed 32 v)) z s = set_gpr_sp i (wrap 64 (to_signed 32 v)) s) as ->
      by (destruct z; cbn; [unfold set_gpr; destruct (Z.eqb_spec i 31); naive_solver|done]).
    by apply rep_set_XSP.
Qed.

(** The flags, as a word that has them. *)
Lemma awp_read_nzcv Q E vs s :
  (forall f, flags s = flags_of f -> 0 <= f < 2 ^ 32 -> Q (length vs) (vs ++ [(IR_REG_32, f)]) s) ->
  awp read_nzcv Q E vs s.
Proof.
  awp_intro. apply gwp_read_nzcv. assert (Hr := nzcv_range ctx m). awp_done; [done|].
  exists s. split; [done|]. apply H0; [apply Hm|done].
Qed.

Lemma awp_write_nzcv r v Q E vs s :
  rdv IR_REG_32 vs r = Some v -> Q tt vs (set_flags (flags_of v) s) -> awp (write_nzcv r) Q E vs s.
Proof.
  awp_intro. eapply gwp_write_nzcv; [done|]. awp_done. eexists. split; [|done].
  apply rep_set_nzcv; [done|]. by eapply (rdv_range IR_REG_32).
Qed.

Lemma awp_load w a x v Q E vs s :
  rdv IR_REG_64 vs a = Some x -> Mem_read (guest_accessible ctx) w x s = Some v ->
  Q (length vs) (vs ++ [(w, v)]) s -> awp (ir.add_load w a) Q E vs s.
Proof.
  awp_intro. unfold Mem_read in *. case_match eqn:Ha; [|done]. simplify_eq.
  eapply gwp_load; [done|]. rewrite (rep_load w x s m) by done. awp_done; [apply load_mem_range|by eauto].
Qed.

Lemma awp_store w r a x v s' Q E vs s :
  rdv IR_REG_64 vs a = Some x -> rdv w vs r = Some v -> Mem_write (guest_accessible ctx) w x v s = Some s' ->
  Q tt vs s' -> awp (ir.add_store w r a) Q E vs s.
Proof.
  awp_intro. unfold Mem_write in *. case_match eqn:Ha; [|done]. simplify_eq.
  eapply gwp_store; [done..|]. awp_done. eexists. split; [by apply rep_store|done].
Qed.

Lemma awp_mk_helper h Q E vs s :
  Q (length vs) (vs ++ [(IR_REG_64, helper_address h)]) s -> awp (mk_helper h) Q E vs s.
Proof. awp_intro. apply gwp_mk_helper. awp_done; [apply helper_address_range|by eauto]. Qed.

(** The result of a call, and two registers around it. *)
Lemma awp_mk_call pc w h a ps l v Q E vs s :
  rdv IR_REG_64 vs a = Some (helper_address h) -> rdv_params vs ps = Some l ->
  pure_helper h l = Some (w, v) ->
  (forall r vs', rdv w vs' r = Some (wrap (bits w) v) -> (forall t r x, rdv t vs r = Some x -> rdv t vs' r = Some x) ->
     Q r vs' s) ->
  awp (mk_call pc w a ps) Q E vs s.
Proof.
  awp_intro. eapply gwp_mk_call; [done..|]. split; [done|].
  assert (0 <= wrap (bits w) v < 2 ^ bits w) by (apply wrap_range; pose proof (bits_pos w); lia).
  split.
  { apply values_ok_snoc; [apply values_ok_snoc; [apply values_ok_snoc; [done|]|done]|done]. apply (wrap_range 64). lia. }
  exists s. split; [by apply rep_called|]. apply H3.
  - apply rdv_app_l. replace (S (length vs)) with (length (vs ++ [(IR_REG_64, wrap 64 pc)])) by (rewrite length_app; cbn; lia).
    apply rdv_last.
  - intros. by apply rdv_app_l, rdv_app_l, rdv_app_l.
Qed.

(** ** Leaving the block *)

Lemma awp_mk_exit pc r v Q (E : unit -> Z -> arm_state -> Prop) vs s :
  rdv IR_REG_64 vs r = Some v -> E tt v s -> awp (mk_exit pc r) Q E vs s.
Proof. awp_intro. eapply gwp_mk_exit; [done|]. exists s. split; [by apply rep_set_pc|done]. Qed.

Lemma awp_mk_branch pc pred is_32 target ty x Q (E : bool -> Z -> arm_state -> Prop) vs s :
  vs !! pred = Some (ty, x) -> E true (if x =? 0 then wrap 64 (pc + 4) else wrap 64 target) s ->
  awp (mk_branch pc pred is_32 target) Q E vs s.
Proof.
  awp_intro. eapply gwp_mk_branch; [done|]. exists s. split; [|done].
  destruct (x =? 0); [apply rep_set_pc|]; by apply rep_set_pc.
Qed.
End sim.
