(* ===== verification/Arm64Fields.v ===== *)
(** * Fields of the encoded instructions

    What the decoder reads back from each encoding. *)

From S2P Require Import Prelude Ir Jitter IrRequests FrontGen FrontWp ArmPseudo Arm64Gen Arm64Dis Arm64Helpers Arm64Isa Arm64Wp Arm64Sim.

(** Hypotheses on fields as inequalities on numerals. *)
Ltac field_bounds :=
  unfold valid, valid_mode, amount, reg, field in *;
  repeat match goal with
  | H : context [2 ^ (if ?b then ?x else ?y)] |- _ =>
      assert (2 ^ (if b then x else y) <= 2 ^ x) by (destruct b; lia);
      generalize dependent (2 ^ (if b then x else y)); intros
  end;
  repeat match goal with
  | H : context [2 ^ ?k] |- _ =>
      let v := eval vm_compute in (2 ^ k) in progress change (2 ^ k) with v in H
  end;
  repeat match goal with
  | |- context [Z.b2z (?a =? ?b)] => let v := eval vm_compute in (Z.b2z (a =? b)) in change (Z.b2z (a =? b)) with v
  end;
  change (Z.b2z false) with 0; change (Z.b2z true) with 1;
  repeat match goal with
  | |- context [Z.b2z ?b] => pose proof (b2z_range b); generalize dependent (Z.b2z b); intros
  end.

(** The two bits of a pair that choose its addressing. *)
Definition pair_field (mode : pair_addressing) : Z :=
  match mode with PairNoAllocate => 0 | PairPostIndex => 1 | PairOffset => 2 | PairPreIndex => 3 end.

Ltac fields_tac :=
  intros Hv e; subst e; cbn [encode pair_field];
  repeat (split || apply INSN1_eq); field_bounds; first [insn_field | field_numerals; lia].

Lemma fields_AddSubImmediate sf op st sh imm12 rn rd :
  valid (AddSubImmediate sf op st sh imm12 rn rd) = true ->
  let e := encode (AddSubImmediate sf op st sh imm12 rn rd) in
  INSN e 28 27 = 2 /\ INSN e 28 26 = 4 /\ INSN e 25 23 = 2 /\ INSN1 e 31 = sf /\
  INSN1 e 30 = op /\ INSN1 e 29 = st /\ INSN e 23 22 = Z.b2z sh /\ INSN e 21 10 = imm12 /\
  INSN e 9 5 = rn /\ INSN e 4 0 = rd.
Proof. fields_tac. Qed.

Lemma fields_AddSubShifted sf op st shift rm imm6 rn rd :
  valid (AddSubShifted sf op st shift rm imm6 rn rd) = true ->
  let e := encode (AddSubShifted sf op st shift rm imm6 rn rd) in
  INSN e 28 27 = 1 /\ INSN e 28 26 = 2 /\ INSN e 27 27 = 1 /\ INSN e 25 25 = 1 /\
  INSN e 27 25 = 5 /\ INSN1 e 28 = false /\ INSN1 e 24 = true /\ INSN1 e 21 = false /\
  INSN1 e 31 = sf /\ INSN1 e 30 = op /\ INSN1 e 29 = st /\ INSN e 23 22 = shift /\
  INSN e 15 10 = imm6 /\ INSN e 20 16 = rm /\ INSN e 9 5 = rn /\ INSN e 4 0 = rd.
Proof. fields_tac. Qed.

Lemma fields_AddSubExtended sf op st rm option imm3 rn rd :
  valid (AddSubExtended sf op st rm option imm3 rn rd) = true ->
  let e := encode (AddSubExtended sf op st rm option imm3 rn rd) in
  INSN e 28 27 = 1 /\ INSN e 28 26 = 2 /\ INSN e 27 27 = 1 /\ INSN e 25 25 = 1 /\
  INSN e 27 25 = 5 /\ INSN1 e 28 = false /\ INSN1 e 24 = true /\ INSN1 e 21 = true /\
  INSN1 e 31 = sf /\ INSN1 e 30 = op /\ INSN1 e 29 = st /\ INSN e 15 13 = option /\
  INSN e 12 10 = imm3 /\ INSN e 20 16 = rm /\ INSN e 9 5 = rn /\ INSN e 4 0 = rd.
Proof. fields_tac. Qed.

Lemma fields_AddSubCarry sf op st rm rn rd :
  valid (AddSubCarry sf op st rm rn rd) = true ->
  let e := encode (AddSubCarry sf op st rm rn rd) in
  INSN e 28 27 = 3 /\ INSN e 28 26 = 6 /\ INSN e 27 27 = 1 /\ INSN e 25 25 = 1 /\
  INSN e 27 25 = 5 /\ INSN1 e 28 = true /\ INSN1 e 24 = false /\ INSN e 23 21 = 0 /\
  INSN1 e 31 = sf /\ INSN1 e 30 = op /\ INSN1 e 29 = st /\ INSN e 20 16 = rm /\
  INSN e 9 5 = rn /\ INSN e 4 0 = rd.
Proof. fields_tac. Qed.

Lemma fields_LogicalImmediate sf opc n immr imms rn rd :
  valid (LogicalImmediate sf opc n immr imms rn rd) = true ->
  let e := encode (LogicalImmediate sf opc n immr imms rn rd) in
  INSN e 28 27 = 2 /\ INSN e 28 26 = 4 /\ INSN e 25 23 = 4 /\ INSN1 e 31 = sf /\
  INSN e 30 29 = opc /\ INSN e 22 22 = Z.b2z n /\ INSN e 21 16 = immr /\ INSN e 15 10 = imms /\
  INSN e 9 5 = rn /\ INSN e 4 0 = rd.
Proof. fields_tac. Qed.

Lemma fields_LogicalShifted sf opc shift n rm imm6 rn rd :
  valid (LogicalShifted sf opc shift n rm imm6 rn rd) = true ->
  let e := encode (LogicalShifted sf opc shift n rm imm6 rn rd) in
  INSN e 28 27 = 1 /\ INSN e 28 26 = 2 /\ INSN e 27 27 = 1 /\ INSN e 25 25 = 1 /\
  INSN e 27 25 = 5 /\ INSN1 e 28 = false /\ INSN1 e 24 = false /\ INSN1 e 31 = sf /\
  INSN e 30 29 = opc /\ INSN1 e 21 = n /\ INSN e 23 22 = shift /\ INSN e 15 10 = imm6 /\
  INSN e 20 16 = rm /\ INSN e 9 5 = rn /\ INSN e 4 0 = rd.
Proof. fields_tac. Qed.

Lemma fields_MoveWide sf opc hw imm16 rd :
  valid (MoveWide sf opc hw imm16 rd) = true ->
  let e := encode (MoveWide sf opc hw imm16 rd) in
  INSN e 28 27 = 2 /\ INSN e 28 26 = 4 /\ INSN e 25 23 = 5 /\ INSN1 e 31 = sf /\
  INSN e 30 29 = opc /\ INSN e 22 21 = hw /\ INSN e 20 5 = imm16 /\ INSN e 4 0 = rd.
Proof. fields_tac. Qed.

Lemma fields_PcRelative page immlo immhi rd :
  valid (PcRelative page immlo immhi rd) = true ->
  let e := encode (PcRelative page immlo immhi rd) in
  INSN e 28 27 = 2 /\ INSN e 28 26 = 4 /\ INSN e 25 23 = immhi / 2 ^ 18 /\ INSN1 e 31 = page /\
  INSN e 30 29 = immlo /\ INSN e 23 5 = immhi /\ INSN e 4 0 = rd.
Proof. fields_tac. Qed.

Lemma fields_BitfieldMove sf opc immr imms rn rd :
  valid (BitfieldMove sf opc immr imms rn rd) = true ->
  let e := encode (BitfieldMove sf opc immr imms rn rd) in
  INSN e 28 27 = 2 /\ INSN e 28 26 = 4 /\ INSN e 25 23 = 6 /\ INSN1 e 31 = sf /\
  INSN e 31 23 = 256 * Z.b2z sf + 64 * opc + 38 /\ INSN e 21 16 = immr /\ INSN e 15 10 = imms /\
  INSN e 9 5 = rn /\ INSN e 4 0 = rd /\ 0 <= e < 2 ^ 32.
Proof. fields_tac. Qed.

Lemma fields_Extract sf rm imms rn rd :
  valid (Extract sf rm imms rn rd) = true ->
  let e := encode (Extract sf rm imms rn rd) in
  INSN e 28 27 = 2 /\ INSN e 28 26 = 4 /\ INSN e 25 23 = 7 /\ INSN1 e 31 = sf /\
  INSN e 20 16 = rm /\ INSN e 15 10 = imms /\ INSN e 9 5 = rn /\ INSN e 4 0 = rd.
Proof. fields_tac. Qed.

Lemma fields_ConditionalSelect sf op rm cond o2 rn rd :
  valid (ConditionalSelect sf op rm cond o2 rn rd) = true ->
  let e := encode (ConditionalSelect sf op rm cond o2 rn rd) in
  INSN e 28 27 = 3 /\ INSN e 28 26 = 6 /\ INSN e 27 27 = 1 /\ INSN e 25 25 = 1 /\
  INSN e 27 25 = 5 /\ INSN1 e 28 = true /\ INSN1 e 24 = false /\ INSN e 23 21 = 4 /\
  INSN1 e 31 = sf /\ INSN1 e 30 = op /\ INSN e 20 16 = rm /\ INSN e 15 12 = cond /\
  INSN e 11 10 = Z.b2z o2 /\ INSN e 9 5 = rn /\ INSN e 4 0 = rd.
Proof. fields_tac. Qed.

Lemma fields_ConditionalCompare sf op imm rm cond rn flags :
  valid (ConditionalCompare sf op imm rm cond rn flags) = true ->
  let e := encode (ConditionalCompare sf op imm rm cond rn flags) in
  INSN e 28 27 = 3 /\ INSN e 28 26 = 6 /\ INSN e 27 27 = 1 /\ INSN e 25 25 = 1 /\
  INSN e 27 25 = 5 /\ INSN1 e 28 = true /\ INSN1 e 24 = false /\ INSN e 23 21 = 2 /\
  INSN1 e 31 = sf /\ INSN1 e 30 = op /\ INSN1 e 11 = imm /\ INSN e 20 16 = rm /\
  INSN e 15 12 = cond /\ INSN e 9 5 = rn /\ INSN e 4 0 = flags.
Proof. fields_tac. Qed.

Lemma fields_ShiftVariable sf op2 rm rn rd :
  valid (ShiftVariable sf op2 rm rn rd) = true ->
  let e := encode (ShiftVariable sf op2 rm rn rd) in
  INSN e 28 27 = 3 /\ INSN e 28 26 = 6 /\ INSN e 27 27 = 1 /\ INSN e 25 25 = 1 /\
  INSN e 27 25 = 5 /\ INSN1 e 28 = true /\ INSN1 e 24 = false /\ INSN e 23 21 = 6 /\
  INSN1 e 30 = false /\ INSN1 e 31 = sf /\ INSN e 15 10 = 8 + op2 /\ INSN e 20 16 = rm /\
  INSN e 9 5 = rn /\ INSN e 4 0 = rd.
Proof. fields_tac. Qed.

Lemma fields_Divide32 signed rm rn rd :
  valid (Divide32 signed rm rn rd) = true ->
  let e := encode (Divide32 signed rm rn rd) in
  INSN e 28 27 = 3 /\ INSN e 28 26 = 6 /\ INSN e 27 27 = 1 /\ INSN e 25 25 = 1 /\
  INSN e 27 25 = 5 /\ INSN1 e 28 = true /\ INSN1 e 24 = false /\ INSN e 23 21 = 6 /\
  INSN1 e 30 = false /\ INSN1 e 31 = false /\ INSN e 15 10 = 2 + Z.b2z signed /\
  INSN e 20 16 = rm /\ INSN e 9 5 = rn /\ INSN e 4 0 = rd.
Proof. fields_tac. Qed.

Lemma fields_MultiplyAdd sf o0 rm ra rn rd :
  valid (MultiplyAdd sf o0 rm ra rn rd) = true ->
  let e := encode (MultiplyAdd sf o0 rm ra rn rd) in
  INSN e 28 27 = 3 /\ INSN e 28 26 = 6 /\ INSN e 27 27 = 1 /\ INSN e 25 25 = 1 /\
  INSN e 27 25 = 5 /\ INSN1 e 28 = true /\ INSN1 e 24 = true /\ INSN1 e 31 = sf /\
  INSN e 23 21 = 0 /\ INSN e 15 15 = Z.b2z o0 /\ INSN e 20 16 = rm /\ INSN e 14 10 = ra /\
  INSN e 9 5 = rn /\ INSN e 4 0 = rd.
Proof. fields_tac. Qed.

Lemma fields_MultiplyAddLong u o0 rm ra rn rd :
  valid (MultiplyAddLong u o0 rm ra rn rd) = true ->
  let e := encode (MultiplyAddLong u o0 rm ra rn rd) in
  INSN e 28 27 = 3 /\ INSN e 28 26 = 6 /\ INSN e 27 27 = 1 /\ INSN e 25 25 = 1 /\
  INSN e 27 25 = 5 /\ INSN1 e 28 = true /\ INSN1 e 24 = true /\ INSN e 23 21 = 1 + 4 * Z.b2z u /\
  INSN e 15 15 = Z.b2z o0 /\ INSN e 20 16 = rm /\ INSN e 14 10 = ra /\ INSN e 9 5 = rn /\
  INSN e 4 0 = rd.
Proof. fields_tac. Qed.

Lemma fields_MultiplyHigh u rm rn rd :
  valid (MultiplyHigh u rm rn rd) = true ->
  let e := encode (MultiplyHigh u rm rn rd) in
  INSN e 28 27 = 3 /\ INSN e 28 26 = 6 /\ INSN e 27 27 = 1 /\ INSN e 25 25 = 1 /\
  INSN e 27 25 = 5 /\ INSN1 e 28 = true /\ INSN1 e 24 = true /\ INSN e 23 21 = 2 + 4 * Z.b2z u /\
  INSN e 15 15 = 0 /\ INSN e 20 16 = rm /\ INSN e 9 5 = rn /\ INSN e 4 0 = rd.
Proof. fields_tac. Qed.

Lemma fields_Reverse sf opc rn rd :
  valid (Reverse sf opc rn rd) = true ->
  let e := encode (Reverse sf opc rn rd) in
  INSN e 28 27 = 3 /\ INSN e 28 26 = 6 /\ INSN e 27 27 = 1 /\ INSN e 25 25 = 1 /\
  INSN e 27 25 = 5 /\ INSN1 e 28 = true /\ INSN1 e 24 = false /\ INSN e 23 21 = 6 /\
  INSN1 e 30 = true /\ INSN1 e 31 = sf /\ INSN e 15 10 = opc /\ INSN e 9 5 = rn /\
  INSN e 4 0 = rd.
Proof. fields_tac. Qed.

Lemma fields_CountLeading sf sign rn rd :
  valid (CountLeading sf sign rn rd) = true ->
  let e := encode (CountLeading sf sign rn rd) in
  INSN e 28 27 = 3 /\ INSN e 28 26 = 6 /\ INSN e 27 27 = 1 /\ INSN e 25 25 = 1 /\
  INSN e 27 25 = 5 /\ INSN1 e 28 = true /\ INSN1 e 24 = false /\ INSN e 23 21 = 6 /\
  INSN1 e 30 = true /\ INSN1 e 31 = sf /\ INSN e 15 10 = 4 + Z.b2z sign /\ INSN e 9 5 = rn /\
  INSN e 4 0 = rd.
Proof. fields_tac. Qed.

Lemma fields_Branch link imm26 :
  valid (Branch link imm26) = true ->
  let e := encode (Branch link imm26) in
  INSN e 28 27 = 2 /\ INSN e 28 26 = 5 /\ INSN e 30 29 = 0 /\ INSN1 e 31 = link /\
  INSN e 25 0 = imm26.
Proof. fields_tac. Qed.

Lemma fields_BranchRegister opc rn :
  valid (BranchRegister opc rn) = true ->
  let e := encode (BranchRegister opc rn) in
  INSN e 28 27 = 2 /\ INSN e 28 26 = 5 /\ INSN e 30 29 = 2 /\ INSN1 e 31 = true /\
  INSN1 e 25 = true /\ INSN e 24 21 = opc /\ INSN e 9 5 = rn.
Proof. fields_tac. Qed.

Lemma fields_BranchConditional imm19 cond :
  valid (BranchConditional imm19 cond) = true ->
  let e := encode (BranchConditional imm19 cond) in
  INSN e 28 27 = 2 /\ INSN e 28 26 = 5 /\ INSN e 30 29 = 2 /\ INSN1 e 31 = false /\
  INSN e 23 5 = imm19 /\ INSN e 3 0 = cond.
Proof. fields_tac. Qed.

Lemma fields_CompareBranch sf op imm19 rt :
  valid (CompareBranch sf op imm19 rt) = true ->
  let e := encode (CompareBranch sf op imm19 rt) in
  INSN e 28 27 = 2 /\ INSN e 28 26 = 5 /\ INSN e 30 29 = 1 /\ INSN1 e 25 = false /\
  INSN1 e 24 = op /\ INSN1 e 31 = sf /\ INSN e 23 5 = imm19 /\ INSN e 4 0 = rt.
Proof. fields_tac. Qed.

Lemma fields_TestBranch op b5 b40 imm14 rt :
  valid (TestBranch op b5 b40 imm14 rt) = true ->
  let e := encode (TestBranch op b5 b40 imm14 rt) in
  INSN e 28 27 = 2 /\ INSN e 28 26 = 5 /\ INSN e 30 29 = 1 /\ INSN1 e 25 = true /\
  INSN1 e 24 = op /\ INSN e 31 31 = b5 /\ INSN e 23 19 = b40 /\ INSN e 18 5 = imm14 /\
  INSN e 4 0 = rt.
Proof. fields_tac. Qed.

Lemma fields_LoadStorePair opc mode load imm7 rt2 rn rt :
  valid (LoadStorePair opc mode load imm7 rt2 rn rt) = true ->
  let e := encode (LoadStorePair opc mode load imm7 rt2 rn rt) in
  INSN e 28 27 = 1 /\ INSN e 28 26 = 2 /\ INSN e 27 27 = 1 /\ INSN e 25 25 = 0 /\
  INSN1 e 26 = false /\ INSN e 29 28 = 2 /\ INSN e 24 23 = pair_field mode /\
  INSN1 e 31 = (opc / 2 =? 1) /\ INSN1 e 30 = (opc mod 2 =? 1) /\ INSN1 e 22 = load /\
  INSN e 21 15 = imm7 /\ INSN e 14 10 = rt2 /\ INSN e 9 5 = rn /\ INSN e 4 0 = rt.
Proof.
  intros Hv. assert (opc = 0 \/ opc = 1 \/ opc = 2) as Ho by (unfold valid, field in Hv; lia).
  revert Hv. destruct Ho as [-> | [-> | ->]], mode; fields_tac.
Qed.

Lemma fields_LoadLiteral opc imm19 rt :
  valid (LoadLiteral opc imm19 rt) = true ->
  let e := encode (LoadLiteral opc imm19 rt) in
  INSN e 28 27 = 3 /\ INSN e 28 26 = 6 /\ INSN e 27 27 = 1 /\ INSN e 25 25 = 0 /\
  INSN1 e 26 = false /\ INSN e 29 28 = 1 /\ INSN e 31 30 = opc /\ INSN e 23 5 = imm19 /\
  INSN e 4 0 = rt.
Proof. fields_tac. Qed.

Lemma fields_UnsignedOffset size opc imm12 rn rt :
  valid (LoadStore size opc (UnsignedOffset imm12) rn rt) = true ->
  let e := encode (LoadStore size opc (UnsignedOffset imm12) rn rt) in
  INSN e 28 27 = 3 /\ INSN e 28 26 = 6 /\ INSN e 27 27 = 1 /\ INSN e 25 25 = 0 /\
  INSN1 e 26 = false /\ INSN e 29 28 = 3 /\ INSN e 31 30 = size /\ INSN e 23 22 = opc /\
  INSN e 9 5 = rn /\ INSN e 4 0 = rt /\ INSN1 e 24 = true /\ INSN e 21 10 = imm12.
Proof. fields_tac. Qed.

Lemma fields_UnscaledOffset size opc imm9 rn rt :
  valid (LoadStore size opc (UnscaledOffset imm9) rn rt) = true ->
  let e := encode (LoadStore size opc (UnscaledOffset imm9) rn rt) in
  INSN e 28 27 = 3 /\ INSN e 28 26 = 6 /\ INSN e 27 27 = 1 /\ INSN e 25 25 = 0 /\
  INSN1 e 26 = false /\ INSN e 29 28 = 3 /\ INSN e 31 30 = size /\ INSN e 23 22 = opc /\
  INSN e 9 5 = rn /\ INSN e 4 0 = rt /\ INSN1 e 24 = false /\ INSN1 e 21 = false /\
  INSN e 11 10 = 0 /\ INSN e 20 12 = imm9.
Proof. fields_tac. Qed.

Lemma fields_PostIndex size opc imm9 rn rt :
  valid (LoadStore size opc (PostIndex imm9) rn rt) = true ->
  let e := encode (LoadStore size opc (PostIndex imm9) rn rt) in
  INSN e 28 27 = 3 /\ INSN e 28 26 = 6 /\ INSN e 27 27 = 1 /\ INSN e 25 25 = 0 /\
  INSN1 e 26 = false /\ INSN e 29 28 = 3 /\ INSN e 31 30 = size /\ INSN e 23 22 = opc /\
  INSN e 9 5 = rn /\ INSN e 4 0 = rt /\ INSN1 e 24 = false /\ INSN e 11 10 = 1 /\
  INSN e 20 12 = imm9.
Proof. fields_tac. Qed.

Lemma fields_PreIndex size opc imm9 rn rt :
  valid (LoadStore size opc (PreIndex imm9) rn rt) = true ->
  let e := encode (LoadStore size opc (PreIndex imm9) rn rt) in
  INSN e 28 27 = 3 /\ INSN e 28 26 = 6 /\ INSN e 27 27 = 1 /\ INSN e 25 25 = 0 /\
  INSN1 e 26 = false /\ INSN e 29 28 = 3 /\ INSN e 31 30 = size /\ INSN e 23 22 = opc /\
  INSN e 9 5 = rn /\ INSN e 4 0 = rt /\ INSN1 e 24 = false /\ INSN e 11 10 = 3 /\
  INSN e 20 12 = imm9.
Proof. fields_tac. Qed.

Lemma fields_RegisterOffset size opc rm option scaled rn rt :
  valid (LoadStore size opc (RegisterOffset rm option scaled) rn rt) = true ->
  let e := encode (LoadStore size opc (RegisterOffset rm option scaled) rn rt) in
  INSN e 28 27 = 3 /\ INSN e 28 26 = 6 /\ INSN e 27 27 = 1 /\ INSN e 25 25 = 0 /\
  INSN1 e 26 = false /\ INSN e 29 28 = 3 /\ INSN e 31 30 = size /\ INSN e 23 22 = opc /\
  INSN e 9 5 = rn /\ INSN e 4 0 = rt /\ INSN1 e 24 = false /\ INSN e 11 10 = 2 /\
  INSN1 e 21 = true /\ INSN e 20 16 = rm /\ INSN e 15 13 = option /\ INSN1 e 12 = scaled.
Proof. fields_tac. Qed.

(** * Flags and conditions

    The helpers compute the flags of the architecture's [AddWithCarry] and
    its [ConditionHolds]. *)

(** ** The word of flags *)

(** ** The four operations *)

(** The flags each operation of [enum ops] sets, [c] being the carry. *)
Definition ops_flags (n ops x y : Z) (c : bool) : pstate :=
  match ops with
  | 0 => (AddWithCarry n x y false).2
  | 1 => (AddWithCarry n x (NOT n y) true).2
  | 2 => logical_flags n x
  | _ => (AddWithCarry n x y c).2
  end.

(** The helpers compute the flags of the architecture. *)
Lemma compute_next_nzcv_spec w ops x y old :
  w = 32 \/ w = 64 -> 0 <= ops <= 3 -> 0 <= x < 2 ^ w -> 0 <= y < 2 ^ w ->
  exists v, compute_next_nzcv w ops x y old = Some v /\ 0 <= v < 2 ^ 32 /\
    flags_of v = ops_flags w ops x y (Z.testbit old 29).
Proof.
  intros Hw Ho Hx Hy.
  assert (Hc : Z.land (Z.shiftr old 29) 1 = Z.b2z (Z.testbit old 29)).
  { rewrite (Z.land_ones _ 1) by lia. change (2 ^ 1) with 2. rewrite <- Z.bit0_mod.
    by rewrite Z.shiftr_spec by lia. }
  assert (Hword : forall calc c v r, 0 <= calc < 2 ^ w ->
    mkFlags (Z.testbit calc (w - 1)) (calc =? 0) c (Z.testbit v (w - 1)) = r ->
    exists v', Some (nzcv_word w calc c v old) = Some v' /\ 0 <= v' < 2 ^ 32 /\ flags_of v' = r).
  { intros calc c v r Hcalc <-. eexists. split; [done|]. split; [by apply nzcv_word_range|].
    by apply flags_of_nzcv_word. }
  assert (ops = 0 \/ ops = 1 \/ ops = 2 \/ ops = 3) as [-> | [-> | [-> | ->]]] by lia.
  - apply (Hword (wrap w (x + y)) (wrap w (x + y) <? x)); [apply wrap_range; lia|].
    pose proof (carry_out w x y false Hw Hx Hy) as H1. pose proof (overflow_bit w x y false Hw Hx Hy) as H2.
    cbn [Z.b2z] in *. unfold ops_flags, AddWithCarry. cbn [snd Z.b2z]. rewrite Z.add_0_r in *.
    by rewrite H1, H2.
  - apply (Hword (wrap w (x - y)) (y <=? x)); [apply wrap_range; lia|]. by apply sub_flags.
  - destruct (Hword x false 0 (logical_flags w x) Hx) as (v & Hv & Hr); [by rewrite Z.testbit_0_l|].
    exists v. split; [|done]. rewrite <- Hv. unfold nzcv_word. rewrite Z.shiftr_0_l. done.
  - unfold compute_next_nzcv. rewrite Hc.
    apply (Hword (wrap w (x + y + Z.b2z (Z.testbit old 29)))
      (if negb (Z.b2z (Z.testbit old 29) =? 0) then wrap w (x + y + Z.b2z (Z.testbit old 29)) <=? x
       else wrap w (x + y + Z.b2z (Z.testbit old 29)) <? x)); [apply wrap_range; lia|].
    pose proof (carry_out w x y (Z.testbit old 29) Hw Hx Hy) as H1.
    pose proof (overflow_bit w x y (Z.testbit old 29) Hw Hx Hy) as H2. cbv zeta in H1, H2.
    unfold ops_flags, AddWithCarry. cbn [snd].
    replace (negb (Z.b2z (Z.testbit old 29) =? 0)) with (Z.testbit old 29) by (by destruct (Z.testbit old 29)).
    by rewrite H1, H2.
Qed.

(** ** Conditions *)

Lemma compute_flags_pred_spec cond v :
  0 <= cond < 16 ->
  hlp_compute_flags_pred cond v = Some (Z.b2z (ConditionHolds cond (flags_of v))).
Proof.
  intros Hc. unfold hlp_compute_flags_pred, ConditionHolds, flags_of.
  change 0x40000000 with (2 ^ 30). change 0x20000000 with (2 ^ 29).
  change 0x80000000 with (2 ^ 31). change 0x10000000 with (2 ^ 28).
  rewrite !test_bit, !one_bit by lia. cbn [flagN flagZ flagC flagV].
  generalize (Z.testbit v 31), (Z.testbit v 30), (Z.testbit v 29), (Z.testbit v 28). intros n z c o.
  assert (cond = 0 \/ cond = 1 \/ cond = 2 \/ cond = 3 \/ cond = 4 \/ cond = 5 \/ cond = 6 \/ cond = 7 \/
    cond = 8 \/ cond = 9 \/ cond = 10 \/ cond = 11 \/ cond = 12 \/ cond = 13 \/ cond = 14 \/ cond = 15) by lia.
  destruct n, z, c, o; repeat match goal with H : _ \/ _ |- _ => destruct H as [H|H] end; by subst.
Qed.

(** ** Registers of either width *)

Lemma datasize_range sf : 32 <= datasize sf <= 64.
Proof. destruct sf; cbn; lia. Qed.

Lemma gpr_range n i s : 0 <= n -> 0 <= gpr n i s < 2 ^ n.
Proof. intros. by apply wrap_range. Qed.

Lemma gpr_sp_range n i s : 0 <= n -> 0 <= gpr_sp n i s < 2 ^ n.
Proof. intros. by apply wrap_range. Qed.

Lemma wrap_gpr n i s : 0 <= n -> wrap n (gpr n i s) = gpr n i s.
Proof. intros. by apply wrap_idem. Qed.

Lemma gpr_low n i s : 0 <= n <= 64 -> wrap n (gpr 64 i s) = gpr n i s.
Proof. intros. unfold gpr. by apply wrap_wrap. Qed.

