(* ===== verification/Arm64Rules.v ===== *)
(** * Symbolic execution of the front end

    Rules for the shortcuts that call helpers, and the tactics that run the
    body of a [dis_*] function on a guest state. *)

From S2P Require Import Prelude Ir Jitter IrRequests FrontGen FrontWp ArmPseudo Arm64Gen Arm64Dis Arm64DisData Arm64Decode Arm64Helpers Arm64Isa Arm64Wp Arm64Sim Arm64Fields.

Lemma width_bits sf : bits (width sf) = datasize sf.
Proof. by destruct sf. Qed.

Section rules.
Context `{HelperAddress} {ir_call ctx} `{!Arm64Calls ir_call ctx}.
Context {Hctx : ctx_ok ctx}.
Context (pc : Z).

Abbreviation awp := (awp (ir_call := ir_call) (ctx := ctx)).

(** A call of a helper that only computes. *)
Lemma awp_helper w h a ps l v Q E vs s :
  rdv IR_REG_64 vs a = Some (helper_address h) -> rdv_params vs ps = Some l ->
  pure_helper h l = Some (w, v) -> 0 <= v < 2 ^ bits w ->
  (forall r vs', rdv w vs' r = Some v -> extends vs vs' -> Q r vs' s) ->
  awp (mk_call pc w a ps) Q E vs s.
Proof.
  intros Ha Hl Hv Hr HQ. eapply awp_mk_call; [done..|]. intros r vs' H1 H2. apply HQ; [|done].
  by rewrite wrap_small in H1.
Qed.

(** The call of the helper that computes the flags. *)
Lemma awp_nzcv_call (sf : bool) ops a p0 p1 p2 p3 x y f Q E vs s :
  0 <= ops <= 3 ->
  rdv IR_REG_64 vs a = Some (helper_address (if sf then arm64_hlp_compute_next_nzcv_64 else arm64_hlp_compute_next_nzcv_32)) ->
  rdv IR_REG_32 vs p0 = Some ops -> rdv (width sf) vs p1 = Some x -> rdv (width sf) vs p2 = Some y ->
  rdv IR_REG_32 vs p3 = Some f -> flags s = flags_of f ->
  (forall r vs' v, rdv IR_REG_32 vs' r = Some v ->
     flags_of v = ops_flags (datasize sf) ops x y (flagC (flags s)) -> extends vs vs' -> Q r vs' s) ->
  awp (mk_call pc IR_REG_32 a [Some p0; Some p1; Some p2; Some p3]) Q E vs s.
Proof.
  intros Ho Ha H0 H1 H2 H3 Hf HQ. apply awp_ok. intros Hok.
  pose proof (rdv_range _ _ _ _ Hok H1) as Hx. pose proof (rdv_range _ _ _ _ Hok H2) as Hy.
  rewrite width_bits in *.
  destruct (compute_next_nzcv_spec (datasize sf) ops x y f) as (v & Hv & Hvr & Hvf); [destruct sf; tauto|done..|].
  eapply awp_helper; [exact Ha|params| |exact Hvr|].
  - destruct sf; cbn [pure_helper width datasize] in *;
      unfold hlp_compute_next_nzcv_64, hlp_compute_next_nzcv_32; by rewrite Hv.
  - intros r vs' Hr He. eapply HQ; [exact Hr| |done]. rewrite Hvf. f_equal. by rewrite Hf.
Qed.

Lemma awp_next_nzcv (sf : bool) ops a b x y Q E vs s :
  0 <= ops <= 3 -> rdv (width sf) vs a = Some x -> rdv (width sf) vs b = Some y ->
  (forall r vs' f, rdv IR_REG_32 vs' r = Some f ->
     flags_of f = ops_flags (datasize sf) ops x y (flagC (flags s)) -> extends vs vs' -> Q r vs' s) ->
  awp (if sf then mk_next_nzcv_64 pc ops a b else mk_next_nzcv_32 pc ops a b) Q E vs s.
Proof.
  intros Ho Ha Hb HQ.
  replace (if sf then mk_next_nzcv_64 pc ops a b else mk_next_nzcv_32 pc ops a b) with
    (p0 ← mk_32 ops; p3 ← read_nzcv;
     h ← mk_helper (if sf then arm64_hlp_compute_next_nzcv_64 else arm64_hlp_compute_next_nzcv_32);
     mk_call pc IR_REG_32 h [Some p0; Some a; Some b; Some p3]) by (by destruct sf).
  apply awp_bind, awp_mov_const. apply awp_bind, awp_read_nzcv. intros f Hf Hfr. apply awp_bind, awp_mk_helper.
  rewrite wrap_small by (cbn; lia).
  eapply awp_nzcv_call; [exact Ho|rdv|rdv|rdv|rdv|rdv|exact Hf|].
  intros r vs' v Hv Hvf He. eapply HQ; [exact Hv|done|]. intros t r' x' Hr'. apply He. rdv.
Qed.

Lemma awp_flags_pred cond Q E vs s :
  0 <= cond < 16 ->
  (forall r vs', rdv IR_REG_32 vs' r = Some (Z.b2z (ConditionHolds cond (flags s))) -> extends vs vs' -> Q r vs' s) ->
  awp (mk_flags_pred pc cond) Q E vs s.
Proof.
  intros Hc HQ. unfold mk_flags_pred. apply awp_bind, awp_mov_const. apply awp_bind, awp_read_nzcv.
  intros f Hf Hfr. apply awp_bind, awp_mk_helper.
  eapply (awp_helper IR_REG_32 arm64_hlp_compute_flags_pred).
  - rdv.
  - params.
  - cbn [pure_helper]. rewrite wrap_small by (cbn; lia). rewrite compute_flags_pred_spec by done. cbn.
    by rewrite <- Hf.
  - destruct (ConditionHolds _ _); done.
  - intros r vs' Hr He. eapply HQ; [exact Hr|]. intros t r' x' Hr'. apply He. rdv.
Qed.

(** ** Either width *)

Lemma awp_read_xw (sf : bool) i z Q E vs s :
  0 <= i <= 31 -> Q (length vs) (vs ++ [(width sf, gprz (datasize sf) i z s)]) s ->
  awp (read_xw sf i z) Q E vs s.
Proof. intros. unfold read_xw. destruct sf; [by apply awp_read_x|by apply awp_read_w]. Qed.

Lemma awp_write_xw (sf : bool) i r z v Q E vs s :
  0 <= i <= 31 -> rdv (width sf) vs r = Some v -> (forall ext, Q tt (vs ++ ext) (set_gprz i v z s)) ->
  awp (write_xw sf i r z) Q E vs s.
Proof.
  intros Hi Hr HQ. unfold write_xw. destruct sf; [|by eapply awp_write_w].
  eapply awp_write_x; [done..|]. rewrite <- (app_nil_r vs). apply HQ.
Qed.

(** 64 bits of which a 32-bit instruction keeps the low half. *)
Lemma awp_write_x_or_low (sf : bool) i r z v Q E vs s :
  0 <= i <= 31 -> rdv IR_REG_64 vs r = Some v ->
  (forall ext, Q tt (vs ++ ext) (set_gprz i (wrap (datasize sf) v) z s)) ->
  awp (write_x_or_low sf i r z) Q E vs s.
Proof.
  intros Hi Hr HQ. apply awp_ok. intros Hok. unfold write_x_or_low. destruct sf; cbn [datasize] in HQ.
  - rewrite wrap_small in HQ by (by eapply (rdv_range IR_REG_64)).
    eapply awp_write_x; [done..|]. rewrite <- (app_nil_r vs). apply HQ.
  - apply awp_bind. eapply awp_cast; [exact Hr|]. eapply awp_write_w; [done|apply rdv_last|].
    intros ext. rewrite <- app_assoc. apply HQ.
Qed.

Lemma awp_const (sf : bool) v Q E vs s :
  Q (length vs) (vs ++ [(width sf, wrap (datasize sf) v)]) s ->
  awp (if sf then mk_64 v else mk_32 v) Q E vs s.
Proof. intros. destruct sf; by apply awp_mov_const. Qed.

(** The pattern [op1 NOT]: the complement of an operand or the operand. *)
Lemma awp_not (sf b : bool) r x vs s :
  rdv (width sf) vs r = Some x ->
  awp (if b then ones ← (if sf then mk_64 (Z.lnot 0) else mk_32 (Z.lnot 0)); ir.add_binop XOR (width sf) r ones
       else mret r)
    (yields (if b then NOT (datasize sf) x else x) (width sf) vs s) never vs s.
Proof.
  intros Hr. apply awp_ok. intros Hok. pose proof (rdv_range _ _ _ _ Hok Hr) as Hx. rewrite width_bits in Hx.
  destruct b; [|apply awp_ret; by yields].
  apply awp_bind, awp_const. eapply awp_binop; [rdv|destruct sf; rdv|reflexivity|].
  yields. rewrite <- NOT_lxor by (done || (destruct sf; cbn; lia)). by destruct sf.
Qed.
End rules.

(** The value of an operator, a shift being by less than the width. *)
Ltac binop_value :=
  cbn [irBinop_sem]; rewrite ?width_bits;
  lazymatch goal with
  | |- (if ?b then _ else _) = _ =>
      replace b with true by (symmetry; apply Z.ltb_lt; cbn [bits datasize]; lia); reflexivity
  | |- _ => reflexivity
  end.

(** One step of the body of a [dis_*] function, when it has only one way to
    go. *)
Ltac awp_step :=
  lazymatch goal with
  | |- awp (mret _) _ _ _ _ => apply awp_ret
  | |- awp (_ ;; mret _) _ _ _ _ => apply awp_last
  | |- awp (_ ≫= _) _ _ _ _ => apply awp_bind
  | |- awp (if _ then mk_64 _ else mk_32 _) _ _ _ _ => apply awp_const
  | |- awp (mk_64 _) _ _ _ _ => apply awp_mov_const
  | |- awp (mk_32 _) _ _ _ _ => apply awp_mov_const
  | |- awp (mk_8 _) _ _ _ _ => apply awp_mk_8; [lia|]
  | |- awp (ir.add_mov_const _ _) _ _ _ _ => apply awp_mov_const
  | |- awp (read_x _ _) _ _ _ _ => apply awp_read_x; [lia|]
  | |- awp (read_w _ _) _ _ _ _ => apply awp_read_w; [lia|]
  | |- awp (read_xw _ _ _) _ _ _ _ => apply awp_read_xw; [lia|]
  | |- awp (write_x _ _ _) _ _ _ _ => eapply awp_write_x; [lia|rdv|]
  | |- awp (write_w _ _ _) _ _ _ _ => eapply awp_write_w; [lia|rdv|intros ?]
  | |- awp (write_xw _ _ _ _) _ _ _ _ => eapply awp_write_xw; [lia|rdv|intros ?]
  | |- awp (write_x_or_low _ _ _ _) _ _ _ _ => eapply awp_write_x_or_low; [lia|rdv|intros ?]
  | |- awp (write_nzcv _) _ _ _ _ => eapply awp_write_nzcv; [rdv|]
  | |- awp read_nzcv _ _ _ _ => apply awp_read_nzcv; intros ?f ?Hf ?Hfr
  | |- awp (mk_helper _) _ _ _ _ => apply awp_mk_helper
  | |- awp (ir.add_cast _ _) _ _ _ _ => eapply awp_cast; [rdv|]
  | |- awp (ir.add_binop _ _ _ _) _ _ _ _ => eapply awp_binop; [rdv|rdv|binop_value|]
  | |- awp (ir.add_ite _ _ _ _) _ _ _ _ => eapply awp_ite; [apply rdv_lookup; rdv|rdv|rdv|]
  | |- awp (mk_flags_pred _ _) _ _ _ _ => apply awp_flags_pred; [lia|intros ?r ?vs ?Hr ?He]
  | |- awp (mk_exit _ _) _ _ _ _ => eapply awp_mk_exit; [rdv|]
  end.

(** ** From an encoding to the body of its function *)

(** Comparisons of numerals, and the matches on them. *)
Ltac decide_tests :=
  repeat match goal with
  | |- context [Zpos ?p =? Zpos ?q] =>
      let v := eval vm_compute in (Zpos p =? Zpos q) in change (Zpos p =? Zpos q) with v
  | |- context [0 =? Zpos ?q] => change (0 =? Zpos q) with false
  | |- context [Zpos ?p =? 0] => change (Zpos p =? 0) with false
  | |- context [0 =? 0] => change (0 =? 0) with true
  | |- context [Zpos ?p <=? Zpos ?q] =>
      let v := eval vm_compute in (Zpos p <=? Zpos q) in change (Zpos p <=? Zpos q) with v
  end;
  cbv beta iota; cbn [negb andb orb].

(** Known fields, everywhere. *)
Ltac rewrite_fields :=
  unfold f_rd, f_rn, f_rm, f_ra;
  repeat match goal with
  | Hf : INSN _ _ _ = _ |- _ => progress rewrite ?Hf
  | Hf : INSN1 _ _ = _ |- _ => progress rewrite ?Hf
  end; decide_tests.

(** Forget the encoding, keep its fields. *)
Ltac with_fields F Hv :=
  let Hf := fresh "Hf" in
  pose proof Hv as Hf; apply F in Hf; cbv zeta in Hf;
  match type of Hf with context [encode ?i] => generalize dependent (encode i) end;
  intros ?e Hf; destruct_and! Hf.

(** Bounds in [valid], as inequalities. *)
Ltac open_valid Hv :=
  cbn [valid valid_mode] in Hv; unfold amount, reg, field in Hv;
  repeat match type of Hv with context [2 ^ Zpos ?k] =>
    let v := eval vm_compute in (2 ^ Zpos k) in progress change (2 ^ Zpos k) with v in Hv
  end.

(** State what the first part of a body leaves. *)
Ltac yielding v w :=
  lazymatch goal with
  | |- awp _ _ _ ?vs ?s => apply awp_mono with (Q := yields v w vs s)
  end.

(** ** What is proved of each instruction *)

Section correct.
Context `{HelperAddress} {ir_call : option irRegisterType -> Z -> Z -> list (option (irRegisterType * Z)) -> mem -> option (mem * Z)}.
Context {ctx : Z} (pc : Z).
Abbreviation awp := (awp (ir_call := ir_call) (ctx := ctx)).

(** What the translation of an instruction that ends in [s'] has to do,
    without a branch or with one. *)
Definition falls (s' : arm_state) : bool -> irValues -> arm_state -> Prop := fun isExit _ s'' => isExit = false /\ s'' = s'.

(** The translation of [i] at [pc] does what the architecture says: it goes on
    to the next instruction, or leaves the block. *)
Definition insn_correct (i : arm_insn) : Prop :=
  forall vs s s' t, valid i = true -> arm_exec (guest_accessible ctx) pc i s = Some (s', t) ->
  awp (disassemble_insn pc (encode i)) (fun isExit _ s'' => isExit = false /\ s'' = s' /\ t = None)
    (fun isExit v s'' => isExit = true /\ s'' = s' /\ t = Some v) vs s.

Lemma falls_correct g vs s s' :
  awp g (falls s') (fun _ _ _ => False) vs s ->
  awp g (fun isExit _ s'' => isExit = false /\ s'' = s' /\ None = @None Z)
    (fun isExit v s'' => isExit = true /\ s'' = s' /\ None = Some v) vs s.
Proof.
  intros Hg Hok m Hm. eapply gwp_mono; [by apply Hg| |].
  - cbn. intros a st' vs' m' (-> & Hok' & s2 & Hm' & -> & ->). eauto 10.
  - by intros a v m' (s2 & _ & []).
Qed.

Lemma awp_falls (g : gen bool) E vs s s1 s2 :
  awp g (falls s1) E vs s -> s1 = s2 -> awp g (falls s2) E vs s.
Proof. by intros ? <-. Qed.

End correct.

Ltac steps := repeat awp_step.

(** Decode an instruction, then go into the functions of the decoder. *)
Ltac start F :=
  intros vs s s' t Hv He; cbn [arm_exec] in He; apply Some_inj in He; apply pair_eq in He as [<- <-];
  with_fields F Hv; open_valid Hv;
  apply falls_correct; unfold disassemble_insn; rewrite_fields.
Tactic Notation "enter" reference(d) := unfold d; rewrite_fields.
