(* ===== verification/Arm64Alu.v ===== *)
(** * The front end is right on data processing instructions *)

From S2P Require Import Prelude Ir Jitter IrRequests FrontGen FrontWp ArmPseudo Arm64Gen Arm64Dis Arm64DisData Arm64Decode Arm64Helpers Arm64Isa Arm64Wp Arm64Sim Arm64Fields Arm64Rules.

Section alu.
Context `{HelperAddress} {ir_call ctx} `{!Arm64Calls ir_call ctx}.
Context {Hctx : ctx_ok ctx}.
Context (pc : Z).
Abbreviation awp := (awp (ir_call := ir_call) (ctx := ctx)).
Abbreviation insn_correct := (insn_correct (ir_call := ir_call) (ctx := ctx) pc).

Lemma awp_dis_add_sub (sf op st : bool) insn op1 op2 z x y rd vs s E :
  INSN1 insn 31 = sf -> INSN1 insn 30 = op -> INSN1 insn 29 = st -> INSN insn 4 0 = rd ->
  0 <= rd <= 31 -> rdv (width sf) vs op1 = Some x -> rdv (width sf) vs op2 = Some y ->
  awp (dis_add_sub pc insn op1 op2 z) (falls (add_sub sf op st (negb z) x y rd s)) E vs s.
Proof.
  intros H31 H30 H29 H4 Hrd Hx Hy. unfold dis_add_sub. cbv zeta. rewrite_fields.
  apply awp_ok. intros Hok. pose proof (rdv_range _ _ _ _ Hok Hx) as Hxr. pose proof (rdv_range _ _ _ _ Hok Hy) as Hyr.
  rewrite width_bits in *.
  apply awp_bind. eapply (awp_binop _ _ _ _ _ _ (AddWithCarry (datasize sf) x (if op then NOT (datasize sf) y else y) op).1).
  { exact Hx. }
  { destruct op; exact Hy. }
  { destruct op; cbn [irBinop_sem AddWithCarry fst Z.b2z]; rewrite width_bits; [|by rewrite Z.add_0_r].
    rewrite sub_is_add_not by (destruct sf; cbn; lia). done. }
  unfold falls, add_sub. destruct (AddWithCarry _ _ _ _) as [r f] eqn:Er. cbn [fst].
  apply awp_bind. destruct st.
  - apply awp_bind. eapply awp_next_nzcv; [destruct op; unfold OPS_SUB, OPS_ADD; lia|rdv|rdv|].
    intros n vs' fl Hn Hfl He. do 3 awp_step. split; [done|].
    cbn [gprz set_gprz ZERO_REG]. do 2 f_equal. rewrite Hfl.
    destruct op; cbn [ops_flags OPS_SUB OPS_ADD]; by rewrite Er.
  - do 3 awp_step. split; [done|]. by destruct z.
Qed.

(** ** Extended registers *)

Lemma unshifted_value (sf : bool) option x :
  0 <= option < 8 -> 0 <= x < 2 ^ datasize sf ->
  (match option with
   | 0 => Z.land x 0xff
   | 1 => Z.land x 0xffff
   | 2 => if sf then Z.land x 0xffffffff else x
   | 4 => ASR (datasize sf) (LSL (datasize sf) x (datasize sf - 8)) (datasize sf - 8)
   | 5 => ASR (datasize sf) (LSL (datasize sf) x (datasize sf - 16)) (datasize sf - 16)
   | 6 => if sf then ASR (datasize sf) (LSL (datasize sf) x (datasize sf - 32)) (datasize sf - 32) else x
   | _ => x
   end) = Extend (datasize sf) option x 0.
Proof.
  intros Ho Hx. unfold Extend. rewrite Z.pow_0_r, Z.mul_1_r. pose proof (datasize_range sf) as Hn.
  assert (Hl : forall len, 0 <= len <= datasize sf -> Z.land x (Z.ones len) = wrap (datasize sf) (wrap len x)).
  { intros len Hlen. rewrite wrap_land_ones by lia. symmetry. apply wrap_small. pose proof (wrap_range len x).
    assert (2 ^ len <= 2 ^ datasize sf) by (apply Z.pow_le_mono_r; lia). lia. }
  assert (Hs : forall len, 0 < len < datasize sf ->
    ASR (datasize sf) (LSL (datasize sf) x (datasize sf - len)) (datasize sf - len) = wrap (datasize sf) (to_signed len x))
    by (intros; by apply shift_up_and_back).
  assert (Hi : forall len, datasize sf <= len -> x = wrap (datasize sf) (wrap len x)).
  { intros len Hlen. rewrite wrap_wrap by lia. symmetry. by apply wrap_small. }
  assert (Hj : forall len, datasize sf <= len -> x = wrap (datasize sf) (to_signed len x)).
  { intros len Hlen. rewrite wrap_to_signed by lia. symmetry. by apply wrap_small. }
  assert (option = 0 \/ option = 1 \/ option = 2 \/ option = 3 \/ option = 4 \/ option = 5 \/ option = 6 \/ option = 7)
    as Hcase by lia.
  repeat destruct Hcase as [-> | Hcase]; subst; try apply (Hl 8); try apply (Hl 16); try apply (Hs 8); try apply (Hs 16);
    try apply (Hi 64); try apply (Hj 64); try lia.
  - destruct sf; [by apply (Hl 32)|by apply (Hi 32)].
  - destruct sf; [by apply (Hs 32)|by apply (Hj 32)].
Qed.

Lemma awp_extend_reg (sf : bool) rm option k vs s :
  0 <= rm <= 31 -> 0 <= option < 8 -> 0 <= k <= 4 ->
  awp (if sf then mk_extend_reg_64 rm option k else mk_extend_reg_32 rm option k)
    (yields (Extend (datasize sf) option (gpr (datasize sf) rm s) k) (width sf) vs s) never vs s.
Proof.
  intros Hrm Ho Hk.
  assert (Hsh : forall r vs' s', yields (Extend (datasize sf) option (gpr (datasize sf) rm s) 0) (width sf) vs s r vs' s' ->
    awp (if negb (k =? 0) then c ← mk_8 k; ir.add_binop SHL (width sf) r c else mret r)
      (yields (Extend (datasize sf) option (gpr (datasize sf) rm s) k) (width sf) vs s) never vs' s').
  { intros r vs' s' (Hr & He & ->). pose proof (datasize_range sf).
    destruct (Z.eqb_spec k 0) as [->|Hk0]; cbn [negb].
    - awp_step. by yields.
    - steps. yields. unfold Extend. rewrite Z.pow_0_r, Z.mul_1_r. by apply LSL_wrap; lia. }
  pose proof (gpr_range (datasize sf) rm s ltac:(destruct sf; cbn; lia)) as Hx.
  pose proof (fun o Ho => unshifted_value sf o _ Ho Hx) as Hv.
  assert (option = 0 \/ option = 1 \/ option = 2 \/ option = 3 \/ option = 4 \/ option = 5 \/ option = 6 \/ option = 7)
    as Hcase by lia.
  destruct sf.
  - unfold mk_extend_reg_64. apply awp_bind. eapply awp_mono; [|apply Hsh].
    repeat destruct Hcase as [-> | Hcase]; subst; cbv beta iota; steps; yields; by apply (Hv _ Ho).
  - unfold mk_extend_reg_32. apply awp_bind. eapply awp_mono; [|apply Hsh].
    repeat destruct Hcase as [-> | Hcase]; subst; cbv beta iota; steps; yields; by apply (Hv _ Ho).
Qed.

Lemma correct_AddSubImmediate sf op st sh imm12 rn rd :
  insn_correct (AddSubImmediate sf op st sh imm12 rn rd).
Proof.
  start fields_AddSubImmediate.
  enter dis_data_processing_immediate_insn. enter dis_add_sub_immediate_insn.
  destruct sh; cbn [Z.b2z] in *; decide_tests; rewrite ?Z.shiftl_mul_pow2 by lia.
  all: steps; eapply awp_falls; [eapply awp_dis_add_sub; [done..|lia|rdv|rdv]|].
  all: cbn [negb SP_REG gprz]; f_equal; apply wrap_small; destruct sf; cbn; lia.
Qed.

Lemma correct_AddSubShifted sf op st shift rm imm6 rn rd :
  insn_correct (AddSubShifted sf op st shift rm imm6 rn rd).
Proof.
  start fields_AddSubShifted.
  enter dis_data_processing_register_insn. enter dis_add_sub_shifted_register_insn.
  assert (imm6 < datasize sf) as Hi by (destruct sf; cbn in *; lia). pose proof (datasize_range sf).
  assert (shift = 0 \/ shift = 1 \/ shift = 2) as Hs by lia. steps.
  destruct (Z.eqb_spec imm6 0) as [->|Hne]; cbn [negb].
  - steps. eapply awp_falls; [eapply awp_dis_add_sub; [done..|lia|rdv|rdv]|].
    cbn [negb ZERO_REG gprz]. by rewrite Shift_0 by (try apply gpr_range; lia).
  - replace (negb sf && negb (imm6 <? 32)) with false by (destruct sf; cbn in *; lia).
    destruct Hs as [-> | [-> | ->]]; decide_tests; steps.
    all: eapply awp_falls; [eapply awp_dis_add_sub; [done..|lia|rdv|rdv]|done].
Qed.

Lemma correct_AddSubExtended sf op st rm option imm3 rn rd :
  insn_correct (AddSubExtended sf op st rm option imm3 rn rd).
Proof.
  start fields_AddSubExtended.
  enter dis_data_processing_register_insn. enter dis_add_sub_extended_register_insn.
  steps. eapply awp_mono; [apply awp_extend_reg; lia|]. intros r vs' s' (Hr & He & ->).
  eapply awp_dis_add_sub; [done..|lia|rdv|rdv].
Qed.

(** ** Carry *)

Lemma carry_bit f s : flags s = flags_of f -> Z.land (Z.shiftr f 29) 1 = Z.b2z (flagC (flags s)).
Proof. intros ->. by apply one_bit. Qed.

Lemma correct_AddSubCarry sf op st rm rn rd : insn_correct (AddSubCarry sf op st rm rn rd).
Proof.
  start fields_AddSubCarry.
  enter dis_data_processing_register_insn. enter dis_add_substract_with_carry.
  steps. eapply awp_mono; [apply awp_not; rdv|]. intros r vs1 s1 (Hr & He1 & ->).
  steps. yielding (Z.b2z (flagC (flags s))) (width sf).
  { destruct sf; steps; yields; rewrite <- (carry_bit f) by done; [|done].
    apply wrap_small. change (wrap (bits IR_REG_32) 1) with 1. rewrite (carry_bit f s) by done. by destruct (flagC _). }
  intros c vs2 s2 (Hc & He2 & ->). pose proof (datasize_range sf).
  set (y := if op then _ else _) in *. set (x := gpr (datasize sf) rn s).
  steps. destruct st.
  - steps. eapply awp_next_nzcv; [done|rdv|rdv|]. intros n vs3 fl Hn Hfl He3. steps.
    split; [done|]. rewrite Hfl, wrap_add_l. done.
  - steps. split; [done|]. by rewrite wrap_add_l.
Qed.

(** ** Moves and addresses *)

Lemma correct_MoveWide sf opc hw imm16 rd : insn_correct (MoveWide sf opc hw imm16 rd).
Proof.
  start fields_MoveWide. pose proof (datasize_range sf) as Hn.
  enter dis_data_processing_immediate_insn.
  assert (0 <= hw <= 3) as Hhw by (destruct sf; cbn in *; lia).
  assert (Hpos : Z.shiftl hw 4 = 16 * hw) by (rewrite Z.shiftl_mul_pow2 by lia; lia).
  assert (Himm : 0 <= Z.shiftl imm16 (16 * hw) < 2 ^ datasize sf).
  { rewrite Z.shiftl_mul_pow2 by lia.
    assert (hw = 0 \/ hw = 1 \/ hw = 2 \/ hw = 3) as Hc by lia.
    destruct sf; cbn in *; destruct Hc as [-> | [-> | [-> | ->]]]; lia. }
  assert (opc = 0 \/ opc = 2 \/ opc = 3) as Ho by lia.
  destruct Ho as [-> | [-> | ->]]; decide_tests.
  - enter dis_movn. rewrite Hpos. steps. split; [done|]. cbn [set_gprz ZERO_REG]. f_equal.
    unfold NOT. set (i := Z.shiftl _ _) in *. unfold Z.lnot, wrap. rewrite Z.ones_equiv.
    symmetry. apply Z.mod_unique with (-1); lia.
  - enter dis_movz. rewrite Hpos. steps. split; [done|]. cbn [set_gprz ZERO_REG]. f_equal.
    by apply wrap_small.
  - enter dis_movk. rewrite Hpos. steps. split; [done|]. cbn [set_gprz gprz ZERO_REG bits]. f_equal.
    rewrite <- (gpr_low (datasize sf) rd s) by lia. apply Z.bits_inj'. intros i Hi. rewrite !testbit_wrap by lia.
    rewrite !Z.lor_spec, Z.land_spec, Z.ldiff_spec, !testbit_wrap, Z.lnot_spec by lia.
    destruct (Z.ltb_spec i (datasize sf)).
    + by rewrite (proj2 (Z.ltb_lt i 64)) by lia.
    + by rewrite (range_testbit (datasize sf) (Z.shiftl imm16 _)) by lia.
Qed.

Lemma page_of pc' : Z.land pc' (wrap 64 (Z.lnot 0xfff)) = wrap 64 (pc' - pc' mod 2 ^ 12).
Proof.
  replace (pc' - pc' mod 2 ^ 12) with (Z.ldiff pc' (Z.ones 12)).
  - change 0xfff with (Z.ones 12). apply Z.bits_inj'. intros i Hi.
    rewrite Z.land_spec, !testbit_wrap, Z.ldiff_spec, Z.lnot_spec by lia.
    by destruct (Z.testbit pc' i), (i <? 64).
  - rewrite Z.ldiff_ones_r by lia. rewrite Z.shiftr_div_pow2, Z.shiftl_mul_pow2 by lia.
    rewrite (Z.div_mod pc' (2 ^ 12)) at 2 by lia. lia.
Qed.

Lemma correct_PcRelative page immlo immhi rd : insn_correct (PcRelative page immlo immhi rd).
Proof.
  start fields_PcRelative.
  enter dis_data_processing_immediate_insn.
  replace (match immhi / 2 ^ 18 with 0 | 1 => _ | _ => _ end) with (if page then dis_adrp pc e else dis_adr pc e)
    by (assert (immhi / 2 ^ 18 = 0 \/ immhi / 2 ^ 18 = 1) as [-> | ->] by (Z.div_mod_to_equations; lia); done).
  destruct page; [enter dis_adrp|enter dis_adr]; steps; (split; [done|]); cbn [set_gprz ZERO_REG bits]; f_equal.
  - rewrite page_of, wrap_add_l. rewrite !Z.shiftl_mul_pow2 by lia. unfold SignExtend, sign_extend. do 3 f_equal. lia.
  - rewrite !Z.shiftl_mul_pow2 by lia. unfold SignExtend, sign_extend. done.
Qed.

(** ** Logical operations *)

Lemma logical_wrap n opc x y : 0 <= n -> wrap n (logical opc x y) = logical opc (wrap n x) (wrap n y).
Proof.
  intros Hn. unfold logical. repeat case_match; auto using wrap_bits_land, wrap_bits_lor, wrap_bits_lxor.
Qed.

Lemma awp_logical_binop opc r1 r2 x y vs s :
  0 <= opc < 4 -> rdv IR_REG_64 vs r1 = Some x -> rdv IR_REG_64 vs r2 = Some y ->
  awp (ir.add_binop (logical_binop opc) IR_REG_64 r1 r2) (yields (logical opc x y) IR_REG_64 vs s) never vs s.
Proof.
  intros Ho H1 H2. assert (opc = 0 \/ opc = 1 \/ opc = 2 \/ opc = 3) as Hc by lia.
  destruct Hc as [-> | [-> | [-> | ->]]]; (eapply awp_binop; [exact H1|exact H2|reflexivity|by yields]).
Qed.

(** The flags and the destination. *)
Lemma awp_logical_tail (sf b z : bool) res v rd vs s E :
  0 <= rd <= 31 -> rdv IR_REG_64 vs res = Some v ->
  awp ((if b then set_flags_logical pc sf res else mret tt);; write_x_or_low sf rd res z;; mret false)
    (falls (set_gprz rd (wrap (datasize sf) v) z
              (if b then set_flags (logical_flags (datasize sf) (wrap (datasize sf) v)) s else s))) E vs s.
Proof.
  intros Hrd Hr. apply awp_ok. intros Hok. pose proof (rdv_range _ _ _ _ Hok Hr) as Hv. cbn [bits] in Hv.
  destruct b; [|by steps]. steps. unfold set_flags_logical. steps. destruct sf; cbn [datasize]; steps.
  - eapply (awp_next_nzcv (ctx := ctx) pc true OPS_LOGICAL); [done|rdv|rdv|].
    intros n vs' f Hn Hf He. steps. split; [done|]. rewrite Hf. cbn. by rewrite (wrap_small 64).
  - eapply (awp_next_nzcv (ctx := ctx) pc false OPS_LOGICAL); [done|rdv|rdv|].
    intros n vs' f Hn Hf He. steps. split; [done|]. by rewrite Hf.
Qed.

(** All immediates. *)
Definition immediate_agrees (sf n : bool) (imms immr : Z) : bool :=
  if valid (LogicalImmediate sf 0 n immr imms 0 0)
  then let imm := (DecodeBitMasks (datasize sf) n imms immr).1 in
       (logical_immediate sf (Z.b2z n) immr imms =? imm) && (0 <=? imm) && (imm <? 2 ^ datasize sf)
  else true.

Lemma immediates_agree sf n : forallb (fun imms => forallb (immediate_agrees sf n imms) (upto 64)) (upto 64) = true.
Proof. destruct sf, n; vm_compute; reflexivity. Qed.

Lemma immediate_value sf n imms immr :
  0 <= imms < 64 -> 0 <= immr < 64 -> valid (LogicalImmediate sf 0 n immr imms 0 0) = true ->
  let imm := (DecodeBitMasks (datasize sf) n imms immr).1 in
  logical_immediate sf (Z.b2z n) immr imms = imm /\ 0 <= imm < 2 ^ datasize sf.
Proof.
  intros Hs Hr Hv. pose proof (forallb_upto _ _ imms (immediates_agree sf n) Hs) as H1.
  apply (forallb_upto _ _ immr) in H1; [|done]. unfold immediate_agrees in H1. rewrite Hv in H1. lia.
Qed.

Lemma correct_LogicalImmediate sf opc n immr imms rn rd :
  insn_correct (LogicalImmediate sf opc n immr imms rn rd).
Proof.
  start fields_LogicalImmediate. pose proof (datasize_range sf) as Hn.
  enter dis_data_processing_immediate_insn. enter dis_logical_immediate.
  destruct (immediate_value sf n imms immr) as [-> Hi]; [lia|lia| |].
  { cbn [valid]. unfold reg, field. field_numerals. destruct n; cbv iota in *; clear -Hv;
      repeat rewrite ?andb_true_iff in *; repeat split; first [tauto|lia]. }
  set (imm := (DecodeBitMasks _ _ _ _).1) in *.
  steps. eapply awp_mono; [apply awp_logical_binop; [lia|rdv|rdv]|]. intros r vs1 s1 (Hr & He & ->).
  eapply awp_falls; [apply awp_logical_tail; [lia|done]|].
  rewrite logical_wrap by lia. rewrite (wrap_wrap _ (bits IR_REG_64)) by (cbn; lia).
  unfold logical_op. cbn [gprz ZERO_REG]. rewrite gpr_low, (wrap_small (datasize sf) imm) by lia.
  by destruct (opc =? 3).
Qed.
End alu.

(** * The front end is right on data processing instructions: logical
      operations on registers, selection, shifts, products *)

Section select.
Context `{HelperAddress} {ir_call ctx} `{!Arm64Calls ir_call ctx}.
Context {Hctx : ctx_ok ctx}.
Context (pc : Z).
Abbreviation awp := (awp (ir_call := ir_call) (ctx := ctx)).
Abbreviation insn_correct := (insn_correct (ir_call := ir_call) (ctx := ctx) pc).

(** The shifted operand, of which a 32-bit instruction uses the low half. *)
Lemma awp_shifted_operand (sf : bool) shift rm imm6 vs s :
  0 <= rm <= 31 -> 0 <= shift < 4 -> 0 <= imm6 < datasize sf ->
  awp (if negb (imm6 =? 0) then
         match shift with
         | 0 => r ← read_x rm ZERO_REG; k ← mk_8 imm6; ir.add_binop SHL IR_REG_64 r k
         | 1 => if sf then r ← read_x rm ZERO_REG; k ← mk_8 imm6; ir.add_binop SHR IR_REG_64 r k
                else r ← read_w rm ZERO_REG; k ← mk_8 imm6; t ← ir.add_binop SHR IR_REG_32 r k;
                     ir.add_cast IR_CAST_32U_TO_64 t
         | 2 => if sf then r ← read_x rm ZERO_REG; k ← mk_8 imm6; ir.add_binop Ir.ASR IR_REG_64 r k
                else r ← read_w rm ZERO_REG; k ← mk_8 imm6; t ← ir.add_binop Ir.ASR IR_REG_32 r k;
                     ir.add_cast IR_CAST_32U_TO_64 t
         | _ => if sf then r ← read_x rm ZERO_REG; k ← mk_8 imm6; ir.add_binop Ir.ROR IR_REG_64 r k
                else r ← read_w rm ZERO_REG; k ← mk_8 imm6; t ← ir.add_binop Ir.ROR IR_REG_32 r k;
                     ir.add_cast IR_CAST_32U_TO_64 t
         end
       else read_x rm ZERO_REG)
    (fun r vs' s' => exists y, yields y IR_REG_64 vs s r vs' s' /\
       wrap (datasize sf) y = Shift (datasize sf) shift (gpr (datasize sf) rm s) imm6) never vs s.
Proof.
  intros Hrm Hs Hi. pose proof (datasize_range sf) as Hn.
  destruct (Z.eqb_spec imm6 0) as [->|H0]; cbn [negb].
  - awp_step. eexists. split; [by yields|]. cbn [gprz ZERO_REG]. rewrite gpr_low by lia.
    by rewrite Shift_0 by (try apply gpr_range; lia).
  - assert (shift = 0 \/ shift = 1 \/ shift = 2 \/ shift = 3) as Hc by lia.
    repeat destruct Hc as [-> | Hc]; subst; cbv beta iota; destruct sf; cbn [datasize] in *.
    all: steps; eexists; (split; [by yields|]); cbn [gprz ZERO_REG Shift bits].
    + by apply wrap_idem.
    + unfold LSL. rewrite wrap_wrap by lia. rewrite wrap_shiftl by lia. by rewrite gpr_low by lia.
    + apply wrap_small, shiftr_range; [lia|by apply gpr_range].
    + unfold irCast_sem. cbn [cast_signed cast_dst bits]. rewrite wrap_wrap by lia.
      apply wrap_small, shiftr_range; [lia|by apply gpr_range].
    + by apply wrap_idem.
    + unfold irCast_sem. cbn [cast_signed cast_dst bits]. rewrite wrap_wrap by lia. by apply wrap_idem.
    + by apply wrap_idem.
    + unfold irCast_sem. cbn [cast_signed cast_dst bits]. rewrite wrap_wrap by lia. by apply wrap_idem.
Qed.

Lemma correct_LogicalShifted sf opc shift n rm imm6 rn rd :
  insn_correct (LogicalShifted sf opc shift n rm imm6 rn rd).
Proof.
  start fields_LogicalShifted. pose proof (datasize_range sf) as Hn.
  enter dis_data_processing_register_insn. enter dis_logical_shifted_register.
  apply awp_bind. eapply awp_mono.
  { apply awp_shifted_operand; [lia..|]. destruct sf; cbn in *; lia. }
  intros r vs1 s1 (y & (Hr & He1 & ->) & Hy). apply awp_bind. eapply awp_mono.
  { apply (awp_not (ctx := ctx) true n). exact Hr. }
  intros r2 vs2 s2 (Hr2 & He2 & ->).
  steps. eapply awp_mono; [apply awp_logical_binop; [lia|rdv|rdv]|]. intros r3 vs3 s3 (Hr3 & He3 & ->).
  eapply awp_falls; [apply awp_logical_tail; [lia|done]|].
  rewrite logical_wrap by lia. cbn [gprz ZERO_REG]. rewrite gpr_low by lia.
  replace (wrap (datasize sf) (if n then NOT (datasize true) y else y)) with
    (if n then NOT (datasize sf) (wrap (datasize sf) y) else wrap (datasize sf) y)
    by (destruct n; [cbn [datasize]; by rewrite wrap_NOT by lia|done]).
  rewrite Hy. unfold logical_op. by destruct (opc =? 3).
Qed.

(** ** Selection and conditional comparison *)

Lemma awp_cond_select (sf : bool) insn op2 cond rn rd y vs s E :
  INSN1 insn 31 = sf -> INSN insn 15 12 = cond -> INSN insn 9 5 = rn -> INSN insn 4 0 = rd ->
  0 <= cond < 16 -> 0 <= rn <= 31 -> 0 <= rd <= 31 -> rdv IR_REG_64 vs op2 = Some y ->
  awp (dis_cond_select pc insn op2)
    (falls (set_gpr rd (if ConditionHolds cond (flags s) then gpr (datasize sf) rn s else wrap (datasize sf) y) s)) E vs s.
Proof.
  intros. unfold dis_cond_select. rewrite_fields. steps. split; [done|]. cbn [set_gprz gprz ZERO_REG]. f_equal.
  destruct (ConditionHolds cond (flags s)); cbn [Z.b2z]; [|done]. cbn. apply gpr_low. destruct sf; cbn; lia.
Qed.

Lemma correct_ConditionalSelect sf op rm cond o2 rn rd :
  insn_correct (ConditionalSelect sf op rm cond o2 rn rd).
Proof.
  start fields_ConditionalSelect. pose proof (datasize_range sf) as Hn.
  enter dis_data_processing_register_insn. enter dis_conditional_select.
  destruct op, o2; cbn [Z.b2z] in *; decide_tests.
  - enter dis_csneg. steps. eapply awp_falls; [eapply awp_cond_select; [done..|lia|lia|lia|rdv]|].
    cbn [gprz ZERO_REG bits]. do 2 f_equal. destruct (ConditionHolds _ _); [done|].
    rewrite wrap_wrap by lia. change (wrap 64 0) with 0.
    change (NOT _ _ + 1) with (0 + NOT (datasize sf) (gpr (datasize sf) rm s) + 1).
    rewrite sub_is_add_not by lia. rewrite <- (gpr_low (datasize sf)) by lia. by rewrite wrap_sub_r.
  - enter dis_csinv. steps. eapply awp_falls; [eapply awp_cond_select; [done..|lia|lia|lia|rdv]|].
    cbn [gprz ZERO_REG bits]. do 2 f_equal. destruct (ConditionHolds _ _); [done|].
    change (wrap 64 (Z.lnot 0)) with (Z.ones 64). rewrite NOT_lxor, wrap_NOT, gpr_low by (lia || by apply gpr_range). done.
  - enter dis_csinc. steps. eapply awp_falls; [eapply awp_cond_select; [done..|lia|lia|lia|rdv]|].
    cbn [gprz ZERO_REG bits]. do 2 f_equal. destruct (ConditionHolds _ _); [done|].
    rewrite wrap_wrap by lia. rewrite <- wrap_add_l, gpr_low by lia. done.
  - enter dis_csel. steps. eapply awp_falls; [eapply awp_cond_select; [done..|lia|lia|lia|rdv]|].
    cbn [gprz ZERO_REG]. do 2 f_equal. by rewrite gpr_low by lia.
Qed.

Lemma awp_ccmp (sf op : bool) insn op2 cond rn fl y vs s E :
  INSN1 insn 31 = sf -> INSN1 insn 30 = op -> INSN insn 15 12 = cond -> INSN insn 9 5 = rn -> INSN insn 4 0 = fl ->
  0 <= cond < 16 -> 0 <= rn <= 31 -> 0 <= fl < 16 -> rdv (width sf) vs op2 = Some y ->
  awp (dis_ccmp_A_ccmn pc insn op2)
    (falls (set_flags (if ConditionHolds cond (flags s)
       then (AddWithCarry (datasize sf) (gpr (datasize sf) rn s) (if op then NOT (datasize sf) y else y) op).2
       else mkFlags (Z.testbit fl 3) (Z.testbit fl 2) (Z.testbit fl 1) (Z.testbit fl 0)) s)) E vs s.
Proof.
  intros. unfold dis_ccmp_A_ccmn. rewrite_fields. steps.
  eapply (awp_nzcv_call (ctx := ctx) pc sf (if op then OPS_SUB else OPS_ADD)); [by destruct op|rdv|by destruct op; rdv|rdv|rdv|rdv|done|].
  intros r1 vs1 v Hv Hvf He1. steps. split; [done|]. f_equal.
  destruct (ConditionHolds cond (flags s)); cbn [Z.b2z Z.eqb]; [rewrite Hvf; by destruct op|].
  cbn [bits]. rewrite wrap_small by (rewrite Z.shiftl_mul_pow2 by lia; lia).
  unfold flags_of. rewrite !Z.shiftl_spec by lia. done.
Qed.

Lemma correct_ConditionalCompare sf op imm rm cond rn fl :
  insn_correct (ConditionalCompare sf op imm rm cond rn fl).
Proof.
  start fields_ConditionalCompare. pose proof (datasize_range sf) as Hn.
  enter dis_data_processing_register_insn. destruct imm.
  - enter dis_ccmp_A_ccmn_immediate. steps. eapply awp_falls; [eapply awp_ccmp; [done..|lia|lia|lia|rdv]|].
    rewrite wrap_small; [done|]. destruct sf; cbn; lia.
  - enter dis_ccmp_A_ccmn_register. steps. eapply awp_ccmp; [done..|lia|lia|lia|rdv].
Qed.
End select.
