(* ===== verification/Arm64Bits.v ===== *)
(** * The front end is right on data processing instructions: variable
      shifts, products, bit fields, reversals *)

From S2P Require Import Prelude Ir Jitter IrRequests FrontGen FrontWp ArmPseudo Arm64Gen Arm64Dis Arm64DisData Arm64Decode Arm64Helpers Arm64Isa Arm64Wp Arm64Sim Arm64Fields Arm64Rules Arm64Alu.

Section shifts.
Context `{HelperAddress} {ir_call ctx} `{!Arm64Calls ir_call ctx}.
Context {Hctx : ctx_ok ctx}.
Context (pc : Z).
Abbreviation awp := (awp (ir_call := ir_call) (ctx := ctx)).
Abbreviation insn_correct := (insn_correct (ir_call := ir_call) (ctx := ctx) pc).

(** ** Variable shifts *)

Lemma amount_mod sf i s : gpr (datasize sf) i s mod datasize sf = Z.land (gpr 64 i s) (datasize sf - 1).
Proof.
  rewrite <- gpr_low by (destruct sf; cbn; lia). generalize (gpr 64 i s). intros x.
  destruct sf; cbn [datasize].
  - change (64 - 1) with (Z.ones 6). rewrite Z.land_ones by lia. apply (wrap_wrap 6 64). lia.
  - change (32 - 1) with (Z.ones 5). rewrite Z.land_ones by lia. apply (wrap_wrap 5 32). lia.
Qed.

Lemma awp_shift_amount (sf : bool) rm vs s :
  0 <= rm <= 31 ->
  awp (shift_amount rm (if sf then 0x3f else 0x1f))
    (yields (gpr (datasize sf) rm s mod datasize sf) IR_REG_8 vs s) never vs s.
Proof.
  intros Hrm. unfold shift_amount. steps. yields. rewrite amount_mod.
  replace (wrap (bits IR_REG_64) (if sf then 0x3f else 0x1f)) with (datasize sf - 1) by (by destruct sf).
  unfold irCast_sem. cbn [cast_signed cast_dst bits gprz ZERO_REG]. rewrite <- amount_mod.
  pose proof (Z.mod_pos_bound (gpr (datasize sf) rm s) (datasize sf)). pose proof (datasize_range sf).
  apply wrap_small. lia.
Qed.

Lemma correct_ShiftVariable sf op2 rm rn rd : insn_correct (ShiftVariable sf op2 rm rn rd).
Proof.
  start fields_ShiftVariable. pose proof (datasize_range sf) as Hn.
  enter dis_data_processing_register_insn. enter dis_data_processing_2_source.
  pose proof (Z.mod_pos_bound (gpr (datasize sf) rm s) (datasize sf) ltac:(lia)) as Hk.
  assert (op2 = 0 \/ op2 = 1 \/ op2 = 2 \/ op2 = 3) as Hc by lia.
  destruct Hc as [-> | [-> | [-> | ->]]]; znum; cbv beta iota.
  all: [> enter dis_lslv|enter dis_lsrv|enter dis_asrv|enter dis_rorv].
  all: steps;
    (eapply awp_mono; [apply awp_shift_amount; lia|]); intros r vs1 s1 (Hr & He & ->); steps;
    (split; [done|]); cbn [set_gprz gprz ZERO_REG bits]; f_equal; cbn [Shift].
  - rewrite wrap_wrap by lia. unfold LSL. rewrite wrap_shiftl by lia. by rewrite gpr_low by lia.
  - replace (Z.land (gpr 64 rn s) _) with (gpr (datasize sf) rn s).
    + apply wrap_small, shiftr_range; [lia|apply gpr_range; lia].
    + rewrite <- (gpr_low (datasize sf)) by lia. rewrite <- wrap_land_ones by lia. by destruct sf.
Qed.

(** ** Divisions of 32 bits *)

Lemma sdiv_value x y :
  0 <= x < 2 ^ 32 -> 0 <= y < 2 ^ 32 -> hlp_sdiv 32 x y = divide 32 true x y.
Proof.
  intros Hx Hy. unfold hlp_sdiv, divide.
  assert (Hb : (to_signed 32 y =? 0) = (y =? 0)).
  { rewrite to_signed_bit by lia. destruct (Z.leb_spec (2 ^ (32 - 1)) y); lia. }
  rewrite Hb. destruct (Z.eqb_spec x (2 ^ (32 - 1))) as [->|], (Z.eqb_spec y (Z.ones 32)) as [->|]; cbn [andb]; try done;
    by destruct (y =? 0).
Qed.

Lemma divide_range signed x y : 0 <= x < 2 ^ 32 -> 0 <= y < 2 ^ 32 -> 0 <= divide 32 signed x y < 2 ^ 32.
Proof.
  intros Hx Hy. unfold divide. destruct signed, (Z.eqb_spec y 0); try lia; [by apply (wrap_range 32)|].
  split; [apply Z.div_pos; lia|]. apply Z.div_lt_upper_bound; nia.
Qed.

Lemma correct_Divide32 signed rm rn rd : insn_correct (Divide32 signed rm rn rd).
Proof.
  start fields_Divide32.
  enter dis_data_processing_register_insn. enter dis_data_processing_2_source.
  assert (Hx := gpr_range 32 rn s ltac:(lia)). assert (Hy := gpr_range 32 rm s ltac:(lia)).
  destruct signed; cbn [Z.b2z]; znum; cbv beta iota; [enter dis_sdiv|enter dis_udiv]; enter dis_div;
    cbn [read_xw write_xw]; steps.
  - eapply (awp_helper (ctx := ctx) pc IR_REG_32 arm64_hlp_sdiv_32); [rdv|params|reflexivity| |].
    { cbn [gprz ZERO_REG]. rewrite sdiv_value by done. by apply (divide_range true). }
    intros r vs1 Hr He. steps. split; [done|]. cbn [gprz set_gprz ZERO_REG]. by rewrite sdiv_value.
  - eapply (awp_helper (ctx := ctx) pc IR_REG_32 arm64_hlp_udiv_32); [rdv|params|reflexivity| |].
    { cbn [gprz ZERO_REG]. unfold hlp_udiv. pose proof (divide_range false _ _ Hx Hy) as Hd. unfold divide in Hd.
      by destruct (_ =? 0). }
    intros r vs1 Hr He. steps. split; [done|]. cbn [gprz set_gprz ZERO_REG]. unfold hlp_udiv, divide.
    by destruct (_ =? 0).
Qed.

(** ** Products *)

Lemma awp_call2 w h p1 p2 x y v Q E vs s :
  rdv w vs p1 = Some x -> rdv w vs p2 = Some y ->
  pure_helper h [Some (w, x); Some (w, y); None; None] = Some (w, v) -> 0 <= v < 2 ^ bits w ->
  (forall r vs', rdv w vs' r = Some v -> extends vs vs' -> Q r vs' s) ->
  awp (mk_call2 pc w h p1 p2) Q E vs s.
Proof.
  intros H1 H2 Hh Hv HQ. unfold mk_call2. steps. eapply awp_helper; [rdv|params|exact Hh|done|].
  intros r vs' Hr He. apply HQ; [done|]. intros t r' x' Hr'. apply He. rdv.
Qed.

Lemma awp_mul_lsb (sf : bool) p1 p2 x y Q E vs s :
  rdv (width sf) vs p1 = Some x -> rdv (width sf) vs p2 = Some y ->
  (forall r vs', rdv (width sf) vs' r = Some (wrap (datasize sf) (x * y)) -> extends vs vs' -> Q r vs' s) ->
  awp (if sf then mk_mul_u_lsb_64 pc p1 p2 else mk_mul_u_lsb_32 pc p1 p2) Q E vs s.
Proof.
  intros H1 H2 HQ. destruct sf; (eapply awp_call2; [exact H1|exact H2|reflexivity| |exact HQ]);
    by apply wrap_range.
Qed.

Lemma correct_MultiplyAdd sf o0 rm ra rn rd : insn_correct (MultiplyAdd sf o0 rm ra rn rd).
Proof.
  start fields_MultiplyAdd.
  enter dis_data_processing_register_insn. enter dis_data_processing_3_source.
  destruct o0; cbn [Z.b2z]; change (Z.lor (Z.shiftl 0 1) 1) with 1; change (Z.lor (Z.shiftl 0 1) 0) with 0; cbv iota;
    [enter dis_msub|enter dis_madd]; enter dis_mul_add; steps.
  all: eapply awp_mul_lsb; [rdv|rdv|]; intros r vs1 Hr He; steps; (split; [done|]); cbn [gprz set_gprz ZERO_REG]; f_equal.
  all: by rewrite ?wrap_sub_r, ?wrap_add_r.
Qed.

Lemma signed_factor a : to_signed 64 (irCast_sem IR_CAST_32S_TO_64 a) = to_signed 32 a.
Proof.
  unfold irCast_sem. cbn [cast_signed cast_dst cast_src bits].
  pose proof (to_signed_bounds 32 a). by rewrite to_signed_eq by lia.
Qed.

Lemma correct_MultiplyAddLong u o0 rm ra rn rd : insn_correct (MultiplyAddLong u o0 rm ra rn rd).
Proof.
  start fields_MultiplyAddLong.
  enter dis_data_processing_register_insn. enter dis_data_processing_3_source.
  assert (Hu : forall x, 0 <= x < 2 ^ 32 -> irCast_sem IR_CAST_32U_TO_64 x = x).
  { intros x Hx. unfold irCast_sem. cbn [cast_signed cast_dst bits]. apply wrap_small. lia. }
  destruct u, o0; cbn [Z.b2z]; match goal with |- context [Z.lor ?a ?b] => let v := eval vm_compute in (Z.lor a b) in
    change (Z.lor a b) with v end; cbv iota.
  all: [> enter dis_umsubl|enter dis_umaddl|enter dis_smsubl|enter dis_smaddl].
  all: unfold dis_mul_add_long; rewrite_fields; steps; (eapply awp_call2; [rdv|rdv|reflexivity| |]).
  all: try (by apply (wrap_range 64)).
  all: intros r vs1 Hr He; steps; (split; [done|]); cbn [gprz set_gprz ZERO_REG bits]; f_equal.
  all: unfold hlp_umul_lsb, hlp_smul_lsb_64; rewrite ?wrap_sub_r, ?wrap_add_r, ?signed_factor, ?Hu by (by apply gpr_range).
  all: done.
Qed.

Lemma correct_MultiplyHigh u rm rn rd : insn_correct (MultiplyHigh u rm rn rd).
Proof.
  start fields_MultiplyHigh.
  enter dis_data_processing_register_insn. enter dis_data_processing_3_source.
  assert (Hr : 0 <= Z.shiftr (gpr 64 rn s * gpr 64 rm s) 64 < 2 ^ 64).
  { pose proof (gpr_range 64 rn s ltac:(lia)). pose proof (gpr_range 64 rm s ltac:(lia)).
    rewrite Z.shiftr_div_pow2 by lia. split; [apply Z.div_pos; nia|apply Z.div_lt_upper_bound; nia]. }
  destruct u; cbn [Z.b2z]; match goal with |- context [Z.lor ?a ?b] => let v := eval vm_compute in (Z.lor a b) in
    change (Z.lor a b) with v end; cbv iota.
  - enter dis_umulh. steps. eapply awp_call2; [rdv|rdv|reflexivity|exact Hr|].
    intros r vs1 Hr1 He. steps. split; [done|]. cbn [gprz set_gprz ZERO_REG]. f_equal. symmetry. by apply wrap_small.
  - enter dis_smulh. steps. eapply awp_call2; [rdv|rdv|reflexivity|by apply (wrap_range 64)|].
    intros r vs1 Hr1 He. steps. by split.
Qed.

(** ** Extraction *)

Lemma extract_value n x y k :
  0 < n -> 0 <= x < 2 ^ n -> 0 <= y < 2 ^ n -> 0 < k < n ->
  Z.lor (Z.shiftr y k) (wrap n (Z.shiftl x (n - k))) = wrap n (Z.shiftr (x * 2 ^ n + y) k).
Proof.
  intros Hn Hx Hy Hk. rewrite <- Z.shiftl_mul_pow2 by lia.
  replace (Z.shiftl x n + y) with (Z.lor (Z.shiftl x n) y).
  2:{ rewrite Z.add_nocarry_lxor; [symmetry; apply Z.lxor_lor|].
      all: apply Z.bits_inj'; intros i Hi; rewrite Z.land_spec, Z.testbit_0_l.
      all: destruct (Z.ltb_spec i n); [by rewrite Z.shiftl_spec_low by lia|].
      all: by rewrite (range_testbit n y), andb_false_r by lia. }
  apply Z.bits_inj'. intros i Hi. rewrite Z.lor_spec, !testbit_wrap, !Z.shiftr_spec, Z.lor_spec, !Z.shiftl_spec by lia.
  destruct (Z.ltb_spec i n).
  - cbn [andb]. rewrite orb_comm. do 2 f_equal. lia.
  - cbn [andb]. rewrite orb_false_r. by apply (range_testbit n); [|lia].
Qed.

Lemma correct_Extract sf rm imms rn rd : insn_correct (Extract sf rm imms rn rd).
Proof.
  start fields_Extract. pose proof (datasize_range sf) as Hn.
  assert (0 <= imms < datasize sf) as Hk by (destruct sf; cbn in *; lia).
  enter dis_data_processing_immediate_insn. enter dis_extr.
  change (if sf then 64 else 32) with (datasize sf).
  assert (Hx := gpr_range (datasize sf) rm s ltac:(lia)).
  destruct (Z.eqb_spec rn rm) as [->|Hne].
  - unfold mk_ror_imm. steps. split; [done|]. cbn [gprz set_gprz ZERO_REG]. f_equal.
    destruct (Z.eq_dec imms 0) as [->|Hi0].
    + change (wrap _ (Z.lor _ _)) with (Shift (datasize sf) 3 (gpr (datasize sf) rm s) 0). rewrite Shift_0 by lia.
      rewrite Z.shiftr_0_r. unfold wrap.
      rewrite Z.add_comm, Z.mod_add by lia. symmetry. by apply Z.mod_small.
    + rewrite <- extract_value by lia. rewrite wrap_bits_lor by lia. f_equal.
      apply wrap_small, shiftr_range; lia.
  - assert (imms <> 0) as Hi0 by lia.
    replace (negb sf && negb (imms <? 32)) with false by (destruct sf; cbn in *; lia).
    steps. split; [done|]. cbn [gprz set_gprz ZERO_REG]. f_equal.
    apply extract_value; try lia. apply gpr_range. lia.
Qed.
End shifts.

(** ** Bit fields *)

(** The mask of the helper is [wmask AND tmask], the bits above the field are
    those out of [tmask]. *)
Definition bitfield_agrees (sf : bool) (R S : Z) : bool :=
  let n := datasize sf in
  let '(mask, diff) := bitfield_mask n R S in
  let '(wmask, tmask) := DecodeBitMasks n sf S R in
  if (R <? n) && (S <? n)
  then (wrap n mask =? Z.land wmask tmask) && (wrap n (bitfield_topbits n diff) =? NOT n tmask)
       && (0 <=? tmask) && (tmask <? 2 ^ n) && (0 <=? wmask) && (wmask <? 2 ^ n)
       && (0 <=? mask) && (mask <? 2 ^ 64)
  else true.

Lemma bitfields_agree sf : forallb (fun R => forallb (bitfield_agrees sf R) (upto 64)) (upto 64) = true.
Proof. destruct sf; vm_compute; reflexivity. Qed.

Lemma bitfield_masks (sf : bool) R S mask diff wmask tmask :
  0 <= R < datasize sf -> 0 <= S < datasize sf ->
  bitfield_mask (datasize sf) R S = (mask, diff) -> DecodeBitMasks (datasize sf) sf S R = (wmask, tmask) ->
  wrap (datasize sf) mask = Z.land wmask tmask /\
  wrap (datasize sf) (bitfield_topbits (datasize sf) diff) = NOT (datasize sf) tmask /\
  0 <= tmask < 2 ^ datasize sf /\ 0 <= wmask < 2 ^ datasize sf /\ 0 <= mask < 2 ^ 64.
Proof.
  intros HR HS Hm Hd. pose proof (datasize_range sf).
  assert (H1 := forallb_upto _ _ R (bitfields_agree sf) ltac:(lia)). cbv beta in H1.
  apply (forallb_upto _ _ S) in H1; [|lia]. unfold bitfield_agrees in H1. rewrite Hm, Hd in H1.
  destruct (Z.ltb_spec R (datasize sf)), (Z.ltb_spec S (datasize sf)); try lia. cbn [andb] in H1. lia.
Qed.

(** The rotation, on the low bits. *)
Lemma rotate_value (sf : bool) x R :
  0 <= R < datasize sf -> 0 <= x < 2 ^ datasize sf ->
  wrap (datasize sf) (Z.lor (Z.shiftr x R) (shl64 x (datasize sf - R))) = ROR (datasize sf) x R.
Proof.
  intros HR Hx. pose proof (datasize_range sf) as Hn. destruct (Z.eq_dec R 0) as [->|HR0].
  - change (ROR (datasize sf) x 0) with (Shift (datasize sf) 3 x 0). rewrite Shift_0 by lia.
    rewrite Z.shiftr_0_r, Z.sub_0_r, wrap_bits_lor by lia. unfold shl64. rewrite wrap_wrap by lia.
    destruct sf; cbn [datasize] in *.
    + change (Z.land 64 63) with 0. rewrite Z.shiftl_0_r, Z.lor_diag. by apply wrap_small.
    + change (Z.land 32 63) with 32. rewrite Z.shiftl_mul_pow2 by lia.
      replace (wrap 32 (x * 2 ^ 32)) with 0 by (unfold wrap; symmetry; apply Z.mod_mul; lia).
      rewrite Z.lor_0_r. by apply wrap_small.
  - unfold ROR, shl64. rewrite !wrap_bits_lor by lia. f_equal. rewrite wrap_wrap by lia.
    change 63 with (Z.ones 6). rewrite wrap_land_ones by lia. by rewrite (wrap_small 6) by lia.
Qed.

Lemma insn_high e v : 0 <= e < 2 ^ 32 -> INSN e 31 23 = v -> Z.land e 0xff800000 = v * 2 ^ 23.
Proof.
  intros He. rewrite INSN_eq by lia. znum. rewrite Z.mod_small by (Z.div_mod_to_equations; lia). intros <-.
  change 8388608 with (2 ^ 23). rewrite <- Z.shiftr_div_pow2, <- Z.shiftl_mul_pow2 by lia.
  change 0xff800000 with (Z.shiftl (Z.ones 9) 23). apply Z.bits_inj'. intros i Hi. rewrite Z.land_spec.
  destruct (Z.ltb_spec i 23); [by rewrite !Z.shiftl_spec_low, andb_false_r by lia|].
  rewrite !Z.shiftl_spec_high, Z.shiftr_spec by lia. replace (i - 23 + 23) with i by lia.
  destruct (Z.ltb_spec (i - 23) 9); [by rewrite Z.ones_spec_low, andb_true_r by lia|].
  rewrite (range_testbit 32 e) by lia. done.
Qed.

Lemma testbit_NOT n x i : 0 <= x < 2 ^ n -> 0 <= i < n -> Z.testbit (NOT n x) i = negb (Z.testbit x i).
Proof.
  intros Hx Hi. rewrite <- NOT_lxor by lia. rewrite Z.lxor_spec, Z.ones_spec_low by lia. apply xorb_true_r.
Qed.

(** The result of the helper, on the low bits. *)
Lemma bitfield_result (sf : bool) opc R S wmask tmask mask diff src dst (sign : bool) :
  0 <= opc < 3 -> 0 <= R < datasize sf -> 0 <= S < datasize sf -> 0 <= src < 2 ^ datasize sf ->
  bitfield_mask (datasize sf) R S = (mask, diff) -> DecodeBitMasks (datasize sf) sf S R = (wmask, tmask) ->
  (opc <> 1 -> dst = 0) ->
  let n := datasize sf in
  let signbits := if (opc =? 0) && sign then bitfield_topbits n diff else 0 in
  let result := Z.lor (Z.shiftr src R) (shl64 src (n - R)) in
  let bot := Z.lor (Z.ldiff (wrap n dst) wmask) (Z.land (ROR n src R) wmask) in
  let top := if opc =? 0 then (if sign then Z.ones n else 0) else wrap n dst in
  wrap n (Z.lor (Z.lor signbits (Z.land result mask)) (Z.land dst (Z.lxor mask (Z.ones 64)))) =
  Z.lor (Z.ldiff top tmask) (Z.land bot tmask).
Proof.
  intros Ho HR HS Hsrc Hm Hd Hdst n signbits result bot top. pose proof (datasize_range sf) as Hn. fold n in Hn.
  destruct (bitfield_masks sf R S mask diff wmask tmask HR HS Hm Hd) as (Hmask & Htop & Ht & Hw & _).
  fold n in Hmask, Htop, Ht, Hw. apply Z.bits_inj'. intros i Hi. rewrite testbit_wrap by lia.
  destruct (Z.ltb_spec i n) as [Hin|Hin]; cbn [andb].
  2:{ rewrite Z.lor_spec, Z.ldiff_spec, Z.land_spec. rewrite (range_testbit n tmask) by lia.
      rewrite andb_false_r, orb_false_r. subst top. destruct (opc =? 0).
      - destruct sign; [by rewrite Z.ones_spec_high by lia|by rewrite Z.testbit_0_l].
      - by rewrite (range_testbit n (wrap n dst)) by (try apply wrap_range; lia). }
  assert (Hlow : forall x, Z.testbit (wrap n x) i = Z.testbit x i)
    by (intros x; rewrite testbit_wrap by lia; by rewrite (proj2 (Z.ltb_lt i n))).
  assert (Hmi : Z.testbit mask i = Z.testbit wmask i && Z.testbit tmask i)
    by (rewrite <- Hlow, Hmask; apply Z.land_spec).
  assert (Hti : Z.testbit (bitfield_topbits n diff) i = negb (Z.testbit tmask i))
    by (rewrite <- Hlow, Htop; by apply testbit_NOT).
  assert (Hri : Z.testbit result i = Z.testbit (ROR n src R) i)
    by (rewrite <- Hlow; unfold result, n; by rewrite rotate_value).
  subst bot top signbits. clearbody result.
  rewrite !Z.lor_spec, !Z.land_spec, !Z.ldiff_spec, !Z.lor_spec, !Z.ldiff_spec, !Z.land_spec, Z.lxor_spec, Z.ones_spec_low by lia.
  rewrite Hmi, Hri. rewrite !Hlow.
  assert (opc = 0 \/ opc = 1 \/ opc = 2) as Hc by lia. destruct Hc as [-> | [-> | ->]]; cbn [Z.eqb andb].
  - rewrite Hdst by lia. rewrite Z.testbit_0_l. destruct sign; rewrite ?Hti, ?Z.ones_spec_low, ?Z.testbit_0_l by lia;
      by destruct (Z.testbit wmask i), (Z.testbit tmask i), (Z.testbit (ROR n src R) i).
  - rewrite Hlow, Z.testbit_0_l.
    by destruct (Z.testbit wmask i), (Z.testbit tmask i), (Z.testbit (ROR n src R) i), (Z.testbit dst i).
  - rewrite Hlow, Hdst by lia. rewrite !Z.testbit_0_l.
    by destruct (Z.testbit wmask i), (Z.testbit tmask i), (Z.testbit (ROR n src R) i).
Qed.

(** The operation the instruction selects. *)
Lemma bitfield_opcode (sf : bool) opc :
  0 <= opc < 3 ->
  match (256 * Z.b2z sf + 64 * opc + 38) * 2 ^ 23 with
  | 0x33000000 | 0xB3000000 => Some (false, false)
  | 0x13000000 | 0x93000000 => Some (true, true)
  | 0x53000000 | 0xD3000000 => Some (true, false)
  | _ => None
  end = Some (negb (opc =? 1), opc =? 0).
Proof.
  intros Ho. assert (opc = 0 \/ opc = 1 \/ opc = 2) as Hc by lia. destruct sf, Hc as [-> | [-> | ->]]; reflexivity.
Qed.

Lemma compute_bitfield_spec (sf : bool) opc R S e x d :
  0 <= opc < 3 -> 0 <= R < datasize sf -> 0 <= S < datasize sf -> 0 <= x < 2 ^ 64 -> 0 <= d < 2 ^ 64 ->
  0 <= e < 2 ^ 32 -> INSN1 e 31 = sf -> INSN e 31 23 = 256 * Z.b2z sf + 64 * opc + 38 ->
  INSN e 21 16 = R -> INSN e 15 10 = S ->
  let n := datasize sf in
  let wmask := (DecodeBitMasks n sf S R).1 in
  let tmask := (DecodeBitMasks n sf S R).2 in
  let src := wrap n x in
  let dst := if opc =? 1 then wrap n d else 0 in
  let bot := Z.lor (Z.ldiff dst wmask) (Z.land (ROR n src R) wmask) in
  let top := if opc =? 0 then (if Z.testbit src S then Z.ones n else 0) else dst in
  exists v, hlp_compute_bitfield e x d = Some v /\ 0 <= v < 2 ^ 64 /\
    wrap n v = Z.lor (Z.ldiff top tmask) (Z.land bot tmask).
Proof.
  intros Ho HR HS Hx Hd He Hsf Hop HeR HeS n wmask tmask src dst bot top. pose proof (datasize_range sf) as Hn.
  unfold hlp_compute_bitfield. rewrite HeR, HeS, Hsf. rewrite (insn_high e _ He Hop), bitfield_opcode by done.
  change (if sf then 64 else 32) with n. destruct (bitfield_mask n R S) as [mask diff] eqn:Hm.
  destruct (DecodeBitMasks n sf S R) as [wm tm] eqn:Hdm. cbn [fst snd] in *. subst wmask tmask.
  cbn [mbind option_bind].
  replace (if sf then x else Z.land x 0xffffffff) with src
    by (unfold src, n; destruct sf; cbn [datasize]; [by apply wrap_small|symmetry; apply (wrap_land_ones 32); lia]).
  assert (Hsrc : 0 <= src < 2 ^ n) by (apply wrap_range; lia).
  destruct (bitfield_masks sf R S mask diff wm tm HR HS Hm Hdm) as (_ & _ & _ & _ & Hmr).
  set (d' := if negb (opc =? 1) then 0 else d).
  assert (Hd' : 0 <= d' < 2 ^ 64) by (unfold d'; destruct (opc =? 1); cbn; lia).
  eexists. split; [done|]. split.
  - assert (Hsh : forall a b, 0 <= shl64 a b < 2 ^ 64) by (intros; apply wrap_range; lia).
    assert (H64 : 0 <= src < 2 ^ 64).
    { split; [lia|]. apply Z.lt_le_trans with (2 ^ n); [lia|]. apply Z.pow_le_mono_r; lia. }
    repeat apply lor_range; try lia.
    + destruct (_ && _); [apply Hsh|lia].
    + apply land_range; [lia| |done]. apply lor_range; [lia| |apply Hsh]. by apply shiftr_range; lia.
    + apply land_range; [lia|done|]. apply lxor_range; [lia|done|]. by apply ones_range.
  - pose proof (bitfield_result sf opc R S wm tm mask diff src d' (Z.testbit src S) Ho HR HS Hsrc Hm Hdm) as Hr.
    cbv zeta in Hr. fold n in Hr. rewrite Hr.
    + subst bot top dst d'. destruct (opc =? 1); cbn [negb]; done.
    + unfold d'. intros Hne. by rewrite (proj2 (Z.eqb_neq _ _) Hne).
Qed.

Section bitfield.
Context `{HelperAddress} {ir_call ctx} `{!Arm64Calls ir_call ctx}.
Context {Hctx : ctx_ok ctx}.
Context (pc : Z).

Lemma correct_BitfieldMove sf opc immr imms rn rd :
  insn_correct (ir_call := ir_call) (ctx := ctx) pc (BitfieldMove sf opc immr imms rn rd).
Proof.
  start fields_BitfieldMove. pose proof (datasize_range sf) as Hn.
  assert (0 <= immr < datasize sf /\ 0 <= imms < datasize sf) as [HR HS] by (destruct sf; cbn in *; lia).
  enter dis_data_processing_immediate_insn. enter dis_bitfield_insn. steps.
  edestruct (compute_bitfield_spec sf opc immr imms e (gpr 64 rn s) (gpr 64 rd s)) as (v & Hvv & Hvr & Hw);
    [lia|done|done|by apply gpr_range|by apply gpr_range|lia|done..|].
  eapply (awp_helper (ctx := ctx) pc IR_REG_64 arm64_hlp_compute_bitfield); [rdv|params| |exact Hvr|].
  { cbn [pure_helper]. rewrite (wrap_small (bits IR_REG_32)) by (cbn [bits]; lia). cbn [gprz ZERO_REG]. by rewrite Hvv. }
  intros r vs1 Hr He. steps. split; [done|]. cbn [set_gprz ZERO_REG]. rewrite Hw. rewrite !gpr_low by lia.
  done.
Qed.
End bitfield.

(** * The front end is right on counts and reversals of bits and bytes *)

(** ** Leading bits *)

Lemma clz_loop_spec k x res :
  clz_loop k x res = res + CountLeadingZeroBits (Z.of_nat k) (wrap (Z.of_nat k) x).
Proof.
  revert res. induction k as [|i IH]; intros res; cbn [clz_loop].
  - unfold wrap. cbn. rewrite Z.mod_1_r. cbn. lia.
  - rewrite Nat2Z.inj_succ. unfold Z.succ. rewrite CountLeadingZeroBits_succ, IH by lia.
    destruct (Z.testbit x (Z.of_nat i)); lia.
Qed.

Lemma cls_loop_spec k x sign res :
  Z.testbit x (Z.of_nat k) = sign -> cls_loop k x sign res = clz_loop k (Z.lxor (Z.shiftr x 1) x) res.
Proof.
  revert res. induction k as [|i IH]; intros res Hx; cbn [cls_loop clz_loop]; [done|].
  rewrite Z.lxor_spec, Z.shiftr_spec by lia. replace (Z.of_nat i + 1) with (Z.of_nat (S i)) by lia. rewrite Hx.
  destruct (Bool.eqb (Z.testbit x (Z.of_nat i)) sign) eqn:E; cbn [negb].
  - apply Bool.eqb_prop in E. rewrite IH by done. rewrite E, xorb_nilpotent. done.
  - apply Bool.eqb_false_iff in E. destruct (Z.testbit x (Z.of_nat i)), sign; done.
Qed.

(** ** Networks of swaps *)

Definition rbit_stages_64 : list (Z * Z * Z) :=
  rbit_stages [0x5555555555555555; 0x3333333333333333; 0x0F0F0F0F0F0F0F0F;
               0x00FF00FF00FF00FF; 0x0000FFFF0000FFFF; 0x00000000FFFFFFFF] 0.
Definition stage_32 : Z * Z * Z := (0x00000000ffffffff, 0xffffffff00000000, 32).
Definition stage_16 (sf : bool) : Z * Z * Z :=
  if sf then (0x0000ffff0000ffff, 0xffff0000ffff0000, 16) else (0x0000ffff, 0xffff0000, 16).
Definition stage_8 (sf : bool) : Z * Z * Z :=
  if sf then (0x00ff00ff00ff00ff, 0xff00ff00ff00ff00, 8) else (0x00ff00ff, 0xff00ff00, 8).

Lemma network_rbit_64 x : 0 <= x < 2 ^ 64 -> swaps_value 64 rbit_stages_64 x = BitReverse 64 x.
Proof. intros Hx. network (network_BitReverse 64%nat). Qed.

Lemma network_rev16 (sf : bool) x :
  0 <= x < 2 ^ datasize sf ->
  swaps_value (datasize sf) [stage_8 sf] x = Reverse_bytes (2 * (if sf then 2%nat else 1%nat)) 2 x.
Proof.
  destruct sf; intros Hx; [network (network_Reverse_bytes 64%nat)|network (network_Reverse_bytes 32%nat)].
Qed.

Lemma network_rev32 (sf : bool) x :
  0 <= x < 2 ^ datasize sf ->
  swaps_value (datasize sf) [stage_16 sf; stage_8 sf] x = Reverse_bytes (if sf then 2%nat else 1%nat) 4 x.
Proof.
  destruct sf; intros Hx; [network (network_Reverse_bytes 64%nat)|network (network_Reverse_bytes 32%nat)].
Qed.

Lemma network_rev64 x :
  0 <= x < 2 ^ 64 -> swaps_value 64 [stage_32; stage_16 true; stage_8 true] x = Reverse_bytes 1 8 x.
Proof. intros Hx. network (network_Reverse_bytes 64%nat). Qed.

Section reverse.
Context `{HelperAddress} {ir_call ctx} `{!Arm64Calls ir_call ctx}.
Context {Hctx : ctx_ok ctx}.
Context (pc : Z).
Abbreviation awp := (awp (ir_call := ir_call) (ctx := ctx)).
Abbreviation insn_correct := (insn_correct (ir_call := ir_call) (ctx := ctx) pc).

Lemma correct_CountLeading sf sign rn rd : insn_correct (CountLeading sf sign rn rd).
Proof.
  start fields_CountLeading. pose proof (datasize_range sf) as Hn.
  enter dis_data_processing_register_insn. enter dis_data_processing_1_source.
  assert (Hx := gpr_range (datasize sf) rn s ltac:(lia)).
  assert (Hz : hlp_clz (gpr 64 rn s) (datasize sf - 1) = CountLeadingZeroBits (datasize sf) (gpr (datasize sf) rn s)).
  { unfold hlp_clz. rewrite clz_loop_spec, Z2Nat.id by lia. replace (datasize sf - 1 + 1) with (datasize sf) by lia.
    by rewrite gpr_low by lia. }
  assert (Hs : hlp_cls (gpr 64 rn s) (datasize sf - 1) = CountLeadingSignBits (datasize sf) (gpr (datasize sf) rn s)).
  { unfold hlp_cls. rewrite cls_loop_spec by (by rewrite Z2Nat.id by lia). rewrite clz_loop_spec, Z2Nat.id by lia.
    unfold CountLeadingSignBits. rewrite Z.add_0_l. f_equal. rewrite <- (gpr_low (datasize sf)) by lia.
    apply Z.bits_inj'. intros i Hi. rewrite !testbit_wrap by lia. destruct (Z.ltb_spec i (datasize sf - 1)); [|done].
    rewrite !Z.lxor_spec, !Z.shiftr_spec, !testbit_wrap by lia.
    by rewrite !(proj2 (Z.ltb_lt _ (datasize sf))) by lia. }
  assert (Hc : 0 <= (if sign then hlp_cls (gpr 64 rn s) (datasize sf - 1) else hlp_clz (gpr 64 rn s) (datasize sf - 1)) <= 64).
  { rewrite Hz, Hs. pose proof (count_range (datasize sf) _ ltac:(lia) Hx).
    assert (0 <= CountLeadingSignBits (datasize sf) (gpr (datasize sf) rn s) <= datasize sf - 1)
      by (apply count_range; [lia|apply wrap_range; lia]).
    destruct sign; lia. }
  assert (Hgo : forall h, (h = if sign then arm64_hlp_cls else arm64_hlp_clz) ->
    awp (dis_count pc h e) (falls (set_gpr rd ((if sign then CountLeadingSignBits (datasize sf) else CountLeadingZeroBits (datasize sf))
      (gpr (datasize sf) rn s)) s)) (fun _ _ _ => False) vs s).
  { intros h ->. unfold dis_count. rewrite_fields. replace (if sf then 63 else 31) with (datasize sf - 1) by (by destruct sf).
    steps. eapply (awp_helper (ctx := ctx) pc IR_REG_64 (if sign then arm64_hlp_cls else arm64_hlp_clz)
      _ _ _ (if sign then hlp_cls (gpr 64 rn s) (datasize sf - 1) else hlp_clz (gpr 64 rn s) (datasize sf - 1)));
      [rdv|params| |cbn [bits]; lia|].
    - rewrite (wrap_small (bits IR_REG_32)) by (cbn [bits]; lia). by destruct sign.
    - intros r vs1 Hr He. steps. split; [done|]. cbn [set_gprz ZERO_REG]. f_equal.
      rewrite wrap_small by (destruct sf; cbn in *; lia). rewrite Hz, Hs. by destruct sign. }
  destruct sign; cbn [Z.b2z]; znum; cbv iota; [enter dis_cls|enter dis_clz]; by apply Hgo.
Qed.
(** ** The sequences of the front end *)

Lemma awp_swap_parts w c d k r x Q vs s :
  0 <= k < bits w -> rdv w vs r = Some x ->
  (forall r' vs', yields (swap_value (bits w) c d k x) w vs s r' vs' s -> Q r' vs' s) ->
  awp (swap_parts w c d k r) Q never vs s.
Proof.
  intros Hk Hr HQ. pose proof (bits_le_64 w). unfold swap_parts. steps. apply HQ. yields. reflexivity.
Qed.

Lemma awp_rbit_loop w cs i r x vs s :
  Forall (fun stage => 0 <= stage.2 < bits w) (rbit_stages cs i) -> rdv w vs r = Some x ->
  awp (rbit_loop w cs i r) (yields (swaps_value (bits w) (rbit_stages cs i) x) w vs s) never vs s.
Proof.
  revert i r x vs. induction cs as [|c cs IH]; intros i r x vs Hst Hr; cbn [rbit_loop rbit_stages] in *.
  - steps. by yields.
  - apply Forall_cons in Hst as [Hk Hst]. apply awp_bind.
    eapply awp_swap_parts; [exact Hk|exact Hr|]. intros r1 vs1 (H1' & He1 & _).
    eapply awp_mono; [by apply IH|]. intros r2 vs2 s2 (H2 & He2 & ->). yields. reflexivity.
Qed.

Ltac swaps := repeat (steps; eapply awp_swap_parts; [cbn; lia|rdv|intros ? ? (? & ? & _)]); steps.
Ltac swapped := (split; [done|]); unfold falls; cbn [set_gprz gprz ZERO_REG]; f_equal.

Lemma correct_Reverse sf opc rn rd : insn_correct (Reverse sf opc rn rd).
Proof.
  start fields_Reverse. enter dis_data_processing_register_insn. enter dis_data_processing_1_source.
  assert (opc = 0 \/ opc = 1 \/ opc = 2 \/ opc = 3 /\ sf = true) as Hopc by (destruct sf; cbn in Hv; lia).
  assert (0 <= gpr (datasize sf) rn s < 2 ^ datasize sf) as Hx by (apply gpr_range; by destruct sf).
  destruct Hopc as [-> | [-> | [-> | [-> Hsf]]]].
  - enter dis_rbit. destruct sf; [enter dis_rbit_64|enter dis_rbit_32]; steps.
    + eapply awp_mono; [apply (awp_rbit_loop IR_REG_64); [stages|rdv]|].
      intros r1 vs1 s1 (H1' & He1 & ->). steps. swapped. by apply network_rbit_64.
    + eapply awp_mono; [apply (awp_rbit_loop IR_REG_32); [stages|rdv]|].
      intros r1 vs1 s1 (H1' & He1 & ->). steps. swapped. by apply network_rbit_32.
  - enter dis_rev16. destruct sf; swaps; swapped; [by apply (network_rev16 true)|by apply (network_rev16 false)].
  - assert (Hgo : awp (if sf then dis_rev32 e else dis_rev e)
      (falls (set_gpr rd (Reverse_bytes (if sf then 2%nat else 1%nat) 4 (gpr (datasize sf) rn s)) s))
      (fun _ _ _ => False) vs s); [|by destruct sf].
    destruct sf; [enter dis_rev32|enter dis_rev]; swaps; swapped;
      [by apply (network_rev32 true)|by apply (network_rev32 false)].
  - destruct sf; [|done]. enter dis_rev. swaps. swapped. by apply network_rev64.
Qed.
End reverse.
