(* ===== verification/Arm64Memory.v ===== *)
(** * The front end against the architecture: branches *)

From S2P Require Import Prelude Ir Jitter IrRequests FrontGen FrontWp ArmPseudo Arm64Gen Arm64Dis Arm64DisData Arm64Decode Arm64Helpers Arm64Isa Arm64Wp Arm64Sim Arm64Fields Arm64Rules Arm64Alu.

(** The same as [start], for an instruction that leaves the block. *)
Ltac start_branch F :=
  intros vs s s' t Hv He; cbn [arm_exec] in He; apply Some_inj in He; apply pair_eq in He as [<- <-];
  with_fields F Hv; open_valid Hv; unfold disassemble_insn; rewrite_fields.

Section branches.
Context `{HelperAddress} {ir_call ctx} `{!Arm64Calls ir_call ctx}.
Context {Hctx : ctx_ok ctx}.
Context (pc : Z).
Abbreviation awp := (awp (ir_call := ir_call) (ctx := ctx)).
Abbreviation insn_correct := (insn_correct (ir_call := ir_call) (ctx := ctx) pc).

(** The target of a branch that is taken on [b]. *)
Lemma awp_branch pred is_32 target ty x (b : bool) vs s s' v :
  vs !! pred = Some (ty, x) -> (x =? 0) = negb b -> s = s' ->
  Some v = Some (wrap 64 (if b then target else pc + 4)) ->
  awp (mk_branch pc pred is_32 target) (fun isExit _ s'' => isExit = false /\ s'' = s' /\ Some v = None)
    (fun isExit w s'' => isExit = true /\ s'' = s' /\ Some v = Some w) vs s.
Proof.
  intros Hp Hx -> [= ->]. eapply awp_mk_branch; [exact Hp|]. split; [done|]. split; [done|]. rewrite Hx.
  by destruct b.
Qed.

Lemma correct_Branch link imm26 : insn_correct (Branch link imm26).
Proof.
  start_branch fields_Branch. enter dis_branch_A_exception_A_system_insn. enter dis_b_A_bl.
  destruct link; steps; (split; [done|]); (split; [done|]); unfold sign_extend; by rewrite Z.shiftl_mul_pow2 by lia.
Qed.

Lemma correct_BranchRegister opc rn : insn_correct (BranchRegister opc rn).
Proof.
  start_branch fields_BranchRegister. enter dis_branch_A_exception_A_system_insn.
  enter dis_unconditionnal_branch_register.
  assert (opc = 0 \/ opc = 1 \/ opc = 2) as Hc by lia.
  destruct Hc as [-> | [-> | ->]]; cbn [Z.eqb Pos.eqb]; [enter dis_br|enter dis_blr|enter dis_ret]; by steps.
Qed.

Lemma correct_BranchConditional imm19 cond : insn_correct (BranchConditional imm19 cond).
Proof.
  start_branch fields_BranchConditional. enter dis_branch_A_exception_A_system_insn.
  enter dis_conditionnal_branch_immediate_insn. steps.
  eapply (awp_branch _ _ _ _ _ (ConditionHolds cond (flags s))); [apply rdv_lookup; rdv| |done|].
  - by destruct (ConditionHolds cond (flags s)).
  - unfold sign_extend. by rewrite Z.shiftl_mul_pow2 by lia.
Qed.

Lemma correct_CompareBranch sf op imm19 rt : insn_correct (CompareBranch sf op imm19 rt).
Proof.
  start_branch fields_CompareBranch. enter dis_branch_A_exception_A_system_insn.
  destruct op, sf; [enter dis_cbnz|enter dis_cbnz|enter dis_cbz|enter dis_cbz]; enter dis_cbz_A_cbnz; steps;
    (eapply awp_branch; [apply rdv_lookup; rdv| |done|unfold sign_extend; by rewrite Z.shiftl_mul_pow2 by lia]);
    cbn [gprz ZERO_REG datasize]; change (wrap _ 0) with 0; by destruct (gpr _ _ _ =? 0).
Qed.

Lemma correct_TestBranch op b5 b40 imm14 rt : insn_correct (TestBranch op b5 b40 imm14 rt).
Proof.
  start_branch fields_TestBranch. enter dis_branch_A_exception_A_system_insn. enter dis_tbz_A_tbnz.
  assert (Z.lor (Z.shiftl b5 5) b40 = b5 * 32 + b40) as Eb.
  { assert (b5 = 0 \/ b5 = 1) as [-> | ->] by lia; [done|].
    apply Z.eqb_eq, (forallb_upto 32 (fun b => Z.lor (Z.shiftl 1 5) b =? 1 * 32 + b) _ eq_refl). lia. }
  rewrite Eb. set (k := b5 * 32 + b40). assert (0 <= k < 64) as Hk by lia.
  assert (Hx : (Z.land (gpr 64 rt s) (wrap 64 (Z.shiftl 1 k)) =? 0) = negb (Z.testbit (gpr 64 rt s) k)).
  { rewrite Z.shiftl_1_l, wrap_small by (split; [lia|apply Z.pow_lt_mono_r; lia]).
    by rewrite <- test_bit, negb_involutive by lia. }
  destruct op; steps; (eapply awp_branch; [apply rdv_lookup; rdv| |done|unfold sign_extend; by rewrite Z.shiftl_mul_pow2 by lia]);
    cbn [gprz ZERO_REG]; change (bits IR_REG_64) with 64; change (wrap 64 0) with 0; rewrite Hx; fold k;
    by destruct (Z.testbit _ _).
Qed.
End branches.

(** * The front end against the architecture: loads and stores *)

Lemma Mem_write_wrap acc w a v s : Mem_write acc w a (wrap (bits w) v) s = Mem_write acc w a v s.
Proof. unfold Mem_write. by rewrite store_mem_wrap by done. Qed.

Lemma Mem_read_range acc w a s v : Mem_read acc w a s = Some v -> 0 <= v < 2 ^ bits w.
Proof. unfold Mem_read. case_match; [|done]. intros [= <-]. apply load_mem_range. Qed.

(** The same as [start], for an instruction that accesses memory. *)
Ltac start_memory F :=
  intros vs s s' t Hv He; cbn [arm_exec] in He;
  apply bind_Some in He as (?s1 & ?Hs & He); apply Some_inj in He; apply pair_eq in He as [<- <-];
  with_fields F Hv; open_valid Hv; apply falls_correct; unfold disassemble_insn; rewrite_fields; enter dis_load_store_insn.

Section memory.
Context `{HelperAddress} {ir_call ctx} `{!Arm64Calls ir_call ctx}.
Context {Hctx : ctx_ok ctx}.
Context (pc : Z).
Abbreviation awp := (awp (ir_call := ir_call) (ctx := ctx)).
Abbreviation insn_correct := (insn_correct (ir_call := ir_call) (ctx := ctx) pc).
Abbreviation accessible := (guest_accessible ctx).

(** Accesses end in [s'] and keep the registers. *)
Definition accesses (s' : arm_state) (vs : irValues) : bool -> irValues -> arm_state -> Prop :=
  fun isExit vs' s'' => isExit = false /\ extends vs vs' /\ s'' = s'.

Ltac load := eapply awp_load; [rdv|eassumption|].
Ltac accessed := split; [done|]; split; [extends|]; try done.

Lemma awp_load_store size opc rt a x E vs s s' :
  0 <= size <= 3 -> 0 <= opc <= 3 -> 0 <= rt <= 31 ->
  negb ((opc =? 3) && (2 <=? size)) && negb ((size =? 3) && (opc =? 2)) = true ->
  rdv IR_REG_64 vs a = Some x -> load_store accessible size opc x rt s = Some s' ->
  awp (dis_load_store_register pc size opc rt a) (accesses s' vs) E vs s.
Proof.
  intros Hsz Hopc Hrt Hok Ha Hs. unfold dis_load_store_register, load_store in *.
  assert (opc = 0 \/ opc = 1 \/ opc = 2 \/ opc = 3) as Ho by lia.
  assert (size = 0 \/ size = 1 \/ size = 2 \/ size = 3) as Hz by lia.
  assert (forall w, wrap (bits w) (gpr 64 rt s) = gpr (bits w) rt s) as Hlow
    by (intros []; apply gpr_low; cbn [bits]; lia).
  destruct Ho as [-> | Ho].
  - (* stores *)
    destruct Hz as [-> | [-> | [-> | ->]]]; cbn [access_type] in Hs; cbv iota; steps; eapply awp_store;
      [rdv|rdv| |accessed|rdv|rdv| |accessed|rdv|rdv| |accessed|rdv|rdv|exact Hs|accessed];
      rewrite <- Hs, <- (Mem_write_wrap _ _ _ (gpr _ _ _)); [done|done|].
    by rewrite (Hlow IR_REG_32).
  - (* loads *)
    destruct Ho as [-> | [-> | ->]], Hz as [-> | [-> | [-> | ->]]]; try discriminate Hok;
      cbn [access_type Z.eqb Pos.eqb Z.leb Z.compare Pos.compare Pos.compare_cont] in *; cbv beta iota in *;
      apply bind_Some in Hs as (v & Hv & [= <-]); pose proof (Mem_read_range _ _ _ _ _ Hv) as Hr; cbn [bits] in Hr;
      steps; load; steps; accessed; cbn [set_gprz ZERO_REG]; unfold irCast_sem; cbn [cast_signed cast_src cast_dst bits];
      rewrite ?(wrap_small 64 v) by lia; done.
Qed.

(** The rest of an instruction that computed its address, and has no more to
    do. *)
Lemma awp_access size opc rt a x y vs s s' :
  0 <= size <= 3 -> 0 <= opc <= 3 -> 0 <= rt <= 31 -> negb ((opc =? 3) && (2 <=? size)) = true ->
  (size =? 3) && (opc =? 2) = false ->
  rdv IR_REG_64 vs a = Some x -> x = y -> load_store accessible size opc y rt s = Some s' ->
  awp (dis_load_store_register pc size opc rt a) (falls s') (fun _ _ _ => False) vs s.
Proof.
  intros ??? Hok Hp ? -> ?. eapply awp_mono; [eapply awp_load_store; [done..| |done|done]|].
  - by rewrite Hok, Hp.
  - by intros r vs' s'' (-> & _ & ->).
Qed.

Lemma correct_UnsignedOffset size opc imm12 rn rt : insn_correct (LoadStore size opc (UnsignedOffset imm12) rn rt).
Proof.
  start_memory fields_UnsignedOffset. enter dis_load_store_register_unsigned_offset.
  unfold load_store_insn in Hs. destruct ((size =? 3) && (opc =? 2)) eqn:Hp.
  - apply Some_inj in Hs as <-. by steps.
  - steps. eapply awp_access; [lia..|exact Hp|rdv| |exact Hs]. change (bits IR_REG_64) with 64.
    by rewrite wrap_add_r, Z.shiftl_mul_pow2 by lia.
Qed.

Lemma correct_UnscaledOffset size opc imm9 rn rt : insn_correct (LoadStore size opc (UnscaledOffset imm9) rn rt).
Proof.
  start_memory fields_UnscaledOffset. enter dis_load_store_register_unscaled_immediate.
  unfold load_store_insn in Hs. destruct ((size =? 3) && (opc =? 2)) eqn:Hp.
  - apply Some_inj in Hs as <-. by steps.
  - steps. eapply awp_access; [lia..|exact Hp|rdv| |exact Hs]. change (bits IR_REG_64) with 64. by rewrite wrap_add_r.
Qed.

Lemma correct_PostIndex size opc imm9 rn rt : insn_correct (LoadStore size opc (PostIndex imm9) rn rt).
Proof.
  start_memory fields_PostIndex. enter dis_load_store_register_immediate_post_indexed.
  unfold load_store_insn in Hs. assert ((size =? 3) && (opc =? 2) = false) as Hp by lia. rewrite Hp in Hs.
  apply bind_Some in Hs as (s2 & Hs & [= <-]). steps.
  eapply awp_mono; [eapply awp_load_store; [lia..|by lia|rdv|exact Hs]|].
  intros r vs1 s3 (-> & He & ->). steps. split; [done|]. cbn [set_gprz gprz SP_REG]. by rewrite wrap_add_r.
Qed.

Lemma correct_PreIndex size opc imm9 rn rt : insn_correct (LoadStore size opc (PreIndex imm9) rn rt).
Proof.
  start_memory fields_PreIndex. enter dis_load_store_register_immediate_pre_indexed.
  unfold load_store_insn in Hs. assert ((size =? 3) && (opc =? 2) = false) as Hp by lia. rewrite Hp in Hs.
  apply bind_Some in Hs as (s2 & Hs & [= <-]). steps.
  eapply awp_mono; [eapply awp_load_store; [lia..|by lia|rdv|cbn [gprz SP_REG]; rewrite wrap_add_r; exact Hs]|].
  intros r vs1 s3 (-> & He & ->). steps. split; [done|]. cbn [set_gprz gprz SP_REG]. by rewrite wrap_add_r.
Qed.

(** The offset, scaled. *)
Lemma awp_scaled (S : bool) size r v vs s :
  0 <= size <= 3 -> rdv IR_REG_64 vs r = Some v ->
  awp (if S && negb (size =? 0) then k ← mk_8 size; ir.add_binop SHL IR_REG_64 r k else mret r)
    (yields (wrap 64 (v * 2 ^ (if S then size else 0))) IR_REG_64 vs s) never vs s.
Proof.
  intros Hsz Hr. apply awp_ok. intros Hok. pose proof (rdv_range _ _ _ _ Hok Hr) as Hv. cbn [bits] in Hv.
  destruct S; cbn [andb]; [destruct (Z.eqb_spec size 0) as [-> |]; cbn [negb]|]; steps; yields;
    rewrite ?Z.mul_1_r; rewrite ?Z.shiftl_mul_pow2 by lia; rewrite ?wrap_small by done; done.
Qed.

Lemma correct_RegisterOffset size opc rm option scaled rn rt : insn_correct (LoadStore size opc (RegisterOffset rm option scaled) rn rt).
Proof.
  start_memory fields_RegisterOffset. enter dis_load_store_register_register_offset.
  unfold load_store_insn in Hs. destruct ((size =? 3) && (opc =? 2)) eqn:Hp.
  - apply Some_inj in Hs as <-. by steps.
  - assert (option = 2 \/ option = 3 \/ option = 6 \/ option = 7) as Ho.
    { assert (option = 0 \/ option = 1 \/ option = 2 \/ option = 3 \/ option = 4 \/ option = 5 \/ option = 6 \/ option = 7) by lia.
      repeat match goal with H : _ \/ _ |- _ => destruct H as [->|H] end; cbn in Hv; try lia. }
    assert (0 <= gpr 32 rm s < 2 ^ 32) as H32 by (apply gpr_range; lia).
    assert (0 <= gpr 64 rm s < 2 ^ 64) as H64 by (apply gpr_range; lia).
    assert (Hgo : forall r v vs, rdv IR_REG_64 vs r = Some v ->
      Extend 64 option (gpr 64 rm s) (if scaled then size else 0) = wrap 64 (v * 2 ^ (if scaled then size else 0)) ->
      awp (offset ← (if scaled && negb (size =? 0) then k ← mk_8 size; ir.add_binop SHL IR_REG_64 r k else mret r);
           b ← read_x rn SP_REG; address ← ir.add_binop ADD IR_REG_64 b offset;
           dis_load_store_register pc size opc rt address) (falls s1) (fun _ _ _ => False) vs s).
    { intros r v vs' Hr Hv'. steps. eapply awp_mono; [by apply awp_scaled; [lia|]|].
      intros r1 vs1 s' (Hr1 & He1 & ->). steps. eapply awp_access; [lia..|exact Hp|rdv| |exact Hs]. by rewrite Hv'. }
    destruct Ho as [-> | [-> | [-> | ->]]]; cbn [orb Z.eqb Pos.eqb]; cbv iota.
    + do 2 (apply awp_bind; awp_step). eapply Hgo; [rdv|].
      unfold irCast_sem, Extend. change (8 * 2 ^ (2 mod 4)) with 32. cbn [cast_dst cast_signed bits gprz ZERO_REG].
      rewrite (wrap_small 64 (gpr 32 rm s)) by lia. by rewrite <- (gpr_low 32) by lia.
    + apply awp_bind; awp_step. eapply Hgo; [rdv|].
      unfold Extend. change (8 * 2 ^ (3 mod 4)) with 64. change (4 <=? 3) with false. cbv iota.
      by rewrite (wrap_small 64 (gpr 64 rm s)) by lia.
    + do 2 (apply awp_bind; awp_step). eapply Hgo; [rdv|].
      unfold irCast_sem, Extend. change (8 * 2 ^ (6 mod 4)) with 32. change (4 <=? 6) with true.
      cbn [cast_dst cast_src cast_signed bits gprz ZERO_REG]. cbv iota.
      rewrite <- (gpr_low 32), to_signed_wrap by lia. unfold wrap. by rewrite Zmult_mod_idemp_l.
    + apply awp_bind; awp_step. eapply Hgo; [rdv|].
      unfold Extend. change (8 * 2 ^ (7 mod 4)) with 64. change (4 <=? 7) with true. cbv iota. cbn [gprz ZERO_REG].
      rewrite <- (wrap_small 64 (gpr 64 rm s)) at 2 by lia. rewrite <- (wrap_to_signed 64 64 (gpr 64 rm s)) by lia.
      unfold wrap. by rewrite Zmult_mod_idemp_l.
Qed.

Lemma correct_LoadStore size opc mode rn rt : insn_correct (LoadStore size opc mode rn rt).
Proof.
  destruct mode;
    [apply correct_UnsignedOffset|apply correct_UnscaledOffset|apply correct_PostIndex|apply correct_PreIndex
    |apply correct_RegisterOffset].
Qed.

(** ** Literals *)

Lemma correct_LoadLiteral opc imm19 rt : insn_correct (LoadLiteral opc imm19 rt).
Proof.
  intros vs s s' t Hv He; cbn [arm_exec] in He.
  with_fields fields_LoadLiteral Hv; open_valid Hv.
  assert (opc = 0 \/ opc = 1 \/ opc = 2 \/ opc = 3) as Ho by lia.
  assert (0 <= gpr 32 rt s < 2 ^ 32) as H32 by (apply gpr_range; lia).
  assert (Ha : wrap (bits IR_REG_64) (pc + sign_extend 21 (Z.shiftl imm19 2)) = wrap 64 (pc + SignExtend 21 (imm19 * 4)))
    by (unfold sign_extend; by rewrite Z.shiftl_mul_pow2 by lia).
  destruct Ho as [-> | [-> | [-> | ->]]]; cbn [load_store access_type] in He;
    [apply bind_Some in He as (s1 & Hs & He); apply bind_Some in Hs as (v & Hs & [= <-])..|];
    apply Some_inj in He; apply pair_eq in He as [<- <-]; apply falls_correct;
    unfold disassemble_insn; rewrite_fields; enter dis_load_store_insn; enter dis_load_register_literal; steps; try done;
    (eapply awp_load; [eapply rdv_eq; [rdv|exact Ha]|exact Hs|]).
  - by steps.
  - by steps.
  - eapply awp_write_w_sign_extend; [lia|rdv|]. by intros ext.
Qed.

(** ** Pairs *)

Lemma Mem_read_set_gpr acc w a i v s : Mem_read acc w a (set_gpr i v s) = Mem_read acc w a s.
Proof. unfold set_gpr. by destruct (i =? 31). Qed.

Lemma gpr_Mem_write acc w a v s s' n i : Mem_write acc w a v s = Some s' -> gpr n i s' = gpr n i s.
Proof. unfold Mem_write. case_match; [|done]. by intros [= <-]. Qed.

Abbreviation pair_type opc := (if opc =? 2 then IR_REG_64 else IR_REG_32).

Lemma awp_pair_load opc rt a x v (Q : unit -> irValues -> arm_state -> Prop) E vs s :
  0 <= opc <= 2 -> 0 <= rt <= 31 -> rdv IR_REG_64 vs a = Some x -> Mem_read accessible (pair_type opc) x s = Some v ->
  (forall vs', extends vs vs' -> Q tt vs' (set_gpr rt (if opc =? 1 then wrap 64 (to_signed 32 v) else v) s)) ->
  awp (pair_load (opc =? 2) (opc =? 1) rt a) Q E vs s.
Proof.
  intros Ho Hrt Ha Hv HQ. assert (opc = 0 \/ opc = 1 \/ opc = 2) as Hc by lia. unfold pair_load.
  destruct Hc as [-> | [-> | ->]]; cbn [Z.eqb Pos.eqb] in *; cbv iota in *; steps; load.
  - steps. apply HQ. extends.
  - eapply awp_write_w_sign_extend; [lia|rdv|]. intros ext. apply HQ. extends.
  - steps. apply HQ. extends.
Qed.

Lemma awp_pair_store opc rt a x (Q : unit -> irValues -> arm_state -> Prop) E vs s s' :
  0 <= opc <= 2 -> 0 <= rt <= 31 -> rdv IR_REG_64 vs a = Some x ->
  Mem_write accessible (pair_type opc) x (gpr 64 rt s) s = Some s' ->
  (forall vs', extends vs vs' -> Q tt vs' s') -> awp (pair_store (opc =? 2) rt a) Q E vs s.
Proof.
  intros Ho Hrt Ha Hw HQ. unfold pair_store. destruct (opc =? 2); steps.
  - eapply awp_store; [rdv|rdv|exact Hw|]. apply HQ. extends.
  - eapply awp_store; [rdv|rdv| |apply HQ; extends]. rewrite <- Hw, <- (Mem_write_wrap _ _ _ (gpr 64 _ _)).
    cbn [bits gprz ZERO_REG]. by rewrite gpr_low by lia.
Qed.

Lemma awp_pair opc sg (load : bool) rt2 rt a x (k : gen bool) Q E vs s s' :
  sg = (opc =? 1) -> 0 <= opc <= 2 -> 0 <= rt <= 31 -> 0 <= rt2 <= 31 -> rdv IR_REG_64 vs a = Some x ->
  load_store_pair accessible opc load x rt2 rt s = Some s' ->
  (forall vs', extends vs vs' -> awp k Q E vs' s') ->
  awp (o ← mk_64 (if opc =? 2 then 8 else 4); a2 ← ir.add_binop ADD IR_REG_64 a o;
       (if load then pair_load (opc =? 2) sg rt a;; pair_load (opc =? 2) sg rt2 a2
        else pair_store (opc =? 2) rt a;; pair_store (opc =? 2) rt2 a2);; k) Q E vs s.
Proof.
  intros -> Ho Hrt Hrt2 Ha Hs Hk.
  assert (wrap 64 (if opc =? 2 then 8 else 4) = bits (pair_type opc) / 8) as Hsz by (by destruct (opc =? 2)).
  do 2 (apply awp_bind; awp_step). apply awp_bind. change (bits IR_REG_64) with 64. rewrite Hsz. unfold load_store_pair in Hs.
  destruct load.
  - apply bind_Some in Hs as (v & Hv & Hs). apply bind_Some in Hs as (v2 & Hv2 & Hs). apply Some_inj in Hs as <-.
    apply awp_bind. eapply awp_pair_load; [done|done|rdv|exact Hv|]. intros vs1 He1.
    eapply awp_pair_load; [done|done|rdv|by rewrite Mem_read_set_gpr|]. intros vs2 He2. apply Hk.
    intros t r y Hr. apply He2, He1. rdv.
  - apply bind_Some in Hs as (s1 & Hs1 & Hs).
    apply awp_bind. eapply awp_pair_store; [done|done|rdv|exact Hs1|]. intros vs1 He1.
    eapply awp_pair_store; [done|done|rdv|by rewrite (gpr_Mem_write _ _ _ _ _ _ _ _ Hs1)|]. intros vs2 He2. apply Hk.
    intros t r y Hr. apply He2, He1. rdv.
Qed.

(** The two bits of the addressing mode. *)
Lemma pair_bits e v : INSN e 24 23 = v -> INSN1 e 23 = Z.testbit v 0 /\ INSN1 e 24 = Z.testbit v 1.
Proof.
  intros <-. unfold INSN1, INSN. change (Z.shiftl 1 (24 - 23 + 1) - 1) with 3.
  change (Z.shiftl 1 (23 - 23 + 1) - 1) with 1. change (Z.shiftl 1 (24 - 24 + 1) - 1) with 1.
  rewrite !one_bit by lia. rewrite !Z.land_spec, !Z.shiftr_spec by lia.
  change (Z.testbit 3 0) with true. change (Z.testbit 3 1) with true. rewrite !andb_true_r.
  change (0 + 23) with 23. change (1 + 23) with 24. by destruct (Z.testbit e 23), (Z.testbit e 24).
Qed.

Lemma correct_LoadStorePair opc mode load imm7 rt2 rn rt : insn_correct (LoadStorePair opc mode load imm7 rt2 rn rt).
Proof.
  start_memory fields_LoadStorePair.
  assert (Hopc : 0 <= opc <= 2) by lia.
  assert (Hd : (opc / 2 =? 1) = (opc =? 2) /\ (opc mod 2 =? 1) = (opc =? 1)).
  { assert (opc = 0 \/ opc = 1 \/ opc = 2) as [-> | [-> | ->]] by lia; done. }
  destruct Hd as [Hd2 Hd1]. rewrite Hd2 in *. rewrite Hd1 in *. unfold load_store_pair_insn in Hs.
  assert (Hoff : Z.shiftl (sign_extend 7 imm7) (2 + Z.b2z (opc =? 2)) = SignExtend 7 imm7 * (if opc =? 2 then 8 else 4)).
  { rewrite Z.shiftl_mul_pow2 by (destruct (opc =? 2); cbn; lia). by destruct (opc =? 2). }
  destruct (pair_bits e _ H6) as [Hwb Hpi]. clear H6.
  destruct mode; cbn [pair_field Z.testbit Pos.testbit Z.odd Pos.pred_N] in *; rewrite_fields.
  - enter dis_load_store_no_allocate_pair_offset. do 3 (apply awp_bind; awp_step).
    eapply awp_pair; [|lia..|rdv| |intros vs1 He1; by steps].
    + destruct (opc =? 1); [destruct load; lia|done].
    + cbn [gprz SP_REG]. rewrite Hoff, wrap_add_r. exact Hs.
  - apply bind_Some in Hs as (s2 & Hs & [= <-]).
    enter dis_load_store_pair_post_indexed. enter dis_load_store_pair. do 1 (apply awp_bind; awp_step).
    eapply awp_pair; [done|lia..|rdv|exact Hs|]. intros vs1 He1. steps. split; [done|].
    cbn [set_gprz gprz SP_REG]. by rewrite Hoff, wrap_add_r.
  - enter dis_load_store_pair_offset. enter dis_load_store_pair. apply awp_bind. do 2 (apply awp_bind; awp_step). awp_step.
    eapply awp_pair; [done|lia..|rdv| |intros vs1 He1; by steps].
    cbn [gprz SP_REG]. rewrite Hoff, wrap_add_r. exact Hs.
  - apply bind_Some in Hs as (s2 & Hs & [= <-]).
    enter dis_load_store_pair_pre_indexed. enter dis_load_store_pair. apply awp_bind. do 2 (apply awp_bind; awp_step). awp_step.
    eapply awp_pair; [done|lia..|rdv| |].
    { cbn [gprz SP_REG]. rewrite Hoff, wrap_add_r. exact Hs. }
    intros vs1 He1. steps. split; [done|]. cbn [set_gprz gprz SP_REG]. by rewrite Hoff, wrap_add_r.
Qed.
End memory.
