(* ===== verification/Arm64Target.v ===== *)
(** * The AArch64 target: contexts and signals
      ([src/src/target/arm64/arm64.c] and
      [src/src/target/arm64/syscall/arm64_signal.c])

    The context of a thread is a structure in memory, named here by the
    address of its registers, [get_target_runtime].  A guest signal handler
    runs in a context of its own, which points to the one it interrupted; the
    frame it finds on its stack, and the return from it, are plain memory. *)

From S2P Require Import Prelude Ir Jitter BeX86 BeGen CodeCache Loop Main IrRequests FrontGen TargetGen Arm64Gen Arm64Decode.

(** ** Structures *)

(** Offsets in [struct arm64_target], from its [regs]; [struct target] is
    before them. *)
Definition off_fp_status : Z := 792.
Definition off_fpcr_others : Z := 800.
Definition off_qc : Z := 808.
Definition off_is_in_syscall : Z := 812.
Definition off_fast_math_is_allow : Z := 840.
Definition off_ctx_pc : Z := 848.
Definition off_sp_init : Z := 856.
Definition off_isLooping : Z := 864.
Definition off_exitStatus : Z := 868.
Definition off_is_in_signal : Z := 872.
Definition off_in_signal_location : Z := 876.
Definition off_frame : Z := 904.
Definition off_param : Z := 912.
Definition off_prev_context : Z := 920.
Definition off_sas_ss_sp : Z := 928.
Definition off_sas_ss_size : Z := 936.
Definition off_start_on_sig_stack : Z := 944.

(** [struct rt_sigframe_arm64] *)
Definition off_uc : Z := 128.
Definition off_uc_flags : Z := off_uc.
Definition off_uc_link : Z := off_uc + 8.
Definition off_mcontext : Z := off_uc + 176.
Definition off_fault_address : Z := off_mcontext.
Definition off_mc_regs (i : Z) : Z := off_mcontext + 8 + 8 * i.
Definition off_mc_sp : Z := off_mcontext + 256.
Definition off_mc_pc : Z := off_mcontext + 264.
Definition off_mc_pstate : Z := off_mcontext + 272.
Definition off_reserved : Z := off_mcontext + 288.
Definition off_fp : Z := 4688.
Definition off_lr : Z := 4696.
Definition sizeof_rt_sigframe : Z := 4704.

(** ** Alternate stacks ([arm64_signal.c]) *)

Definition on_sig_stack (c sp : Z) (m : mem) : bool :=
  (get64 c off_sas_ss_sp m <? sp) && (wrap 64 (sp - get64 c off_sas_ss_sp m) <=? get64 c off_sas_ss_size m).

(** [SS_DISABLE], [SS_ONSTACK] *)
Definition sas_ss_flags (c sp : Z) (m : mem) : Z :=
  if get64 c off_sas_ss_size m =? 0 then 2 else if on_sig_stack c sp m then 1 else 0.

Definition sigsp (g : guest_signals) (prev signum : Z) (m : mem) : Z :=
  let sp := get64 prev (off_r 31) m in
  if negb (Z.land (sa_flags g signum) SA_ONSTACK =? 0) && (sas_ss_flags prev sp m =? 0)
  then wrap 64 (get64 prev off_sas_ss_sp m + get64 prev off_sas_ss_size m)
  else sp.

(** [None] when the assertion fails. *)
Definition is_out_of_signal_stack (c : Z) (m : mem) : option bool :=
  let p := regs_of (get64 c off_prev_context m) in
  let sp := get64 c (off_r 31) m in
  let above := get64 p (off_r 31) m <=? sp in
  if get64 c off_prev_context m =? 0 then None
  else if get32 c off_start_on_sig_stack m =? 0 then Some above
  else if negb (get32 p off_start_on_sig_stack m =? 0) then Some (above || negb (on_sig_stack c sp m))
  else Some (negb (on_sig_stack c sp m)).

(** [stack_t_arm64] at [a] *)
Definition arm64_sigaltstack (c : Z) (m : mem) : Z * mem :=
  let ss := get64 c (off_r 0) m in
  let oss := get64 c (off_r 1) m in
  let sp := get64 c (off_r 31) m in
  let old_sp := get64 c off_sas_ss_sp m in
  let old_size := get64 c off_sas_ss_size m in
  let old_flags := sas_ss_flags c sp m in
  let finish m :=
    (0, if oss =? 0 then m
        else set64 oss 16 old_size (set32 oss 8 old_flags (set64 oss 0 old_sp m))) in
  if ss =? 0 then finish m
  else
    let ss_sp := get64 ss 0 m in
    let ss_flags := get32 ss 8 m in
    let ss_size := get64 ss 16 m in
    if on_sig_stack c sp m then (- errno_EPERM, m)
    else if negb (ss_flags =? 2) && negb (ss_flags =? 1) && negb (ss_flags =? 0) then (- errno_EINVAL, m)
    else if ss_flags =? 2 then finish (set64 c off_sas_ss_size 0 (set64 c off_sas_ss_sp 0 m))
    else if ss_size <? MINSIGSTKSZ then (- errno_ENOMEM, m)
    else finish (set64 c off_sas_ss_size ss_size (set64 c off_sas_ss_sp ss_sp m)).

(** What the host is asked to install for the guest's [struct
    sigaction_arm64] at [a]. *)
Definition host_sigaction (a : Z) (m : mem) : kernel_sigaction :=
  let handler := get64 a 0 m in
  let flags := get64 a 8 m in
  let mask := get64 a 24 m in
  if (handler =? 2 ^ 64 - 1) || (handler =? 0) || (handler =? 1)
  then mkSigaction (HandlerValue handler) 0 false mask
  else mkSigaction (if negb (Z.land flags SA_SIGINFO =? 0) then wrap_signal_sigaction else wrap_signal_handler)
                   (Z.lor (Z.lor flags SA_RESTORER) SA_SIGINFO) true mask.

Section sigaction.
(** [rt_sigaction(2)] of the host: the result and the mask of the old action. *)
Context (rt_sigaction : Z -> option kernel_sigaction -> bool -> Z -> Z * Z).

Definition arm64_rt_sigaction (c : Z) (g : guest_signals) (m : mem) : Z * guest_signals * mem :=
  let signum := to_signed 32 (get64 c (off_r 0) m) in
  let act := get64 c (off_r 1) m in
  let oldact := get64 c (off_r 2) m in
  let sigset_size := get64 c (off_r 3) m in
  if (signum <? 1) || (NSIG <=? signum) then (- errno_EINVAL, g, m)
  else if (act =? 2 ^ 64 - 1) || (oldact =? 2 ^ 64 - 1) then (- errno_EFAULT, g, m)
  else
    let host := if act =? 0 then None else Some (host_sigaction act m) in
    let m := if oldact =? 0 then m else set64 oldact 0 (guest_signals_handler g signum) m in
    let g :=
      if act =? 0 then g
      else mkSignals (set_entry (guest_signals_handler g) signum (get64 act 0 m))
                     (set_entry (sa_flags g) signum (get64 act 8 m)) in
    let '(res, old_mask) := rt_sigaction signum host (negb (oldact =? 0)) sigset_size in
    let m :=
      if oldact =? 0 then m
      else set64 oldact 16 0 (set64 oldact 24 old_mask (set64 oldact 8 (sa_flags g signum) m)) in
    (res, g, m).
End sigaction.

(** ** The signal frame ([arm64.c]) *)

(** The members of [struct siginfo_arm64]; the union starts at 16. *)
Definition info_rt (pid uid : Z) (i : Z) (m : mem) : mem := set32 i 20 uid (set32 i 16 pid m).
Definition info_value (int ptr : Z) (i : Z) (m : mem) : mem := set64 i 24 ptr (set32 i 24 int m).
Definition info_fault (addr : Z) (i : Z) (m : mem) : mem := set64 i 16 addr m.
Definition info_poll (band fd : Z) (i : Z) (m : mem) : mem := set32 i 24 fd (set64 i 16 band m).
Definition info_chld (s : siginfo) (i : Z) (m : mem) : mem :=
  set32 i 32 (si_stime s) (set32 i 28 (si_utime s) (set32 i 24 (si_status s) (info_rt (si_pid s) (si_uid s) i m))).

(** [None] for [fatal] and the failed assertion. *)
Definition setup_siginfo (signum : Z) (s : siginfo) (i : Z) (m : mem) : option mem :=
  let m := set32 i 8 (si_code s) (set32 i 4 (si_errno s) (set32 i 0 (si_signo s) m)) in
  let with_value := info_value (si_int s) (si_ptr s) i in
  match to_signed 32 (si_code s) with
  | 0 (* SI_USER *) | -6 (* SI_TKILL *) => Some (info_rt (si_pid s) (si_uid s) i m)
  | 0x80 (* SI_KERNEL *) =>
      Some (if signum =? SIGPOLL then info_poll (si_band s) (si_fd s) i m
            else if signum =? SIGCHLD then info_chld s i m
            else info_fault (si_addr s) i m)
  | -1 (* SI_QUEUE *) | -3 (* SI_MESGQ *) => Some (with_value (info_rt (si_pid s) (si_uid s) i m))
  | -2 (* SI_TIMER *) => Some (with_value (set32 i 20 (si_overrun s) (set32 i 16 (si_timerid s) m)))
  | -5 (* SI_SIGIO *) | -4 (* SI_ASYNCIO *) => None
  | code =>
      if code <? 0 then None
      else
        match signum with
        | 4 | 8 | 11 | 7 | 5 (* SIGILL, SIGFPE, SIGSEGV, SIGBUS, SIGTRAP *) => Some (info_fault (si_addr s) i m)
        | 17 (* SIGCHLD *) => Some (info_chld s i m)
        | 29 (* SIGPOLL *) => Some (info_poll (si_band s) (si_fd s) i m)
        | _ => None
        end
  end.

Section frame.
(** [__executable_start] and [__etext], and [lookup_pc] on the current cache:
    the guest and the host start of a block. *)
Context `{HelperAddress} (executable_start etext : Z) (lookup_pc : Z -> Z * Z).

(** [findInsn] on the block at [guest_pc] translated once more, with a marker
    before each instruction; [~0] when there is none.  What the buffer held does
    not matter. *)
Definition find_insn_offset (guest_pc offset : Z) (m : mem) : option Z :=
  let backend := createBackend (256 * KB) in
  handle ← createJitter (256 * KB);
  '(cs, _) ← disassemble_arm64_with_marker m guest_pc 40 false;
  '(_, j) ← irAlloc_session cs handle;
  fst <$> findInsn j backend (replicate (Z.to_nat (16 * KB)) 0) offset.

(** The guest pc a signal interrupted, and where it was: [None] when an
    assertion fails. *)
Definition restore_precise_pc (prev : Z) (host_pc_signal : Z) (m : mem) : option (Z * Z) :=
  if negb (get64 prev off_helper_pc m =? 0) then
    Some (get64 prev off_helper_pc m, SIGNAL_LOCATION_JITTER_EXEC)
  else if (executable_start <=? host_pc_signal) && (host_pc_signal <? etext) then
    Some (get64 prev off_pc m, SIGNAL_LOCATION_UMEQ_CODE)
  else
    let '(jit_guest_start_pc, jit_host_start_pc) := lookup_pc host_pc_signal in
    if jit_guest_start_pc =? 0 then None
    else
      insn_offset ← find_insn_offset jit_guest_start_pc (to_signed 32 (host_pc_signal - jit_host_start_pc)) m;
      if insn_offset =? 2 ^ 32 - 1 then None
      else Some (wrap 64 (get64 prev off_pc m + insn_offset), SIGNAL_LOCATION_JITTER_EXEC).

(** The frame at [f]; the memory, and the location. *)
Definition setup_sigframe (f prev host_pc_signal : Z) (m : mem) : option (mem * Z) :=
  let m := set64 f off_fp (get64 prev (off_r 29) m) m in
  let m := set64 f off_lr (get64 prev (off_r 30) m) m in
  let m := for_each 31 (fun i m => set64 f (off_mc_regs i) (get64 prev (off_r i) m) m) m in
  let m := set64 f off_mc_sp (get64 prev (off_r 31) m) m in
  '(pc, location) ← restore_precise_pc prev host_pc_signal m;
  let m := set64 prev off_pc pc m in
  let m := set64 f off_mc_pc (get64 prev off_pc m) m in
  let m := set64 f off_mc_pstate (get32 prev off_nzcv m) m in
  let m := set64 f off_fault_address 0 m in
  Some (set32 f (off_reserved + 4) 0 (set32 f off_reserved 0 m), location).

(** Whether the handler changed the pc of the frame at [f]. *)
Definition restore_sigframe (f prev : Z) (m : mem) : bool * mem :=
  let is_pc_change := negb (get64 prev off_pc m =? get64 f off_mc_pc m) in
  let m := for_each 31 (fun i m => set64 prev (off_r i) (get64 f (off_mc_regs i) m) m) m in
  let m := set64 prev (off_r 31) (get64 f off_mc_sp m) m in
  let m := set64 prev off_pc (get64 f off_mc_pc m) m in
  (is_pc_change, set32 prev off_nzcv (get64 f off_mc_pstate m) m).

(** [mov x8, #139; svc 0; nop; b .-12] *)
Definition return_code : list Z := [0xd2801168; 0xd4000001; 0xd503201f; 0x17fffffd].

Definition setup_return_frame (sp : Z) (m : mem) : Z * mem :=
  let sp := wrap 64 (sp - 16) in
  (sp, for_each 4 (fun i m => set32 sp (4 * i) (nth (Z.to_nat i) return_code 0) m) m).

Definition setup_rt_frame (sp prev signum : Z) (s : host_signal_info) (m : mem) : option (Z * mem * Z) :=
  let sp := wrap 64 (sp - sizeof_rt_sigframe) in
  let m := set64 sp off_uc_link 0 (set64 sp off_uc_flags 0 m) in
  '(m, location) ← setup_sigframe sp prev (host_pc s) m;
  m ← (if is_sigaction_handler s then setup_siginfo signum (signal_siginfo s) sp m else Some m);
  Some (sp, m, location).

(** ** The operations of the target *)

(** [float_status] has seven members of a byte. *)
Definition copy_fp_status (c from : Z) : mem -> mem :=
  for_each 7 (fun i m => set8 c (off_fp_status + i) (load_mem IR_REG_8 m (from + off_fp_status + i)) m).

(** Registers and vectors, both cleared. *)
Definition clear_registers (c : Z) : mem -> mem :=
  for_each 32 (fun i m => set64 c (off_v_msb i) 0 (set64 c (off_v_lsb i) 0 (set64 c (off_r i) 0 m))).

(** The context of a signal handler; [signal_info] is at [param]. *)
Definition init_signal (g : guest_signals) (c prev_target entry signum param : Z) (s : host_signal_info) (m : mem) :
    option mem :=
  let prev := regs_of prev_target in
  let sp := sigsp g prev signum m in
  let sp := Z.land (wrap 64 (sp - 128)) (wrap 64 (Z.lnot 15)) in
  let m := set32 c off_start_on_sig_stack (Z.b2z (on_sig_stack prev sp m)) m in
  let '(sp, m) := setup_return_frame sp m in
  let return_code_addr := sp in
  '(sp, m, location) ← setup_rt_frame sp prev signum s m;
  let m := set32 c off_in_signal_location location m in
  let m := clear_registers c m in
  let m := copy32 c prev off_nzcv m in
  let m := copy64 c prev off_tpidr_el0 m in
  let m := copy_fp_status c prev m in
  let m := copy32 c prev off_fpcr_others m in
  let m := copy32 c prev off_qc m in
  let m := set64 c (off_r 0) signum m in
  let m := set64 c (off_r 29) (wrap 64 (sp + off_fp)) m in
  let m := set64 c (off_r 30) return_code_addr m in
  let m := set64 c (off_r 31) sp m in
  let m := set64 c off_pc entry m in
  let m := if is_sigaction_handler s
           then set64 c (off_r 2) (wrap 64 (sp + off_uc)) (set64 c (off_r 1) sp m) else m in
  let m := set64 c off_frame sp m in
  let m := set64 c off_param param m in
  let m := set64 c off_prev_context prev_target m in
  let m := set32 c off_is_in_syscall 0 m in
  let m := set32 c off_is_in_signal 1 m in
  let m := set32 c off_is_stepin 0 m in
  let m := set32 c off_fast_math_is_allow 0 m in
  let m := copy64 c prev off_sas_ss_sp m in
  let m := copy64 c prev off_sas_ss_size m in
  Some (set32 c off_exitStatus 0 m).

Definition init_thread (c parent entry stack_ptr : Z) (m : mem) : mem :=
  let p := regs_of parent in
  let m := for_each 32 (fun i m => copy64 c p (off_v_msb i) (copy64 c p (off_v_lsb i) (copy64 c p (off_r i) m))) m in
  let m := copy32 c p off_nzcv m in
  let m := copy_fp_status c p m in
  let m := copy32 c p off_fpcr_others m in
  let m := copy32 c p off_qc m in
  let m := set64 c off_tpidr_el0 (get64 p (off_r 3) m) m in
  let m := set64 c (off_r 0) 0 m in
  let m := set64 c (off_r 31) stack_ptr m in
  let m := set64 c off_pc entry m in
  let m := set32 c off_is_in_syscall 0 m in
  let m := set32 c off_is_in_signal 0 m in
  let m := set32 c off_is_stepin 0 m in
  let m := copy32 c p off_fast_math_is_allow m in
  let m := set64 c off_sas_ss_sp 0 m in
  let m := set64 c off_sas_ss_size 0 m in
  let m := set32 c off_start_on_sig_stack 0 m in
  set32 c off_in_signal_location SIGNAL_LOCATION_UNKNOWN m.

(** [float_status]: tininess before rounding is 1, everything else 0. *)
Definition init_main (c entry stack_ptr : Z) (m : mem) : mem :=
  let m := clear_registers c m in
  let m := set64 c (off_r 31) stack_ptr m in
  let m := set64 c off_pc entry m in
  let m := set64 c off_tpidr_el0 0 m in
  let m := set32 c off_nzcv 0 m in
  let m := for_each 7 (fun i m => set8 c (off_fp_status + i) (if i =? 0 then 1 else 0) m) m in
  let m := set32 c off_fpcr_others 0 m in
  let m := set32 c off_qc 0 m in
  let m := set64 c off_sp_init stack_ptr m in
  let m := set64 c off_ctx_pc entry m in
  let m := set32 c off_is_in_syscall 0 m in
  let m := set32 c off_is_in_signal 0 m in
  let m := set32 c off_is_stepin 0 m in
  let m := set32 c off_fast_math_is_allow 1 m in
  let m := set64 c off_sas_ss_sp 0 m in
  let m := set64 c off_sas_ss_size 0 m in
  let m := set32 c off_start_on_sig_stack 0 m in
  set32 c off_in_signal_location SIGNAL_LOCATION_UNKNOWN m.

(** [init]; [s] is what is at [param] when there is a signal.  [None] for
    [fatal]. *)
Definition arm64_init (g : guest_signals) (s : host_signal_info) (c prev_target entry stack_ptr signum param : Z)
    (m : mem) : option mem :=
  let m := set32 c off_isLooping 1 m in
  if negb (signum =? 0) then init_signal g c prev_target entry signum param s m
  else if negb (param =? 0) then Some (init_thread c param entry stack_ptr m)
  else if negb (stack_ptr =? 0) then Some (init_main c entry stack_ptr m)
  else None.

(** [isLooping]; a first call reports to the tracer before. *)
Definition arm64_isLooping (c : Z) (m : mem) : option (bool * mem) :=
  out ← (if negb (get32 c off_is_in_signal m =? 0) &&
            (get32 c off_in_signal_location m =? SIGNAL_LOCATION_JITTER_EXEC)
         then is_out_of_signal_stack c m else Some false);
  let m := if out : bool then set32 c off_exitStatus 1 (set32 c off_isLooping 0 m) else m in
  Some (negb (get32 c off_isLooping m =? 0), m).

Definition arm64_getExitStatus (c : Z) (m : mem) : option (Z * exit_request * mem) :=
  let prev := regs_of (get64 c off_prev_context m) in
  if get32 c off_is_in_signal m =? 0 then Some (get32 c off_exitStatus m, Resume, m)
  else if negb (get32 c off_exitStatus m =? 0) then
    let m := for_each 32 (fun i m => copy64 prev c (off_r i) m) m in
    let m := copy64 prev c off_pc m in
    if get32 c off_in_signal_location m =? SIGNAL_LOCATION_JITTER_EXEC
    then Some (get32 c off_exitStatus m, AlternateExit (get64 prev off_pc m), m) else None
  else
    let '(is_pc_change, m) := restore_sigframe (get64 c off_frame m) prev m in
    if is_pc_change then
      if get32 c off_in_signal_location m =? SIGNAL_LOCATION_JITTER_EXEC
      then Some (get32 c off_exitStatus m, AlternateExit (get64 prev off_pc m), m) else None
    else Some (get32 c off_exitStatus m, Resume, m).
End frame.
