(* ===== verification/Arm64Machine.v ===== *)
(** * The front end against the architecture: blocks

    [arm_run] runs the instructions of a block one after the other, as the
    architecture says.  A block the front end translates means the same: one
    instruction at a time, then the loop of [disassemble_arm64]. *)

From S2P Require Import Prelude Ir Jitter BeX86 BeGen X86Sem X86Exec X86Correct X86Const X86Sim X86Compile CodeCache Loop LoopBlocks LoopExec LoopTheorems Main IrRequests FrontGen FrontWp TargetGen ArmPseudo Arm64Gen Arm64Dis Arm64DisData Arm64Decode Arm64Helpers Arm64Isa Arm64Wp Arm64Sim Arm64Rules Arm64Alu Arm64Bits Arm64Memory Arm64Target.

(** ** Blocks of the architecture *)

Definition is_branch (i : arm_insn) : bool :=
  match i with
  | Branch _ _ | BranchRegister _ _ | BranchConditional _ _ | CompareBranch _ _ _ _ | TestBranch _ _ _ _ _ => true
  | _ => false
  end.

(** Straight-line code of at most [n] instructions, that ends in a branch or
    is as long as it may. *)
Fixpoint block_shape (n : nat) (l : list arm_insn) : bool :=
  match n, l with
  | S n, [i] => is_branch i || (n =? 0)%nat
  | S n, i :: l => negb (is_branch i) && block_shape n l
  | _, _ => false
  end.

Section blocks.
Context (accessible : Z -> Z -> bool).

(** The guest may read the code at [pc], and it is [l]. *)
Fixpoint code_at (m : mem) (pc : Z) (l : list arm_insn) : bool :=
  match l with
  | [] => true
  | i :: l =>
      accessible pc 4 && (fetch m pc =? encode i) && valid i && code_at m (wrap 64 (pc + 4)) l
  end.

(** The state after the instructions, and where the last one goes on. *)
Fixpoint arm_run (l : list arm_insn) (pc : Z) (s : arm_state) : option (arm_state * Z) :=
  match l with
  | [] => Some (s, pc)
  | i :: l =>
      '(s', t) ← arm_exec accessible pc i s;
      match t with Some v => Some (s', v) | None => arm_run l (wrap 64 (pc + 4)) s' end
  end.
End blocks.

Lemma arm_exec_branch accessible pc i s s' t :
  arm_exec accessible pc i s = Some (s', t) -> is_branch i = bool_decide (is_Some t).
Proof.
  destruct i; cbn [arm_exec is_branch]; intros He; repeat case_match;
    try (apply bind_Some in He as (? & _ & He)); by simplify_eq.
Qed.

Section correct.
Context `{HelperAddress} {ir_call ctx} `{!Arm64Calls ir_call ctx}.
Context {Hctx : ctx_ok ctx}.

(** ** One instruction *)

Lemma insn_correct_all pc i : insn_correct (ir_call := ir_call) (ctx := ctx) pc i.
Proof.
  destruct i;
    first [apply correct_AddSubImmediate | apply correct_AddSubShifted | apply correct_AddSubExtended
          | apply correct_AddSubCarry | apply correct_LogicalImmediate | apply correct_LogicalShifted
          | apply correct_MoveWide | apply correct_PcRelative | apply correct_BitfieldMove | apply correct_Extract
          | apply correct_ConditionalSelect | apply correct_ConditionalCompare | apply correct_ShiftVariable
          | apply correct_Divide32 | apply correct_MultiplyAdd | apply correct_MultiplyAddLong
          | apply correct_MultiplyHigh | apply correct_Reverse | apply correct_CountLeading | apply correct_Branch
          | apply correct_BranchRegister | apply correct_BranchConditional | apply correct_CompareBranch
          | apply correct_TestBranch | apply correct_LoadStore | apply correct_LoadStorePair
          | apply correct_LoadLiteral].
Qed.

(** ** The loop *)

Abbreviation gwp := (gwp ir_call ctx).

(** What is left when a block was left. *)
Definition left_block (s : arm_state) (pc : Z) : unit -> Z -> mem -> Prop :=
  fun _ v m => v = pc /\ represents ctx s m.

Lemma gwp_exit_to pc next s vs m Q :
  represents ctx s m -> gwp (put_insn (exit_to pc next);; mret tt) Q (left_block s (wrap 64 next)) false vs m.
Proof.
  intros Hm. apply gwp_last, gwp_put_insn. unfold exit_to. apply gwp_bind, gwp_mov_const, gwp_last.
  eapply gwp_mk_exit; [apply rdv_last|]. split; [done|]. by apply rep_set_pc.
Qed.

(** The code as the translator reads it from the memory of the process. *)
Lemma fetch_represents s m pc :
  represents ctx s m -> guest_accessible ctx pc 4 = true -> fetch m pc = fetch (memory s) pc.
Proof. intros Hm Ha. by apply (rep_load (ctx := ctx) IR_REG_32). Qed.

(** One turn of the loop, on the code of [m0], from a later state. *)
Lemma gwp_insn m0 s0 vs s m pc i s' t :
  represents ctx s0 m0 -> represents ctx s m ->
  guest_accessible ctx pc 4 = true -> fetch (memory s0) pc = encode i -> valid i = true ->
  arm_exec (guest_accessible ctx) pc i s = Some (s', t) ->
  gwp (put_insn (disassemble_insn pc (fetch m0 pc)))
    (fun isExit st' _ m' => isExit = false /\ st' = false /\ represents ctx s' m' /\ t = None)
    (fun isExit v m' => isExit = true /\ represents ctx s' m' /\ t = Some v) false vs m.
Proof.
  intros Hm0 Hm Ha Hf Hv He. rewrite (fetch_represents s0 m0), Hf by done. apply gwp_put_insn.
  assert (Hvs : values_ok []) by constructor.
  eapply gwp_mono; [by eapply (insn_correct_all pc i [] s s' t Hv He Hvs)| |].
  - cbn. by intros a st' vs' m' (-> & _ & s2 & Hm' & -> & -> & ->).
  - cbn. by intros a v m' (s2 & Hm' & -> & -> & ->).
Qed.

Lemma gwp_loop marker m0 s0 maxInsn l fuel k pc vs s m s' pc' :
  represents ctx s0 m0 -> represents ctx s m ->
  block_shape (Z.to_nat (maxInsn - k)) l = true -> (length l <= fuel)%nat ->
  code_at (guest_accessible ctx) (memory s0) pc l = true ->
  arm_run (guest_accessible ctx) l pc s = Some (s', pc') ->
  gwp (disassemble_loop m0 marker fuel maxInsn k pc) (fun _ _ _ _ => False) (left_block s' pc') false vs m.
Proof.
  intros Hm0. revert fuel k pc vs s m. induction l as [|i l IH]; intros fuel k pc vs s m Hm Hsh Hfuel Hcode Hrun.
  { by destruct (Z.to_nat _). }
  destruct fuel as [|fuel]; [cbn in Hfuel; lia|]. cbn [code_at arm_run disassemble_loop] in *.
  apply bind_Some in Hrun as ([s1 t] & He & Hrun). cbn [mbind] in Hrun.
  rewrite !andb_true_iff, Z.eqb_eq in Hcode. destruct Hcode as [[[Ha Hf] Hv] Hcode].
  apply gwp_bind.
  assert (Hgo : forall vs, gwp (isExit ← put_insn (disassemble_insn pc (fetch m0 pc));
      if isExit : bool then mret tt
      else
        b ← stepin;
        if k + 1 <? (if b : bool then 1 else maxInsn)
        then disassemble_loop m0 marker fuel maxInsn (k + 1) (wrap 64 (pc + 4))
        else put_insn (exit_to pc (pc + 4));; mret tt) (fun _ _ _ _ => False) (left_block s' pc') false vs m).
  2:{ destruct marker; [by apply gwp_marker|by apply gwp_ret]. }
  clear vs. intros vs. pose proof (gwp_insn m0 s0 vs s m pc i s1 t Hm0 Hm Ha Hf Hv He) as Hi.
  pose proof (arm_exec_branch _ _ _ _ _ _ He) as Hb. destruct t as [v|].
  - simplify_eq. apply (gwp_bind_exit ir_call ctx _ _ tt). eapply gwp_mono; [exact Hi| |].
    + by intros a st' vs' m' (_ & _ & _ & ?).
    + by intros a v m' (-> & Hm' & [= ->]).
  - rewrite bool_decide_eq_false_2 in Hb by (intros []; discriminate).
    apply gwp_bind. eapply gwp_mono; [exact Hi| |by intros a v m' (_ & _ & ?)].
    intros a st' vs' m' (-> & -> & Hm' & _). apply gwp_bind. intros rs Hrs. exists false, false, [].
    rewrite app_nil_r. split; [done|]. cbn [req_run]. destruct (Z.to_nat (maxInsn - k)) as [|n] eqn:En; [done|].
    destruct l as [|i' l].
    + cbn [block_shape] in Hsh. rewrite Hb in Hsh. cbn [orb] in Hsh. apply Nat.eqb_eq in Hsh as ->.
      rewrite (proj2 (Z.ltb_ge _ _)) by lia. cbn [arm_run] in Hrun. simplify_eq. by apply gwp_exit_to.
    + rewrite (proj2 (Z.ltb_lt _ _)).
      2:{ destruct n; [by destruct l, i|lia]. }
      cbn [block_shape] in Hsh. apply andb_true_iff in Hsh as [_ Hsh].
      apply (IH fuel (k + 1) _ vs' s1 m' Hm'); [by replace (Z.to_nat (maxInsn - (k + 1))) with n by lia
        |cbn in *; lia|done|done].
Qed.

(** ** A block *)

Lemma translate_block marker m s pc maxInsn l s' pc' :
  represents ctx s m -> Z.land pc 3 = 0 -> block_shape (Z.to_nat maxInsn) l = true ->
  code_at (guest_accessible ctx) (memory s) pc l = true ->
  arm_run (guest_accessible ctx) l pc s = Some (s', pc') ->
  exists reqs b m', disassemble_block m marker pc maxInsn false = Some (reqs, b) /\
    req_run ir_call ctx reqs [] m = Some (ReqExit pc' m') /\ represents ctx s' m'.
Proof.
  intros Hm Hal Hsh Hcode Hrun.
  assert (0 < maxInsn) as Hmax by (destruct maxInsn; [by destruct l|lia|by destruct l]).
  assert (length l <= Z.to_nat maxInsn)%nat as Hlen.
  { clear -Hsh. revert Hsh. generalize (Z.to_nat maxInsn). induction l as [|i l IH]; intros n Hsh; [cbn; lia|].
    destruct n as [|n]; [done|]. destruct l as [|i' l]; [cbn; lia|]. cbn [block_shape] in Hsh.
    apply andb_true_iff in Hsh as [_ Hsh]. specialize (IH n Hsh). cbn in *. lia. }
  unfold disassemble_block. rewrite Hal, (proj2 (Z.ltb_lt _ _)) by lia. cbn [Z.eqb andb].
  destruct (gwp_loop marker m s maxInsn l (Z.to_nat (Z.max 1 maxInsn)) 0 pc [] s m s' pc' Hm Hm
    ltac:(by rewrite Z.sub_0_r) ltac:(lia) Hcode Hrun [] eq_refl) as (a & st' & new & E & Hr).
  cbn [app] in E. rewrite E. cbn [mbind option_bind requests Arm64Gen.is_stepin].
  destruct (req_run ir_call ctx new [] m) as [[vs' m'|v m']|] eqn:Er; [done| |done]. destruct Hr as [-> Hm'].
  by exists new, st', m'.
Qed.
End correct.

(** * The AArch64 machine

    The front end and the target as the loop takes them, and what the loop
    runs then: a program of the architecture, block by block. *)

(** The whole context is in the address space. *)
Definition target_ok (c : Z) : Prop := sizeof_target <= c /\ c + 960 <= 2 ^ 64.
Existing Class target_ok.

#[export] Instance target_ctx_ok c : target_ok c -> ctx_ok c.
Proof. intros [H0 H1]. unfold sizeof_target in H0. split; lia. Qed.

Section machine.
Context `{HelperAddress} (c : Z) {Hc : target_ok c}.

(** [struct target]: a failed assertion ends the process.  Under single
    stepping [disassemble] also clears the flag it reads here. *)
Definition target_isLooping (m : mem) : bool * mem := default (false, m) (arm64_isLooping c m).

Definition target_disassemble (m : mem) (pc maxInsn : Z) : list irCall :=
  default [] (fst <$> disassemble_arm64 m pc maxInsn (negb (get32 c off_is_stepin m =? 0))).

Lemma target_isLooping_same m m' : target_isLooping m = (true, m') -> m' = m.
Proof.
  unfold target_isLooping, arm64_isLooping. destruct Hc as [H0 H1]. unfold sizeof_target in H0.
  match goal with |- context [default _ (?x ≫= _)] => destruct x as [[]|] end; cbn; [|congruence..].
  rewrite get32_set32_other, get32_set32 by (unfold off_isLooping, off_exitStatus; lia). done.
Qed.

Definition arm64_target : Target := {|
  isLooping := target_isLooping;
  disassemble := target_disassemble;
  isLooping_same := target_isLooping_same
|}.
End machine.

Section refinement.
Context `{Hcr : CallResults} `{HelperAddress} {ir_call} {c : Z} `{!Arm64Calls ir_call c} {Hc : target_ok c}.

(** One block of the architecture: its code is read when it is entered. *)
Inductive arm_block (maxInsn : Z) : Z * arm_state -> Z * arm_state -> Prop :=
  | arm_block_intro pc s l pc' s' :
      Z.land pc 3 = 0 -> block_shape (Z.to_nat maxInsn) l = true ->
      code_at (guest_accessible c) (memory s) pc l = true ->
      arm_run (guest_accessible c) l pc s = Some (s', pc') ->
      arm_block maxInsn (pc, s) (pc', s').

(** The memory of the process at a state of the guest. *)
Definition machine_represents (g : Z * arm_state) (h : Z * mem) : Prop := g.1 = h.1 /\ represents c g.2 h.2.


(** The block the loop translates and runs. *)
Lemma guest_block_arm maxInsn j0 (host : Host) be0 g g' h :
  @target_runtime host = c -> machine_represents g h -> arm_block maxInsn g g' ->
  @block_ready (arm64_target c) Hcr maxInsn j0 be0 h = true ->
  exists h', @guest_step (arm64_target c) host ir_call maxInsn j0 h = Some h' /\ machine_represents g' h'.
Proof.
  intros Hrt [Hpc Hm] Hb Hready. destruct g as [pc s], h as [pc2 m]. cbn in Hpc, Hm. subst pc2.
  inversion Hb as [pc1 s1 l pc' s' Hal Hsh Hcode Hrun]; subst.
  destruct (translate_block (ir_call := ir_call) false m s pc maxInsn l s' pc' Hm Hal Hsh Hcode Hrun)
    as (reqs & b & m' & Hd & Hr & Hm').
  assert (Hdis : @disassemble (arm64_target c) m pc maxInsn = reqs).
  { cbn [disassemble arm64_target]. unfold target_disassemble, get32. rewrite (rep_stepin _ _ _ Hm).
    unfold disassemble_arm64. cbn [Z.eqb negb]. by rewrite Hd. }
  unfold guest_step, guest_block, block_ready in *. cbn [fst snd] in *. rewrite Hdis in *.
  apply andb_true_iff in Hready as [Hv Hready].
  destruct (irAlloc_session reqs (resetJitter j0)) as [[[] j]|] eqn:Ej; [|done]. cbn [mbind option_bind].
  exists (pc', m'). split; [|done]. rewrite (session_block ir_call _ _ _ _ _ Hv Ej). by rewrite Hrt, Hr.
Qed.

Lemma arm_block_pc maxInsn g g' : arm_block maxInsn g g' -> 0 <= g'.1 < 2 ^ 64.
Proof.
  intros Hb. inversion Hb as [pc s l pc' s' _ Hsh _ Hrun]; subst. cbn [fst].
  clear Hb. revert pc s Hrun. generalize (Z.to_nat maxInsn) Hsh. clear. induction l as [|i l IH]; intros n Hsh pc s Hrun; [by destruct n|].
  cbn [arm_run] in Hrun. apply bind_Some in Hrun as ([s1 t] & He & Hrun). destruct t as [v|].
  - simplify_eq. destruct i; cbn [arm_exec] in He; repeat case_match;
      try (apply bind_Some in He as (? & _ & He)); simplify_eq; try (apply (wrap_range 64); lia).
  - destruct l as [|i' l]; [cbn in Hrun; simplify_eq; apply (wrap_range 64); lia|].
    destruct n as [|n]; [done|]. cbn [block_shape] in Hsh. apply andb_true_iff in Hsh as [_ Hsh]. by eapply IH.
Qed.

(** ** The program *)

Section program.
Context {host : Host} (maxInsn : Z) (j0 : jitter) (be0 : inter) (program : Z -> list irCall).
Context (I : Z * arm_state -> Prop).

(** A program of the architecture, by an invariant: it goes on, only meets
    instructions described here and accesses its own memory; the translator's
    buffers are large enough for its blocks, and a pc has the same code every
    time. *)
Record arm_program : Prop := mkArmProgram {
  ap_next : forall g, I g -> exists g', arm_block maxInsn g g' /\ I g';
  ap_translated : forall g h, I g -> machine_represents g h ->
    @block_ready (arm64_target c) Hcr maxInsn j0 be0 h = true /\
    @disassemble (arm64_target c) h.2 h.1 maxInsn = program h.1
}.

Hypothesis Hrt : @target_runtime host = c.
Hypothesis Hprog : arm_program.

(** A block of the process is a block of the architecture. *)
Lemma arm_guest_program : guest_program (T := arm64_target c) (ir_call := ir_call) maxInsn j0 be0 program (arm_block maxInsn) machine_represents I.
Proof.
  split; [apply (ap_translated Hprog)|]. intros g h Hg Hm.
  destruct (ap_next Hprog g Hg) as (g' & Hb & Hg').
  destruct (guest_block_arm maxInsn j0 host be0 g g' h Hrt Hm Hb) as (h1 & H1 & Hm1);
    [by apply (ap_translated Hprog g h)|]. by exists g', h1.
Qed.
End program.
End refinement.
