(* ===== verification/Arm64Signal.v ===== *)
(** * Contexts and signals of the AArch64 target

    What the contexts of [arm64.c] hold when a program, a thread or a signal
    handler starts, and what is left of a signal when its handler returns. *)

From S2P Require Import Prelude Ir Jitter BeX86 BeGen CodeCache Loop Main IrRequests FrontGen FrontWp TargetGen ArmPseudo Arm64Gen Arm64Decode Arm64Isa Arm64Wp Arm64Sim Arm64Target Arm64Machine.

(** ** Structures in memory *)

Create HintDb offsets.
#[export] Hint Unfold sizeof_target off_r off_pc off_v off_v_lsb off_v_msb off_tpidr_el0 off_fp_status off_fpcr_others
  off_nzcv off_qc off_is_in_syscall off_is_stepin off_helper_pc off_fast_math_is_allow off_ctx_pc off_sp_init
  off_isLooping off_exitStatus off_is_in_signal off_in_signal_location off_frame off_param off_prev_context
  off_sas_ss_sp off_sas_ss_size off_start_on_sig_stack off_uc off_uc_flags off_uc_link off_mcontext
  off_fault_address off_mc_regs off_mc_sp off_mc_pc off_mc_pstate off_reserved off_fp off_lr sizeof_rt_sigframe
  regs_of : offsets.

Ltac offsets := autounfold with offsets in *; lia.

(** ** The frame of a signal *)

(** What the frame at [f] says of the registers. *)
Definition frame_register (f : Z) (m : mem) (i : Z) : Z :=
  if i =? 31 then get64 f off_mc_sp m else get64 f (off_mc_regs i) m.

Section frame.
(** A context and a frame in memory, apart from each other. *)
Context (c f : Z) (Hc : target_ok c) (Hf : 0 <= f /\ f + sizeof_rt_sigframe <= 2 ^ 64).
Hypothesis Hcf : c + 960 <= f \/ f + sizeof_rt_sigframe <= c.

Ltac bounds := unfold target_ok in *; offsets.
Ltac others := repeat first [rewrite get64_set64_other by bounds | rewrite get64_set32_other by bounds
                            | rewrite get32_set64_other by bounds | rewrite get32_set32_other by bounds].

Lemma restore_sigframe_spec m :
  exists m', restore_sigframe f c m = (negb (get64 c off_pc m =? get64 f off_mc_pc m), m') /\
    (forall i, 0 <= i <= 31 -> XSP c m' i = frame_register f m i) /\
    nzcv c m' = wrap 32 (get64 f off_mc_pstate m) /\ get64 c off_pc m' = get64 f off_mc_pc m /\
    forall x, x < c \/ c + off_is_in_syscall <= x -> m' x = m x.
Proof.
  assert (restore_sigframe f c m =
    let m1 := copy_words IR_REG_64 31 c off_r f off_mc_regs m in
    let m2 := set64 c (off_r 31) (get64 f off_mc_sp m1) m1 in
    let m3 := set64 c off_pc (get64 f off_mc_pc m2) m2 in
    (negb (get64 c off_pc m =? get64 f off_mc_pc m), set32 c off_nzcv (get64 f off_mc_pstate m3) m3)) as -> by (unfold restore_sigframe, copy_words; reflexivity).
  assert (Hr : forall j, 0 <= j < 31 -> get64 c (off_r j) (copy_words IR_REG_64 31 c off_r f off_mc_regs m) = get64 f (off_mc_regs j) m)
    by (intros j Hj; apply (copy_words_get IR_REG_64 8 _ _ _ (f + off_mc_regs 0) c); intros; try reflexivity; bounds).
  assert (Ho : forall x, x < c \/ c + 248 <= x -> copy_words IR_REG_64 31 c off_r f off_mc_regs m x = m x)
    by (intros x Hx; apply (copy_words_at IR_REG_64 8 31 f c c); intros; try reflexivity; bounds).
  generalize dependent (copy_words IR_REG_64 31 c off_r f off_mc_regs m). intros m1 Hr Ho. cbv zeta.
  assert (Hg : forall off, 256 <= off <= 4696 -> get64 f off m1 = get64 f off m)
    by (intros off Hoff; apply get64_same; [bounds..|]; intros x Hx; apply Ho; bounds).
  eexists. split; [reflexivity|]. repeat split.
  - intros i Hi. unfold frame_register, XSP, get_reg. destruct (Z.eqb_spec i 31) as [->|Hi'].
    + change (load_mem IR_REG_64 ?m (c + off_r 31)) with (get64 c (off_r 31) m). others.
      rewrite get64_set64 by bounds. rewrite wrap_small by apply get64_range. apply Hg. bounds.
    + change (load_mem IR_REG_64 ?m (c + off_r i)) with (get64 c (off_r i) m). others. apply Hr. lia.
  - change (nzcv c ?m) with (get32 c off_nzcv m). rewrite get32_set32 by bounds. f_equal. others. apply Hg. bounds.
  - others. rewrite get64_set64 by bounds. rewrite wrap_small by apply get64_range. others. apply Hg. bounds.
  - intros x Hx. rewrite set32_at, !set64_at by bounds. apply Ho. bounds.
Qed.

Context `{HelperAddress} (executable_start etext : Z) (lookup_pc : Z -> Z * Z).
Abbreviation setup_sigframe := (setup_sigframe executable_start etext lookup_pc f c).

Lemma setup_sigframe_spec host_pc m m' location :
  setup_sigframe host_pc m = Some (m', location) ->
  (forall i, 0 <= i <= 31 -> frame_register f m' i = XSP c m i) /\
  get64 f off_mc_pstate m' = nzcv c m /\ get64 f off_mc_pc m' = get64 c off_pc m' /\
  (forall x, c <= x < c + 960 -> ~ (c + off_pc <= x < c + off_pc + 8) -> m' x = m x) /\
  forall x, x < c \/ c + 960 <= x -> x < f \/ f + sizeof_rt_sigframe <= x -> m' x = m x.
Proof.
  intros E.
  assert (setup_sigframe host_pc m =
    let m1 := set64 f off_lr (get64 c (off_r 30) (set64 f off_fp (get64 c (off_r 29) m) m))
                (set64 f off_fp (get64 c (off_r 29) m) m) in
    let m2 := copy_words IR_REG_64 31 f off_mc_regs c off_r m1 in
    let m3 := set64 f off_mc_sp (get64 c (off_r 31) m2) m2 in
    '(pc, location) ← restore_precise_pc executable_start etext lookup_pc c host_pc m3;
    let m4 := set64 c off_pc pc m3 in
    let m5 := set64 f off_mc_pc (get64 c off_pc m4) m4 in
    let m6 := set64 f off_fault_address 0 (set64 f off_mc_pstate (get32 c off_nzcv m5) m5) in
    Some (set32 f (off_reserved + 4) 0 (set32 f off_reserved 0 m6), location)) as E'
    by (unfold Arm64Target.setup_sigframe, copy_words; reflexivity).
  rewrite E' in E. clear E'. cbv zeta in E.
  set (m1 := set64 f off_lr _ _) in E.
  assert (Hm1 : forall x, x < f \/ f + sizeof_rt_sigframe <= x -> m1 x = m x)
    by (intros x Hx; unfold m1; by rewrite !set64_at by bounds).
  clearbody m1. set (m3 := set64 f off_mc_sp _ _) in E.
  assert (Ho : forall x, x < f \/ f + sizeof_rt_sigframe <= x -> m3 x = m x).
  { intros x Hx. unfold m3. rewrite set64_at by bounds.
    rewrite (copy_words_at IR_REG_64 8 31 c f (f + off_mc_regs 0)) by (intros; try reflexivity; bounds). by apply Hm1. }
  assert (Hr : forall i, 0 <= i <= 31 -> frame_register f m3 i = XSP c m i).
  { intros i Hi. transitivity (get64 c (off_r i) m1).
    - unfold frame_register, m3. destruct (Z.eqb_spec i 31) as [->|Hi'].
      + rewrite get64_set64 by bounds. rewrite wrap_small by apply get64_range. apply get64_same; [bounds..|].
        intros x Hx. apply (copy_words_at IR_REG_64 8 31 c f (f + off_mc_regs 0)); intros; try reflexivity; bounds.
      + others. apply (copy_words_get IR_REG_64 8 _ _ _ c (f + off_mc_regs 0)); intros; try reflexivity; bounds.
    - apply get64_same; [bounds..|]. intros x Hx. apply Hm1. bounds. }
  clearbody m3. apply bind_Some in E as ([pc loc] & _ & [= <- <-]).
  assert (Hn : nzcv c m3 = nzcv c m) by (apply (get32_same c off_nzcv); [bounds..|]; intros x Hx; apply Ho; bounds).
  repeat split.
  - intros i Hi. rewrite <- Hr by done. unfold frame_register. destruct (i =? 31); others; reflexivity.
  - others. rewrite get64_set64 by bounds. others. change (get32 c off_nzcv m3) with (nzcv c m3).
    rewrite wrap_small; [done|]. pose proof (get32_range c off_nzcv m3). unfold nzcv, get32 in *. lia.
  - others. rewrite get64_set64 by bounds. rewrite wrap_small by apply get64_range. symmetry. others. reflexivity.
  - intros x Hx Hpc. rewrite !set32_at, !set64_at by bounds. apply Ho. bounds.
  - intros x Hx Hx'. rewrite !set32_at, !set64_at by bounds. by apply Ho.
Qed.
End frame.

(** ** The registers of a context *)

Section context.
Context (c : Z) (Hc : target_ok c) (f : Z -> mem -> mem) (v : Z -> Z) (m0 : mem).
Hypothesis Hat : forall i m x, 0 <= i < 32 ->
  ~ (c + off_r i <= x < c + off_r i + 8) -> ~ (c + off_v i <= x < c + off_v i + 16) -> f i m x = m x.
Hypothesis Hset : forall i m, 0 <= i < 32 -> (forall x, x < c \/ c + off_tpidr_el0 <= x -> m x = m0 x) ->
  get64 c (off_r i) (f i m) = v i.

Lemma context_loop :
  (forall j, 0 <= j < 32 -> get64 c (off_r j) (for_each 32 f m0) = v j) /\
  forall x, x < c \/ c + off_tpidr_el0 <= x -> for_each 32 f m0 x = m0 x.
Proof.
  destruct Hc as [Hc0 Hc1]. unfold sizeof_target in Hc0.
  refine (for_each_inv (fun n m => (forall j, 0 <= j < n -> get64 c (off_r j) m = v j) /\
    forall x, x < c \/ c + off_tpidr_el0 <= x -> m x = m0 x) 32 f m0 _ _); [split; [lia|done]|].
  intros i m Hi [Hr Ho]. split.
  - intros j Hj. destruct (decide (j = i)) as [->|Hne]; [by apply Hset|].
    rewrite <- Hr by lia. apply get64_same; [offsets..|]. intros x Hx. apply Hat; offsets.
  - intros x Hx. rewrite Hat by offsets. by apply Ho.
Qed.
End context.

Ltac at_fields := repeat first [rewrite set32_at by offsets | rewrite set64_at by offsets].

Ltac context_at := intros; unfold target_ok in *; at_fields; try reflexivity.

Lemma clear_registers_spec c m :
  target_ok c ->
  (forall j, 0 <= j < 32 -> get64 c (off_r j) (clear_registers c m) = 0) /\
  forall x, x < c \/ c + off_tpidr_el0 <= x -> clear_registers c m x = m x.
Proof.
  intros Hc. apply (context_loop c Hc _ (fun _ => 0)).
  - context_at.
  - intros i m' Hi _. destruct Hc. rewrite !get64_set64_other, get64_set64 by offsets. done.
Qed.

Lemma fp_status_at c f m x :
  target_ok c -> x < c + off_fp_status \/ c + off_fpcr_others <= x ->
  for_each 7 (fun i m => set8 c (off_fp_status + i) (f i m) m) m x = m x.
Proof. intros [] Hx. apply for_each_at. intros i m' Hi. apply set8_at; offsets. Qed.

(** Reading past the writes of other fields. *)
Ltac other_fields :=
  repeat first [rewrite get64_set64_other by offsets | rewrite get64_set32_other by offsets
               | rewrite get32_set64_other by offsets | rewrite get32_set32_other by offsets].

(** A field of the context, past the writes of others and the floating point
    status. *)
Lemma past_fp_status c f m :
  target_ok c ->
  let m' := for_each 7 (fun i m => set8 c (off_fp_status + i) (f i m) m) m in
  (forall off, 0 <= off -> off + 8 <= off_fp_status \/ off_fpcr_others <= off <= 952 -> get64 c off m' = get64 c off m) /\
  (forall off, 0 <= off -> off + 4 <= off_fp_status \/ off_fpcr_others <= off <= 956 -> get32 c off m' = get32 c off m) /\
  forall x, x < c \/ c + 960 <= x -> m' x = m x.
Proof.
  intros Hc m'. pose proof Hc as [Hc0 Hc1].
  split; [|split]; intros;
    [apply get64_same; [offsets..|]; intros|apply get32_same; [offsets..|]; intros|];
    apply (fp_status_at c f); offsets || done.
Qed.

Ltac field_of H64 H32 :=
  repeat first [rewrite get64_set64_other by offsets | rewrite get64_set32_other by offsets
               | rewrite get32_set64_other by offsets | rewrite get32_set32_other by offsets
               | rewrite H64 by offsets | rewrite H32 by offsets];
  first [rewrite get64_set64 by offsets | rewrite get32_set32 by offsets | idtac].

Lemma init_main_spec c entry sp m :
  target_ok c ->
  let m' := init_main c entry sp m in
  (forall i, 0 <= i <= 31 -> XSP c m' i = if i =? 31 then wrap 64 sp else 0) /\
  nzcv c m' = 0 /\ get32 c off_is_stepin m' = 0 /\ get64 c off_pc m' = wrap 64 entry /\
  get32 c off_is_in_signal m' = 0 /\ (get32 c off_isLooping m' = get32 c off_isLooping m) /\
  forall x, x < c \/ c + 960 <= x -> m' x = m x.
Proof.
  intros Hc m'. destruct (clear_registers_spec c m Hc) as [Hr Ho]. unfold m', init_main.
  generalize dependent (clear_registers c m). intros m1 Hr Ho. clear m'.
  match goal with |- context [for_each 7 ?f ?m] =>
    pose proof (past_fp_status c (fun i _ => if i =? 0 then 1 else 0) m Hc) as H; cbv beta zeta in H;
    generalize dependent (for_each 7 f m) end. intros m2 (H64 & H32 & Hx). destruct Hc.
  repeat split; try (by field_of H64 H32).
  - intros i Hi. change (XSP c ?m i) with (get64 c (off_r i) m). destruct (Z.eqb_spec i 31) as [->|Hi'].
    + by field_of H64 H32.
    + field_of H64 H32. apply Hr. lia.
  - change (nzcv c ?m) with (get32 c off_nzcv m). by field_of H64 H32.
  - field_of H64 H32. apply get32_same; [offsets..|]. intros x Hx'. apply Ho. offsets.
  - intros x Hx'. at_fields. rewrite Hx by lia. at_fields. apply Ho. offsets.
Qed.

(** What a fresh context represents. *)
Lemma starts_looping c m :
  target_ok c -> get32 c off_is_in_signal m = 0 -> get32 c off_isLooping m = 1 -> target_isLooping c m = (true, m).
Proof. intros Hc Hs Hl. unfold target_isLooping, arm64_isLooping. rewrite Hs. cbn. by rewrite Hl. Qed.

(** The fields of a thread, whatever is copied. *)
Lemma thread_fields c nz fp others qc tp sp entry fast m1 :
  target_ok c ->
  let m2 := for_each 7 (fun i m => set8 c (off_fp_status + i) (fp i m) m) (set32 c off_nzcv nz m1) in
  let m3 := set64 c off_tpidr_el0 tp (set32 c off_qc qc (set32 c off_fpcr_others others m2)) in
  let m4 := set64 c off_pc entry (set64 c (off_r 31) sp (set64 c (off_r 0) 0 m3)) in
  let m5 := set32 c off_is_stepin 0 (set32 c off_is_in_signal 0 (set32 c off_is_in_syscall 0 m4)) in
  let m6 := set64 c off_sas_ss_size 0 (set64 c off_sas_ss_sp 0 (set32 c off_fast_math_is_allow fast m5)) in
  let m' := set32 c off_in_signal_location SIGNAL_LOCATION_UNKNOWN (set32 c off_start_on_sig_stack 0 m6) in
  (forall i, 0 <= i <= 31 ->
     XSP c m' i = if i =? 31 then wrap 64 sp else if i =? 0 then 0 else get64 c (off_r i) m1) /\
  nzcv c m' = wrap 32 nz /\ get32 c off_is_stepin m' = 0 /\ get64 c off_pc m' = wrap 64 entry /\
  get64 c off_tpidr_el0 m' = wrap 64 tp /\
  get32 c off_is_in_signal m' = 0 /\ get32 c off_isLooping m' = get32 c off_isLooping m1 /\
  forall x, x < c \/ c + 960 <= x -> m' x = m1 x.
Proof.
  intros Hc m2. pose proof (past_fp_status c fp (set32 c off_nzcv nz m1) Hc) as H. cbv zeta in H. fold m2 in H.
  clearbody m2. destruct H as (H64 & H32 & Hx), Hc. cbv zeta.
  repeat split; try (by field_of H64 H32).
  - intros i Hi. change (XSP c ?m i) with (get64 c (off_r i) m).
    destruct (Z.eqb_spec i 31) as [->|Hi']; [by field_of H64 H32|].
    destruct (Z.eqb_spec i 0) as [->|Hi0]; by field_of H64 H32.
  - change (nzcv c ?m) with (get32 c off_nzcv m). by field_of H64 H32.
  - intros x Hx'. at_fields. rewrite Hx by lia. by at_fields.
Qed.

Lemma init_thread_spec c p entry sp m :
  target_ok c -> target_ok p -> c + 960 <= p \/ p + 960 <= c ->
  let m' := init_thread c (p - sizeof_target) entry sp m in
  (forall i, 0 <= i <= 31 ->
     XSP c m' i = if i =? 31 then wrap 64 sp else if i =? 0 then 0 else get64 p (off_r i) m) /\
  nzcv c m' = nzcv p m /\ get32 c off_is_stepin m' = 0 /\ get64 c off_pc m' = wrap 64 entry /\
  get64 c off_tpidr_el0 m' = get64 p (off_r 3) m /\
  get32 c off_is_in_signal m' = 0 /\ get32 c off_isLooping m' = get32 c off_isLooping m /\
  forall x, x < c \/ c + 960 <= x -> m' x = m x.
Proof.
  intros Hc Hp Hcp m'. unfold m', init_thread, regs_of, copy_fp_status. clear m'. rewrite Z.sub_add.
  match goal with |- context [for_each 32 ?f m] =>
    pose proof (context_loop c Hc f (fun i => get64 p (off_r i) m) m) as Hl;
    generalize dependent (for_each 32 f m) end. intros m1 Hl.
  destruct Hl as [Hr Ho].
  { unfold copy64. context_at. }
  { intros i m' Hi Hx. unfold copy64. destruct Hc, Hp. rewrite !get64_set64_other, get64_set64 by offsets.
    rewrite wrap_small by apply get64_range. apply get64_same; [offsets..|]. intros x Hx'. apply Hx. offsets. }
  unfold copy32, copy_fp_status. cbv zeta. set (nz := get32 p off_nzcv m1).
  assert (Hnz : nz = nzcv p m) by (destruct Hp, Hc; apply get32_same; [offsets..|]; intros; apply Ho; offsets).
  set (m2 := for_each 7 _ _). set (others := get32 p off_fpcr_others m2). set (qc := get32 p off_qc _).
  set (tp := get64 p (off_r 3) _). set (fast := get32 p off_fast_math_is_allow _).
  pose proof (thread_fields c nz (fun i m => load_mem IR_REG_8 m (p + off_fp_status + i)) others qc tp sp entry fast m1 Hc) as H.
  cbv beta zeta in H. fold m2 in H. 
  assert (Htp : tp = get64 p (off_r 3) m).
  { subst tp. clear H fast. pose proof (past_fp_status c (fun i m => load_mem IR_REG_8 m (p + off_fp_status + i)) (set32 c off_nzcv nz m1) Hc) as H.
    cbv beta zeta in H. fold m2 in H. destruct H as (_ & _ & Hx). clearbody m2 others qc. destruct Hc, Hp. other_fields.
    apply get64_same; [offsets..|]. intros x Hx'. rewrite Hx by offsets. at_fields. apply Ho. offsets. }
  clearbody tp fast qc others m2. subst tp. destruct H as (H1 & H2 & H3 & H4 & H5 & H6 & H7 & H8).
  repeat split; try done.
  - intros i Hi. rewrite H1 by done. destruct (i =? 31), (i =? 0); try done. apply Hr. lia.
  - rewrite H2, Hnz. apply wrap_small. apply (load_mem_range IR_REG_32).
  - rewrite H5. apply wrap_small, get64_range.
  - rewrite H7. destruct Hc. apply get32_same; [offsets..|]. intros; apply Ho; offsets.
  - intros x Hx. rewrite H8 by done. apply Ho. offsets.
Qed.

(** *** The handler of a signal *)

Lemma setup_siginfo_at signum s i m m' x :
  0 <= i -> i + 128 <= 2 ^ 64 -> setup_siginfo signum s i m = Some m' -> x < i \/ i + 128 <= x -> m' x = m x.
Proof.
  intros H0 H1 E Hx. unfold setup_siginfo, info_chld, info_rt, info_value, info_fault, info_poll in E.
  repeat case_match; simplify_eq; by at_fields.
Qed.

(** The union members of a [siginfo_t] that sigaction(2) documents, by the code
    of the signal when it says who sent it, and by the signal otherwise. *)
Inductive si_layout := SIL_KILL | SIL_TIMER | SIL_RT | SIL_FAULT | SIL_CHLD | SIL_POLL.

Definition siginfo_layout (signum code : Z) : option si_layout :=
  if (code =? 0) || (code =? -6) then Some SIL_KILL
  else if code =? -2 then Some SIL_TIMER
  else if (code =? -1) || (code =? -3) then Some SIL_RT
  else if code <? 0 then None
  else if bool_decide (signum ∈ [4; 5; 7; 8; 11]) then Some SIL_FAULT
  else if signum =? SIGCHLD then Some SIL_CHLD
  else if signum =? SIGPOLL then Some SIL_POLL
  else if code =? 0x80 then Some SIL_FAULT
  else None.

(** The members: offset, width and value. *)
Definition siginfo_members (l : si_layout) (s : siginfo) : list (Z * irRegisterType * Z) :=
  [(0, IR_REG_32, si_signo s); (4, IR_REG_32, si_errno s); (8, IR_REG_32, si_code s)] ++
  match l with
  | SIL_KILL => [(16, IR_REG_32, si_pid s); (20, IR_REG_32, si_uid s)]
  | SIL_TIMER => [(16, IR_REG_32, si_timerid s); (20, IR_REG_32, si_overrun s); (24, IR_REG_64, si_ptr s)]
  | SIL_RT => [(16, IR_REG_32, si_pid s); (20, IR_REG_32, si_uid s); (24, IR_REG_64, si_ptr s)]
  | SIL_FAULT => [(16, IR_REG_64, si_addr s)]
  | SIL_CHLD => [(16, IR_REG_32, si_pid s); (20, IR_REG_32, si_uid s); (24, IR_REG_32, si_status s);
                 (28, IR_REG_32, si_utime s); (32, IR_REG_32, si_stime s)]
  | SIL_POLL => [(16, IR_REG_64, si_band s); (24, IR_REG_32, si_fd s)]
  end.

Definition member_at (i : Z) (m : mem) (member : Z * irRegisterType * Z) : Prop :=
  let '(off, w, v) := member in load_mem w m (i + off) = wrap (bits w) v.

(** The [siginfo_arm64] at [i] tells of the signal what it should. *)
Definition siginfo_shows (signum : Z) (s : siginfo) (i : Z) (m : mem) : Prop :=
  exists l, siginfo_layout signum (to_signed 32 (si_code s)) = Some l /\ Forall (member_at i m) (siginfo_members l s).

Lemma siginfo_members_in l s off w v :
  (off, w, v) ∈ siginfo_members l s -> 0 <= off /\ off + bits w / 8 <= 128.
Proof.
  intros H. assert (Hall : Forall (fun x => 0 <= x.1.1 /\ x.1.1 + bits x.1.2 / 8 <= 128) (siginfo_members l s))
    by (destruct l; repeat constructor; done).
  rewrite Forall_forall in Hall. exact (Hall _ H).
Qed.

Lemma siginfo_shows_same signum s i m m' :
  0 <= i -> i + 128 <= 2 ^ 64 -> (forall x, i <= x < i + 128 -> m' x = m x) ->
  siginfo_shows signum s i m -> siginfo_shows signum s i m'.
Proof.
  intros H0 H1 Hm (l & Hl & Hall). exists l. split; [done|]. rewrite Forall_forall in Hall |- *.
  intros [[off w] v] Hin. pose proof (siginfo_members_in _ _ _ _ _ Hin) as Hr. specialize (Hall _ Hin). cbn in *.
  rewrite <- Hall. assert (0 <= bits w / 8) by (by destruct w). apply load_same; [lia..|].
  intros x Hx. apply Hm. lia.
Qed.

(** What is written of each layout. *)
Definition siginfo_writes (l : si_layout) (s : siginfo) (i : Z) (m : mem) : mem :=
  match l with
  | SIL_KILL => info_rt (si_pid s) (si_uid s) i m
  | SIL_TIMER => info_value (si_int s) (si_ptr s) i (set32 i 20 (si_overrun s) (set32 i 16 (si_timerid s) m))
  | SIL_RT => info_value (si_int s) (si_ptr s) i (info_rt (si_pid s) (si_uid s) i m)
  | SIL_FAULT => info_fault (si_addr s) i m
  | SIL_CHLD => info_chld s i m
  | SIL_POLL => info_poll (si_band s) (si_fd s) i m
  end.

Lemma setup_siginfo_layout signum s i m m' :
  setup_siginfo signum s i m = Some m' ->
  exists l, siginfo_layout signum (to_signed 32 (si_code s)) = Some l /\
    m' = siginfo_writes l s i (set32 i 8 (si_code s) (set32 i 4 (si_errno s) (set32 i 0 (si_signo s) m))).
Proof.
  unfold setup_siginfo, SIGPOLL, SIGCHLD.
  match goal with |- context [set32 i 8 ?c ?x] => generalize (set32 i 8 c x) end. intros m1.
  repeat case_match; intros E; try discriminate E; injection E as <-;
    try match goal with H : (Z.neg _ <? 0) = false |- _ => discriminate H end;
    try match goal with H : (signum =? _) = true |- _ => apply Z.eqb_eq in H as -> end;
    try (eexists; split; [reflexivity|reflexivity]).
  exists SIL_FAULT. split; [|done]. unfold siginfo_layout, SIGPOLL, SIGCHLD.
  repeat match goal with H : (signum =? _) = false |- _ => rewrite H; clear H end. by destruct (bool_decide _).
Qed.

Lemma setup_siginfo_shows signum s i m m' :
  0 <= i -> i + 128 <= 2 ^ 64 -> setup_siginfo signum s i m = Some m' -> siginfo_shows signum s i m'.
Proof.
  intros H0 H1 (l & Hl & ->)%setup_siginfo_layout. exists l. split; [done|].
  unfold siginfo_writes, info_chld, info_rt, info_value, info_fault, info_poll.
  destruct l; repeat constructor; unfold member_at;
    change (load_mem IR_REG_32 ?m (i + ?o)) with (get32 i o m); change (load_mem IR_REG_64 ?m (i + ?o)) with (get64 i o m);
    other_fields; rewrite ?get32_set32, ?get64_set64 by lia; done.
Qed.

Lemma return_code_spec sp m :
  16 <= sp <= 2 ^ 64 ->
  exists m', setup_return_frame sp m = (sp - 16, m') /\
    (forall i, 0 <= i < 4 -> fetch m' (sp - 16 + 4 * i) = nth (Z.to_nat i) return_code 0) /\
    forall x, x < sp - 16 \/ sp <= x -> m' x = m x.
Proof.
  intros Hsp. unfold setup_return_frame. rewrite wrap_small by lia. eexists. split; [reflexivity|].
  assert (Hat : forall x, x < sp - 16 \/ sp <= x ->
    for_each 4 (fun i m => set32 (sp - 16) (4 * i) (nth (Z.to_nat i) return_code 0) m) m x = m x)
    by (intros x Hx; apply for_each_at; intros; apply set32_at; lia).
  split; [|exact Hat]. intros i Hi. change (fetch ?m (sp - 16 + 4 * i)) with (get32 (sp - 16) (4 * i) m).
  change (for_each 4 ?f m) with (f 3 (f 2 (f 1 (f 0 m)))). cbv beta.
  assert (i = 0 \/ i = 1 \/ i = 2 \/ i = 3) as [-> | [-> | [-> | ->]]] by lia; cbn [return_code nth Z.to_nat Pos.to_nat Pos.iter_op Nat.add];
    rewrite ?get32_set32_other by lia; rewrite get32_set32 by lia; reflexivity.
Qed.

(** The context of a handler: [m1] was the memory with its registers cleared,
    and [sp] its frame. *)
Record handler_context (c nz signum sp ret entry : Z) (info : bool) (prev : Z) (m1 m' : mem) : Prop := {
  hc_register : forall i, 0 <= i <= 31 ->
    XSP c m' i =
    match i with
    | 0 => wrap 64 signum
    | 1 => if info then sp else get64 c (off_r i) m1
    | 2 => if info then sp + off_uc else get64 c (off_r i) m1
    | 29 => sp + off_fp | 30 => wrap 64 ret | 31 => sp
    | _ => get64 c (off_r i) m1
    end;
  hc_flags : nzcv c m' = wrap 32 nz;
  hc_stepin : get32 c off_is_stepin m' = 0;
  hc_pc : get64 c off_pc m' = wrap 64 entry;
  hc_in_signal : get32 c off_is_in_signal m' = 1;
  hc_prev : get64 c off_prev_context m' = wrap 64 prev;
  hc_frame : get64 c off_frame m' = sp;
  hc_other : forall x, x < c \/ c + 960 <= x -> m' x = m1 x
}.

Lemma handler_fields c nz tp fp others qc signum sp ret entry info param prev ss_sp ss_size m1 :
  target_ok c -> 0 <= sp -> sp + sizeof_rt_sigframe <= 2 ^ 64 ->
  let m2 := for_each 7 (fun i m => set8 c (off_fp_status + i) (fp i m) m) (set64 c off_tpidr_el0 tp (set32 c off_nzcv nz m1)) in
  let m3 := set64 c (off_r 0) signum (set32 c off_qc qc (set32 c off_fpcr_others others m2)) in
  let m4 := set64 c off_pc entry (set64 c (off_r 31) sp (set64 c (off_r 30) ret (set64 c (off_r 29) (wrap 64 (sp + off_fp)) m3))) in
  let m5 := if info : bool then set64 c (off_r 2) (wrap 64 (sp + off_uc)) (set64 c (off_r 1) sp m4) else m4 in
  let m6 := set32 c off_is_in_syscall 0 (set64 c off_prev_context prev (set64 c off_param param (set64 c off_frame sp m5))) in
  let m7 := set32 c off_fast_math_is_allow 0 (set32 c off_is_stepin 0 (set32 c off_is_in_signal 1 m6)) in
  let m' := set32 c off_exitStatus 0 (set64 c off_sas_ss_size ss_size (set64 c off_sas_ss_sp ss_sp m7)) in
  handler_context c nz signum sp ret entry info prev m1 m'.
Proof.
  intros Hc Hsp Hsp' m2. unfold sizeof_rt_sigframe in Hsp'.
  pose proof (past_fp_status c fp (set64 c off_tpidr_el0 tp (set32 c off_nzcv nz m1)) Hc) as H.
  cbv zeta in H. fold m2 in H.
  clearbody m2. destruct H as (H64 & H32 & Hx), Hc. cbv zeta.
  split.
  - intros i Hi. change (XSP c ?m i) with (get64 c (off_r i) m).
    destruct (decide (i = 0 \/ i = 1 \/ i = 2 \/ i = 29 \/ i = 30 \/ i = 31)) as [Hs|Hs].
    + destruct Hs as [-> | [-> | [-> | [-> | [-> | ->]]]]]; destruct info; field_of H64 H32;
        rewrite ?wrap_wrap, ?(wrap_small 64 sp), ?(wrap_small 64 (sp + _)) by offsets; reflexivity.
    + transitivity (get64 c (off_r i) m1); [destruct info; by field_of H64 H32|].
      destruct i as [|p|p]; [lia| |lia]. do 5 (destruct p as [p|p|]; try lia; try done).
  - change (nzcv c ?m) with (get32 c off_nzcv m). destruct info; by field_of H64 H32.
  - by field_of H64 H32.
  - destruct info; by field_of H64 H32.
  - by field_of H64 H32.
  - destruct info; by field_of H64 H32.
  - destruct info; field_of H64 H32; apply wrap_small; lia.
  - intros x Hx'. destruct info; at_fields; rewrite Hx by lia; by at_fields.
Qed.

Lemma start_stack_aligned sp : 128 <= sp < 2 ^ 64 ->
  let a := Z.land (wrap 64 (sp - 128)) (wrap 64 (Z.lnot 15)) in a mod 16 = 0 /\ sp - 144 < a <= sp - 128.
Proof.
  intros Hsp a.  assert (a = 16 * ((sp - 128) / 16)) as ->.
  { assert (a = wrap 64 (Z.land (sp - 128) (Z.lnot 15))) as ->.
    { apply Z.bits_inj'. intros n Hn. unfold a. rewrite Z.land_spec, !testbit_wrap, Z.land_spec by lia. by destruct (n <? 64), (Z.testbit (sp - 128) n). }
    rewrite <- Z.ldiff_land. change 15 with (Z.ones 4). rewrite Z.ldiff_ones_r, Z.shiftl_mul_pow2, Z.shiftr_div_pow2 by lia.
    change (2 ^ 4) with 16. rewrite wrap_small; [lia|]. pose proof (Z.mod_pos_bound (sp - 128) 16). pose proof (Z.div_mod (sp - 128) 16). lia. }
  split; [by rewrite Z.mul_comm, Z.mod_mul|]. pose proof (Z.mod_pos_bound (sp - 128) 16). pose proof (Z.div_mod (sp - 128) 16). lia.
Qed.

Section handler.
Context `{HelperAddress} (executable_start etext : Z) (lookup_pc : Z -> Z * Z).
Context (c p : Z) (Hc : target_ok c) (Hp : target_ok p) (Hcp : c + 960 <= p \/ p + 960 <= c).
Context (g : guest_signals) (s : host_signal_info) (entry signum param sp0 : Z) (m : mem).

(** The stack it starts on is large enough, and apart from the contexts. *)
Definition handler_stack : Z := Z.land (wrap 64 (sp0 - 128)) (wrap 64 (Z.lnot 15)).
Definition handler_frame : Z := handler_stack - 16 - sizeof_rt_sigframe.
Hypothesis Hsp0 : sigsp g p signum m = sp0 /\ 4864 <= sp0 < 2 ^ 64.
Hypothesis Hcf : c + 960 <= handler_frame \/ handler_stack <= c.
Hypothesis Hpf : p + 960 <= handler_frame \/ handler_stack <= p.

Lemma setup_rt_frame_spec sp m1 f m2 location :
  setup_rt_frame executable_start etext lookup_pc sp p signum s m1 = Some (f, m2, location) ->
  sp = handler_stack - 16 ->
  f = handler_frame /\
  (forall i, 0 <= i <= 31 -> frame_register f m2 i = XSP p m1 i) /\
  get64 f off_mc_pstate m2 = nzcv p m1 /\ get64 f off_mc_pc m2 = get64 p off_pc m2 /\
  (is_sigaction_handler s = true -> siginfo_shows signum (signal_siginfo s) f m2) /\
  (forall x, p <= x < p + 960 -> ~ (p + off_pc <= x < p + off_pc + 8) -> m2 x = m1 x) /\
  forall x, x < p \/ p + 960 <= x -> x < f \/ f + sizeof_rt_sigframe <= x -> m2 x = m1 x.
Proof.
  intros E Hsp. destruct Hsp0 as [_ Hr]. destruct (start_stack_aligned sp0 ltac:(lia)) as [_ Hst].
  fold handler_stack in Hst.
  unfold setup_rt_frame in E. rewrite wrap_small in E by offsets.
  replace (sp - sizeof_rt_sigframe) with handler_frame in E by (unfold handler_frame; lia).
  apply bind_Some in E as ([m3 loc] & E & Es). apply bind_Some in Es as (m4 & Es & [= <- <- <-]).
  assert (Hf : 0 <= handler_frame /\ handler_frame + sizeof_rt_sigframe <= 2 ^ 64) by (unfold handler_frame; offsets).
  assert (Hpf' : p + 960 <= handler_frame \/ handler_frame + sizeof_rt_sigframe <= p) by (unfold handler_frame in *; offsets).
  destruct (setup_sigframe_spec p handler_frame Hp Hf Hpf' _ _ _ _ _ _ _ E) as (Sr & Sn & Sp & Sc & So).
  assert (Hi : forall x, x < handler_frame \/ handler_frame + 128 <= x -> m4 x = m3 x).
  { destruct (is_sigaction_handler s); [|by simplify_eq]. intros x Hx. eapply setup_siginfo_at; [| |exact Es|exact Hx]; offsets. }
  assert (Hg : forall off, 128 <= off -> off + 8 <= sizeof_rt_sigframe -> get64 handler_frame off m4 = get64 handler_frame off m3)
    by (intros; apply get64_same; [lia..|]; intros; apply Hi; lia).
  assert (Hm1 : forall x, x < handler_frame \/ handler_frame + sizeof_rt_sigframe <= x ->
    set64 handler_frame off_uc_link 0 (set64 handler_frame off_uc_flags 0 m1) x = m1 x)
    by (intros; by rewrite !set64_at by offsets).
  destruct Hp as [Hp0 Hp1]. split; [done|]. repeat split.
  - intros i Hii. transitivity (frame_register handler_frame m3 i).
    + unfold frame_register. destruct (i =? 31); apply Hg; offsets.
    + rewrite Sr by done. apply (get64_same p (off_r i)); [offsets..|]. intros; apply Hm1; offsets.
  - rewrite Hg, Sn by offsets. apply (get32_same p off_nzcv); [offsets..|]. intros; apply Hm1; offsets.
  - rewrite Hg, Sp by offsets. symmetry. apply get64_same; [offsets..|]. intros; apply Hi; offsets.
  - intros Hinfo. rewrite Hinfo in Es. eapply setup_siginfo_shows; [| |exact Es]; offsets.
  - intros x Hx Hx'. rewrite Hi by offsets. rewrite Sc by done. apply Hm1; offsets.
  - intros x Hx Hx'. rewrite Hi by offsets. rewrite So by done. by apply Hm1.
Qed.

Lemma init_signal_spec prev_target m' :
  prev_target = p - sizeof_target ->
  init_signal executable_start etext lookup_pc g c prev_target entry signum param s m = Some m' ->
  handler_frame mod 16 = 0 /\ handler_stack <= sp0 - 128 /\
  (exists m4, handler_context c (nzcv p m) signum handler_frame (handler_stack - 16) entry
     (is_sigaction_handler s) prev_target m4 m' /\ forall j, 0 <= j < 32 -> get64 c (off_r j) m4 = 0) /\
  (forall i, 0 <= i < 4 -> fetch m' (handler_stack - 16 + 4 * i) = nth (Z.to_nat i) return_code 0) /\
  (forall i, 0 <= i <= 31 -> frame_register handler_frame m' i = XSP p m i) /\
  get64 handler_frame off_mc_pstate m' = nzcv p m /\ get64 handler_frame off_mc_pc m' = get64 p off_pc m' /\
  (is_sigaction_handler s = true -> siginfo_shows signum (signal_siginfo s) handler_frame m') /\
  forall x, x < c \/ c + 960 <= x -> x < p + off_pc \/ p + off_pc + 8 <= x ->
    x < handler_frame \/ handler_stack <= x -> m' x = m x.
Proof.
  intros Hpt E. unfold init_signal in E.
  assert (Hreg : regs_of prev_target = p) by (unfold regs_of; lia). rewrite Hreg in E. clear Hreg Hpt.
  destruct Hsp0 as [Hsp Hr]. rewrite Hsp in E. fold handler_stack in E.
  destruct (start_stack_aligned sp0 ltac:(lia)) as [Hal Hst]. fold handler_stack in Hal, Hst.
  set (m1 := set32 c off_start_on_sig_stack _ m) in E.
  destruct (return_code_spec handler_stack m1 ltac:(lia)) as (m2 & Er & Hcode & Ho2). rewrite Er in E.
  apply bind_Some in E as ([[f m3] location] & Ef & E).
  destruct (setup_rt_frame_spec _ _ _ _ _ Ef eq_refl) as (-> & Hregs & Hps & Hpc & Hinfo & Hctx & Ho3).
  destruct (clear_registers_spec c (set32 c off_in_signal_location location m3) Hc) as [Hclr Ho4].
  set (m4 := clear_registers c _) in *.
  assert (Hh : handler_context c (get32 p off_nzcv m4) signum handler_frame (handler_stack - 16) entry
    (is_sigaction_handler s) prev_target m4 m').
  { clearbody m4. clear -E Hc Hst Hr. injection E as <-. unfold copy32, copy64, copy_fp_status.
    apply handler_fields; unfold handler_frame; offsets || done. }
  clear E Ef Er. clearbody m4.
  assert (H1 : forall x, x < c \/ c + 960 <= x -> m1 x = m x) by (intros; unfold m1; destruct Hc; by rewrite set32_at by offsets).
  assert (H43 : forall x, x < c \/ c + 960 <= x -> m4 x = m3 x)
    by (intros; destruct Hc; rewrite Ho4 by offsets; by rewrite set32_at by offsets).
  assert (H' : forall x, x < c \/ c + 960 <= x -> m' x = m3 x) by (intros; rewrite (hc_other _ _ _ _ _ _ _ _ _ _ Hh) by done; by apply H43).
  clearbody m1. unfold handler_frame in *. destruct Hc as [Hc0 Hc1], Hp as [Hp0 Hp1].
  assert (H21 : forall x, p <= x < p + 960 -> m2 x = m x) by (intros; rewrite Ho2, H1 by offsets; done).
  assert (Hn : get32 p off_nzcv m4 = nzcv p m).
  { apply (get32_same p off_nzcv); [offsets..|]. intros x Hx. rewrite H43, Hctx, H21 by offsets. done. }
  assert (Hg : forall off, 0 <= off -> off + 8 <= sizeof_rt_sigframe ->
    get64 (handler_stack - 16 - sizeof_rt_sigframe) off m' = get64 (handler_stack - 16 - sizeof_rt_sigframe) off m3)
    by (intros; apply get64_same; [offsets..|]; intros; apply H'; offsets).
  assert (Hx2 : forall i, 0 <= i <= 31 -> XSP p m2 i = XSP p m i)
    by (intros; apply (get64_same p (off_r i)); [offsets..|]; intros; apply H21; offsets).
  split; [|split; [lia|split; [exists m4; split; [by rewrite <- Hn|]|repeat split]]].
  - unfold sizeof_rt_sigframe. pose proof (Z.div_mod handler_stack 16). symmetry.
    apply (Z.mod_unique _ _ (handler_stack / 16 - 295)); lia.
  - intros j Hj. by apply Hclr.
  - intros i Hi. rewrite <- Hcode by done. apply (load_same IR_REG_32); change (bits IR_REG_32 / 8) with 4; [lia..|].
    intros x Hx. rewrite H', Ho3 by offsets. done.
  - intros i Hi. rewrite <- Hx2, <- Hregs by done. unfold frame_register. destruct (i =? 31); apply Hg; offsets.
  - rewrite Hg, Hps by offsets. apply (get32_same p off_nzcv); [offsets..|]. intros; apply H21; offsets.
  - rewrite Hg, Hpc by offsets. symmetry. apply get64_same; [offsets..|]. intros; apply H'; offsets.
  - intros Hsi. apply (siginfo_shows_same _ _ _ m3); [offsets..| |by apply Hinfo]. intros x Hx. apply H'. offsets.
  - intros x Hx Hxp Hxf. rewrite H' by done. destruct (decide (p <= x < p + 960)) as [Hp'|Hp'].
    + rewrite Hctx by lia. by apply H21.
    + rewrite Ho3, Ho2, H1 by offsets. done.
Qed.
End handler.

(** ** Old actions *)

Section sigaction.
Context (rt_sigaction : Z -> option kernel_sigaction -> bool -> Z -> Z * Z) (c : Z) (g : guest_signals) (m : mem).
Abbreviation signum := (to_signed 32 (get64 c (off_r 0) m)).
Abbreviation act := (get64 c (off_r 1) m).
Abbreviation oldact := (get64 c (off_r 2) m).
Hypothesis Hsignum : 1 <= signum < NSIG.
Hypothesis Hact : 0 < act /\ act + 32 <= 2 ^ 64 - 1.
Hypothesis Hold : 0 < oldact /\ oldact + 32 <= 2 ^ 64 - 1.

Lemma sigaction_runs :
  arm64_rt_sigaction rt_sigaction c g m =
    let m1 := set64 oldact 0 (guest_signals_handler g signum) m in
    let g1 := mkSignals (set_entry (guest_signals_handler g) signum (get64 act 0 m1))
                        (set_entry (sa_flags g) signum (get64 act 8 m1)) in
    let '(res, old_mask) := rt_sigaction signum (Some (host_sigaction act m)) true (get64 c (off_r 3) m) in
    (res, g1, set64 oldact 16 0 (set64 oldact 24 old_mask (set64 oldact 8 (sa_flags g1 signum) m1))).
Proof.
  unfold arm64_rt_sigaction. cbv zeta. unfold NSIG in *.
  rewrite (proj2 (Z.ltb_ge signum 1)), (proj2 (Z.leb_gt 65 signum)) by lia. cbn [orb].
  rewrite (proj2 (Z.eqb_neq act (2 ^ 64 - 1))), (proj2 (Z.eqb_neq oldact (2 ^ 64 - 1))) by lia. cbn [orb].
  by rewrite (proj2 (Z.eqb_neq act 0)), (proj2 (Z.eqb_neq oldact 0)) by lia.
Qed.

(** The flags reported as old are the new ones. *)
Lemma sigaction_old_flags res g' m' :
  act + 32 <= oldact \/ oldact + 32 <= act ->
  arm64_rt_sigaction rt_sigaction c g m = (res, g', m') -> get64 oldact 8 m' = get64 act 8 m.
Proof.
  intros Hd E. rewrite sigaction_runs in E. cbv zeta in E. destruct (rt_sigaction _ _ _ _) as [r om]. simplify_eq.
  rewrite !get64_set64_other, get64_set64 by lia. cbn [sa_flags]. unfold set_entry. rewrite Z.eqb_refl.
  rewrite wrap_small by apply get64_range. by rewrite get64_set64_other by lia.
Qed.

(** With the two at one address the new handler is lost: the old one stays,
    while the host was given one for the new action. *)
Lemma sigaction_alias res g' m' :
  act = oldact -> 0 <= guest_signals_handler g signum < 2 ^ 64 ->
  arm64_rt_sigaction rt_sigaction c g m = (res, g', m') ->
  guest_signals_handler g' signum = guest_signals_handler g signum.
Proof.
  intros Ha Hg E. rewrite sigaction_runs in E. cbv zeta in E. destruct (rt_sigaction _ _ _ _) as [r om]. simplify_eq.
  cbn [guest_signals_handler]. unfold set_entry. rewrite Z.eqb_refl. rewrite Ha.
  rewrite get64_set64 by lia. by apply wrap_small.
Qed.
End sigaction.

(** ** Properties *)

#[local] Instance no_helper : HelperAddress := { helper_address := fun _ => 0 }.

Definition zero_mem : mem := fun _ => 0.
Definition zero_state (m : mem) : arm_state := mkArm (fun _ => 0) (mkFlags false false false false) m.

Lemma zero_represents c : represents c (zero_state zero_mem) zero_mem.
Proof.
  assert (Hz : forall w a, load_mem w zero_mem a = 0) by (intros [] a; reflexivity).
  split; cbn; [intros; symmetry; apply Hz|unfold nzcv; by rewrite Hz|done|apply Hz].
Qed.

Definition demo_info : host_signal_info := mkSignalInfo (mkSiginfo 10 0 0 1 1 0 0 0 0 0 0 0 0 0 0) 50 true.
Definition no_signals : guest_signals := mkSignals (fun _ => 0) (fun _ => 0).

(** C36. A signal is transparent.  Whatever the handler does to the memory, as
    long as it leaves the context that was interrupted, what [setup_sigframe]
    saved is what counts: [restore_sigframe] gives back the registers and the
    flags of the frame, and reports a change exactly when the pc there is
    another one.  When the frame was not touched either, the guest goes on as
    it was, at the pc where the signal found it. *)
Theorem signal_transparent `{HelperAddress} executable_start etext lookup_pc c f host_pc s m m1 m2 location :
  target_ok c -> 0 <= f /\ f + sizeof_rt_sigframe <= 2 ^ 64 -> c + 960 <= f \/ f + sizeof_rt_sigframe <= c ->
  represents c s m ->
  setup_sigframe executable_start etext lookup_pc f c host_pc m = Some (m1, location) ->
  (forall x, c <= x < c + 960 -> m2 x = m1 x) ->
  exists m3, restore_sigframe f c m2 = (negb (get64 c off_pc m1 =? get64 f off_mc_pc m2), m3) /\
    get64 c off_pc m3 = get64 f off_mc_pc m2 /\
    represents c (mkArm (frame_register f m2) (flags_of (wrap 32 (get64 f off_mc_pstate m2))) m3) m3 /\
    ((forall x, f <= x < f + sizeof_rt_sigframe -> m2 x = m1 x) ->
     get64 f off_mc_pc m2 = get64 c off_pc m1 /\ represents c (mkArm (register s) (flags s) m3) m3).
Proof.
  intros Hc Hf Hcf [Hr Hfl _ Hst] E H2. pose proof Hc as [Hc0 Hc1]. unfold sizeof_target in Hc0.
  destruct (setup_sigframe_spec c f Hc Hf Hcf _ _ _ _ _ _ _ E) as (Sr & Sn & Sp & Sc & _).
  destruct (restore_sigframe_spec c f Hc Hf Hcf m2) as (m3 & -> & Rr & Rn & Rp & Ro).
  assert (Hstep : load_mem IR_REG_32 m3 (c + off_is_stepin) = 0).
  { rewrite <- Hst. apply load_same; change (bits IR_REG_32 / 8) with 4; [offsets..|].
    intros x Hx. rewrite Ro, H2, Sc by offsets. done. }
  exists m3. split; [|split; [done|split]].
  - by rewrite (get64_same c off_pc m1 m2) by (intros; offsets || (apply H2; offsets)).
  - split; cbn; [by intros; rewrite Rr|by rewrite Rn|done|done].
  - intros Hframe.
    assert (Hg : forall off, 0 <= off -> off + 8 <= sizeof_rt_sigframe -> get64 f off m2 = get64 f off m1)
      by (intros; apply get64_same; [lia..|]; intros; apply Hframe; lia).
    split; [by rewrite Hg by (offsets || done)|].
    split; cbn; [|by rewrite Rn, Hg, Sn, wrap_small by (apply load_mem_range || offsets)|done|done].
    intros i Hi. rewrite Rr, Hr, <- Sr by done. unfold frame_register. destruct (i =? 31); symmetry; apply Hg; offsets.
Qed.

Lemma signal_transparent_witness :
  exists m1 location m3,
    setup_sigframe 0 100 (fun _ => (0, 0)) 0x20000 0x10000 50 (fun _ => 0) = Some (m1, location) /\
    restore_sigframe 0x20000 0x10000 m1 = (false, m3) /\
    represents 0x10000 (mkArm (fun _ => 0) (mkFlags false false false false) m3) m3.
Proof.
  assert (Hsome : (if setup_sigframe 0 100 (fun _ => (0, 0)) 0x20000 0x10000 50 (fun _ => 0) is Some _ then true else false) = true)
    by (vm_compute; reflexivity).
  destruct (setup_sigframe 0 100 (fun _ => (0, 0)) 0x20000 0x10000 50 (fun _ => 0)) as [[m1 location]|] eqn:E;
    [|discriminate Hsome].
  assert (Hc : target_ok 0x10000) by (split; vm_compute; discriminate).
  assert (Hf : 0 <= 0x20000 /\ 0x20000 + sizeof_rt_sigframe <= 2 ^ 64) by (split; vm_compute; discriminate).
  assert (Hcf : 0x10000 + 960 <= 0x20000 \/ 0x20000 + sizeof_rt_sigframe <= 0x10000) by (left; vm_compute; discriminate).
  assert (Hz : forall w a, load_mem w (fun _ => 0) a = 0) by (intros [] a; reflexivity).
  assert (Hr : represents 0x10000 (mkArm (fun _ => 0) (mkFlags false false false false) (fun _ => 0)) (fun _ => 0)).
  { split; cbn; [intros; symmetry; apply Hz|unfold nzcv; rewrite Hz; reflexivity|reflexivity|apply Hz]. }
  destruct (signal_transparent 0 100 (fun _ => (0, 0)) 0x10000 0x20000 50 _ _ m1 m1 location Hc Hf Hcf Hr E
              (fun _ _ => eq_refl)) as (m3 & Er & _ & _ & Hsame).
  destruct (Hsame (fun _ _ => eq_refl)) as [Hpc Hm3].
  exists m1, location, m3. split; [reflexivity|]. split; [|exact Hm3]. rewrite Er, Hpc, Z.eqb_refl. reflexivity.
Defined.

(** C39. A program starts as the kernel would start it.  [init] for the main
    thread always succeeds and gives a context that holds the initial state of
    the architecture: all the registers are zero but the stack pointer, the
    flags are clear, the pc is the entry point; the guest's memory is not
    touched, and the loop wants to go on. *)
Theorem main_thread_starts `{HelperAddress} executable_start etext lookup_pc g s c prev entry sp m :
  target_ok c -> 0 <= entry < 2 ^ 64 -> 0 < sp < 2 ^ 64 ->
  exists m', arm64_init executable_start etext lookup_pc g s c prev entry sp 0 0 m = Some m' /\
    represents c (mkArm (fun i => if i =? 31 then sp else 0) (mkFlags false false false false) m') m' /\
    get64 c off_pc m' = entry /\ target_isLooping c m' = (true, m') /\
    forall x, x < c \/ c + 960 <= x -> m' x = m x.
Proof.
  intros Hc He Hsp. unfold arm64_init. cbn [Z.eqb negb]. rewrite (proj2 (Z.eqb_neq sp 0)) by lia. cbn [negb].
  eexists. split; [reflexivity|]. set (m1 := set32 c off_isLooping 1 m).
  destruct (init_main_spec c entry sp m1 Hc) as (Hr & Hn & Hst & Hpc & Hs & Hl & Ho).
  set (m' := init_main c entry sp m1) in *. clearbody m'.
  assert (Hl1 : get32 c off_isLooping m1 = 1) by (destruct Hc; unfold m1; by rewrite get32_set32 by offsets).
  split; [|split; [by rewrite Hpc, wrap_small|split; [apply starts_looping; congruence|]]].
  - split; cbn; [|by rewrite Hn|done|done]. intros i Hi. rewrite Hr by done.
    destruct (i =? 31); [by rewrite wrap_small by lia|done].
  - intros x Hx. rewrite Ho by done. unfold m1. destruct Hc. by at_fields.
Qed.

Lemma main_thread_starts_witness :
  exists m', arm64_init 0 100 (fun _ => (0, 0)) no_signals demo_info 0x10000 0 0x20000 0x30000 0 0 zero_mem = Some m' /\
    XSP 0x10000 m' 31 = 0x30000 /\ get64 0x10000 off_pc m' = 0x20000.
Proof.
  destruct (main_thread_starts 0 100 (fun _ => (0, 0)) no_signals demo_info 0x10000 0 0x20000 0x30000 zero_mem)
    as (m' & E & Hr & Hpc & _); [split; vm_compute; discriminate|split; [discriminate|reflexivity]|split; reflexivity|].
  exists m'. split; [exact E|]. split; [|exact Hpc]. symmetry. refine (rep_register _ _ _ Hr 31 _). split; discriminate.
Defined.

(** A thread starts as a copy.  [init] for a thread of the guest gives a
    context with the registers and the flags of the one that called [clone],
    but for the result of the call, which is 0, the new stack and the pc; its
    thread pointer is the one [clone] was given. *)
Theorem thread_starts `{HelperAddress} executable_start etext lookup_pc g s c p prev entry sp st m :
  target_ok c -> target_ok p -> c + 960 <= p \/ p + 960 <= c -> sizeof_target < p ->
  0 <= entry < 2 ^ 64 -> 0 <= sp < 2 ^ 64 -> represents p st m ->
  exists m', arm64_init executable_start etext lookup_pc g s c prev entry sp 0 (p - sizeof_target) m = Some m' /\
    represents c (mkArm (fun i => if i =? 31 then sp else if i =? 0 then 0 else register st i) (flags st) m') m' /\
    get64 c off_pc m' = entry /\ get64 c off_tpidr_el0 m' = register st 3 /\ target_isLooping c m' = (true, m') /\
    forall x, x < c \/ c + 960 <= x -> m' x = m x.
Proof.
  intros Hc Hp Hcp Hp0 He Hsp [Pr Pf _ _]. unfold arm64_init. cbn [Z.eqb negb].
  rewrite (proj2 (Z.eqb_neq _ _)) by lia. cbn [negb].
  eexists. split; [reflexivity|]. set (m1 := set32 c off_isLooping 1 m).
  destruct (init_thread_spec c p entry sp m1 Hc Hp Hcp) as (Hr & Hn & Hst & Hpc & Htp & Hs & Hl & Ho).
  set (m' := init_thread c (p - sizeof_target) entry sp m1) in *. clearbody m'.
  assert (Hl1 : get32 c off_isLooping m1 = 1) by (destruct Hc; unfold m1; by rewrite get32_set32 by offsets).
  assert (H1 : forall x, x < c \/ c + 960 <= x -> m1 x = m x) by (intros; destruct Hc; unfold m1; by at_fields).
  clearbody m1.
  assert (Hx : forall i, 0 <= i <= 31 -> get64 p (off_r i) m1 = register st i).
  { intros i Hi. rewrite Pr by done. destruct Hc, Hp. apply (get64_same p (off_r i)); [offsets..|]. intros. apply H1. offsets. }
  split; [|split; [by rewrite Hpc, wrap_small|split; [by rewrite Htp, Hx by lia|split; [apply starts_looping; congruence|]]]].
  - split; cbn; [| |done|done].
    + intros i Hi. rewrite Hr by done. destruct (i =? 31); [by rewrite wrap_small by lia|].
      destruct (i =? 0); [done|by rewrite Hx].
    + rewrite Hn, Pf. f_equal. symmetry. destruct Hc, Hp. apply (get32_same p off_nzcv); [offsets..|]. intros. apply H1. offsets.
  - intros x Hx'. rewrite Ho by done. by apply H1.
Qed.

Lemma thread_starts_witness :
  exists m', arm64_init 0 100 (fun _ => (0, 0)) no_signals demo_info 0x10000 0 0x20000 0x30000 0 (0x11000 - sizeof_target)
      zero_mem = Some m' /\
    XSP 0x10000 m' 31 = 0x30000 /\ get64 0x10000 off_pc m' = 0x20000.
Proof.
  destruct (thread_starts 0 100 (fun _ => (0, 0)) no_signals demo_info 0x10000 0x11000 0 0x20000 0x30000 (zero_state zero_mem) zero_mem)
    as (m' & E & Hr & Hpc & _);
    [split; vm_compute; discriminate|split; vm_compute; discriminate|left; discriminate|reflexivity
    |split; [discriminate|reflexivity]|split; [discriminate|reflexivity]|apply zero_represents|].
  exists m'. split; [exact E|]. split; [|exact Hpc]. symmetry. refine (rep_register _ _ _ Hr 31 _). split; discriminate.
Defined.

(** C38. A handler starts as the kernel would start it.  [init] for a signal
    gives a context with the signal number, the frame and, when the handler
    wants them, the information and the user context as parameters, all the
    other registers zero, and the flags of the guest; it returns to code on its
    stack that asks for [rt_sigreturn].  The frame is aligned, below the red
    zone of the stack in use, and holds the registers and the flags of the
    interrupted guest and, when the handler wants it, a [siginfo] with the
    number, the error and the code of the signal and each of the members
    sigaction(2) documents for them; nothing but the frame and the contexts is
    written. *)
Theorem handler_starts `{HelperAddress} executable_start etext lookup_pc g s c p entry signum param sp0 sp st m m' :
  target_ok c -> target_ok p -> c + 960 <= p \/ p + 960 <= c -> 0 < signum < 2 ^ 32 -> 0 <= entry < 2 ^ 64 ->
  sigsp g p signum (set32 c off_isLooping 1 m) = sp0 /\ 4864 <= sp0 < 2 ^ 64 ->
  c + 960 <= handler_frame sp0 \/ handler_stack sp0 <= c -> p + 960 <= handler_frame sp0 \/ handler_stack sp0 <= p ->
  represents p st m ->
  arm64_init executable_start etext lookup_pc g s c (p - sizeof_target) entry sp signum param m = Some m' ->
  let f := handler_frame sp0 in
  let info v := if is_sigaction_handler s then v else 0 in
  represents c
    (mkArm (fun i => match i with
                     | 0 => signum | 1 => info f | 2 => info (f + off_uc) | 29 => f + off_fp
                     | 30 => f + sizeof_rt_sigframe | 31 => f | _ => 0
                     end) (flags st) m') m' /\
  get64 c off_pc m' = entry /\ get32 c off_is_in_signal m' = 1 /\
  get64 c off_prev_context m' = p - sizeof_target /\ get64 c off_frame m' = f /\
  f mod 16 = 0 /\ f + sizeof_rt_sigframe + 16 <= sp0 - 128 /\
  (forall i, 0 <= i < 4 -> fetch m' (f + sizeof_rt_sigframe + 4 * i) = nth (Z.to_nat i) return_code 0) /\
  (forall i, 0 <= i <= 31 -> frame_register f m' i = register st i) /\
  flags_of (get64 f off_mc_pstate m') = flags st /\ get64 f off_mc_pc m' = get64 p off_pc m' /\
  (is_sigaction_handler s = true -> siginfo_shows signum (signal_siginfo s) f m') /\
  forall x, x < c \/ c + 960 <= x -> x < p + off_pc \/ p + off_pc + 8 <= x ->
    x < f \/ f + sizeof_rt_sigframe + 16 <= x -> m' x = m x.
Proof.
  intros Hc Hp Hcp Hsig He Hsp Hcf Hpf [Pr Pf _ _] E f info. unfold arm64_init in E.
  rewrite (proj2 (Z.eqb_neq _ _)) in E by lia. cbn [negb] in E.
  assert (H1 : forall x, x < c \/ c + 960 <= x -> set32 c off_isLooping 1 m x = m x) by (intros; destruct Hc; by at_fields).
  set (m1 := set32 c off_isLooping 1 m) in *. clearbody m1.
  destruct (init_signal_spec _ _ _ c p Hc Hp Hcp g s entry signum param sp0 m1 Hsp Hcf Hpf _ m' eq_refl E)
    as (Hal & Hst & (m4 & Hh & Hz) & Hcode & Hregs & Hps & Hpc & Hinfo & Ho).
  assert (Hf : handler_stack sp0 - 16 = f + sizeof_rt_sigframe) by (unfold f, handler_frame; lia).
  rewrite Hf in *. fold f in Hh, Hal, Hregs, Hps, Hpc, Hinfo, Ho. destruct Hh as [Hr Hn Hstep Hpc' Hins Hprev Hfr _].
  destruct (start_stack_aligned sp0 ltac:(lia)) as [_ Hst']. fold (handler_stack sp0) in Hst'.
  destruct Hc as [Hc0 Hc1], Hp as [Hp0 Hp1].
  assert (Hnz : nzcv p m1 = nzcv p m) by (apply (get32_same p off_nzcv); [offsets..|]; intros; apply H1; offsets).
  assert (Hx : forall i, 0 <= i <= 31 -> XSP p m1 i = register st i).
  { intros i Hi. rewrite Pr by done. apply (get64_same p (off_r i)); [offsets..|]. intros. apply H1. offsets. }
  split; [|repeat split].
  - split; cbn; [| |done|done].
    + intros i Hi. rewrite Hr by done. unfold info.
      assert (Hz' : get64 c (off_r i) m4 = 0) by (apply Hz; lia). rewrite Hz'.
      rewrite (wrap_small 64 signum), (wrap_small 64 (f + sizeof_rt_sigframe)) by offsets. reflexivity.
    + rewrite Hn, Pf, Hnz. rewrite wrap_small; [done|]. apply (load_mem_range IR_REG_32).
  - rewrite Hpc'. apply wrap_small. lia.
  - done.
  - rewrite Hprev. apply wrap_small. offsets.
  - done.
  - done.
  - lia.
  - done.
  - intros i Hi. rewrite Hregs by done. by apply Hx.
  - by rewrite Hps, Pf, Hnz.
  - done.
  - exact Hinfo.
  - intros x Hxc Hxp Hxf. rewrite Ho by (lia || done). by apply H1.
Qed.

(** A guest with a stack, about to be interrupted. *)
Definition stack_mem : mem := store_mem IR_REG_64 zero_mem (0x11000 + off_r 31) 0x30000.
Definition stack_state : arm_state := mkArm (XSP 0x11000 stack_mem) (mkFlags false false false false) stack_mem.

Lemma stack_represents : represents 0x11000 stack_state stack_mem.
Proof. split; [done|by vm_compute|done|by vm_compute]. Qed.

(** A timer has expired, and been late three times. *)
Definition timer_info : host_signal_info := mkSignalInfo (mkSiginfo 10 0 (2 ^ 32 - 2) 0 0 0 0 0 0 0 0 5 5 7 3) 50 true.

Lemma handler_starts_witness :
  exists m', arm64_init 0 100 (fun _ => (0, 0)) no_signals timer_info 0x10000 (0x11000 - sizeof_target) 0x20000 0 10 1
      stack_mem = Some m' /\
    XSP 0x10000 m' 0 = 10 /\ XSP 0x10000 m' 31 = 0x30000 - 128 - 16 - 4704 /\
    frame_register (0x30000 - 128 - 16 - 4704) m' 31 = 0x30000 /\
    get32 (0x30000 - 128 - 16 - 4704) 20 m' = 3.
Proof.
  assert (Hsome : (if arm64_init 0 100 (fun _ => (0, 0)) no_signals timer_info 0x10000 (0x11000 - sizeof_target) 0x20000
      0 10 1 stack_mem is Some _ then true else false) = true) by (vm_compute; reflexivity).
  destruct (arm64_init 0 100 (fun _ => (0, 0)) no_signals timer_info 0x10000 (0x11000 - sizeof_target) 0x20000
      0 10 1 stack_mem) as [m'|] eqn:E; [|discriminate Hsome].
  destruct (handler_starts 0 100 (fun _ => (0, 0)) no_signals timer_info 0x10000 0x11000 0x20000 10 1 0x30000 0
              stack_state stack_mem m') as (Hr & _ & _ & _ & _ & _ & _ & _ & Hf & _ & _ & Hi & _);
    [split; vm_compute; discriminate|split; vm_compute; discriminate|left; discriminate|split; reflexivity
    |split; [discriminate|reflexivity]|split; [vm_compute; reflexivity|split; [discriminate|reflexivity]]
    |left; vm_compute; discriminate|left; vm_compute; discriminate|exact stack_represents|exact E|].
  exists m'. split; [reflexivity|]. split; [|split; [|split]].
  - symmetry. refine (rep_register _ _ _ Hr 0 _). split; discriminate.
  - symmetry. refine (rep_register _ _ _ Hr 31 _). split; discriminate.
  - change (0x30000 - 128 - 16 - 4704) with (handler_frame 0x30000). rewrite Hf by (split; discriminate).
    vm_compute. reflexivity.
  - destruct (Hi eq_refl) as (l & Hl & Hall). injection Hl as <-.
    rewrite Forall_forall in Hall. refine (Hall (20, IR_REG_32, 3) _).
    do 4 apply list_elem_of_further. apply list_elem_of_here.
Defined.
