(* ===== verification/Arm64Theorems.v ===== *)
(** * A machine for the AArch64 front end

    The helpers that only compute, at addresses of their own: an instance of
    every interface the theorems on the front end rely on. *)

From S2P Require Import Prelude Ir Jitter BeX86 BeGen X86Sem X86Exec X86Correct X86Alloc X86Select X86Const X86Sim X86Compile X86Theorems CodeCache Loop LoopBlocks LoopExec LoopTheorems Main IrRequests FrontGen FrontWp TargetGen ArmPseudo Arm64Gen Arm64Dis Arm64DisData Arm64Decode Arm64Helpers Arm64Isa Arm64Wp Arm64Sim Arm64Fields Arm64Rules Arm64Target Arm64Machine.

Definition pure_helpers : list arm64_helper :=
  [arm64_hlp_compute_next_nzcv_32; arm64_hlp_compute_next_nzcv_64; arm64_hlp_compute_flags_pred;
   arm64_hlp_compute_bitfield; arm64_hlp_udiv_64; arm64_hlp_udiv_32; arm64_hlp_sdiv_64; arm64_hlp_sdiv_32;
   arm64_hlp_umul_lsb_64; arm64_hlp_umul_lsb_32; arm64_hlp_smul_lsb_64; arm64_hlp_umul_msb_64;
   arm64_hlp_smul_msb_64; arm64_hlp_clz; arm64_hlp_cls].

Definition arm64_prototype (h : arm64_helper) : list (option irRegisterType) :=
  let W := Some IR_REG_32 in
  let X := Some IR_REG_64 in
  match h with
  | arm64_hlp_compute_next_nzcv_32 => [W; W; W; W]
  | arm64_hlp_compute_next_nzcv_64 => [W; X; X; W]
  | arm64_hlp_compute_flags_pred => [W; W; None; None]
  | arm64_hlp_compute_bitfield => [W; X; X; None]
  | arm64_hlp_udiv_32 | arm64_hlp_sdiv_32 | arm64_hlp_umul_lsb_32 => [W; W; None; None]
  | arm64_hlp_clz | arm64_hlp_cls => [X; W; None; None]
  | _ => [X; X; None; None]
  end.

#[local] Instance demo_addresses : HelperAddress := { helper_address := spread pure_helpers }.

#[program] Definition arm64_table : helper_table arm64_helper := {|
  computes := pure_helper;
  prototype := arm64_prototype;
  at_address := helper_at pure_helpers
|}.
Next Obligation.
  intros h vs xs r Hp Hm. enough (narrow (arm64_prototype h) xs = vs) as -> by done.
  destruct h; cbn [pure_helper arm64_prototype] in *; repeat case_match; simplify_eq;
    repeat match goal with
    | H : Forall2 _ (_ :: _) _ |- _ => apply Forall2_cons_inv_l in H as (? & ? & ? & ? & ->)
    | H : Forall2 _ [] _ |- _ => apply Forall2_nil_inv_l in H as ->
    | H : arg_match (Some _) ?x |- _ => destruct x; [destruct H as [_ <-]|by destruct H]
    | H : arg_match None ?x |- _ => destruct x; [by destruct H|]
    end; reflexivity.
Qed.
Next Obligation.
  intros h ps r Hp. generalize dependent (narrow (arm64_prototype h) ps). intros vs Hp.
  destruct h; cbn [pure_helper] in Hp; repeat case_match; by simplify_eq.
Qed.
Next Obligation. by intros []. Qed.

Lemma pure_helper_in h vs r : pure_helper h vs = Some r -> h ∈ pure_helpers.
Proof.
  intros Hp. destruct h; try discriminate Hp; apply (bool_decide_unpack _); vm_compute; exact I.
Qed.

#[local] Instance demo_calls ctx : Arm64Calls (table_call arm64_table) ctx.
Proof.
  split.
  - intros h args w v m Hp. unfold table_call. cbn [at_address arm64_table helper_address demo_addresses].
    rewrite helper_at_spread by (by eapply pure_helper_in).
    cbn [mbind option_bind computes arm64_table]. rewrite Hp. cbn [mbind option_bind]. by rewrite decide_True.
  - intros h. by apply spread_range.
Qed.

(** * What the AArch64 machine guarantees

    The translation of an instruction does what the architecture says, and the
    loop runs programs of the architecture; with a guest to show it. *)

(** ** A guest *)

(** Its context, and its code, a loop:
    [add x0, x0, #1; adds w1, w1, w0; str w1, [sp]; b .-12]. *)
Definition demo_context : Z := 0x10000.
Definition demo_pc : Z := 0x20000.
Definition demo_stack : Z := 0x30000.
Definition demo_program : list arm_insn :=
  [AddSubImmediate true false false false 1 0 0; AddSubShifted false false true 0 0 0 1 1;
   LoadStore 2 0 (UnsignedOffset 0) 31 1; Branch false (2 ^ 26 - 3)].

#[local] Instance demo_target_ok : target_ok demo_context.
Proof. split; [discriminate|vm_compute; discriminate]. Qed.

#[local] Existing Instances demo_addresses demo_calls.
#[local] Existing Instance table_results.
#[local] Instance demo_abi : HelperAbi (table_call arm64_table) (table_callee arm64_table) := table_abi arm64_table.

#[local, program] Instance demo_arm_host : Host := {
  callee := table_callee arm64_table;
  host_regs := fun _ _ _ => 0;
  backend_address := 2 ^ 20;
  jitBuffer_address := 2 ^ 21;
  target_runtime := demo_context
}.
Next Obligation. done. Qed.

Fixpoint put_code (l : list arm_insn) (pc : Z) (m : mem) : mem :=
  match l with [] => m | i :: l => put_code l (pc + 4) (store_mem IR_REG_32 m pc (encode i)) end.

Definition demo_arm_mem : mem :=
  put_code demo_program demo_pc (store_mem IR_REG_64 (fun _ => 0) (demo_context + off_r 31) demo_stack).
Definition demo_arm_state : arm_state :=
  mkArm (fun i => if i =? 31 then demo_stack else 0) (mkFlags false false false false) demo_arm_mem.

Lemma demo_represents : represents demo_context demo_arm_state demo_arm_mem.
Proof.
  split; [|by vm_compute|done|by vm_compute].
  intros i Hi. revert i Hi.
  assert (H : forallb (fun i => register demo_arm_state i =? XSP demo_context demo_arm_mem i) (seqZ 0 32) = true)
    by (vm_compute; reflexivity).
  rewrite forallb_forall in H. intros i Hi. apply Z.eqb_eq, H, list_elem_of_In, elem_of_seqZ. lia.
Qed.

(** Where the guest's code is. *)
Definition code_byte (a : Z) : bool := (demo_pc <=? a) && (a <? demo_pc + 16).

(** The translation of a block reads [maxInsn] words of memory, from the pc on. *)
Lemma disassemble_loop_reads `{HelperAddress} m m' marker fuel maxInsn i pc st :
  (forall k, (k < fuel)%nat -> fetch m (Nat.iter k (fun pc => wrap 64 (pc + 4)) pc) =
                              fetch m' (Nat.iter k (fun pc => wrap 64 (pc + 4)) pc)) ->
  disassemble_loop m marker fuel maxInsn i pc st = disassemble_loop m' marker fuel maxInsn i pc st.
Proof.
  revert i pc st. induction fuel as [|fuel IH]; intros i pc st Hf; [done|]. cbn [disassemble_loop].
  pose proof (Hf 0%nat ltac:(lia)) as H0. cbn [Nat.iter nat_rect] in H0. rewrite H0.
  unfold mbind, stM_bind. repeat (case_match; simplify_eq; try done).
  all: apply IH; intros k Hk.
  all: pose proof (Hf (S k) ltac:(lia)) as Hk1; by rewrite Nat.iter_succ_r in Hk1.
Qed.

Lemma disassemble_block_reads `{HelperAddress} m m' marker pc maxInsn st :
  (forall k, Z.of_nat k < Z.max 1 maxInsn -> fetch m (Nat.iter k (fun pc => wrap 64 (pc + 4)) pc) =
                              fetch m' (Nat.iter k (fun pc => wrap 64 (pc + 4)) pc)) ->
  disassemble_block m marker pc maxInsn st = disassemble_block m' marker pc maxInsn st.
Proof.
  intros Hf. unfold disassemble_block. destruct (_ && _); [|done].
  rewrite (disassemble_loop_reads m m'); [done|]. intros k Hk. apply Hf. lia.
Qed.

Lemma code_at_reads accessible m m' pc l :
  (forall k, (k < length l)%nat -> fetch m (Nat.iter k (fun pc => wrap 64 (pc + 4)) pc) =
                                  fetch m' (Nat.iter k (fun pc => wrap 64 (pc + 4)) pc)) ->
  code_at accessible m pc l = code_at accessible m' pc l.
Proof.
  revert pc. induction l as [|i l IH]; intros pc Hf; [done|]. cbn [code_at].
  pose proof (Hf 0%nat ltac:(cbn; lia)) as H0. cbn [Nat.iter nat_rect] in H0. rewrite H0. f_equal.
  apply IH. intros k Hk. pose proof (Hf (S k) ltac:(cbn; lia)) as Hk1. by rewrite Nat.iter_succ_r in Hk1.
Qed.

(** Where the code is the same the instructions are. *)
Definition same_code (m m' : mem) : Prop := forall a, code_byte a = true -> m a = m' a.

Lemma demo_fetch m m' k :
  same_code m m' -> (k < 4)%nat ->
  fetch m (Nat.iter k (fun pc => wrap 64 (pc + 4)) demo_pc) =
  fetch m' (Nat.iter k (fun pc => wrap 64 (pc + 4)) demo_pc).
Proof.
  intros Hs Hk. unfold fetch, load_mem. f_equal. apply load_bytes_ext. intros x Hx.
  assert (demo_pc <= x < demo_pc + 16) as Hx'.
  { change (Z.of_nat (Z.to_nat (bits IR_REG_32 / 8))) with 4 in Hx.
    assert (Nat.iter k (fun pc => wrap 64 (pc + 4)) demo_pc = demo_pc + 4 * Z.of_nat k) as E.
    { clear -Hk. do 4 (destruct k as [|k]; [reflexivity|]). lia. }
    rewrite E in Hx. lia. }
  unfold demo_pc in Hx'. rewrite wrap_small by lia. apply Hs. unfold code_byte, demo_pc. lia.
Qed.

Lemma represents_code s m : represents demo_context s m -> same_code (memory s) m.
Proof.
  intros Hm a Ha. apply Hm. unfold code_byte, demo_pc in Ha. unfold guest_accessible, demo_context. lia.
Qed.

(** The head of the guest's loop: it only writes its stack. *)
Definition demo_invariant (g : Z * arm_state) : Prop :=
  g.1 = demo_pc /\ register g.2 31 = demo_stack /\ same_code (memory g.2) demo_arm_mem.

Lemma demo_disassemble s m :
  represents demo_context s m -> same_code (memory s) demo_arm_mem ->
  disassemble_arm64 m demo_pc 4 false = disassemble_arm64 demo_arm_mem demo_pc 4 false.
Proof.
  intros Hm Hs. apply disassemble_block_reads. intros k Hk. apply demo_fetch; [|lia].
  intros a Ha. rewrite <- (represents_code s m Hm) by done. by apply Hs.
Qed.

(** One turn of the guest's loop. *)
Lemma demo_block s :
  demo_invariant (demo_pc, s) -> exists s', arm_block (c := demo_context) 4 (demo_pc, s) (demo_pc, s') /\
    demo_invariant (demo_pc, s').
Proof.
  intros (_ & Hsp & Hmem). cbn [snd] in *.
  assert (exists s1, arm_run (guest_accessible demo_context) demo_program demo_pc s = Some (s1, demo_pc) /\
    register s1 31 = demo_stack /\ exists v, memory s1 = store_mem IR_REG_32 (memory s) demo_stack v)
    as (s1 & Hrun & Hsp1 & v & Hm1).
  { cbn -[add_sub Z.pow wrap gpr gpr_sp LSL]. set (x := LSL _ _ _). set (s2 := add_sub _ _ _ _ _ x _ _).
    assert (register s2 31 = demo_stack /\ memory s2 = memory s) as [Hsp2 Hmem2].
    { split; [|done]. by rewrite <- Hsp. }
    unfold Mem_write, gpr_sp. rewrite Hsp2. cbn. eexists. split; [reflexivity|]. split; [done|].
    eexists. reflexivity. }
  exists s1. split.
  - apply (arm_block_intro 4 demo_pc s demo_program demo_pc s1); [reflexivity|reflexivity| |done].
    rewrite (code_at_reads _ _ demo_arm_mem); [by vm_compute|]. intros k Hk. by apply demo_fetch.
  - split; [done|]. split; [done|]. cbn [snd]. rewrite Hm1. intros a Ha. rewrite <- (Hmem a Ha).
    apply store_bytes_other; rewrite ?length_store; unfold code_byte, demo_pc, demo_stack in *; change (bits IR_REG_32 / 8) with 4; lia.
Qed.

(** What the front end makes of it. *)
Definition demo_requests : list irCall :=
  default [] (fst <$> disassemble_arm64 demo_arm_mem demo_pc 4 false).

Lemma demo_translated g h :
  demo_invariant g -> machine_represents (c := demo_context) g h ->
  disassemble (Target := arm64_target demo_context) h.2 h.1 4 = demo_requests.
Proof.
  destruct g as [pc s], h as [pc' m]. intros (Hpc & _ & Hs) [Hpc' Hm]. cbn in Hpc, Hpc', Hm, Hs |- *. subst pc' pc.
  unfold target_disassemble, get32. rewrite (rep_stepin _ _ _ Hm). cbn [Z.eqb negb].
  by rewrite (demo_disassemble s).
Qed.

Lemma demo_arm_program :
  arm_program (c := demo_context) 4 fresh_jitter demo_inter (fun _ => demo_requests) demo_invariant.
Proof.
  constructor.
  - intros [pc s] Hs. assert (pc = demo_pc) as -> by apply Hs.
    destruct (demo_block s Hs) as (s' & Hb & Hs'). by exists (demo_pc, s').
  - intros g h Hg Hm. pose proof (demo_translated g h Hg Hm) as Hd. split; [|done].
    unfold block_ready. rewrite Hd. destruct h. vm_compute. reflexivity.
Qed.

(** ** The translation *)

(** C6. The front end is correct.  Whatever the state of the guest, for any of
    the instructions of [Arm64Isa.v], properly encoded, that accesses memory of
    the guest only: [disassemble_insn] accepts it, and its requests, run on a
    memory that holds the guest and its context, lead to the registers, the
    flags and the memory the architecture defines; they leave the block
    exactly for a branch, for its target. *)
Theorem instruction_translated `{HelperAddress} {ir_call ctx} `{!Arm64Calls ir_call ctx} `{!ctx_ok ctx}
    pc i s s' t m :
  valid i = true -> arm_exec (guest_accessible ctx) pc i s = Some (s', t) -> represents ctx s m ->
  exists isExit st' reqs m',
    disassemble_insn pc (encode i) (mkGen false []) = Some (isExit, mkGen st' reqs) /\
    represents ctx s' m' /\
    match t with
    | Some v => isExit = true /\ req_run ir_call ctx reqs [] m = Some (ReqExit v m')
    | None => isExit = false /\ st' = false /\ exists vs, req_run ir_call ctx reqs [] m = Some (ReqNext vs m')
    end.
Proof.
  intros Hv He Hm.
  destruct (insn_correct_all (ir_call := ir_call) pc i [] s s' t Hv He (Forall_nil_2 _) m Hm [] eq_refl)
    as (isExit & st' & reqs & Ed & Hr).
  exists isExit, st', reqs. cbn [app] in Ed.
  destruct (req_run ir_call ctx reqs [] m) as [[vs m'|v m']|] eqn:Er; [| |done]; exists m'.
  - destruct Hr as (-> & _ & s2 & Hm' & -> & -> & ->). eauto 10.
  - destruct Hr as (s2 & Hm' & -> & -> & ->). eauto 10.
Qed.

Lemma instruction_translated_witness :
  exists isExit st' reqs m',
    disassemble_insn demo_pc (encode (AddSubImmediate true false true false 1 0 0)) (mkGen false []) =
      Some (isExit, mkGen st' reqs) /\
    exists vs, req_run (table_call arm64_table) demo_context reqs [] demo_arm_mem = Some (ReqNext vs m') /\
    XSP demo_context m' 0 = 1.
Proof.
  destruct (instruction_translated (ir_call := table_call arm64_table) demo_pc (AddSubImmediate true false true false 1 0 0)
              demo_arm_state _ None demo_arm_mem eq_refl eq_refl demo_represents)
    as (isExit & st' & reqs & m' & Ed & Hm' & _ & _ & vs & Er).
  exists isExit, st', reqs, m'. split; [exact Ed|]. exists vs. split; [exact Er|].
  rewrite <- (rep_register _ _ _ Hm') by (split; discriminate). reflexivity.
Defined.

(** C5. The translator runs the programs of the architecture.  For a program
    whose instructions are those of [Arm64Isa.v], that accesses its own memory
    and whose blocks fit the buffers: the loop, its translations of the guest
    code into bytes for the x86_64 machine, its cache with its links and
    whatever cleaning requests come are never seen.  At the head of the loop
    the process holds a state the program reaches block by block as the
    architecture says, and the next turn succeeds and takes it on by one block
    or more. *)
Theorem program_runs `{HelperAddress} `{Host} {ir_call c} `{!Arm64Calls ir_call c} `{!target_ok c}
    `{Hcr : CallResults} `{!HelperAbi ir_call callee} maxInsn j0 be0 program I o buf g0 entry m st :
  target_runtime = c -> arm_program (c := c) maxInsn j0 be0 program I ->
  I g0 -> machine_represents (c := c) g0 (entry, m) -> 0 <= entry < 2 ^ 64 -> starts_empty o buf ->
  rtc (loop_step (H := arm64_target c) maxInsn) (loop_init o entry j0 be0 buf m) st ->
  exists g, rtc (arm_block (c := c) maxInsn) g0 g /\ I g /\ machine_represents (c := c) g (currentPc st, l_mem st) /\
    exists fuel st' g', loop_body (H := arm64_target c) maxInsn fuel st = Some st' /\
      tc (arm_block (c := c) maxInsn) g g' /\ I g' /\ machine_represents (c := c) g' (currentPc st', l_mem st').
Proof.
  intros Hrt Hprog. by apply (loop_runs_program (T := arm64_target c) (ir_call := ir_call) maxInsn j0 be0 program), arm_guest_program.
Qed.

Lemma program_runs_witness :
  exists fuel st' g', loop_body (H := arm64_target demo_context) 4 fuel
      (loop_init (demo_cache (2 ^ 16)) demo_pc fresh_jitter demo_inter
         (replicate (Z.to_nat jitBuffer_size) 0) demo_arm_mem) = Some st' /\
    tc (arm_block (c := demo_context) 4) (demo_pc, demo_arm_state) g' /\
    machine_represents (c := demo_context) g' (currentPc st', l_mem st').
Proof.
  assert (Hi : demo_invariant (demo_pc, demo_arm_state)) by (split; [reflexivity|split; [reflexivity|done]]).
  assert (Hpc : 0 <= demo_pc < 2 ^ 64) by (split; [discriminate|reflexivity]).
  destruct (program_runs (H0 := demo_arm_host) (ir_call := table_call arm64_table) (c := demo_context) 4 fresh_jitter demo_inter
              (fun _ => demo_requests) demo_invariant (demo_cache (2 ^ 16))
              (replicate (Z.to_nat jitBuffer_size) 0) (demo_pc, demo_arm_state) demo_pc demo_arm_mem _
              eq_refl demo_arm_program Hi (conj eq_refl demo_represents)
              Hpc demo_starts_empty (rtc_refl _ _))
    as (g & Hg & _ & _ & fuel & st' & g' & Hb & Hg' & _ & Hm').
  exists fuel, st', g'. split; [exact Hb|]. split; [by eapply tc_rtc_l|exact Hm'].
Defined.
