(* ===== verification/Arm32Gen.v ===== *)
(** * The ARM front end: requests to the builder
      ([src/src/target/arm/arm_private.h] and the sequence shortcuts of
      [src/src/target/arm/disassembler/arm_disassembler.c])

    As for AArch64, a translation is a list of requests, and the arguments of a
    call are evaluated from left to right.  The host has 64-bit addresses. *)

From S2P Require Import Prelude Ir Jitter IrRequests FrontGen.

(** ** The guest context *)

(** Offsets in [struct arm_registers]. *)
Definition off_r (index : Z) : Z := 4 * index.
Definition off_cpsr : Z := 64.
Definition off_c13_tls2 : Z := 68.
Definition off_shifter_carry_out : Z := 72.
Definition off_reg_itstate : Z := 76.
Definition off_fpscr : Z := 96.
Definition off_e_d (index : Z) : Z := 104 + 8 * index.
Definition off_e_s (index : Z) : Z := 104 + 4 * index.
Definition off_helper_pc : Z := 376.

(** The C helpers whose address is put in the code. *)
Inductive arm_helper :=
  | arm_gdb_breakpoint_instruction | arm_hlp_vdso_cmpxchg | arm_hlp_vdso_cmpxchg64
  | arm_hlp_compute_flags_pred | arm_hlp_compute_next_flags | arm_hlp_compute_sco | arm_hlp_syscall
  | arm_hlp_clz | arm_hlp_multiply_unsigned_lsb | arm_hlp_multiply_flag_update
  | arm_hlp_ldrexx | arm_hlp_strexx | arm_hlp_ldrexd | arm_hlp_strexd | arm_hlp_memory_barrier
  | arm_hlp_unsigned_parallel | arm_hlp_sel | arm_hlp_multiply_unsigned_msb
  | arm_hlp_multiply_signed_lsb | arm_hlp_multiply_signed_msb
  | arm_hlp_multiply_accumulate_unsigned_lsb | arm_hlp_multiply_accumulate_signed_lsb
  | arm_hlp_multiply_accumulate_unsigned_msb | arm_hlp_multiply_accumulate_signed_msb
  | arm_hlp_dirty_saturating | arm_hlp_signed_parallel | arm_hlp_halfword_mult_and_mult_acc
  | arm_hlp_signed_multiplies | arm_hlp_saturation | arm_hlp_umaal | arm_hlp_sum_absolute_difference
  | hlp_arm_vldm | hlp_arm_vstm | hlp_common_vfp_data_processing_insn
  | hlp_common_adv_simd_three_same_length | hlp_common_adv_simd_three_different_length
  | hlp_common_adv_simd_two_regs_misc | hlp_common_adv_simd_vdup_scalar | hlp_common_adv_simd_vdup_arm
  | hlp_common_adv_simd_vext | hlp_common_adv_simd_two_regs_and_scalar
  | hlp_common_adv_simd_vmov_from_arm | hlp_common_adv_simd_two_regs_and_shift
  | hlp_common_adv_simd_vtbl_vtbx | hlp_common_adv_simd_element_or_structure_load_store
  | hlp_write_fpscr | hlp_read_fpscr
  | thumb_hlp_compute_next_flags | thumb_hlp_t2_modified_compute_next_flags
  | thumb_hlp_compute_next_flags_data_processing | thumb_t2_hlp_compute_sco
  | thumb_hlp_t2_unsigned_parallel | thumb_hlp_t2_misc_saturating | thumb_hlp_t2_signed_parallel
  | thumb_hlp_t2_mult_A_mult_acc_A_abs_diff | thumb_hlp_t2_long_mult_A_long_mult_acc_A_div
  | t32_hlp_saturation.

#[global] Instance arm_helper_eq_dec : EqDecision arm_helper.
Proof. solve_decision. Defined.

(** Where the linker put each helper, and the offset of guest addresses. *)
Class ArmHost := {
  arm_helper_address : arm_helper -> Z;
  mmap_offset : Z
}.

(** Shifts of a [uint32_t]; an amount of 32 or more is undefined in C and taken
    as the host takes it. *)
Definition shl_32 (a n : Z) : Z := wrap 32 (Z.shiftl a (Z.land n 31)).
Definition shr_32 (a n : Z) : Z := Z.shiftr a (Z.land n 31).

Definition armExpandImm (imm12 : Z) : Z :=
  let shift_value := Z.land (Z.shiftr imm12 8) 0xf * 2 in
  let unrotated := Z.land imm12 0xff in
  Z.lor (shr_32 unrotated shift_value) (shl_32 unrotated (32 - shift_value)).

Section shortcuts.
Context `{ArmHost} {S : Type}.
(** [context->pc], of 32 bits *)
Context (pc : Z).
Abbreviation gen := (genM S).

(** ** Sequence shortcuts *)

(** An operator at 32 bits, and [x ^ 0xffffffff]. *)
Definition op_32 (k : binopKind) (a b : nat) : gen nat := ir.add_binop k IR_REG_32 a b.
Definition not_32 (a : nat) : gen nat := c ← mk_32 0xffffffff; op_32 XOR a c.

Definition mk_helper (h : arm_helper) : gen nat := mk_64 (arm_helper_address h).

Definition mk_call_void (address : nat) (params : list (option nat)) : gen unit :=
  r ← mk_32 pc; ir.add_write_context IR_REG_32 r off_helper_pc;;
  ir.add_call_void address params;;
  r ← mk_32 0; ir.add_write_context IR_REG_32 r off_helper_pc.

(** [mk_call_32], [mk_call_64] *)
Definition mk_call (w : irRegisterType) (address : nat) (params : list (option nat)) : gen nat :=
  r ← mk_32 pc; ir.add_write_context IR_REG_32 r off_helper_pc;;
  res ← ir.add_call w address params;
  r ← mk_32 0; ir.add_write_context IR_REG_32 r off_helper_pc;;
  mret res.

Definition read_reg (index : Z) : gen nat :=
  if index =? 15 then mk_32 (pc + 8) else ir.add_read_context IR_REG_32 (off_r index).
Definition write_reg (index : Z) (value : nat) : gen unit := ir.add_write_context IR_REG_32 value (off_r index).
Definition read_reg_s (index : Z) : gen nat := ir.add_read_context IR_REG_32 (off_e_s index).
Definition write_reg_s (index : Z) (value : nat) : gen unit := ir.add_write_context IR_REG_32 value (off_e_s index).
Definition read_reg_d (index : Z) : gen nat := ir.add_read_context IR_REG_64 (off_e_d index).
Definition write_reg_d (index : Z) (value : nat) : gen unit := ir.add_write_context IR_REG_64 value (off_e_d index).
Definition read_cpsr : gen nat := ir.add_read_context IR_REG_32 off_cpsr.
Definition write_cpsr (value : nat) : gen unit := ir.add_write_context IR_REG_32 value off_cpsr.
Definition read_sco : gen nat := ir.add_read_context IR_REG_32 off_shifter_carry_out.
Definition write_sco (value : nat) : gen unit := ir.add_write_context IR_REG_32 value off_shifter_carry_out.

Definition mk_address (address : nat) : gen nat :=
  if negb (mmap_offset =? 0) then
    a ← ir.add_cast IR_CAST_32U_TO_64 address; o ← mk_64 mmap_offset; ir.add_binop ADD IR_REG_64 a o
  else mret address.

(** A call of two parameters, or four. *)
Definition mk_call2 (h : arm_helper) (op1 op2 : nat) : gen nat :=
  a ← mk_helper h; mk_call IR_REG_32 a [Some op1; Some op2; None; None].
Definition mk_call4 (h : arm_helper) (op1 op2 rdhi rdlow : nat) : gen nat :=
  a ← mk_helper h; mk_call IR_REG_32 a [Some op1; Some op2; Some rdhi; Some rdlow].
Definition mk_mul_u_lsb := mk_call2 arm_hlp_multiply_unsigned_lsb.
Definition mk_mul_flag_update := mk_call2 arm_hlp_multiply_flag_update.
Definition mk_mul_u_msb := mk_call2 arm_hlp_multiply_unsigned_msb.
Definition mk_mul_s_lsb := mk_call2 arm_hlp_multiply_signed_lsb.
Definition mk_mul_s_msb := mk_call2 arm_hlp_multiply_signed_msb.
Definition mk_mula_u_lsb := mk_call4 arm_hlp_multiply_accumulate_unsigned_lsb.
Definition mk_mula_u_msb := mk_call4 arm_hlp_multiply_accumulate_unsigned_msb.
Definition mk_mula_s_lsb := mk_call4 arm_hlp_multiply_accumulate_signed_lsb.
Definition mk_mula_s_msb := mk_call4 arm_hlp_multiply_accumulate_signed_msb.

(** The address of an access: the value of a register, plus an offset. *)
Definition address_register_offset (index offset : Z) : gen nat :=
  if index =? 15 then mk_32 (pc + 8 + offset)
  else if 0 <? offset then r ← read_reg index; o ← mk_32 offset; op_32 ADD r o
  else if offset <? 0 then r ← read_reg index; o ← mk_32 (- offset); op_32 SUB r o
  else read_reg index.

Definition mk_ror_imm_32 (op : nat) (rotation : Z) : gen nat := r ← mk_8 rotation; op_32 ROR op r.

Definition mk_media_rotate (op : nat) (rotation : Z) : gen nat :=
  if negb (rotation =? 0) then mk_ror_imm_32 op rotation else mret op.

Definition mk_ror_reg_32 (op rs : nat) : gen nat :=
  m ← mk_32 0x1f; rs_mask ← op_32 AND rs m;
  rotate_r ← ir.add_cast IR_CAST_32_TO_8 rs_mask;
  c ← mk_32 32; d ← op_32 SUB c rs_mask; rotate_l ← ir.add_cast IR_CAST_32_TO_8 d;
  r ← op_32 SHR op rotate_r; l ← op_32 SHL op rotate_l; op_32 OR r l.

Definition mk_gdb_breakpoint_instruction : gen unit :=
  a ← mk_helper arm_gdb_breakpoint_instruction;
  _ ← mk_call IR_REG_32 a [None; None; None; None]; mret tt.

(** A helper without parameters but the context, and one that decodes the
    instruction itself, told whether it is Thumb code or not. *)
Definition mk_call0 (h : arm_helper) : gen unit :=
  a ← mk_helper h; mk_call_void a [None; None; None; None].
Definition mk_dirty (h : arm_helper) (insn : Z) : gen bool :=
  p0 ← mk_32 insn; a ← mk_helper h; mk_call_void a [Some p0; None; None; None];; mret false.
Definition mk_dirty_thumb (h : arm_helper) (insn : Z) (is_thumb : bool) : gen bool :=
  p0 ← mk_32 insn; p1 ← mk_32 (Z.b2z is_thumb); a ← mk_helper h;
  mk_call_void a [Some p0; Some p1; None; None];; mret false.

(** [fatal_illegal_opcode], and [assert_illegal_opcode] before what follows. *)
Definition illegal_opcode : gen bool := mk_gdb_breakpoint_instruction;; mret true.
Definition assert_legal (b : bool) (k : gen bool) : gen bool := if b then k else illegal_opcode.

(** [c]: the carry as the low bit. *)
Definition read_carry : gen nat :=
  c ← read_cpsr; s ← mk_8 29; r ← op_32 SHR c s; m ← mk_32 1; op_32 AND r m.

(** The carry out of the shifter, by a helper that decodes the shift. *)
Definition mk_sco (insn rm shift_op : nat) : gen nat :=
  cpsr ← read_cpsr; a ← mk_helper arm_hlp_compute_sco;
  mk_call IR_REG_32 a [Some insn; Some rm; Some shift_op; Some cpsr].

(** [ir->add_exit(ir, ir->add_32U_to_64(ir, r))] *)
Definition exit_32 (r : nat) : gen unit := x ← ir.add_cast IR_CAST_32U_TO_64 r; ir.add_exit x.
End shortcuts.

(** * ARM and Thumb: sequences that both disassemblers have
      ([src/src/target/arm/disassembler/arm_disassembler.c] and
      [thumb_disassembler.c])

    The two files have the same sequences for branches, transfers of several
    registers, accesses of memory, shifts and media instructions. *)

#[local] Open Scope c_scope.

Section shared.
Context `{ArmHost} {S : Type}.
Abbreviation gen := (genM S).

(** ** Shifts and branches *)

(** A shift by the low byte of a register, [over] when its bits 5 to 7 are not 0. *)
Definition shift_by_reg (k : binopKind) (rm_reg rs_reg : nat) (over : gen nat) : gen nat :=
  m ← mk_32 0xe0; pred ← op_32 AND rs_reg m;
  op_true ← over;
  b ← ir.add_cast IR_CAST_32_TO_8 rs_reg; op_false ← op_32 k rm_reg b;
  ir.add_ite IR_REG_32 pred op_true op_false.

(** The write of a constant address to the pc, and the exit there. *)
Definition branch_const (target : Z) : gen bool :=
  r ← mk_32 target; write_reg 15 r;;
  x ← mk_64 (wrap 32 target); ir.add_exit x;; mret true.

(** The same for an address in a register. *)
Definition branch_reg (dst : nat) : gen bool := write_reg 15 dst;; exit_32 dst;; mret true.

(** The registers of a list of [n], and their accesses one after the other. *)
Definition in_reglist (reglist : Z) (n : nat) : list Z :=
  filter (fun i => Z.land (Z.shiftr reglist i) 1 ≠ 0) (Z.of_nat <$> seq 0 n).

Definition multiple_address (start_address : nat) (offset : Z) : gen nat :=
  o ← mk_32 offset; a ← op_32 ADD start_address o; mk_address a.

Fixpoint load_multiple (regs : list Z) (start_address : nat) (offset : Z) : gen Z :=
  match regs with
  | [] => mret offset
  | i :: regs =>
      a ← multiple_address start_address offset;
      v ← ir.add_load IR_REG_32 a; write_reg i v;;
      load_multiple regs start_address (offset + 4)
  end.

(** One access, of a word or of an unsigned byte or halfword. *)
Definition load_word (rd : Z) (address : nat) : gen unit :=
  a ← mk_address address; v ← ir.add_load IR_REG_32 a; write_reg rd v.

Definition load_cast (width : irRegisterType) (t : irCastType) (rd : Z) (address : nat) : gen unit :=
  a ← mk_address address; v ← ir.add_load width a; r ← ir.add_cast t v; write_reg rd r.

(** The next word. *)
Definition next_word (address : nat) : gen nat := c ← mk_32 4; op_32 ADD address c.

(** ** Parts of a register *)

Definition narrow_then (t1 t2 : irCastType) (r : nat) : gen nat := b ← ir.add_cast t1 r; ir.add_cast t2 b.

Definition mask_with (v : Z) (r : nat) : gen nat := m ← mk_32 v; op_32 AND r m.

(** [w] with the parts that [c] selects exchanged with those at distance [k]. *)
Definition swap_parts (w : nat) (c k : Z) : gen nat :=
  m ← mk_32 c; l ← op_32 AND w m; s ← mk_8 k; l ← op_32 SHL l s;
  m ← mk_32 (Z.lnot c); h ← op_32 AND w m; s ← mk_8 k; h ← op_32 SHR h s;
  op_32 OR l h.

(** A shift of a [uint64_t]. *)
Definition shl_64 (a n : Z) : Z := wrap 64 (Z.shiftl a (Z.land n 63)).

(** The parts of the status register an instruction may write. *)
Definition status_mask (nzcvq g : bool) : Z := (if nzcvq then 0xf8000000 else 0) + (if g then 0x000f0000 else 0).

(** The two bytes of [rm_rotated], each extended to a halfword by [t]. *)
Definition extend_bytes (t : irCastType) (rm_rotated : nat) : gen nat :=
  b ← ir.add_cast IR_CAST_32_TO_8 rm_rotated; lsb ← ir.add_cast t b;
  k ← mk_8 16; s ← op_32 SHR rm_rotated k; b ← ir.add_cast IR_CAST_32_TO_8 s; msb ← ir.add_cast t b;
  l ← ir.add_cast IR_CAST_16U_TO_32 lsb;
  m ← ir.add_cast IR_CAST_16U_TO_32 msb; k ← mk_8 16; m ← op_32 SHL m k;
  op_32 OR l m.

(** The same, each added to a halfword of [rn], which is read before the byte. *)
Definition extend_add_bytes (t : irCastType) (rn_reg rm_rotated : nat) : gen nat :=
  n ← ir.add_cast IR_CAST_32_TO_16 rn_reg;
  b ← ir.add_cast IR_CAST_32_TO_8 rm_rotated; h ← ir.add_cast t b;
  lsb ← ir.add_binop ADD IR_REG_16 n h;
  k ← mk_8 16; s ← op_32 SHR rn_reg k; n ← ir.add_cast IR_CAST_32_TO_16 s;
  k ← mk_8 16; s ← op_32 SHR rm_rotated k; b ← ir.add_cast IR_CAST_32_TO_8 s; h ← ir.add_cast t b;
  msb ← ir.add_binop ADD IR_REG_16 n h;
  l ← ir.add_cast IR_CAST_16U_TO_32 lsb;
  m ← ir.add_cast IR_CAST_16U_TO_32 msb; k ← mk_8 16; m ← op_32 SHL m k;
  op_32 OR l m.

(** [c]: the carry moved to the top, for a rotation by one with extend. *)
Definition carry_to_top : gen nat :=
  f ← read_cpsr; two ← mk_8 2; t ← op_32 SHL f two; m ← mk_32 0x80000000; op_32 AND t m.

End shared.
