(* ===== verification/Arm32Dis.v ===== *)
(** * The ARM front end: integer instructions
      ([src/src/target/arm/disassembler/arm_disassembler.c])

    One definition per [dis_*] function, in the order of the file.  The result
    is [isExit]: whether the block ends here. *)

From S2P Require Import Prelude Ir Jitter FrontGen Arm32Gen.

#[local] Open Scope c_scope.

(** The fields most instructions have. *)
Definition f_rn (insn : Z) : Z := INSN insn 19 16.
Definition f_rd (insn : Z) : Z := INSN insn 15 12.
Definition f_rs (insn : Z) : Z := INSN insn 11 8.
Definition f_rm (insn : Z) : Z := INSN insn 3 0.

(** The state of the front end: whether the translation itself called
    [cleanCaches(0, ~0)]. *)
Abbreviation gen := (genM bool).
Definition clean_caches : gen unit := modify_state (fun s => mkGen true (requests s)).

Section dis.
Context `{ArmHost}.
(** [context->pc] *)
Context (pc : Z).

(** ** Data processing *)

(** The result of each opcode; [None] for the comparisons. *)
Definition data_processing_result (opcode : Z) (op1 op2 : nat) : gen (option nat) :=
  match opcode with
  | 0 => r ← op_32 AND op1 op2; mret (Some r)
  | 1 => r ← op_32 XOR op1 op2; mret (Some r)
  | 2 => r ← op_32 SUB op1 op2; mret (Some r)
  | 3 => r ← op_32 SUB op2 op1; mret (Some r)
  | 4 => r ← op_32 ADD op1 op2; mret (Some r)
  | 5 => c ← read_carry; t ← op_32 ADD op2 c; r ← op_32 ADD op1 t; mret (Some r)
  | 6 => c ← read_carry; n ← not_32 op2; t ← op_32 ADD n c; r ← op_32 ADD op1 t; mret (Some r)
  | 7 => c ← read_carry; n ← not_32 op1; t ← op_32 ADD n c; r ← op_32 ADD op2 t; mret (Some r)
  | 8 | 9 | 10 | 11 => mret None
  | 12 => r ← op_32 OR op1 op2; mret (Some r)
  | 13 => mret (Some op2)
  | 14 => n ← not_32 op2; r ← op_32 AND op1 n; mret (Some r)
  | _ => r ← not_32 op2; mret (Some r)
  end.

(** [nextCpsr] *)
Definition next_flags (opcode : Z) (op1 op2 : nat) : gen nat :=
  o ← mk_32 opcode; sco ← read_sco; p0 ← op_32 OR o sco;
  cpsr ← read_cpsr;
  a ← mk_helper arm_hlp_compute_next_flags;
  mk_call pc IR_REG_32 a [Some p0; Some op1; Some op2; Some cpsr].

Definition mk_data_processing (insn : Z) (op2 : nat) : gen bool :=
  let opcode := INSN insn 24 21 in
  let s := INSN1 insn 20 in
  let rn := f_rn insn in
  let rd := f_rd insn in
  let isExit := rd =? 15 in
  op1 ← read_reg pc rn;
  nextCpsr ← (if s then f ← next_flags opcode op1 op2; mret (Some f) else mret None);
  result ← data_processing_result opcode op1 op2;
  match result with Some r => write_reg rd r | None => mret tt end;;
  match nextCpsr with Some f => write_cpsr f | None => mret tt end;;
  match result with
  | Some r => if isExit then exit_32 r else mret tt
  | None => mret tt
  end;;
  mret isExit.

Definition dis_data_processing_immediate (insn : Z) : gen bool :=
  let s := INSN1 insn 20 in
  let rotate := INSN insn 11 8 in
  let imm := INSN insn 7 0 in
  let imm32 := if negb (rotate =? 0) then Z.lor (shr_32 imm (rotate * 2)) (shl_32 imm (32 - rotate * 2)) else imm in
  op ← mk_32 imm32;
  (if s then
     if negb (rotate =? 0) then r ← mk_32 (Z.land (Z.shiftr imm32 2) 0x20000000); write_sco r
     else c ← read_cpsr; m ← mk_32 0x20000000; r ← op_32 AND c m; write_sco r
   else mret tt);;
  mk_data_processing insn op.

Definition dis_data_processing_register_insn (insn : Z) : gen bool :=
  let s := INSN1 insn 20 in
  let shift_imm := INSN insn 11 7 in
  let shift_mode := INSN insn 6 5 in
  rm_reg ← read_reg pc (f_rm insn);
  (if s then i ← mk_32 insn; k ← mk_32 shift_imm; r ← mk_sco pc i rm_reg k; write_sco r else mret tt);;
  op ←
    match shift_mode with
    | 0 => if shift_imm =? 0 then mret rm_reg else k ← mk_8 shift_imm; op_32 SHL rm_reg k
    | 1 => if shift_imm =? 0 then mk_32 0 else k ← mk_8 shift_imm; op_32 SHR rm_reg k
    | 2 => k ← mk_8 (if shift_imm =? 0 then 31 else shift_imm); op_32 ASR rm_reg k
    | _ =>
        if shift_imm =? 0 then
          c ← carry_to_top; one ← mk_8 1; r ← op_32 SHR rm_reg one; op_32 OR r c
        else mk_ror_imm_32 rm_reg shift_imm
    end;
  mk_data_processing insn op.

Definition dis_data_processing_register_shifted_insn (insn : Z) : gen bool :=
  let s := INSN1 insn 20 in
  let rs := f_rs insn in
  let shift_mode := INSN insn 6 5 in
  let rm := f_rm insn in
  assert_legal pc (negb (rm =? 15)) $
  assert_legal pc (negb (rs =? 15)) $
  rm_reg ← read_reg pc rm;
  rs_reg ← read_reg pc rs;
  (if s then
     i ← mk_32 insn; k ← ir.add_cast IR_CAST_32_TO_8 rs_reg; r ← mk_sco pc i rm_reg k; write_sco r
   else mret tt);;
  op ←
    match shift_mode with
    | 0 => shift_by_reg SHL rm_reg rs_reg (mk_32 0)
    | 1 => shift_by_reg SHR rm_reg rs_reg (mk_32 0)
    | 2 => shift_by_reg ASR rm_reg rs_reg (k ← mk_8 31; op_32 ASR rm_reg k)
    | _ => mk_ror_reg_32 rm_reg rs_reg
    end;
  mk_data_processing insn op.

Definition dis_movw (insn : Z) : gen bool :=
  let rd := f_rd insn in
  let imm32 := Z.shiftl (INSN insn 19 16) 12 + INSN insn 11 0 in
  assert_legal pc (negb (rd =? 15)) $
  r ← mk_32 imm32; write_reg rd r;; mret false.

Definition dis_movt (insn : Z) : gen bool :=
  let rd := f_rd insn in
  let imm16 := Z.shiftl (INSN insn 19 16) 12 + INSN insn 11 0 in
  assert_legal pc (negb (rd =? 15)) $
  r ← mk_16 imm16; ir.add_write_context IR_REG_16 r (off_r rd + 2);; mret false.

(** ** Branches *)

Definition dis_bl (insn : Z) : gen bool :=
  let l := INSN1 insn 24 in
  let offset := sign_extend 24 (INSN insn 23 0) * 4 in
  (if l then r ← mk_32 (pc + 4); write_reg 14 r else mret tt);;
  branch_const (pc + 8 + offset).

Definition dis_swi (insn : Z) : gen bool :=
  r ← mk_32 (pc + 4); write_reg 15 r;;
  mk_call0 pc arm_hlp_syscall;;
  branch_const (pc + 4).

Definition dis_bx (insn : Z) : gen bool := dst ← read_reg pc (f_rm insn); branch_reg dst.

Definition dis_blx (insn : Z) : gen bool :=
  dst ← read_reg pc (f_rm insn);
  r ← mk_32 (pc + 4); write_reg 14 r;;
  branch_reg dst.

Definition dis_blx_imm (insn : Z) : gen bool :=
  let imm32 := sign_extend 26 (Z.lor (Z.shiftl (INSN insn 23 0) 2) (Z.shiftl (INSN insn 24 24) 1)) in
  let dst := Z.lor (wrap 32 (pc + 8 + imm32)) 1 in
  r ← mk_32 (pc + 4); write_reg 14 r;;
  r ← mk_32 dst; write_reg 15 r;;
  r ← mk_32 dst; exit_32 r;;
  mret true.

(** ** Loads and stores *)

Fixpoint store_multiple (regs : list Z) (start_address : nat) (offset : Z) : gen unit :=
  match regs with
  | [] => mret tt
  | i :: regs =>
      v ← read_reg pc i;
      a ← multiple_address start_address offset; ir.add_store IR_REG_32 v a;;
      store_multiple regs start_address (offset + 4)
  end.

Definition dis_ldm_stm (insn : Z) : gen bool :=
  let p := INSN1 insn 24 in
  let u := INSN1 insn 23 in
  let s := INSN1 insn 22 in
  let w := INSN1 insn 21 in
  let l := INSN1 insn 20 in
  let rn := f_rn insn in
  let reglist := INSN insn 15 0 in
  let bitNb := Z.of_nat (length (in_reglist reglist 16)) in
  assert_legal pc (negb s) $
  rn_initial_value ← (if w then r ← read_reg pc rn; mret (Some r) else mret None);
  start_address ←
    (if p then
       if u then r ← read_reg pc rn; c ← mk_32 4; op_32 ADD r c
       else r ← read_reg pc rn; c ← mk_32 (4 * bitNb); op_32 SUB r c
     else
       if u then read_reg pc rn
       else r ← read_reg pc rn; c ← mk_32 (4 * (bitNb - 1)); op_32 SUB r c);
  newPc ←
    (if l then
       offset ← load_multiple (in_reglist reglist 15) start_address 0;
       if negb (Z.land (Z.shiftr reglist 15) 1 =? 0) then
         a ← multiple_address start_address offset; newPc ← ir.add_load IR_REG_32 a;
         write_reg 15 newPc;; mret (Some newPc)
       else mret None
     else store_multiple (in_reglist reglist 16) start_address 0;; mret None);
  match rn_initial_value with
  | Some r => c ← mk_32 (4 * bitNb); v ← op_32 (if u then ADD else SUB) r c; write_reg rn v
  | None => mret tt
  end;;
  match newPc with Some r => exit_32 r;; mret true | None => mret false end.

(** [address_register_offset] with the offset of the instruction, and with none
    when it is post indexed. *)
Definition signed_offset (u : bool) (imm : Z) : Z := if u then imm else - imm.
Definition access_address_imm (p u : bool) (rn imm : Z) : gen nat :=
  address_register_offset pc rn (if p then signed_offset u imm else 0).

(** The write back of [rn]: [address] when pre indexed. *)
Definition write_back (p w : bool) (rn : Z) (address : nat) (post : gen nat) : gen unit :=
  if p && w then write_reg rn address
  else if negb p && negb w then newVal ← post; write_reg rn newVal
  else mret tt.
Definition write_back_imm (p u w : bool) (rn imm : Z) (address : nat) : gen unit :=
  write_back p w rn address (address_register_offset pc rn (signed_offset u imm)).

Definition store_word (rd : Z) (address : nat) : gen unit :=
  v ← read_reg pc rd; a ← mk_address address; ir.add_store IR_REG_32 v a.
Definition store_cast (width : irRegisterType) (t : irCastType) (rd : Z) (address : nat) : gen unit :=
  r ← read_reg pc rd; v ← ir.add_cast t r; a ← mk_address address; ir.add_store width v a.

Definition access_word_byte (b l : bool) (rd : Z) (address : nat) : gen unit :=
  if l then
    if b then load_cast IR_REG_8 IR_CAST_8U_TO_32 rd address else load_word rd address
  else
    if b then store_cast IR_REG_8 IR_CAST_32_TO_8 rd address else store_word rd address.

(** The exit of a load of the pc. *)
Definition exit_loaded_pc (l : bool) (rd : Z) : gen bool :=
  if l && (rd =? 15) then r ← ir.add_read_context IR_REG_32 (off_r 15); exit_32 r;; mret true
  else mret false.

Definition dis_load_store_word_and_unsigned_byte_imm_offset (insn : Z) : gen bool :=
  let p := INSN1 insn 24 in
  let u := INSN1 insn 23 in
  let b := INSN1 insn 22 in
  let w := INSN1 insn 21 in
  let l := INSN1 insn 20 in
  let rn := f_rn insn in
  let rd := f_rd insn in
  let imm12 := INSN insn 11 0 in
  assert_legal pc (p || negb w) $
  address ← access_address_imm p u rn imm12;
  access_word_byte b l rd address;;
  write_back_imm p u w rn imm12 address;;
  exit_loaded_pc l rd.

(** The index register, shifted; [None] where the form is refused. *)
Definition shifted_index (shift_mode shift_imm rm : Z) : option (gen nat) :=
  match shift_mode with
  | 0 => Some (if negb (shift_imm =? 0) then r ← read_reg pc rm; k ← mk_8 shift_imm; op_32 SHL r k
               else read_reg pc rm)
  | 1 => Some (if negb (shift_imm =? 0) then r ← read_reg pc rm; k ← mk_8 shift_imm; op_32 SHR r k
               else mk_32 0)
  | 2 => Some (r ← read_reg pc rm; k ← mk_8 (if negb (shift_imm =? 0) then shift_imm else 31); op_32 ASR r k)
  | _ => if negb (shift_imm =? 0) then Some (r ← read_reg pc rm; mk_ror_imm_32 r shift_imm) else None
  end.

Definition dis_load_store_word_and_unsigned_byte_register_offset (insn : Z) : gen bool :=
  let p := INSN1 insn 24 in
  let u := INSN1 insn 23 in
  let b := INSN1 insn 22 in
  let w := INSN1 insn 21 in
  let l := INSN1 insn 20 in
  let rn := f_rn insn in
  let rd := f_rd insn in
  let shift_imm := INSN insn 11 7 in
  let shift_mode := INSN insn 6 5 in
  let rm := f_rm insn in
  assert_legal pc (p || negb w) $
  match shifted_index shift_mode shift_imm rm with
  | None => illegal_opcode pc
  | Some compute_index =>
      index ← compute_index;
      let sum := r ← read_reg pc rn; op_32 (if u then ADD else SUB) r index in
      address ← (if p then sum else read_reg pc rn);
      access_word_byte b l rd address;;
      write_back p w rn address sum;;
      exit_loaded_pc l rd
  end.

(** The halfword, double and signed forms: the offset is a register or 8 bits. *)
Definition f_imm8 (insn : Z) : Z := Z.shiftl (INSN insn 11 8) 4 + INSN insn 3 0.

Definition extra_immediate (insn : Z) (access : nat -> gen unit) : gen bool :=
  let p := INSN1 insn 24 in
  let u := INSN1 insn 23 in
  let w := INSN1 insn 21 in
  let rn := f_rn insn in
  let offset := f_imm8 insn in
  address ← access_address_imm p u rn offset;
  access address;;
  write_back_imm p u w rn offset address;;
  mret false.

Definition extra_register (insn : Z) (access : nat -> gen unit) : gen bool :=
  let p := INSN1 insn 24 in
  let u := INSN1 insn 23 in
  let w := INSN1 insn 21 in
  let rn := f_rn insn in
  let rm := f_rm insn in
  rm_reg ← read_reg pc rm;
  rn_reg ← read_reg pc rn;
  let sum := op_32 (if u then ADD else SUB) rn_reg rm_reg in
  address ← (if p then sum else mret rn_reg);
  access address;;
  write_back p w rn address sum;;
  mret false.

Definition access_halfword (l : bool) (rd : Z) (address : nat) : gen unit :=
  if l then load_cast IR_REG_16 IR_CAST_16U_TO_32 rd address
  else store_cast IR_REG_16 IR_CAST_32_TO_16 rd address.

Definition dis_load_store_halfword_register_offset (insn : Z) : gen bool :=
  let rd := f_rd insn in
  assert_legal pc (negb (rd =? 15)) $ extra_register insn (access_halfword (INSN1 insn 20) rd).

Definition dis_load_store_halfword_immediate_offset (insn : Z) : gen bool :=
  let rd := f_rd insn in
  assert_legal pc (negb (rd =? 15)) $ extra_immediate insn (access_halfword (INSN1 insn 20) rd).

(** The address of a literal. *)
Definition literal_address (insn k : Z) : gen nat :=
  r ← mk_32 (pc + 8 + k + signed_offset (INSN1 insn 23) (f_imm8 insn)); mk_address r.

Definition dis_ldrh_literal (insn : Z) : gen bool :=
  let rt := f_rd insn in
  assert_legal pc (negb (rt =? 15)) $
  address ← literal_address insn 0;
  v ← ir.add_load IR_REG_16 address; r ← ir.add_cast IR_CAST_16U_TO_32 v; write_reg rt r;;
  mret false.

(** [l] is [1 - INSN(5, 5)]. *)
Definition access_double (l : bool) (rd : Z) (address : nat) : gen unit :=
  if l then
    load_word rd address;;
    n ← next_word address; load_word (rd + 1) n
  else
    store_word rd address;;
    v ← read_reg pc (rd + 1); n ← next_word address; a ← mk_address n; ir.add_store IR_REG_32 v a.

Definition dis_load_store_double_immediate_offset (insn : Z) : gen bool :=
  let rd := f_rd insn in
  assert_legal pc (negb (rd + 1 =? 15)) $
  assert_legal pc (rd `rem` 2 =? 0) $
  extra_immediate insn (access_double (negb (INSN1 insn 5)) rd).

Definition dis_load_store_double_register_offset (insn : Z) : gen bool :=
  let rd := f_rd insn in
  assert_legal pc (negb (rd + 1 =? 15)) $
  assert_legal pc (rd `rem` 2 =? 0) $
  extra_register insn (access_double (negb (INSN1 insn 5)) rd).

Definition load_signed (isHalfWord : bool) (rd : Z) (address : nat) : gen unit :=
  if isHalfWord then load_cast IR_REG_16 IR_CAST_16S_TO_32 rd address
  else load_cast IR_REG_8 IR_CAST_8S_TO_32 rd address.

Definition dis_load_signed_halfword_byte_immediate_offset (insn : Z) : gen bool :=
  let rd := f_rd insn in
  assert_legal pc (negb (rd =? 15)) $ extra_immediate insn (load_signed (INSN1 insn 5) rd).

Definition dis_load_signed_halfword_byte_register_offset (insn : Z) : gen bool :=
  let rd := f_rd insn in
  assert_legal pc (negb (rd =? 15)) $ extra_register insn (load_signed (INSN1 insn 5) rd).

Definition dis_ldrd_literal (insn : Z) : gen bool :=
  let rt := f_rd insn in
  let rt2 := rt + 1 in
  assert_legal pc (rt `rem` 2 =? 0) $
  assert_legal pc (negb (rt2 =? 15)) $
  address ← literal_address insn 0;
  address2 ← literal_address insn 4;
  v ← ir.add_load IR_REG_32 address; write_reg rt v;;
  v ← ir.add_load IR_REG_32 address2; write_reg rt2 v;;
  mret false.
End dis.
