(* ===== verification/Arm32DisMisc.v ===== *)
(** * The ARM front end: multiplications, media, synchronisation and status
      ([src/src/target/arm/disassembler/arm_disassembler.c])

    The functions [dis_*] that [Arm32Dis] does not hold. *)

From S2P Require Import Prelude Ir Jitter FrontGen Arm32Gen Arm32Dis.

#[local] Open Scope c_scope.

Section dis.
Context `{ArmHost}.
(** [context->pc] *)
Context (pc : Z).

(** ** Extensions *)

(** [rm_rotated] *)
Definition rotated_rm (insn : Z) (rm_reg : nat) : gen nat :=
  mk_media_rotate rm_reg (Z.shiftl (INSN insn 11 10) 3).

Definition extend16 (t : irCastType) (insn : Z) : gen bool :=
  rm_reg ← read_reg pc (f_rm insn);
  rm_rotated ← rotated_rm insn rm_reg;
  result ← extend_bytes t rm_rotated;
  write_reg (f_rd insn) result;; mret false.

Definition extend_add16 (t : irCastType) (insn : Z) : gen bool :=
  rm_reg ← read_reg pc (f_rm insn);
  rn_reg ← read_reg pc (f_rn insn);
  rm_rotated ← rotated_rm insn rm_reg;
  result ← extend_add_bytes t rn_reg rm_rotated;
  write_reg (f_rd insn) result;; mret false.

Definition dis_uxtb16 : Z -> gen bool := extend16 IR_CAST_8U_TO_16.
Definition dis_sxtb16 : Z -> gen bool := extend16 IR_CAST_8S_TO_16.
Definition dis_uxtab16 : Z -> gen bool := extend_add16 IR_CAST_8U_TO_16.
Definition dis_sxtab16 : Z -> gen bool := extend_add16 IR_CAST_8S_TO_16.

(** A rotation, then [extend]. *)
Definition extend_with (extend : nat -> gen nat) (insn : Z) : gen bool :=
  rm_reg ← read_reg pc (f_rm insn);
  rm_rotated ← rotated_rm insn rm_reg;
  r ← extend rm_rotated;
  write_reg (f_rd insn) r;; mret false.

Definition add_rn (insn : Z) (extend : nat -> gen nat) (r : nat) : gen nat :=
  n ← read_reg pc (f_rn insn); e ← extend r; op_32 ADD n e.

Definition dis_uxtb : Z -> gen bool := extend_with (mask_with 0xff).
Definition dis_uxth : Z -> gen bool := extend_with (mask_with 0xffff).
Definition dis_sxtb : Z -> gen bool := extend_with (narrow_then IR_CAST_32_TO_8 IR_CAST_8S_TO_32).
Definition dis_sxth : Z -> gen bool := extend_with (narrow_then IR_CAST_32_TO_16 IR_CAST_16S_TO_32).
Definition dis_uxtab (insn : Z) : gen bool :=
  extend_with (add_rn insn (narrow_then IR_CAST_32_TO_8 IR_CAST_8U_TO_32)) insn.
Definition dis_uxtah (insn : Z) : gen bool :=
  extend_with (add_rn insn (narrow_then IR_CAST_32_TO_16 IR_CAST_16U_TO_32)) insn.
Definition dis_sxtab (insn : Z) : gen bool :=
  extend_with (add_rn insn (narrow_then IR_CAST_32_TO_8 IR_CAST_8S_TO_32)) insn.
Definition dis_sxtah (insn : Z) : gen bool :=
  extend_with (add_rn insn (narrow_then IR_CAST_32_TO_16 IR_CAST_16S_TO_32)) insn.

(** ** Bits *)

Definition dis_clz (insn : Z) : gen bool :=
  let rm := f_rm insn in
  let rd := f_rd insn in
  assert_legal pc (negb (rm =? 15)) $
  assert_legal pc (negb (rd =? 15)) $
  p ← read_reg pc rm;
  a ← mk_helper arm_hlp_clz; result ← mk_call pc IR_REG_32 a [Some p; None; None; None];
  write_reg rd result;; mret false.

Definition dis_rbit (insn : Z) : gen bool :=
  w0 ← read_reg pc (f_rm insn);
  w1 ← swap_parts w0 0x55555555 1;
  w2 ← swap_parts w1 0x33333333 2;
  w3 ← swap_parts w2 0x0f0f0f0f 4;
  w4 ← swap_parts w3 0x00ff00ff 8;
  w5 ← swap_parts w4 0x0000ffff 16;
  write_reg (f_rd insn) w5;; mret false.

Definition dis_rev (insn : Z) : gen bool :=
  rn_reg ← read_reg pc (f_rm insn);
  tmp ← swap_parts rn_reg 0x0000ffff 16;
  result ← swap_parts tmp 0x00ff00ff 8;
  write_reg (f_rd insn) result;; mret false.

Definition dis_rev16 (insn : Z) : gen bool :=
  rn_reg ← read_reg pc (f_rm insn);
  result ← swap_parts rn_reg 0x00ff00ff 8;
  write_reg (f_rd insn) result;; mret false.

Definition dis_revsh (insn : Z) : gen bool :=
  rn_reg ← read_reg pc (f_rm insn);
  m ← mk_32 0x000000ff; l ← op_32 AND rn_reg m; s ← mk_8 8; l ← op_32 SHL l s;
  m ← mk_32 0x0000ff00; h ← op_32 AND rn_reg m; s ← mk_8 8; h ← op_32 SHR h s;
  tmp ← op_32 OR l h;
  result ← narrow_then IR_CAST_32_TO_16 IR_CAST_16S_TO_32 tmp;
  write_reg (f_rd insn) result;; mret false.

Definition dis_ubfx (insn : Z) : gen bool :=
  let widthm1 := INSN insn 20 16 in
  let lsb := INSN insn 11 7 in
  let mask := shl_64 1 (widthm1 + 1) - 1 in
  r ← read_reg pc (f_rm insn); k ← mk_8 lsb; s ← op_32 SHR r k; m ← mk_32 mask; v ← op_32 AND s m;
  write_reg (f_rd insn) v;; mret false.

Definition dis_sbfx (insn : Z) : gen bool :=
  let widthm1 := INSN insn 20 16 in
  let lsb := INSN insn 11 7 in
  r ← read_reg pc (f_rm insn); k ← mk_8 (31 - lsb - widthm1); s ← op_32 SHL r k;
  k ← mk_8 (31 - widthm1); v ← op_32 ASR s k;
  write_reg (f_rd insn) v;; mret false.

(** [((1ULL << width) - 1) << lsb] *)
Definition field_mask (insn : Z) : Z :=
  let msb := INSN insn 20 16 in
  let lsb := INSN insn 11 7 in
  let width := msb - lsb + 1 in
  shl_64 (shl_64 1 width - 1) lsb.

Definition dis_bfc (insn : Z) : gen bool :=
  let rd := f_rd insn in
  assert_legal pc (negb (rd =? 15)) $
  r ← read_reg pc rd; m ← mk_32 (Z.lnot (field_mask insn)); v ← op_32 AND r m;
  write_reg rd v;; mret false.

Definition dis_bfi (insn : Z) : gen bool :=
  let rd := f_rd insn in
  let lsb := INSN insn 11 7 in
  r ← read_reg pc (f_rm insn); k ← mk_8 lsb; s ← op_32 SHL r k; m ← mk_32 (field_mask insn); op1 ← op_32 AND s m;
  r ← read_reg pc rd; m ← mk_32 (Z.lnot (field_mask insn)); op2 ← op_32 AND r m;
  v ← op_32 OR op1 op2; write_reg rd v;; mret false.

Definition dis_pkh (insn : Z) : gen bool :=
  let imm5 := INSN insn 11 7 in
  let tb := INSN1 insn 6 in
  r ← read_reg pc (f_rm insn);
  operand2 ← (if tb then k ← mk_8 (if negb (imm5 =? 0) then imm5 else 31); op_32 ASR r k
              else k ← mk_8 imm5; op_32 SHL r k);
  n ← read_reg pc (f_rn insn);
  m ← mk_32 (if tb then 0xffff0000 else 0x0000ffff); a ← op_32 AND n m;
  m ← mk_32 (if tb then 0x0000ffff else 0xffff0000); b ← op_32 AND operand2 m;
  res ← op_32 OR a b;
  write_reg (f_rd insn) res;; mret false.

Definition dis_sel (insn : Z) : gen bool :=
  let rn := f_rn insn in
  let rd := f_rd insn in
  let rm := f_rm insn in
  assert_legal pc (negb (rn =? 15)) $
  assert_legal pc (negb (rm =? 15)) $
  assert_legal pc (negb (rd =? 15)) $
  p0 ← read_cpsr; p1 ← read_reg pc rn; p2 ← read_reg pc rm;
  a ← mk_helper arm_hlp_sel; result ← mk_call pc IR_REG_32 a [Some p0; Some p1; Some p2; None];
  write_reg rd result;; mret false.

(** ** Multiplications *)

Definition dis_mla (insn : Z) : gen bool :=
  let a := INSN1 insn 21 in
  let s := INSN1 insn 20 in
  let rd := INSN insn 19 16 in
  let rn := INSN insn 15 12 in
  m ← read_reg pc (f_rm insn); r ← read_reg pc (f_rs insn); mul ← mk_mul_u_lsb pc m r;
  res ← (if a then n ← read_reg pc rn; op_32 ADD mul n else mret mul);
  (if s then c ← read_cpsr; f ← mk_mul_flag_update pc res c; write_cpsr f else mret tt);;
  write_reg rd res;; mret false.

Definition dis_umaal (insn : Z) : gen bool :=
  p0 ← mk_32 (INSN insn 19 16); p1 ← mk_32 (INSN insn 15 12);
  p2 ← mk_32 (INSN insn 3 0); p3 ← mk_32 (INSN insn 11 8);
  a ← mk_helper arm_hlp_umaal; mk_call_void pc a [Some p0; Some p1; Some p2; Some p3];; mret false.

Definition dis_mls (insn : Z) : gen bool :=
  n ← read_reg pc (INSN insn 3 0); m ← read_reg pc (INSN insn 11 8); mul ← mk_mul_u_lsb pc n m;
  a ← read_reg pc (INSN insn 15 12); r ← op_32 SUB a mul;
  write_reg (INSN insn 19 16) r;; mret false.

Definition dis_mlla (insn : Z) : gen bool :=
  let sign := INSN1 insn 22 in
  let a := INSN1 insn 21 in
  let s := INSN1 insn 20 in
  let rdhi := INSN insn 19 16 in
  let rdlo := INSN insn 15 12 in
  rm_reg ← read_reg pc (f_rm insn);
  rs_reg ← read_reg pc (f_rs insn);
  assert_legal pc (negb s) $
  '(mul_lsb, mul_msb) ←
    (if a then
       rdhi_reg ← read_reg pc rdhi;
       rdlo_reg ← read_reg pc rdlo;
       if sign then
         l ← mk_mula_s_lsb pc rm_reg rs_reg rdhi_reg rdlo_reg;
         h ← mk_mula_s_msb pc rm_reg rs_reg rdhi_reg rdlo_reg; mret (l, h)
       else
         l ← mk_mula_u_lsb pc rm_reg rs_reg rdhi_reg rdlo_reg;
         h ← mk_mula_u_msb pc rm_reg rs_reg rdhi_reg rdlo_reg; mret (l, h)
     else
       if sign then l ← mk_mul_s_lsb pc rm_reg rs_reg; h ← mk_mul_s_msb pc rm_reg rs_reg; mret (l, h)
       else l ← mk_mul_u_lsb pc rm_reg rs_reg; h ← mk_mul_u_msb pc rm_reg rs_reg; mret (l, h));
  write_reg rdhi mul_msb;; write_reg rdlo mul_lsb;; mret false.

(** ** Coprocessor, synchronisation *)

Definition dis_mrc (insn : Z) : gen bool :=
  let opcode_1 := INSN insn 23 21 in
  let crn := INSN insn 19 16 in
  let rd := INSN insn 15 12 in
  let cp_num := INSN insn 11 8 in
  let opcode_2 := INSN insn 7 5 in
  let crm := INSN insn 3 0 in
  assert_legal pc ((opcode_1 =? 0) && (crn =? 13) && (cp_num =? 15) && (opcode_2 =? 3) && (crm =? 0)) $
  r ← ir.add_read_context IR_REG_32 off_c13_tls2; write_reg rd r;; mret false.

Definition dis_mcr (insn : Z) : gen bool := illegal_opcode pc.

Definition dis_ldrexx (insn : Z) : gen bool :=
  let rn := f_rn insn in
  let rt := f_rd insn in
  assert_legal pc (negb (rn =? 15)) $
  assert_legal pc (negb (rt =? 15)) $
  p0 ← read_reg pc rn; p1 ← mk_32 (INSN insn 23 21);
  a ← mk_helper arm_hlp_ldrexx; result ← mk_call pc IR_REG_32 a [Some p0; Some p1; None; None];
  write_reg rt result;; mret false.

Definition dis_ldrexd (insn : Z) : gen bool :=
  let rn := f_rn insn in
  let rt := f_rd insn in
  let rt2 := rt + 1 in
  assert_legal pc (negb (rn =? 15)) $
  assert_legal pc (negb (rt =? 15)) $
  p0 ← read_reg pc rn; p1 ← mk_32 (INSN insn 23 21);
  a ← mk_helper arm_hlp_ldrexd; result ← mk_call pc IR_REG_64 a [Some p0; Some p1; None; None];
  l ← ir.add_cast IR_CAST_64_TO_32 result; write_reg rt l;;
  k ← mk_8 32; h ← ir.add_binop SHR IR_REG_64 result k; h ← ir.add_cast IR_CAST_64_TO_32 h; write_reg rt2 h;;
  mret false.

Definition dis_strexx (insn : Z) : gen bool :=
  let rn := f_rn insn in
  let rd := f_rd insn in
  let rt := f_rm insn in
  assert_legal pc (negb (rn =? 15)) $
  assert_legal pc (negb (rd =? 15)) $
  assert_legal pc (negb (rt =? 15)) $
  p0 ← read_reg pc rn; p1 ← mk_32 (INSN insn 23 21); p2 ← read_reg pc rt;
  a ← mk_helper arm_hlp_strexx; result ← mk_call pc IR_REG_32 a [Some p0; Some p1; Some p2; None];
  write_reg rd result;; mret false.

(** The call is of 64 bits, the write of its result of 32. *)
Definition dis_strexd (insn : Z) : gen bool :=
  let rn := f_rn insn in
  let rd := f_rd insn in
  let rt := f_rm insn in
  let rt2 := rt + 1 in
  assert_legal pc (negb (rn =? 15)) $
  assert_legal pc (negb (rd =? 15)) $
  assert_legal pc (negb (rt =? 15)) $
  p0 ← read_reg pc rn; p1 ← read_reg pc rt; p2 ← read_reg pc rt2;
  a ← mk_helper arm_hlp_strexd; result ← mk_call pc IR_REG_64 a [Some p0; Some p1; Some p2; None];
  write_reg rd result;; mret false.

Definition memory_barrier : gen bool := mk_call0 pc arm_hlp_memory_barrier;; mret false.
Definition dis_isb (insn : Z) : gen bool := memory_barrier.
Definition dis_dsb (insn : Z) : gen bool := memory_barrier.
Definition dis_dmb (insn : Z) : gen bool := memory_barrier.

(** ** Status registers and breakpoints *)

Definition dis_mrs (insn : Z) : gen bool := r ← read_cpsr; write_reg (f_rd insn) r;; mret false.

Definition dis_msr_register (insn : Z) : gen bool :=
  let rn := f_rm insn in
  let mask := status_mask (INSN1 insn 19) (INSN1 insn 18) in
  assert_legal pc (negb (rn =? 15)) $
  c ← read_cpsr; m ← mk_32 (Z.lnot mask); cpsr_mask ← op_32 AND c m;
  r ← read_reg pc rn; m ← mk_32 mask; rn_mask ← op_32 AND r m;
  f ← op_32 OR cpsr_mask rn_mask; write_cpsr f;; mret false.

Definition dis_msr_immediate (insn : Z) : gen bool :=
  let mask := INSN insn 19 18 in
  let imm32 := armExpandImm (INSN insn 11 0) in
  let mask32 := Z.lor (if negb (Z.land mask 1 =? 0) then 0x000f0000 else 0)
                      (if negb (Z.land mask 2 =? 0) then 0xf8000000 else 0) in
  c ← read_cpsr; m ← mk_32 (Z.lnot mask32); a ← op_32 AND c m;
  b ← mk_32 (Z.land imm32 mask32);
  f ← op_32 OR a b; write_cpsr f;; mret false.

(** [cleanCaches] is called by the translation itself. *)
Definition dis_gdb_breakpoint (insn : Z) : gen bool :=
  r ← mk_32 pc; write_reg 15 r;;
  mk_gdb_breakpoint_instruction pc;;
  clean_caches;;
  x ← mk_64 pc; ir.add_exit x;; mret true.

(** ** Instructions left to a helper *)

Definition dis_halfword_mult_and_mult_acc_insn : Z -> gen bool := mk_dirty pc arm_hlp_halfword_mult_and_mult_acc.
Definition dis_saturating_add_A_sub : Z -> gen bool := mk_dirty pc arm_hlp_dirty_saturating.
Definition dis_saturation : Z -> gen bool := mk_dirty pc arm_hlp_saturation.
Definition dis_signed_multiplies : Z -> gen bool := mk_dirty pc arm_hlp_signed_multiplies.
Definition dis_sum_absolute_difference : Z -> gen bool := mk_dirty pc arm_hlp_sum_absolute_difference.
Definition dis_signed_parallel : Z -> gen bool := mk_dirty pc arm_hlp_signed_parallel.
Definition dis_unsigned_parallel : Z -> gen bool := mk_dirty pc arm_hlp_unsigned_parallel.
End dis.
