(* ===== verification/Arm32Vfp.v ===== *)
(** * The ARM front end: floating point and SIMD instructions
      ([src/src/target/arm/disassembler/arm_common_disassembler.c])

    The file is included by the ARM and by the Thumb disassembler; [is_thumb]
    says which.  Most operations are left to helpers that decode the
    instruction again. *)

From S2P Require Import Prelude Ir Jitter FrontGen Arm32Gen.

#[local] Open Scope c_scope.

(** ** Immediates *)

(** A bit of an immediate. *)
Definition bit (v k : Z) : Z := Z.land (Z.shiftr v k) 1.

(** A sum of bits at different places, in 32 and 64 bits. *)
Definition vfpExpandImm32 (imm8 : Z) : Z :=
  let i7 := bit imm8 7 in
  let i6 := bit imm8 6 in
  let i5_0 := Z.land imm8 0x3f in
  wrap 32 (Z.shiftl i7 31 + Z.shiftl (1 - i6) 30 + Z.shiftl i6 29 + Z.shiftl i6 28 +
           Z.shiftl i6 27 + Z.shiftl i6 26 + Z.shiftl i6 25 + Z.shiftl i5_0 19).

Definition vfpExpandImm64 (imm8 : Z) : Z :=
  let i7 := bit imm8 7 in
  let i6 := bit imm8 6 in
  let i5_0 := Z.land imm8 0x3f in
  wrap 64 (Z.shiftl i7 63 + Z.shiftl (1 - i6) 62 + Z.shiftl i6 61 + Z.shiftl i6 60 + Z.shiftl i6 59 +
           Z.shiftl i6 58 + Z.shiftl i6 57 + Z.shiftl i6 56 + Z.shiftl i6 55 + Z.shiftl i6 54 +
           Z.shiftl i5_0 48).

(** A byte for each bit of [imm8], from the highest: [n] turns of the loop. *)
Fixpoint expand_bits (n : nat) (imm8 res : Z) : Z :=
  match n with
  | O => res
  | S n =>
      let res := wrap 64 (Z.shiftl res 8) in
      let res := if negb (Z.land imm8 0x80 =? 0) then Z.lor res 0xff else res in
      expand_bits n (wrap 64 (Z.shiftl imm8 1)) res
  end.

(** [None] when [*is_illegal] is set. *)
Definition advSimdExpandImm (op : bool) (cmode imm8 : Z) : option Z :=
  let sh k := wrap 64 (Z.shiftl imm8 k) in
  match cmode with
  | 0 | 1 => Some (Z.lor (sh 32) (sh 0))
  | 2 | 3 => Some (Z.lor (sh 40) (sh 8))
  | 4 | 5 => Some (Z.lor (sh 48) (sh 16))
  | 6 | 7 => Some (Z.lor (sh 56) (sh 24))
  | 8 | 9 => Some (Z.lor (Z.lor (Z.lor (sh 48) (sh 32)) (sh 16)) imm8)
  | 10 | 11 => Some (Z.lor (Z.lor (Z.lor (sh 56) (sh 40)) (sh 24)) (sh 8))
  | 12 => Some (Z.lor (Z.lor (Z.lor (sh 40) (Z.shiftl 0xff 32)) (sh 8)) 0xff)
  | 13 => Some (Z.lor (Z.lor (Z.lor (sh 48) (Z.shiftl 0xffff 32)) (sh 16)) 0xffff)
  | 14 =>
      Some (if op then expand_bits 8 imm8 0
            else Z.lor (Z.lor (Z.lor (Z.lor (Z.lor (Z.lor (Z.lor (sh 56) (sh 48)) (sh 40)) (sh 32)) (sh 24)) (sh 16))
                              (sh 8)) (sh 0))
  | 15 => let f32 := vfpExpandImm32 imm8 in Some (Z.lor (Z.shiftl f32 32) f32)
  | _ => None
  end.

Section vfp.
Context `{ArmHost} {S : Type}.
(** [is_thumb], and [context->pc]; [read_reg] is that of the including file. *)
Context (is_thumb : bool) (read_reg : Z -> genM S nat) (pc : Z).
Abbreviation gen := (genM S).

Definition read_fpscr : gen nat := a ← mk_helper hlp_read_fpscr; mk_call pc IR_REG_32 a [None; None; None; None].
Definition write_fpscr (value : nat) : gen unit :=
  a ← mk_helper hlp_write_fpscr; mk_call_void pc a [Some value; None; None; None].

(** ** Loads, stores and moves *)

Definition dis_common_vldm (insn : Z) : gen bool := mk_dirty_thumb pc hlp_arm_vldm insn is_thumb.
Definition dis_common_vstm (insn : Z) : gen bool := mk_dirty_thumb pc hlp_arm_vstm insn is_thumb.

(** The number of a register: the extra bit comes first or last. *)
Definition d_index (extra v : Z) : Z := Z.shiftl extra 4 + v.
Definition s_index (extra v : Z) : Z := Z.shiftl v 1 + extra.

(** [is_add?imm32:-imm32] *)
Definition f_offset (insn : Z) : Z :=
  let imm32 := Z.shiftl (INSN insn 7 0) 2 in if INSN1 insn 23 then imm32 else - imm32.

Definition dis_common_vldr (insn : Z) : gen bool :=
  let D := INSN insn 22 22 in
  let rn := INSN insn 19 16 in
  let vd := INSN insn 15 12 in
  let is_64 := INSN1 insn 8 in
  b ← (if is_thumb && (rn =? 15) then mk_32 (Z.land (pc + 4) (Z.lnot 3)) else read_reg rn);
  o ← mk_32 (f_offset insn); address ← op_32 ADD b o;
  a ← mk_address address;
  (if is_64 then v ← ir.add_load IR_REG_64 a; write_reg_d (d_index D vd) v
   else v ← ir.add_load IR_REG_32 a; write_reg_s (s_index D vd) v);;
  mret false.

Definition dis_common_vstr (insn : Z) : gen bool :=
  let D := INSN insn 22 22 in
  let rn := INSN insn 19 16 in
  let vd := INSN insn 15 12 in
  let is_64 := INSN1 insn 8 in
  assert_legal pc (negb (rn =? 15)) $
  b ← read_reg rn; o ← mk_32 (f_offset insn); address ← op_32 ADD b o;
  (if is_64 then v ← read_reg_d (d_index D vd); a ← mk_address address; ir.add_store IR_REG_64 v a
   else v ← read_reg_s (s_index D vd); a ← mk_address address; ir.add_store IR_REG_32 v a);;
  mret false.

(** One register to another, of the kinds [s] and [d] or of the core. *)
Definition arm_to_s (s r : Z) : gen unit := v ← read_reg r; write_reg_s s v.
Definition s_to_arm (r s : Z) : gen unit := v ← read_reg_s s; write_reg r v.
Definition d_to_d (d m : Z) : gen unit := v ← read_reg_d m; write_reg_d d v.

Definition dis_common_vmov_arm_core_and_s_insn (insn : Z) : gen bool :=
  let vn := Z.lor (Z.shiftl (INSN insn 19 16) 1) (INSN insn 7 7) in
  let rt := INSN insn 15 12 in
  assert_legal pc (negb (rt =? 15)) $
  ((if INSN1 insn 20 then s_to_arm rt vn else arm_to_s vn rt);; mret false).

Definition dis_common_vmov_scalar_to_arm (insn : Z) : gen bool :=
  let vn := Z.lor (Z.shiftl (INSN insn 7 7) 4) (INSN insn 19 16) in
  let rt := INSN insn 15 12 in
  let opc1 := INSN insn 22 21 in
  let opc2 := INSN insn 6 5 in
  let is_unsigned := INSN1 insn 23 in
  res ←
    (if negb (Z.land opc1 2 =? 0) then
       let index := Z.shiftl (Z.land opc1 1) 2 + opc2 in
       v ← ir.add_read_context IR_REG_8 (off_e_d vn + index);
       ir.add_cast (if is_unsigned then IR_CAST_8U_TO_32 else IR_CAST_8S_TO_32) v
     else if negb (Z.land opc2 1 =? 0) then
       let index := Z.shiftl (Z.land opc1 1) 1 + Z.shiftr opc2 1 in
       v ← ir.add_read_context IR_REG_16 (off_e_d vn + index * 2);
       ir.add_cast (if is_unsigned then IR_CAST_16U_TO_32 else IR_CAST_16S_TO_32) v
     else
       let index := Z.land opc1 1 in
       ir.add_read_context IR_REG_32 (off_e_d vn + index * 4));
  write_reg rt res;; mret false.

Definition dis_common_vmov_register (insn : Z) : gen bool :=
  let is_vfp := INSN1 insn 23 in
  let D := INSN insn 22 22 in
  let vd := INSN insn 15 12 in
  let M := INSN insn 5 5 in
  let vm := INSN insn 3 0 in
  assert_legal pc is_vfp $
  ((if INSN1 insn 8 then d_to_d (d_index D vd) (d_index M vm)
   else v ← read_reg_s (s_index M vm); write_reg_s (s_index D vd) v);; mret false).

Definition dis_common_vmov_immediate (insn : Z) : gen bool :=
  let D := INSN insn 22 22 in
  let vd := INSN insn 15 12 in
  let imm8 := Z.shiftl (INSN insn 19 16) 4 + INSN insn 3 0 in
  (if INSN1 insn 8 then v ← mk_64 (vfpExpandImm64 imm8); write_reg_d (d_index D vd) v
   else v ← mk_32 (vfpExpandImm32 imm8); write_reg_s (s_index D vd) v);;
  mret false.

Definition dis_common_vmov_two_arm_core_and_two_s_insn (insn : Z) : gen bool :=
  let rt2 := INSN insn 19 16 in
  let rt := INSN insn 15 12 in
  let m := Z.shiftl (INSN insn 3 0) 1 + INSN insn 5 5 in
  (if INSN1 insn 20 then s_to_arm rt m;; s_to_arm rt2 (m + 1)
   else arm_to_s m rt;; arm_to_s (m + 1) rt2);;
  mret false.

Definition dis_common_vmov_two_arm_core_and_d_insn (insn : Z) : gen bool :=
  let rt2 := INSN insn 19 16 in
  let rt := INSN insn 15 12 in
  let m := Z.shiftl (INSN insn 5 5) 4 + INSN insn 3 0 in
  assert_legal pc (negb (rt =? 15)) $
  assert_legal pc (negb (rt2 =? 15)) $
  ((if INSN1 insn 20 then s_to_arm rt (m * 2);; s_to_arm rt2 (m * 2 + 1)
   else arm_to_s (m * 2) rt;; arm_to_s (m * 2 + 1) rt2);; mret false).

(** ** Bitwise operations on one or two doubles *)

(** [d], [n], [m] and [Q] of a three register instruction. *)
Definition f_d (insn : Z) : Z := Z.shiftl (INSN insn 22 22) 4 + INSN insn 15 12.
Definition f_n (insn : Z) : Z := Z.shiftl (INSN insn 7 7) 4 + INSN insn 19 16.
Definition f_m (insn : Z) : Z := Z.shiftl (INSN insn 5 5) 4 + INSN insn 3 0.

(** [part 0], and [part 1] for a quad register. *)
Definition parts (insn : Z) (part : Z -> gen unit) : gen bool :=
  part 0;;
  (if INSN1 insn 6 then part 1 else mret tt);;
  mret false.

Definition op_64 (k : binopKind) (a b : nat) : gen nat := ir.add_binop k IR_REG_64 a b.
(** [ir->add_xor_64(ir, ..., mk_64(ir, ~0))] *)
Definition read_not_d (m : Z) : gen nat := v ← read_reg_d m; f ← mk_64 (-1); op_64 XOR v f.

(** [d = n op m], and [d = n op ~m]. *)
Definition bitwise (k : binopKind) (insn : Z) : gen bool :=
  parts insn (fun i =>
    a ← read_reg_d (f_n insn + i); b ← read_reg_d (f_m insn + i); r ← op_64 k a b; write_reg_d (f_d insn + i) r).
Definition bitwise_not (k : binopKind) (insn : Z) : gen bool :=
  parts insn (fun i =>
    a ← read_reg_d (f_n insn + i); b ← read_not_d (f_m insn + i); r ← op_64 k a b; write_reg_d (f_d insn + i) r).

Definition dis_common_veor_insn : Z -> gen bool := bitwise XOR.
Definition dis_common_vand_insn : Z -> gen bool := bitwise AND.
Definition dis_common_vorr_register_simd_insn : Z -> gen bool := bitwise OR.
Definition dis_common_vbic_insn : Z -> gen bool := bitwise_not AND.
Definition dis_common_vorn_simd_insn : Z -> gen bool := bitwise_not OR.

Definition dis_common_vmov_register_simd_insn (insn : Z) : gen bool :=
  parts insn (fun i => d_to_d (f_d insn + i) (f_m insn + i)).
Definition dis_common_vmvn_register_simd_insn (insn : Z) : gen bool :=
  parts insn (fun i => v ← read_not_d (f_m insn + i); write_reg_d (f_d insn + i) v).
Definition dis_common_vswap_simd_insn (insn : Z) : gen bool :=
  parts insn (fun i =>
    tmp ← read_reg_d (f_d insn + i);
    v ← read_reg_d (f_m insn + i); write_reg_d (f_d insn + i) v;;
    write_reg_d (f_m insn + i) tmp).

(** [imm8]: its top bit is elsewhere in a Thumb instruction; [u] is that bit. *)
Definition f_u (insn : Z) : Z := if is_thumb then INSN insn 28 28 else INSN insn 24 24.
Definition f_imm8 (insn : Z) : Z :=
  Z.lor (Z.lor (Z.shiftl (f_u insn) 7) (Z.shiftl (INSN insn 18 16) 4)) (INSN insn 3 0).

Definition with_imm64 (op : bool) (insn : Z) (k : Z -> gen bool) : gen bool :=
  match advSimdExpandImm op (INSN insn 11 8) (f_imm8 insn) with
  | Some imm64 => k imm64
  | None => illegal_opcode pc
  end.

(** [d = d op imm64] *)
Definition immediate_op (k : binopKind) (v : Z) (insn : Z) : gen bool :=
  parts insn (fun i =>
    a ← read_reg_d (f_d insn + i); b ← mk_64 v; r ← op_64 k a b; write_reg_d (f_d insn + i) r).
Definition immediate_move (v : Z) (insn : Z) : gen bool :=
  parts insn (fun i => r ← mk_64 v; write_reg_d (f_d insn + i) r).

Definition dis_common_vorr_immediate_insn (insn : Z) : gen bool :=
  with_imm64 true insn (fun v => immediate_op OR v insn).
Definition dis_common_vbic_immediate_insn (insn : Z) : gen bool :=
  with_imm64 true insn (fun v => immediate_op AND (Z.lnot v) insn).
Definition dis_common_vmov_immediate_simd_insn (insn : Z) : gen bool :=
  with_imm64 (INSN1 insn 5) insn (fun v => immediate_move v insn).
Definition dis_common_vmvn_immediate_simd_insn (insn : Z) : gen bool :=
  with_imm64 (INSN1 insn 5) insn (fun v => immediate_move (Z.lnot v) insn).

(** [op1 & op2 | op3 & ~op2], for one of the two parts. *)
Definition select_bits (d op1 op2 op3 : Z) (insn : Z) : gen bool :=
  parts insn (fun i =>
    a ← read_reg_d (op1 + i); b ← read_reg_d (op2 + i); l ← op_64 AND a b;
    c ← read_reg_d (op3 + i); b ← read_not_d (op2 + i); h ← op_64 AND c b;
    r ← op_64 OR l h; write_reg_d (d + i) r).

Definition dis_common_vbif_vbit_vbsl (insn : Z) : gen bool :=
  let d := f_d insn in
  let n := f_n insn in
  let m := f_m insn in
  match INSN insn 21 20 with
  | 1 => select_bits d n d m insn
  | 2 => select_bits d n m d insn
  | 3 => select_bits d d m n insn
  | _ => illegal_opcode pc
  end.

(** ** Status register *)

Definition dis_common_vmsr (insn : Z) : gen bool :=
  v ← read_reg (INSN insn 15 12); write_fpscr v;; mret false.

Definition dis_common_vmrs (insn : Z) : gen bool :=
  let rt := INSN insn 15 12 in
  (if rt =? 15 then
     c ← read_cpsr; m ← mk_32 0x0fffffff; a ← op_32 AND c m;
     f ← read_fpscr; m ← mk_32 0xf0000000; b ← op_32 AND f m;
     new_cpsr ← op_32 OR a b; write_cpsr new_cpsr
   else v ← read_fpscr; write_reg rt v);;
  mret false.

(** ** Instructions left to a helper *)

Definition dis_common_adv_simd_three_different_length_hlp (insn : Z) : gen bool :=
  mk_dirty_thumb pc hlp_common_adv_simd_three_different_length insn is_thumb.
Definition dis_common_adv_simd_three_same_length_hlp (insn : Z) : gen bool :=
  mk_dirty_thumb pc hlp_common_adv_simd_three_same_length insn is_thumb.
Definition dis_common_adv_simd_two_regs_misc_hlp : Z -> gen bool := mk_dirty pc hlp_common_adv_simd_two_regs_misc.
Definition dis_common_adv_simd_vdup_arm_insn : Z -> gen bool := mk_dirty pc hlp_common_adv_simd_vdup_arm.
Definition dis_common_adv_simd_vmov_from_arm_insn : Z -> gen bool := mk_dirty pc hlp_common_adv_simd_vmov_from_arm.
Definition mk_common_vfp_data_processing_insn : Z -> gen bool := mk_dirty pc hlp_common_vfp_data_processing_insn.
Definition dis_common_adv_simd_vdup_scalar_insn : Z -> gen bool := mk_dirty pc hlp_common_adv_simd_vdup_scalar.
Definition dis_common_adv_simd_vtbl_vtbx_insn : Z -> gen bool := mk_dirty pc hlp_common_adv_simd_vtbl_vtbx.
Definition dis_common_adv_simd_vext_insn : Z -> gen bool := mk_dirty pc hlp_common_adv_simd_vext.
Definition dis_common_adv_simd_element_or_structure_load_store_insn : Z -> gen bool :=
  mk_dirty pc hlp_common_adv_simd_element_or_structure_load_store.
Definition dis_common_adv_simd_two_regs_and_scalar_insn (insn : Z) : gen bool :=
  mk_dirty_thumb pc hlp_common_adv_simd_two_regs_and_scalar insn is_thumb.
Definition dis_common_adv_simd_two_regs_and_shift_insn (insn : Z) : gen bool :=
  mk_dirty_thumb pc hlp_common_adv_simd_two_regs_and_shift insn is_thumb.

(** ** Decoding *)

Definition dis_common_extension_register_load_store_insn (insn : Z) : gen bool :=
  let opcode := INSN insn 24 21 in
  let is_load := INSN1 insn 20 in
  if opcode =? 2 then illegal_opcode pc
  else if is_load then
    if Z.land opcode 9 =? 8 then dis_common_vldr insn else dis_common_vldm insn
  else
    if Z.land opcode 9 =? 8 then dis_common_vstr insn else dis_common_vstm insn.

Definition dis_common_transfert_arm_core_and_extension_registers_insn (insn : Z) : gen bool :=
  let lc := Z.lor (Z.shiftl (INSN insn 20 20) 1) (INSN insn 8 8) in
  let a := INSN insn 23 21 in
  match lc with
  | 0 => if negb (a =? 0) then dis_common_vmsr insn else dis_common_vmov_arm_core_and_s_insn insn
  | 1 => if negb (Z.land a 4 =? 0) then dis_common_adv_simd_vdup_arm_insn insn
         else dis_common_adv_simd_vmov_from_arm_insn insn
  | 2 => if negb (a =? 0) then dis_common_vmrs insn else dis_common_vmov_arm_core_and_s_insn insn
  | 3 => dis_common_vmov_scalar_to_arm insn
  | _ => illegal_opcode pc
  end.

Definition dis_common_vfp_data_processing_insn (insn : Z) : gen bool :=
  let opc1 := INSN insn 23 20 in
  let opc2 := INSN insn 19 16 in
  let opc3_1 := INSN1 insn 7 in
  let opc3_0 := INSN1 insn 6 in
  if (opc1 =? 11) || (opc1 =? 15) then
    if opc3_0 then
      match opc2 with
      | 0 => if opc3_1 then mk_common_vfp_data_processing_insn insn else dis_common_vmov_register insn
      | 1 | 2 | 3 | 4 | 5 | 7 | 8 | 12 | 13 | 10 | 11 | 14 | 15 => mk_common_vfp_data_processing_insn insn
      | _ => illegal_opcode pc
      end
    else dis_common_vmov_immediate insn
  else mk_common_vfp_data_processing_insn insn.

Definition dis_common_adv_simd_three_different_length_insn (insn : Z) : gen bool :=
  dis_common_adv_simd_three_different_length_hlp insn.

Definition dis_common_adv_simd_three_same_length_insn (insn : Z) : gen bool :=
  let a := INSN insn 11 8 in
  let b := INSN1 insn 4 in
  let c := INSN insn 21 20 in
  let u := negb (f_u insn =? 0) in
  if (a =? 1) && b then
    match c with
    | 0 => if u then dis_common_veor_insn insn else dis_common_vand_insn insn
    | 1 => if u then dis_common_vbif_vbit_vbsl insn else dis_common_vbic_insn insn
    | 2 =>
        if u then dis_common_vbif_vbit_vbsl insn
        else if (INSN insn 19 16 =? INSN insn 3 0) && (INSN insn 7 7 =? INSN insn 5 5) then
          _ ← dis_common_vmov_register_simd_insn insn; mret false
        else _ ← dis_common_vorr_register_simd_insn insn; mret false
    | 3 => if u then dis_common_vbif_vbit_vbsl insn else dis_common_vorn_simd_insn insn
    | _ => illegal_opcode pc
    end
  else dis_common_adv_simd_three_same_length_hlp insn.

Definition dis_common_adv_simd_two_regs_misc_insn (insn : Z) : gen bool :=
  let a := INSN insn 17 16 in
  let b := INSN insn 10 6 in
  if (a =? 0) && (Z.land b 0x1e =? 0x16) then dis_common_vmvn_register_simd_insn insn
  else if (a =? 2) && (Z.land b 0x1e =? 0x00) then dis_common_vswap_simd_insn insn
  else dis_common_adv_simd_two_regs_misc_hlp insn.

Definition dis_common_adv_simd_one_register_and_modified_immediate_insn (insn : Z) : gen bool :=
  let cmode := INSN insn 11 8 in
  let op := INSN1 insn 5 in
  match cmode with
  | 1 | 3 | 5 | 7 | 9 | 11 =>
      if op then dis_common_vbic_immediate_insn insn else dis_common_vorr_immediate_insn insn
  | 0 | 2 | 4 | 6 | 8 | 10 | 12 | 13 =>
      if op then dis_common_vmvn_immediate_simd_insn insn else dis_common_vmov_immediate_simd_insn insn
  | 14 => dis_common_vmov_immediate_simd_insn insn
  | 15 => assert_legal pc (negb op) $ dis_common_vmov_immediate_simd_insn insn
  | _ => illegal_opcode pc
  end.

Definition dis_common_adv_simd_data_preocessing_insn (insn : Z) : gen bool :=
  let a := INSN insn 23 19 in
  let b := INSN insn 11 8 in
  let c := INSN insn 7 4 in
  let U := negb (f_u insn =? 0) in
  if (Z.land a 0x16 =? 0x16) && (Z.land c 1 =? 0) then
    if U then
      if b =? 0xc then dis_common_adv_simd_vdup_scalar_insn insn
      else if Z.land b 0xc =? 0x8 then dis_common_adv_simd_vtbl_vtbx_insn insn
      else if Z.land b 0x8 =? 0 then dis_common_adv_simd_two_regs_misc_insn insn
      else illegal_opcode pc
    else dis_common_adv_simd_vext_insn insn
  else if negb (Z.land a 0x10 =? 0) then
    if negb (Z.land c 1 =? 0) then
      if (Z.land a 0x17 =? 0x10) && (Z.land c 0x9 =? 1) then
        dis_common_adv_simd_one_register_and_modified_immediate_insn insn
      else dis_common_adv_simd_two_regs_and_shift_insn insn
    else
      let lengths := (Z.land a 0x14 =? 0x10) || (Z.land a 0x16 =? 0x14) in
      if (Z.land c 0x5 =? 0) && lengths then dis_common_adv_simd_three_different_length_insn insn
      else if (Z.land c 0x5 =? 0x4) && lengths then dis_common_adv_simd_two_regs_and_scalar_insn insn
      else illegal_opcode pc
  else dis_common_adv_simd_three_same_length_insn insn.
End vfp.
