(* ===== verification/Arm32Decode.v ===== *)
(** * The ARM front end: decoding
      ([src/src/target/arm/disassembler/arm_disassembler.c], from
      [dis_msr_imm_and_hints] to [disassemble_insn]) *)

From S2P Require Import Prelude Ir Jitter IrRequests FrontGen Arm32Gen Arm32Dis Arm32DisMisc Arm32Vfp.

#[local] Open Scope c_scope.

Section decode.
Context `{ArmHost}.
(** [context->pc] *)
Context (pc : Z).

(** ** Data processing and miscellaneous *)

Definition dis_msr_imm_and_hints (insn : Z) : gen bool :=
  let op := INSN insn 22 22 in
  let op1 := INSN insn 19 16 in
  let op2 := INSN insn 7 0 in
  assert_legal pc (op =? 0) $
  match op1 with
  | 0 => if op2 =? 0 then mret false else illegal_opcode pc
  | 4 | 8 | 12 => dis_msr_immediate insn
  | _ => illegal_opcode pc
  end.

Definition dis_sync_primitive (insn : Z) : gen bool :=
  match INSN insn 23 20 with
  | 8 | 12 | 14 => dis_strexx pc insn
  | 9 | 13 | 15 => dis_ldrexx pc insn
  | 10 => dis_strexd pc insn
  | 11 => dis_ldrexd pc insn
  | _ => illegal_opcode pc
  end.

Definition dis_mult_and_mult_acc_insn (insn : Z) : gen bool :=
  match INSN insn 23 20 with
  | 0 | 1 | 2 | 3 => dis_mla pc insn
  | 4 => dis_umaal pc insn
  | 6 => dis_mls pc insn
  | 8 | 9 | 10 | 11 | 12 | 13 | 14 | 15 => dis_mlla pc insn
  | _ => illegal_opcode pc
  end.

Definition dis_extra_load_store_unprivilege_insn (insn : Z) : gen bool := illegal_opcode pc.

Definition dis_extra_load_store_insn (insn : Z) : gen bool :=
  let op2 := INSN insn 6 5 in
  let op1 := INSN insn 24 20 in
  let rn := INSN insn 19 16 in
  match op2 with
  | 1 =>
      match Z.land op1 0x5 with
      | 0 | 1 => dis_load_store_halfword_register_offset pc insn
      | 4 => dis_load_store_halfword_immediate_offset pc insn
      | 5 => if rn =? 15 then dis_ldrh_literal pc insn else dis_load_store_halfword_immediate_offset pc insn
      | _ => illegal_opcode pc
      end
  | 2 =>
      match Z.land op1 0x5 with
      | 0 => dis_load_store_double_register_offset pc insn
      | 1 => dis_load_signed_halfword_byte_register_offset pc insn
      | 4 => if rn =? 15 then dis_ldrd_literal pc insn else dis_load_store_double_immediate_offset pc insn
      | 5 => dis_load_signed_halfword_byte_immediate_offset pc insn
      | _ => illegal_opcode pc
      end
  | 3 =>
      match Z.land op1 0x5 with
      | 0 => dis_load_store_double_register_offset pc insn
      | 1 => dis_load_signed_halfword_byte_register_offset pc insn
      | 4 => dis_load_store_double_immediate_offset pc insn
      | 5 => dis_load_signed_halfword_byte_immediate_offset pc insn
      | _ => illegal_opcode pc
      end
  | _ => illegal_opcode pc
  end.

Definition dis_misc_insn (insn : Z) : gen bool :=
  let op := INSN insn 22 21 in
  let op1 := INSN insn 19 16 in
  match INSN insn 6 4 with
  | 0 =>
      if Z.land op 1 =? 0 then dis_mrs insn
      else if (op =? 1) && (Z.land op1 3 =? 0) then dis_msr_register pc insn
      else illegal_opcode pc
  | 1 =>
      if op =? 1 then dis_bx pc insn
      else if op =? 3 then dis_clz pc insn
      else illegal_opcode pc
  | 3 => dis_blx pc insn
  | 5 => dis_saturating_add_A_sub pc insn
  | _ => illegal_opcode pc
  end.

Definition dis_data_processing_and_misc_insn (insn : Z) : gen bool :=
  let op1 := INSN insn 24 20 in
  let op2 := INSN insn 7 4 in
  if INSN1 insn 25 then
    if op1 =? 0x10 then dis_movw pc insn
    else if op1 =? 0x14 then dis_movt pc insn
    else if Z.land op1 0x1b =? 0x12 then dis_msr_imm_and_hints insn
    else dis_data_processing_immediate pc insn
  else if op2 =? 0x9 then
    if negb (Z.land op1 0x10 =? 0) then dis_sync_primitive insn else dis_mult_and_mult_acc_insn insn
  else if (op2 =? 0xb) || (op2 =? 0xd) || (op2 =? 0xf) then
    if Z.land op1 0x12 =? 0x2 then dis_extra_load_store_unprivilege_insn insn
    else dis_extra_load_store_insn insn
  else if Z.land op1 0x19 =? 0x10 then
    if negb (Z.land op2 0x8 =? 0) then dis_halfword_mult_and_mult_acc_insn pc insn else dis_misc_insn insn
  else
    if negb (Z.land op2 0x1 =? 0) then dis_data_processing_register_shifted_insn pc insn
    else dis_data_processing_register_insn pc insn.

(** ** Media *)

Definition dis_packing_A_unpacking_A_saturation_A_reversal (insn : Z) : gen bool :=
  let op1 := INSN insn 22 20 in
  let op2 := INSN insn 7 5 in
  let a := INSN insn 19 16 in
  match op1 with
  | 0 =>
      if Z.land op2 1 =? 0 then dis_pkh pc insn
      else if op2 =? 5 then dis_sel pc insn
      else if op2 =? 3 then if a =? 15 then dis_sxtb16 pc insn else dis_sxtab16 pc insn
      else illegal_opcode pc
  | 2 =>
      if (Z.land op2 1 =? 0) || (op2 =? 1) then dis_saturation pc insn
      else if op2 =? 3 then if a =? 15 then dis_sxtb pc insn else dis_sxtab pc insn
      else illegal_opcode pc
  | 3 =>
      if Z.land op2 1 =? 0 then dis_saturation pc insn
      else if op2 =? 1 then dis_rev pc insn
      else if op2 =? 3 then if a =? 15 then dis_sxth pc insn else dis_sxtah pc insn
      else if op2 =? 5 then dis_rev16 pc insn
      else mret false
  | 4 => if a =? 15 then dis_uxtb16 pc insn else dis_uxtab16 pc insn
  | 6 =>
      if (Z.land op2 1 =? 0) || (op2 =? 1) then dis_saturation pc insn
      else if op2 =? 3 then if a =? 15 then dis_uxtb pc insn else dis_uxtab pc insn
      else illegal_opcode pc
  | 7 =>
      if Z.land op2 1 =? 0 then dis_saturation pc insn
      else if op2 =? 1 then dis_rbit pc insn
      else if op2 =? 3 then if a =? 15 then dis_uxth pc insn else dis_uxtah pc insn
      else if op2 =? 5 then dis_revsh pc insn
      else illegal_opcode pc
  | _ => illegal_opcode pc
  end.

Definition dis_media_insn (insn : Z) : gen bool :=
  let op1 := INSN insn 24 20 in
  let op2 := INSN insn 7 5 in
  let rn := INSN insn 3 0 in
  if op1 <=? 3 then dis_signed_parallel pc insn
  else if op1 <=? 7 then dis_unsigned_parallel pc insn
  else if op1 <=? 15 then dis_packing_A_unpacking_A_saturation_A_reversal insn
  else if op1 <=? 23 then dis_signed_multiplies pc insn
  else match op1 with
       | 24 => dis_sum_absolute_difference pc insn
       | 26 | 27 => dis_sbfx pc insn
       | 28 | 29 => if rn =? 15 then dis_bfc pc insn else dis_bfi pc insn
       | 30 | 31 => if (op1 =? 31) && (op2 =? 7) then dis_gdb_breakpoint pc insn else dis_ubfx pc insn
       | _ => illegal_opcode pc
       end.

(** ** Loads, stores, branches, coprocessor *)

Definition dis_load_store_word_and_unsigned_byte (insn : Z) : gen bool :=
  if INSN1 insn 25 then dis_load_store_word_and_unsigned_byte_register_offset pc insn
  else dis_load_store_word_and_unsigned_byte_imm_offset pc insn.

Definition dis_branch_and_branch_with_link_and_block_data_transfert (insn : Z) : gen bool :=
  if INSN1 insn 25 then dis_bl pc insn else dis_ldm_stm pc insn.

Definition dis_system_call_and_coprocessor_insn (insn : Z) : gen bool :=
  let opt1 := INSN insn 25 20 in
  let op := INSN1 insn 4 in
  let coproc := INSN insn 11 8 in
  if Z.land opt1 0x30 =? 0x30 then
    if insn =? 0xef9f0001 then dis_gdb_breakpoint pc insn else dis_swi pc insn
  else if Z.land opt1 0x30 =? 0x20 then
    if Z.land coproc 0xe =? 0xa then
      if op then dis_common_transfert_arm_core_and_extension_registers_insn (read_reg pc) pc insn
      else dis_common_vfp_data_processing_insn pc insn
    else if op then
      if negb (Z.land opt1 1 =? 0) then dis_mrc pc insn else dis_mcr pc insn
    else illegal_opcode pc
  else if (opt1 =? 0) || (opt1 =? 1) then illegal_opcode pc
  else if Z.land opt1 0x3a =? 0 then
    if Z.land coproc 0xe =? 0xa then
      if coproc =? 10 then dis_common_vmov_two_arm_core_and_two_s_insn (read_reg pc) insn
      else dis_common_vmov_two_arm_core_and_d_insn (read_reg pc) pc insn
    else illegal_opcode pc
  else if Z.land coproc 0xe =? 0xa then dis_common_extension_register_load_store_insn false (read_reg pc) pc insn
  else illegal_opcode pc.

(** ** Unconditional instructions *)

Definition dis_misc_A_memory_hints_A_adv_simd_insn (insn : Z) : gen bool :=
  let op1 := INSN insn 26 20 in
  let op2 := INSN insn 7 4 in
  if op1 =? 0x57 then
    match op2 with
    | 4 => dis_dsb pc insn
    | 5 => dis_dmb pc insn
    | 6 => dis_isb pc insn
    | _ => illegal_opcode pc
    end
  else if Z.land op1 0x60 =? 0x20 then dis_common_adv_simd_data_preocessing_insn false pc insn
  else if Z.land op1 0x77 =? 0x55 then mret false
  else if Z.land op1 0x71 =? 0x40 then dis_common_adv_simd_element_or_structure_load_store_insn pc insn
  else illegal_opcode pc.

Definition dis_unconditional_insn (insn : Z) : gen bool :=
  let op1 := INSN insn 27 20 in
  if INSN1 insn 27 then
    if Z.land op1 0xe0 =? 0xa0 then dis_blx_imm pc insn else illegal_opcode pc
  else dis_misc_A_memory_hints_A_adv_simd_insn insn.

(** ** One instruction *)

(** The test of the condition: when it fails the block is left to the next
    instruction.  The predicate is that it fails. *)
Definition mk_condition (cond : Z) : gen unit :=
  p0 ← mk_32 cond; p1 ← read_cpsr;
  a ← mk_helper arm_hlp_compute_flags_pred;
  pred ← mk_call pc IR_REG_32 a [Some p0; Some p1; None; None];
  r ← mk_32 (pc + 4); write_reg 15 r;;
  x ← mk_64 (wrap 32 (pc + 4)); ir.add_exit_cond x pred.

Definition dis_conditional_insn (insn : Z) : gen bool :=
  match INSN insn 27 25 with
  | 0 | 1 => dis_data_processing_and_misc_insn insn
  | 2 => dis_load_store_word_and_unsigned_byte insn
  | 3 => if INSN1 insn 4 then dis_media_insn insn else dis_load_store_word_and_unsigned_byte insn
  | 4 | 5 => dis_branch_and_branch_with_link_and_block_data_transfert insn
  | _ => dis_system_call_and_coprocessor_insn insn
  end.

Definition disassemble_insn (insn : Z) : gen bool :=
  let cond := INSN insn 31 28 in
  (if cond <? 14 then mk_condition cond else mret tt);;
  if cond =? 15 then dis_unconditional_insn insn else dis_conditional_insn insn.
End decode.

(** * The ARM front end: blocks
      ([disassemble_arm] and [disassemble_arm_with_marker] of
      [src/src/target/arm/disassembler/arm_disassembler.c]) *)

#[local] Open Scope c_scope.

Section block.
Context `{ArmHost}.

(** ** The page of kernel helpers *)

(** The return to the address in [lr]. *)
Definition return_to_lr (pc : Z) : gen bool := newPc ← read_reg pc 14; branch_reg newPc.

Definition vdso_cmpxchg64 (pc : Z) : gen bool := mk_call0 pc arm_hlp_vdso_cmpxchg64;; return_to_lr pc.
Definition vdso_cmpxchg (pc : Z) : gen bool := mk_call0 pc arm_hlp_vdso_cmpxchg;; return_to_lr pc.
Definition vdso_memory_barrier (pc : Z) : gen bool := return_to_lr pc.
Definition vdso_get_tls (pc : Z) : gen bool :=
  r ← ir.add_read_context IR_REG_32 off_c13_tls2; write_reg 0 r;; return_to_lr pc.

(** ** The loop *)

(** The host memory the code is read from, through [pc_ptr]. *)
Context (m : mem).

(** [g_2_h] and [h_2_g] of [src/src/target/target32.h]. *)
Definition g_2_h (p : Z) : Z := wrap 64 (p + mmap_offset).
Definition h_2_g (p : Z) : Z := wrap 32 (p - mmap_offset).

(** The instruction at [pc_ptr], and whether the pointer moves. *)
Definition disassemble_at (pc_ptr : Z) : gen bool * Z :=
  let pc := h_2_g pc_ptr in
  if pc =? 0xffff0f60 then (vdso_cmpxchg64 pc, pc_ptr)
  else if pc =? 0xffff0fc0 then (vdso_cmpxchg pc, pc_ptr)
  else if pc =? 0xffff0fa0 then (vdso_memory_barrier pc, pc_ptr)
  else if pc =? 0xffff0fe0 then (vdso_get_tls pc, pc_ptr)
  else (disassemble_insn pc (load_mem IR_REG_32 m pc_ptr), wrap 64 (pc_ptr + 4)).

(** The last requests of a block that has no exit. *)
Definition exit_to (pc : Z) : gen bool := branch_const (pc + 4).

(** The loop of both functions, [n] turns before its end, at its [i]th; [marker]
    is a request of its own before each instruction. *)
Fixpoint disassemble_loop (marker : bool) (n : nat) (i pc_ptr : Z) : gen unit :=
  match n with
  | O => fail_state
  | S n =>
      (if marker then request (CallMarker (4 * i)) else mret tt);;
      isExit ← put_insn (disassemble_at pc_ptr).1;
      if isExit : bool then mret tt
      else match n with
           | O => put_insn (exit_to (h_2_g pc_ptr));; mret tt
           | _ => disassemble_loop marker n (i + 1) (disassemble_at pc_ptr).2
           end
  end.

(** [None] when an assertion fails, or when there is no turn: the last exit is
    then taken from [context->pc] as another block left it. *)
Definition disassemble_block (marker : bool) (pc maxInsn : Z) : option (list irCall * bool) :=
  if (Z.land pc 3 =? 0) && (0 <? maxInsn) then
    '(_, s) ← disassemble_loop marker (Z.to_nat maxInsn) 0 (g_2_h pc) (mkGen false []);
    Some (requests s, front s)
  else None.

Definition disassemble_arm : Z -> Z -> option (list irCall * bool) := disassemble_block false.
Definition disassemble_arm_with_marker : Z -> Z -> option (list irCall * bool) := disassemble_block true.
End block.
