(* ===== verification/Arm32Typed.v ===== *)
(** * ARM: every block is a session the builder accepts

    Whatever the instruction, what [disassemble_insn] requests passes the
    builder's assertions, and takes a bounded room: so any block does, and the
    only way a guest stops the builder is to fill its pools. *)

From S2P Require Import Prelude Ir Jitter BeX86 BeGen Main IrRequests FrontGen FrontTyped Arm32Gen Arm32Dis Arm32DisMisc Arm32Vfp Arm32Decode.

#[local] Open Scope c_scope.

(** ** Shortcuts *)

Section shortcuts.
Context `{ArmHost} {S : Type} (pc : Z).
Abbreviation gives := (gives (S := S)).

Lemma arm_gives_op_32 k a b Γ :
  reg IR_REG_32 a Γ -> reg (op2_type k IR_REG_32) b Γ -> gives (reg IR_REG_32) 1 (op_32 k a b) Γ.
Proof. intros. by apply gives_binop. Qed.

Lemma arm_gives_read_reg i Γ : gives (reg IR_REG_32) 1 (read_reg pc i) Γ.
Proof. gives. Qed.

Lemma arm_gives_call w t a ps Γ : reg t a Γ -> params_known Γ ps -> gives (reg w) 5 (mk_call pc w a ps) Γ.
Proof. gives. Qed.

Lemma arm_gives_call_void t a ps Γ : reg t a Γ -> params_known Γ ps -> gives any 5 (mk_call_void pc a ps) Γ.
Proof. gives. Qed.
End shortcuts.
#[export] Hint Resolve arm_gives_op_32 arm_gives_read_reg arm_gives_call arm_gives_call_void : gives.

(** ** Sequences of both disassemblers *)

Section shared.
Context `{ArmHost} {S : Type} (pc : Z).
Abbreviation gives := (gives (S := S)).

Lemma arm_gives_multiple_address start offset Γ :
  reg IR_REG_32 start Γ -> gives some_reg 5 (multiple_address start offset) Γ.
Proof. gives. Qed.
#[local] Hint Resolve arm_gives_multiple_address : gives.

(** The accesses of a list of registers. *)
Lemma arm_gives_load_multiple l start offset Γ :
  reg IR_REG_32 start Γ -> gives any (7 * length l) (load_multiple l start offset) Γ.
Proof.
  revert offset Γ. induction l as [|i l IH]; intros offset Γ Hs; [by apply gives_ret|].
  cbn [load_multiple length]. gives.
Qed.

Lemma arm_length_in_reglist reglist n : (length (in_reglist reglist n) <= n)%nat.
Proof. unfold in_reglist. etrans; [apply length_filter|]. by rewrite length_fmap, length_seq. Qed.

Lemma arm_gives_load_reglist reglist start offset Γ :
  reg IR_REG_32 start Γ -> gives any 105 (load_multiple (in_reglist reglist 15) start offset) Γ.
Proof.
  intros. eapply gives_mono; [by apply arm_gives_load_multiple|done|]. pose proof (arm_length_in_reglist reglist 15). lia.
Qed.
End shared.
#[export] Hint Resolve arm_gives_multiple_address arm_gives_load_reglist : gives.

(** ** Instructions *)

Section dis.
Context `{ArmHost} (pc insn : Z).

Lemma arm_gives_clean_caches Γ : gives any 0 clean_caches Γ.
Proof. by apply gives_modify. Qed.

Lemma arm_gives_mk_data_processing op2 Γ :
  reg IR_REG_32 op2 Γ -> gives any 30 (mk_data_processing pc insn op2) Γ.
Proof. gives. Qed.

Lemma arm_gives_shifted_index mode imm rm g Γ :
  shifted_index pc mode imm rm = Some g -> gives (reg IR_REG_32) 3 g Γ.
Proof. unfold shifted_index. repeat case_match; intros; simplify_eq; gives. Qed.

#[local] Hint Resolve arm_gives_clean_caches arm_gives_mk_data_processing arm_gives_shifted_index : gives.

(** The accesses of a list of registers. *)
Lemma arm_gives_store_multiple l start offset Γ :
  reg IR_REG_32 start Γ -> gives any (7 * length l) (store_multiple pc l start offset) Γ.
Proof.
  revert offset Γ. induction l as [|i l IH]; intros offset Γ Hs; [by apply gives_ret|].
  cbn [store_multiple length]. gives.
Qed.

Lemma arm_gives_store_reglist reglist start offset Γ :
  reg IR_REG_32 start Γ -> gives any 112 (store_multiple pc (in_reglist reglist 16) start offset) Γ.
Proof.
  intros. eapply gives_mono; [by apply arm_gives_store_multiple|done|]. pose proof (arm_length_in_reglist reglist 16). lia.
Qed.
#[local] Hint Resolve arm_gives_store_reglist : gives.

(** ** Groups of instructions *)

Lemma arm_gives_dis_ldm_stm Γ : gives any 121 (dis_ldm_stm pc insn) Γ.
Proof. gives. Qed.
#[local] Hint Resolve arm_gives_dis_ldm_stm : gives.

Lemma arm_gives_dis_data_processing_and_misc_insn Γ : gives any 60 (dis_data_processing_and_misc_insn pc insn) Γ.
Proof. gives. Qed.

Lemma arm_gives_dis_load_store_word_and_unsigned_byte Γ :
  gives any 60 (dis_load_store_word_and_unsigned_byte pc insn) Γ.
Proof. gives. Qed.

Lemma arm_gives_dis_media_insn Γ : gives any 60 (dis_media_insn pc insn) Γ.
Proof. gives. Qed.

Lemma arm_gives_dis_system_call_and_coprocessor_insn Γ :
  gives any 60 (dis_system_call_and_coprocessor_insn pc insn) Γ.
Proof. gives. Qed.

Lemma arm_gives_dis_unconditional_insn Γ : gives any 60 (dis_unconditional_insn pc insn) Γ.
Proof. gives. Qed.

Lemma arm_gives_mk_condition cond Γ : gives any 12 (mk_condition pc cond) Γ.
Proof. gives. Qed.
#[local] Hint Resolve arm_gives_dis_data_processing_and_misc_insn arm_gives_dis_load_store_word_and_unsigned_byte
  arm_gives_dis_media_insn arm_gives_dis_system_call_and_coprocessor_insn arm_gives_dis_unconditional_insn
  arm_gives_mk_condition : gives.

Lemma arm_gives_dis_conditional_insn Γ : gives any 121 (dis_conditional_insn pc insn) Γ.
Proof. gives. Qed.
#[local] Hint Resolve arm_gives_dis_conditional_insn : gives.

Lemma arm_gives_disassemble_insn Γ : gives any 133 (disassemble_insn pc insn) Γ.
Proof. gives. Qed.
End dis.
#[export] Hint Resolve arm_gives_disassemble_insn : gives.

(** ** Blocks *)

Section block.
Context `{ArmHost} (m : mem).

Lemma arm_gives_return_to_lr pc Γ : gives any 4 (return_to_lr pc) Γ.
Proof. gives. Qed.
#[local] Hint Resolve arm_gives_return_to_lr : gives.

Lemma arm_gives_disassemble_at p Γ : gives any 133 (disassemble_at m p).1 Γ.
Proof. unfold disassemble_at. repeat case_match; cbn [fst]; gives. Qed.

Lemma arm_gives_exit_to pc Γ : gives any 4 (exit_to pc) Γ.
Proof. gives. Qed.
#[local] Hint Resolve arm_gives_disassemble_at arm_gives_exit_to : gives.

Lemma arm_gives_disassemble_loop marker n i p Γ :
  gives any (134 * S n + 4) (disassemble_loop m marker (S n) i p) Γ.
Proof.
  revert i p Γ. induction n as [|n IH]; intros i p Γ; [cbn [disassemble_loop]; gives|].
  remember (S n) as n' eqn:E. pose proof IH as IH'. rewrite E in IH'. cbn [disassemble_loop]. gives.
Qed.
End block.

(** C10. Whatever the guest's memory holds, a block of ARM code is translated,
    and the builder takes the whole session: none of its assertions on operands
    fails, and the block it builds is well formed, provided its pools have the
    room for 134 objects an instruction and 4 for the last exit. *)
Theorem arm_blocks_accepted `{ArmHost} m marker pc maxInsn j :
  Z.land pc 3 = 0 -> 0 < maxInsn -> room_for (134 * maxInsn + 4) j ->
  exists cs st j', disassemble_block m marker pc maxInsn = Some (cs, st) /\
    session_valid cs (resetJitter j) = true /\
    irAlloc_session cs (resetJitter j) = Some (tt, j') /\ builder_wf j'.
Proof.
  intros Hpc Hn Hroom. unfold disassemble_block. rewrite Hpc, (proj2 (Z.ltb_lt 0 maxInsn) Hn).
  destruct (Z.to_nat maxInsn) as [|n] eqn:En; [lia|].
  destruct (gives_accepted (disassemble_loop m marker (S n) 0 (g_2_h pc)) (134 * S n + 4) false j)
    as (a & s & j' & E & Hv & Hs & Hwf).
  - apply arm_gives_disassemble_loop.
  - replace (Z.of_nat (134 * S n + 4)) with (134 * maxInsn + 4) by lia. exact Hroom.
  - cbn [Z.eqb andb]. rewrite E. cbn. eauto 10.
Qed.

(** ** Blocks that fill the pools *)

(** The offset is that of [arm_mmap.c]. *)
#[local] Instance demo_host : ArmHost := {|
  arm_helper_address _ := 0x70000000;
  mmap_offset := 2 ^ 20
|}.

(** What the builder of a profile does with the block at [pc]. *)
Definition build (p : memory_profile) (m : mem) (pc : Z) : option jitter :=
  '(cs, _) ← disassemble_arm m pc (max_insn (cache_memory_config p));
  j ← createJitter (jitter_context_size (cache_memory_config p));
  '(_, j) ← irAlloc_session cs j; Some j.

(** [ldmia r0!, {r1-r14}] is an instruction any guest may have; a block of them
    stops the builder, with each of the memory profiles. *)
Theorem ldm_fills_pools p : build p (filled 0xe8b07ffe) 0x8000 = None.
Proof. destruct p; vm_compute; reflexivity. Qed.

(** The code of such a block, with [KB] zeroes for [jitBuffer] and as many after
    it: its size, and whether the memory after the 16 KB of the buffer changed. *)
Definition compiled_size (p : memory_profile) (m : mem) (pc : Z) : option (Z * bool) :=
  j ← build p m pc;
  '(n, mem, _) ← jit_code (jitCode_irArray j)
    (with_ir (fun _ => regs j) (createBackend (be_context_size (cache_memory_config p))))
    (replicate (Z.to_nat (32 * KB)) 0);
  Some (n, negb (forallb (Z.eqb 0) (drop (Z.to_nat (16 * KB)) mem))).

(** Forty times [adcseq r1, r1, r2], the longest block of the largest profile,
    fits the pools, and its code does not fit the 16 KB of [jitBuffer] in
    [loop_common]: [jit] writes after the end of the buffer, and its assertion
    fails. *)
Theorem adcs_overruns_buffer :
  compiled_size MEM_PROFILE_16M (filled 0x00b11002) 0x8000 = Some (20857, true) /\
  (j ← build MEM_PROFILE_16M (filled 0x00b11002) 0x8000;
   jitCode j (createBackend (256 * KB)) (replicate (Z.to_nat (32 * KB)) 0) (16 * KB)) = None.
Proof. split; vm_compute; reflexivity. Qed.

(** With pools of a megabyte it is accepted. *)
Lemma arm_blocks_accepted_witness :
  Z.land 0x8000 3 = 0 /\ room_for (134 * 40 + 4) roomy /\
  exists cs st j', disassemble_block (filled 0xe8b07ffe) false 0x8000 40 = Some (cs, st) /\
    session_valid cs (resetJitter roomy) = true /\ irAlloc_session cs (resetJitter roomy) = Some (tt, j') /\
    builder_wf j'.
Proof.
  assert (Hroom : room_for (134 * 40 + 4) roomy) by (vm_compute; split; discriminate).
  split; [reflexivity|]. split; [exact Hroom|].
  exact (arm_blocks_accepted (filled 0xe8b07ffe) false 0x8000 40 roomy eq_refl eq_refl Hroom).
Defined.
