(* ===== verification/ThumbGen.v ===== *)
(** * The Thumb front end: state and sequence shortcuts
      ([src/src/target/arm/disassembler/thumb_disassembler.c])

    The shortcuts that the file shares with the ARM disassembler are those of
    [Arm32Gen]; what differs is here.  The front end tracks the IT block itself,
    so the requests of an instruction depend on [disa_itstate]. *)

From S2P Require Import Prelude Ir Jitter FrontGen Arm32Gen.

#[local] Open Scope c_scope.

(** ** State *)

(** [disa_itstate] of [struct arm_target], and whether the translation itself
    called [cleanCaches(0, ~0)]. *)
Record thumb_front := mkThumb {
  disa_itstate : Z;
  cleaned : bool
}.

Abbreviation gen := (genM thumb_front).

Definition front_state : gen thumb_front := fun s => Some (front s, s).
Definition set_itstate (it : Z) : gen unit :=
  modify_state (fun s => mkGen (mkThumb it (cleaned (front s))) (requests s)).
Definition clean_caches : gen unit :=
  modify_state (fun s => mkGen (mkThumb (disa_itstate (front s)) true) (requests s)).

(** ** IT blocks *)

Definition in_it (itstate : Z) : bool := negb (Z.land itstate 0xf =? 0).
Definition next_it (itstate : Z) : Z :=
  if Z.land itstate 0x7 =? 0 then 0
  else Z.lor (Z.land itstate 0xe0) (Z.land (Z.shiftl itstate 1) 0x1f).

Definition inItBlock : gen bool := s ← front_state; mret (in_it (disa_itstate s)).
Definition nextItState : gen Z := s ← front_state; mret (next_it (disa_itstate s)).
Definition itAdvance : gen unit := n ← nextItState; set_itstate n.

(** ** Fields and immediates *)

(** [INSN1(msb, lsb)]: a field of the first halfword of a 32-bit instruction;
    [INSN2(msb, lsb)] is [INSN], of the second. *)
Definition HW1 (insn msb lsb : Z) : Z := INSN insn (msb + 16) (lsb + 16).
Definition HW1b (insn bit : Z) : bool := INSN1 insn (bit + 16).

Definition ThumbExpandimm_C_imm32 (imm12 : Z) : Z :=
  if negb (Z.land imm12 0xc00 =? 0) then
    let unrotated_value := 0x80 + Z.land imm12 0x7f in
    let shift := Z.land (Z.shiftr imm12 7) 0x1f in
    wrap 32 (shr_32 unrotated_value shift + shl_32 unrotated_value (32 - shift))
  else
    let imm8 := Z.land imm12 0xff in
    match Z.land (Z.shiftr imm12 8) 3 with
    | 0 => imm8
    | 1 => wrap 32 (Z.shiftl imm8 16 + imm8)
    | 2 => wrap 32 (Z.shiftl imm8 24 + Z.shiftl imm8 8)
    | _ => wrap 32 (Z.shiftl imm8 24 + Z.shiftl imm8 16 + Z.shiftl imm8 8 + imm8)
    end.

Section shortcuts.
Context `{ArmHost}.
(** [context->pc]: odd, of 32 bits *)
Context (pc : Z).

(** ** Registers *)

Definition read_reg (index : Z) : gen nat :=
  if index =? 15 then mk_32 (Z.land (pc + 4) (Z.lnot 1)) else ir.add_read_context IR_REG_32 (off_r index).

Definition write_itstate (value : nat) : gen unit := ir.add_write_context IR_REG_32 value off_reg_itstate.

(** [(context->pc + 4) & ~3], the base of a literal. *)
Definition aligned_pc : Z := Z.land (pc + 4) (Z.lnot 3).

(** The address of an access: the value of a register, plus an offset. *)
Definition address_register_offset (index offset : Z) : gen nat :=
  if index =? 15 then mk_32 (pc + 8 + offset)
  else if 0 <? offset then r ← read_reg index; o ← mk_32 offset; op_32 ADD r o
  else if offset <? 0 then r ← read_reg index; o ← mk_32 (- offset); op_32 SUB r o
  else read_reg index.

(** [rn + imm32], and [rn - imm32]. *)
Definition reg_plus (rn imm32 : Z) : gen nat := r ← read_reg rn; i ← mk_32 imm32; op_32 ADD r i.
Definition reg_minus (rn imm32 : Z) : gen nat := r ← read_reg rn; i ← mk_32 imm32; op_32 SUB r i.

(** [rn + rm], and [rn + (rm << shift_imm)]. *)
Definition reg_plus_reg (rn rm : Z) : gen nat := a ← read_reg rn; b ← read_reg rm; op_32 ADD a b.
Definition reg_plus_shifted (rn rm shift_imm : Z) : gen nat :=
  a ← read_reg rn; b ← read_reg rm; k ← mk_8 shift_imm; s ← op_32 SHL b k; op_32 ADD a s.

(** ** Flags *)

(** The carry out of the shifter, for an encoding of 32 bits. *)
Definition mk_sco_t2 (insn rm shift_op : nat) : gen nat :=
  cpsr ← read_cpsr; a ← mk_helper thumb_t2_hlp_compute_sco;
  mk_call pc IR_REG_32 a [Some insn; Some rm; Some shift_op; Some cpsr].

(** [params[0]]: the opcode and the carry out of the shifter. *)
Definition opcode_and_sco (opcode : Z) : gen nat := o ← mk_32 opcode; sco ← read_sco; op_32 OR o sco.

(** [nextCpsr], by each of the helpers. *)
Definition flags_from (h : arm_helper) (p0 op1 op2 : nat) : gen nat :=
  cpsr ← read_cpsr; a ← mk_helper h; mk_call pc IR_REG_32 a [Some p0; Some op1; Some op2; Some cpsr].
Definition next_flags (opcode : Z) (op1 op2 : gen nat) : gen nat :=
  p0 ← opcode_and_sco opcode; a ← op1; b ← op2; flags_from thumb_hlp_compute_next_flags p0 a b.

(** [body], and the flags computed before it and written after it when [s]. *)
Definition with_flags {A} (s : bool) (flags : gen nat) (body : gen A) : gen A :=
  nextCpsr ← (if s then f ← flags; mret (Some f) else mret None);
  r ← body;
  match nextCpsr with Some f => write_cpsr f | None => mret tt end;;
  mret r.

(** ** Data processing of 32 bits with a modified operand *)

(** [op1], [None] where its value has no use. *)
Definition modified_op1 (opcode rd rn : Z) (s : bool) : gen (option nat) :=
  if ((opcode =? 2) || (opcode =? 3)) && (rn =? 15) then mret None
  else if s then r ← read_reg rn; mret (Some r)
  else if ((opcode =? 4) || (opcode =? 8) || (opcode =? 13)) && (rd =? 15) then mret None
  else r ← read_reg rn; mret (Some r).

(** What the opcode comes to: a value for [rd], flags only, or an instruction
    that is not one. *)
Inductive dp_result := Value (r : nat) | FlagsOnly | Illegal.

Definition value (g : gen nat) : gen dp_result := r ← g; mret (Value r).

(** [rd == 15] makes a comparison, which needs [s]. *)
Definition or_compare (rd : Z) (s : bool) (g : gen nat) : gen dp_result :=
  if rd =? 15 then mret (if s then FlagsOnly else Illegal) else value g.

(** A binary operation on [op1]: a null pointer stops the builder. *)
Definition on_op1 (op1 : option nat) (f : nat -> gen nat) : gen nat :=
  match op1 with Some a => f a | None => fail_state end.

Definition modified_result (opcode rd : Z) (s : bool) (op1 : option nat) (op2 : nat) (rn15 : bool) : gen dp_result :=
  match opcode with
  | 0 => if rd =? 15 then mret FlagsOnly else value (on_op1 op1 (fun a => op_32 AND a op2))
  | 1 => value (on_op1 op1 (fun a => n ← not_32 op2; op_32 AND a n))
  | 2 => if rn15 then mret (Value op2) else value (on_op1 op1 (fun a => op_32 OR a op2))
  | 3 => if rn15 then value (not_32 op2) else value (on_op1 op1 (fun a => n ← not_32 op2; op_32 OR a n))
  | 4 => or_compare rd s (on_op1 op1 (fun a => op_32 XOR a op2))
  | 8 => or_compare rd s (on_op1 op1 (fun a => op_32 ADD a op2))
  | 10 => value (c ← read_carry; on_op1 op1 (fun a => t ← op_32 ADD op2 c; op_32 ADD a t))
  | 11 => value (c ← read_carry; on_op1 op1 (fun a => n ← not_32 op2; t ← op_32 ADD n c; op_32 ADD a t))
  | 13 => or_compare rd s (on_op1 op1 (fun a => op_32 SUB a op2))
  | 14 => value (on_op1 op1 (fun a => op_32 SUB op2 a))
  | _ => mret Illegal
  end.

Definition modified_flags (opcode : Z) (op1 : option nat) (op2 : nat) (rn15 : bool) : gen nat :=
  p0 ← opcode_and_sco opcode;
  p1 ← (if ((opcode =? 2) || (opcode =? 3)) && rn15 then r ← mk_32 0; mret (Some r) else mret op1);
  cpsr ← read_cpsr;
  a ← mk_helper thumb_hlp_t2_modified_compute_next_flags;
  mk_call pc IR_REG_32 a [Some p0; p1; Some op2; Some cpsr].

Definition mk_data_processing_modified (insn : Z) (op2 : nat) : gen bool :=
  let opcode := HW1 insn 8 5 in
  let rd := INSN insn 11 8 in
  let rn := HW1 insn 3 0 in
  let s := HW1b insn 4 in
  op1 ← modified_op1 opcode rd rn s;
  nextCpsr ← (if s then f ← modified_flags opcode op1 op2 (rn =? 15); mret (Some f) else mret None);
  result ← modified_result opcode rd s op1 op2 (rn =? 15);
  match result with
  | Illegal => illegal_opcode pc
  | Value r =>
      assert_legal pc (negb (rd =? 15))
        (write_reg rd r;;
         match nextCpsr with Some f => write_cpsr f | None => mret tt end;;
         mret false)
  | FlagsOnly =>
      match nextCpsr with Some f => write_cpsr f | None => mret tt end;;
      mret false
  end.

(** ** Accesses *)

(** A store of a register, of its low bits when [t] says. *)
Definition store_word (rt : Z) (address : gen nat) : gen unit :=
  v ← read_reg rt; a ← address; a ← mk_address a; ir.add_store IR_REG_32 v a.
Definition store_cast (width : irRegisterType) (t : irCastType) (rt : Z) (address : gen nat) : gen unit :=
  r ← read_reg rt; v ← ir.add_cast t r; a ← address; a ← mk_address a; ir.add_store width v a.

(** The store of each size. *)
Definition store_sized (size : Z) (v address : nat) : gen unit :=
  match size with
  | 0 => b ← ir.add_cast IR_CAST_32_TO_8 v; a ← mk_address address; ir.add_store IR_REG_8 b a
  | 1 => h ← ir.add_cast IR_CAST_32_TO_16 v; a ← mk_address address; ir.add_store IR_REG_16 h a
  | _ => a ← mk_address address; ir.add_store IR_REG_32 v a
  end.

Definition mk_load_store_byte_immediate (l : bool) (rt rn imm32 : Z) : gen bool :=
  address ← reg_plus rn imm32;
  (if l then load_cast IR_REG_8 IR_CAST_8U_TO_32 rt address
   else store_cast IR_REG_8 IR_CAST_32_TO_8 rt (mret address));;
  mret false.

Definition mk_load_store_halfword_immediate (l : bool) (rt rn imm32 : Z) : gen bool :=
  address ← reg_plus rn imm32;
  (if l then load_cast IR_REG_16 IR_CAST_16U_TO_32 rt address
   else store_cast IR_REG_16 IR_CAST_32_TO_16 rt (mret address));;
  mret false.

Definition mk_load_store_word_immediate (l : bool) (rt rn imm32 : Z) : gen bool :=
  address ← reg_plus rn imm32;
  (if l then load_word rt address else store_word rt (mret address));;
  mret false.

(** ** Arithmetic of 16 bits, branches and helpers *)

Definition f_opcode (insn : Z) : Z := INSN insn 13 9.

Definition mk_t1_add_sub_immediate (insn : Z) (isAdd : bool) (rd rn imm32 : Z) : gen bool :=
  inIt ← inItBlock;
  with_flags (negb inIt) (next_flags (f_opcode insn) (read_reg rn) (mk_32 imm32))
    (r ← (if isAdd then reg_plus rn imm32 else reg_minus rn imm32); write_reg rd r);;
  mret false.

(** The early exit to [next] where [arm_hlp_compute_flags_pred] says so. *)
Definition exit_unless (cond next : Z) (before : gen unit) : gen unit :=
  p0 ← mk_32 cond; p1 ← read_cpsr; a ← mk_helper arm_hlp_compute_flags_pred;
  pred ← mk_call pc IR_REG_32 a [Some p0; Some p1; None; None];
  before;;
  r ← mk_32 next; write_reg 15 r;;
  x ← mk_64 (wrap 32 next); ir.add_exit_cond x pred.

(** The helpers that decode the instruction, with a 32-bit result without use. *)
Definition mk_dirty_32 (h : arm_helper) (insn : Z) : gen bool :=
  p0 ← mk_32 insn; a ← mk_helper h;
  _ ← mk_call pc IR_REG_32 a [Some p0; None; None; None]; mret false.
End shortcuts.
