(* ===== verification/ThumbDis16.v ===== *)
(** * The Thumb front end: instructions of 16 bits
      ([src/src/target/arm/disassembler/thumb_disassembler.c])

    One definition per [dis_t1_*] function, in the order of the file.  The
    result is [isExit]: whether the block ends here. *)

From S2P Require Import Prelude Ir Jitter FrontGen Arm32Gen ThumbGen.

#[local] Open Scope c_scope.

(** The fields of the low registers. *)
Definition t1_rd (insn : Z) : Z := INSN insn 2 0.
Definition t1_rn (insn : Z) : Z := INSN insn 5 3.
Definition t1_rm (insn : Z) : Z := INSN insn 8 6.

Section dis.
Context `{ArmHost}.
(** [context->pc] *)
Context (pc : Z).

(** ** Stack *)

(** The stores of a list of registers, one after the other. *)
Fixpoint store_multiple (regs : list Z) (start_address : nat) (offset : Z) : gen Z :=
  match regs with
  | [] => mret offset
  | i :: regs =>
      v ← read_reg pc i;
      a ← multiple_address start_address offset; ir.add_store IR_REG_32 v a;;
      store_multiple regs start_address (offset + 4)
  end.

Definition dis_t1_push (insn : Z) : gen bool :=
  let reglist := INSN insn 7 0 + (if INSN1 insn 8 then 0x4000 else 0) in
  let bitNb := Z.of_nat (length (in_reglist reglist 16)) in
  start_address ← reg_minus pc 13 (4 * bitNb);
  _ ← store_multiple (in_reglist reglist 15) start_address 0;
  write_reg 13 start_address;; mret false.

Definition dis_t1_pop (insn : Z) : gen bool :=
  let reglist := INSN insn 7 0 in
  let p := INSN1 insn 8 in
  start_address ← read_reg pc 13;
  offset ← load_multiple (in_reglist reglist 8) start_address 0;
  '(newPc, offset) ←
    (if p then
       a ← multiple_address start_address offset; newPc ← ir.add_load IR_REG_32 a;
       write_reg 15 newPc;; mret (Some newPc, offset + 4)
     else mret (None, offset));
  o ← mk_32 offset; sp ← op_32 ADD start_address o; write_reg 13 sp;;
  match newPc with
  | Some newPc => exit_32 newPc;; mret true
  | None => mret false
  end.

Definition dis_t1_sp_relative_addr (insn : Z) : gen bool :=
  let rd := INSN insn 10 8 in
  let imm32 := Z.shiftl (INSN insn 7 0) 2 in
  r ← reg_plus pc 13 imm32; write_reg rd r;; mret false.

Definition dis_t1_sp_plus_immediate (insn : Z) : gen bool :=
  r ← reg_plus pc 13 (Z.shiftl (INSN insn 6 0) 2); write_reg 13 r;; mret false.
Definition dis_t1_sp_minus_immediate (insn : Z) : gen bool :=
  r ← reg_minus pc 13 (Z.shiftl (INSN insn 6 0) 2); write_reg 13 r;; mret false.

(** ** Extensions *)

Definition t1_extend (extend : nat -> gen nat) (insn : Z) : gen bool :=
  v ← read_reg pc (t1_rn insn); r ← extend v; write_reg (t1_rd insn) r;; mret false.

Definition dis_t1_sxth : Z -> gen bool := t1_extend (narrow_then IR_CAST_32_TO_16 IR_CAST_16S_TO_32).
Definition dis_t1_sxtb : Z -> gen bool := t1_extend (narrow_then IR_CAST_32_TO_8 IR_CAST_8S_TO_32).
Definition dis_t1_uxth : Z -> gen bool := t1_extend (mask_with 0xffff).
Definition dis_t1_uxtb : Z -> gen bool := t1_extend (mask_with 0xff).

(** ** Immediates *)

Definition dis_t1_mov_immediate (insn : Z) : gen bool :=
  let rd := INSN insn 10 8 in
  let imm32 := INSN insn 7 0 in
  inIt ← inItBlock;
  with_flags (negb inIt) (next_flags pc (f_opcode insn) (mk_32 0) (mk_32 imm32))
    (r ← mk_32 imm32; write_reg rd r);;
  mret false.

Definition dis_t1_cmp_immediate (insn : Z) : gen bool :=
  let rn := INSN insn 10 8 in
  let imm32 := INSN insn 7 0 in
  with_flags true (next_flags pc (f_opcode insn) (read_reg pc rn) (mk_32 imm32)) (mret tt);;
  mret false.

Definition dis_t1_add_3_bits_immediate (insn : Z) : gen bool :=
  mk_t1_add_sub_immediate pc insn true (t1_rd insn) (t1_rn insn) (INSN insn 8 6).
Definition dis_t1_sub_3_bits_immediate (insn : Z) : gen bool :=
  mk_t1_add_sub_immediate pc insn false (t1_rd insn) (t1_rn insn) (INSN insn 8 6).
Definition dis_t1_add_8_bits_immediate (insn : Z) : gen bool :=
  let rdn := INSN insn 10 8 in mk_t1_add_sub_immediate pc insn true rdn rdn (INSN insn 7 0).
Definition dis_t1_sub_8_bits_immediate (insn : Z) : gen bool :=
  let rdn := INSN insn 10 8 in mk_t1_add_sub_immediate pc insn false rdn rdn (INSN insn 7 0).

(** ** Shifts by an immediate *)

(** Outside an IT block, the carry out of the shifter is computed after the
    result, and the flags after that. *)
Definition t1_shift_immediate (k : binopKind) (mode : Z) (insn imm5 : Z) : gen bool :=
  inIt ← inItBlock;
  rm_reg ← read_reg pc (t1_rn insn);
  c ← mk_8 imm5; result ← op_32 k rm_reg c;
  (if inIt then mret tt
   else m ← mk_32 (Z.shiftl mode 5); i ← mk_32 imm5; sco ← mk_sco pc m rm_reg i; write_sco sco);;
  with_flags (negb inIt) (next_flags pc (f_opcode insn) (mret result) (mret result))
    (write_reg (t1_rd insn) result);;
  mret false.

Definition dis_t1_lsl_immediate (insn : Z) : gen bool := t1_shift_immediate SHL 0 insn (INSN insn 10 6).
Definition dis_t1_lsr_immediate (insn : Z) : gen bool :=
  let imm5 := INSN insn 10 6 in t1_shift_immediate SHR 1 insn (if imm5 =? 0 then imm5 + 32 else imm5).
Definition dis_t1_asr_immediate (insn : Z) : gen bool :=
  let imm5 := INSN insn 10 6 in t1_shift_immediate ASR 2 insn (if imm5 =? 0 then 31 else imm5).

(** ** Registers *)

Definition t1_three_registers (k : binopKind) (insn : Z) : gen bool :=
  let rn := t1_rn insn in
  let rm := t1_rm insn in
  inIt ← inItBlock;
  with_flags (negb inIt) (next_flags pc (f_opcode insn) (read_reg pc rn) (read_reg pc rm))
    (a ← read_reg pc rn; b ← read_reg pc rm; r ← op_32 k a b; write_reg (t1_rd insn) r);;
  mret false.

Definition dis_t1_add_register : Z -> gen bool := t1_three_registers ADD.
Definition dis_t1_sub_register : Z -> gen bool := t1_three_registers SUB.

Definition dis_t1_load_store_byte_immediate (insn : Z) : gen bool :=
  mk_load_store_byte_immediate pc (INSN1 insn 11) (t1_rd insn) (t1_rn insn) (INSN insn 10 6).
Definition dis_t1_load_store_halfword_immediate (insn : Z) : gen bool :=
  mk_load_store_halfword_immediate pc (INSN1 insn 11) (t1_rd insn) (t1_rn insn) (Z.shiftl (INSN insn 10 6) 1).
Definition dis_t1_load_store_word_immediate (insn : Z) : gen bool :=
  mk_load_store_word_immediate pc (INSN1 insn 11) (t1_rd insn) (t1_rn insn) (Z.shiftl (INSN insn 10 6) 2).
Definition dis_t1_load_store_word_immediate_sp_relative (insn : Z) : gen bool :=
  mk_load_store_word_immediate pc (INSN1 insn 11) (INSN insn 10 8) 13 (Z.shiftl (INSN insn 7 0) 2).

(** The four bits of a register, the top one apart. *)
Definition t1_rdn (insn : Z) : Z := Z.lor (Z.shiftl (INSN insn 7 7) 3) (INSN insn 2 0).

Definition dis_t1_add_register_t2 (insn : Z) : gen bool :=
  let rdn := t1_rdn insn in
  let rm := INSN insn 6 3 in
  assert_legal pc (negb (rdn =? 15)) $
  r ← reg_plus_reg pc rdn rm; write_reg rdn r;; mret false.

Definition dis_t1_cmp_register_t2 (insn : Z) : gen bool :=
  p0 ← mk_32 10; op1 ← read_reg pc (t1_rdn insn); op2 ← read_reg pc (INSN insn 6 3);
  nextCpsr ← flags_from pc thumb_hlp_compute_next_flags_data_processing p0 op1 op2;
  write_cpsr nextCpsr;; mret false.

Definition dis_t1_mov_high_low_registers (insn : Z) : gen bool :=
  let rd := t1_rdn insn in
  let rm := INSN insn 6 3 in
  if rd =? 15 then
    r ← read_reg pc rm; one ← mk_32 1; dst ← op_32 OR r one; branch_reg dst
  else r ← read_reg pc rm; write_reg rd r;; mret false.

(** ** Branches *)

Definition dis_t1_svc (insn : Z) : gen bool :=
  r ← mk_32 (pc + 2); write_reg 15 r;;
  mk_call0 pc arm_hlp_syscall;;
  branch_const (pc + 2).

Definition dis_t1_bx (insn : Z) : gen bool := dst ← read_reg pc (INSN insn 6 3); branch_reg dst.

Definition dis_t1_blx (insn : Z) : gen bool :=
  dst ← read_reg pc (INSN insn 6 3);
  r ← mk_32 (pc + 2); write_reg 14 r;;
  branch_reg dst.

(** A conditional branch leaves early where the condition is false. *)
Definition branch_if (cond next target : Z) : gen bool :=
  if cond <? 14 then exit_unless pc cond next (mret tt);; branch_const target else illegal_opcode pc.

Definition dis_t1_b_t1 (insn : Z) : gen bool :=
  let imm32 := sign_extend 8 (INSN insn 7 0) * 2 in
  branch_if (INSN insn 11 8) (pc + 2) (pc + 4 + imm32).

Definition dis_t1_b_t2 (insn : Z) : gen bool :=
  let imm32 := sign_extend 11 (INSN insn 10 0) * 2 in
  branch_const (pc + 4 + imm32).

(** [cbz] and [cbnz] leave to the next instruction where they do not branch. *)
Definition dis_t1_cbxz (insn : Z) : gen bool :=
  let op := INSN1 insn 11 in
  let rn := INSN insn 2 0 in
  let imm32 := Z.lor (Z.shiftl (INSN insn 9 9) 6) (Z.shiftl (INSN insn 7 3) 1) in
  r ← read_reg pc rn; z ← mk_32 0; pred ← op_32 (if op then CMPEQ else CMPNE) r z;
  n ← mk_32 (pc + 2); write_reg 15 n;;
  x ← mk_64 (wrap 32 (pc + 2)); ir.add_exit_cond x pred;;
  branch_const (pc + 4 + imm32).

(** ** IT and hints *)

Definition dis_t1_itt_A_hints (insn : Z) : gen bool :=
  if negb (INSN insn 3 0 =? 0) then
    let itstate := INSN insn 7 0 in
    set_itstate itstate;;
    r ← mk_32 itstate; write_itstate r;; mret false
  else mret false.

(** ** Bytes *)

(** [dis_rev], [dis_rev16], [dis_revsh]: 32-bit encodings have them too. *)
Definition dis_rev (rd rn : Z) : gen bool :=
  rn_reg ← read_reg pc rn;
  tmp ← swap_parts rn_reg 0x0000ffff 16;
  result ← swap_parts tmp 0x00ff00ff 8;
  write_reg rd result;; mret false.

Definition dis_rev16 (rd rn : Z) : gen bool :=
  rn_reg ← read_reg pc rn;
  result ← swap_parts rn_reg 0x00ff00ff 8;
  write_reg rd result;; mret false.

Definition dis_revsh (rd rn : Z) : gen bool :=
  rn_reg ← read_reg pc rn;
  m ← mk_32 0x000000ff; l ← op_32 AND rn_reg m; s ← mk_8 8; l ← op_32 SHL l s;
  m ← mk_32 0x0000ff00; h ← op_32 AND rn_reg m; s ← mk_8 8; h ← op_32 SHR h s;
  tmp ← op_32 OR l h;
  result ← narrow_then IR_CAST_32_TO_16 IR_CAST_16S_TO_32 tmp;
  write_reg rd result;; mret false.

Definition dis_t1_rev (insn : Z) : gen bool := dis_rev (INSN insn 2 0) (INSN insn 5 3).
Definition dis_t1_rev16 (insn : Z) : gen bool := dis_rev16 (INSN insn 2 0) (INSN insn 5 3).
Definition dis_t1_revsh (insn : Z) : gen bool := dis_revsh (INSN insn 2 0) (INSN insn 5 3).

(** ** Transfers of several registers *)

Definition dis_t1_load_literal (insn : Z) : gen bool :=
  let rt := INSN insn 10 8 in
  a ← mk_32 (aligned_pc pc + Z.shiftl (INSN insn 7 0) 2); load_word rt a;; mret false.

Definition dis_t1_stmia (insn : Z) : gen bool :=
  let rn := INSN insn 10 8 in
  start_address ← read_reg pc rn;
  offset ← store_multiple (in_reglist (INSN insn 7 0) 8) start_address 0;
  o ← mk_32 offset; r ← op_32 ADD start_address o; write_reg rn r;; mret false.

Definition dis_t1_ldmia (insn : Z) : gen bool :=
  let rn := INSN insn 10 8 in
  let reglist := INSN insn 7 0 in
  let w := Z.land (Z.shiftr reglist rn) 1 =? 0 in
  start_address ← read_reg pc rn;
  offset ← load_multiple (in_reglist reglist 8) start_address 0;
  (if w then o ← mk_32 offset; r ← op_32 ADD start_address o; write_reg rn r else mret tt);;
  mret false.

(** ** Data processing *)

(** [None] for a comparison. *)
Definition t1_result (opcode : Z) (op1 op2 : nat) : gen (option nat) :=
  match opcode with
  | 0 => r ← op_32 AND op1 op2; mret (Some r)
  | 1 => r ← op_32 XOR op1 op2; mret (Some r)
  | 2 => r ← shift_by_reg SHL op1 op2 (mk_32 0); mret (Some r)
  | 3 => r ← shift_by_reg SHR op1 op2 (mk_32 0); mret (Some r)
  | 4 => r ← shift_by_reg ASR op1 op2 (k ← mk_8 31; op_32 ASR op1 k); mret (Some r)
  | 5 => c ← read_carry; t ← op_32 ADD op2 c; r ← op_32 ADD op1 t; mret (Some r)
  | 6 => c ← read_carry; n ← not_32 op2; t ← op_32 ADD n c; r ← op_32 ADD op1 t; mret (Some r)
  | 7 => r ← mk_ror_reg_32 op1 op2; mret (Some r)
  | 9 => z ← mk_32 0; r ← op_32 SUB z op2; mret (Some r)
  | 8 | 10 | 11 => mret None
  | 12 => r ← op_32 OR op1 op2; mret (Some r)
  | 13 => r ← mk_mul_u_lsb pc op1 op2; mret (Some r)
  | 14 => n ← not_32 op2; r ← op_32 AND op1 n; mret (Some r)
  | _ => r ← not_32 op2; mret (Some r)
  end.

Definition dis_t1_data_processing (insn : Z) : gen bool :=
  let rdn := INSN insn 2 0 in
  let rm := INSN insn 5 3 in
  let opcode := INSN insn 9 6 in
  inIt ← inItBlock;
  let s := negb inIt || (opcode =? 8) || (opcode =? 10) || (opcode =? 11) in
  op1 ← read_reg pc rdn;
  op2 ← read_reg pc rm;
  with_flags s (p0 ← mk_32 opcode; flags_from pc thumb_hlp_compute_next_flags_data_processing p0 op1 op2)
    (result ← t1_result opcode op1 op2;
     match result with Some r => write_reg rdn r | None => mret tt end);;
  mret false.

(** ** Accesses at the sum of two registers *)

Definition t1_address (insn : Z) : gen nat := reg_plus_reg pc (t1_rn insn) (t1_rm insn).
Definition t1_load_cast (width : irRegisterType) (t : irCastType) (insn : Z) : gen bool :=
  a ← t1_address insn; load_cast width t (t1_rd insn) a;; mret false.

Definition dis_t1_str_register (insn : Z) : gen bool := store_word pc (t1_rd insn) (t1_address insn);; mret false.
Definition dis_t1_strh_register (insn : Z) : gen bool :=
  store_cast pc IR_REG_16 IR_CAST_32_TO_16 (t1_rd insn) (t1_address insn);; mret false.
Definition dis_t1_strb_register (insn : Z) : gen bool :=
  store_cast pc IR_REG_8 IR_CAST_32_TO_8 (t1_rd insn) (t1_address insn);; mret false.
Definition dis_t1_ldr_register (insn : Z) : gen bool :=
  a ← t1_address insn; load_word (t1_rd insn) a;; mret false.
Definition dis_t1_ldrsb_register : Z -> gen bool := t1_load_cast IR_REG_8 IR_CAST_8S_TO_32.
Definition dis_t1_ldrh_register : Z -> gen bool := t1_load_cast IR_REG_16 IR_CAST_16U_TO_32.
Definition dis_t1_ldrb_register : Z -> gen bool := t1_load_cast IR_REG_8 IR_CAST_8U_TO_32.
Definition dis_t1_ldrsh_register : Z -> gen bool := t1_load_cast IR_REG_16 IR_CAST_16S_TO_32.

(** ** Other *)

Definition dis_t1_adr (insn : Z) : gen bool :=
  let rd := INSN insn 10 8 in
  r ← mk_32 (aligned_pc pc + Z.shiftl (INSN insn 7 0) 2); write_reg rd r;; mret false.

Definition dis_t1_dmb (insn : Z) : gen bool := mk_call0 pc arm_hlp_memory_barrier;; mret false.

Definition dis_gdb_breakpoint (insn : Z) : gen bool :=
  r ← mk_32 pc; write_reg 15 r;;
  mk_gdb_breakpoint_instruction pc;;
  clean_caches;;
  x ← mk_64 pc; ir.add_exit x;; mret true.
End dis.
