(* ===== verification/ThumbDis32.v ===== *)
(** * The Thumb front end: instructions of 32 bits
      ([src/src/target/arm/disassembler/thumb_disassembler.c])

    One definition per [dis_t2_*] and [dis_t32_*] function.  [insn] holds the
    first halfword in its upper half. *)

From S2P Require Import Prelude Ir Jitter FrontGen Arm32Gen ThumbGen ThumbDis16.

#[local] Open Scope c_scope.

(** The fields most instructions have. *)
Definition t2_rn (insn : Z) : Z := HW1 insn 3 0.
Definition t2_rt (insn : Z) : Z := INSN insn 15 12.
Definition t2_rd (insn : Z) : Z := INSN insn 11 8.
Definition t2_rm (insn : Z) : Z := INSN insn 3 0.

(** An immediate of 12 bits in three parts, and of 16. *)
Definition t2_imm12 (insn : Z) : Z :=
  Z.lor (Z.lor (Z.shiftl (HW1 insn 10 10) 11) (Z.shiftl (INSN insn 14 12) 8)) (INSN insn 7 0).
Definition t2_imm16 (insn : Z) : Z :=
  Z.lor (Z.lor (Z.lor (Z.shiftl (HW1 insn 3 0) 12) (Z.shiftl (HW1 insn 10 10) 11)) (Z.shiftl (INSN insn 14 12) 8))
        (INSN insn 7 0).

(** The number of a bit in two parts. *)
Definition t2_lsb (insn : Z) : Z := Z.lor (Z.shiftl (INSN insn 14 12) 2) (INSN insn 7 6).

(** The offset of a long branch, whose low part is [low]. *)
Definition t2_offset (insn low : Z) : Z :=
  let s := HW1 insn 10 10 in
  let i1 := 1 - Z.lxor (INSN insn 13 13) s in
  let i2 := 1 - Z.lxor (INSN insn 11 11) s in
  sign_extend 25 (Z.lor (Z.shiftl s 24)
    (Z.lor (Z.lor (Z.lor (Z.shiftl i1 23) (Z.shiftl i2 22)) (Z.shiftl (HW1 insn 9 0) 12)) low)).

Section dis.
Context `{ArmHost}.
(** [context->pc] *)
Context (pc : Z).

(** ** Branches *)

Definition dis_t2_b_t3 (insn : Z) : gen bool :=
  let cond := HW1 insn 9 6 in
  let imm32 :=
    Z.lor (Z.lor (Z.lor (Z.lor (Z.shiftl (HW1 insn 10 10) 20) (Z.shiftl (INSN insn 11 11) 19))
                        (Z.shiftl (INSN insn 13 13) 18)) (Z.shiftl (HW1 insn 5 0) 12)) (Z.shiftl (INSN insn 10 0) 1) in
  branch_if pc cond (pc + 4) (pc + 4 + sign_extend 21 imm32).

Definition dis_t2_branch_with_link (insn : Z) : gen bool :=
  let imm32 := t2_offset insn (Z.shiftl (INSN insn 10 0) 1) in
  r ← mk_32 (pc + 4); write_reg 14 r;;
  branch_const (pc + 4 + imm32).

Definition dis_t2_branch_with_link_exchange (insn : Z) : gen bool :=
  let imm32 := t2_offset insn (Z.shiftl (INSN insn 10 1) 2) in
  r ← mk_32 (pc + 4); write_reg 14 r;;
  branch_const (Z.land (pc + 4 + imm32) (Z.lnot 3)).

Definition dis_t2_branch_t4 (insn : Z) : gen bool :=
  branch_const (pc + 4 + t2_offset insn (Z.shiftl (INSN insn 10 0) 1)).

(** A jump by a table of bytes or of halfwords. *)
Definition dis_t2_tbx (insn : Z) : gen bool :=
  let rn := t2_rn insn in
  let rm := t2_rm insn in
  offset ←
    (if INSN1 insn 4 then
       a ← reg_plus_shifted pc rn rm 1; a ← mk_address a; v ← ir.add_load IR_REG_16 a;
       ir.add_cast IR_CAST_16U_TO_32 v
     else
       a ← reg_plus_reg pc rn rm; a ← mk_address a; v ← ir.add_load IR_REG_8 a;
       ir.add_cast IR_CAST_8U_TO_32 v);
  b ← mk_32 (pc + 4); one ← mk_8 1; s ← op_32 SHL offset one; jump_target ← op_32 ADD b s;
  branch_reg jump_target.

(** ** Immediates *)

Definition dis_t2_movw (insn : Z) : gen bool := r ← mk_32 (t2_imm16 insn); write_reg (t2_rd insn) r;; mret false.

Definition dis_t2_movt (insn : Z) : gen bool :=
  r ← mk_16 (t2_imm16 insn); ir.add_write_context IR_REG_16 r (off_r (t2_rd insn) + 2);; mret false.

Definition dis_t2_adr_t2 (insn : Z) : gen bool :=
  r ← mk_32 (aligned_pc pc - t2_imm12 insn); write_reg (t2_rd insn) r;; mret false.

Definition dis_t2_sub_t4 (insn : Z) : gen bool :=
  r ← reg_minus pc (t2_rn insn) (t2_imm12 insn); write_reg (t2_rd insn) r;; mret false.

Definition dis_t2_add_adr_t4 (insn : Z) : gen bool :=
  let rn := t2_rn insn in
  let rd := t2_rd insn in
  let imm32 := t2_imm12 insn in
  assert_legal pc (negb (rd =? 15)) $
  ((if rn =? 15 then r ← mk_32 (aligned_pc pc + imm32); write_reg rd r
    else r ← reg_plus pc rn imm32; write_reg rd r);; mret false).

(** ** Loads *)

(** The exit to the address a load left in [r15]. *)
Definition exit_if_pc (rt : Z) : gen bool :=
  if rt =? 15 then r ← ir.add_read_context IR_REG_32 (off_r 15); exit_32 r;; mret true else mret false.

(** The address of a literal. *)
Definition literal (insn : Z) : Z :=
  let imm32 := INSN insn 11 0 in if HW1b insn 7 then aligned_pc pc + imm32 else aligned_pc pc - imm32.

(** A load of a byte or of a halfword, signed or not. *)
Definition t2_load_byte (insn rt : Z) (address : nat) : gen unit :=
  load_cast IR_REG_8 (if HW1b insn 8 then IR_CAST_8S_TO_32 else IR_CAST_8U_TO_32) rt address.
Definition t2_load_half (insn rt : Z) (address : nat) : gen unit :=
  load_cast IR_REG_16 (if HW1b insn 8 then IR_CAST_16S_TO_32 else IR_CAST_16U_TO_32) rt address.

Definition dis_t2_ldr_literal (insn : Z) : gen bool :=
  let rt := t2_rt insn in a ← mk_32 (literal insn); load_word rt a;; exit_if_pc rt.

Definition dis_t2_ldr_immediate_t3 (insn : Z) : gen bool :=
  let rt := t2_rt insn in
  _ ← mk_load_store_word_immediate pc true rt (t2_rn insn) (INSN insn 11 0);
  exit_if_pc rt.

Definition dis_t2_ldr_register (insn : Z) : gen bool :=
  let rt := t2_rt insn in
  a ← reg_plus_shifted pc (t2_rn insn) (t2_rm insn) (INSN insn 5 4); load_word rt a;; exit_if_pc rt.

Definition dis_t2_ldrt (insn : Z) : gen bool :=
  let rn := t2_rn insn in
  let rt := t2_rt insn in
  assert_legal pc (negb (rt =? 15)) $
  assert_legal pc (negb (rn =? 15)) $
  a ← reg_plus pc rn (INSN insn 7 0); load_word rt a;; mret false.

(** The base is written before the load. *)
Definition dis_t2_ldr_immediate_t4 (insn : Z) : gen bool :=
  let rn := t2_rn insn in
  let rt := t2_rt insn in
  let p := INSN1 insn 10 in
  let u := INSN1 insn 9 in
  let w := INSN1 insn 8 in
  let imm32 := INSN insn 7 0 in
  let offset_address := if u then reg_plus pc rn imm32 else reg_minus pc rn imm32 in
  address ← (if p then offset_address else read_reg pc rn);
  (if w then wb ← offset_address; write_reg rn wb else mret tt);;
  (if rt =? 15 then
     a ← mk_address address; newPc ← ir.add_load IR_REG_32 a;
     write_reg 15 newPc;; exit_32 newPc;; mret true
   else load_word rt address;; mret false).

(** ** Indexed accesses *)

(** An access at an offset, pre-indexed or post-indexed. *)
Definition indexed (rn offset : Z) (p u w : bool) (access : nat -> gen unit) : gen bool :=
  let offset := if u then offset else - offset in
  address ← address_register_offset pc rn (if p then offset else 0);
  access address;;
  (if p && w then write_reg rn address
   else if negb p && w then newVal ← address_register_offset pc rn offset; write_reg rn newVal
   else mret tt);;
  mret false.

Definition dis_t32_ldrb_t3_ldrsb_t2 (insn : Z) : gen bool :=
  indexed (t2_rn insn) (INSN insn 7 0) (INSN1 insn 10) (INSN1 insn 9) (INSN1 insn 8) (t2_load_byte insn (t2_rt insn)).
Definition dis_t32_ldrh_t3_ldrsh_2 (insn : Z) : gen bool :=
  indexed (t2_rn insn) (INSN insn 7 0) (INSN1 insn 10) (INSN1 insn 9) (INSN1 insn 8) (t2_load_half insn (t2_rt insn)).

(** The two words, of [rt] and [rt2]. *)
Definition t2_access_double (l : bool) (rt rt2 : Z) (address : nat) : gen unit :=
  if l then
    load_word rt address;;
    n ← next_word address; load_word rt2 n
  else
    store_word pc rt (mret address);;
    store_word pc rt2 (next_word address).

Definition dis_t2_load_store_double_immediate_offset (insn : Z) : gen bool :=
  let rn := t2_rn insn in
  let rt := t2_rt insn in
  let rt2 := t2_rd insn in
  assert_legal pc (negb (rt =? 15)) $
  assert_legal pc (negb (rt2 =? 15)) $
  assert_legal pc (negb (rn =? 15)) $
  indexed rn (Z.shiftl (INSN insn 7 0) 2) (HW1b insn 8) (HW1b insn 7) (HW1b insn 5)
    (t2_access_double (HW1b insn 4) rt rt2).

(** Both addresses come before both loads. *)
Definition dis_t2_ldrd_literal (insn : Z) : gen bool :=
  let rt := t2_rt insn in
  let rt2 := t2_rd insn in
  let imm32 := Z.shiftl (INSN insn 7 0) 2 in
  let offset := if HW1b insn 7 then imm32 else - imm32 in
  assert_legal pc (negb (rt =? 13) && negb (rt =? 15)) $
  assert_legal pc (negb (rt2 =? 13) && negb (rt2 =? 15)) $
  assert_legal pc (negb (rt =? rt2)) $
  a ← mk_32 (aligned_pc pc + offset); address ← mk_address a;
  a ← mk_32 (aligned_pc pc + 4 + offset); address2 ← mk_address a;
  v ← ir.add_load IR_REG_32 address; write_reg rt v;;
  v ← ir.add_load IR_REG_32 address2; write_reg rt2 v;;
  mret false.

(** ** Bytes and halfwords *)

(** A load at [rn + imm32]. *)
Definition load_at (imm32 : Z) (load : Z -> Z -> nat -> gen unit) (insn : Z) : gen bool :=
  let rn := t2_rn insn in
  let rt := t2_rt insn in
  assert_legal pc (negb (rt =? 15)) $
  assert_legal pc (negb (rn =? 15)) $
  a ← reg_plus pc rn imm32; load insn rt a;; mret false.

Definition load_literal (load : Z -> Z -> nat -> gen unit) (insn : Z) : gen bool :=
  let rt := t2_rt insn in
  assert_legal pc (negb (rt =? 15)) $
  a ← mk_32 (literal insn); load insn rt a;; mret false.

Definition load_register (load : Z -> Z -> nat -> gen unit) (insn : Z) : gen bool :=
  let rt := t2_rt insn in
  assert_legal pc (negb (rt =? 15)) $
  a ← reg_plus_shifted pc (t2_rn insn) (t2_rm insn) (INSN insn 5 4); load insn rt a;; mret false.

Definition dis_t32_ldrbt_t1_ldrsbt_t1 (insn : Z) : gen bool := load_at (INSN insn 7 0) t2_load_byte insn.
Definition dis_t32_ldrb_t2_ldrsb_t1 (insn : Z) : gen bool := load_at (INSN insn 11 0) t2_load_byte insn.
Definition dis_t32_ldrht_t1_ldrsht_t1 (insn : Z) : gen bool := load_at (INSN insn 7 0) t2_load_half insn.
Definition dis_t32_ldrh_t2_ldrsh_t1 (insn : Z) : gen bool := load_at (INSN insn 11 0) t2_load_half insn.
Definition dis_t32_ldrh_ldrsh_literal : Z -> gen bool := load_literal t2_load_half.
Definition dis_t32_ldrb_ldrsb_literal : Z -> gen bool := load_literal t2_load_byte.
Definition dis_t32_t2_ldrh_ldrsh_register : Z -> gen bool := load_register t2_load_half.
Definition dis_t32_ldrb_register : Z -> gen bool := load_register t2_load_byte.

(** ** Stores *)

Definition t2_size (insn : Z) : Z := HW1 insn 6 5.

Definition dis_t2_str_imm12 (insn : Z) : gen bool :=
  let size := t2_size insn in
  address ← reg_plus pc (t2_rn insn) (INSN insn 11 0);
  assert_legal pc (negb (size =? 3)) $
  r ← read_reg pc (t2_rt insn); store_sized size r address;; mret false.

Definition dis_t2_str_imm8 (insn : Z) : gen bool :=
  let size := t2_size insn in
  let rn := t2_rn insn in
  let rt := t2_rt insn in
  let p := INSN1 insn 10 in
  let u := INSN1 insn 9 in
  let w := INSN1 insn 8 in
  assert_legal pc (negb (rn =? 15)) $
  assert_legal pc (negb (rt =? 15)) $
  rn_reg ← read_reg pc rn;
  i ← mk_32 (INSN insn 7 0); offset_addr ← op_32 (if u then ADD else SUB) rn_reg i;
  let address := if p then offset_addr else rn_reg in
  assert_legal pc (negb (size =? 3)) $
  r ← read_reg pc rt; store_sized size r address;;
  (if w then write_reg rn offset_addr else mret tt);;
  mret false.

Definition dis_t2_str_register (insn : Z) : gen bool :=
  let size := t2_size insn in
  address ← reg_plus_shifted pc (t2_rn insn) (t2_rm insn) (INSN insn 5 4);
  rt_reg ← read_reg pc (t2_rt insn);
  assert_legal pc (negb (size =? 3)) $
  (store_sized size rt_reg address;; mret false).

(** ** Transfers of several registers *)

(** The first address, and the base written back. *)
Definition start_of (m : bool) (rn bitNb : Z) : gen nat := if m then read_reg pc rn else reg_minus pc rn (4 * bitNb).
Definition write_back (w m : bool) (rn : Z) (start_address : nat) (offset : Z) : gen unit :=
  if w then
    if m then o ← mk_32 offset; r ← op_32 ADD start_address o; write_reg rn r else write_reg rn start_address
  else mret tt.

(** [assert] stops the translator where the base is written back and loaded. *)
Definition dis_t2_load_multiple (insn : Z) : gen bool :=
  let rn := t2_rn insn in
  let w := HW1b insn 5 in
  let m := HW1b insn 7 in
  let reglist := Z.shiftl (INSN insn 15 14) 14 + INSN insn 12 0 in
  let bitNb := Z.of_nat (length (in_reglist reglist 16)) in
  assert_legal pc (negb (rn =? 15)) $
  (c_assert (negb w || (Z.land (Z.shiftr reglist rn) 1 =? 0));;
   assert_legal pc (2 <=? bitNb) $
   start_address ← start_of m rn bitNb;
   offset ← load_multiple (in_reglist reglist 15) start_address 0;
   '(newPc, offset) ←
     (if negb (Z.land (Z.shiftr reglist 15) 1 =? 0) then
        a ← multiple_address start_address offset; newPc ← ir.add_load IR_REG_32 a;
        write_reg 15 newPc;; mret (Some newPc, offset + 4)
      else mret (None, offset));
   write_back w m rn start_address offset;;
   match newPc with
   | Some newPc => exit_32 newPc;; mret true
   | None => mret false
   end).

Definition dis_t2_store_multiple (insn : Z) : gen bool :=
  let rn := t2_rn insn in
  let w := HW1b insn 5 in
  let m := HW1b insn 7 in
  let reglist := Z.shiftl (INSN insn 14 14) 14 + INSN insn 12 0 in
  let bitNb := Z.of_nat (length (in_reglist reglist 16)) in
  assert_legal pc (negb (rn =? 15)) $
  assert_legal pc (negb w || (Z.land (Z.shiftr reglist rn) 1 =? 0)) $
  assert_legal pc (2 <=? bitNb) $
  start_address ← start_of m rn bitNb;
  offset ← store_multiple pc (in_reglist reglist 16) start_address 0;
  write_back w m rn start_address offset;;
  mret false.

(** ** Data processing *)

Definition dis_t2_data_processing_register_shift (insn : Z) : gen bool :=
  let shift_mode := HW1 insn 6 5 in
  let s := HW1b insn 4 in
  let rn := t2_rn insn in
  let rd := t2_rd insn in
  let rm := t2_rm insn in
  assert_legal pc (negb (rn =? 13) && negb (rn =? 15)) $
  assert_legal pc (negb (rd =? 13) && negb (rd =? 15)) $
  assert_legal pc (negb (rm =? 13) && negb (rm =? 15)) $
  rn_reg ← read_reg pc rn;
  rm_reg ← read_reg pc rm;
  result ←
    match shift_mode with
    | 0 => shift_by_reg SHL rn_reg rm_reg (mk_32 0)
    | 1 => shift_by_reg SHR rn_reg rm_reg (mk_32 0)
    | 2 => shift_by_reg ASR rn_reg rm_reg (k ← mk_8 31; op_32 ASR rn_reg k)
    | _ => mk_ror_reg_32 rn_reg rm_reg
    end;
  (if s then
     m ← mk_32 (Z.lor (Z.shiftl shift_mode 5) 0x10); k ← ir.add_cast IR_CAST_32_TO_8 rm_reg;
     sco ← mk_sco pc m rn_reg k; write_sco sco
   else mret tt);;
  with_flags s (next_flags pc 0 (mret result) (mret result)) (write_reg rd result);;
  mret false.

Definition dis_t2_data_processing_modified_immediate (insn : Z) : gen bool :=
  let s := HW1b insn 4 in
  let imm12 := t2_imm12 insn in
  let imm32 := ThumbExpandimm_C_imm32 imm12 in
  op ← mk_32 imm32;
  (if s then
     if negb (Z.shiftr imm12 10 =? 0) then r ← mk_32 (Z.land (Z.shiftr imm32 2) 0x20000000); write_sco r
     else c ← read_cpsr; m ← mk_32 0x20000000; r ← op_32 AND c m; write_sco r
   else mret tt);;
  mk_data_processing_modified pc insn op.

Definition dis_t2_data_processing_shifted_register (insn : Z) : gen bool :=
  let s := HW1b insn 4 in
  let shift_imm := Z.shiftl (INSN insn 14 12) 2 + INSN insn 7 6 in
  let shift_mode := INSN insn 5 4 in
  rm_reg ← read_reg pc (t2_rm insn);
  (if s then i ← mk_32 insn; k ← mk_32 shift_imm; r ← mk_sco_t2 pc i rm_reg k; write_sco r else mret tt);;
  op ←
    match shift_mode with
    | 0 => if shift_imm =? 0 then mret rm_reg else k ← mk_8 shift_imm; op_32 SHL rm_reg k
    | 1 => if shift_imm =? 0 then mk_32 0 else k ← mk_8 shift_imm; op_32 SHR rm_reg k
    | 2 => k ← mk_8 (if shift_imm =? 0 then 31 else shift_imm); op_32 ASR rm_reg k
    | _ =>
        if shift_imm =? 0 then c ← carry_to_top; one ← mk_8 1; r ← op_32 SHR rm_reg one; op_32 OR r c
        else mk_ror_imm_32 rm_reg shift_imm
    end;
  mk_data_processing_modified pc insn op.

(** ** Bits *)

Definition dis_t32_rbit (insn : Z) : gen bool :=
  w0 ← read_reg pc (HW1 insn 3 0);
  w1 ← swap_parts w0 0x55555555 1;
  w2 ← swap_parts w1 0x33333333 2;
  w3 ← swap_parts w2 0x0f0f0f0f 4;
  w4 ← swap_parts w3 0x00ff00ff 8;
  w5 ← swap_parts w4 0x0000ffff 16;
  write_reg (t2_rd insn) w5;; mret false.

Definition dis_t2_sel (insn : Z) : gen bool :=
  let rn := t2_rn insn in
  let rm := t2_rm insn in
  let rd := t2_rd insn in
  assert_legal pc (negb (rn =? 15)) $
  assert_legal pc (negb (rm =? 15)) $
  assert_legal pc (negb (rd =? 15)) $
  p0 ← read_cpsr; p1 ← read_reg pc rn; p2 ← read_reg pc rm;
  a ← mk_helper arm_hlp_sel; result ← mk_call pc IR_REG_32 a [Some p0; Some p1; Some p2; None];
  write_reg rd result;; mret false.

Definition dis_t2_clz (insn : Z) : gen bool :=
  let rm := HW1 insn 3 0 in
  let rd := t2_rd insn in
  assert_legal pc (negb (rm =? 15)) $
  assert_legal pc (negb (rd =? 15)) $
  assert_legal pc (rm =? INSN insn 3 0) $
  p ← read_reg pc rm;
  a ← mk_helper arm_hlp_clz; result ← mk_call pc IR_REG_32 a [Some p; None; None; None];
  write_reg rd result;; mret false.

Definition dis_t32_rev (insn : Z) : gen bool := dis_rev pc (INSN insn 11 8) (INSN insn 3 0).
Definition dis_t32_rev16 (insn : Z) : gen bool := dis_rev16 pc (INSN insn 11 8) (INSN insn 3 0).
Definition dis_t32_revsh (insn : Z) : gen bool := dis_revsh pc (INSN insn 11 8) (INSN insn 3 0).

(** [((1ULL << width) - 1) << lsb] *)
Definition t2_field_mask (insn : Z) : Z :=
  let width := INSN insn 4 0 - t2_lsb insn + 1 in
  shl_64 (shl_64 1 width - 1) (t2_lsb insn).

Definition dis_t2_bfc (insn : Z) : gen bool :=
  let rd := t2_rd insn in
  assert_legal pc (negb (rd =? 15)) $
  r ← read_reg pc rd; m ← mk_32 (Z.lnot (t2_field_mask insn)); v ← op_32 AND r m;
  write_reg rd v;; mret false.

Definition dis_t2_bfi (insn : Z) : gen bool :=
  let rd := t2_rd insn in
  r ← read_reg pc (t2_rn insn); k ← mk_8 (t2_lsb insn); s ← op_32 SHL r k;
  m ← mk_32 (t2_field_mask insn); op1 ← op_32 AND s m;
  r ← read_reg pc rd; m ← mk_32 (Z.lnot (t2_field_mask insn)); op2 ← op_32 AND r m;
  v ← op_32 OR op1 op2; write_reg rd v;; mret false.

Definition dis_t2_sbfx (insn : Z) : gen bool :=
  let widthm1 := INSN insn 4 0 in
  r ← read_reg pc (t2_rn insn); k ← mk_8 (31 - t2_lsb insn - widthm1); s ← op_32 SHL r k;
  k ← mk_8 (31 - widthm1); v ← op_32 ASR s k;
  write_reg (t2_rd insn) v;; mret false.

Definition dis_t2_ubfx (insn : Z) : gen bool :=
  let mask := shl_64 1 (INSN insn 4 0 + 1) - 1 in
  r ← read_reg pc (t2_rn insn); k ← mk_8 (t2_lsb insn); s ← op_32 SHR r k; m ← mk_32 mask; v ← op_32 AND s m;
  write_reg (t2_rd insn) v;; mret false.

(** ** Extensions *)

Definition t2_rotation (insn : Z) : Z := Z.shiftl (INSN insn 5 4) 3.

(** [rm], rotated or not, then [extend]: [uxtb] and [uxth] always rotate. *)
Definition t2_extend (extend : nat -> gen nat) (insn : Z) : gen bool :=
  rm_reg ← read_reg pc (t2_rm insn);
  rm_rotated ← mk_media_rotate rm_reg (t2_rotation insn);
  result ← extend rm_rotated;
  write_reg (t2_rd insn) result;; mret false.

Definition t2_mask (mask : Z) (insn : Z) : gen bool :=
  rm_reg ← read_reg pc (t2_rm insn);
  r ← mk_ror_imm_32 rm_reg (t2_rotation insn); result ← mask_with mask r;
  write_reg (t2_rd insn) result;; mret false.

Definition t2_add_rn (insn : Z) (extend : nat -> gen nat) (r : nat) : gen nat :=
  n ← read_reg pc (t2_rn insn); e ← extend r; op_32 ADD n e.

Definition t2_extend_add16 (t : irCastType) (insn : Z) : gen bool :=
  rm_reg ← read_reg pc (t2_rm insn);
  rn_reg ← read_reg pc (t2_rn insn);
  rm_rotated ← mk_media_rotate rm_reg (t2_rotation insn);
  result ← extend_add_bytes t rn_reg rm_rotated;
  write_reg (t2_rd insn) result;; mret false.

Definition dis_t2_uxtb : Z -> gen bool := t2_mask 0xff.
Definition dis_t2_uxth : Z -> gen bool := t2_mask 0xffff.
Definition dis_t2_sxtb : Z -> gen bool := t2_extend (narrow_then IR_CAST_32_TO_8 IR_CAST_8S_TO_32).
Definition dis_t2_sxth : Z -> gen bool := t2_extend (narrow_then IR_CAST_32_TO_16 IR_CAST_16S_TO_32).
Definition dis_t2_uxtab (insn : Z) : gen bool :=
  t2_extend (t2_add_rn insn (narrow_then IR_CAST_32_TO_8 IR_CAST_8U_TO_32)) insn.
Definition dis_t2_uxtah (insn : Z) : gen bool :=
  t2_extend (t2_add_rn insn (narrow_then IR_CAST_32_TO_16 IR_CAST_16U_TO_32)) insn.
Definition dis_t2_sxtab (insn : Z) : gen bool :=
  t2_extend (t2_add_rn insn (narrow_then IR_CAST_32_TO_8 IR_CAST_8S_TO_32)) insn.
Definition dis_t2_sxtah (insn : Z) : gen bool :=
  t2_extend (t2_add_rn insn (narrow_then IR_CAST_32_TO_16 IR_CAST_16S_TO_32)) insn.
Definition dis_t2_sxtb16 : Z -> gen bool := t2_extend (extend_bytes IR_CAST_8S_TO_16).
Definition dis_t2_uxtb16 : Z -> gen bool := t2_extend (extend_bytes IR_CAST_8U_TO_16).
Definition dis_t2_sxtab16 : Z -> gen bool := t2_extend_add16 IR_CAST_8S_TO_16.
Definition dis_t2_uxtab16 : Z -> gen bool := t2_extend_add16 IR_CAST_8U_TO_16.

(** ** Multiplications *)

Definition dis_t2_mul_mla_mls (insn : Z) : gen bool :=
  let rd := t2_rd insn in
  let ra := INSN insn 15 12 in
  let is_sub := INSN1 insn 4 in
  n ← read_reg pc (t2_rn insn); m ← read_reg pc (t2_rm insn); mul ← mk_mul_u_lsb pc n m;
  (if ra =? 15 then write_reg rd mul
   else a ← read_reg pc ra; r ← op_32 (if is_sub then SUB else ADD) a mul; write_reg rd r);;
  mret false.

Definition dis_t2_umull_smull_umlal_smlal (insn : Z) : gen bool :=
  let sign := negb (HW1b insn 5) in
  let a := HW1b insn 6 in
  let rdhi := t2_rd insn in
  let rdlo := t2_rt insn in
  rm_reg ← read_reg pc (t2_rm insn);
  rn_reg ← read_reg pc (t2_rn insn);
  '(mul_lsb, mul_msb) ←
    (if a then
       rdhi_reg ← read_reg pc rdhi;
       rdlo_reg ← read_reg pc rdlo;
       if sign then
         l ← mk_mula_s_lsb pc rn_reg rm_reg rdhi_reg rdlo_reg;
         h ← mk_mula_s_msb pc rn_reg rm_reg rdhi_reg rdlo_reg; mret (l, h)
       else
         l ← mk_mula_u_lsb pc rn_reg rm_reg rdhi_reg rdlo_reg;
         h ← mk_mula_u_msb pc rn_reg rm_reg rdhi_reg rdlo_reg; mret (l, h)
     else
       if sign then l ← mk_mul_s_lsb pc rn_reg rm_reg; h ← mk_mul_s_msb pc rn_reg rm_reg; mret (l, h)
       else l ← mk_mul_u_lsb pc rn_reg rm_reg; h ← mk_mul_u_msb pc rn_reg rm_reg; mret (l, h));
  write_reg rdhi mul_msb;; write_reg rdlo mul_lsb;; mret false.

(** ** Coprocessor, synchronisation, status *)

Definition dis_t2_mrc (insn : Z) : gen bool :=
  let opcode_1 := HW1 insn 7 5 in
  let crn := HW1 insn 3 0 in
  let rd := INSN insn 15 12 in
  let cp_num := INSN insn 11 8 in
  let opcode_2 := INSN insn 7 5 in
  let crm := INSN insn 3 0 in
  assert_legal pc ((opcode_1 =? 0) && (crn =? 13) && (cp_num =? 15) && (opcode_2 =? 3) && (crm =? 0)) $
  r ← ir.add_read_context IR_REG_32 off_c13_tls2; write_reg rd r;; mret false.

Definition dis_t32_t1_dsb (insn : Z) : gen bool := mk_call0 pc arm_hlp_memory_barrier;; mret false.
Definition dis_t32_t1_isb (insn : Z) : gen bool := mk_call0 pc arm_hlp_memory_barrier;; mret false.

(** The address of an exclusive access. *)
Definition exclusive_address (rn imm32 : Z) : gen nat :=
  if negb (imm32 =? 0) then reg_plus pc rn imm32 else read_reg pc rn.

Definition dis_t2_ldrexx (insn imm32 type : Z) : gen bool :=
  let rn := t2_rn insn in
  let rt := t2_rt insn in
  assert_legal pc (negb (rn =? 15)) $
  assert_legal pc (negb (rt =? 15)) $
  p0 ← exclusive_address rn imm32; p1 ← mk_32 type;
  a ← mk_helper arm_hlp_ldrexx; result ← mk_call pc IR_REG_32 a [Some p0; Some p1; None; None];
  write_reg rt result;; mret false.

Definition dis_t2_ldrex (insn : Z) : gen bool := dis_t2_ldrexx insn (Z.shiftl (INSN insn 7 0) 2) 4.
Definition dis_t2_ldrexb (insn : Z) : gen bool := dis_t2_ldrexx insn 0 6.
Definition dis_t2_ldrexh (insn : Z) : gen bool := dis_t2_ldrexx insn 0 7.

Definition dis_t2_ldrexd (insn : Z) : gen bool :=
  let rn := t2_rn insn in
  let rt := t2_rt insn in
  let rt2 := t2_rd insn in
  assert_legal pc (negb (rn =? 15)) $
  assert_legal pc (negb (rt =? 15)) $
  assert_legal pc (negb (rt2 =? 15)) $
  p0 ← read_reg pc rn;
  a ← mk_helper arm_hlp_ldrexd; result ← mk_call pc IR_REG_64 a [Some p0; None; None; None];
  l ← ir.add_cast IR_CAST_64_TO_32 result; write_reg rt l;;
  k ← mk_8 32; h ← ir.add_binop SHR IR_REG_64 result k; h ← ir.add_cast IR_CAST_64_TO_32 h; write_reg rt2 h;;
  mret false.

Definition dis_t2_strexx (insn rd imm32 type : Z) : gen bool :=
  let rn := t2_rn insn in
  let rt := t2_rt insn in
  assert_legal pc (negb (rn =? 15)) $
  assert_legal pc (negb (rd =? 15)) $
  assert_legal pc (negb (rt =? 15)) $
  p0 ← exclusive_address rn imm32; p1 ← mk_32 type; p2 ← read_reg pc rt;
  a ← mk_helper arm_hlp_strexx; result ← mk_call pc IR_REG_32 a [Some p0; Some p1; Some p2; None];
  write_reg rd result;; mret false.

Definition dis_t2_strex (insn : Z) : gen bool :=
  dis_t2_strexx insn (INSN insn 11 8) (Z.shiftl (INSN insn 7 0) 2) 4.
Definition dis_t2_strexb (insn : Z) : gen bool := dis_t2_strexx insn (INSN insn 3 0) 0 6.
Definition dis_t2_strexh (insn : Z) : gen bool := dis_t2_strexx insn (INSN insn 3 0) 0 7.

Definition dis_t2_strexd (insn : Z) : gen bool :=
  let rn := t2_rn insn in
  let rt := t2_rt insn in
  let rt2 := INSN insn 11 8 in
  let rd := INSN insn 3 0 in
  assert_legal pc (negb (rn =? 15)) $
  assert_legal pc (negb (rd =? 15)) $
  assert_legal pc (negb (rt =? 15)) $
  assert_legal pc (negb (rt2 =? 15)) $
  p0 ← read_reg pc rn; p1 ← read_reg pc rt; p2 ← read_reg pc rt2;
  a ← mk_helper arm_hlp_strexd; result ← mk_call pc IR_REG_32 a [Some p0; Some p1; Some p2; None];
  write_reg rd result;; mret false.

Definition dis_t2_msr (insn : Z) : gen bool :=
  let rn := t2_rn insn in
  let mask := status_mask (INSN1 insn 11) (INSN1 insn 10) in
  assert_legal pc (negb (rn =? 15)) $
  c ← read_cpsr; m ← mk_32 (Z.lnot mask); cpsr_mask ← op_32 AND c m;
  r ← read_reg pc rn; m ← mk_32 mask; rn_mask ← op_32 AND r m;
  f ← op_32 OR cpsr_mask rn_mask; write_cpsr f;; mret false.

Definition dis_t2_mrs (insn : Z) : gen bool := r ← read_cpsr; write_reg (t2_rd insn) r;; mret false.

(** ** Instructions left to a helper *)

Definition dis_t32_hlp_saturation : Z -> gen bool := mk_dirty_32 pc t32_hlp_saturation.
Definition dis_t2_signed_parallel : Z -> gen bool := mk_dirty pc thumb_hlp_t2_signed_parallel.
Definition dis_t2_unsigned_parallel : Z -> gen bool := mk_dirty pc thumb_hlp_t2_unsigned_parallel.
Definition dis_t2_misc_saturating : Z -> gen bool := mk_dirty pc thumb_hlp_t2_misc_saturating.
Definition mk_dis_t2_long_mult_A_long_mult_acc_A_div : Z -> gen bool :=
  mk_dirty pc thumb_hlp_t2_long_mult_A_long_mult_acc_A_div.
End dis.
