(* ===== verification/ThumbDecode.v ===== *)
(** * The Thumb front end: decoding
      ([src/src/target/arm/disassembler/thumb_disassembler.c], from
      [dis_t1_shift_A_add_A_substract_A_move_A_compare] to
      [disassemble_thumb2_insn]) *)

From S2P Require Import Prelude Ir Jitter IrRequests FrontGen Arm32Gen Arm32Vfp Arm32Decode ThumbGen ThumbDis16 ThumbDis32.

#[local] Open Scope c_scope.

(** [case lo ... hi:] *)
Definition within (lo hi x : Z) : bool := (lo <=? x) && (x <=? hi).
(** Some of the bits of [mask]. *)
Definition has (x mask : Z) : bool := negb (Z.land x mask =? 0).

Section decode.
Context `{ArmHost}.
(** [context->pc] *)
Context (pc : Z).

(** ** 16 bits *)

Definition dis_t1_shift_A_add_A_substract_A_move_A_compare (insn : Z) : gen bool :=
  match INSN insn 13 9 with
  | 0 | 1 | 2 | 3 => dis_t1_lsl_immediate pc insn
  | 4 | 5 | 6 | 7 => dis_t1_lsr_immediate pc insn
  | 8 | 9 | 10 | 11 => dis_t1_asr_immediate pc insn
  | 12 => dis_t1_add_register pc insn
  | 13 => dis_t1_sub_register pc insn
  | 14 => dis_t1_add_3_bits_immediate pc insn
  | 15 => dis_t1_sub_3_bits_immediate pc insn
  | 16 | 17 | 18 | 19 => dis_t1_mov_immediate pc insn
  | 20 | 21 | 22 | 23 => dis_t1_cmp_immediate pc insn
  | 24 | 25 | 26 | 27 => dis_t1_add_8_bits_immediate pc insn
  | 28 | 29 | 30 | 31 => dis_t1_sub_8_bits_immediate pc insn
  | _ => illegal_opcode pc
  end.

Definition dis_t1_misc_16_bits (insn : Z) : gen bool :=
  let opcode := INSN insn 11 5 in
  if within 0 3 opcode then dis_t1_sp_plus_immediate pc insn
  else if within 4 7 opcode then dis_t1_sp_minus_immediate pc insn
  else if within 16 17 opcode then dis_t1_sxth pc insn
  else if within 18 19 opcode then dis_t1_sxtb pc insn
  else if within 20 21 opcode then dis_t1_uxth pc insn
  else if within 22 23 opcode then dis_t1_uxtb pc insn
  else if within 8 15 opcode || within 24 31 opcode || within 72 79 opcode || within 88 95 opcode
    then dis_t1_cbxz pc insn
  else if within 32 47 opcode then dis_t1_push pc insn
  else if within 80 81 opcode then dis_t1_rev pc insn
  else if within 82 83 opcode then dis_t1_rev16 pc insn
  else if within 86 87 opcode then dis_t1_revsh pc insn
  else if within 96 111 opcode then dis_t1_pop pc insn
  else if within 120 127 opcode then dis_t1_itt_A_hints insn
  else illegal_opcode pc.

Definition dis_t1_load_store_single_data_item (insn : Z) : gen bool :=
  match INSN insn 15 12 with
  | 5 =>
      match INSN insn 11 9 with
      | 0 => dis_t1_str_register pc insn
      | 1 => dis_t1_strh_register pc insn
      | 2 => dis_t1_strb_register pc insn
      | 3 => dis_t1_ldrsb_register pc insn
      | 4 => dis_t1_ldr_register pc insn
      | 5 => dis_t1_ldrh_register pc insn
      | 6 => dis_t1_ldrb_register pc insn
      | 7 => dis_t1_ldrsh_register pc insn
      | _ => illegal_opcode pc
      end
  | 6 => dis_t1_load_store_word_immediate pc insn
  | 7 => dis_t1_load_store_byte_immediate pc insn
  | 8 => dis_t1_load_store_halfword_immediate pc insn
  | 9 => dis_t1_load_store_word_immediate_sp_relative pc insn
  | _ => illegal_opcode pc
  end.

Definition dis_t1_special_data_A_branch_and_exchange (insn : Z) : gen bool :=
  match INSN insn 9 6 with
  | 0 | 1 | 2 | 3 => dis_t1_add_register_t2 pc insn
  | 5 | 6 | 7 => dis_t1_cmp_register_t2 pc insn
  | 8 | 9 | 10 | 11 => dis_t1_mov_high_low_registers pc insn
  | 12 | 13 => dis_t1_bx pc insn
  | 14 | 15 => dis_t1_blx pc insn
  | _ => illegal_opcode pc
  end.

Definition dis_t1_cond_branch_A_svc (insn : Z) : gen bool :=
  let opcode := INSN insn 11 8 in
  if opcode =? 15 then dis_t1_svc pc insn
  else if opcode =? 14 then dis_gdb_breakpoint pc insn
  else dis_t1_b_t1 pc insn.

(** In an IT block, the exit to [next] where the condition is false, with the
    state of the block after this instruction. *)
Definition it_guard (next : Z) : gen unit :=
  inIt ← inItBlock;
  if inIt : bool then
    s ← front_state;
    exit_unless pc (Z.shiftr (disa_itstate s) 4) next (n ← nextItState; r ← mk_32 n; write_itstate r)
  else mret tt.

Definition disassemble_thumb1_insn (insn : Z) : gen bool :=
  let opcode := INSN insn 15 10 in
  it_guard (pc + 2);;
  if within 0 15 opcode then dis_t1_shift_A_add_A_substract_A_move_A_compare insn
  else if opcode =? 16 then dis_t1_data_processing pc insn
  else if opcode =? 17 then dis_t1_special_data_A_branch_and_exchange insn
  else if within 18 19 opcode then dis_t1_load_literal pc insn
  else if within 20 39 opcode then dis_t1_load_store_single_data_item insn
  else if within 40 41 opcode then dis_t1_adr pc insn
  else if within 42 43 opcode then dis_t1_sp_relative_addr pc insn
  else if within 44 47 opcode then dis_t1_misc_16_bits insn
  else if within 48 49 opcode then dis_t1_stmia pc insn
  else if within 50 51 opcode then dis_t1_ldmia pc insn
  else if within 52 55 opcode then dis_t1_cond_branch_A_svc insn
  else if within 56 57 opcode then dis_t1_b_t2 pc insn
  else illegal_opcode pc.

(** ** 32 bits: branches, status and immediates *)

Definition dis_t2_misc_control_insn (insn : Z) : gen bool :=
  match INSN insn 7 4 with
  | 4 => dis_t32_t1_dsb pc insn
  | 5 => dis_t1_dmb pc insn
  | 6 => dis_t32_t1_isb pc insn
  | _ => illegal_opcode pc
  end.

Definition dis_t2_change_processor_state_A_hints (insn : Z) : gen bool :=
  let op1 := INSN insn 10 8 in
  let op2 := INSN insn 7 0 in
  assert_legal pc (op1 =? 0) $
  if op2 =? 0 then mret false else illegal_opcode pc.

Definition dis_t2_branches_A_misc (insn : Z) : gen bool :=
  let op1 := INSN insn 14 12 in
  let op := HW1 insn 10 4 in
  let op2 := INSN insn 11 8 in
  if (op1 =? 5) || (op1 =? 7) then dis_t2_branch_with_link pc insn
  else if (op1 =? 2) && (op =? 127) then dis_gdb_breakpoint pc insn
  else if (op1 =? 0) || (op1 =? 2) then
    if Z.land op 0x38 =? 0x38 then
      match op with
      | 56 | 57 => if (op =? 56) && (Z.land op2 3 =? 0) then dis_t2_msr pc insn else illegal_opcode pc
      | 58 => dis_t2_change_processor_state_A_hints insn
      | 59 => dis_t2_misc_control_insn insn
      | 62 | 63 => dis_t2_mrs insn
      | _ => illegal_opcode pc
      end
    else dis_t2_b_t3 pc insn
  else if (op1 =? 4) || (op1 =? 6) then dis_t2_branch_with_link_exchange pc insn
  else if (op1 =? 1) || (op1 =? 3) then dis_t2_branch_t4 pc insn
  else illegal_opcode pc.

Definition dis_t2_data_processing_plain_binary_immediate (insn : Z) : gen bool :=
  let rn := HW1 insn 3 0 in
  match HW1 insn 8 4 with
  | 0 => dis_t2_add_adr_t4 pc insn
  | 4 => dis_t2_movw insn
  | 10 => if rn =? 15 then dis_t2_adr_t2 pc insn else dis_t2_sub_t4 pc insn
  | 12 => dis_t2_movt insn
  | 16 | 18 | 24 | 26 => dis_t32_hlp_saturation pc insn
  | 20 => dis_t2_sbfx pc insn
  | 22 => if rn =? 15 then dis_t2_bfc pc insn else dis_t2_bfi pc insn
  | 28 => dis_t2_ubfx pc insn
  | _ => illegal_opcode pc
  end.

(** ** 32 bits: loads and stores *)

Definition dis_t2_ldr (insn : Z) : gen bool :=
  let rn := HW1 insn 3 0 in
  let op1 := HW1 insn 8 7 in
  let op2 := INSN insn 11 6 in
  if rn =? 15 then dis_t2_ldr_literal pc insn
  else if op1 =? 1 then dis_t2_ldr_immediate_t3 pc insn
  else if op2 =? 0 then dis_t2_ldr_register pc insn
  else if Z.land op2 0x3c =? 0x38 then dis_t2_ldrt pc insn
  else dis_t2_ldr_immediate_t4 pc insn.

Definition dis_t2_ldr_byte_A_hints (insn : Z) : gen bool :=
  let op1 := HW1 insn 8 7 in
  let op2 := INSN insn 11 6 in
  let rn := HW1 insn 3 0 in
  let rt := INSN insn 15 12 in
  if rt =? 15 then mret false
  else if rn =? 15 then dis_t32_ldrb_ldrsb_literal pc insn
  else match op1 with
       | 0 | 2 =>
           if op2 =? 0 then dis_t32_ldrb_register pc insn
           else if (Z.land op2 0x3c =? 0x30) || (Z.land op2 0x24 =? 0x24) then dis_t32_ldrb_t3_ldrsb_t2 pc insn
           else if Z.land op2 0x3c =? 0x38 then dis_t32_ldrbt_t1_ldrsbt_t1 pc insn
           else illegal_opcode pc
       | 1 | 3 => dis_t32_ldrb_t2_ldrsb_t1 pc insn
       | _ => illegal_opcode pc
       end.

Definition dis_t2_ldr_halfword_A_unallocated_hints (insn : Z) : gen bool :=
  let op1 := HW1 insn 8 7 in
  let op2 := INSN insn 11 6 in
  let rn := HW1 insn 3 0 in
  let rt := INSN insn 15 12 in
  if rt =? 15 then illegal_opcode pc
  else if rn =? 15 then dis_t32_ldrh_ldrsh_literal pc insn
  else match op1 with
       | 0 | 2 =>
           if op2 =? 0 then dis_t32_t2_ldrh_ldrsh_register pc insn
           else if (Z.land op2 0x3c =? 0x30) || (Z.land op2 0x24 =? 0x24) then dis_t32_ldrh_t3_ldrsh_2 pc insn
           else if Z.land op2 0x3c =? 0x38 then dis_t32_ldrht_t1_ldrsht_t1 pc insn
           else illegal_opcode pc
       | 1 | 3 => dis_t32_ldrh_t2_ldrsh_t1 pc insn
       | _ => illegal_opcode pc
       end.

Definition dis_t2_ldrd_strd_A_ldrex_strex_A_table_branch (insn : Z) : gen bool :=
  let op1 := HW1 insn 8 7 in
  let op2 := HW1 insn 5 4 in
  let op3 := INSN insn 7 4 in
  let rn := HW1 insn 3 0 in
  if (op1 =? 1) && (Z.land op2 2 =? 0) then
    match op3 with
    | 0 | 1 => dis_t2_tbx pc insn
    | 4 => if has op2 1 then dis_t2_ldrexb pc insn else dis_t2_strexb pc insn
    | 5 => if has op2 1 then dis_t2_ldrexh pc insn else dis_t2_strexh pc insn
    | 7 => if has op2 1 then dis_t2_ldrexd pc insn else dis_t2_strexd pc insn
    | _ => illegal_opcode pc
    end
  else if (op1 =? 0) && (op2 =? 0) then dis_t2_strex pc insn
  else if (op1 =? 0) && (op2 =? 1) then dis_t2_ldrex pc insn
  else if ((Z.land op1 2 =? 0) && (op2 =? 2)) || ((Z.land op1 2 =? 2) && (Z.land op2 1 =? 0))
    then dis_t2_load_store_double_immediate_offset pc insn
  else if rn =? 15 then dis_t2_ldrd_literal pc insn
  else dis_t2_load_store_double_immediate_offset pc insn.

Definition dis_t2_str_single_data (insn : Z) : gen bool :=
  let op1 := HW1 insn 7 5 in
  let op2 := INSN insn 11 6 in
  if has op1 4 then dis_t2_str_imm12 pc insn
  else if has op2 0x20 then
    if Z.land op2 0x3c =? 0x38 then illegal_opcode pc else dis_t2_str_imm8 pc insn
  else dis_t2_str_register pc insn.

Definition dis_t2_load_store_multiple (insn : Z) : gen bool :=
  let l := HW1b insn 4 in
  match HW1 insn 8 7 with
  | 0 | 3 => illegal_opcode pc
  | 1 | 2 => if l then dis_t2_load_multiple pc insn else dis_t2_store_multiple pc insn
  | _ => mret false
  end.

(** ** 32 bits: registers and multiplications *)

Definition dis_t2_misc (insn : Z) : gen bool :=
  let op1 := HW1 insn 5 4 in
  let op2 := INSN insn 5 4 in
  match Z.lor (Z.shiftl op1 2) op2 with
  | 0 | 1 | 2 | 3 => dis_t2_misc_saturating pc insn
  | 4 => dis_t32_rev pc insn
  | 5 => dis_t32_rev16 pc insn
  | 6 => dis_t32_rbit pc insn
  | 7 => dis_t32_revsh pc insn
  | 8 => dis_t2_sel pc insn
  | 12 => dis_t2_clz pc insn
  | _ => illegal_opcode pc
  end.

Definition dis_t2_data_processing_register (insn : Z) : gen bool :=
  let op1 := HW1 insn 7 4 in
  let op2 := INSN insn 7 4 in
  let rn := HW1 insn 3 0 in
  if has op1 0x8 then
    if Z.land op2 0xc =? 0 then dis_t2_signed_parallel pc insn
    else if Z.land op2 0xc =? 4 then dis_t2_unsigned_parallel pc insn
    else if Z.land op2 0xc =? 8 then dis_t2_misc insn
    else illegal_opcode pc
  else if op2 =? 0 then dis_t2_data_processing_register_shift pc insn
  else match op1 with
       | 0 => if rn =? 15 then dis_t2_sxth pc insn else dis_t2_sxtah pc insn
       | 1 => if rn =? 15 then dis_t2_uxth pc insn else dis_t2_uxtah pc insn
       | 2 => if rn =? 15 then dis_t2_sxtb16 pc insn else dis_t2_sxtab16 pc insn
       | 3 => if rn =? 15 then dis_t2_uxtb16 pc insn else dis_t2_uxtab16 pc insn
       | 4 => if rn =? 15 then dis_t2_sxtb pc insn else dis_t2_sxtab pc insn
       | 5 => if rn =? 15 then dis_t2_uxtb pc insn else dis_t2_uxtab pc insn
       | _ => illegal_opcode pc
       end.

Definition dis_t2_mult_A_mult_acc_A_abs_diff (insn : Z) : gen bool :=
  match HW1 insn 6 4 with
  | 0 => dis_t2_mul_mla_mls pc insn
  | _ => mk_dirty pc thumb_hlp_t2_mult_A_mult_acc_A_abs_diff insn
  end.

Definition dis_t2_long_mult_A_long_mult_acc_A_div (insn : Z) : gen bool :=
  let op2 := INSN insn 7 4 in
  match HW1 insn 6 4 with
  | 0 | 2 => dis_t2_umull_smull_umlal_smlal pc insn
  | 1 | 3 | 5 => mk_dis_t2_long_mult_A_long_mult_acc_A_div pc insn
  | 4 | 6 =>
      if op2 =? 0 then dis_t2_umull_smull_umlal_smlal pc insn
      else mk_dis_t2_long_mult_A_long_mult_acc_A_div pc insn
  | _ => illegal_opcode pc
  end.

(** ** Coprocessor *)

Definition dis_t2_64_bits_transfert_between_arm_and_extension (insn : Z) : gen bool :=
  if INSN1 insn 8 then dis_common_vmov_two_arm_core_and_d_insn (read_reg pc) pc insn
  else dis_common_vmov_two_arm_core_and_two_s_insn (read_reg pc) insn.

Definition dis_t2_coprocessor_insn (insn : Z) : gen bool :=
  let op1 := HW1 insn 9 4 in
  let op := INSN1 insn 4 in
  let coproc := INSN insn 11 8 in
  let vfp := Z.land coproc 0xe =? 0xa in
  if Z.land op1 0x30 =? 0x30 then dis_common_adv_simd_data_preocessing_insn true pc insn
  else if Z.land op1 0x30 =? 0x20 then
    if op then
      if vfp then dis_common_transfert_arm_core_and_extension_registers_insn (read_reg pc) pc insn
      else if has op1 1 then dis_t2_mrc pc insn else illegal_opcode pc
    else if vfp then dis_common_vfp_data_processing_insn pc insn
    else illegal_opcode pc
  else if vfp then
    if (Z.land op1 0x30 =? 0x10) || (Z.land op1 0x38 =? 0x08) || (Z.land op1 0x3a =? 0x02)
      then dis_common_extension_register_load_store_insn true (read_reg pc) pc insn
    else if Z.land op1 0x3e =? 0x4 then dis_t2_64_bits_transfert_between_arm_and_extension insn
    else illegal_opcode pc
  else illegal_opcode pc.

(** The groups of the second and of the third opcode. *)
Definition thumb2_op1_1 (insn op2 : Z) : gen bool :=
  if has op2 0x40 then dis_t2_coprocessor_insn insn
  else if has op2 0x60 then dis_t2_data_processing_shifted_register pc insn
  else if has op2 0x64 then dis_t2_ldrd_strd_A_ldrex_strex_A_table_branch insn
  else dis_t2_load_store_multiple insn.

Definition thumb2_op1_3 (insn op2 : Z) : gen bool :=
  if has op2 0x40 then dis_t2_coprocessor_insn insn
  else if Z.land op2 0x70 =? 0x20 then dis_t2_data_processing_register insn
  else if Z.land op2 0x78 =? 0x30 then dis_t2_mult_A_mult_acc_A_abs_diff insn
  else if Z.land op2 0x78 =? 0x38 then dis_t2_long_mult_A_long_mult_acc_A_div insn
  else if Z.land op2 0x67 =? 0x01 then dis_t2_ldr_byte_A_hints insn
  else if Z.land op2 0x67 =? 0x03 then dis_t2_ldr_halfword_A_unallocated_hints insn
  else if Z.land op2 0x67 =? 0x05 then dis_t2_ldr insn
  else if Z.land op2 0x67 =? 0x07 then illegal_opcode pc
  else if Z.land op2 0x71 =? 0x00 then dis_t2_str_single_data insn
  else if Z.land op2 0x71 =? 0x10 then
    _ ← dis_common_adv_simd_element_or_structure_load_store_insn pc insn; mret false
  else illegal_opcode pc.

Definition disassemble_thumb2_insn (insn : Z) : gen bool :=
  let op1 := HW1 insn 12 11 in
  let op2 := HW1 insn 10 4 in
  let op := INSN1 insn 15 in
  it_guard (pc + 4);;
  match op1 with
  | 1 => thumb2_op1_1 insn op2
  | 2 =>
      if op then dis_t2_branches_A_misc insn
      else if HW1b insn 9 then dis_t2_data_processing_plain_binary_immediate insn
      else dis_t2_data_processing_modified_immediate pc insn
  | 3 => thumb2_op1_3 insn op2
  | _ => illegal_opcode pc
  end.
End decode.

(** * The Thumb front end: blocks
      ([disassemble_thumb] and [disassemble_thumb_with_marker] of
      [src/src/target/arm/disassembler/thumb_disassembler.c]) *)

#[local] Open Scope c_scope.

Section block.
Context `{ArmHost}.
(** The host memory the code is read from, through [pc_ptr]. *)
Context (m : mem).

(** [context->pc]: the address of the instruction, odd. *)
Definition thumb_pc (pc_ptr : Z) : Z := wrap 32 (h_2_g pc_ptr + 1).

(** Whether the halfword starts an instruction of 32 bits. *)
Definition is_thumb2 (hw : Z) : bool :=
  (Z.shiftr hw 11 =? 0x1d) || (Z.shiftr hw 11 =? 0x1e) || (Z.shiftr hw 11 =? 0x1f).

(** [( *pc_ptr << 16) | *(pc_ptr+1)] *)
Definition thumb2_word (pc_ptr : Z) : Z :=
  Z.lor (Z.shiftl (load_mem IR_REG_16 m pc_ptr) 16) (load_mem IR_REG_16 m (wrap 64 (pc_ptr + 2))).

(** The instruction at [pc_ptr], and its size. *)
Definition thumb_at (pc_ptr : Z) : gen bool * Z :=
  let pc := thumb_pc pc_ptr in
  let hw := load_mem IR_REG_16 m pc_ptr in
  if is_thumb2 hw then (disassemble_thumb2_insn pc (thumb2_word pc_ptr), 4)
  else (disassemble_thumb1_insn pc hw, 2).

(** The last requests of a block that has no exit. *)
Definition thumb_exit_to (pc : Z) : gen bool := branch_const pc.

(** The loop of both functions, [n] turns before its end; [marker] is a request
    of its own before each instruction. *)
Fixpoint thumb_loop (marker : bool) (n : nat) (pc_offset pc_ptr : Z) : gen unit :=
  match n with
  | O => put_insn (thumb_exit_to (thumb_pc pc_ptr));; mret tt
  | S n =>
      let (insn, size) := thumb_at pc_ptr in
      inIt ← inItBlock;
      (if marker then request (CallMarker pc_offset) else mret tt);;
      isExit ← put_insn insn;
      (if inIt : bool then itAdvance else mret tt);;
      if isExit : bool then mret tt else thumb_loop marker n (pc_offset + size) (wrap 64 (pc_ptr + size))
  end.

(** [reg_itstate] is that of the guest when the block is translated; [None] when
    an assertion fails. *)
Definition thumb_block (marker : bool) (reg_itstate pc maxInsn : Z) : option (list irCall * bool) :=
  if Z.land pc 1 =? 1 then
    '(_, s) ← thumb_loop marker (Z.to_nat maxInsn) 0 (g_2_h (Z.land pc (Z.lnot 1)))
                         (mkGen (mkThumb reg_itstate false) []);
    Some (requests s, cleaned (front s))
  else None.

Definition disassemble_thumb : Z -> Z -> Z -> option (list irCall * bool) := thumb_block false.
Definition disassemble_thumb_with_marker : Z -> Z -> Z -> option (list irCall * bool) := thumb_block true.
End block.
