(* ===== verification/ThumbTyped.v ===== *)
(** * Thumb: every block is a session the builder accepts

    As for ARM, what the front end requests passes the builder's assertions
    whatever the instruction, but for one that makes the translator itself
    stop: a load of several registers that writes back a base it loads. *)

From S2P Require Import Prelude Ir Jitter Main IrRequests FrontGen FrontTyped Arm32Gen Arm32Vfp Arm32Decode Arm32Typed ThumbGen ThumbDis16 ThumbDis32 ThumbDecode.

#[local] Open Scope c_scope.

(** ** Shortcuts *)

Section shortcuts.
Context `{ArmHost} (pc : Z).
Abbreviation gives := (gives (S := thumb_front)).

Lemma thumb_gives_front_state Γ : gives any 0 front_state Γ.
Proof. intros st rs _. exists st, st, []. by rewrite app_nil_r. Qed.

Lemma thumb_gives_clean_caches Γ : gives any 0 clean_caches Γ.
Proof. by apply gives_modify. Qed.

Lemma thumb_gives_set_itstate it Γ : gives any 0 (set_itstate it) Γ.
Proof. by apply gives_modify. Qed.
#[local] Hint Resolve thumb_gives_front_state thumb_gives_set_itstate : gives.

Lemma thumb_gives_inItBlock Γ : gives any 0 inItBlock Γ.
Proof. gives. Qed.

Lemma thumb_gives_itAdvance Γ : gives any 0 itAdvance Γ.
Proof. gives. Qed.

Lemma thumb_gives_read_reg i Γ : gives (reg IR_REG_32) 1 (read_reg pc i) Γ.
Proof. gives. Qed.
#[local] Hint Resolve thumb_gives_read_reg : gives.

Lemma thumb_gives_reg_plus rn imm Γ : gives (reg IR_REG_32) 3 (reg_plus pc rn imm) Γ.
Proof. gives. Qed.

Lemma thumb_gives_reg_minus rn imm Γ : gives (reg IR_REG_32) 3 (reg_minus pc rn imm) Γ.
Proof. gives. Qed.

Lemma thumb_gives_reg_plus_reg rn rm Γ : gives (reg IR_REG_32) 3 (reg_plus_reg pc rn rm) Γ.
Proof. gives. Qed.

Lemma thumb_gives_reg_plus_shifted rn rm k Γ : gives (reg IR_REG_32) 5 (reg_plus_shifted pc rn rm k) Γ.
Proof. gives. Qed.

Lemma thumb_gives_mk_sco i rm k Γ t t' t'' :
  reg t i Γ -> reg t' rm Γ -> reg t'' k Γ -> gives (reg IR_REG_32) 7 (mk_sco pc i rm k) Γ.
Proof. gives. Qed.

Lemma thumb_gives_flags_from h p0 op1 op2 Γ t t' t'' :
  reg t p0 Γ -> reg t' op1 Γ -> reg t'' op2 Γ -> gives (reg IR_REG_32) 7 (flags_from pc h p0 op1 op2) Γ.
Proof. gives. Qed.
End shortcuts.
#[export] Hint Resolve thumb_gives_front_state thumb_gives_clean_caches thumb_gives_set_itstate thumb_gives_inItBlock
  thumb_gives_itAdvance thumb_gives_read_reg thumb_gives_reg_plus thumb_gives_reg_minus thumb_gives_reg_plus_reg
  thumb_gives_reg_plus_shifted thumb_gives_mk_sco thumb_gives_flags_from : gives.

(** ** Data processing with a modified operand *)

Section modified.
Context `{ArmHost} (pc insn : Z).
Abbreviation gives := (gives (S := thumb_front)).

(** Where [op1] is missing; [modified_result] does not use it there. *)
Definition op1_unused (opcode rd : Z) (s rn15 : bool) : Prop :=
  ((opcode = 2 \/ opcode = 3) /\ rn15 = true) \/
  ((opcode = 4 \/ opcode = 8 \/ opcode = 13) /\ (rd =? 15) = true /\ s = false).

Definition op1_for (unused : Prop) (o : option nat) (Γ : regTypes) : Prop :=
  opt IR_REG_32 o Γ /\ (o = None -> unused).

Lemma thumb_gives_modified_op1 opcode rd rn s Γ :
  gives (op1_for (op1_unused opcode rd s (rn =? 15))) 1 (modified_op1 pc opcode rd rn s) Γ.
Proof.
  assert (Hr : forall Γ, gives (op1_for (op1_unused opcode rd s (rn =? 15))) 1 (r ← read_reg pc rn; mret (Some r)) Γ).
  { intros Γ'. eapply gives_bind with (k2 := 0%nat); [apply thumb_gives_read_reg| |lia].
    intros. apply gives_ret. by split. }
  unfold modified_op1. destruct (((opcode =? 2) || (opcode =? 3)) && (rn =? 15)) eqn:E1.
  { apply gives_ret. split; [done|]. intros _. left. lia. }
  destruct s; [apply Hr|].
  destruct (((opcode =? 4) || (opcode =? 8) || (opcode =? 13)) && (rd =? 15)) eqn:E2; [|apply Hr].
  apply gives_ret. split; [done|]. intros _. right. split; [lia|]. split; [lia|done].
Qed.

(** The register of a result. *)
Definition dp_reg (r : dp_result) (Γ : regTypes) : Prop :=
  match r with Value r => reg IR_REG_32 r Γ | _ => True end.

Lemma thumb_gives_value k g Γ : gives (reg IR_REG_32) k g Γ -> gives dp_reg k (value g) Γ.
Proof.
  intros Hg. eapply gives_bind with (k2 := 0%nat); [exact Hg| |lia]. intros. by apply gives_ret.
Qed.

Lemma thumb_gives_modified_result opcode rd s op1 op2 rn15 Γ :
  reg IR_REG_32 op2 Γ -> opt IR_REG_32 op1 Γ -> (op1 = None -> op1_unused opcode rd s rn15) ->
  gives dp_reg 10 (modified_result opcode rd s op1 op2 rn15) Γ.
Proof.
  intros H2 H1 Hn. destruct op1 as [op1|].
  - clear Hn. unfold modified_result, or_compare, on_op1. cbn in H1.
    repeat case_match; first [by apply gives_ret|apply thumb_gives_value; gives].
  - destruct (Hn eq_refl) as [[[-> | ->] ->]|[[-> |[-> | ->]] [Erd ->]]]; cbn [modified_result];
      unfold or_compare; rewrite ?Erd; first [by apply gives_ret|apply thumb_gives_value; gives].
Qed.

Lemma thumb_gives_modified_flags opcode op1 op2 rn15 Γ :
  reg IR_REG_32 op2 Γ -> opt IR_REG_32 op1 Γ -> gives (reg IR_REG_32) 12 (modified_flags pc opcode op1 op2 rn15) Γ.
Proof. destruct op1; gives. Qed.

Lemma thumb_gives_mk_data_processing_modified op2 Γ :
  reg IR_REG_32 op2 Γ -> gives any 40 (mk_data_processing_modified pc insn op2) Γ.
Proof.
  intros H2. unfold mk_data_processing_modified.
  eapply gives_step; [apply thumb_gives_modified_op1|lia|]. intros op1 Γ1 Hp [H1 Hn]. keep_regs.
  eapply gives_step with (P1 := opt IR_REG_32) (k1 := 12%nat); [|lia|].
  { case_match; [|by apply gives_ret].
    eapply gives_bind with (k2 := 0%nat); [by apply thumb_gives_modified_flags| |lia]. intros. by apply gives_ret. }
  intros f Γ2 Hp2 Hf. keep_regs.
  eapply gives_step; [by apply thumb_gives_modified_result|lia|]. intros r Γ3 Hp3 Hr. keep_regs.
  destruct r; cbn [dp_reg] in Hr; destruct f; cbn [opt] in *; gives.
Qed.
End modified.
#[export] Hint Resolve thumb_gives_mk_data_processing_modified : gives.

(** ** Lists of registers *)

Section reglists.
Context `{ArmHost} (pc : Z).
Abbreviation gives := (gives (S := thumb_front)).

Lemma thumb_gives_store_multiple l start offset Γ :
  reg IR_REG_32 start Γ -> gives any (7 * length l) (store_multiple pc l start offset) Γ.
Proof.
  revert offset Γ. induction l as [|i l IH]; intros offset Γ Hs; [by apply gives_ret|].
  cbn [store_multiple length]. gives.
Qed.

Lemma thumb_gives_store_reglist reglist start offset Γ :
  reg IR_REG_32 start Γ -> gives any 112 (store_multiple pc (in_reglist reglist 16) start offset) Γ.
Proof.
  intros. eapply gives_mono; [by apply thumb_gives_store_multiple|done|].
  pose proof (arm_length_in_reglist reglist 16). lia.
Qed.

Lemma thumb_gives_store_reglist15 reglist start offset Γ :
  reg IR_REG_32 start Γ -> gives any 105 (store_multiple pc (in_reglist reglist 15) start offset) Γ.
Proof.
  intros. eapply gives_mono; [by apply thumb_gives_store_multiple|done|].
  pose proof (arm_length_in_reglist reglist 15). lia.
Qed.

Lemma thumb_gives_store_reglist8 reglist start offset Γ :
  reg IR_REG_32 start Γ -> gives any 56 (store_multiple pc (in_reglist reglist 8) start offset) Γ.
Proof.
  intros. eapply gives_mono; [by apply thumb_gives_store_multiple|done|].
  pose proof (arm_length_in_reglist reglist 8). lia.
Qed.

Lemma thumb_gives_load_reglist8 reglist start offset Γ :
  reg IR_REG_32 start Γ -> gives any 56 (load_multiple (in_reglist reglist 8) start offset) Γ.
Proof.
  intros. eapply gives_mono; [by apply arm_gives_load_multiple|done|].
  pose proof (arm_length_in_reglist reglist 8). lia.
Qed.
End reglists.
#[export] Hint Resolve thumb_gives_store_reglist thumb_gives_store_reglist15 thumb_gives_store_reglist8
  thumb_gives_load_reglist8 : gives.

(** ** Instructions of 16 bits *)

Section dis16.
Context `{ArmHost} (pc insn : Z).
Abbreviation gives := (gives (S := thumb_front)).

Lemma thumb_gives_dis_t1_shift Γ : gives any 40 (dis_t1_shift_A_add_A_substract_A_move_A_compare pc insn) Γ.
Proof. gives. Qed.

Lemma thumb_gives_dis_t1_data_processing Γ : gives any 40 (dis_t1_data_processing pc insn) Γ.
Proof. gives. Qed.

Lemma thumb_gives_dis_t1_special Γ : gives any 20 (dis_t1_special_data_A_branch_and_exchange pc insn) Γ.
Proof. gives. Qed.

Lemma thumb_gives_dis_t1_load_store_single Γ : gives any 20 (dis_t1_load_store_single_data_item pc insn) Γ.
Proof. gives. Qed.

Lemma thumb_gives_dis_t1_misc_16_bits Γ : gives any 120 (dis_t1_misc_16_bits pc insn) Γ.
Proof. gives. Qed.

Lemma thumb_gives_dis_t1_cond_branch_A_svc Γ : gives any 20 (dis_t1_cond_branch_A_svc pc insn) Γ.
Proof. gives. Qed.

Lemma thumb_gives_it_guard next Γ : gives any 16 (it_guard pc next) Γ.
Proof. gives. Qed.
#[local] Hint Resolve thumb_gives_dis_t1_shift thumb_gives_dis_t1_data_processing thumb_gives_dis_t1_special
  thumb_gives_dis_t1_load_store_single thumb_gives_dis_t1_misc_16_bits thumb_gives_dis_t1_cond_branch_A_svc
  thumb_gives_it_guard : gives.

Lemma thumb_gives_disassemble_thumb1_insn Γ : gives any 136 (disassemble_thumb1_insn pc insn) Γ.
Proof. gives. Qed.
End dis16.
#[export] Hint Resolve thumb_gives_it_guard thumb_gives_disassemble_thumb1_insn : gives.

(** ** Instructions of 32 bits *)

(** A load of several registers with write back of a base that it loads: the
    architecture leaves it unpredictable, and the translator asserts it away. *)
Definition ldm_writes_base (insn : Z) : bool :=
  let op2 := HW1 insn 10 4 in
  let rn := HW1 insn 3 0 in
  (HW1 insn 12 11 =? 1) && negb (has op2 0x40) && negb (has op2 0x60) && negb (has op2 0x64) &&
  ((HW1 insn 8 7 =? 1) || (HW1 insn 8 7 =? 2)) && HW1b insn 4 && negb (rn =? 15) && HW1b insn 5 &&
  negb (Z.land (Z.shiftr (Z.shiftl (INSN insn 15 14) 14 + INSN insn 12 0) rn) 1 =? 0).

Section dis32.
Context `{ArmHost} (pc insn : Z).
Abbreviation gives := (gives (S := thumb_front)).

Lemma thumb_gives_assert b {A} (P : A -> regTypes -> Prop) k g Γ :
  b = true -> gives P k g Γ -> gives P k (c_assert b;; g) Γ.
Proof. by intros ->. Qed.

Lemma thumb_gives_dis_t2_load_multiple Γ :
  ((HW1 insn 3 0 =? 15) = false -> negb (HW1b insn 5) ||
     (Z.land (Z.shiftr (Z.shiftl (INSN insn 15 14) 14 + INSN insn 12 0) (HW1 insn 3 0)) 1 =? 0) = true) ->
  gives any 120 (dis_t2_load_multiple pc insn) Γ.
Proof.
  intros Hw. unfold dis_t2_load_multiple, t2_rn. cbv zeta. unfold assert_legal at 1.
  destruct (Z.eqb (HW1 insn 3 0) 15) eqn:E; cbn [negb]; [gives|]. apply thumb_gives_assert; [by apply Hw|]. gives.
Qed.

Lemma thumb_gives_dis_t2_store_multiple Γ : gives any 120 (dis_t2_store_multiple pc insn) Γ.
Proof. gives. Qed.

Lemma thumb_gives_dis_t2_data_processing_shifted_register Γ :
  gives any 60 (dis_t2_data_processing_shifted_register pc insn) Γ.
Proof. gives. Qed.

Lemma thumb_gives_dis_t2_ldrd_group Γ :
  gives any 40 (dis_t2_ldrd_strd_A_ldrex_strex_A_table_branch pc insn) Γ.
Proof. gives. Qed.

Lemma thumb_gives_dis_t2_coprocessor_insn Γ : gives any 60 (dis_t2_coprocessor_insn pc insn) Γ.
Proof. gives. Qed.
#[local] Hint Resolve thumb_gives_dis_t2_store_multiple
  thumb_gives_dis_t2_data_processing_shifted_register thumb_gives_dis_t2_ldrd_group
  thumb_gives_dis_t2_coprocessor_insn : gives.

Lemma thumb_gives_dis_t2_branches_A_misc Γ : gives any 40 (dis_t2_branches_A_misc pc insn) Γ.
Proof. gives. Qed.

Lemma thumb_gives_dis_t2_plain_immediate Γ : gives any 40 (dis_t2_data_processing_plain_binary_immediate pc insn) Γ.
Proof. gives. Qed.

Lemma thumb_gives_dis_t2_modified_immediate Γ : gives any 60 (dis_t2_data_processing_modified_immediate pc insn) Γ.
Proof. gives. Qed.

Lemma thumb_gives_dis_t2_data_processing_register Γ : gives any 60 (dis_t2_data_processing_register pc insn) Γ.
Proof. gives. Qed.

Lemma thumb_gives_dis_t2_ldr Γ : gives any 40 (dis_t2_ldr pc insn) Γ.
Proof. gives. Qed.

Lemma thumb_gives_dis_t2_ldr_byte Γ : gives any 40 (dis_t2_ldr_byte_A_hints pc insn) Γ.
Proof. gives. Qed.

Lemma thumb_gives_dis_t2_ldr_half Γ : gives any 40 (dis_t2_ldr_halfword_A_unallocated_hints pc insn) Γ.
Proof. gives. Qed.

Lemma thumb_gives_dis_t2_str_imm8 Γ : gives any 40 (dis_t2_str_imm8 pc insn) Γ.
Proof. unfold dis_t2_str_imm8. cbv zeta. destruct (INSN1 insn 10); gives. Qed.
#[local] Hint Resolve thumb_gives_dis_t2_str_imm8 : gives.

Lemma thumb_gives_dis_t2_str_single_data Γ : gives any 40 (dis_t2_str_single_data pc insn) Γ.
Proof. gives. Qed.

Lemma thumb_gives_dis_t2_long_mult Γ : gives any 40 (dis_t2_long_mult_A_long_mult_acc_A_div pc insn) Γ.
Proof. gives. Qed.
#[local] Hint Resolve thumb_gives_dis_t2_branches_A_misc thumb_gives_dis_t2_plain_immediate
  thumb_gives_dis_t2_modified_immediate thumb_gives_dis_t2_data_processing_register thumb_gives_dis_t2_ldr
  thumb_gives_dis_t2_ldr_byte thumb_gives_dis_t2_ldr_half thumb_gives_dis_t2_str_single_data
  thumb_gives_dis_t2_long_mult : gives.

Lemma thumb_gives_thumb2_op1_3 op2 Γ : gives any 120 (thumb2_op1_3 pc insn op2) Γ.
Proof. gives. Qed.
#[local] Hint Resolve thumb_gives_thumb2_op1_3 : gives.

Lemma thumb_gives_thumb2_op1_1 Γ :
  HW1 insn 12 11 = 1 -> ldm_writes_base insn = false -> gives any 120 (thumb2_op1_1 pc insn (HW1 insn 10 4)) Γ.
Proof.
  intros H1 Hl. unfold ldm_writes_base in Hl. rewrite H1 in Hl. unfold thumb2_op1_1.
  destruct (has (HW1 insn 10 4) 0x40); [gives|]. destruct (has (HW1 insn 10 4) 0x60); [gives|].
  destruct (has (HW1 insn 10 4) 0x64); [gives|]. unfold dis_t2_load_store_multiple.
  assert (Hm : HW1b insn 4 = true -> HW1 insn 8 7 = 1 \/ HW1 insn 8 7 = 2 ->
               gives any 120 (dis_t2_load_multiple pc insn) Γ).
  { intros H4 H8. apply thumb_gives_dis_t2_load_multiple. intros H15. rewrite H4, H15 in Hl.
    destruct H8 as [H8|H8]; rewrite H8 in Hl; cbn [Z.eqb Pos.eqb andb orb negb] in Hl;
      destruct (HW1b insn 5); cbn [andb orb negb] in *; try done; by apply negb_false_iff in Hl. }
  cbv zeta. destruct (HW1b insn 4) eqn:E4.
  - destruct (HW1 insn 8 7) as [|[p|[p|p|]|]|p] eqn:E8; try (by gives); try (by apply Hm; auto).
    all: destruct p; try (by gives); apply Hm; auto.
  - gives.
Qed.
#[local] Hint Resolve thumb_gives_thumb2_op1_1 : gives.

Lemma thumb_gives_disassemble_thumb2_insn Γ :
  ldm_writes_base insn = false -> gives any 136 (disassemble_thumb2_insn pc insn) Γ.
Proof.
  intros Hl. unfold disassemble_thumb2_insn. cbv zeta. destruct (HW1 insn 12 11 =? 1) eqn:E.
  - apply Z.eqb_eq in E. rewrite E. gives.
  - gives.
Qed.
End dis32.
#[export] Hint Resolve thumb_gives_disassemble_thumb2_insn : gives.

(** ** The instruction that stops the translator *)

(** C40. Translating an instruction of 32 bits fails exactly where it loads
    several registers and writes back a base that is one of them: the only
    assertion a Thumb instruction can violate. *)
Theorem thumb2_stops_iff `{ArmHost} pc insn st :
  disassemble_thumb2_insn pc insn (mkGen st []) = None <-> ldm_writes_base insn = true.
Proof.
  split.
  - intros Hnone. destruct (ldm_writes_base insn) eqn:E; [done|].
    destruct (thumb_gives_disassemble_thumb2_insn pc insn [] E st [] eq_refl) as (a & st' & new & Hs & _).
    by rewrite Hs in Hnone.
  - intros Hl. unfold ldm_writes_base in Hl. cbv zeta in Hl.
    repeat match goal with H : _ && _ = true |- _ => apply andb_true_iff in H as [? ?] end.
    repeat match goal with H : negb _ = true |- _ => apply negb_true_iff in H end.
    match goal with H : (HW1 insn 12 11 =? 1) = true |- _ => apply Z.eqb_eq in H; rename H into Hop end.
    destruct (thumb_gives_it_guard pc (pc + 4) [] st [] eq_refl) as ([] & st' & new & Hg & _).
    unfold disassemble_thumb2_insn. rewrite Hop. cbv zeta. rewrite (bind_Some_eq _ _ _ _ _ Hg).
    unfold thumb2_op1_1, dis_t2_load_store_multiple.
    repeat match goal with H : has _ _ = false |- _ => rewrite H; clear H end. cbv zeta.
    assert (Hm : dis_t2_load_multiple pc insn (mkGen st' ([] ++ new)) = None).
    { unfold dis_t2_load_multiple, t2_rn. cbv zeta.
      repeat match goal with H : _ = true |- _ => rewrite H; clear H | H : _ = false |- _ => rewrite H; clear H end.
      reflexivity. }
    match goal with H : _ || _ = true |- _ => apply orb_true_iff in H; destruct H as [H|H]; apply Z.eqb_eq in H; rewrite H end;
      match goal with H : HW1b insn 4 = true |- _ => rewrite H end; exact Hm.
Qed.

(** ** Blocks *)

Section block.
Context `{ArmHost} (m : mem).
Abbreviation gives := (gives (S := thumb_front)).

(** The guest's memory holds no instruction of that kind. *)
Definition no_ldm_writes_base : Prop := forall p, ldm_writes_base (thumb2_word m p) = false.

Lemma thumb_gives_thumb_at p Γ : no_ldm_writes_base -> gives any 136 (thumb_at m p).1 Γ.
Proof. intros Hm. pose proof (Hm p). unfold thumb_at. cbv zeta. destruct (is_thumb2 _); cbn [fst]; gives. Qed.

Lemma thumb_gives_thumb_exit_to pc Γ : gives any 4 (thumb_exit_to pc) Γ.
Proof. gives. Qed.
#[local] Hint Resolve thumb_gives_thumb_at thumb_gives_thumb_exit_to : gives.

Lemma thumb_gives_thumb_loop marker n off p Γ :
  no_ldm_writes_base -> gives any (137 * n + 4) (thumb_loop m marker n off p) Γ.
Proof.
  intros Hm. revert off p Γ. induction n as [|n IH]; intros off p Γ; cbn [thumb_loop]; [gives|].
  pose proof (fun Γ => thumb_gives_thumb_at p Γ Hm) as Hat. destruct (thumb_at m p) as [insn size]. cbn [fst] in Hat.
  gives.
Qed.
End block.

(** C11. Whatever the guest's memory holds, but for a load of several registers
    that writes back a base it loads, and whatever the state of the IT block, a
    block of Thumb code is translated, and the builder takes the whole session,
    provided its pools have the room for 137 objects an instruction and 4 for
    the last exit. *)
Theorem thumb_blocks_accepted `{ArmHost} m marker itstate pc maxInsn j :
  Z.land pc 1 = 1 -> no_ldm_writes_base m -> 0 <= maxInsn -> room_for (137 * maxInsn + 4) j ->
  exists cs st j', thumb_block m marker itstate pc maxInsn = Some (cs, st) /\
    session_valid cs (resetJitter j) = true /\
    irAlloc_session cs (resetJitter j) = Some (tt, j') /\ builder_wf j'.
Proof.
  intros Hpc Hm Hn Hroom. unfold thumb_block. rewrite Hpc.
  destruct (gives_accepted (thumb_loop m marker (Z.to_nat maxInsn) 0 (g_2_h (Z.land pc (Z.lnot 1))))
              (137 * Z.to_nat maxInsn + 4) (mkThumb itstate false) j) as (a & s & j' & E & Hv & Hs & Hwf).
  - by apply thumb_gives_thumb_loop.
  - replace (Z.of_nat (137 * Z.to_nat maxInsn + 4)) with (137 * maxInsn + 4) by lia. exact Hroom.
  - cbn [Z.eqb Pos.eqb]. rewrite E. cbn. eauto 10.
Qed.

(** The offset is that of [arm_mmap.c]. *)
#[local] Instance demo_host : ArmHost := {|
  arm_helper_address _ := 0x70000000;
  mmap_offset := 2 ^ 20
|}.

(** Memory that holds one byte: [0xc8c8] is [ldmia r0!, {r3, r6, r7}]. *)
Definition byte_everywhere (b : Z) : mem := fun _ => b.

Lemma thumb_blocks_accepted_witness :
  Z.land 0x8001 1 = 1 /\ no_ldm_writes_base (byte_everywhere 0xc8) /\ 0 <= 40 /\ room_for (137 * 40 + 4) roomy /\
  exists cs st j', thumb_block (byte_everywhere 0xc8) false 0 0x8001 40 = Some (cs, st) /\
    session_valid cs (resetJitter roomy) = true /\ irAlloc_session cs (resetJitter roomy) = Some (tt, j') /\
    builder_wf j'.
Proof.
  assert (Hm : no_ldm_writes_base (byte_everywhere 0xc8)) by (intros p; vm_compute; reflexivity).
  assert (Hroom : room_for (137 * 40 + 4) roomy) by (vm_compute; split; discriminate).
  split; [reflexivity|]. split; [exact Hm|]. split; [lia|]. split; [exact Hroom|].
  exact (thumb_blocks_accepted (byte_everywhere 0xc8) false 0 0x8001 40 roomy eq_refl Hm ltac:(lia) Hroom).
Defined.

(** [ldmia.w r1!, {r0, r1}] stops the translator, in whatever block it is. *)
Example ldm_writes_base_r1 : ldm_writes_base 0xe8b10003 = true.
Proof. reflexivity. Qed.

(** What the builder of a profile does with the block at [pc]. *)
Definition thumb_build (p : memory_profile) (m : mem) (pc : Z) : option jitter :=
  '(cs, _) ← disassemble_thumb m 0 pc (max_insn (cache_memory_config p));
  j ← createJitter (jitter_context_size (cache_memory_config p));
  '(_, j) ← irAlloc_session cs j; Some j.

(** [ldmia r0, {r0-r7}] everywhere stops the builder, with each of the profiles. *)
Theorem thumb_ldm_fills_pools p : thumb_build p (filled 0xc8ffc8ff) 0x8001 = None.
Proof. destruct p; vm_compute; reflexivity. Qed.
