(* ===== verification/ThumbIt.v ===== *)
(** * Thumb: the state of the IT block
      ([src/src/target/arm/disassembler/thumb_disassembler.c])

    A block of one to four conditional instructions follows [it].  The
    translator keeps the state of that block, and the guest has it too, in
    [reg_itstate], where the next translation finds it.  Here is that the state
    is the architecture's, and that both agree wherever a block can be left. *)

From S2P Require Import Prelude Ir Jitter IrRequests FrontGen FrontTyped ArmPseudo Arm32Gen Arm32Vfp Arm32Decode ThumbGen ThumbDis16 ThumbDis32 ThumbDecode.

#[local] Open Scope c_scope.

(** ** The conditions of the instructions of a block *)

(** What the architecture says of [it] with a condition and a mask: the lowest
    bit set of the mask ends the block, and each bit above it is the low bit of
    the condition of an instruction after the first. *)
Fixpoint it_block (n : nat) (firstcond mask : Z) : list Z :=
  match n with
  | O => []
  | S n =>
      if Z.land mask 0xf =? 0x8 then []
      else Z.lor (Z.land firstcond 0xe) (Z.land (Z.shiftr mask 3) 1)
           :: it_block n firstcond (Z.land (Z.shiftl mask 1) 0xf)
  end.

Definition it_conditions (firstcond mask : Z) : list Z := firstcond :: it_block 3 firstcond mask.

(** The conditions that the translator gives to the instructions after [it],
    until its state says that the block is over. *)
Fixpoint it_walk (n : nat) (itstate : Z) : list Z :=
  match n with
  | O => []
  | S n => if in_it itstate then Z.shiftr itstate 4 :: it_walk n (next_it itstate) else []
  end.

Lemma it_walk_all :
  forallb (fun itstate => bool_decide (it_walk 5 itstate = it_conditions (Z.shiftr itstate 4) (Z.land itstate 0xf)))
          (filter (fun it => Z.land it 0xf ≠ 0) (seqZ 0 256)) = true.
Proof. vm_compute. reflexivity. Qed.

(** C13. After [it], whatever its condition and its mask, the translator guards
    the following instructions by the conditions the architecture gives them, no
    more of them and no fewer. *)
Theorem it_walk_conditions itstate :
  0 <= itstate < 256 -> Z.land itstate 0xf <> 0 ->
  it_walk 5 itstate = it_conditions (Z.shiftr itstate 4) (Z.land itstate 0xf).
Proof.
  intros Hr Hm. pose proof it_walk_all as H. rewrite forallb_forall in H.
  refine (bool_decide_eq_true_1 _ (H itstate _)). apply list_elem_of_In, list_elem_of_filter.
  split; [exact Hm|]. apply elem_of_seqZ. lia.
Qed.

Lemma it_walk_conditions_witness :
  0 <= 0x0c < 256 /\ Z.land 0x0c 0xf <> 0 /\ it_walk 5 0x0c = [0; 1].
Proof.
  split; [lia|]. split; [discriminate|]. exact (it_walk_conditions 0x0c ltac:(lia) ltac:(discriminate)).
Defined.

(** ** What is left alone *)

(** A request that does not write [reg_itstate]. *)
Definition no_it_write (c : irCall) : bool :=
  match c with CallWriteContext _ _ off => negb (off =? off_reg_itstate) | _ => true end.

(** [g] leaves the state of the block alone, the translator's and the guest's. *)
Definition quiet {A} (g : gen A) : Prop := forall s a s', g s = Some (a, s') ->
  disa_itstate (front s') = disa_itstate (front s) /\
  exists new, requests s' = requests s ++ new /\ Forall (fun c => no_it_write c = true) new.

Lemma quiet_ret {A} (a : A) : quiet (mret a).
Proof. intros s a' s' [= <- <-]. split; [done|]. exists []. by rewrite app_nil_r. Qed.

Lemma quiet_bind {A B} (g : gen A) (f : A -> gen B) : quiet g -> (forall a, quiet (f a)) -> quiet (g ≫= f).
Proof.
  intros Hg Hf s b s' E. apply bind_Some_inv in E as (a & s1 & E1 & E2).
  destruct (Hg _ _ _ E1) as (F1 & new1 & R1 & W1). destruct (Hf _ _ _ _ E2) as (F2 & new2 & R2 & W2).
  split; [congruence|]. exists (new1 ++ new2). rewrite R2, R1, app_assoc. split; [done|]. by apply Forall_app.
Qed.

Lemma quiet_request c : no_it_write c = true -> quiet (request c).
Proof. intros Hc s a s' [= _ <-]. split; [done|]. exists [c]. auto. Qed.

Lemma quiet_request_reg c : no_it_write c = true -> quiet (request_reg c).
Proof. intros Hc s a s' [= _ <-]. split; [done|]. exists [c]. auto. Qed.

Lemma quiet_fail {A} : quiet (fail_state : gen A).
Proof. by intros s a s' E. Qed.

Lemma quiet_assert b : quiet (c_assert b).
Proof. destruct b; [apply quiet_ret|apply quiet_fail]. Qed.

Lemma quiet_front_state : quiet front_state.
Proof. intros s a s' [= <- <-]. split; [done|]. exists []. by rewrite app_nil_r. Qed.

Lemma quiet_clean_caches : quiet clean_caches.
Proof. intros s a s' [= <- <-]. split; [done|]. exists []. by rewrite app_nil_r. Qed.

(** ** Numbers of registers *)

(** No register is at [reg_itstate]. *)
Ltac insn_ranges :=
  repeat match goal with
  | |- context [INSN ?i ?m ?l] =>
      let H := fresh in
      pose proof (INSN_range i m l ltac:(lia)) as H;
      let v := eval vm_compute in (2 ^ (m - l + 1)) in change (2 ^ (m - l + 1)) with v in H;
      generalize dependent (INSN i m l); intros
  end.

Lemma lor_top_3 a b : 0 <= a < 2 -> 0 <= b < 8 -> 0 <= Z.lor (Z.shiftl a 3) b < 16.
Proof.
  intros Ha Hb. assert (a = 0 \/ a = 1) as [-> | ->] by lia;
    assert (b = 0 \/ b = 1 \/ b = 2 \/ b = 3 \/ b = 4 \/ b = 5 \/ b = 6 \/ b = 7) as Hc by lia;
    repeat destruct Hc as [-> | Hc]; subst; vm_compute; split; congruence.
Qed.

Ltac not_itstate :=
  unfold no_it_write, off_r, off_reg_itstate, off_e_s, off_e_d, off_cpsr, off_helper_pc, off_shifter_carry_out, off_c13_tls2,
    t1_rd, t1_rn, t1_rm, t1_rdn, t2_rd, t2_rt, t2_rn, t2_rm, HW1, d_index, s_index, f_d, f_n, f_m;
  apply negb_true_iff, Z.eqb_neq;
  first [ lia
        | insn_ranges; rewrite ?Z.shiftl_mul_pow2 by lia; lia
        | insn_ranges; match goal with |- context [Z.lor (Z.shiftl ?a 3) ?b] => pose proof (lor_top_3 a b ltac:(lia) ltac:(lia)); lia end
        | insn_ranges;
          match goal with |- context [Z.lor (Z.shiftl ?a ?n) ?b] =>
            assert (0 <= Z.lor (Z.shiftl a n) b) by (apply Z.lor_nonneg; split; [apply Z.shiftl_nonneg|]; lia); lia
          end ].

Create HintDb quiet discriminated.
#[export] Hint Constants Opaque : quiet.
#[export] Hint Resolve quiet_ret quiet_fail quiet_assert quiet_front_state quiet_clean_caches : quiet.

Ltac quiet_one :=
  cbv beta zeta iota;
  lazymatch goal with
  | |- quiet (_ ≫= _) => apply quiet_bind; [|intros ?]
  | |- quiet (mret _) => apply quiet_ret
  | |- quiet (match ?x with _ => _ end) => destruct x
  | |- quiet (request_reg _) => apply quiet_request_reg; first [reflexivity|not_itstate]
  | |- quiet (request _) => apply quiet_request; first [reflexivity|not_itstate]
  | |- quiet ?g => first [ solve [eauto 2 with quiet] | unfold_head g ]
  end.
Ltac quiet := intros; repeat quiet_one.

Section quiet.
Context `{ArmHost} (pc insn : Z).

Lemma quiet_read_reg i : quiet (read_reg pc i).
Proof. quiet. Qed.
Lemma quiet_mk_8 v : quiet (mk_8 v).
Proof. quiet. Qed.
Lemma quiet_mk_32 v : quiet (mk_32 v).
Proof. quiet. Qed.
Lemma quiet_mk_64 v : quiet (mk_64 v).
Proof. quiet. Qed.
Lemma quiet_mk_helper h : quiet (mk_helper h).
Proof. quiet. Qed.
Lemma quiet_op_32 k a b : quiet (op_32 k a b).
Proof. quiet. Qed.
Lemma quiet_read_cpsr : quiet read_cpsr.
Proof. quiet. Qed.
Lemma quiet_write_cpsr r : quiet (write_cpsr r).
Proof. quiet. Qed.
Lemma quiet_mk_call w a ps : quiet (mk_call pc w a ps).
Proof. quiet. Qed.
Lemma quiet_mk_call_void a ps : quiet (mk_call_void pc a ps).
Proof. quiet. Qed.
#[local] Hint Resolve quiet_read_reg quiet_mk_8 quiet_mk_32 quiet_mk_64 quiet_mk_helper quiet_op_32 quiet_read_cpsr
  quiet_write_cpsr quiet_mk_call quiet_mk_call_void : quiet.

Lemma quiet_illegal_opcode : quiet (illegal_opcode pc).
Proof. quiet. Qed.
Lemma quiet_branch_const target : quiet (branch_const target).
Proof. quiet. Qed.
#[local] Hint Resolve quiet_illegal_opcode quiet_branch_const : quiet.

Lemma quiet_store_multiple l start offset : quiet (store_multiple pc l start offset).
Proof. revert offset. induction l as [|i l IH]; intros offset; [apply quiet_ret|]. cbn [store_multiple]. quiet. Qed.

Lemma quiet_load_multiple l start offset :
  Forall (fun i => 0 <= i < 16) l -> quiet (load_multiple l start offset : gen Z).
Proof.
  intros Hl. revert offset. induction Hl as [|i l Hi _ IH]; intros offset; [apply quiet_ret|]. cbn [load_multiple]. quiet.
Qed.

Lemma in_reglist_range reglist n : (n <= 16)%nat -> Forall (fun i => 0 <= i < 16) (in_reglist reglist n).
Proof.
  intros Hn. apply Forall_forall. unfold in_reglist. intros x [_ Hx]%list_elem_of_filter.
  apply list_elem_of_fmap in Hx as (k & -> & Hk). apply elem_of_seq in Hk. lia.
Qed.

Lemma quiet_load_reglist reglist n start offset :
  (n <= 16)%nat -> quiet (load_multiple (in_reglist reglist n) start offset : gen Z).
Proof. intros Hn. by apply quiet_load_multiple, in_reglist_range. Qed.
#[local] Hint Resolve quiet_store_multiple : quiet.
#[local] Hint Extern 1 (quiet (load_multiple _ _ _)) => apply quiet_load_reglist; lia : quiet.

(** ** Instructions *)

(** [it]: the only instruction that changes the state itself. *)
Definition is_it (insn : Z) : bool := (INSN insn 15 8 =? 0xbf) && negb (INSN insn 3 0 =? 0).

Lemma quiet_dis_t1_shift : quiet (dis_t1_shift_A_add_A_substract_A_move_A_compare pc insn).
Proof. quiet. Qed.
Lemma quiet_dis_t1_data_processing : quiet (dis_t1_data_processing pc insn).
Proof. quiet. Qed.
Lemma quiet_dis_t1_special : quiet (dis_t1_special_data_A_branch_and_exchange pc insn).
Proof. quiet. Qed.
Lemma quiet_dis_t1_load_store_single : quiet (dis_t1_load_store_single_data_item pc insn).
Proof. quiet. Qed.
Lemma quiet_dis_t1_cond_branch_A_svc : quiet (dis_t1_cond_branch_A_svc pc insn).
Proof. quiet. Qed.

Lemma quiet_dis_t1_itt_A_hints : INSN insn 3 0 = 0 -> quiet (dis_t1_itt_A_hints insn).
Proof. intros E. unfold dis_t1_itt_A_hints. rewrite E. apply quiet_ret. Qed.

Lemma quiet_dis_t1_misc_16_bits :
  within 120 127 (INSN insn 11 5) && negb (INSN insn 3 0 =? 0) = false -> quiet (dis_t1_misc_16_bits pc insn).
Proof.
  intros Hit. unfold dis_t1_misc_16_bits. cbv zeta. destruct (within 120 127 (INSN insn 11 5)).
  - apply negb_false_iff, Z.eqb_eq in Hit. pose proof (quiet_dis_t1_itt_A_hints Hit) as Hi. clear Hit. quiet.
  - quiet.
Qed.
#[local] Hint Resolve quiet_dis_t1_shift quiet_dis_t1_data_processing quiet_dis_t1_special
  quiet_dis_t1_load_store_single quiet_dis_t1_cond_branch_A_svc : quiet.

Lemma quiet_mk_data_processing_modified op2 : quiet (mk_data_processing_modified pc insn op2).
Proof. quiet. Qed.
#[local] Hint Resolve quiet_mk_data_processing_modified : quiet.

Lemma quiet_dis_t2_load_store_multiple : quiet (dis_t2_load_store_multiple pc insn).
Proof. quiet. Qed.
Lemma quiet_dis_t2_data_processing_shifted_register : quiet (dis_t2_data_processing_shifted_register pc insn).
Proof. quiet. Qed.
Lemma quiet_dis_t2_ldrd_group : quiet (dis_t2_ldrd_strd_A_ldrex_strex_A_table_branch pc insn).
Proof. quiet. Qed.
Lemma quiet_dis_t2_coprocessor_insn : quiet (dis_t2_coprocessor_insn pc insn).
Proof. quiet. Qed.
#[local] Hint Resolve quiet_dis_t2_load_store_multiple quiet_dis_t2_data_processing_shifted_register
  quiet_dis_t2_ldrd_group quiet_dis_t2_coprocessor_insn : quiet.

Lemma quiet_thumb2_op1_1 op2 : quiet (thumb2_op1_1 pc insn op2).
Proof. quiet. Qed.
Lemma quiet_thumb2_op1_3 op2 : quiet (thumb2_op1_3 pc insn op2).
Proof. quiet. Qed.
Lemma quiet_dis_t2_branches_A_misc : quiet (dis_t2_branches_A_misc pc insn).
Proof. quiet. Qed.
Lemma quiet_dis_t2_plain_immediate : quiet (dis_t2_data_processing_plain_binary_immediate pc insn).
Proof. quiet. Qed.
Lemma quiet_dis_t2_modified_immediate : quiet (dis_t2_data_processing_modified_immediate pc insn).
Proof. quiet. Qed.
#[local] Hint Resolve quiet_thumb2_op1_1 quiet_thumb2_op1_3 quiet_dis_t2_branches_A_misc quiet_dis_t2_plain_immediate
  quiet_dis_t2_modified_immediate : quiet.

(** What follows the guard of an instruction: [it] is all that is not quiet. *)
Definition insn_quiet (g : gen bool) (next : Z) : Prop :=
  exists body, g = (it_guard pc next;; body) /\ quiet body.

Lemma quiet_disassemble_thumb1_insn : is_it insn = false -> insn_quiet (disassemble_thumb1_insn pc insn) (pc + 2).
Proof.
  intros Hit. eexists. split; [reflexivity|]. destruct (within 44 47 (INSN insn 15 10)) eqn:E.
  - assert (Hmisc : quiet (dis_t1_misc_16_bits pc insn)).
    { apply quiet_dis_t1_misc_16_bits. destruct (within 120 127 (INSN insn 11 5)) eqn:E'; [|done].
      unfold is_it, within in *. rewrite !INSN_eq in * by lia.
      destruct ((insn / 2 ^ 8) mod 2 ^ (15 - 8 + 1) =? 0xbf) eqn:E2; [exact Hit|]. exfalso.
      change (2 ^ 8) with 256 in *. change (2 ^ 10) with 1024 in *. change (2 ^ 5) with 32 in *.
      change (2 ^ (15 - 8 + 1)) with 256 in *. change (2 ^ (15 - 10 + 1)) with 64 in *.
      change (2 ^ (11 - 5 + 1)) with 128 in *. clear Hit. Z.div_mod_to_equations. lia. }
    quiet.
  - quiet.
Qed.

Lemma quiet_disassemble_thumb2_insn : insn_quiet (disassemble_thumb2_insn pc insn) (pc + 4).
Proof. eexists. split; [reflexivity|]. quiet. Qed.
End quiet.

(** ** The guest's state *)

(** A request that may leave the block. *)
Definition leaves_block (c : irCall) : bool :=
  match c with CallExit _ | CallExitCond _ _ => true | _ => false end.

(** The values of [reg_itstate] at each exit of a session and at its end, given
    the registers that hold constants and the value before it. *)
Fixpoint it_values (consts : list (option Z)) (v : option Z) (cs : list irCall) : list (option Z) :=
  match cs with
  | [] => [v]
  | c :: cs =>
      (if leaves_block c then [v] else []) ++
      it_values (consts ++ (if returns_reg c then [match c with CallMovConst _ x => Some x | _ => None end] else []))
                (match c with
                 | CallWriteContext _ src off => if off =? off_reg_itstate then consts !! src ≫= id else v
                 | _ => v
                 end) cs
  end.

Lemma it_values_quiet consts v cs :
  Forall (fun c => no_it_write c = true) cs -> Forall (eq v) (it_values consts v cs).
Proof.
  intros Hcs. revert consts. induction Hcs as [|c cs Hc _ IH]; intros consts; [by repeat constructor|].
  cbn [it_values]. apply Forall_app. split; [destruct (leaves_block c); by repeat constructor|].
  destruct c; try apply IH. cbn [no_it_write] in Hc. apply negb_true_iff in Hc. rewrite Hc. apply IH.
Qed.

(** [ITAdvance()] of the architecture: the low five bits shift, the block ends
    with the last of its low three. *)
Definition it_advance (itstate : Z) : Z :=
  if itstate mod 8 =? 0 then 0 else itstate / 32 * 32 + (itstate * 2) mod 32.

(** The state after an instruction, as the architecture has it: [wide] for one of
    32 bits. *)
Definition it_after (wide : bool) (insn itstate : Z) : Z :=
  if negb (itstate mod 16 =? 0) then it_advance itstate
  else if negb wide && is_it insn then INSN insn 7 0 else itstate.

Lemma it_states_all :
  forallb (fun it => (wrap 32 (next_it it) =? next_it it) && (next_it it =? it_advance it) &&
                     Bool.eqb (in_it it) (negb (it mod 16 =? 0))) (seqZ 0 256) = true.
Proof. vm_compute. reflexivity. Qed.

Lemma it_states it :
  0 <= it < 256 -> wrap 32 (next_it it) = next_it it /\ next_it it = it_advance it /\ in_it it = negb (it mod 16 =? 0).
Proof.
  intros Hit. pose proof it_states_all as H. rewrite forallb_forall in H.
  specialize (H it ltac:(apply list_elem_of_In, elem_of_seqZ; lia)).
  apply andb_true_iff in H as [[H1 H2]%andb_true_iff H3].
  split; [lia|]. split; [lia|]. by apply eqb_prop.
Qed.

(** The requests of the guard: one exit, after the write of the next state. *)
Definition guard_requests `{ArmHost} (pc next it : Z) : list irCall :=
  [ CallMovConst IR_REG_32 (wrap 32 (Z.shiftr it 4)); CallReadContext IR_REG_32 off_cpsr;
    CallMovConst IR_REG_64 (wrap 64 (arm_helper_address arm_hlp_compute_flags_pred));
    CallMovConst IR_REG_32 (wrap 32 pc); CallWriteContext IR_REG_32 3 off_helper_pc;
    CallCall IR_REG_32 2 [Some 0%nat; Some 1%nat; None; None];
    CallMovConst IR_REG_32 (wrap 32 0); CallWriteContext IR_REG_32 5 off_helper_pc;
    CallMovConst IR_REG_32 (wrap 32 (next_it it)); CallWriteContext IR_REG_32 6 off_reg_itstate;
    CallMovConst IR_REG_32 (wrap 32 next); CallWriteContext IR_REG_32 7 (off_r 15);
    CallMovConst IR_REG_64 (wrap 64 (wrap 32 next)); CallExitCond 8 (Some 4%nat) ].

Lemma it_guard_inside `{ArmHost} pc next it cl :
  in_it it = true ->
  it_guard pc next (mkGen (mkThumb it cl) []) = Some (tt, mkGen (mkThumb it cl) (guard_requests pc next it)).
Proof.
  intros Hin. unfold it_guard. rewrite (bind_Some_eq _ _ _ true (mkGen (mkThumb it cl) [])); [reflexivity|].
  unfold inItBlock, front_state, mbind, stM_bind, mret, stM_ret. cbn [front disa_itstate]. by rewrite Hin.
Qed.

Lemma it_guard_outside `{ArmHost} pc next it cl :
  in_it it = false -> it_guard pc next (mkGen (mkThumb it cl) []) = Some (tt, mkGen (mkThumb it cl) []).
Proof.
  intros Hin. unfold it_guard. rewrite (bind_Some_eq _ _ _ false (mkGen (mkThumb it cl) [])); [reflexivity|].
  unfold inItBlock, front_state, mbind, stM_bind, mret, stM_ret. cbn [front disa_itstate]. by rewrite Hin.
Qed.

Lemma guard_values `{ArmHost} pc next it new :
  0 <= it < 256 -> Forall (fun c => no_it_write c = true) new ->
  Forall (eq (Some (next_it it))) (it_values [] (Some it) (guard_requests pc next it ++ new)).
Proof.
  intros Hit Hnew.
  assert (E : forall a b c d n x y, it_values [] (Some it)
    ([ CallMovConst IR_REG_32 a; CallReadContext IR_REG_32 off_cpsr; CallMovConst IR_REG_64 b;
       CallMovConst IR_REG_32 c; CallWriteContext IR_REG_32 3 off_helper_pc;
       CallCall IR_REG_32 2 [Some 0%nat; Some 1%nat; None; None];
       CallMovConst IR_REG_32 d; CallWriteContext IR_REG_32 5 off_helper_pc;
       CallMovConst IR_REG_32 n; CallWriteContext IR_REG_32 6 off_reg_itstate;
       CallMovConst IR_REG_32 x; CallWriteContext IR_REG_32 7 (off_r 15);
       CallMovConst IR_REG_64 y; CallExitCond 8 (Some 4%nat) ] ++ new)
    = Some n :: it_values [Some a; None; Some b; Some c; None; Some d; Some n; Some x; Some y] (Some n) new).
  { intros. vm_compute. reflexivity. }
  unfold guard_requests. rewrite E, (proj1 (it_states it Hit)). constructor; [done|]. by apply it_values_quiet.
Qed.

(** [it] itself. *)
Lemma is_it_decoded insn :
  is_it insn = true -> INSN insn 15 10 = 47 /\ 120 <= INSN insn 11 5 <= 127 /\ (INSN insn 3 0 =? 0) = false.
Proof.
  unfold is_it. intros [H ->%negb_true_iff]%andb_true_iff. apply Z.eqb_eq in H. rewrite !INSN_eq in * by lia.
  change (2 ^ 8) with 256 in *. change (2 ^ 10) with 1024 in *. change (2 ^ 5) with 32 in *.
  change (2 ^ (15 - 8 + 1)) with 256 in *. change (2 ^ (15 - 10 + 1)) with 64 in *.
  change (2 ^ (11 - 5 + 1)) with 128 in *. split; [|split; [|done]]; Z.div_mod_to_equations; lia.
Qed.

Lemma disassemble_it `{ArmHost} pc insn it cl :
  in_it it = false -> is_it insn = true ->
  disassemble_thumb1_insn pc insn (mkGen (mkThumb it cl) []) =
    Some (false, mkGen (mkThumb (INSN insn 7 0) cl)
                       [CallMovConst IR_REG_32 (wrap 32 (INSN insn 7 0)); CallWriteContext IR_REG_32 0 off_reg_itstate]).
Proof.
  intros Hin (E1 & E2 & E3)%is_it_decoded. unfold disassemble_thumb1_insn. cbv zeta.
  rewrite (bind_Some_eq _ _ _ _ _ (it_guard_outside pc (pc + 2) it cl Hin)), E1.
  change (dis_t1_misc_16_bits pc insn (mkGen (mkThumb it cl) []) = Some
    (false, mkGen (mkThumb (INSN insn 7 0) cl)
      [CallMovConst IR_REG_32 (wrap 32 (INSN insn 7 0)); CallWriteContext IR_REG_32 0 off_reg_itstate])).
  unfold dis_t1_misc_16_bits, within. cbv zeta.
  repeat match goal with |- context [if ?b then _ else _] =>
    first [replace b with false by lia|replace b with true by lia] end.
  unfold dis_t1_itt_A_hints. rewrite E3. reflexivity.
Qed.

(** C12. Whatever the instruction, and wherever it may leave the block, the
    guest's state of the IT block is then the architecture's state after the
    instruction, and it is the state with which the loop goes on. *)
Theorem thumb_it_tracked `{ArmHost} (wide : bool) pc insn it cl isExit s' :
  0 <= it < 256 -> (in_it it = true -> wide = false -> is_it insn = false) ->
  (if wide then disassemble_thumb2_insn pc insn else disassemble_thumb1_insn pc insn) (mkGen (mkThumb it cl) [])
    = Some (isExit, s') ->
  Forall (eq (Some (it_after wide insn it))) (it_values [] (Some it) (requests s')) /\
  (if in_it it then next_it (disa_itstate (front s')) else disa_itstate (front s')) = it_after wide insn it.
Proof.
  intros Hit Hno Hs.
  destruct (it_states it Hit) as (_ & Hnext & Hin'). unfold it_after. rewrite <- Hnext, <- Hin'. clear Hnext Hin'.
  destruct (negb wide && is_it insn) eqn:Ei.
  - apply andb_true_iff in Ei as [Hw Hi]. apply negb_true_iff in Hw. subst wide.
    destruct (in_it it) eqn:Hin; [by rewrite Hno in Hi|].
    rewrite (disassemble_it pc insn it cl Hin Hi) in Hs. simplify_eq.
    split; [|done]. cbn [requests negb andb]. pose proof (INSN_range insn 7 0 ltac:(lia)).
    rewrite wrap_small by lia. repeat constructor.
  - assert (Hq : exists next, insn_quiet pc (if wide then disassemble_thumb2_insn pc insn else disassemble_thumb1_insn pc insn) next).
    { destruct wide; [eexists; apply quiet_disassemble_thumb2_insn|]. eexists. by apply quiet_disassemble_thumb1_insn. }
    destruct Hq as (next & body & Hg & Hbody). rewrite Hg in Hs.
    destruct (in_it it) eqn:Hin.
    + rewrite (bind_Some_eq _ _ _ _ _ (it_guard_inside pc next it cl Hin)) in Hs.
      destruct (Hbody _ _ _ Hs) as (F & new & -> & W). rewrite F. split; [by apply guard_values|done].
    + rewrite (bind_Some_eq _ _ _ _ _ (it_guard_outside pc next it cl Hin)) in Hs.
      destruct (Hbody _ _ _ Hs) as (F & new & -> & W). rewrite F. split; [by apply it_values_quiet|done].
Qed.

#[local] Instance demo_host : ArmHost := {|
  arm_helper_address _ := 0x70000000;
  mmap_offset := 2 ^ 20
|}.

(** [moveq r0, #1], the last of its block. *)
Lemma thumb_it_tracked_witness :
  0 <= 8 < 256 /\ is_it 0x2001 = false /\
  exists s', disassemble_thumb1_insn 0x8001 0x2001 (mkGen (mkThumb 8 false) []) = Some (false, s') /\
    Forall (eq (Some 0)) (it_values [] (Some 8) (requests s')).
Proof.
  assert (Hit : 0 <= 8 < 256) by lia.
  split; [exact Hit|]. split; [reflexivity|]. eexists. split; [vm_compute; reflexivity|].
  refine (proj1 (thumb_it_tracked false 0x8001 0x2001 8 false false _ Hit (fun _ _ => eq_refl) _)).
  vm_compute. reflexivity.
Defined.
