(* ===== verification/Arm32Target.v ===== *)
(** * The ARM target: contexts and signals
      ([src/src/target/arm/arm.c] and
      [src/src/target/arm/syscall/arm_signal.c])

    As for AArch64, the context of a thread is a structure in memory, named by
    the address of its registers.  Addresses of the guest have 32 bits, and
    what is there is at an offset. *)

From S2P Require Import Prelude Ir Jitter BeX86 BeGen CodeCache Loop Main IrRequests FrontGen TargetGen Arm32Gen Arm32Decode ThumbGen ThumbDecode.

(** ** Structures *)

(** Offsets in [struct arm_target], from its [regs]. *)
Definition off_is_in_syscall : Z := 80.
Definition off_fp_status : Z := 360.
Definition off_fp_status_simd : Z := 367.
Definition off_sp_init : Z := 392.
Definition off_isLooping : Z := 400.
Definition off_exitStatus : Z := 404.
Definition off_disa_itstate : Z := 416.
Definition off_is_in_signal : Z := 420.
Definition off_in_signal_location : Z := 424.
Definition off_frame : Z := 440.
Definition off_param : Z := 448.
Definition off_prev_context : Z := 456.
Definition off_sas_ss_sp : Z := 464.
Definition off_sas_ss_size : Z := 468.
Definition off_start_on_sig_stack : Z := 472.

(** [struct sigframe_arm]; [struct rt_sigframe_arm] has a [siginfo_arm] before. *)
Definition off_uc_flags : Z := 0.
Definition off_uc_link : Z := 4.
Definition off_mcontext : Z := 20.
Definition off_trap_no : Z := off_mcontext.
Definition off_error_code : Z := off_mcontext + 4.
Definition off_oldmask : Z := off_mcontext + 8.
Definition off_mc_r (i : Z) : Z := off_mcontext + 12 + 4 * i.
Definition off_mc_cpsr : Z := off_mcontext + 76.
Definition off_fault_address : Z := off_mcontext + 80.
Definition sizeof_siginfo : Z := 128.
Definition sizeof_sigframe : Z := 752.
Definition sizeof_rt_sigframe : Z := sizeof_siginfo + sizeof_sigframe.

(** ** Alternate stacks ([arm_signal.c]) *)

Definition on_sig_stack (c sp : Z) (m : mem) : bool :=
  (get32 c off_sas_ss_sp m <? sp) && (wrap 32 (sp - get32 c off_sas_ss_sp m) <=? get32 c off_sas_ss_size m).

(** [SS_DISABLE], [SS_ONSTACK] *)
Definition sas_ss_flags (c sp : Z) (m : mem) : Z :=
  if get32 c off_sas_ss_size m =? 0 then 2 else if on_sig_stack c sp m then 1 else 0.

Definition sigsp (g : guest_signals) (prev signum : Z) (m : mem) : Z :=
  let sp := get32 prev (off_r 13) m in
  if negb (Z.land (sa_flags g signum) SA_ONSTACK =? 0) && (sas_ss_flags prev sp m =? 0)
  then wrap 32 (get32 prev off_sas_ss_sp m + get32 prev off_sas_ss_size m)
  else sp.

(** [None] when the assertion fails. *)
Definition is_out_of_signal_stack (c : Z) (m : mem) : option bool :=
  let p := regs_of (get64 c off_prev_context m) in
  let sp := get32 c (off_r 13) m in
  let above := get32 p (off_r 13) m <=? sp in
  if get64 c off_prev_context m =? 0 then None
  else if get32 c off_start_on_sig_stack m =? 0 then Some above
  else if negb (get32 p off_start_on_sig_stack m =? 0) then Some (above || negb (on_sig_stack c sp m))
  else Some (negb (on_sig_stack c sp m)).

Section guest.
Context `{ArmHost}.

(** [stack_t_arm] at [g_2_h(ss_p)] *)
Definition arm_sigaltstack (c : Z) (m : mem) : Z * mem :=
  let ss_p := get32 c (off_r 0) m in
  let oss_p := get32 c (off_r 1) m in
  let ss := g_2_h ss_p in
  let oss := g_2_h oss_p in
  let sp := get32 c (off_r 13) m in
  let old_sp := get32 c off_sas_ss_sp m in
  let old_size := get32 c off_sas_ss_size m in
  let old_flags := sas_ss_flags c sp m in
  let finish m :=
    (0, if oss_p =? 0 then m
        else set32 oss 8 old_size (set32 oss 4 old_flags (set32 oss 0 old_sp m))) in
  if ss_p =? 0 then finish m
  else
    let ss_sp := get32 ss 0 m in
    let ss_flags := get32 ss 4 m in
    let ss_size := get32 ss 8 m in
    if on_sig_stack c sp m then (- errno_EPERM, m)
    else if negb (ss_flags =? 2) && negb (ss_flags =? 1) && negb (ss_flags =? 0) then (- errno_EINVAL, m)
    else if ss_flags =? 2 then finish (set32 c off_sas_ss_size 0 (set32 c off_sas_ss_sp 0 m))
    else if ss_size <? MINSIGSTKSZ then (- errno_ENOMEM, m)
    else finish (set32 c off_sas_ss_size ss_size (set32 c off_sas_ss_sp ss_sp m)).

(** What the host is asked to install for the guest's [struct sigaction_arm]
    at [a]; the mask is the first of its words. *)
Definition host_sigaction (a : Z) (m : mem) : kernel_sigaction :=
  let handler := get32 a 0 m in
  let flags := get32 a 4 m in
  let mask := get32 a 12 m in
  if (handler =? 2 ^ 32 - 1) || (handler =? 0) || (handler =? 1)
  then mkSigaction (HandlerValue handler) 0 false mask
  else mkSigaction (if negb (Z.land flags SA_SIGINFO =? 0) then wrap_signal_sigaction else wrap_signal_handler)
                   (Z.lor (Z.lor flags SA_RESTORER) SA_SIGINFO) true mask.

Section sigaction.
(** [rt_sigaction(2)] of the host: the result and the mask of the old action. *)
Context (rt_sigaction : Z -> option kernel_sigaction -> bool -> Z -> Z * Z).

Definition arm_rt_sigaction (c : Z) (g : guest_signals) (m : mem) : Z * guest_signals * mem :=
  let signum := to_signed 32 (get32 c (off_r 0) m) in
  let act_p := get32 c (off_r 1) m in
  let oldact_p := get32 c (off_r 2) m in
  let sigset_size := get32 c (off_r 3) m in
  let act := g_2_h act_p in
  let oldact := g_2_h oldact_p in
  if (signum <? 1) || (NSIG <=? signum) then (- errno_EINVAL, g, m)
  else if (act_p =? 2 ^ 32 - 1) || (oldact_p =? 2 ^ 32 - 1) then (- errno_EFAULT, g, m)
  else
    let host := if act_p =? 0 then None else Some (host_sigaction act m) in
    let m := if oldact_p =? 0 then m else set32 oldact 0 (guest_signals_handler g signum) m in
    let g :=
      if act_p =? 0 then g
      else mkSignals (set_entry (guest_signals_handler g) signum (get32 act 0 m))
                     (set_entry (sa_flags g) signum (get32 act 4 m)) in
    let '(res, old_mask) := rt_sigaction signum host (negb (oldact_p =? 0)) sigset_size in
    let m :=
      if oldact_p =? 0 then m
      else set32 oldact 8 0 (set32 oldact 12 old_mask (set32 oldact 4 (sa_flags g signum) m)) in
    (res, g, m).
End sigaction.

(** ** The signal frame ([arm.c]) *)

(** The members of [struct siginfo_arm]; the union starts at 12. *)
Definition info_rt (pid uid : Z) (i : Z) (m : mem) : mem := set32 i 16 uid (set32 i 12 pid m).
Definition info_value (int ptr : Z) (i : Z) (m : mem) : mem := set32 i 20 ptr (set32 i 20 int m).
Definition info_fault (addr : Z) (i : Z) (m : mem) : mem := set32 i 12 (h_2_g addr) m.
Definition info_poll (band fd : Z) (i : Z) (m : mem) : mem := set32 i 16 fd (set32 i 12 band m).
Definition info_chld (s : siginfo) (i : Z) (m : mem) : mem :=
  set32 i 28 (si_stime s) (set32 i 24 (si_utime s) (set32 i 20 (si_status s) (info_rt (si_pid s) (si_uid s) i m))).

(** [None] for [fatal] and the failed assertion. *)
Definition setup_siginfo (signum : Z) (s : siginfo) (i : Z) (m : mem) : option mem :=
  let m := set32 i 8 (si_code s) (set32 i 4 (si_errno s) (set32 i 0 (si_signo s) m)) in
  let with_value := info_value (si_int s) (si_ptr s) i in
  match to_signed 32 (si_code s) with
  | 0 (* SI_USER *) | -6 (* SI_TKILL *) => Some (info_rt (si_pid s) (si_uid s) i m)
  | 0x80 (* SI_KERNEL *) =>
      Some (if signum =? SIGPOLL then info_poll (si_band s) (si_fd s) i m
            else if signum =? SIGCHLD then info_chld s i m
            else info_fault (si_addr s) i m)
  | -1 (* SI_QUEUE *) | -3 (* SI_MESGQ *) => Some (with_value (info_rt (si_pid s) (si_uid s) i m))
  | -2 (* SI_TIMER *) => Some (with_value (set32 i 16 (si_overrun s) (set32 i 12 (si_timerid s) m)))
  | -5 (* SI_SIGIO *) | -4 (* SI_ASYNCIO *) => None
  | code =>
      if code <? 0 then None
      else
        match signum with
        | 4 | 8 | 11 | 7 | 5 (* SIGILL, SIGFPE, SIGSEGV, SIGBUS, SIGTRAP *) => Some (info_fault (si_addr s) i m)
        | 17 (* SIGCHLD *) => Some (info_chld s i m)
        | 29 (* SIGPOLL *) => Some (info_poll (si_band s) (si_fd s) i m)
        | _ => None
        end
  end.

Section frame.
(** [__executable_start] and [__etext], and [lookup_pc] on the current cache:
    the guest and the host start of a block. *)
Context (executable_start etext : Z) (lookup_pc : Z -> Z * Z).

(** [findInsn] on the block at [guest_pc] translated once more, with a marker
    before each instruction; the context it is given is clear.  What the buffer
    held does not matter. *)
Definition find_insn_offset (guest_pc offset : Z) (m : mem) : option Z :=
  let backend := createBackend (256 * KB) in
  handle ← createJitter (256 * KB);
  '(cs, _) ← (if Z.testbit guest_pc 0 then disassemble_thumb_with_marker m 0 guest_pc 40
              else disassemble_arm_with_marker m guest_pc 40);
  '(_, j) ← irAlloc_session cs handle;
  fst <$> findInsn j backend (replicate (Z.to_nat (16 * KB)) 0) offset.

(** The guest pc a signal interrupted, and what is stored in
    [*in_signal_location]: nothing when it was in translated code.  [None] when
    an assertion fails.  A signal always comes with a [ucp]. *)
Definition restore_precise_pc (prev : Z) (host_pc_signal : Z) (m : mem) : option (Z * option Z) :=
  if negb (get32 prev off_helper_pc m =? 0) then
    Some (get32 prev off_helper_pc m, Some SIGNAL_LOCATION_JITTER_EXEC)
  else if (executable_start <=? host_pc_signal) && (host_pc_signal <? etext) then
    Some (get32 prev (off_r 15) m, Some SIGNAL_LOCATION_UMEQ_CODE)
  else
    let '(jit_guest_start_pc, jit_host_start_pc) := lookup_pc host_pc_signal in
    if jit_guest_start_pc =? 0 then None
    else
      insn_offset ← find_insn_offset jit_guest_start_pc (to_signed 32 (host_pc_signal - jit_host_start_pc)) m;
      if insn_offset =? 2 ^ 32 - 1 then None
      else Some (wrap 32 (get32 prev (off_r 15) m + insn_offset), None).

(** The frame at [f]; the memory, and the location to store. *)
Definition setup_sigframe (f prev : Z) (s : host_signal_info) (m : mem) : option (mem * option Z) :=
  let m := for_each 15 (fun i m => set32 f (off_mc_r i) (get32 prev (off_r i) m) m) m in
  '(pc, location) ← restore_precise_pc prev (host_pc s) m;
  let m := set32 prev (off_r 15) pc m in
  let m := set32 f (off_mc_r 15) (get32 prev (off_r 15) m) m in
  let m := set32 f off_mc_cpsr (get32 prev off_cpsr m) m in
  let m := set32 f off_fault_address 0 (set32 f off_error_code 0 (set32 f off_trap_no 0 m)) in
  let m := if is_sigaction_handler s
           then set32 f off_fault_address (h_2_g (si_addr (signal_siginfo s)))
                  (set32 f off_error_code (si_errno (signal_siginfo s)) m) else m in
  Some (set32 f off_oldmask 0 m, location).

Definition setup_rt_frame (sp prev signum : Z) (s : host_signal_info) (m : mem) : option (Z * mem * option Z) :=
  let sp := wrap 32 (sp - sizeof_rt_sigframe) in
  let frame := g_2_h sp in
  let sig := frame + sizeof_siginfo in
  let m := set32 sig off_uc_link 0 (set32 sig off_uc_flags 0 m) in
  '(m, location) ← setup_sigframe sig prev s m;
  m ← setup_siginfo signum (signal_siginfo s) frame m;
  Some (sp, m, location).

Definition setup_frame (sp prev signum : Z) (s : host_signal_info) (m : mem) : option (Z * mem * option Z) :=
  let sp := wrap 32 (sp - sizeof_sigframe) in
  let frame := g_2_h sp in
  let m := set32 frame off_uc_link 0 (set32 frame off_uc_flags 0x5ac3c35a m) in
  '(m, location) ← setup_sigframe frame prev s m;
  Some (sp, m, location).

(** Whether the handler changed the pc of the frame at [f]. *)
Definition restore_sigframe (f prev : Z) (m : mem) : bool * mem :=
  let is_pc_change := negb (get32 prev (off_r 15) m =? get32 f (off_mc_r 15) m) in
  let m := for_each 16 (fun i m => set32 prev (off_r i) (get32 f (off_mc_r i) m) m) m in
  (is_pc_change, set32 prev off_cpsr (get32 f off_mc_cpsr m) m).

(** [mov r7, #119 or #173; svc 0; nop; b .-4] *)
Definition return_code (is_rt : bool) : list Z :=
  [if is_rt then 0xe3a070ad else 0xe3a07077; 0xef000000; 0xe320f000; 0xeafffffd].

Definition setup_return_frame (sp : Z) (is_rt : bool) (m : mem) : Z * mem :=
  let sp := wrap 32 (sp - 16) in
  (sp, for_each 4 (fun i m => set32 (g_2_h sp) (4 * i) (nth (Z.to_nat i) (return_code is_rt) 0) m) m).

(** ** The operations of the target *)

(** [float_status] has seven members of a byte. *)
Definition copy_fp_status (c from off : Z) : mem -> mem :=
  for_each 7 (fun i m => set8 c (off + i) (load_mem IR_REG_8 m (from + off + i)) m).

(** Tininess before rounding is 1; [flush] is that of the SIMD status, for its
    three last members. *)
Definition init_fp_status (c off : Z) (flush : bool) : mem -> mem :=
  for_each 7 (fun i m => set8 c (off + i) (if i =? 0 then 1 else if 4 <=? i then Z.b2z flush else 0) m).

(** The context of a signal handler; [signal_info] is at [param]. *)
Definition init_signal (g : guest_signals) (c prev_target entry signum param : Z) (s : host_signal_info) (m : mem) :
    option mem :=
  let prev := regs_of prev_target in
  let sp := sigsp g prev signum m in
  let sp := Z.land (wrap 32 (sp - 128)) (wrap 32 (Z.lnot 15)) in
  let m := set32 c off_start_on_sig_stack (Z.b2z (on_sig_stack prev sp m)) m in
  let '(sp, m) := setup_return_frame sp (is_sigaction_handler s) m in
  let return_code_addr := sp in
  '(sp, m, location) ← (if is_sigaction_handler s then setup_rt_frame sp prev signum s m
                        else setup_frame sp prev signum s m);
  let frame := g_2_h sp + (if is_sigaction_handler s then sizeof_siginfo else 0) in
  let m := match location with Some l => set32 c off_in_signal_location l m | None => m end in
  let m := for_each 16 (fun i => copy32 c prev (off_r i)) m in
  let m := for_each 32 (fun i => copy64 c prev (off_e_d i)) m in
  let m := copy32 c prev off_cpsr m in
  let m := copy32 c prev off_fpscr m in
  let m := copy32 c prev off_c13_tls2 m in
  let m := copy32 c prev off_shifter_carry_out m in
  let m := set32 c off_reg_itstate 0 m in
  let m := set32 c off_disa_itstate 0 m in
  let m := set32 c (off_r 0) signum m in
  let m := set32 c (off_r 13) sp m in
  let m := set32 c (off_r 14) return_code_addr m in
  let m := set32 c (off_r 15) entry m in
  let m := if is_sigaction_handler s
           then set32 c (off_r 2) (h_2_g (g_2_h sp + sizeof_siginfo)) (set32 c (off_r 1) (h_2_g (g_2_h sp)) m) else m in
  let m := set64 c off_frame frame m in
  let m := set64 c off_param param m in
  let m := set64 c off_prev_context prev_target m in
  let m := set32 c off_is_in_syscall 0 m in
  let m := set32 c off_is_in_signal 1 m in
  let m := copy_fp_status c prev off_fp_status m in
  let m := copy_fp_status c prev off_fp_status_simd m in
  let m := copy32 c prev off_sas_ss_sp m in
  let m := copy32 c prev off_sas_ss_size m in
  Some (set32 c off_exitStatus 0 m).

(** [None] when the assertion on the parent's IT state fails. *)
Definition init_thread (c prev_target parent entry stack_ptr : Z) (m : mem) : option mem :=
  let prev := regs_of prev_target in
  let p := regs_of parent in
  let m := for_each 15 (fun i => copy32 c p (off_r i)) m in
  let m := set32 c off_c13_tls2 (get32 p (off_r 3) m) m in
  let m := set32 c (off_r 0) 0 m in
  let m := set32 c (off_r 13) stack_ptr m in
  let m := set32 c (off_r 15) entry m in
  let m := set32 c off_cpsr 0 m in
  let m := copy32 c p off_reg_itstate m in
  if negb (get32 c off_reg_itstate m =? 0) then None else
  let m := set32 c off_disa_itstate 0 m in
  let m := set32 c off_is_in_syscall 0 m in
  let m := set32 c off_fpscr 0 m in
  let m := set32 c off_is_in_signal 0 m in
  let m := copy_fp_status c p off_fp_status m in
  let m := copy_fp_status c prev off_fp_status_simd m in
  let m := set32 c off_sas_ss_sp 0 m in
  let m := set32 c off_sas_ss_size 0 m in
  let m := set32 c off_start_on_sig_stack 0 m in
  Some (set32 c off_in_signal_location SIGNAL_LOCATION_UNKNOWN m).

Definition init_main (c entry stack_ptr : Z) (m : mem) : mem :=
  let m := for_each 15 (fun i => set32 c (off_r i) 0) m in
  let m := set32 c (off_r 13) stack_ptr m in
  let m := set32 c (off_r 15) entry m in
  let m := set32 c off_cpsr 0 m in
  let m := set64 c off_sp_init (wrap 32 stack_ptr) m in
  let m := set32 c off_reg_itstate 0 m in
  let m := set32 c off_disa_itstate 0 m in
  let m := set32 c off_is_in_signal 0 m in
  let m := set32 c off_fpscr 0 m in
  let m := init_fp_status c off_fp_status false m in
  let m := init_fp_status c off_fp_status_simd true m in
  let m := set32 c off_sas_ss_sp 0 m in
  let m := set32 c off_sas_ss_size 0 m in
  let m := set32 c off_start_on_sig_stack 0 m in
  set32 c off_in_signal_location SIGNAL_LOCATION_UNKNOWN m.

(** [init]; [s] is what is at [param] when there is a signal.  A fork has
    nothing to do. *)
Definition arm_init (g : guest_signals) (s : host_signal_info) (c prev_target entry stack_ptr signum param : Z)
    (m : mem) : option mem :=
  let m := set32 c off_isLooping 1 m in
  if negb (signum =? 0) then init_signal g c prev_target entry signum param s m
  else if negb (param =? 0) then init_thread c prev_target param entry stack_ptr m
  else if negb (stack_ptr =? 0) then Some (init_main c entry stack_ptr m)
  else Some m.
End frame.

(** [isLooping]; a first call reports to the tracer before. *)
Definition arm_isLooping (c : Z) (m : mem) : option (bool * mem) :=
  out ← (if negb (get32 c off_is_in_signal m =? 0) &&
            (get32 c off_in_signal_location m =? SIGNAL_LOCATION_JITTER_EXEC)
         then is_out_of_signal_stack c m else Some false);
  let m := if out : bool then set32 c off_exitStatus 1 (set32 c off_isLooping 0 m) else m in
  Some (negb (get32 c off_isLooping m =? 0), m).

Definition arm_getExitStatus (c : Z) (m : mem) : option (Z * exit_request * mem) :=
  let prev := regs_of (get64 c off_prev_context m) in
  if get32 c off_is_in_signal m =? 0 then Some (get32 c off_exitStatus m, Resume, m)
  else if negb (get32 c off_exitStatus m =? 0) then
    if get32 c off_in_signal_location m =? SIGNAL_LOCATION_JITTER_EXEC then
      let m := for_each 16 (fun i => copy32 prev c (off_r i)) m in
      let m := copy32 prev c off_cpsr m in
      Some (get32 c off_exitStatus m, AlternateExit (get32 prev (off_r 15) m), m)
    else None
  else
    let '(is_pc_change, m) := restore_sigframe (get64 c off_frame m) prev m in
    if is_pc_change then
      if get32 c off_in_signal_location m =? SIGNAL_LOCATION_JITTER_EXEC
      then Some (get32 c off_exitStatus m, AlternateExit (get32 prev (off_r 15) m), m) else None
    else Some (get32 c off_exitStatus m, Resume, m).

(** [disassemble], on what the context holds: the translation and whether the
    translator asked for the caches to be cleaned. *)
Definition arm_disassemble (c pc maxInsn : Z) (m : mem) : option (list irCall * bool) :=
  if Z.testbit pc 0 then disassemble_thumb m (get32 c off_reg_itstate m) pc maxInsn
  else disassemble_arm m pc maxInsn.
End guest.
