(* ===== verification/Arm32Helpers.v ===== *)
(** * Helpers of the ARM front end
      ([src/src/target/arm/disassembler/arm_helpers.c])

    The helpers that only compute: conditions, flags, carry out of the shifter,
    products, counts, selections; and those that read and write the memory of
    the guest atomically.  Unsigned parameters are in range; signed ones are
    given as the bits the generated code passes.  [None] is the illegal
    instruction signal. *)

From S2P Require Import Prelude Ir FrontGen Arm32Gen.

(** ** Conditions *)

(** [1] when the condition fails. *)
Definition compute_flags_pred (cond cpsr : Z) : option Z :=
  let test b := negb (Z.land cpsr b =? 0) in
  let fails (b : bool) := if b then 0 else 1 in
  let n := Z.land (Z.shiftr cpsr 31) 1 in
  let z := Z.land (Z.shiftr cpsr 30) 1 in
  let v := Z.land (Z.shiftr cpsr 28) 1 in
  pred ←
    match Z.shiftr cond 1 with
    | 0 => Some (fails (test 0x40000000))
    | 1 => Some (fails (test 0x20000000))
    | 2 => Some (fails (test 0x80000000))
    | 3 => Some (fails (test 0x10000000))
    | 4 => Some (fails (test 0x20000000 && negb (test 0x40000000)))
    | 5 => Some (fails (n =? v))
    | 6 => Some (fails ((z =? 0) && (n =? v)))
    | _ => None
    end;
  Some (if negb (Z.land cond 1 =? 0) then 1 - pred else pred).

(** ** Flags *)

Definition carry_bit (b : bool) : Z := if b then 0x20000000 else 0.
Definition overflow_bit (x : Z) : Z := Z.land (Z.shiftr x 3) 0x10000000.

Definition compute_next_flags (opcode_and_shifter_carry_out rn op oldcpsr : Z) : option Z :=
  let c_in := Z.land (Z.shiftr oldcpsr 29) 1 in
  let opcode := Z.land opcode_and_shifter_carry_out 0xf in
  let shifter_carry_out := Z.land opcode_and_shifter_carry_out 0x20000000 in
  let old_v := Z.land oldcpsr 0x10000000 in
  let finish calc c v :=
    let n := Z.land calc 0x80000000 in
    let z := if calc =? 0 then 0x40000000 else 0 in
    Some (Z.lor (Z.lor (Z.lor (Z.lor n z) c) v) (Z.land oldcpsr 0x0fffffff)) in
  let logical calc := finish calc shifter_carry_out old_v in
  let lnot32 x := Z.lxor x 0xffffffff in
  let sub a b :=
    let calc := wrap 32 (a - b) in
    finish calc (carry_bit (b <=? a)) (overflow_bit (Z.land (Z.lxor a b) (Z.lxor a calc))) in
  let carry_of calc a := carry_bit (if negb (c_in =? 0) then calc <=? a else calc <? a) in
  let sub_carry a b :=
    let calc := wrap 32 (a + lnot32 b + c_in) in
    finish calc (carry_of calc a) (overflow_bit (Z.land (Z.lxor a b) (Z.lxor a calc))) in
  match opcode with
  | 0 | 8 => logical (Z.land rn op)
  | 1 | 9 => logical (Z.lxor rn op)
  | 2 | 10 => sub rn op
  | 3 => sub op rn
  | 4 | 11 =>
      let calc := wrap 32 (rn + op) in
      finish calc (carry_bit (calc <? rn)) (overflow_bit (Z.land (Z.lxor calc rn) (Z.lxor calc op)))
  | 5 =>
      let calc := wrap 32 (rn + op + c_in) in
      finish calc (carry_of calc rn) (overflow_bit (Z.land (Z.lxor calc rn) (Z.lxor calc op)))
  | 6 => sub_carry rn op
  | 7 => sub_carry op rn
  | 12 => logical (Z.lor rn op)
  | 13 => logical op
  | 14 => logical (Z.land rn (lnot32 op))
  | 15 => logical (lnot32 op)
  | _ => None
  end.

(** The carry out of the shifter, at the place of the carry flag. *)
Definition compute_sco (insn rm op oldcpsr : Z) : option Z :=
  let shift_mode := INSN insn 6 5 in
  let sco := Z.land oldcpsr 0x20000000 in
  let op := Z.land op 0xff in
  let by_immediate := INSN insn 4 4 =? 0 in
  let op32 := if by_immediate && (op =? 0) then 32 else op in
  let right rm op := Z.land (wrap 32 (Z.shiftl (Z.shiftr rm (op - 1)) 29)) 0x20000000 in
  match shift_mode with
  | 0 =>
      Some (if 32 <? op then 0
            else if negb (op =? 0) then Z.land (Z.shiftr (shl_32 rm (op - 1)) 2) 0x20000000
            else sco)
  | 1 =>
      Some (if 32 <? op32 then 0 else if negb (op32 =? 0) then right rm op32 else sco)
  | 2 =>
      Some (if 32 <=? op32 then Z.shiftr (Z.land rm 0x80000000) 2
            else if negb (op32 =? 0) then right (to_signed 32 rm) op32
            else sco)
  | 3 =>
      Some (if by_immediate && (op =? 0) then Z.shiftl (Z.land rm 1) 29
            else if negb (op =? 0) then
              let op := Z.land op 0x1f in
              if negb (op =? 0) then right rm op else Z.land (Z.shiftr rm 2) 0x20000000
            else sco)
  | _ => None
  end.

(** ** Counts, products, selections *)

(** [for(i = 31; i >= 0; i--)]: [n] bits left, the next one [n - 1]. *)
Fixpoint clz_loop32 (n : nat) (rm res : Z) : Z :=
  match n with
  | O => res
  | S i => if negb (Z.land (Z.shiftr rm (Z.of_nat i)) 1 =? 0) then res else clz_loop32 i rm (res + 1)
  end.
Definition clz32 (rm : Z) : Z := clz_loop32 32 rm 0.

Definition multiply_unsigned_lsb (op1 op2 : Z) : Z := wrap 32 (op1 * op2).
Definition multiply_unsigned_msb (op1 op2 : Z) : Z := Z.shiftr (op1 * op2) 32.
Definition signed_product (op1 op2 : Z) : Z := to_signed 32 op1 * to_signed 32 op2.
Definition multiply_signed_lsb (op1 op2 : Z) : Z := wrap 32 (signed_product op1 op2).
Definition multiply_signed_msb (op1 op2 : Z) : Z := wrap 32 (Z.shiftr (signed_product op1 op2) 32).

(** [acc]; the sums wrap, signed ones too (undefined in C). *)
Definition accumulator (rdhi rdlo : Z) : Z := wrap 64 (Z.shiftl rdhi 32 + rdlo).
Definition multiply_accumulate_unsigned_lsb (op1 op2 rdhi rdlo : Z) : Z := wrap 32 (op1 * op2 + rdlo).
Definition multiply_accumulate_unsigned_msb (op1 op2 rdhi rdlo : Z) : Z :=
  Z.shiftr (wrap 64 (op1 * op2 + accumulator rdhi rdlo)) 32.
Definition signed_accumulate (op1 op2 rdhi rdlo : Z) : Z :=
  wrap 64 (signed_product op1 op2 + to_signed 64 (accumulator rdhi rdlo)).
Definition multiply_accumulate_signed_lsb (op1 op2 rdhi rdlo : Z) : Z := wrap 32 (signed_accumulate op1 op2 rdhi rdlo).
Definition multiply_accumulate_signed_msb (op1 op2 rdhi rdlo : Z) : Z :=
  wrap 32 (Z.shiftr (to_signed 64 (signed_accumulate op1 op2 rdhi rdlo)) 32).

Definition multiply_flag_update (res old_cpsr : Z) : Z :=
  let cpsr := Z.land old_cpsr 0x3fffffff in
  let cpsr := if res =? 0 then Z.lor cpsr 0x40000000 else cpsr in
  if negb (Z.shiftr res 31 =? 0) then Z.lor cpsr 0x80000000 else cpsr.

(** [for(i = 0; i < 4; i++)] *)
Definition sel_byte (cpsr rn rm i : Z) : Z :=
  let src := if negb (Z.land cpsr (Z.shiftl 0x10000 i) =? 0) then rn else rm in
  Z.land src (Z.shiftl 0xff (i * 8)).
Definition sel (cpsr rn rm : Z) : Z := fold_left (fun res i => Z.lor res (sel_byte cpsr rn rm i)) [0; 1; 2; 3] 0.

(** ** Exclusive accesses *)

(** [exclusive_value] of the [struct arm_target] that holds the registers. *)
Definition off_exclusive_value : Z := 408.

Section memory.
Context `{ArmHost}.
(** The address of the registers. *)
Context (regs : Z).

Definition guest (address : Z) : Z := wrap 64 (address + mmap_offset).
Definition get32 (off : Z) (m : mem) : Z := load_mem IR_REG_32 m (regs + off).
Definition set32 (off v : Z) (m : mem) : mem := store_mem IR_REG_32 m (regs + off) v.
Definition exclusive_value (m : mem) : Z := load_mem IR_REG_64 m (regs + off_exclusive_value).
Definition set_exclusive_value (v : Z) (m : mem) : mem := store_mem IR_REG_64 m (regs + off_exclusive_value) v.

(** [__sync_bool_compare_and_swap] *)
Definition bool_compare_and_swap (w : irRegisterType) (a oldval newval : Z) (m : mem) : bool * mem :=
  if load_mem w m a =? oldval then (true, store_mem w m a newval) else (false, m).

(** [size_access] *)
Definition access_width (size_access : Z) : option irRegisterType :=
  match size_access with 6 => Some IR_REG_8 | 7 => Some IR_REG_16 | 4 => Some IR_REG_32 | _ => None end.

Definition ldrexx (address size_access : Z) (m : mem) : option (Z * mem) :=
  w ← access_width size_access;
  let v := load_mem w m (guest address) in
  Some (wrap 32 v, set_exclusive_value v m).

Definition ldrexd (address : Z) (m : mem) : Z * mem :=
  let v := load_mem IR_REG_64 m (guest address) in (v, set_exclusive_value v m).

Definition strexx (address size_access value : Z) (m : mem) : option (Z * mem) :=
  w ← access_width size_access;
  let '(done, m') := bool_compare_and_swap w (guest address) (wrap (bits w) (exclusive_value m))
                                           (wrap (bits w) value) m in
  Some (if done : bool then 0 else 1, m').

Definition strexd (address lsb msb : Z) (m : mem) : Z * mem :=
  let value := Z.lor (Z.shiftl msb 32) lsb in
  let '(done, m') := bool_compare_and_swap IR_REG_64 (guest address) (exclusive_value m) value m in
  (if done : bool then 0 else 1, m').

(** The kernel's compare and exchange: the outcome is in [r0] and the carry. *)
Definition cmpxchg_result (done : bool) (m : mem) : mem :=
  let m := set32 (off_r 0) (if done then 0 else 0xffffffff) m in
  set32 off_cpsr (if done then Z.lor (get32 off_cpsr m) 0x20000000
                  else Z.land (get32 off_cpsr m) (Z.lxor 0xffffffff 0x20000000)) m.

Definition hlp_vdso_cmpxchg (m : mem) : mem :=
  let oldval := get32 (off_r 0) m in
  let newval := get32 (off_r 1) m in
  let address := guest (get32 (off_r 2) m) in
  let '(done, m') := bool_compare_and_swap IR_REG_32 address oldval newval m in cmpxchg_result done m'.

Definition hlp_vdso_cmpxchg64 (m : mem) : mem :=
  let oldval := load_mem IR_REG_64 m (guest (get32 (off_r 0) m)) in
  let newval := load_mem IR_REG_64 m (guest (get32 (off_r 1) m)) in
  let address := guest (get32 (off_r 2) m) in
  let '(done, m') := bool_compare_and_swap IR_REG_64 address oldval newval m in cmpxchg_result done m'.
End memory.

(** ** How the code calls them *)

(** The width of the result, and the result on parameters of the right
    types; [IR_REG_8] is what the translator passes for the shift amount of a
    shift by a register. *)
Definition pure_helper32 (h : arm_helper) (args : list (option (irRegisterType * Z))) :
    option (irRegisterType * Z) :=
  match h, args with
  | arm_hlp_compute_flags_pred, [Some (IR_REG_32, c); Some (IR_REG_32, f); None; None] =>
      v ← compute_flags_pred c f; Some (IR_REG_32, v)
  | arm_hlp_compute_next_flags, [Some (IR_REG_32, o); Some (IR_REG_32, a); Some (IR_REG_32, b); Some (IR_REG_32, f)] =>
      v ← compute_next_flags o a b f; Some (IR_REG_32, v)
  | arm_hlp_compute_sco, [Some (IR_REG_32, i); Some (IR_REG_32, r); Some (_, k); Some (IR_REG_32, f)] =>
      v ← compute_sco i r k f; Some (IR_REG_32, v)
  | arm_hlp_clz, [Some (IR_REG_32, a); None; None; None] => Some (IR_REG_32, clz32 a)
  | arm_hlp_multiply_unsigned_lsb, [Some (IR_REG_32, a); Some (IR_REG_32, b); None; None] =>
      Some (IR_REG_32, multiply_unsigned_lsb a b)
  | arm_hlp_multiply_flag_update, [Some (IR_REG_32, a); Some (IR_REG_32, b); None; None] =>
      Some (IR_REG_32, multiply_flag_update a b)
  | arm_hlp_multiply_unsigned_msb, [Some (IR_REG_32, a); Some (IR_REG_32, b); None; None] =>
      Some (IR_REG_32, multiply_unsigned_msb a b)
  | arm_hlp_multiply_signed_lsb, [Some (IR_REG_32, a); Some (IR_REG_32, b); None; None] =>
      Some (IR_REG_32, multiply_signed_lsb a b)
  | arm_hlp_multiply_signed_msb, [Some (IR_REG_32, a); Some (IR_REG_32, b); None; None] =>
      Some (IR_REG_32, multiply_signed_msb a b)
  | arm_hlp_multiply_accumulate_unsigned_lsb, [Some (IR_REG_32, a); Some (IR_REG_32, b); Some (IR_REG_32, hi); Some (IR_REG_32, lo)] =>
      Some (IR_REG_32, multiply_accumulate_unsigned_lsb a b hi lo)
  | arm_hlp_multiply_accumulate_unsigned_msb, [Some (IR_REG_32, a); Some (IR_REG_32, b); Some (IR_REG_32, hi); Some (IR_REG_32, lo)] =>
      Some (IR_REG_32, multiply_accumulate_unsigned_msb a b hi lo)
  | arm_hlp_multiply_accumulate_signed_lsb, [Some (IR_REG_32, a); Some (IR_REG_32, b); Some (IR_REG_32, hi); Some (IR_REG_32, lo)] =>
      Some (IR_REG_32, multiply_accumulate_signed_lsb a b hi lo)
  | arm_hlp_multiply_accumulate_signed_msb, [Some (IR_REG_32, a); Some (IR_REG_32, b); Some (IR_REG_32, hi); Some (IR_REG_32, lo)] =>
      Some (IR_REG_32, multiply_accumulate_signed_msb a b hi lo)
  | arm_hlp_sel, [Some (IR_REG_32, f); Some (IR_REG_32, n); Some (IR_REG_32, r); None] =>
      Some (IR_REG_32, sel f n r)
  | _, _ => None
  end.

(** The code reaches the helpers, called as their prototypes say. *)
Class Arm32Calls `{ArmHost}
    (ir_call : option irRegisterType -> Z -> Z -> list (option (irRegisterType * Z)) -> mem -> option (mem * Z))
    (ctx : Z) := {
  pure_call32 : forall h args w v m,
    pure_helper32 h args = Some (w, v) -> ir_call (Some w) (arm_helper_address h) ctx args m = Some (m, v);
  arm_helper_address_range : forall h, 0 <= arm_helper_address h < 2 ^ 64
}.
