(* ===== verification/Arm32Isa.v ===== *)
(** * The instructions the ARM front end is verified for

    The A32 integer instructions independently of the front end, after the
    pseudocode of the architecture: their encodings, and what they do to the
    registers, the status register and the memory of the guest. *)

From S2P Require Import Prelude Ir ArmPseudo.

(** ** Instructions *)

(** The second operand of data processing, and the offset of a transfer. *)
Inductive operand2 :=
  | Immediate (rotate imm8 : Z)
  | ShiftedRegister (rm type imm5 : Z)
  | RegisterShifted (rm type rs : Z).

Inductive transfer_offset :=
  | OffsetImmediate (imm12 : Z)
  | OffsetRegister (rm type imm5 : Z).

Inductive extra_offset :=
  | ExtraImmediate (imm4H imm4L : Z)
  | ExtraRegister (rm : Z).

Inductive extra_transfer :=
  | StoreHalf | LoadHalf | LoadSignedByte | LoadSignedHalf | LoadDual | StoreDual.

Inductive reversal := RevBytes | RevBytes16 | RevBits | RevSignedHalf.

(** Fields are named as in the architecture. *)
Inductive a32_insn :=
  | DataProcessing (opcode : Z) (setflags : bool) (rn rd : Z) (op : operand2)
  | MoveHalf (top : bool) (imm4 rd imm12 : Z)
  | Multiply (accumulate setflags : bool) (rd ra rm rn : Z)
  | MultiplySubtract (rd ra rm rn : Z)
  | MultiplyLong (signed accumulate : bool) (rdhi rdlo rm rn : Z)
  | CountZeros (rd rm : Z)
  | ExtendAdd (unsigned half : bool) (rn rd rotate rm : Z)
  | ReverseOrder (kind : reversal) (rd rm : Z)
  | BitfieldExtract (unsigned : bool) (widthm1 rd lsb rn : Z)
  | BitfieldInsert (msb rd lsb rn : Z)
  | BranchLink (link : bool) (imm24 : Z)
  | BranchExchange (link : bool) (rm : Z)
  | BranchLinkExchange (h : bool) (imm24 : Z)
  | Transfer (p u b w l : bool) (rn rt : Z) (off : transfer_offset)
  | TransferExtra (p u w : bool) (kind : extra_transfer) (rn rt : Z) (off : extra_offset)
  | TransferMultiple (p u w l : bool) (rn reglist : Z).

(** An instruction and its condition. *)
Definition a32_op : Type := Z * a32_insn.

(** ** Encodings *)

Definition encode_offset (off : transfer_offset) : Z :=
  match off with
  | OffsetImmediate imm12 => imm12
  | OffsetRegister rm type imm5 => 2^25 + imm5 * 2^7 + type * 2^5 + rm
  end.

Definition encode_insn (i : a32_insn) : Z :=
  match i with
  | DataProcessing opcode s rn rd op =>
      opcode * 2^21 + Z.b2z s * 2^20 + rn * 2^16 + rd * 2^12
      + match op with
        | Immediate rotate imm8 => 2^25 + rotate * 2^8 + imm8
        | ShiftedRegister rm type imm5 => imm5 * 2^7 + type * 2^5 + rm
        | RegisterShifted rm type rs => rs * 2^8 + type * 2^5 + 2^4 + rm
        end
  | MoveHalf top imm4 rd imm12 => 0x03000000 + Z.b2z top * 2^22 + imm4 * 2^16 + rd * 2^12 + imm12
  | Multiply a s rd ra rm rn =>
      0x90 + Z.b2z a * 2^21 + Z.b2z s * 2^20 + rd * 2^16 + ra * 2^12 + rm * 2^8 + rn
  | MultiplySubtract rd ra rm rn => 0x00600090 + rd * 2^16 + ra * 2^12 + rm * 2^8 + rn
  | MultiplyLong signed a rdhi rdlo rm rn =>
      0x00800090 + Z.b2z signed * 2^22 + Z.b2z a * 2^21 + rdhi * 2^16 + rdlo * 2^12 + rm * 2^8 + rn
  | CountZeros rd rm => 0x016f0f10 + rd * 2^12 + rm
  | ExtendAdd unsigned half rn rd rotate rm =>
      0x06a00070 + Z.b2z unsigned * 2^22 + Z.b2z half * 2^20 + rn * 2^16 + rd * 2^12 + rotate * 2^10 + rm
  | ReverseOrder kind rd rm =>
      match kind with
      | RevBytes => 0x06bf0f30
      | RevBytes16 => 0x06bf0fb0
      | RevBits => 0x06ff0f30
      | RevSignedHalf => 0x06ff0fb0
      end + rd * 2^12 + rm
  | BitfieldExtract unsigned widthm1 rd lsb rn =>
      0x07a00050 + Z.b2z unsigned * 2^22 + widthm1 * 2^16 + rd * 2^12 + lsb * 2^7 + rn
  | BitfieldInsert msb rd lsb rn => 0x07c00010 + msb * 2^16 + rd * 2^12 + lsb * 2^7 + rn
  | BranchLink link imm24 => 0x0a000000 + Z.b2z link * 2^24 + imm24
  | BranchExchange link rm => 0x012fff10 + Z.b2z link * 2^5 + rm
  | BranchLinkExchange h imm24 => 0x0a000000 + Z.b2z h * 2^24 + imm24
  | Transfer p u b w l rn rt off =>
      0x04000000 + Z.b2z p * 2^24 + Z.b2z u * 2^23 + Z.b2z b * 2^22 + Z.b2z w * 2^21 + Z.b2z l * 2^20
      + rn * 2^16 + rt * 2^12 + encode_offset off
  | TransferExtra p u w kind rn rt off =>
      0x90 + Z.b2z p * 2^24 + Z.b2z u * 2^23 + Z.b2z w * 2^21 + rn * 2^16 + rt * 2^12
      + match kind with
        | StoreHalf => 2^5
        | LoadHalf => 2^20 + 2^5
        | LoadDual => 2 * 2^5
        | LoadSignedByte => 2^20 + 2 * 2^5
        | StoreDual => 3 * 2^5
        | LoadSignedHalf => 2^20 + 3 * 2^5
        end
      + match off with
        | ExtraImmediate imm4H imm4L => 2^22 + imm4H * 2^8 + imm4L
        | ExtraRegister rm => rm
        end
  | TransferMultiple p u w l rn reglist =>
      0x08000000 + Z.b2z p * 2^24 + Z.b2z u * 2^23 + Z.b2z w * 2^21 + Z.b2z l * 2^20 + rn * 2^16 + reglist
  end.

Definition a32_encode (o : a32_op) : Z := o.1 * 2^28 + encode_insn o.2.

(** A register, and one that is not the pc. *)
Definition register4 (r : Z) : bool := field 4 r.
Definition general (r : Z) : bool := field 4 r && negb (r =? 15).

Definition is_comparison (opcode : Z) : bool := (8 <=? opcode) && (opcode <=? 11).

(** The transfer writes its base back. *)
Definition writes_back (p w : bool) : bool := negb p || w.

(** The registers of a pair. *)
Definition is_dual (kind : extra_transfer) : bool := match kind with LoadDual | StoreDual => true | _ => false end.
Definition dual_ok (kind : extra_transfer) (p w : bool) (rn rt : Z) : bool :=
  negb (is_dual kind) || Z.even rt && negb (rt =? 14) && (negb (writes_back p w) || negb (rn =? rt + 1)).

Definition valid_operand2 (op : operand2) (rn rd : Z) : bool :=
  match op with
  | Immediate rotate imm8 => field 4 rotate && field 8 imm8
  | ShiftedRegister rm type imm5 => register4 rm && field 2 type && field 5 imm5
  | RegisterShifted rm type rs => general rm && field 2 type && general rs && general rn && general rd
  end.

Definition valid_insn (i : a32_insn) : bool :=
  match i with
  | DataProcessing opcode s rn rd op =>
      field 4 opcode && register4 rn && register4 rd && valid_operand2 op rn rd
      && (negb (is_comparison opcode) || s && (rd =? 0)) && (negb s || negb (rd =? 15))
  | MoveHalf _ imm4 rd imm12 => field 4 imm4 && general rd && field 12 imm12
  | Multiply a _ rd ra rm rn => general rd && general ra && general rm && general rn && (a || (ra =? 0))
  | MultiplySubtract rd ra rm rn => general rd && general ra && general rm && general rn
  | MultiplyLong _ _ rdhi rdlo rm rn =>
      general rdhi && general rdlo && general rm && general rn && negb (rdhi =? rdlo)
  | CountZeros rd rm => general rd && general rm
  | ExtendAdd _ _ rn rd rotate rm => register4 rn && general rd && field 2 rotate && general rm
  | ReverseOrder _ rd rm => general rd && general rm
  | BitfieldExtract _ widthm1 rd lsb rn =>
      field 5 widthm1 && general rd && field 5 lsb && general rn && (lsb + widthm1 <=? 31)
  | BitfieldInsert msb rd lsb rn => field 5 msb && general rd && field 5 lsb && register4 rn && (lsb <=? msb)
  | BranchLink _ imm24 | BranchLinkExchange _ imm24 => field 24 imm24
  | BranchExchange link rm => register4 rm && (negb link || negb (rm =? 15))
  | Transfer p u b w l rn rt off =>
      (p || negb w) && register4 rn && register4 rt && (negb b || negb (rt =? 15))
      && (negb (writes_back p w) || negb (rn =? 15) && negb (rn =? rt))
      && match off with
         | OffsetImmediate imm12 => field 12 imm12
         | OffsetRegister rm type imm5 =>
             general rm && field 2 type && field 5 imm5 && negb ((type =? 3) && (imm5 =? 0))
         end
  | TransferExtra p u w kind rn rt off =>
      (p || negb w) && general rn && general rt && (negb (writes_back p w) || negb (rn =? rt))
      && dual_ok kind p w rn rt
      && match off with
         | ExtraImmediate imm4H imm4L => field 4 imm4H && field 4 imm4L
         | ExtraRegister rm =>
             general rm && match kind with LoadDual => negb (rm =? rt) && negb (rm =? rt + 1) | _ => true end
         end
  | TransferMultiple p u w l rn reglist =>
      general rn && field 16 reglist && negb (reglist =? 0) && (negb w || negb (Z.testbit reglist rn))
  end.

(** The allocated encodings whose behaviour the architecture defines. *)
Definition a32_valid (o : a32_op) : bool :=
  field 4 o.1 && Bool.eqb (o.1 =? 15) match o.2 with BranchLinkExchange _ _ => true | _ => false end
  && valid_insn o.2.

(** ** The state of the guest *)

(** [R0] to [R14], the status register and the memory. *)
Record a32_state := mkA32 {
  register : Z -> Z;
  cpsr : Z;
  memory : mem
}.

Definition set_reg (i v : Z) (s : a32_state) : a32_state :=
  mkA32 (fun j => if j =? i then v else register s j) (cpsr s) (memory s).
Definition set_cpsr (v : Z) (s : a32_state) : a32_state := mkA32 (register s) v (memory s).
Definition set_memory (m : mem) (s : a32_state) : a32_state := mkA32 (register s) (cpsr s) m.

Definition apsr (s : a32_state) : pstate := flags_of (cpsr s).

(** The status register with other flags. *)
Definition nzcv (f : pstate) (v : Z) : Z :=
  Z.lor (Z.lor (Z.lor (Z.lor (if flagN f then 0x80000000 else 0) (if flagZ f then 0x40000000 else 0))
    (if flagC f then 0x20000000 else 0)) (if flagV f then 0x10000000 else 0)) (Z.land v 0x0fffffff).
Definition set_apsr (f : pstate) (s : a32_state) : a32_state := set_cpsr (nzcv f (cpsr s)) s.

(** ** Shared functions of the pseudocode *)

(** A shift and the carry it gives; a shift by 0 keeps both. *)
Definition Shift_C (type x k : Z) (carry_in : bool) : Z * bool :=
  if k =? 0 then (x, carry_in) else
  match type with
  | 0 => (LSL 32 x k, Z.testbit (Z.shiftl x k) 32)
  | 1 => (LSR x k, Z.testbit x (k - 1))
  | 2 => (ASR 32 x k, Z.testbit (to_signed 32 x) (k - 1))
  | _ => let r := ROR 32 x (k mod 32) in (r, Z.testbit r 31)
  end.

(** [RRX_C] *)
Definition RRX_C (x : Z) (carry_in : bool) : Z * bool :=
  (Z.lor (Z.shiftr x 1) (if carry_in then 2 ^ 31 else 0), Z.testbit x 0).

(** [Shift_C] of what [DecodeImmShift] decodes. *)
Definition ImmShift_C (type imm5 x : Z) (carry_in : bool) : Z * bool :=
  match type with
  | 0 => Shift_C 0 x imm5 carry_in
  | 1 | 2 => Shift_C type x (if imm5 =? 0 then 32 else imm5) carry_in
  | _ => if imm5 =? 0 then RRX_C x carry_in else Shift_C 3 x imm5 carry_in
  end.

(** [ARMExpandImm_C] *)
Definition ARMExpandImm_C (rotate imm8 : Z) (carry_in : bool) : Z * bool := Shift_C 3 imm8 (2 * rotate) carry_in.

(** The result of a data processing instruction and its flags. *)
Definition dp_compute (opcode x y : Z) (carry : bool) (f : pstate) : Z * pstate :=
  let logical r := (r, mkFlags (Z.testbit r 31) (r =? 0) carry (flagV f)) in
  match opcode with
  | 0 | 8 => logical (Z.land x y)
  | 1 | 9 => logical (Z.lxor x y)
  | 2 | 10 => AddWithCarry 32 x (NOT 32 y) true
  | 3 => AddWithCarry 32 (NOT 32 x) y true
  | 4 | 11 => AddWithCarry 32 x y false
  | 5 => AddWithCarry 32 x y (flagC f)
  | 6 => AddWithCarry 32 x (NOT 32 y) (flagC f)
  | 7 => AddWithCarry 32 (NOT 32 x) y (flagC f)
  | 12 => logical (Z.lor x y)
  | 13 => logical y
  | 14 => logical (Z.land x (NOT 32 y))
  | _ => logical (NOT 32 y)
  end.

(** ** Execution *)

Section execution.
(** Whether the guest may access [n] bytes at an address. *)
Context (accessible : Z -> Z -> bool).
(** The address of the instruction. *)
Context (pc : Z).

(** [R[i]] *)
Definition R (i : Z) (s : a32_state) : Z := wrap 32 (if i =? 15 then pc + 8 else register s i).

Definition Mem_read (w : irRegisterType) (a : Z) (s : a32_state) : option Z :=
  if accessible a (bits w / 8) then Some (load_mem w (memory s) a) else None.

Definition Mem_write (w : irRegisterType) (a v : Z) (s : a32_state) : option a32_state :=
  if accessible a (bits w / 8) then Some (set_memory (store_mem w (memory s) a v) s) else None.

(** The operand and the carry.  A shift by a register is only described for the
    amounts that the requests of the front end have a meaning for. *)
Definition operand_value (op : operand2) (s : a32_state) : option (Z * bool) :=
  let c := flagC (apsr s) in
  match op with
  | Immediate rotate imm8 => Some (ARMExpandImm_C rotate imm8 c)
  | ShiftedRegister rm type imm5 => Some (ImmShift_C type imm5 (R rm s) c)
  | RegisterShifted rm type rs =>
      let k := wrap 8 (R rs s) in
      if if type =? 3 then negb (k mod 32 =? 0) else k <? 32
      then Some (Shift_C type (R rm s) k c) else None
  end.

Definition offset_value (off : transfer_offset) (s : a32_state) : Z :=
  match off with
  | OffsetImmediate imm12 => imm12
  | OffsetRegister rm type imm5 => (ImmShift_C type imm5 (R rm s) (flagC (apsr s))).1
  end.

Definition extra_value (off : extra_offset) (s : a32_state) : Z :=
  match off with
  | ExtraImmediate imm4H imm4L => imm4H * 16 + imm4L
  | ExtraRegister rm => R rm s
  end.

Definition data_processing (opcode : Z) (st : bool) (rn rd y : Z) (c : bool) (s : a32_state) : a32_state * option Z :=
  let '(r, f) := dp_compute opcode (R rn s) y c (apsr s) in
  if is_comparison opcode then (set_apsr f s, None)
  else if rd =? 15 then (s, Some r)
  else (if st then set_apsr f (set_reg rd r s) else set_reg rd r s, None).

Definition offset_address (u : bool) (base offset : Z) : Z :=
  wrap 32 (if u then base + offset else base - offset).

(** What an access does, and where it goes on if it loads the pc. *)
Definition transfer (b l : bool) (a rt : Z) (s : a32_state) : option (a32_state * option Z) :=
  let w := if b then IR_REG_8 else IR_REG_32 in
  if l then
    v ← Mem_read w a s;
    Some (if rt =? 15 then (s, Some v) else (set_reg rt v s, None))
  else
    s ← Mem_write w a (R rt s) s; Some (s, None).

Definition transfer_extra (kind : extra_transfer) (a rt : Z) (s : a32_state) : option a32_state :=
  match kind with
  | StoreHalf => Mem_write IR_REG_16 a (R rt s) s
  | LoadHalf => v ← Mem_read IR_REG_16 a s; Some (set_reg rt v s)
  | LoadSignedByte => v ← Mem_read IR_REG_8 a s; Some (set_reg rt (wrap 32 (to_signed 8 v)) s)
  | LoadSignedHalf => v ← Mem_read IR_REG_16 a s; Some (set_reg rt (wrap 32 (to_signed 16 v)) s)
  | LoadDual =>
      v ← Mem_read IR_REG_32 a s; v2 ← Mem_read IR_REG_32 (wrap 32 (a + 4)) s;
      Some (set_reg (rt + 1) v2 (set_reg rt v s))
  | StoreDual => s' ← Mem_write IR_REG_32 a (R rt s) s; Mem_write IR_REG_32 (wrap 32 (a + 4)) (R (rt + 1) s') s'
  end.

(** The registers of a list, from the lowest, at consecutive words. *)
Definition registers (reglist : Z) : list Z := filter (fun i => Z.testbit reglist i = true) (seqZ 0 16).

Fixpoint load_registers (l : list Z) (a : Z) (s : a32_state) : option (a32_state * option Z) :=
  match l with
  | [] => Some (s, None)
  | i :: l =>
      v ← Mem_read IR_REG_32 a s;
      if i =? 15 then Some (s, Some v) else load_registers l (wrap 32 (a + 4)) (set_reg i v s)
  end.

Fixpoint store_registers (l : list Z) (a : Z) (s : a32_state) : option a32_state :=
  match l with
  | [] => Some s
  | i :: l => s' ← Mem_write IR_REG_32 a (R i s) s; store_registers l (wrap 32 (a + 4)) s'
  end.

(** The state after the instruction, and where it branches if it does: to an
    address, whose low bit is set for Thumb code.  [None] when it accesses
    memory it may not. *)
Definition exec_insn (i : a32_insn) (s : a32_state) : option (a32_state * option Z) :=
  let next (s : a32_state) : option (a32_state * option Z) := Some (s, None) in
  match i with
  | DataProcessing opcode st rn rd op =>
      '(y, c) ← operand_value op s; Some (data_processing opcode st rn rd y c s)
  | MoveHalf top imm4 rd imm12 =>
      let imm16 := imm4 * 2 ^ 12 + imm12 in
      next (set_reg rd (if top then R rd s mod 2 ^ 16 + imm16 * 2 ^ 16 else imm16) s)
  | Multiply a st rd ra rm rn =>
      let r := wrap 32 (R rn s * R rm s + if a then R ra s else 0) in
      let f := mkFlags (Z.testbit r 31) (r =? 0) (flagC (apsr s)) (flagV (apsr s)) in
      next (set_reg rd r (if st then set_apsr f s else s))
  | MultiplySubtract rd ra rm rn => next (set_reg rd (wrap 32 (R ra s - R rn s * R rm s)) s)
  | MultiplyLong signed a rdhi rdlo rm rn =>
      let int x := if signed then to_signed 32 x else x in
      let r := int (R rn s) * int (R rm s) + if a then R rdhi s * 2 ^ 32 + R rdlo s else 0 in
      next (set_reg rdlo (wrap 32 r) (set_reg rdhi (wrap 32 (r / 2 ^ 32)) s))
  | CountZeros rd rm => next (set_reg rd (CountLeadingZeroBits 32 (R rm s)) s)
  | ExtendAdd unsigned half rn rd rotate rm =>
      let len := if half then 16 else 8 in
      let x := ROR 32 (R rm s) (8 * rotate) in
      let e := if unsigned then wrap len x else to_signed len x in
      next (set_reg rd (wrap 32 (e + if rn =? 15 then 0 else R rn s)) s)
  | ReverseOrder kind rd rm =>
      let x := R rm s in
      next (set_reg rd match kind with
                       | RevBytes => Reverse_bytes 1 4 x
                       | RevBytes16 => Reverse_bytes 2 2 x
                       | RevBits => BitReverse 32 x
                       | RevSignedHalf => wrap 32 (to_signed 16 (Reverse_bytes 1 2 x))
                       end s)
  | BitfieldExtract unsigned widthm1 rd lsb rn =>
      let x := Z.shiftr (R rn s) lsb in
      next (set_reg rd (if unsigned then wrap (widthm1 + 1) x else wrap 32 (to_signed (widthm1 + 1) x)) s)
  | BitfieldInsert msb rd lsb rn =>
      let mask := Z.shiftl (Z.ones (msb - lsb + 1)) lsb in
      let src := if rn =? 15 then 0 else Z.shiftl (R rn s) lsb in
      next (set_reg rd (Z.lor (Z.land src mask) (Z.ldiff (R rd s) mask)) s)
  | BranchLink link imm24 =>
      Some (if link then set_reg 14 (wrap 32 (pc + 4)) s else s,
            Some (wrap 32 (pc + 8 + SignExtend 26 (imm24 * 4))))
  | BranchExchange link rm =>
      Some (if link then set_reg 14 (wrap 32 (pc + 4)) s else s, Some (R rm s))
  | BranchLinkExchange h imm24 =>
      Some (set_reg 14 (wrap 32 (pc + 4)) s,
            Some (Z.lor (wrap 32 (pc + 8 + SignExtend 26 (imm24 * 4 + Z.b2z h * 2))) 1))
  | Transfer p u b w l rn rt off =>
      let base := R rn s in
      let offset_addr := offset_address u base (offset_value off s) in
      '(s', t) ← transfer b l (if p then offset_addr else base) rt s;
      Some (if writes_back p w then set_reg rn offset_addr s' else s', t)
  | TransferExtra p u w kind rn rt off =>
      let base := R rn s in
      let offset_addr := offset_address u base (extra_value off s) in
      s' ← transfer_extra kind (if p then offset_addr else base) rt s;
      next (if writes_back p w then set_reg rn offset_addr s' else s')
  | TransferMultiple p u w l rn reglist =>
      let base := R rn s in
      let size := 4 * Z.of_nat (length (registers reglist)) in
      let start := if u then base + (if p then 4 else 0) else base - size + (if p then 0 else 4) in
      let back (s' : a32_state) := if w then set_reg rn (wrap 32 (if u then base + size else base - size)) s' else s' in
      if l then
        '(s', t) ← load_registers (registers reglist) (wrap 32 start) s; Some (back s', t)
      else
        s' ← store_registers (registers reglist) (wrap 32 start) s; next (back s')
  end.

(** An instruction whose condition fails does nothing. *)
Definition a32_exec (o : a32_op) (s : a32_state) : option (a32_state * option Z) :=
  if ConditionHolds o.1 (apsr s) then exec_insn o.2 s else Some (s, None).
End execution.
