(* ===== verification/Arm32Fields.v ===== *)
(** * ARM: fields of the encoded instructions

    What the decoder reads back from each encoding, with any condition. *)

From S2P Require Import Prelude Ir FrontGen ArmPseudo Arm32Gen Arm32Helpers Arm32Isa.

(** Hypotheses on fields as inequalities on numerals. *)
Ltac field_bounds32 :=
  unfold valid_insn, valid_operand2, register4, general, field in *;
  repeat match goal with
  | H : context [2 ^ ?k] |- _ =>
      let v := eval vm_compute in (2 ^ k) in progress change (2 ^ k) with v in H
  end;
  change (Z.b2z false) with 0; change (Z.b2z true) with 1;
  repeat match goal with
  | |- context [Z.b2z ?b] => pose proof (b2z_range b); generalize dependent (Z.b2z b); intros
  end.

(** The bits of an access that say which. *)
Definition extra_load (kind : extra_transfer) : bool :=
  match kind with LoadHalf | LoadSignedByte | LoadSignedHalf => true | _ => false end.
Definition extra_op2 (kind : extra_transfer) : Z :=
  match kind with StoreHalf | LoadHalf => 1 | LoadDual | LoadSignedByte => 2 | StoreDual | LoadSignedHalf => 3 end.
Definition reversal_op1 (kind : reversal) : Z := match kind with RevBytes | RevBytes16 => 3 | _ => 7 end.
Definition reversal_op2 (kind : reversal) : Z := match kind with RevBytes | RevBits => 1 | _ => 5 end.

Ltac fields_tac32 :=
  intros Hc Hv; unfold a32_encode; cbn [encode_insn encode_offset fst snd extra_load extra_op2 reversal_op1 reversal_op2 Z.odd];
  repeat (split || apply INSN1_eq); field_bounds32; first [insn_field | field_numerals; lia].

Section fields.
Context (cond : Z).

Lemma fields32_dp_immediate opcode s rn rd rotate imm8 :
  field 4 cond = true -> valid_insn (DataProcessing opcode s rn rd (Immediate rotate imm8)) = true ->
  let e := a32_encode (cond, DataProcessing opcode s rn rd (Immediate rotate imm8)) in
  INSN e 31 28 = cond /\ INSN e 27 25 = 1 /\ INSN1 e 25 = true /\ INSN e 24 20 = opcode * 2 + Z.b2z s /\
  INSN e 24 21 = opcode /\ INSN1 e 20 = s /\ INSN e 19 16 = rn /\ INSN e 15 12 = rd /\ INSN e 11 8 = rotate /\
  INSN e 7 0 = imm8.
Proof. fields_tac32. Qed.

Lemma fields32_dp_shifted opcode s rn rd rm type imm5 :
  field 4 cond = true -> valid_insn (DataProcessing opcode s rn rd (ShiftedRegister rm type imm5)) = true ->
  let e := a32_encode (cond, DataProcessing opcode s rn rd (ShiftedRegister rm type imm5)) in
  INSN e 31 28 = cond /\ INSN e 27 25 = 0 /\ INSN1 e 25 = false /\ INSN e 24 20 = opcode * 2 + Z.b2z s /\
  INSN e 24 21 = opcode /\ INSN1 e 20 = s /\ INSN e 19 16 = rn /\ INSN e 15 12 = rd /\ INSN e 11 7 = imm5 /\
  INSN e 6 5 = type /\ INSN e 7 4 = (imm5 mod 2) * 8 + type * 2 /\ INSN e 4 4 = 0 /\ INSN e 3 0 = rm.
Proof. fields_tac32. Qed.

Lemma fields32_dp_register opcode s rn rd rm type rs :
  field 4 cond = true -> valid_insn (DataProcessing opcode s rn rd (RegisterShifted rm type rs)) = true ->
  let e := a32_encode (cond, DataProcessing opcode s rn rd (RegisterShifted rm type rs)) in
  INSN e 31 28 = cond /\ INSN e 27 25 = 0 /\ INSN1 e 25 = false /\ INSN e 24 20 = opcode * 2 + Z.b2z s /\
  INSN e 24 21 = opcode /\ INSN1 e 20 = s /\ INSN e 19 16 = rn /\ INSN e 15 12 = rd /\ INSN e 11 8 = rs /\
  INSN e 6 5 = type /\ INSN e 7 4 = type * 2 + 1 /\ INSN e 4 4 = 1 /\ INSN e 3 0 = rm.
Proof. fields_tac32. Qed.

Lemma fields32_MoveHalf top imm4 rd imm12 :
  field 4 cond = true -> valid_insn (MoveHalf top imm4 rd imm12) = true ->
  let e := a32_encode (cond, MoveHalf top imm4 rd imm12) in
  INSN e 31 28 = cond /\ INSN e 27 25 = 1 /\ INSN1 e 25 = true /\ INSN e 24 20 = 16 + Z.b2z top * 4 /\
  INSN e 19 16 = imm4 /\ INSN e 15 12 = rd /\ INSN e 11 0 = imm12.
Proof. fields_tac32. Qed.

Lemma fields32_Multiply a s rd ra rm rn :
  field 4 cond = true -> valid_insn (Multiply a s rd ra rm rn) = true ->
  let e := a32_encode (cond, Multiply a s rd ra rm rn) in
  INSN e 31 28 = cond /\ INSN e 27 25 = 0 /\ INSN1 e 25 = false /\ INSN e 24 20 = Z.b2z a * 2 + Z.b2z s /\
  INSN e 23 20 = Z.b2z a * 2 + Z.b2z s /\ INSN e 7 4 = 9 /\ INSN1 e 21 = a /\ INSN1 e 20 = s /\
  INSN e 19 16 = rd /\ INSN e 15 12 = ra /\ INSN e 11 8 = rm /\ INSN e 3 0 = rn.
Proof. fields_tac32. Qed.

Lemma fields32_MultiplySubtract rd ra rm rn :
  field 4 cond = true -> valid_insn (MultiplySubtract rd ra rm rn) = true ->
  let e := a32_encode (cond, MultiplySubtract rd ra rm rn) in
  INSN e 31 28 = cond /\ INSN e 27 25 = 0 /\ INSN1 e 25 = false /\ INSN e 24 20 = 6 /\ INSN e 23 20 = 6 /\
  INSN e 7 4 = 9 /\ INSN e 19 16 = rd /\ INSN e 15 12 = ra /\ INSN e 11 8 = rm /\ INSN e 3 0 = rn.
Proof. fields_tac32. Qed.

Lemma fields32_MultiplyLong signed a rdhi rdlo rm rn :
  field 4 cond = true -> valid_insn (MultiplyLong signed a rdhi rdlo rm rn) = true ->
  let e := a32_encode (cond, MultiplyLong signed a rdhi rdlo rm rn) in
  INSN e 31 28 = cond /\ INSN e 27 25 = 0 /\ INSN1 e 25 = false /\
  INSN e 24 20 = 8 + Z.b2z signed * 4 + Z.b2z a * 2 /\ INSN e 23 20 = 8 + Z.b2z signed * 4 + Z.b2z a * 2 /\
  INSN e 7 4 = 9 /\ INSN1 e 22 = signed /\ INSN1 e 21 = a /\ INSN1 e 20 = false /\ INSN e 19 16 = rdhi /\
  INSN e 15 12 = rdlo /\ INSN e 11 8 = rm /\ INSN e 3 0 = rn.
Proof. fields_tac32. Qed.

Lemma fields32_CountZeros rd rm :
  field 4 cond = true -> valid_insn (CountZeros rd rm) = true ->
  let e := a32_encode (cond, CountZeros rd rm) in
  INSN e 31 28 = cond /\ INSN e 27 25 = 0 /\ INSN1 e 25 = false /\ INSN e 24 20 = 0x16 /\ INSN e 22 21 = 3 /\
  INSN e 7 4 = 1 /\ INSN e 6 4 = 1 /\ INSN e 15 12 = rd /\ INSN e 3 0 = rm.
Proof. fields_tac32. Qed.

Lemma fields32_ExtendAdd unsigned half rn rd rotate rm :
  field 4 cond = true -> valid_insn (ExtendAdd unsigned half rn rd rotate rm) = true ->
  let e := a32_encode (cond, ExtendAdd unsigned half rn rd rotate rm) in
  INSN e 31 28 = cond /\ INSN e 27 25 = 3 /\ INSN1 e 4 = true /\
  INSN e 24 20 = 10 + Z.b2z unsigned * 4 + Z.b2z half /\ INSN e 22 20 = 2 + Z.b2z unsigned * 4 + Z.b2z half /\
  INSN e 7 5 = 3 /\ INSN e 19 16 = rn /\ INSN e 15 12 = rd /\ INSN e 11 10 = rotate /\ INSN e 3 0 = rm.
Proof. fields_tac32. Qed.

Lemma fields32_BitfieldExtract unsigned widthm1 rd lsb rn :
  field 4 cond = true -> valid_insn (BitfieldExtract unsigned widthm1 rd lsb rn) = true ->
  let e := a32_encode (cond, BitfieldExtract unsigned widthm1 rd lsb rn) in
  INSN e 31 28 = cond /\ INSN e 27 25 = 3 /\ INSN1 e 4 = true /\
  INSN e 24 20 = 26 + Z.b2z unsigned * 4 + widthm1 / 16 /\ INSN e 7 5 = (lsb mod 2) * 4 + 2 /\
  INSN e 20 16 = widthm1 /\ INSN e 15 12 = rd /\ INSN e 11 7 = lsb /\ INSN e 3 0 = rn.
Proof. fields_tac32. Qed.

Lemma fields32_BitfieldInsert msb rd lsb rn :
  field 4 cond = true -> valid_insn (BitfieldInsert msb rd lsb rn) = true ->
  let e := a32_encode (cond, BitfieldInsert msb rd lsb rn) in
  INSN e 31 28 = cond /\ INSN e 27 25 = 3 /\ INSN1 e 4 = true /\ INSN e 24 20 = 28 + msb / 16 /\
  INSN e 20 16 = msb /\ INSN e 15 12 = rd /\ INSN e 11 7 = lsb /\ INSN e 3 0 = rn.
Proof. fields_tac32. Qed.

Lemma fields32_BranchLink link imm24 :
  field 4 cond = true -> valid_insn (BranchLink link imm24) = true ->
  let e := a32_encode (cond, BranchLink link imm24) in
  INSN e 31 28 = cond /\ INSN e 27 25 = 5 /\ INSN1 e 25 = true /\ INSN1 e 24 = link /\ INSN e 23 0 = imm24.
Proof. fields_tac32. Qed.

Lemma fields32_BranchExchange link rm :
  field 4 cond = true -> valid_insn (BranchExchange link rm) = true ->
  let e := a32_encode (cond, BranchExchange link rm) in
  INSN e 31 28 = cond /\ INSN e 27 25 = 0 /\ INSN1 e 25 = false /\ INSN e 24 20 = 0x12 /\ INSN e 22 21 = 1 /\
  INSN e 7 4 = 1 + Z.b2z link * 2 /\ INSN e 6 4 = 1 + Z.b2z link * 2 /\ INSN e 3 0 = rm.
Proof. fields_tac32. Qed.

Lemma fields32_BranchLinkExchange h imm24 :
  field 4 cond = true -> valid_insn (BranchLinkExchange h imm24) = true ->
  let e := a32_encode (cond, BranchLinkExchange h imm24) in
  INSN e 31 28 = cond /\ INSN1 e 27 = true /\ INSN e 27 20 = 0xa0 + Z.b2z h * 16 + imm24 / 2 ^ 20 /\
  INSN e 23 0 = imm24 /\ INSN e 24 24 = Z.b2z h.
Proof. fields_tac32. Qed.

Lemma fields32_Transfer_immediate p u b w l rn rt imm12 :
  field 4 cond = true -> valid_insn (Transfer p u b w l rn rt (OffsetImmediate imm12)) = true ->
  let e := a32_encode (cond, Transfer p u b w l rn rt (OffsetImmediate imm12)) in
  INSN e 31 28 = cond /\ INSN e 27 25 = 2 /\ INSN1 e 25 = false /\ INSN1 e 24 = p /\ INSN1 e 23 = u /\
  INSN1 e 22 = b /\ INSN1 e 21 = w /\ INSN1 e 20 = l /\ INSN e 19 16 = rn /\ INSN e 15 12 = rt /\
  INSN e 11 0 = imm12.
Proof. fields_tac32. Qed.

Lemma fields32_Transfer_register p u b w l rn rt rm type imm5 :
  field 4 cond = true -> valid_insn (Transfer p u b w l rn rt (OffsetRegister rm type imm5)) = true ->
  let e := a32_encode (cond, Transfer p u b w l rn rt (OffsetRegister rm type imm5)) in
  INSN e 31 28 = cond /\ INSN e 27 25 = 3 /\ INSN1 e 25 = true /\ INSN1 e 4 = false /\ INSN1 e 24 = p /\
  INSN1 e 23 = u /\ INSN1 e 22 = b /\ INSN1 e 21 = w /\ INSN1 e 20 = l /\ INSN e 19 16 = rn /\
  INSN e 15 12 = rt /\ INSN e 11 7 = imm5 /\ INSN e 6 5 = type /\ INSN e 3 0 = rm.
Proof. fields_tac32. Qed.

Lemma fields32_TransferMultiple p u w l rn reglist :
  field 4 cond = true -> valid_insn (TransferMultiple p u w l rn reglist) = true ->
  let e := a32_encode (cond, TransferMultiple p u w l rn reglist) in
  INSN e 31 28 = cond /\ INSN e 27 25 = 4 /\ INSN1 e 25 = false /\ INSN1 e 24 = p /\ INSN1 e 23 = u /\
  INSN1 e 22 = false /\ INSN1 e 21 = w /\ INSN1 e 20 = l /\ INSN e 19 16 = rn /\ INSN e 15 0 = reglist.
Proof. fields_tac32. Qed.

Lemma fields32_ReverseOrder kind rd rm :
  field 4 cond = true -> valid_insn (ReverseOrder kind rd rm) = true ->
  let e := a32_encode (cond, ReverseOrder kind rd rm) in
  INSN e 31 28 = cond /\ INSN e 27 25 = 3 /\ INSN1 e 4 = true /\ INSN e 24 20 = 8 + reversal_op1 kind /\
  INSN e 22 20 = reversal_op1 kind /\ INSN e 7 5 = reversal_op2 kind /\ INSN e 15 12 = rd /\ INSN e 3 0 = rm.
Proof. destruct kind; fields_tac32. Qed.

Lemma fields32_Extra_immediate p u w kind rn rt imm4H imm4L :
  field 4 cond = true -> valid_insn (TransferExtra p u w kind rn rt (ExtraImmediate imm4H imm4L)) = true ->
  let e := a32_encode (cond, TransferExtra p u w kind rn rt (ExtraImmediate imm4H imm4L)) in
  INSN e 31 28 = cond /\ INSN e 27 25 = 0 /\ INSN1 e 25 = false /\
  INSN e 24 20 = Z.b2z p * 16 + Z.b2z u * 8 + 4 + Z.b2z w * 2 + Z.b2z (extra_load kind) /\
  INSN e 7 4 = 9 + extra_op2 kind * 2 /\ INSN e 6 5 = extra_op2 kind /\ INSN1 e 5 = Z.odd (extra_op2 kind) /\
  INSN1 e 24 = p /\ INSN1 e 23 = u /\ INSN1 e 21 = w /\ INSN1 e 20 = extra_load kind /\ INSN e 19 16 = rn /\
  INSN e 15 12 = rt /\ INSN e 11 8 = imm4H /\ INSN e 3 0 = imm4L.
Proof. destruct kind; fields_tac32. Qed.

Lemma fields32_Extra_register p u w kind rn rt rm :
  field 4 cond = true -> valid_insn (TransferExtra p u w kind rn rt (ExtraRegister rm)) = true ->
  let e := a32_encode (cond, TransferExtra p u w kind rn rt (ExtraRegister rm)) in
  INSN e 31 28 = cond /\ INSN e 27 25 = 0 /\ INSN1 e 25 = false /\
  INSN e 24 20 = Z.b2z p * 16 + Z.b2z u * 8 + Z.b2z w * 2 + Z.b2z (extra_load kind) /\
  INSN e 7 4 = 9 + extra_op2 kind * 2 /\ INSN e 6 5 = extra_op2 kind /\ INSN1 e 5 = Z.odd (extra_op2 kind) /\
  INSN1 e 24 = p /\ INSN1 e 23 = u /\ INSN1 e 21 = w /\ INSN1 e 20 = extra_load kind /\ INSN e 19 16 = rn /\
  INSN e 15 12 = rt /\ INSN e 3 0 = rm.
Proof. destruct kind; fields_tac32. Qed.
End fields.

(** * ARM: flags and carries

    The helpers compute the status register the architecture defines, and the
    carry out of the shifter. *)

(** ** The status register *)

Lemma land_pow2 x k : 0 <= k -> Z.land x (2 ^ k) = if Z.testbit x k then 2 ^ k else 0.
Proof.
  intros Hk. apply Z.bits_inj'. intros i Hi. rewrite Z.land_spec, Z.pow2_bits_eqb by done.
  destruct (Z.eqb_spec k i) as [->|]; [destruct (Z.testbit x i) eqn:E|rewrite andb_false_r; destruct (Z.testbit x k)];
    rewrite ?Z.testbit_0_l; try done; rewrite ?Z.pow2_bits_true, ?Z.pow2_bits_false by done; done.
Qed.

(** The carry where the helpers take it and leave it. *)
Definition carry_word (c : bool) : Z := if c then 0x20000000 else 0.

Lemma carry_word_range c : 0 <= carry_word c < 2 ^ 32.
Proof. by destruct c. Qed.

Lemma overflow_bit_eq x : overflow_bit x = if Z.testbit x 31 then 0x10000000 else 0.
Proof.
  unfold overflow_bit. change 0x10000000 with (2 ^ 28). rewrite land_pow2 by done.
  by rewrite Z.shiftr_spec by done.
Qed.

Lemma nzcv_eq calc c v f old :
  flagN f = Z.testbit calc 31 -> flagZ f = (calc =? 0) -> c = carry_word (flagC f) ->
  v = (if flagV f then 0x10000000 else 0) ->
  Z.lor (Z.lor (Z.lor (Z.lor (Z.land calc 0x80000000) (if calc =? 0 then 0x40000000 else 0)) c) v) (Z.land old 0x0fffffff)
  = nzcv f old.
Proof.
  intros HN HZ -> ->. unfold nzcv, carry_word. rewrite HN, HZ. change 0x80000000 with (2 ^ 31) at 1.
  by rewrite land_pow2.
Qed.

Lemma flags_of_nzcv f v : flags_of (nzcv f v) = f.
Proof.
  destruct f as [n z c o]. unfold flags_of, nzcv. cbn [flagN flagZ flagC flagV].
  rewrite !Z.lor_spec, !Z.land_spec. f_equal; destruct n, z, c, o; vm_compute (Z.testbit (Zpos _) _); rewrite andb_false_r; reflexivity.
Qed.

Lemma nzcv_range32 f v : 0 <= nzcv f v < 2 ^ 32.
Proof.
  unfold nzcv. repeat apply lor_range; try lia; try (case_match; lia).
  change 0x0fffffff with (Z.ones 28). rewrite wrap_land_ones by lia. pose proof (wrap_range 28 v). lia.
Qed.

(** ** Results *)

Lemma AddWithCarry_comm n x y c : AddWithCarry n x y c = AddWithCarry n y x c.
Proof. unfold AddWithCarry. by rewrite (Z.add_comm x y), (Z.add_comm (to_signed n x)). Qed.

Lemma lxor_NOT x : 0 <= x < 2 ^ 32 -> Z.lxor x 0xffffffff = NOT 32 x.
Proof. intros. change 0xffffffff with (Z.ones 32). by apply NOT_lxor. Qed.

Lemma NOT_range32 x : 0 <= x < 2 ^ 32 -> 0 <= NOT 32 x < 2 ^ 32.
Proof. intros. by apply (NOT_range 32). Qed.

Lemma dp_compute_range opcode x y c f :
  0 <= x < 2 ^ 32 -> 0 <= y < 2 ^ 32 -> 0 <= (dp_compute opcode x y c f).1 < 2 ^ 32.
Proof.
  intros Hx Hy. pose proof (NOT_range32 _ Hy) as Hny. pose proof (NOT_range32 _ Hx) as Hnx.
  unfold dp_compute. repeat case_match; cbn [fst];
    first [done|apply (land_range 32); done|apply (lxor_range 32); done|apply (lor_range 32); done
          |unfold AddWithCarry; cbn [fst]; apply (wrap_range 32); lia].
Qed.

(** ** [compute_next_flags] *)

Section next_flags.
Context (x y : Z) (Hx : 0 <= x < 2 ^ 32) (Hy : 0 <= y < 2 ^ 32).

(** A subtraction. *)
Lemma sub_nzcv old :
  let calc := wrap 32 (x - y) in
  Z.lor (Z.lor (Z.lor (Z.lor (Z.land calc 0x80000000) (if calc =? 0 then 0x40000000 else 0)) (carry_bit (y <=? x)))
    (overflow_bit (Z.land (Z.lxor x y) (Z.lxor x calc)))) (Z.land old 0x0fffffff)
  = nzcv (AddWithCarry 32 x (NOT 32 y) true).2 old.
Proof.
  intros calc. rewrite <- (sub_flags 32) by auto. fold calc.
  apply nzcv_eq; cbn [flagN flagZ flagC flagV]; [done..|]. apply overflow_bit_eq.
Qed.

(** An addition, with a carry or without. *)
Lemma add_nzcv (c : bool) old :
  let calc := wrap 32 (x + y + Z.b2z c) in
  Z.lor (Z.lor (Z.lor (Z.lor (Z.land calc 0x80000000) (if calc =? 0 then 0x40000000 else 0))
    (carry_bit (if c then calc <=? x else calc <? x)))
    (overflow_bit (Z.land (Z.lxor calc x) (Z.lxor calc y)))) (Z.land old 0x0fffffff)
  = nzcv (AddWithCarry 32 x y c).2 old.
Proof.
  intros calc. assert (Hw : 32 = 32 \/ 32 = 64) by auto. unfold AddWithCarry. cbn [snd]. fold calc.
  apply nzcv_eq; cbn [flagN flagZ flagC flagV]; [done..| |].
  - pose proof (carry_out 32 x y c Hw Hx Hy) as Ho. cbv zeta in Ho. fold calc in Ho. by rewrite Ho.
  - rewrite overflow_bit_eq. pose proof (ArmPseudo.overflow_bit 32 x y c Hw Hx Hy) as Ho. cbv zeta in Ho. fold calc in Ho.
    change 31 with (32 - 1). rewrite Ho. by destruct (_ =? _).
Qed.

(** The other subtractions are additions of the complement. *)
Lemma sub_overflow calc :
  0 <= calc < 2 ^ 32 ->
  overflow_bit (Z.land (Z.lxor x y) (Z.lxor x calc)) = overflow_bit (Z.land (Z.lxor calc x) (Z.lxor calc (NOT 32 y))).
Proof.
  intros Hc. rewrite !overflow_bit_eq, !Z.land_spec, !Z.lxor_spec. rewrite <- lxor_NOT by done.
  rewrite Z.lxor_spec. change (Z.testbit 0xffffffff 31) with true.
  by destruct (Z.testbit x 31), (Z.testbit y 31), (Z.testbit calc 31).
Qed.
End next_flags.

Lemma carry_of_eq (c : bool) calc a :
  carry_bit (if negb (Z.b2z c =? 0) then calc <=? a else calc <? a) = carry_bit (if c then calc <=? a else calc <? a).
Proof. by destruct c. Qed.

(** The helper computes the flags of the architecture. *)
Lemma compute_next_flags_spec opcode x y c old :
  0 <= opcode < 16 -> 0 <= x < 2 ^ 32 -> 0 <= y < 2 ^ 32 ->
  compute_next_flags (Z.lor opcode (carry_word c)) x y old =
    Some (nzcv (dp_compute opcode x y c (flags_of old)).2 old).
Proof.
  intros Ho Hx Hy. pose proof (NOT_range32 _ Hx) as Hnx. pose proof (NOT_range32 _ Hy) as Hny.
  unfold compute_next_flags.
  assert (Z.land (Z.lor opcode (carry_word c)) 0xf = opcode /\ Z.land (Z.lor opcode (carry_word c)) 0x20000000 = carry_word c)
    as [-> ->].
  { assert (In opcode (map Z.of_nat (seq 0 16))) as Hin by (apply in_map_iff; exists (Z.to_nat opcode); rewrite in_seq; lia).
    vm_compute in Hin. destruct c; repeat (destruct Hin as [<-|Hin]; [by split|]); done. }
  rewrite one_bit, !lxor_NOT by done.
  assert (Hlog : forall r, Some (Z.lor (Z.lor (Z.lor (Z.lor (Z.land r 0x80000000) (if r =? 0 then 0x40000000 else 0))
      (carry_word c)) (Z.land old 0x10000000)) (Z.land old 0x0fffffff)) =
    Some (nzcv (mkFlags (Z.testbit r 31) (r =? 0) c (flagV (flags_of old))) old)).
  { intros r. f_equal. apply nzcv_eq; cbn [flagN flagZ flagC flagV flags_of]; [done..|].
    change 0x10000000 with (2 ^ 28). by rewrite land_pow2. }
  assert (Hsubc : forall a b, 0 <= a < 2 ^ 32 -> 0 <= b < 2 ^ 32 ->
    let calc := wrap 32 (a + NOT 32 b + Z.b2z (Z.testbit old 29)) in
    Z.lor (Z.lor (Z.lor (Z.lor (Z.land calc 0x80000000) (if calc =? 0 then 0x40000000 else 0))
      (carry_bit (if negb (Z.b2z (Z.testbit old 29) =? 0) then calc <=? a else calc <? a)))
      (overflow_bit (Z.land (Z.lxor a b) (Z.lxor a calc)))) (Z.land old 0x0fffffff) =
    nzcv (AddWithCarry 32 a (NOT 32 b) (Z.testbit old 29)).2 old).
  { intros a b Ha Hb calc. rewrite carry_of_eq, (sub_overflow a b Hb) by (apply (wrap_range 32); lia).
    by rewrite <- (add_nzcv a (NOT 32 b)) by (done || by apply NOT_range32). }
  assert (In opcode (map Z.of_nat (seq 0 16))) as Hin by (apply in_map_iff; exists (Z.to_nat opcode); rewrite in_seq; lia).
  vm_compute in Hin. unfold dp_compute.
  repeat (destruct Hin as [<-|Hin]; [cbv beta iota zeta; try apply Hlog|]); [f_equal..|done].
  - by apply sub_nzcv.
  - rewrite AddWithCarry_comm. by apply sub_nzcv.
  - pose proof (add_nzcv x y Hx Hy false old) as H. cbn [Z.b2z] in H. by rewrite Z.add_0_r in H.
  - rewrite carry_of_eq. by apply add_nzcv.
  - by apply Hsubc.
  - rewrite (AddWithCarry_comm 32 (NOT 32 x)). by apply Hsubc.
  - by apply sub_nzcv.
  - pose proof (add_nzcv x y Hx Hy false old) as H. cbn [Z.b2z] in H. by rewrite Z.add_0_r in H.
Qed.

(** ** [compute_sco] *)

Lemma carry_at v : Z.land v 0x20000000 = carry_word (Z.testbit v 29).
Proof. change 0x20000000 with (2 ^ 29). by rewrite land_pow2. Qed.

(** The bit the right shifts move out. *)
Lemma carry_right x k :
  0 < k -> Z.land (wrap 32 (Z.shiftl (Z.shiftr x (k - 1)) 29)) 0x20000000 = carry_word (Z.testbit x (k - 1)).
Proof.
  intros Hk. rewrite carry_at, testbit_wrap by lia. change (29 <? 32) with true.
  rewrite Z.shiftl_spec, Z.shiftr_spec by lia. cbn [andb]. by replace (29 - 29 + (k - 1)) with (k - 1) by lia.
Qed.

Lemma carry_left x k :
  0 < k <= 32 -> Z.land (Z.shiftr (shl_32 x (k - 1)) 2) 0x20000000 = carry_word (Z.testbit (Z.shiftl x k) 32).
Proof.
  intros Hk. unfold shl_32. change 31 with (Z.ones 5). rewrite wrap_land_ones, (wrap_small 5) by lia.
  rewrite carry_at, Z.shiftr_spec, testbit_wrap by lia. change (29 + 2 <? 32) with true.
  rewrite !Z.shiftl_spec by lia. cbn [andb]. by replace (29 + 2 - (k - 1)) with (32 - k) by lia.
Qed.

Lemma ROR_top x k : 0 <= x < 2 ^ 32 -> 0 < k < 32 -> Z.testbit (ROR 32 x k) 31 = Z.testbit x (k - 1).
Proof.
  intros Hx Hk. unfold ROR. rewrite testbit_wrap by lia. change (31 <? 32) with true.
  rewrite Z.lor_spec, Z.shiftr_spec, Z.shiftl_spec by lia. rewrite (range_testbit 32 x (31 + k)) by lia.
  cbn [andb orb]. by replace (31 - (32 - k)) with (k - 1) by lia.
Qed.

Lemma wrap8_land k : Z.land k 0xff = wrap 8 k.
Proof. change 0xff with (Z.ones 8). by apply wrap_land_ones. Qed.

Lemma four_types type : 0 <= type < 4 -> type = 0 \/ type = 1 \/ type = 2 \/ type = 3.
Proof. lia. Qed.

(** The carry of a shift by an amount in the instruction. *)
Lemma compute_sco_immediate insn type imm5 x cpsr :
  INSN insn 6 5 = type -> INSN insn 4 4 = 0 -> 0 <= type < 4 -> 0 <= imm5 < 32 -> 0 <= x < 2 ^ 32 ->
  compute_sco insn x imm5 cpsr = Some (carry_word (ImmShift_C type imm5 x (flagC (flags_of cpsr))).2).
Proof.
  intros Ht Hb Htr Hi Hx. unfold compute_sco. rewrite Ht, Hb, wrap8_land, (wrap_small 8) by lia.
  change (0 =? 0) with true. cbn [andb]. cbv zeta. unfold ImmShift_C, Shift_C.
  destruct (four_types type Htr) as [-> | [-> | [-> | ->]]]; cbv iota; f_equal.
  - rewrite (proj2 (Z.ltb_ge 32 imm5)) by lia. destruct (Z.eqb_spec imm5 0); cbn [negb snd].
    + by rewrite carry_at.
    + rewrite carry_left by lia. done.
  - destruct (Z.eqb_spec imm5 0) as [->|].
    + change (32 <? 32) with false. change (32 =? 0) with false. cbn [negb snd]. by apply carry_right.
    + rewrite (proj2 (Z.ltb_ge 32 imm5)), (proj2 (Z.eqb_neq imm5 0)) by lia. cbn [negb snd]. apply carry_right. lia.
  - destruct (Z.eqb_spec imm5 0) as [->|].
    + change (32 <=? 32) with true. change (32 =? 0) with false. cbn [snd]. rewrite testbit_to_signed by lia.
      change (Z.min (32 - 1) (32 - 1)) with 31. change 0x80000000 with (2 ^ 31). rewrite land_pow2 by lia.
      by destruct (Z.testbit x 31).
    + rewrite (proj2 (Z.leb_gt 32 imm5)), (proj2 (Z.eqb_neq imm5 0)) by lia. cbn [negb snd]. apply carry_right. lia.
  - destruct (Z.eqb_spec imm5 0) as [->|]; cbn [negb].
    + unfold RRX_C. cbn [snd]. change 1 with (2 ^ 0) at 1. rewrite land_pow2 by lia. by destruct (Z.testbit x 0).
    + change 0x1f with (Z.ones 5). rewrite wrap_land_ones, (wrap_small 5), (proj2 (Z.eqb_neq imm5 0)) by lia.
      cbn [negb snd]. rewrite (Z.mod_small imm5 32), ROR_top by lia. apply carry_right. lia.
Qed.

(** The carry of a shift by a register, [k] being its low byte. *)
Lemma compute_sco_register insn type k x cpsr :
  INSN insn 6 5 = type -> INSN insn 4 4 = 1 -> 0 <= type < 4 -> 0 <= k < 256 -> 0 <= x < 2 ^ 32 ->
  (if type =? 3 then negb (k mod 32 =? 0) else k <? 32) = true ->
  compute_sco insn x k cpsr = Some (carry_word (Shift_C type x k (flagC (flags_of cpsr))).2).
Proof.
  intros Ht Hb Htr Hi Hx Hk. unfold compute_sco. rewrite Ht, Hb, wrap8_land, (wrap_small 8) by lia.
  change (1 =? 0) with false. cbn [andb]. cbv zeta. unfold Shift_C.
  destruct (four_types type Htr) as [-> | [-> | [-> | ->]]]; cbn [Z.eqb Pos.eqb] in Hk; cbv iota in *; f_equal.
  1-3: rewrite ?(proj2 (Z.ltb_ge 32 k)), ?(proj2 (Z.leb_gt 32 k)) by lia;
    destruct (Z.eqb_spec k 0); cbn [negb snd]; [by rewrite carry_at|]; first [apply carry_left; lia|apply carry_right; lia].
  assert (k <> 0) by (intros ->; discriminate). rewrite (proj2 (Z.eqb_neq k 0)) by done. cbn [negb snd].
  change 0x1f with (Z.ones 5). rewrite wrap_land_ones by lia. unfold wrap at 1 2. change (2 ^ 5) with 32.
  rewrite Hk. pose proof (Z.mod_pos_bound k 32). apply negb_true_iff, Z.eqb_neq in Hk.
  rewrite ROR_top by lia. apply carry_right. lia.
Qed.

Lemma ImmShift_range type imm5 x c :
  0 <= x < 2 ^ 32 -> 0 <= imm5 < 32 -> 0 <= (ImmShift_C type imm5 x c).1 < 2 ^ 32.
Proof.
  intros Hx Hi. unfold ImmShift_C, Shift_C, RRX_C, LSL, LSR, ASR, ROR.
  repeat case_match; cbn [fst]; try done; try (apply (wrap_range 32); lia); try (apply (shiftr_range 32); lia).
  all: apply (lor_range 32); [lia|apply (shiftr_range 32); lia|]; try (destruct c; lia).
Qed.
