(* ===== verification/Arm32Sim.v ===== *)
(** * The ARM guest behind the requests

    The registers and the status register are fields of the context in memory,
    the memory of the guest is at an offset.  The pc of the context and the
    carry of the shifter are where the front end leaves values for itself: they
    are states of the host, not of the guest. *)

From S2P Require Import Prelude Ir Jitter IrRequests FrontGen FrontWp FrontTyped ArmPseudo Arm32Gen Arm32Dis Arm32Decode Arm32Typed Arm32Helpers Arm32Isa.

(** ** States *)

Record a32_host := mkHost32 {
  core : a32_state;
  context_pc : Z;
  shifter_carry : Z
}.

Definition host_reg (g : a32_host) (i : Z) : Z := if i =? 15 then context_pc g else register (core g) i.
Definition set_host_reg (i v : Z) (g : a32_host) : a32_host :=
  if i =? 15 then mkHost32 (core g) v (shifter_carry g)
  else mkHost32 (set_reg i v (core g)) (context_pc g) (shifter_carry g).
Definition set_host_cpsr (v : Z) (g : a32_host) : a32_host :=
  mkHost32 (set_cpsr v (core g)) (context_pc g) (shifter_carry g).
Definition set_carry (v : Z) (g : a32_host) : a32_host := mkHost32 (core g) (context_pc g) v.
Definition set_host_memory (m : mem) (g : a32_host) : a32_host :=
  mkHost32 (set_memory m (core g)) (context_pc g) (shifter_carry g).

(** The context and the memory of the guest do not wrap around the address space. *)
Class arm_layout `{ArmHost} (ctx : Z) : Prop := {
  layout_context : 0 <= ctx /\ ctx + 416 <= 2 ^ 64;
  layout_memory : 0 < mmap_offset /\ mmap_offset + 2 ^ 32 < 2 ^ 64
}.

(** The guest does not use the context. *)
Definition guest_accessible32 `{ArmHost} (ctx a n : Z) : bool :=
  (0 <=? a) && (a + n <=? 2 ^ 32) && ((a + mmap_offset + n <=? ctx) || (ctx + 416 <=? a + mmap_offset)).

(** A word of the context. *)
Definition word_at (ctx off : Z) (m : mem) : Z := load_mem IR_REG_32 m (ctx + off).

Record represents32 `{ArmHost} (ctx : Z) (g : a32_host) (m : mem) : Prop := mkRepresents32 {
  rep32_reg : forall i, 0 <= i <= 15 -> host_reg g i = word_at ctx (off_r i) m;
  rep32_cpsr : cpsr (core g) = word_at ctx off_cpsr m;
  rep32_carry : shifter_carry g = word_at ctx off_shifter_carry_out m;
  rep32_memory : forall a, guest_accessible32 ctx a 1 = true -> memory (core g) a = m (a + mmap_offset)
}.

#[export] Instance arm32_guest `{ArmHost} ctx : GuestRep ctx bool a32_host := {|
  front_init := false;
  guest_represents := represents32 ctx
|}.

(** ** Memory at an offset *)

Lemma store_bytes_offset bs m m' a o x :
  0 <= a -> a + Z.of_nat (length bs) <= 2 ^ 32 -> 0 <= o -> o + 2 ^ 32 <= 2 ^ 64 ->
  m (x + o) = m' x -> store_bytes bs m (a + o) (x + o) = store_bytes bs m' a x.
Proof.
  revert m m' a. induction bs as [|b bs IH]; intros m m' a Ha Hl Ho Hoe Hx; [done|].
  cbn [store_bytes length] in *. replace (a + o + 1) with (a + 1 + o) by lia. apply IH; [lia..|].
  rewrite !wrap_small by lia. repeat case_decide; [done|lia|lia|done].
Qed.

Lemma load_bytes_offset n m m' a o :
  0 <= a -> a + Z.of_nat n <= 2 ^ 32 -> 0 <= o -> o + 2 ^ 32 <= 2 ^ 64 ->
  (forall x, a <= x < a + Z.of_nat n -> m' x = m (x + o)) -> load_bytes n m (a + o) = load_bytes n m' a.
Proof.
  revert a. induction n as [|n IH]; intros a Ha Hn Ho Hoe Hx; [done|]. cbn [load_bytes].
  replace (a + o + 1) with (a + 1 + o) by lia. rewrite IH by (try lia; intros x Hx'; apply Hx; lia).
  rewrite (wrap_small 64 (a + o)), (wrap_small 64 a) by lia. by rewrite (Hx a) by lia.
Qed.

(** The upper half of a word. *)
Lemma load_mem_halves m a : load_mem IR_REG_32 m a = load_mem IR_REG_16 m a + 2 ^ 16 * load_mem IR_REG_16 m (a + 2).
Proof.
  unfold load_mem. change (Z.to_nat (bits IR_REG_32 / 8)) with (2 + 2)%nat. change (Z.to_nat (bits IR_REG_16 / 8)) with 2%nat.
  by rewrite load_bytes_app, le_join_app, length_load_bytes.
Qed.

Lemma load_mem_half_low m a : load_mem IR_REG_16 m a = load_mem IR_REG_32 m a mod 2 ^ 16.
Proof.
  rewrite load_mem_halves. pose proof (load_mem_range IR_REG_16 m a) as Hr. cbn [bits] in Hr.
  rewrite Z.mul_comm, Z.mod_add by lia. by rewrite Z.mod_small.
Qed.

Section rep.
Context `{Hhost : ArmHost} {ctx : Z} `{Hlay : !arm_layout ctx}.
Abbreviation represents32 := (represents32 ctx).
Abbreviation accessible := (guest_accessible32 ctx).

(** ** Fields of the context *)

(** Where a word of the context may be. *)
Definition word_off (off : Z) : bool := (0 <=? off) && (off <=? 412) && (off mod 4 =? 0).

Lemma word_at_store off off' v m :
  word_off off = true -> word_off off' = true ->
  word_at ctx off' (store_mem IR_REG_32 m (ctx + off) v) = if off' =? off then wrap 32 v else word_at ctx off' m.
Proof.
  intros Ho Ho'. unfold word_off in *. destruct layout_context. unfold word_at. destruct (Z.eqb_spec off' off) as [->|Hne].
  - apply (load_store_same IR_REG_32); change (bits IR_REG_32 / 8) with 4; lia.
  - apply load_store_disjoint; change (bits IR_REG_32 / 8) with 4; Z.div_mod_to_equations; lia.
Qed.

Lemma word_at_range off m : 0 <= word_at ctx off m < 2 ^ 32.
Proof. apply (load_mem_range IR_REG_32). Qed.

Lemma word_off_r i : 0 <= i <= 15 -> word_off (off_r i) = true.
Proof. unfold word_off, off_r. intros. Z.div_mod_to_equations. lia. Qed.

(** A store in the context is not seen in the memory of the guest. *)
Lemma context_store w off v m a :
  0 <= off -> off + bits w / 8 <= 416 -> accessible a 1 = true ->
  store_mem w m (ctx + off) v (a + mmap_offset) = m (a + mmap_offset).
Proof.
  intros Ho Hoe Ha. unfold guest_accessible32 in Ha. destruct layout_context, layout_memory.
  unfold store_mem. pose proof (bytes_range w). apply store_bytes_other; rewrite ?length_store; lia.
Qed.

Lemma rep32_word off v g g' m :
  represents32 g m -> word_off off = true -> memory (core g') = memory (core g) ->
  (forall i, 0 <= i <= 15 -> host_reg g' i = if off_r i =? off then wrap 32 v else host_reg g i) ->
  cpsr (core g') = (if off_cpsr =? off then wrap 32 v else cpsr (core g)) ->
  shifter_carry g' = (if off_shifter_carry_out =? off then wrap 32 v else shifter_carry g) ->
  represents32 g' (store_mem IR_REG_32 m (ctx + off) v).
Proof.
  intros [Hr Hc Hs Hm] Ho Hmem Hr' Hc' Hs'. split.
  - intros i Hi. rewrite word_at_store by (done || by apply word_off_r). by rewrite Hr', Hr.
  - rewrite word_at_store by done. by rewrite Hc', Hc.
  - rewrite word_at_store by done. by rewrite Hs', Hs.
  - intros a Ha. rewrite Hmem, Hm by done. unfold word_off in Ho. symmetry.
    apply context_store; [lia|change (bits IR_REG_32 / 8) with 4; lia|done].
Qed.

Lemma off_r_eqb i j : (off_r i =? off_r j) = (i =? j).
Proof. unfold off_r. lia. Qed.

Ltac word_fields :=
  unfold off_r, off_cpsr, off_shifter_carry_out, off_helper_pc in *; rewrite ?(proj2 (Z.eqb_neq _ _)) by lia.

Lemma rep32_set_reg i v g m :
  represents32 g m -> 0 <= i <= 15 -> 0 <= v < 2 ^ 32 ->
  represents32 (set_host_reg i v g) (store_mem IR_REG_32 m (ctx + off_r i) v).
Proof.
  intros Hm Hi Hv. apply (rep32_word _ _ g); [done|by apply word_off_r|unfold set_host_reg; by destruct (i =? 15)|..].
  - intros j Hj. rewrite off_r_eqb, wrap_small by done. unfold host_reg, set_host_reg.
    destruct (Z.eqb_spec i 15) as [->|], (Z.eqb_spec j 15) as [->|];
      cbn [core context_pc register set_reg]; try done.
    by rewrite (proj2 (Z.eqb_neq 15 i)) by lia.
  - word_fields. unfold set_host_reg. by destruct (i =? 15).
  - word_fields. unfold set_host_reg. by destruct (i =? 15).
Qed.

Lemma rep32_set_cpsr v g m :
  represents32 g m -> 0 <= v < 2 ^ 32 ->
  represents32 (set_host_cpsr v g) (store_mem IR_REG_32 m (ctx + off_cpsr) v).
Proof.
  intros Hm Hv. apply (rep32_word _ _ g); [done..| | |done].
  - intros j Hj. by word_fields.
  - by rewrite Z.eqb_refl, wrap_small.
Qed.

Lemma rep32_set_carry v g m :
  represents32 g m -> 0 <= v < 2 ^ 32 ->
  represents32 (set_carry v g) (store_mem IR_REG_32 m (ctx + off_shifter_carry_out) v).
Proof.
  intros Hm Hv. apply (rep32_word _ _ g); [done..| |done|].
  - intros j Hj. by word_fields.
  - by rewrite Z.eqb_refl, wrap_small.
Qed.

Lemma rep32_helper_pc v g m :
  represents32 g m -> represents32 g (store_mem IR_REG_32 m (ctx + off_helper_pc) v).
Proof. intros Hm. apply (rep32_word _ _ g); try done. intros j Hj. by word_fields. Qed.

(** The upper half of a register. *)
Lemma rep32_set_half i v g m :
  represents32 g m -> 0 <= i < 15 -> 0 <= v < 2 ^ 16 ->
  represents32 (set_host_reg i (host_reg g i mod 2 ^ 16 + v * 2 ^ 16) g) (store_mem IR_REG_16 m (ctx + (off_r i + 2)) v).
Proof.
  intros Hm Hi Hv. destruct layout_context.
  assert (Hother : forall off, word_off off = true -> off <> off_r i ->
    word_at ctx off (store_mem IR_REG_16 m (ctx + (off_r i + 2)) v) = word_at ctx off m).
  { intros off Ho Hne. unfold word_off, off_r in *. unfold word_at.
    apply load_store_disjoint; change (bits IR_REG_32 / 8) with 4; change (bits IR_REG_16 / 8) with 2;
      Z.div_mod_to_equations; lia. }
  unfold set_host_reg. rewrite (proj2 (Z.eqb_neq i 15)) by lia. split; cbn.
  - intros j Hj. unfold host_reg at 1. cbn. destruct (Z.eqb_spec j 15) as [->|].
    { rewrite Hother by (done || unfold off_r; lia). by rewrite <- (rep32_reg _ _ _ Hm 15). }
    destruct (Z.eqb_spec j i) as [->|].
    + rewrite (rep32_reg _ _ _ Hm) by lia. unfold word_at. rewrite (load_mem_halves (store_mem _ _ _ _)).
      rewrite load_store_disjoint by (unfold off_r; change (bits IR_REG_16 / 8) with 2; lia).
      replace (ctx + off_r i + 2) with (ctx + (off_r i + 2)) by lia.
      rewrite load_store_same by (unfold off_r; change (bits IR_REG_16 / 8) with 2; lia).
      rewrite (wrap_small (bits IR_REG_16) v) by done. rewrite <- load_mem_half_low. lia.
    + rewrite Hother by (try (by apply word_off_r); unfold off_r; lia).
      rewrite <- (rep32_reg _ _ _ Hm) by done. unfold host_reg. by rewrite (proj2 (Z.eqb_neq j 15)).
  - rewrite Hother by (done || unfold off_cpsr, off_r; lia). apply Hm.
  - rewrite Hother by (done || unfold off_shifter_carry_out, off_r; lia). apply Hm.
  - intros a Ha. rewrite (rep32_memory _ _ _ Hm) by done. symmetry.
    apply context_store; [unfold off_r; lia|change (bits IR_REG_16 / 8) with 2; unfold off_r; lia|done].
Qed.

(** ** Accesses of the guest *)

Lemma accessible32_byte a n x : accessible a n = true -> a <= x < a + n -> accessible x 1 = true.
Proof. unfold guest_accessible32. lia. Qed.

Lemma rep32_load w a g m :
  represents32 g m -> accessible a (bits w / 8) = true ->
  load_mem w m (a + mmap_offset) = load_mem w (memory (core g)) a.
Proof.
  intros Hm Ha. unfold load_mem. f_equal. pose proof (bytes_range w). destruct layout_memory.
  apply load_bytes_offset; try (unfold guest_accessible32 in Ha; lia).
  intros x Hx. apply (rep32_memory _ _ _ Hm). eapply accessible32_byte; [exact Ha|lia].
Qed.

Lemma rep32_store w a v g m :
  represents32 g m -> accessible a (bits w / 8) = true ->
  represents32 (set_host_memory (store_mem w (memory (core g)) a v) g) (store_mem w m (a + mmap_offset) v).
Proof.
  intros Hm Ha. pose proof (bytes_range w). destruct layout_context, layout_memory.
  assert (Hword : forall off, word_off off = true ->
    word_at ctx off (store_mem w m (a + mmap_offset) v) = word_at ctx off m).
  { intros off Ho. unfold word_off, guest_accessible32 in *. unfold word_at.
    apply load_store_disjoint; change (bits IR_REG_32 / 8) with 4; lia. }
  split; cbn.
  - intros i Hi. rewrite Hword by (by apply word_off_r). by rewrite <- (rep32_reg _ _ _ Hm).
  - rewrite Hword by done. apply Hm.
  - rewrite Hword by done. apply Hm.
  - intros x Hx. symmetry. unfold guest_accessible32 in Ha.
    apply store_bytes_offset; rewrite ?length_store; try lia. symmetry. by apply (rep32_memory _ _ _ Hm).
Qed.
End rep.
