(* ===== verification/Arm32Rules.v ===== *)
(** * Symbolic execution of the ARM front end

    Rules for the sequence shortcuts on states of the guest, for the condition
    before an instruction, and the tactics that run the body of a [dis_*]
    function. *)

From S2P Require Import Prelude Ir Jitter IrRequests FrontGen FrontWp FrontTyped ArmPseudo Arm32Gen Arm32Dis Arm32Decode Arm32Typed Arm32Helpers Arm32Isa Arm32Sim.

Lemma R_range pc i s : 0 <= R pc i s < 2 ^ 32.
Proof. apply wrap_range. lia. Qed.

Lemma gives_total {A} {S : Type} (P : A -> regTypes -> Prop) k (g : genM S A) :
  (forall Γ, gives P k g Γ) -> total g.
Proof.
  intros Hg st rs. destruct (Hg (replicate (count_regs rs) IR_REG_8) st rs) as (a & st' & new & E & _).
  { by rewrite length_replicate. }
  by exists a, st', new.
Qed.

Section rules.
Context `{Hhost : ArmHost} {ir_call ctx} `{!Arm32Calls ir_call ctx} `{Hlay : !arm_layout ctx}.
Context (pc : Z).
Abbreviation awp := (awp (ir_call := ir_call) (ctx := ctx) (S := bool) (G := a32_host)).
Abbreviation accessible := (guest_accessible32 ctx).

(** ** Registers *)

Lemma off_r_small i : 0 <= i <= 15 -> 0 <= off_r i < 2 ^ 31.
Proof. unfold off_r. lia. Qed.

Lemma awp_read_reg i Q E vs g :
  0 <= i <= 15 -> Q (length vs) (vs ++ [(IR_REG_32, R pc i (core g))]) g -> awp (read_reg pc i) Q E vs g.
Proof.
  awp_intro. unfold read_reg, R in *. destruct (Z.eqb_spec i 15) as [->|].
  - apply gwp_mov_const. cbn [bits]. awp_done; [apply (wrap_range 32); lia|by eauto].
  - apply gwp_read_context; [by apply off_r_small|].
    pose proof (rep32_reg _ _ _ Hm i H) as Hr. unfold host_reg, word_at in Hr.
    rewrite (proj2 (Z.eqb_neq i 15)) in Hr by done. rewrite <- Hr.
    pose proof (word_at_range (ctx := ctx) (off_r i) m) as Hrange. unfold word_at in Hrange. rewrite <- Hr in Hrange.
    rewrite wrap_small in H0 by done. awp_done; [done|]. by eauto.
Qed.

Lemma awp_write_reg i r v Q E vs g :
  0 <= i <= 15 -> rdv IR_REG_32 vs r = Some v -> Q tt vs (set_host_reg i v g) -> awp (write_reg i r) Q E vs g.
Proof.
  awp_intro. eapply gwp_write_context; [by apply off_r_small|done|]. awp_done. eexists. split; [|done].
  apply rep32_set_reg; [done..|]. by eapply (rdv_range IR_REG_32).
Qed.

Lemma awp_read_context_pc Q E vs g :
  Q (length vs) (vs ++ [(IR_REG_32, context_pc g)]) g -> awp (ir.add_read_context IR_REG_32 (off_r 15)) Q E vs g.
Proof.
  awp_intro. apply gwp_read_context; [by apply off_r_small|].
  pose proof (rep32_reg _ _ _ Hm 15 ltac:(lia)) as Hr. unfold word_at in Hr.
  change (host_reg g 15) with (context_pc g) in Hr. rewrite <- Hr.
  awp_done; [rewrite Hr; apply load_mem_range|by eauto].
Qed.

Lemma awp_write_half i r v Q E vs g :
  0 <= i < 15 -> rdv IR_REG_16 vs r = Some v ->
  Q tt vs (set_host_reg i (R pc i (core g) mod 2 ^ 16 + v * 2 ^ 16) g) ->
  awp (ir.add_write_context IR_REG_16 r (off_r i + 2)) Q E vs g.
Proof.
  awp_intro. eapply gwp_write_context; [unfold off_r; lia|done|]. awp_done. eexists. split; [|done].
  assert (R pc i (core g) = host_reg g i) as ->.
  { unfold R, host_reg. rewrite (proj2 (Z.eqb_neq i 15)) by lia. apply wrap_small.
    pose proof (rep32_reg _ _ _ Hm i ltac:(lia)) as Hr. unfold host_reg in Hr.
    rewrite (proj2 (Z.eqb_neq i 15)) in Hr by lia. rewrite Hr. apply word_at_range. }
  apply rep32_set_half; [done..|]. by eapply (rdv_range IR_REG_16).
Qed.

Lemma awp_read_cpsr Q E vs g :
  (0 <= cpsr (core g) < 2 ^ 32 -> Q (length vs) (vs ++ [(IR_REG_32, cpsr (core g))]) g) -> awp read_cpsr Q E vs g.
Proof.
  awp_intro. apply gwp_read_context; [done|]. pose proof (rep32_cpsr _ _ _ Hm) as Hc.
  pose proof (word_at_range (ctx := ctx) off_cpsr m) as Hr. rewrite <- Hc in Hr. unfold word_at in Hc. rewrite <- Hc.
  awp_done; [done|]. eauto.
Qed.

Lemma awp_write_cpsr r v Q E vs g :
  rdv IR_REG_32 vs r = Some v -> Q tt vs (set_host_cpsr v g) -> awp (write_cpsr r) Q E vs g.
Proof.
  awp_intro. eapply gwp_write_context; [done|done|]. awp_done. eexists. split; [|done].
  apply rep32_set_cpsr; [done..|]. by eapply (rdv_range IR_REG_32).
Qed.

Lemma awp_read_sco Q E vs g :
  Q (length vs) (vs ++ [(IR_REG_32, shifter_carry g)]) g -> awp read_sco Q E vs g.
Proof.
  awp_intro. apply gwp_read_context; [done|]. pose proof (rep32_carry _ _ _ Hm) as Hc. unfold word_at in Hc.
  rewrite <- Hc. awp_done; [rewrite Hc; apply load_mem_range|by eauto].
Qed.

Lemma awp_write_sco r v Q E vs g :
  rdv IR_REG_32 vs r = Some v -> Q tt vs (set_carry v g) -> awp (write_sco r) Q E vs g.
Proof.
  awp_intro. eapply gwp_write_context; [done|done|]. awp_done. eexists. split; [|done].
  apply rep32_set_carry; [done..|]. by eapply (rdv_range IR_REG_32).
Qed.

(** ** Memory *)

Lemma awp_mk_address r x Q E vs g :
  rdv IR_REG_32 vs r = Some x ->
  (forall r' vs', rdv IR_REG_64 vs' r' = Some (x + mmap_offset) -> extends vs vs' -> Q r' vs' g) ->
  awp (mk_address r) Q E vs g.
Proof.
  intros Hr HQ. apply awp_ok. intros Hok. pose proof (rdv_range IR_REG_32 _ _ _ Hok Hr) as Hx. cbn [bits] in Hx.
  destruct layout_memory. unfold mk_address. rewrite (proj2 (Z.eqb_neq mmap_offset 0)) by lia. cbn [negb].
  apply awp_bind. eapply awp_cast; [exact Hr|]. apply awp_bind, awp_mov_const.
  eapply awp_binop; [rdv|rdv|reflexivity|]. apply HQ; [|extends].
  eapply rdv_eq; [rdv|]. unfold irCast_sem. cbn [cast_dst cast_signed bits]. rewrite wrap_add_r.
  by rewrite (wrap_small 64 x), wrap_small by lia.
Qed.

Lemma awp_load32 w a x v Q E vs g :
  rdv IR_REG_64 vs a = Some (x + mmap_offset) -> Mem_read accessible w x (core g) = Some v ->
  Q (length vs) (vs ++ [(w, v)]) g -> awp (ir.add_load w a) Q E vs g.
Proof.
  awp_intro. unfold Mem_read in *. case_match eqn:Ha; [|done]. simplify_eq.
  eapply gwp_load; [done|]. rewrite (rep32_load w x g m) by done. awp_done; [apply load_mem_range|by eauto].
Qed.

Lemma awp_store32 w r a x v s' Q E vs g :
  rdv IR_REG_64 vs a = Some (x + mmap_offset) -> rdv w vs r = Some v ->
  Mem_write accessible w x v (core g) = Some s' ->
  Q tt vs (mkHost32 s' (context_pc g) (shifter_carry g)) -> awp (ir.add_store w r a) Q E vs g.
Proof.
  awp_intro. unfold Mem_write in *. case_match eqn:Ha; [|done]. simplify_eq.
  eapply gwp_store; [done..|]. awp_done. eexists. split; [|done]. by apply rep32_store.
Qed.

(** ** Calls *)

Lemma awp_mk_helper32 h Q E vs g :
  Q (length vs) (vs ++ [(IR_REG_64, arm_helper_address h)]) g -> awp (mk_helper h) Q E vs g.
Proof.
  intros HQ. apply awp_mov_const. rewrite (wrap_small (bits IR_REG_64)); [done|]. apply arm_helper_address_range.
Qed.

(** A call of a helper that only computes. *)
Lemma awp_call w h a ps l v Q E vs g :
  rdv IR_REG_64 vs a = Some (arm_helper_address h) -> rdv_params vs ps = Some l ->
  pure_helper32 h l = Some (w, v) -> 0 <= v < 2 ^ bits w ->
  (forall r vs', rdv w vs' r = Some v -> extends vs vs' -> Q r vs' g) ->
  awp (mk_call pc w a ps) Q E vs g.
Proof.
  awp_intro. unfold mk_call. apply gwp_bind, gwp_mov_const. apply gwp_bind.
  eapply gwp_write_context; [done|apply rdv_last|].
  apply gwp_bind. eapply gwp_request_reg.
  { cbn [req_step]. rewrite (rdv_app_l _ _ _ _ _ H), (rdv_params_app_l _ _ _ _ H0). cbn [mbind option_bind].
    rewrite (pure_call32 _ _ _ _ _ H1). cbn [mbind option_bind]. reflexivity. }
  apply gwp_bind, gwp_mov_const. apply gwp_bind. eapply gwp_write_context; [done|apply rdv_last|].
  apply gwp_ret. cbn [bits]. change (wrap 32 0) with 0. split; [done|].
  rewrite (wrap_small (bits w) v) by done. split.
  { repeat apply values_ok_snoc; try done. apply (wrap_range 32). lia. }
  exists g. split; [by do 2 apply rep32_helper_pc|]. apply H3; [apply rdv_app_l, rdv_last|extends].
Qed.

(** ** Leaving the block *)

Lemma awp_exit_32 r v Q (E : unit -> Z -> a32_host -> Prop) vs g :
  rdv IR_REG_32 vs r = Some v -> E tt v g -> awp (exit_32 r) Q E vs g.
Proof.
  intros Hr HE. apply awp_ok. intros Hok. pose proof (rdv_range IR_REG_32 _ _ _ Hok Hr) as Hv. cbn [bits] in Hv.
  unfold exit_32. apply awp_bind. eapply awp_cast; [exact Hr|]. eapply awp_exit; [rdv|].
  unfold irCast_sem. cbn [cast_dst cast_signed bits]. by rewrite wrap_small by lia.
Qed.

(** ** Conditions *)

Lemma compute_flags_pred_spec32 cond v :
  0 <= cond < 14 -> compute_flags_pred cond v = Some (Z.b2z (negb (ConditionHolds cond (flags_of v)))).
Proof.
  intros Hc. unfold compute_flags_pred, ConditionHolds, flags_of.
  change 0x40000000 with (2 ^ 30). change 0x20000000 with (2 ^ 29).
  change 0x80000000 with (2 ^ 31). change 0x10000000 with (2 ^ 28).
  rewrite !test_bit, !one_bit by lia. cbn [flagN flagZ flagC flagV].
  generalize (Z.testbit v 31), (Z.testbit v 30), (Z.testbit v 29), (Z.testbit v 28). intros n z c o.
  assert (cond = 0 \/ cond = 1 \/ cond = 2 \/ cond = 3 \/ cond = 4 \/ cond = 5 \/ cond = 6 \/ cond = 7 \/
    cond = 8 \/ cond = 9 \/ cond = 10 \/ cond = 11 \/ cond = 12 \/ cond = 13) by lia.
  destruct n, z, c, o; repeat match goal with H : _ \/ _ |- _ => destruct H as [H|H] end; by subst.
Qed.

(** The test of a condition, then [k] where it holds. *)
Lemma awp_condition cond (k : gen bool) Q E vs g :
  0 <= cond < 14 -> total k ->
  (ConditionHolds cond (apsr (core g)) = true -> forall vs' g', core g' = core g -> awp k Q E vs' g') ->
  (ConditionHolds cond (apsr (core g)) = false -> forall b g', core g' = core g -> E b (wrap 32 (pc + 4)) g') ->
  awp (mk_condition pc cond;; k) Q E vs g.
Proof.
  intros Hc Ht Hholds Hfails. apply awp_bind_leave. unfold mk_condition.
  apply awp_bind, awp_mov_const. apply awp_bind, awp_read_cpsr. intros Hr. apply awp_bind, awp_mk_helper32.
  apply awp_bind. eapply (awp_call IR_REG_32 arm_hlp_compute_flags_pred); [rdv|params| | |].
  { cbn [pure_helper32 bits]. rewrite wrap_small, compute_flags_pred_spec32 by lia. reflexivity. }
  { by destruct (ConditionHolds _ _). }
  intros p vs' Hp He. apply awp_bind, awp_mov_const. apply awp_bind. eapply awp_write_reg; [lia|rdv|].
  apply awp_bind, awp_mov_const. eapply awp_exit_cond; [rdv|apply rdv_lookup; rdv|].
  unfold apsr in *. destruct (ConditionHolds cond _); cbn [negb Z.b2z Z.eqb].
  - by apply Hholds.
  - split; [done|]. intros b. cbn [bits]. rewrite (wrap_small 64) by (pose proof (wrap_range 32 (pc + 4)); lia).
    by apply Hfails.
Qed.
End rules.

(** ** Running a body *)

(** The value of an operator, a shift being by less than the width. *)
Ltac binop_value32 :=
  cbn [irBinop_sem];
  lazymatch goal with
  | |- (if ?b then _ else _) = _ =>
      replace b with true by (symmetry; apply Z.ltb_lt; cbn [bits]; lia); reflexivity
  | |- _ => reflexivity
  end.

(** One step of the body of a [dis_*] function, when it has only one way to go. *)
Ltac awp_step32 :=
  lazymatch goal with
  | |- awp (mret _) _ _ _ _ => apply awp_ret
  | |- awp (_ ;; mret ?b) _ _ _ _ => apply awp_last
  | |- awp (_ ≫= _) _ _ _ _ => apply awp_bind
  | |- awp (mk_64 _) _ _ _ _ => apply awp_mov_const
  | |- awp (mk_32 _) _ _ _ _ => apply awp_mov_const
  | |- awp (mk_16 _) _ _ _ _ => apply awp_mov_const
  | |- awp (mk_8 _) _ _ _ _ => apply awp_mk_8; [lia|]
  | |- awp (read_reg _ _) _ _ _ _ => apply awp_read_reg; [lia|]
  | |- awp (write_reg _ _) _ _ _ _ => eapply awp_write_reg; [lia|rdv|]
  | |- awp read_cpsr _ _ _ _ => apply awp_read_cpsr; intros ?Hcpsr
  | |- awp (write_cpsr _) _ _ _ _ => eapply awp_write_cpsr; [rdv|]
  | |- awp read_sco _ _ _ _ => apply awp_read_sco
  | |- awp (write_sco _) _ _ _ _ => eapply awp_write_sco; [rdv|]
  | |- awp (mk_helper _) _ _ _ _ => apply awp_mk_helper32
  | |- awp (mk_address _) _ _ _ _ => eapply awp_mk_address; [rdv|intros ?r ?vs ?Hr ?He]
  | |- awp (ir.add_cast _ _) _ _ _ _ => eapply awp_cast; [rdv|]
  | |- awp (op_32 _ _ _) _ _ _ _ => eapply awp_binop; [rdv|rdv|binop_value32|]
  | |- awp (ir.add_binop _ _ _ _) _ _ _ _ => eapply awp_binop; [rdv|rdv|binop_value32|]
  | |- awp (ir.add_ite _ _ _ _) _ _ _ _ => eapply awp_ite; [apply rdv_lookup; rdv|rdv|rdv|]
  | |- awp (ir.add_exit _) _ _ _ _ => eapply awp_exit; [rdv|]
  | |- awp (exit_32 _) _ _ _ _ => eapply awp_exit_32; [rdv|]
  end.

Ltac steps32 := repeat awp_step32.

(** ** What is proved of each instruction *)

(** How the translation of an instruction that leads to [s'] ends: it falls to
    the next one, or leaves the block where it branches. *)
Definition falls32 (s' : a32_state) (t : option Z) : bool -> irValues -> a32_host -> Prop :=
  fun isExit _ g => isExit = false /\ core g = s' /\ t = None.
Definition leaves32 (s' : a32_state) (t : option Z) : bool -> Z -> a32_host -> Prop :=
  fun _ v g => core g = s' /\ t = Some v.

Section correct.
Context `{Hhost : ArmHost} {ir_call ctx} `{!Arm32Calls ir_call ctx} `{Hlay : !arm_layout ctx}.
Context (pc : Z).
Abbreviation awp := (awp (ir_call := ir_call) (ctx := ctx) (S := bool) (G := a32_host)).
Abbreviation accessible := (guest_accessible32 ctx).

(** How the translation leaves a block: where the instruction branches, or for
    the next one when its condition fails. *)
Definition leaves_insn32 (holds : bool) (s' : a32_state) (t : option Z) : bool -> Z -> a32_host -> Prop :=
  fun _ v g' => core g' = s' /\ if holds then t = Some v else t = None /\ v = wrap 32 (pc + 4).

(** The translation of the instruction does what the architecture says; it goes
    on in the block when the condition holds and it does not branch. *)
Definition a32_correct (o : a32_op) : Prop :=
  forall vs g s' t, a32_valid o = true -> a32_exec accessible pc o (core g) = Some (s', t) ->
  let holds := ConditionHolds o.1 (apsr (core g)) in
  awp (disassemble_insn pc (a32_encode o)) (fun isExit vs' g' => falls32 s' t isExit vs' g' /\ holds = true)
    (leaves_insn32 holds s' t) vs g.

(** The same without the condition, for the functions behind it. *)
Definition body_correct (i : a32_insn) (e : Z) : Prop :=
  forall vs g s' t, exec_insn accessible pc i (core g) = Some (s', t) ->
  awp (dis_conditional_insn pc e) (falls32 s' t) (leaves32 s' t) vs g.

Lemma conditional_correct cond i :
  INSN (a32_encode (cond, i)) 31 28 = cond -> (valid_insn i = true -> body_correct i (a32_encode (cond, i))) ->
  cond <> 15 -> a32_correct (cond, i).
Proof.
  intros Hcond Hbody Hne vs g s' t Hv He. unfold a32_valid in Hv. cbn [fst snd] in Hv.
  rewrite !andb_true_iff in Hv. destruct Hv as [[Hr _] Hvi]. unfold field in Hr. change (2 ^ 4) with 16 in Hr.
  unfold a32_exec in He. cbn [fst snd] in *. unfold disassemble_insn. rewrite Hcond, (proj2 (Z.eqb_neq cond 15)) by done.
  assert (Hgo : forall vs' g', core g' = core g -> ConditionHolds cond (apsr (core g)) = true ->
    awp (dis_conditional_insn pc (a32_encode (cond, i)))
      (fun isExit vs' g' => falls32 s' t isExit vs' g' /\ ConditionHolds cond (apsr (core g)) = true)
      (leaves_insn32 (ConditionHolds cond (apsr (core g))) s' t) vs' g').
  { intros vs' g' Hg Hh. rewrite Hh in *. eapply awp_mono; [|intros a vs2 g2 H2; split; [exact H2|done]].
    eapply awp_mono_exit; [apply Hbody; [done|by rewrite Hg]|]. intros a v g2 H2. exact H2. }
  destruct (Z.ltb_spec cond 14).
  - apply awp_condition; [lia| | |].
    + eapply gives_total. intros Γ. apply arm_gives_dis_conditional_insn.
    + intros Hh vs' g' Hg. by apply Hgo.
    + intros Hh b g' Hg. rewrite Hh in *. simplify_eq. by split.
  - apply awp_bind, awp_ret. apply Hgo; [done|]. assert (cond = 14) as -> by lia. reflexivity.
Qed.
End correct.

(** Known fields, everywhere. *)
Ltac rewrite_fields32 :=
  unfold f_rd, f_rn, f_rm, f_rs;
  repeat match goal with
  | Hf : INSN _ _ _ = _ |- _ => progress rewrite ?Hf
  | Hf : INSN1 _ _ = _ |- _ => progress rewrite ?Hf
  end; cbv beta iota zeta; cbn [negb andb orb].

(** Forget the encoding, keep its fields. *)
Ltac with_fields32 F Hc Hv :=
  let Hf := fresh "Hf" in
  pose proof Hv as Hf; eapply F in Hf; [|exact Hc]; cbv zeta in Hf;
  match type of Hf with context [a32_encode ?o] => generalize dependent (a32_encode o) end;
  intros ?e Hf; destruct_and! Hf.

(** Bounds in [valid_insn], as inequalities. *)
Ltac open_valid32 Hv :=
  cbn [valid_insn valid_operand2] in Hv; unfold register4, general, field in Hv;
  repeat match type of Hv with context [2 ^ Zpos ?k] =>
    let v := eval vm_compute in (2 ^ Zpos k) in progress change (2 ^ Zpos k) with v in Hv
  end.

(** Comparisons of numerals, and the matches on them. *)
Ltac decide_tests32 :=
  repeat match goal with
  | |- context [Zpos ?p =? Zpos ?q] =>
      let v := eval vm_compute in (Zpos p =? Zpos q) in change (Zpos p =? Zpos q) with v
  | |- context [0 =? Zpos ?q] => change (0 =? Zpos q) with false
  | |- context [Zpos ?p =? 0] => change (Zpos p =? 0) with false
  | |- context [0 =? 0] => change (0 =? 0) with true
  | |- context [Zpos ?p <=? Zpos ?q] =>
      let v := eval vm_compute in (Zpos p <=? Zpos q) in change (Zpos p <=? Zpos q) with v
  | |- context [Z.land (Zpos ?p) (Zpos ?q)] =>
      let v := eval vm_compute in (Z.land (Zpos p) (Zpos q)) in change (Z.land (Zpos p) (Zpos q)) with v
  | |- context [Z.land 0 (Zpos ?q)] => change (Z.land 0 (Zpos q)) with 0
  end;
  cbv beta iota zeta; cbn [negb andb orb].

(** Fields that have become numerals. *)
Ltac closed_fields :=
  repeat match goal with
  | H : INSN _ _ _ = ?v |- _ =>
      lazymatch v with
      | Zpos _ => fail
      | 0 => fail
      | _ => let v' := eval vm_compute in v in
             lazymatch v' with Zpos _ => change v with v' in H | 0 => change v with v' in H end
      end
  end.

(** Fields that are no longer needed, before equations are substituted. *)
Ltac forget_fields :=
  repeat match goal with H : INSN _ _ _ = _ |- _ => clear H | H : INSN1 _ _ = _ |- _ => clear H end.

(** Decode an instruction. *)
Ltac start32 F :=
  intros Hc Hv vs g s' t He; with_fields32 F Hc Hv; open_valid32 Hv; unfold dis_conditional_insn; rewrite_fields32; decide_tests32.
Tactic Notation "enter32" reference(d) := unfold d; rewrite_fields32; decide_tests32.
