(* ===== verification/Arm32Alu.v ===== *)
(** * The ARM front end is right on data processing *)

From S2P Require Import Prelude Ir Jitter IrRequests FrontGen FrontWp FrontTyped ArmPseudo Arm32Gen Arm32Dis Arm32DisMisc Arm32Decode Arm32Helpers Arm32Isa Arm32Fields Arm32Sim Arm32Rules.

(** ** Decoding *)

(** An opcode and its flag bit do not look like a miscellaneous instruction. *)
Lemma dp_not_misc opcode st :
  0 <= opcode < 16 -> (is_comparison opcode = true -> st = true) ->
  (opcode * 2 + Z.b2z st =? 0x10) = false /\ (opcode * 2 + Z.b2z st =? 0x14) = false /\
  (Z.land (opcode * 2 + Z.b2z st) 0x1b =? 0x12) = false /\ (Z.land (opcode * 2 + Z.b2z st) 0x19 =? 0x10) = false.
Proof.
  intros Ho Hc. assert (In opcode [0; 1; 2; 3; 4; 5; 6; 7; 8; 9; 10; 11; 12; 13; 14; 15]) as Hin by (cbn; lia).
  cbn [In] in Hin. clear Ho. repeat (destruct Hin as [<-|Hin]; [destruct st; try (by vm_compute); by discriminate Hc|]). done.
Qed.

(** The bits 4 to 7 of an operand that is shifted by an immediate, and by a register. *)
Lemma op2_shifted v :
  0 <= v < 8 ->
  (v * 2 =? 9) = false /\ ((v * 2 =? 0xb) || (v * 2 =? 0xd) || (v * 2 =? 0xf)) = false /\ Z.land (v * 2) 1 = 0.
Proof.
  intros Hv. assert (In v [0; 1; 2; 3; 4; 5; 6; 7]) as Hin by (cbn; lia).
  cbn [In] in Hin. by repeat (destruct Hin as [<-|Hin]; [by vm_compute|]).
Qed.

Lemma op2_register v :
  0 <= v < 4 ->
  (v * 2 + 1 =? 9) = false /\ ((v * 2 + 1 =? 0xb) || (v * 2 + 1 =? 0xd) || (v * 2 + 1 =? 0xf)) = false /\
  Z.land (v * 2 + 1) 1 = 1.
Proof.
  intros Hv. destruct (four_types v Hv) as [-> | [-> | [-> | ->]]]; by vm_compute.
Qed.

(** The fields of the instruction as the helpers are given it. *)
Lemma INSN_wrap e msb lsb : 0 <= lsb <= msb -> msb < 32 -> INSN (wrap 32 e) msb lsb = INSN e msb lsb.
Proof.
  intros H H1. unfold INSN. rewrite Z.shiftl_1_l, Z.sub_1_r, <- Z.ones_equiv. apply Z.bits_inj'. intros i Hi.
  rewrite !Z.land_spec, !Z.shiftr_spec, testbit_wrap by lia. destruct (Z.ltb_spec i (msb - lsb + 1)).
  - by rewrite (proj2 (Z.ltb_lt (i + lsb) 32)) by lia.
  - by rewrite Z.ones_spec_high, !andb_false_r by lia.
Qed.

(** A rotated byte. *)
Lemma rotated_byte imm k :
  0 <= imm < 2 ^ 8 -> 0 < k < 32 -> Z.lor (shr_32 imm k) (shl_32 imm (32 - k)) = ROR 32 imm k.
Proof.
  intros Hi Hk. unfold shr_32, shl_32, ROR. change 31 with (Z.ones 5). rewrite !wrap_land_ones, !(wrap_small 5) by lia.
  rewrite wrap_bits_lor by lia. f_equal. symmetry. apply wrap_small. apply (shiftr_range 32); lia.
Qed.

Section alu.
Context `{Hhost : ArmHost} {ir_call ctx} `{!Arm32Calls ir_call ctx} `{Hlay : !arm_layout ctx}.
Context (pc : Z).
Abbreviation awp := (awp (ir_call := ir_call) (ctx := ctx) (S := bool) (G := a32_host)).
Abbreviation body_correct := (body_correct (ir_call := ir_call) (ctx := ctx) pc).

(** ** Values *)

Lemma awp_read_carry (Q : nat -> irValues -> a32_host -> Prop) E vs g :
  (forall r vs', rdv IR_REG_32 vs' r = Some (Z.b2z (flagC (apsr (core g)))) -> extends vs vs' -> Q r vs' g) ->
  awp read_carry Q E vs g.
Proof.
  intros HQ. unfold read_carry. steps32. apply HQ; [|extends]. eapply rdv_eq; [rdv|].
  change (wrap (bits IR_REG_32) 1) with 1. by rewrite one_bit.
Qed.

Lemma awp_not_32 r x (Q : nat -> irValues -> a32_host -> Prop) E vs g :
  rdv IR_REG_32 vs r = Some x ->
  (forall r' vs', rdv IR_REG_32 vs' r' = Some (NOT 32 x) -> extends vs vs' -> Q r' vs' g) ->
  awp (not_32 r) Q E vs g.
Proof.
  intros Hr HQ. apply awp_ok. intros Hok. pose proof (rdv_range IR_REG_32 _ _ _ Hok Hr) as Hx. unfold not_32. steps32.
  apply HQ; [|extends]. eapply rdv_eq; [rdv|]. change (wrap (bits IR_REG_32) 0xffffffff) with 0xffffffff. by apply lxor_NOT.
Qed.

Lemma sixteen (opcode : Z) : 0 <= opcode < 16 ->
  In opcode [0; 1; 2; 3; 4; 5; 6; 7; 8; 9; 10; 11; 12; 13; 14; 15].
Proof. intros. cbn. lia. Qed.

Lemma wrap_sum a b c : wrap 32 (a + wrap 32 (b + c)) = wrap 32 (a + b + c).
Proof. rewrite wrap_add_r. f_equal. lia. Qed.

(** The result of each opcode is the architecture's. *)
Lemma awp_result opcode op1 op2 x y c E vs g :
  0 <= opcode < 16 -> rdv IR_REG_32 vs op1 = Some x -> rdv IR_REG_32 vs op2 = Some y ->
  awp (data_processing_result opcode op1 op2)
    (fun result vs' g' => g' = g /\ extends vs vs' /\
       match result with
       | Some r => is_comparison opcode = false /\ rdv IR_REG_32 vs' r = Some (dp_compute opcode x y c (apsr (core g))).1
       | None => is_comparison opcode = true
       end) E vs g.
Proof.
  intros Ho Hx Hy. pose proof (sixteen _ Ho) as Hin. clear Ho. cbn [In] in Hin.
  assert (Hdone : forall r v vs', rdv IR_REG_32 vs' r = Some v -> extends vs vs' -> is_comparison opcode = false ->
    v = (dp_compute opcode x y c (apsr (core g))).1 ->
    g = g /\ extends vs vs' /\ is_comparison opcode = false /\
    rdv IR_REG_32 vs' r = Some (dp_compute opcode x y c (apsr (core g))).1) by (by intros r v vs' ? ? ? ->).
  apply awp_ok. intros Hok.
  pose proof (rdv_range IR_REG_32 _ _ _ Hok Hx) as Hxr. pose proof (rdv_range IR_REG_32 _ _ _ Hok Hy) as Hyr. cbn [bits] in *.
  repeat (destruct Hin as [<-|Hin]; [unfold data_processing_result; cbv beta iota|]); [..|done]; steps32;
    try (by split; [|split; [extends|]]);
    try (eapply Hdone; [rdv|extends|done|]; unfold dp_compute; cbv beta iota zeta; cbn [fst]; try done).
  - unfold AddWithCarry. cbn [fst Z.b2z]. by rewrite sub_is_add_not.
  - rewrite AddWithCarry_comm. unfold AddWithCarry. cbn [fst Z.b2z]. by rewrite sub_is_add_not.
  - unfold AddWithCarry. cbn [fst Z.b2z]. by rewrite Z.add_0_r.
  - apply awp_read_carry. intros r vs' Hr He. steps32. eapply Hdone; [rdv|extends|done|].
    unfold dp_compute; cbv beta iota zeta; cbn [fst]. apply wrap_sum.
  - apply awp_read_carry. intros r vs' Hr He. steps32. eapply awp_not_32; [rdv|]. intros r2 vs2 Hr2 He2. steps32.
    eapply Hdone; [rdv|extends|done|]. unfold dp_compute; cbv beta iota zeta; cbn [fst]. apply wrap_sum.
  - apply awp_read_carry. intros r vs' Hr He. steps32. eapply awp_not_32; [rdv|]. intros r2 vs2 Hr2 He2. steps32.
    eapply Hdone; [rdv|extends|done|]. unfold dp_compute; cbv beta iota zeta; cbn [fst].
    rewrite wrap_sum. unfold AddWithCarry. cbn [fst]. f_equal. lia.
  - eapply awp_not_32; [rdv|]. intros r2 vs2 Hr2 He2. steps32. by eapply Hdone; [rdv|extends|done|].
  - eapply awp_not_32; [rdv|]. intros r2 vs2 Hr2 He2. steps32. by eapply Hdone; [rdv|extends|done|].
Qed.

Lemma awp_next_flags opcode op1 op2 x y c Q E vs g :
  0 <= opcode < 16 -> rdv IR_REG_32 vs op1 = Some x -> rdv IR_REG_32 vs op2 = Some y -> shifter_carry g = carry_word c ->
  (forall r vs', rdv IR_REG_32 vs' r = Some (nzcv (dp_compute opcode x y c (apsr (core g))).2 (cpsr (core g))) ->
     extends vs vs' -> Q r vs' g) ->
  awp (next_flags pc opcode op1 op2) Q E vs g.
Proof.
  intros Ho Hx Hy Hc HQ. apply awp_ok. intros Hok.
  pose proof (rdv_range IR_REG_32 _ _ _ Hok Hx) as Hxr. pose proof (rdv_range IR_REG_32 _ _ _ Hok Hy) as Hyr. cbn [bits] in *.
  unfold next_flags. steps32. eapply (awp_call pc IR_REG_32 arm_hlp_compute_next_flags); [rdv|params| | |].
  - cbn [pure_helper32]. rewrite Hc. rewrite wrap_small by (cbn [bits]; lia).
    rewrite (compute_next_flags_spec opcode x y c) by done. reflexivity.
  - apply nzcv_range32.
  - intros r vs' Hr He. apply HQ; [exact Hr|extends].
Qed.

Lemma awp_mk_data_processing insn opcode st rn rd op2 y c s' t vs g :
  INSN insn 24 21 = opcode -> INSN1 insn 20 = st -> INSN insn 19 16 = rn -> INSN insn 15 12 = rd ->
  0 <= opcode < 16 -> 0 <= rn <= 15 -> 0 <= rd <= 15 ->
  (is_comparison opcode = true -> st = true) -> (st = true -> rd <> 15) ->
  rdv IR_REG_32 vs op2 = Some y -> (st = true -> shifter_carry g = carry_word c) ->
  data_processing pc opcode st rn rd y c (core g) = (s', t) ->
  awp (mk_data_processing pc insn op2) (falls32 s' t) (leaves32 s' t) vs g.
Proof.
  intros H1 H2 H3 H4 Ho Hrn Hrd Hcmp Hpc Hy Hc He. unfold mk_data_processing. rewrite_fields32. clear H1 H2 H3 H4.
  unfold data_processing in He. destruct (dp_compute _ _ _ _ _) as [r f] eqn:Ed.
  apply awp_bind. awp_step32. set (x := R pc rn (core g)) in *.
  apply awp_bind. eapply awp_mono with (Q := fun o vs' g' => g' = g /\ extends (vs ++ [(IR_REG_32, x)]) vs' /\
    match o with
    | Some n => st = true /\ rdv IR_REG_32 vs' n = Some (nzcv f (cpsr (core g)))
    | None => st = false
    end).
  { destruct st; [|apply awp_ret; by split; [|split; [extends|]]].
    apply awp_bind. eapply awp_next_flags; [done|rdv|rdv|by apply Hc|]. intros n vs' Hn He'. rewrite Ed in Hn.
    apply awp_ret. by split; [|split; [extends|]]. }
  intros next vs1 g1 (-> & He1 & Hnext). apply awp_bind.
  eapply awp_mono; [eapply (awp_result _ _ _ x y c); [done|rdv|rdv]|].
  intros result vs2 g2 (-> & He2 & Hres). rewrite Ed in Hres. cbn [fst] in Hres.
  destruct result as [res|].
  - destruct Hres as [Hcmp' Hres]. rewrite Hcmp' in He. apply awp_bind. awp_step32. apply awp_bind.
    destruct next as [n|]; [destruct Hnext as [-> Hn]|subst st].
    + rewrite (proj2 (Z.eqb_neq rd 15)) in * by auto. steps32. simplify_eq. split; [done|]. split; [|done].
      unfold set_host_cpsr, set_host_reg. by rewrite (proj2 (Z.eqb_neq rd 15)) by auto.
    + apply awp_ret. destruct (Z.eqb_spec rd 15) as [->|]; simplify_eq.
      * steps32. by split.
      * steps32. split; [done|]. split; [|done]. unfold set_host_reg. by rewrite (proj2 (Z.eqb_neq rd 15)).
  - rewrite Hres in He. rewrite (Hcmp Hres) in *. destruct next as [n|]; [destruct Hnext as [_ Hn]|done].
    simplify_eq. rewrite (proj2 (Z.eqb_neq _ 15)) by auto. steps32. by split.
Qed.

(** ** The three operands *)

(** What the part before leaves: the carry, when the flags are set. *)
Definition carried (st c : bool) (vs : irValues) (g : a32_host) : unit -> irValues -> a32_host -> Prop :=
  fun _ vs' g' => extends vs vs' /\ core g' = core g /\ (st = true -> shifter_carry g' = carry_word c).

Ltac carried := split; [extends|]; split; [done|].

(** The rest of the function, when the operand and the carry are there. *)
Ltac data_processing Hv He :=
  eapply awp_mk_data_processing;
    [eassumption|eassumption|eassumption|eassumption|lia|lia|lia
    |intros Hcmp; rewrite Hcmp in Hv; match goal with |- ?st = true => destruct st; [done|lia] end
    |intros Hst; rewrite Hst in Hv; lia|rdv|eassumption|].

Lemma body_dp_immediate cond opcode st rn rd rotate imm8 :
  field 4 cond = true -> valid_insn (DataProcessing opcode st rn rd (Immediate rotate imm8)) = true ->
  body_correct (DataProcessing opcode st rn rd (Immediate rotate imm8))
    (a32_encode (cond, DataProcessing opcode st rn rd (Immediate rotate imm8))).
Proof.
  start32 fields32_dp_immediate. cbn [exec_insn operand_value mbind option_bind] in He.
  destruct (dp_not_misc opcode st) as (T1 & T2 & T3 & _); [lia|intros Hcmp; rewrite Hcmp in Hv; destruct st; [done|lia]|].
  enter32 dis_data_processing_and_misc_insn. rewrite T1, T2, T3. enter32 dis_data_processing_immediate.
  set (imm32 := if negb (rotate =? 0) then _ else imm8).
  assert (Hi : ARMExpandImm_C rotate imm8 (flagC (apsr (core g))) =
    (imm32, if rotate =? 0 then flagC (apsr (core g)) else Z.testbit imm32 31) /\ 0 <= imm32 < 2 ^ 32).
  { unfold imm32, ARMExpandImm_C, Shift_C. destruct (Z.eqb_spec rotate 0) as [->|]; cbn [negb]; [split; [done|lia]|].
    rewrite (proj2 (Z.eqb_neq (2 * rotate) 0)), (Z.mod_small (2 * rotate) 32), (Z.mul_comm rotate), rotated_byte by lia.
    split; [done|]. apply (wrap_range 32). lia. }
  destruct Hi as [Hi Hr]. rewrite Hi in He. apply Some_inj in He. apply awp_bind. awp_step32.
  rewrite (wrap_small (bits IR_REG_32)) by done. apply awp_bind.
  eapply awp_mono with (Q := carried st (if rotate =? 0 then flagC (apsr (core g)) else Z.testbit imm32 31) _ g).
  - destruct st; [|apply awp_ret; by carried].
    destruct (rotate =? 0) eqn:Er; cbn [negb]; steps32; carried; intros _; cbn [shifter_carry set_carry].
    + change (wrap (bits IR_REG_32) 0x20000000) with 0x20000000. by rewrite carry_at.
    + rewrite carry_at, Z.shiftr_spec by lia. change (29 + 2) with 31. apply wrap_small. by destruct (Z.testbit imm32 31).
  - intros [] vs1 g1 (He1 & Hg1 & Hc1). data_processing Hv He. by rewrite Hg1.
Qed.

(** A shift by an amount in the instruction. *)
Lemma shr_value x k : 0 <= x < 2 ^ 32 -> 0 < k -> wrap 32 (Z.shiftr x k) = Z.shiftr x k.
Proof. intros. apply wrap_small. apply (shiftr_range 32); lia. Qed.

Lemma awp_shift_immediate type imm5 rm_reg x c vs g E :
  0 <= type < 4 -> 0 <= imm5 < 32 -> rdv IR_REG_32 vs rm_reg = Some x -> c = flagC (apsr (core g)) ->
  awp (match type with
       | 0 => if imm5 =? 0 then mret rm_reg else k ← mk_8 imm5; op_32 SHL rm_reg k
       | 1 => if imm5 =? 0 then mk_32 0 else k ← mk_8 imm5; op_32 SHR rm_reg k
       | 2 => k ← mk_8 (if imm5 =? 0 then 31 else imm5); op_32 Ir.ASR rm_reg k
       | _ => if imm5 =? 0 then cc ← carry_to_top; one ← mk_8 1; r ← op_32 SHR rm_reg one; op_32 OR r cc
              else mk_ror_imm_32 rm_reg imm5
       end) (yields (ImmShift_C type imm5 x c).1 IR_REG_32 vs g) E vs g.
Proof.
  intros Ht Hi Hr ->. apply awp_ok. intros Hok. pose proof (rdv_range IR_REG_32 _ _ _ Hok Hr) as Hx. cbn [bits] in Hx.
  unfold ImmShift_C, Shift_C. destruct (four_types type Ht) as [-> | [-> | [-> | ->]]]; cbv iota.
  - destruct (Z.eqb_spec imm5 0); steps32; by yields.
  - destruct (Z.eqb_spec imm5 0) as [->|]; [|rewrite (proj2 (Z.eqb_neq imm5 0)) by done]; steps32; yields; [|done].
    change (32 =? 0) with false. cbn [fst]. unfold LSR. by rewrite Z.shiftr_div_pow2, Z.div_small by lia.
  - destruct (Z.eqb_spec imm5 0) as [->|]; [|rewrite (proj2 (Z.eqb_neq imm5 0)) by done]; steps32; yields; [|done].
    change (32 =? 0) with false. cbn [fst]. unfold ASR. cbn [bits]. f_equal.
    apply Z.bits_inj'. intros i Hi'. rewrite !Z.shiftr_spec by done.
    rewrite !testbit_to_signed by lia. f_equal. lia.
  - destruct (Z.eqb_spec imm5 0) as [->|].
    + unfold carry_to_top. steps32. yields. unfold RRX_C. cbn [fst irBinop_sem]. f_equal.
      change (wrap (bits IR_REG_32) 0x80000000) with (2 ^ 31). rewrite land_pow2 by lia. cbn [bits].
      rewrite testbit_wrap, Z.shiftl_spec by lia. done.
    + unfold mk_ror_imm_32. steps32. yields. cbn [fst]. by rewrite (Z.mod_small imm5 32) by lia.
Qed.

Lemma body_dp_shifted cond opcode st rn rd rm type imm5 :
  field 4 cond = true -> valid_insn (DataProcessing opcode st rn rd (ShiftedRegister rm type imm5)) = true ->
  body_correct (DataProcessing opcode st rn rd (ShiftedRegister rm type imm5))
    (a32_encode (cond, DataProcessing opcode st rn rd (ShiftedRegister rm type imm5))).
Proof.
  start32 fields32_dp_shifted. cbn [exec_insn operand_value mbind option_bind] in He.
  destruct (dp_not_misc opcode st) as (_ & _ & _ & T4); [lia|intros Hcmp; rewrite Hcmp in Hv; destruct st; [done|lia]|].
  destruct (op2_shifted (imm5 mod 2 * 4 + type)) as (T5 & T6 & T7); [Z.div_mod_to_equations; lia|].
  replace ((imm5 mod 2 * 4 + type) * 2) with (imm5 mod 2 * 8 + type * 2) in T5, T6, T7 by lia.
  enter32 dis_data_processing_and_misc_insn. rewrite T4, T5, T6, T7. enter32 dis_data_processing_register_insn.
  apply awp_bind. awp_step32. set (x := R pc rm (core g)) in *. pose proof (R_range pc rm (core g)) as Hx. fold x in Hx.
  set (c := flagC (apsr (core g))) in *. destruct (ImmShift_C type imm5 x c) as [y c'] eqn:Ei. apply Some_inj in He.
  apply awp_bind. eapply awp_mono with (Q := carried st c' (vs ++ [(IR_REG_32, x)]) g).
  - destruct st; [|apply awp_ret; by carried]. steps32. unfold mk_sco. steps32.
    eapply (awp_call pc IR_REG_32 arm_hlp_compute_sco); [rdv|params| | |].
    + cbn [pure_helper32 bits]. rewrite (wrap_small 32 imm5) by lia.
      rewrite (compute_sco_immediate (wrap 32 e) type) by (rewrite ?INSN_wrap by lia; done || lia). fold (apsr (core g)) c. rewrite Ei. reflexivity.
    + apply carry_word_range.
    + intros r vs1 Hr1 He1. steps32. by carried.
  - intros [] vs1 g1 (He1 & Hg1 & Hc1). apply awp_bind.
    eapply awp_mono; [eapply (awp_shift_immediate type imm5 _ x c); [lia|lia|rdv|by rewrite Hg1]|].
    rewrite Ei. intros op vs2 g2 (Hop & He2 & ->). data_processing Hv He. by rewrite Hg1.
Qed.

(** A shift by the low byte of a register. *)
Lemma low_byte_high v : 0 <= wrap 8 v < 32 -> Z.land v 0xe0 = 0.
Proof.
  intros H. apply Z.bits_inj'. intros i Hi. rewrite Z.land_spec, Z.testbit_0_l.
  destruct (Z.ltb_spec i 5); [|destruct (Z.ltb_spec i 8)].
  - assert (i = 0 \/ i = 1 \/ i = 2 \/ i = 3 \/ i = 4) as Hc by lia.
    destruct Hc as [-> | [-> | [-> | [-> | ->]]]]; by rewrite andb_false_r.
  - pose proof (range_testbit 5 (wrap 8 v) i) as Hb. rewrite testbit_wrap, (proj2 (Z.ltb_lt i 8)) in Hb by lia.
    cbn [andb] in Hb. by rewrite Hb by lia.
  - rewrite (range_testbit 8 0xe0 i) by lia. apply andb_false_r.
Qed.

Lemma awp_shift_by_reg k rm_reg rs_reg over x v y z vs g E :
  (forall vs', extends vs vs' -> awp over (fun r vs'' g' => rdv IR_REG_32 vs'' r = Some z /\ extends vs' vs'' /\ g' = g) never vs' g) ->
  op2_type k IR_REG_32 = IR_REG_8 ->
  rdv IR_REG_32 vs rm_reg = Some x -> rdv IR_REG_32 vs rs_reg = Some v -> wrap 8 v < 32 ->
  irBinop_sem k IR_REG_32 x (wrap 8 v) = Some y ->
  awp (shift_by_reg k rm_reg rs_reg over) (yields y IR_REG_32 vs g) E vs g.
Proof.
  intros Hover Hk Hx Hv Hlt Hy. unfold shift_by_reg. steps32.
  eapply awp_mono; [apply Hover; extends|]. intros r vs1 g1 (Hr & He1 & ->). steps32.
  eapply awp_binop; [rdv|rewrite Hk; rdv|exact Hy|]. cbn [cast_dst].
  eapply awp_ite; [apply rdv_lookup; rdv|rdv|rdv|]. yields.
  change (wrap (bits IR_REG_32) 0xe0) with 0xe0.
  by rewrite low_byte_high by (pose proof (wrap_range 8 v); lia).
Qed.

Lemma awp_ror_by_reg rm_reg rs_reg x v vs g E :
  rdv IR_REG_32 vs rm_reg = Some x -> rdv IR_REG_32 vs rs_reg = Some v -> wrap 8 v mod 32 <> 0 ->
  awp (mk_ror_reg_32 rm_reg rs_reg) (yields (ROR 32 x (wrap 8 v mod 32)) IR_REG_32 vs g) E vs g.
Proof.
  intros Hx Hv Hk. apply awp_ok. intros Hok. pose proof (rdv_range IR_REG_32 _ _ _ Hok Hx) as Hxr. cbn [bits] in Hxr.
  assert (Hm : Z.land v (wrap (bits IR_REG_32) 0x1f) = wrap 8 v mod 32).
  { change (wrap (bits IR_REG_32) 0x1f) with (Z.ones 5). rewrite wrap_land_ones by lia.
    change (wrap 8 v mod 32) with (wrap 5 (wrap 8 v)). by rewrite wrap_wrap by lia. }
  set (k := wrap 8 v mod 32) in *. assert (0 < k < 32) as Hkr by (unfold k in *; Z.div_mod_to_equations; lia).
  unfold mk_ror_reg_32. do 12 awp_step32.
  assert (Hr : irCast_sem IR_CAST_32_TO_8 (Z.land v (wrap (bits IR_REG_32) 0x1f)) = k).
  { rewrite Hm. apply (wrap_small 8). lia. }
  assert (Hl : irCast_sem IR_CAST_32_TO_8 (wrap (bits IR_REG_32) (wrap (bits IR_REG_32) 32 - Z.land v (wrap (bits IR_REG_32) 0x1f))) = 32 - k).
  { rewrite Hm. change (wrap (bits IR_REG_32) 32) with 32. rewrite (wrap_small (bits IR_REG_32)) by (cbn [bits]; lia).
    apply (wrap_small 8). lia. }
  rewrite Hr, Hl. steps32. yields. unfold ROR. cbn [bits]. rewrite wrap_bits_lor by lia. f_equal.
  symmetry. apply shr_value; lia.
Qed.

Lemma body_dp_register cond opcode st rn rd rm type rs :
  field 4 cond = true -> valid_insn (DataProcessing opcode st rn rd (RegisterShifted rm type rs)) = true ->
  body_correct (DataProcessing opcode st rn rd (RegisterShifted rm type rs))
    (a32_encode (cond, DataProcessing opcode st rn rd (RegisterShifted rm type rs))).
Proof.
  start32 fields32_dp_register. cbn [exec_insn operand_value] in He.
  destruct (dp_not_misc opcode st) as (_ & _ & _ & T4); [lia|intros Hcmp; rewrite Hcmp in Hv; destruct st; [done|lia]|].
  destruct (op2_register type) as (T5 & T6 & T7); [lia|].
  enter32 dis_data_processing_and_misc_insn. rewrite T4, T5, T6, T7. enter32 dis_data_processing_register_shifted_insn.
  assert ((rm =? 15) = false /\ (rs =? 15) = false) as [-> ->] by lia. cbn [negb assert_legal].
  do 2 (apply awp_bind; awp_step32). set (x := R pc rm (core g)) in *. set (v := R pc rs (core g)) in *.
  pose proof (R_range pc rm (core g)) as Hx. fold x in Hx.
  set (c := flagC (apsr (core g))) in *. set (k := wrap 8 v) in *. pose proof (wrap_range 8 v ltac:(lia)) as Hk. fold k in Hk.
  destruct (if type =? 3 then negb (k mod 32 =? 0) else k <? 32) eqn:Hd; [|done]. cbn [mbind option_bind] in He.
  destruct (Shift_C type x k c) as [y c'] eqn:Ei. apply Some_inj in He.
  set (vs0 := (vs ++ [(IR_REG_32, x)]) ++ [(IR_REG_32, v)]).
  apply awp_bind. eapply awp_mono with (Q := carried st c' vs0 g).
  - destruct st; [|apply awp_ret; by carried]. steps32. unfold mk_sco. steps32.
    eapply (awp_call pc IR_REG_32 arm_hlp_compute_sco); [rdv|params| | |].
    + cbn [pure_helper32 bits cast_dst]. change (irCast_sem IR_CAST_32_TO_8 v) with k.
      rewrite (compute_sco_register (wrap 32 e) type) by (rewrite ?INSN_wrap by lia; done || lia).
      fold (apsr (core g)) c. rewrite Ei. reflexivity.
    + apply carry_word_range.
    + intros r vs1 Hr1 He1. steps32. by carried.
  - intros [] vs1 g1 (He1 & Hg1 & Hc1). apply awp_bind.
    assert (rdv IR_REG_32 vs1 (length vs) = Some x /\ rdv IR_REG_32 vs1 (length (vs ++ [(IR_REG_32, x)])) = Some v) as [Hxr Hvr]
      by (split; apply He1; unfold vs0; rdv).
    eapply awp_mono with (Q := yields y IR_REG_32 vs1 g1).
    + unfold Shift_C in Ei. assert (Hy : y = if k =? 0 then x else match type with 0 => LSL 32 x k | 1 => LSR x k | 2 => ASR 32 x k | _ => ROR 32 x (k mod 32) end).
      { destruct (k =? 0); [by simplify_eq|]. by destruct type as [|[[]|[]|]|]; simplify_eq. }
      destruct (four_types type ltac:(lia)) as [-> | [-> | [-> | ->]]]; cbn [Z.eqb Pos.eqb] in Hd; cbv iota in *.
      4: { assert (k mod 32 <> 0) as Hne by lia. assert (k <> 0) by (intros E0; by rewrite E0 in Hne).
        rewrite (proj2 (Z.eqb_neq k 0)) in Hy by done. subst y. by apply awp_ror_by_reg. }
      all: assert (k < 32) as Hlt by lia; (eapply awp_shift_by_reg; [|done|exact Hxr|exact Hvr|exact Hlt|]);
        [intros vs' He'; steps32; (split; [rdv|]; split; [extends|done])|].
      all: fold k; cbn [irBinop_sem bits]; rewrite (proj2 (Z.ltb_lt k 32)) by done; subst y; f_equal;
        destruct (Z.eqb_spec k 0) as [-> |]; try done; rewrite ?Z.shiftl_0_r, ?Z.shiftr_0_r; try done; try by apply wrap_small.
      by rewrite wrap_to_signed, wrap_small by lia.
    + intros op vs2 g2 (Hop & He2 & ->). data_processing Hv He. by rewrite Hg1.
Qed.
End alu.

(** * The ARM front end is right on branches *)

(** A displacement is a number of instructions. *)
Lemma branch_offset x : 0 <= x < 2 ^ 24 -> sign_extend 24 x * 4 = SignExtend 26 (x * 4).
Proof.
  intros Hx. unfold sign_extend, SignExtend. rewrite !to_signed_bit by lia.
  change (2 ^ (24 - 1)) with 0x800000. change (2 ^ (26 - 1)) with 0x2000000.
  destruct (Z.leb_spec 0x800000 x), (Z.leb_spec 0x2000000 (x * 4)); lia.
Qed.

Lemma wrap_32_64 v : wrap 64 (wrap 32 v) = wrap 32 v.
Proof. apply wrap_small. pose proof (wrap_range 32 v). lia. Qed.

Section branches.
Context `{Hhost : ArmHost} {ir_call ctx} `{!Arm32Calls ir_call ctx} `{Hlay : !arm_layout ctx}.
Context (pc : Z).
Abbreviation awp := (awp (ir_call := ir_call) (ctx := ctx) (S := bool) (G := a32_host)).
Abbreviation body_correct := (body_correct (ir_call := ir_call) (ctx := ctx) pc).
Abbreviation a32_correct := (a32_correct (ir_call := ir_call) (ctx := ctx) pc).

Lemma awp_branch_const target s' t vs g :
  core g = s' -> t = Some (wrap 32 target) -> awp (branch_const target) (falls32 s' t) (leaves32 s' t) vs g.
Proof.
  intros Hg ->. unfold branch_const. steps32. cbn [bits]. rewrite wrap_32_64. by split.
Qed.

Lemma awp_branch_reg r v s' t vs g :
  rdv IR_REG_32 vs r = Some v -> core g = s' -> t = Some v ->
  awp (branch_reg r) (falls32 s' t) (leaves32 s' t) vs g.
Proof. intros Hr Hg ->. unfold branch_reg. steps32. by split. Qed.

Lemma body_BranchLink cond link imm24 :
  field 4 cond = true -> valid_insn (BranchLink link imm24) = true ->
  body_correct (BranchLink link imm24) (a32_encode (cond, BranchLink link imm24)).
Proof.
  start32 fields32_BranchLink. cbn [exec_insn] in He. apply Some_inj in He. apply pair_eq in He as [<- <-].
  enter32 dis_branch_and_branch_with_link_and_block_data_transfert. enter32 dis_bl.
  apply awp_bind. destruct link; steps32; (apply awp_branch_const; [done|]); by rewrite branch_offset by lia.
Qed.

Lemma body_BranchExchange cond link rm :
  field 4 cond = true -> valid_insn (BranchExchange link rm) = true ->
  body_correct (BranchExchange link rm) (a32_encode (cond, BranchExchange link rm)).
Proof.
  start32 fields32_BranchExchange. cbn [exec_insn] in He. apply Some_inj in He. apply pair_eq in He as [<- <-].
  destruct link; closed_fields; enter32 dis_data_processing_and_misc_insn; enter32 dis_misc_insn.
  - enter32 dis_blx. steps32. by eapply awp_branch_reg; [rdv| |].
  - enter32 dis_bx. steps32. by eapply awp_branch_reg; [rdv| |].
Qed.

(** The branch that changes to Thumb has no condition. *)
Lemma correct_BranchLinkExchange h imm24 : a32_correct (15, BranchLinkExchange h imm24).
Proof.
  intros vs g s' t Hv He. assert (valid_insn (BranchLinkExchange h imm24) = true) as Hvi.
  { unfold a32_valid in Hv. cbn [fst snd] in Hv. by destruct (valid_insn _); [|rewrite andb_false_r in Hv]. }
  cbn in He. apply Some_inj in He. apply pair_eq in He as [<- <-].
  assert (Hc : field 4 15 = true) by done. with_fields32 fields32_BranchLinkExchange Hc Hvi. open_valid32 Hvi.
  unfold disassemble_insn. rewrite_fields32. decide_tests32. apply awp_bind, awp_ret.
  enter32 dis_unconditional_insn.
  assert (Z.land (0xa0 + Z.b2z h * 16 + imm24 / 2 ^ 20) 0xe0 = 0xa0) as ->.
  { assert (0 <= imm24 / 2 ^ 20 < 16) as Hi by (Z.div_mod_to_equations; lia).
    assert (In (imm24 / 2 ^ 20) [0; 1; 2; 3; 4; 5; 6; 7; 8; 9; 10; 11; 12; 13; 14; 15]) as Hin by (cbn [In]; lia).
    cbn [In] in Hin. destruct h; by repeat (destruct Hin as [<-|Hin]; [reflexivity|]). }
  enter32 dis_blx_imm. steps32. split; [done|]. cbn [bits]. change (ConditionHolds 15 _) with true. cbv iota. f_equal.
  assert (Z.lor (Z.shiftl imm24 2) (Z.shiftl (Z.b2z h) 1) = imm24 * 4 + Z.b2z h * 2) as ->.
  { pose proof (Z.add_lor_land (Z.shiftl imm24 2) (Z.shiftl (Z.b2z h) 1)) as Ha.
    assert (Z.land (Z.shiftl imm24 2) (Z.shiftl (Z.b2z h) 1) = 0) as Hl.
    { destruct h; [|apply Z.land_0_r]. change (Z.shiftl (Z.b2z true) 1) with (2 ^ 1). rewrite land_pow2 by lia.
      by rewrite Z.shiftl_spec_low by lia. }
    rewrite Hl, !Z.shiftl_mul_pow2 in Ha by lia. rewrite !Z.shiftl_mul_pow2 by lia. lia. }
  symmetry. rewrite wrap_small; [done|]. apply (lor_range 32); [lia|apply (wrap_range 32); lia|lia].
Qed.
End branches.
