(* ===== verification/Arm32Memory.v ===== *)
(** * The ARM front end is right on loads and stores *)

From S2P Require Import Prelude Ir Jitter IrRequests FrontGen FrontWp ArmPseudo Arm32Gen Arm32Dis Arm32DisMisc Arm32Decode Arm32Helpers Arm32Isa Arm32Fields Arm32Sim Arm32Rules Arm32Alu.

(** ** Registers and memory *)

Lemma Mem_read_range32 acc w a s v : Mem_read acc w a s = Some v -> 0 <= v < 2 ^ bits w.
Proof. unfold Mem_read. case_match; [|done]. intros [= <-]. apply load_mem_range. Qed.

Lemma Mem_write_low acc w a v s : Mem_write acc w a (wrap (bits w) v) s = Mem_write acc w a v s.
Proof. unfold Mem_write. by rewrite store_mem_wrap by done. Qed.

Lemma R_Mem_write acc pc w a v s s' i : Mem_write acc w a v s = Some s' -> R pc i s' = R pc i s.
Proof. unfold Mem_write. case_match; [|done]. by intros [= <-]. Qed.

Lemma R_set_reg pc i j v s : i <> j -> R pc i (set_reg j v s) = R pc i s.
Proof. intros Hne. unfold R. cbn [register set_reg]. by rewrite (proj2 (Z.eqb_neq i j)). Qed.

Lemma R_transfer acc pc b l a rt s s' t i :
  transfer acc pc b l a rt s = Some (s', t) -> i <> rt -> R pc i s' = R pc i s.
Proof.
  unfold transfer. intros He Hne. destruct l; apply bind_Some in He as (v & Hv & He).
  - case_match; simplify_eq; [done|]. by apply R_set_reg.
  - simplify_eq. by eapply R_Mem_write.
Qed.

Lemma core_set_host_reg i v g : i <> 15 -> core (set_host_reg i v g) = set_reg i v (core g).
Proof. intros Hne. unfold set_host_reg. by rewrite (proj2 (Z.eqb_neq i 15)). Qed.

Lemma core_set_host_pc v g : core (set_host_reg 15 v g) = core g.
Proof. done. Qed.

Lemma context_pc_set_reg i v g : i <> 15 -> context_pc (set_host_reg i v g) = context_pc g.
Proof. intros Hne. unfold set_host_reg. by rewrite (proj2 (Z.eqb_neq i 15)). Qed.

Section memory.
Context `{Hhost : ArmHost} {ir_call ctx} `{!Arm32Calls ir_call ctx} `{Hlay : !arm_layout ctx}.
Context (pc : Z).
Abbreviation awp := (awp (ir_call := ir_call) (ctx := ctx) (S := bool) (G := a32_host)).
Abbreviation body_correct := (body_correct (ir_call := ir_call) (ctx := ctx) pc).
Abbreviation accessible := (guest_accessible32 ctx).

(** ** Addresses *)

Lemma offset_address_signed u base offset :
  offset_address u base offset = wrap 32 (base + signed_offset u offset).
Proof. unfold offset_address, signed_offset. by destruct u. Qed.

Lemma awp_address_register_offset i offset vs g E :
  0 <= i <= 15 ->
  awp (address_register_offset pc i offset) (yields (wrap 32 (R pc i (core g) + offset)) IR_REG_32 vs g) E vs g.
Proof.
  intros Hi. unfold address_register_offset. destruct (Z.eqb_spec i 15) as [->|].
  - steps32. yields. cbn [bits]. unfold R. change (15 =? 15) with true. by rewrite wrap_add_l.
  - destruct (Z.ltb_spec 0 offset); [|destruct (Z.ltb_spec offset 0)]; steps32; yields; cbn [bits].
    + by rewrite wrap_add_r.
    + rewrite wrap_sub_r. f_equal. lia.
    + assert (offset = 0) as -> by lia. rewrite Z.add_0_r, wrap_small by apply R_range. done.
Qed.

(** ** One access *)

(** A load of a register leaves the value there, or where the pc is. *)
Definition accessed (s' : a32_state) (t : option Z) (pc_loaded : bool) (vs : irValues) : unit -> irValues -> a32_host -> Prop :=
  fun _ vs' g' => extends vs vs' /\ core g' = s' /\
    match t with Some v => pc_loaded = true /\ context_pc g' = v | None => pc_loaded = false end.

Lemma awp_access32 b l rt r a s' t vs g E :
  0 <= rt <= 15 -> (b = true -> rt <> 15) -> rdv IR_REG_32 vs r = Some a ->
  transfer accessible pc b l a rt (core g) = Some (s', t) ->
  awp (access_word_byte pc b l rt r) (accessed s' t (l && (rt =? 15)) vs) E vs g.
Proof.
  intros Hrt Hb Hr He. unfold access_word_byte, transfer in *. destruct l; apply bind_Some in He as (v & Hv & He).
  - apply Some_inj in He. destruct b; [unfold load_cast|unfold load_word].
    + specialize (Hb eq_refl). rewrite (proj2 (Z.eqb_neq rt 15)) in * by done. simplify_eq. steps32.
      eapply awp_load32; [rdv|exact Hv|]. steps32. split; [extends|]. split; [|done].
      rewrite core_set_host_reg by done. unfold irCast_sem. cbn [cast_dst cast_src cast_signed bits].
      apply Mem_read_range32 in Hv. cbn [bits] in Hv. by rewrite wrap_small by lia.
    + steps32. eapply awp_load32; [rdv|exact Hv|]. steps32. split; [extends|].
      destruct (Z.eqb_spec rt 15) as [->|]; simplify_eq; [done|]. by rewrite core_set_host_reg.
  - simplify_eq. destruct b; [unfold store_cast|unfold store_word]; steps32;
      (eapply awp_store32; [rdv|rdv| |by split; [extends|]]); [|exact Hv].
    rewrite <- Hv. apply (Mem_write_low _ IR_REG_8).
Qed.

(** ** The base *)

Definition written_back (wb : bool) (rn v : Z) (vs : irValues) (g : a32_host) : unit -> irValues -> a32_host -> Prop :=
  fun _ vs' g' => extends vs vs' /\ g' = if wb then set_host_reg rn v g else g.

Lemma awp_write_back p w rn r post v vs g E :
  (p || negb w) = true -> 0 <= rn <= 15 -> (p && w = true -> rdv IR_REG_32 vs r = Some v) ->
  (negb p && negb w = true -> awp post (yields v IR_REG_32 vs g) never vs g) ->
  awp (write_back p w rn r post) (written_back (writes_back p w) rn v vs g) E vs g.
Proof.
  intros Hpw Hrn Hpre Hpost. unfold write_back, writes_back. destruct p, w; try done; cbn [andb orb negb] in *.
  - specialize (Hpre eq_refl). steps32. by split; [extends|].
  - apply awp_ret. by split; [extends|].
  - apply awp_bind. eapply awp_mono; [by apply Hpost|]. intros r' vs' g' (Hr & He & ->). steps32. by split; [extends|].
Qed.

Lemma awp_exit_loaded_pc l rt s' t vs g :
  core g = s' ->
  match t with Some v => l && (rt =? 15) = true /\ context_pc g = v | None => l && (rt =? 15) = false end ->
  awp (exit_loaded_pc l rt) (falls32 s' t) (leaves32 s' t) vs g.
Proof.
  intros Hg Ht. unfold exit_loaded_pc. destruct t as [v|].
  - destruct Ht as [-> <-]. apply awp_bind, awp_read_context_pc. steps32. by split.
  - rewrite Ht. by apply awp_ret.
Qed.

(** ** Words and bytes *)

(** The access, the base, and the exit of a load of the pc. *)
Lemma awp_transfer p u b w l rn rt r off post s' t vs g :
  0 <= rn <= 15 -> 0 <= rt <= 15 -> (b = true -> rt <> 15) -> (p || negb w) = true ->
  (writes_back p w = true -> rn <> 15 /\ rn <> rt) ->
  let offset_addr := offset_address u (R pc rn (core g)) off in
  rdv IR_REG_32 vs r = Some (if p then offset_addr else R pc rn (core g)) ->
  (forall vs' g', extends vs vs' -> R pc rn (core g') = R pc rn (core g) ->
     awp post (yields offset_addr IR_REG_32 vs' g') never vs' g') ->
  ('(s1, t) ← transfer accessible pc b l (if p then offset_addr else R pc rn (core g)) rt (core g);
   Some (if writes_back p w then set_reg rn offset_addr s1 else s1, t)) = Some (s', t) ->
  awp (access_word_byte pc b l rt r;; write_back p w rn r post;; exit_loaded_pc l rt)
    (falls32 s' t) (leaves32 s' t) vs g.
Proof.
  intros Hrn Hrt Hb Hpw Hwb oaddr Hr Hpost He. apply bind_Some in He as ([s1 t1] & Ht & He). simplify_eq.
  apply awp_bind. eapply awp_mono; [by eapply awp_access32|]. intros [] vs1 g1 (He1 & Hg1 & Hpc1).
  apply awp_bind. eapply awp_mono; [eapply (awp_write_back p w rn r post oaddr); [done|done| |]|].
  - intros Hp. apply andb_true_iff in Hp as [-> _]. rdv.
  - intros Hp. apply Hpost; [done|]. rewrite Hg1. eapply R_transfer; [exact Ht|]. apply Hwb.
    unfold writes_back. by destruct p.
  - intros [] vs2 g2 (He2 & ->). destruct (writes_back p w); [destruct (Hwb eq_refl)|]; apply awp_exit_loaded_pc.
    + by rewrite core_set_host_reg, Hg1.
    + by rewrite context_pc_set_reg.
    + done.
    + done.
Qed.

Lemma awp_access_address_imm p u rn imm vs g E :
  0 <= rn <= 15 ->
  awp (access_address_imm pc p u rn imm)
    (yields (if p then offset_address u (R pc rn (core g)) imm else R pc rn (core g)) IR_REG_32 vs g) E vs g.
Proof.
  intros Hrn. unfold access_address_imm. rewrite offset_address_signed. destruct p; [by apply awp_address_register_offset|].
  eapply awp_mono; [by apply awp_address_register_offset|]. intros r vs' g' (Hr & He & ->). split; [|by split].
  rewrite Hr, Z.add_0_r. f_equal. apply wrap_small, R_range.
Qed.

Lemma body_Transfer_immediate cond p u b w l rn rt imm12 :
  field 4 cond = true -> valid_insn (Transfer p u b w l rn rt (OffsetImmediate imm12)) = true ->
  body_correct (Transfer p u b w l rn rt (OffsetImmediate imm12))
    (a32_encode (cond, Transfer p u b w l rn rt (OffsetImmediate imm12))).
Proof.
  start32 fields32_Transfer_immediate. cbn [exec_insn offset_value] in He.
  enter32 dis_load_store_word_and_unsigned_byte. enter32 dis_load_store_word_and_unsigned_byte_imm_offset.
  assert (p || negb w = true) as Hpw by (destruct p, w; done). rewrite Hpw. cbn [assert_legal].
  apply awp_bind. eapply awp_mono; [apply awp_access_address_imm; lia|]. intros r vs1 g1 (Hr & He1 & ->).
  unfold write_back_imm. eapply awp_transfer; [lia|lia|intros ->; lia|done|intros Hwb; rewrite Hwb in Hv; lia|exact Hr| |exact He].
  intros vs2 g2 He2 HR. rewrite offset_address_signed, <- HR. apply awp_address_register_offset. lia.
Qed.

(** The offset in a register. *)
Lemma awp_shifted_index type imm5 rm vs g (E : nat -> Z -> a32_host -> Prop) :
  0 <= type < 4 -> 0 <= imm5 < 32 -> 0 <= rm <= 15 -> negb ((type =? 3) && (imm5 =? 0)) = true ->
  exists index : genM bool nat, shifted_index pc type imm5 rm = Some index /\
    awp index (yields (ImmShift_C type imm5 (R pc rm (core g)) (flagC (apsr (core g)))).1 IR_REG_32 vs g) E vs g.
Proof.
  intros Ht Hi Hrm Hok. pose proof (R_range pc rm (core g)) as Hx. set (x := R pc rm (core g)) in *.
  unfold shifted_index, ImmShift_C, Shift_C. destruct (four_types type Ht) as [-> | [-> | [-> | ->]]]; cbv iota.
  - eexists. split; [done|]. destruct (Z.eqb_spec imm5 0); cbn [negb]; steps32; by yields.
  - eexists. split; [done|]. destruct (Z.eqb_spec imm5 0) as [->|]; cbn [negb]; [|rewrite (proj2 (Z.eqb_neq imm5 0)) by done];
      steps32; yields; [|done]. change (32 =? 0) with false. cbn [fst]. unfold LSR. by rewrite Z.shiftr_div_pow2, Z.div_small by lia.
  - eexists. split; [done|]. destruct (Z.eqb_spec imm5 0) as [->|]; cbn [negb]; [|rewrite (proj2 (Z.eqb_neq imm5 0)) by done];
      steps32; yields; [|done]. change (32 =? 0) with false. cbn [fst bits]. unfold ASR. f_equal.
    apply Z.bits_inj'. intros i Hi'. rewrite !Z.shiftr_spec by done. rewrite !testbit_to_signed by lia. f_equal. lia.
  - destruct (Z.eqb_spec imm5 0) as [->|]; [done|]. cbn [negb]. eexists. split; [done|]. unfold mk_ror_imm_32. steps32.
    yields. cbn [fst]. by rewrite (Z.mod_small imm5 32) by lia.
Qed.

Lemma awp_index_sum (u : bool) rn index k vs g E :
  0 <= rn <= 15 -> rdv IR_REG_32 vs index = Some k ->
  awp (r ← read_reg pc rn; op_32 (if u then ADD else SUB) r index)
    (yields (offset_address u (R pc rn (core g)) k) IR_REG_32 vs g) E vs g.
Proof.
  intros Hrn Hk. apply awp_bind. awp_step32.
  eapply (awp_binop _ _ _ _ _ _ (offset_address u (R pc rn (core g)) k)); [rdv|destruct u; rdv|by destruct u|]. by yields.
Qed.

Lemma body_Transfer_register cond p u b w l rn rt rm type imm5 :
  field 4 cond = true -> valid_insn (Transfer p u b w l rn rt (OffsetRegister rm type imm5)) = true ->
  body_correct (Transfer p u b w l rn rt (OffsetRegister rm type imm5))
    (a32_encode (cond, Transfer p u b w l rn rt (OffsetRegister rm type imm5))).
Proof.
  start32 fields32_Transfer_register. cbn [exec_insn offset_value] in He.
  enter32 dis_load_store_word_and_unsigned_byte. enter32 dis_load_store_word_and_unsigned_byte_register_offset.
  assert (p || negb w = true) as Hpw by (destruct p, w; done). rewrite Hpw. cbn [assert_legal].
  destruct (awp_shifted_index type imm5 rm vs g never) as (index & -> & Hindex); [lia..|].
  apply awp_bind. eapply awp_mono; [exact Hindex|]. set (k := (ImmShift_C _ _ _ _).1) in *.
  intros ir vs1 g1 (Hk & He1 & ->). apply awp_bind.
  eapply awp_mono with (Q := yields (if p then offset_address u (R pc rn (core g)) k else R pc rn (core g)) IR_REG_32 vs1 g).
  { destruct p; [by apply awp_index_sum; [lia|]|]. steps32. by yields. }
  intros r vs2 g2 (Hr & He2 & ->).
  eapply awp_transfer; [lia|lia|intros ->; lia|done|intros Hwb; rewrite Hwb in Hv; lia|exact Hr| |exact He].
  intros vs3 g3 He3 HR. rewrite <- HR. apply awp_index_sum; [lia|rdv].
Qed.

(** ** Halfwords, signed bytes, pairs *)

Definition access_extra (kind : extra_transfer) (rt : Z) : nat -> genM bool unit :=
  match kind with
  | StoreHalf => access_halfword pc false rt
  | LoadHalf => access_halfword pc true rt
  | LoadSignedByte => load_signed false rt
  | LoadSignedHalf => load_signed true rt
  | LoadDual => access_double pc true rt
  | StoreDual => access_double pc false rt
  end.

Lemma R_transfer_extra kind a rt s s' i :
  transfer_extra accessible pc kind a rt s = Some s' -> i <> rt -> (is_dual kind = true -> i <> rt + 1) ->
  R pc i s' = R pc i s.
Proof.
  intros He Hne Hd. destruct kind; cbn [transfer_extra is_dual] in *.
  - by eapply R_Mem_write.
  - apply bind_Some in He as (v & Hv & He). simplify_eq. by apply R_set_reg.
  - apply bind_Some in He as (v & Hv & He). simplify_eq. by apply R_set_reg.
  - apply bind_Some in He as (v & Hv & He). simplify_eq. by apply R_set_reg.
  - apply bind_Some in He as (v & Hv & He). apply bind_Some in He as (v2 & Hv2 & He). simplify_eq.
    rewrite !R_set_reg by auto. done.
  - apply bind_Some in He as (s1 & H1 & H2). rewrite (R_Mem_write _ _ _ _ _ _ _ _ H2). by eapply R_Mem_write.
Qed.

Lemma Mem_read_set_reg w a i v s : Mem_read accessible w a (set_reg i v s) = Mem_read accessible w a s.
Proof. done. Qed.

Ltac load32 H := eapply awp_load32; [rdv|exact H|].

Lemma awp_access_extra kind rt r a s' vs g E :
  0 <= rt < 15 -> (is_dual kind = true -> rt < 14) -> rdv IR_REG_32 vs r = Some a ->
  transfer_extra accessible pc kind a rt (core g) = Some s' ->
  awp (access_extra kind rt r) (fun _ vs' g' => extends vs vs' /\ core g' = s') E vs g.
Proof.
  intros Hrt Hd Hr He. destruct kind; cbn [access_extra transfer_extra is_dual] in *.
  - unfold access_halfword, store_cast. steps32. eapply awp_store32; [rdv|rdv| |by split; [extends|]].
    rewrite <- He. apply (Mem_write_low _ IR_REG_16).
  - apply bind_Some in He as (v & Hv & He). simplify_eq. unfold access_halfword, load_cast. steps32. load32 Hv. steps32.
    split; [extends|]. rewrite core_set_host_reg by lia. unfold irCast_sem. cbn [cast_dst cast_src cast_signed bits].
    apply Mem_read_range32 in Hv. cbn [bits] in Hv. by rewrite wrap_small by lia.
  - apply bind_Some in He as (v & Hv & He). simplify_eq. unfold load_signed, load_cast. steps32. load32 Hv. steps32.
    split; [extends|]. by rewrite core_set_host_reg by lia.
  - apply bind_Some in He as (v & Hv & He). simplify_eq. unfold load_signed, load_cast. steps32. load32 Hv. steps32.
    split; [extends|]. by rewrite core_set_host_reg by lia.
  - specialize (Hd eq_refl). apply bind_Some in He as (v & Hv & He). apply bind_Some in He as (v2 & Hv2 & He). simplify_eq.
    unfold access_double, load_word, next_word. steps32. load32 Hv. steps32. eapply awp_load32; [rdv| |].
    { rewrite core_set_host_reg by lia. exact Hv2. }
    steps32. split; [extends|]. by rewrite !core_set_host_reg by lia.
  - specialize (Hd eq_refl). apply bind_Some in He as (s1 & H1 & H2).
    unfold access_double, store_word, next_word. steps32. eapply awp_store32; [rdv|rdv|exact H1|]. steps32.
    eapply awp_store32; [rdv|rdv|exact H2|]. by split; [extends|].
Qed.

(** The access and the base. *)
Lemma awp_transfer_extra p u w kind rn rt r off post s' t vs g :
  0 <= rn < 15 -> 0 <= rt < 15 -> (is_dual kind = true -> rt < 14) -> (p || negb w) = true ->
  (writes_back p w = true -> rn <> rt /\ (is_dual kind = true -> rn <> rt + 1)) ->
  let offset_addr := offset_address u (R pc rn (core g)) off in
  rdv IR_REG_32 vs r = Some (if p then offset_addr else R pc rn (core g)) ->
  (forall vs' g', extends vs vs' -> R pc rn (core g') = R pc rn (core g) ->
     awp post (yields offset_addr IR_REG_32 vs' g') never vs' g') ->
  (s1 ← transfer_extra accessible pc kind (if p then offset_addr else R pc rn (core g)) rt (core g);
   Some (if writes_back p w then set_reg rn offset_addr s1 else s1, None)) = Some (s', t) ->
  awp (access_extra kind rt r;; write_back p w rn r post;; mret false) (falls32 s' t) (leaves32 s' t) vs g.
Proof.
  intros Hrn Hrt Hd Hpw Hwb oaddr Hr Hpost He. apply bind_Some in He as (s1 & Ht & He). simplify_eq.
  apply awp_bind. eapply awp_mono; [by eapply awp_access_extra|]. intros [] vs1 g1 (He1 & Hg1).
  apply awp_last. eapply awp_mono; [eapply (awp_write_back p w rn r post oaddr); [done|lia| |]|].
  - intros Hp. apply andb_true_iff in Hp as [-> _]. rdv.
  - intros Hp. assert (writes_back p w = true) as Hw by (unfold writes_back; by destruct p).
    destruct (Hwb Hw). apply Hpost; [done|]. rewrite Hg1. by eapply R_transfer_extra.
  - intros [] vs2 g2 (He2 & ->). split; [done|]. split; [|done].
    destruct (writes_back p w); [rewrite core_set_host_reg by lia|]; by rewrite Hg1.
Qed.

Lemma awp_extra_immediate kind p u w rn rt imm4H imm4L e s' t vs g :
  INSN1 e 24 = p -> INSN1 e 23 = u -> INSN1 e 21 = w -> INSN e 19 16 = rn -> INSN e 11 8 = imm4H -> INSN e 3 0 = imm4L ->
  0 <= rn < 15 -> 0 <= rt < 15 -> (is_dual kind = true -> rt < 14) -> (p || negb w) = true ->
  (writes_back p w = true -> rn <> rt /\ (is_dual kind = true -> rn <> rt + 1)) ->
  exec_insn accessible pc (TransferExtra p u w kind rn rt (ExtraImmediate imm4H imm4L)) (core g) = Some (s', t) ->
  awp (extra_immediate pc e (access_extra kind rt)) (falls32 s' t) (leaves32 s' t) vs g.
Proof.
  intros. cbn [exec_insn extra_value] in *. unfold extra_immediate, f_imm8. rewrite_fields32.
  rewrite Z.shiftl_mul_pow2 by lia. change (2 ^ 4) with 16.
  apply awp_bind. eapply awp_mono; [apply awp_access_address_imm; lia|]. intros r vs1 g1 (Hr & He1 & ->).
  unfold write_back_imm. eapply awp_transfer_extra; [done..|exact Hr| |eassumption].
  intros vs2 g2 He2 HR. rewrite offset_address_signed, <- HR. apply awp_address_register_offset. lia.
Qed.

Lemma awp_extra_register kind p u w rn rt rm e s' t vs g :
  INSN1 e 24 = p -> INSN1 e 23 = u -> INSN1 e 21 = w -> INSN e 19 16 = rn -> INSN e 3 0 = rm ->
  0 <= rn < 15 -> 0 <= rt < 15 -> 0 <= rm < 15 -> (is_dual kind = true -> rt < 14) -> (p || negb w) = true ->
  (writes_back p w = true -> rn <> rt /\ (is_dual kind = true -> rn <> rt + 1)) ->
  exec_insn accessible pc (TransferExtra p u w kind rn rt (ExtraRegister rm)) (core g) = Some (s', t) ->
  awp (extra_register pc e (access_extra kind rt)) (falls32 s' t) (leaves32 s' t) vs g.
Proof.
  intros. cbn [exec_insn extra_value] in *. unfold extra_register. rewrite_fields32.
  do 2 (apply awp_bind; awp_step32).
  assert (Hsum : forall vs' g' E, rdv IR_REG_32 vs' (length vs) = Some (R pc rm (core g)) ->
    rdv IR_REG_32 vs' (length (vs ++ [(IR_REG_32, R pc rm (core g))])) = Some (R pc rn (core g)) ->
    awp (op_32 (if u then ADD else SUB) (length (vs ++ [(IR_REG_32, R pc rm (core g))])) (length vs))
      (yields (offset_address u (R pc rn (core g)) (R pc rm (core g))) IR_REG_32 vs' g') E vs' g').
  { intros vs' g' E Hm Hn.
    eapply (awp_binop _ _ _ _ _ _ (offset_address u (R pc rn (core g)) (R pc rm (core g)))); [exact Hn|destruct u; exact Hm|by destruct u|].
    by yields. }
  apply awp_bind. set (vs0 := (vs ++ _) ++ _) in *.
  eapply awp_mono with (Q := yields (if p then offset_address u (R pc rn (core g)) (R pc rm (core g)) else R pc rn (core g)) IR_REG_32 vs0 g).
  { destruct p; [apply Hsum; unfold vs0; rdv|apply awp_ret; unfold vs0; by yields]. }
  intros r vs2 g2 (Hr & He2 & ->). eapply awp_transfer_extra; [done..|exact Hr| |eassumption].
  intros vs3 g3 He3 HR. apply Hsum; apply He3, He2; unfold vs0; rdv.
Qed.

(** How an access is decoded. *)
Lemma extra_op1 p u i w l :
  let op1 := Z.b2z p * 16 + Z.b2z u * 8 + Z.b2z i * 4 + Z.b2z w * 2 + Z.b2z l in
  (Z.land op1 0x12 =? 0x2) = negb p && w /\ Z.land op1 0x5 = Z.b2z i * 4 + Z.b2z l.
Proof. by destruct p, u, i, w, l. Qed.

Lemma decode_extra_immediate kind p u w e :
  INSN1 e 25 = false -> INSN e 24 20 = Z.b2z p * 16 + Z.b2z u * 8 + 4 + Z.b2z w * 2 + Z.b2z (extra_load kind) ->
  INSN e 7 4 = 9 + extra_op2 kind * 2 -> INSN e 6 5 = extra_op2 kind -> INSN1 e 5 = Z.odd (extra_op2 kind) ->
  INSN1 e 20 = extra_load kind -> (INSN e 19 16 =? 15) = false -> (p || negb w) = true ->
  (f_rd e =? 15) = false -> (is_dual kind = true -> (f_rd e + 1 =? 15) = false /\ (f_rd e `rem` 2 =? 0) = true) ->
  dis_data_processing_and_misc_insn pc e = extra_immediate pc e (access_extra kind (f_rd e)).
Proof.
  intros H25 Hop1 Hop2 H65 H5 H20 Hrn Hpw Hrd Hd.
  destruct (extra_op1 p u true w (extra_load kind)) as [T1 T2]. cbn [Z.b2z] in T1, T2. rewrite Z.mul_1_l in T1, T2.
  unfold dis_data_processing_and_misc_insn, dis_extra_load_store_insn. rewrite H25, Hop1, Hop2, T1, T2, H65, Hrn.
  assert (negb p && w = false) as -> by (by destruct p, w).
  destruct kind; cbn [extra_load extra_op2 is_dual access_extra Z.b2z Z.odd] in *;
    try destruct (Hd eq_refl) as [Hd1 Hd2];
    unfold dis_load_store_halfword_immediate_offset, dis_load_signed_halfword_byte_immediate_offset,
      dis_load_store_double_immediate_offset; rewrite ?Hrd, ?H20, ?H5, ?Hd1, ?Hd2; reflexivity.
Qed.

Lemma decode_extra_register kind p u w e :
  INSN1 e 25 = false -> INSN e 24 20 = Z.b2z p * 16 + Z.b2z u * 8 + Z.b2z w * 2 + Z.b2z (extra_load kind) ->
  INSN e 7 4 = 9 + extra_op2 kind * 2 -> INSN e 6 5 = extra_op2 kind -> INSN1 e 5 = Z.odd (extra_op2 kind) ->
  INSN1 e 20 = extra_load kind -> (p || negb w) = true ->
  (f_rd e =? 15) = false -> (is_dual kind = true -> (f_rd e + 1 =? 15) = false /\ (f_rd e `rem` 2 =? 0) = true) ->
  dis_data_processing_and_misc_insn pc e = extra_register pc e (access_extra kind (f_rd e)).
Proof.
  intros H25 Hop1 Hop2 H65 H5 H20 Hpw Hrd Hd.
  destruct (extra_op1 p u false w (extra_load kind)) as [T1 T2]. cbn [Z.b2z] in T1, T2. rewrite Z.mul_0_l, Z.add_0_r in T1, T2.
  unfold dis_data_processing_and_misc_insn, dis_extra_load_store_insn. rewrite H25, Hop1, Hop2, T1, T2, H65.
  assert (negb p && w = false) as -> by (by destruct p, w).
  destruct kind; cbn [extra_load extra_op2 is_dual access_extra Z.b2z Z.odd] in *;
    try destruct (Hd eq_refl) as [Hd1 Hd2];
    unfold dis_load_store_halfword_register_offset, dis_load_signed_halfword_byte_register_offset,
      dis_load_store_double_register_offset; rewrite ?Hrd, ?H20, ?H5, ?Hd1, ?Hd2; reflexivity.
Qed.

Lemma even_rem rt : Z.even rt = true -> (rt `rem` 2 =? 0) = true.
Proof. intros He. apply Z.even_spec in He as [k ->]. apply Z.eqb_eq. rewrite Z.mul_comm. apply Z.rem_mul. lia. Qed.

(** The registers of a pair, when the encoding is valid. *)
Lemma dual_registers kind p w rn rt :
  dual_ok kind p w rn rt = true -> is_dual kind = true ->
  Z.even rt = true /\ rt <> 14 /\ (writes_back p w = true -> rn <> rt + 1).
Proof.
  unfold dual_ok. intros H Hk. rewrite Hk in H. cbn [negb orb] in H. rewrite !andb_true_iff in H.
  destruct H as [[He H14] Hw]. split; [done|]. split; [lia|]. intros E. rewrite E in Hw. cbn [negb orb] in Hw. lia.
Qed.

Lemma body_Extra_immediate cond p u w kind rn rt imm4H imm4L :
  field 4 cond = true -> valid_insn (TransferExtra p u w kind rn rt (ExtraImmediate imm4H imm4L)) = true ->
  body_correct (TransferExtra p u w kind rn rt (ExtraImmediate imm4H imm4L))
    (a32_encode (cond, TransferExtra p u w kind rn rt (ExtraImmediate imm4H imm4L))).
Proof.
  start32 fields32_Extra_immediate. rewrite !andb_true_iff in Hv. destruct Hv as [[[[[Hpw Hrn] Hrt] Hwb] Hd] Hi].
  pose proof (dual_registers _ _ _ _ _ Hd) as Hdual.
  rewrite (decode_extra_immediate kind p u w); unfold f_rd; try eassumption;
    repeat match goal with H : INSN e _ _ = _ |- _ => rewrite H in * end; try lia.
  - eapply awp_extra_immediate; try eassumption; try lia.
    + intros Hk. destruct (Hdual Hk) as (Hev & Hne & _). destruct (Z.eq_dec rt 15); lia.
    + intros Hw. rewrite Hw in Hwb. cbn [negb orb] in Hwb. split; [lia|]. intros Hk. by apply (Hdual Hk).
  - intros Hk. destruct (Hdual Hk) as (Hev & Hne & _). split; [lia|by apply even_rem].
Qed.

Lemma body_Extra_register cond p u w kind rn rt rm :
  field 4 cond = true -> valid_insn (TransferExtra p u w kind rn rt (ExtraRegister rm)) = true ->
  body_correct (TransferExtra p u w kind rn rt (ExtraRegister rm))
    (a32_encode (cond, TransferExtra p u w kind rn rt (ExtraRegister rm))).
Proof.
  start32 fields32_Extra_register. rewrite !andb_true_iff in Hv. destruct Hv as [[[[[Hpw Hrn] Hrt] Hwb] Hd] [Hi _]].
  pose proof (dual_registers _ _ _ _ _ Hd) as Hdual.
  rewrite (decode_extra_register kind p u w); unfold f_rd; try eassumption;
    repeat match goal with H : INSN e _ _ = _ |- _ => rewrite H in * end; try lia.
  - eapply awp_extra_register; try eassumption; try lia.
    + intros Hk. destruct (Hdual Hk) as (Hev & Hne & _). destruct (Z.eq_dec rt 15); lia.
    + intros Hw. rewrite Hw in Hwb. cbn [negb orb] in Hwb. split; [lia|]. intros Hk. by apply (Hdual Hk).
  - intros Hk. destruct (Hdual Hk) as (Hev & Hne & _). split; [lia|by apply even_rem].
Qed.
End memory.

(** * The ARM front end is right on transfers of several registers *)

(** ** The list *)

Lemma in_reglist_filter reglist n :
  in_reglist reglist n = filter (fun i => Z.testbit reglist i = true) (Z.of_nat <$> seq 0 n).
Proof.
  unfold in_reglist. apply list_filter_iff. intros i.
  rewrite (Z.land_ones _ 1) by lia. change (2 ^ 1) with 2. rewrite <- Z.bit0_mod, Z.shiftr_spec by lia.
  rewrite Z.add_0_l. by destruct (Z.testbit reglist i).
Qed.

Lemma in_reglist_registers reglist : in_reglist reglist 16 = registers reglist.
Proof. apply in_reglist_filter. Qed.

(** The loads treat the pc apart. *)
Lemma registers_split reglist :
  registers reglist = in_reglist reglist 15 ++ (if Z.testbit reglist 15 then [15] else []).
Proof.
  rewrite in_reglist_filter. unfold registers. change (seqZ 0 16) with ((Z.of_nat <$> seq 0 15) ++ [15]).
  rewrite filter_app. f_equal. rewrite filter_cons, filter_nil. by destruct (Z.testbit reglist 15).
Qed.

Lemma registers_range reglist : Forall (fun i => 0 <= i <= 15) (registers reglist).
Proof. apply Forall_forall. intros i Hi. apply list_elem_of_filter in Hi as [_ Hi]. apply elem_of_seqZ in Hi. lia. Qed.

Lemma reglist15_range reglist : Forall (fun i => 0 <= i < 15) (in_reglist reglist 15).
Proof.
  rewrite in_reglist_filter. apply Forall_forall. intros i Hi. apply list_elem_of_filter in Hi as [_ Hi].
  apply list_elem_of_fmap in Hi as (k & -> & Hk). apply elem_of_seq in Hk. lia.
Qed.

Section multiple.
Context `{Hhost : ArmHost} {ir_call ctx} `{!Arm32Calls ir_call ctx} `{Hlay : !arm_layout ctx}.
Context (pc : Z).
Abbreviation awp := (awp (ir_call := ir_call) (ctx := ctx) (S := bool) (G := a32_host)).
Abbreviation body_correct := (body_correct (ir_call := ir_call) (ctx := ctx) pc).
Abbreviation accessible := (guest_accessible32 ctx).

(** ** The loops *)

Lemma awp_multiple_address start a offset (Q : nat -> irValues -> a32_host -> Prop) E vs g :
  rdv IR_REG_32 vs start = Some a ->
  (forall r vs', rdv IR_REG_64 vs' r = Some (wrap 32 (a + offset) + mmap_offset) -> extends vs vs' -> Q r vs' g) ->
  awp (multiple_address start offset) Q E vs g.
Proof.
  intros Ha HQ. unfold multiple_address. steps32. apply HQ; [|extends].
  rewrite Hr. cbn [bits]. by rewrite wrap_add_r.
Qed.

Lemma awp_load_multiple l rest start a offset s' t vs g E :
  Forall (fun i => 0 <= i < 15) l -> rdv IR_REG_32 vs start = Some a ->
  load_registers accessible (l ++ rest) (wrap 32 (a + offset)) (core g) = Some (s', t) ->
  awp (load_multiple l start offset)
    (fun offset' vs' g' => extends vs vs' /\
       load_registers accessible rest (wrap 32 (a + offset')) (core g') = Some (s', t)) E vs g.
Proof.
  revert offset vs g. induction l as [|i l IH]; intros offset vs g Hl Ha He; cbn [load_multiple app load_registers] in *.
  { apply awp_ret. by split; [extends|]. }
  apply Forall_cons in Hl as [Hi Hl]. apply bind_Some in He as (v & Hv & He).
  rewrite (proj2 (Z.eqb_neq i 15)) in He by lia.
  apply awp_bind. eapply awp_multiple_address; [rdv|]. intros r vs1 Hr He1.
  apply awp_bind. eapply awp_load32; [rdv|exact Hv|]. apply awp_bind. awp_step32.
  eapply awp_mono; [apply IH; [done|rdv|]|].
  - rewrite core_set_host_reg by lia. rewrite <- He. f_equal. rewrite wrap_add_l. f_equal. lia.
  - cbn. intros offset' vs' g' [He2 Hrest]. by split; [extends|].
Qed.

Lemma awp_store_multiple l start a offset s' vs g E :
  Forall (fun i => 0 <= i <= 15) l -> rdv IR_REG_32 vs start = Some a ->
  store_registers accessible pc l (wrap 32 (a + offset)) (core g) = Some s' ->
  awp (store_multiple pc l start offset) (fun _ vs' g' => extends vs vs' /\ core g' = s') E vs g.
Proof.
  revert offset vs g. induction l as [|i l IH]; intros offset vs g Hl Ha He; cbn [store_multiple store_registers] in *.
  { simplify_eq. apply awp_ret. by split; [extends|]. }
  apply Forall_cons in Hl as [Hi Hl]. apply bind_Some in He as (s1 & H1 & He).
  apply awp_bind. awp_step32. apply awp_bind. eapply awp_multiple_address; [rdv|]. intros r vs1 Hr He1.
  apply awp_bind. eapply awp_store32; [rdv|rdv|exact H1|].
  eapply awp_mono; [apply IH; [done|rdv|]|].
  - cbn [core]. rewrite <- He. f_equal. rewrite wrap_add_l. f_equal. lia.
  - cbn. intros [] vs' g' [He2 Hg']. by split; [extends|].
Qed.

(** ** The instruction *)

Lemma awp_start_address (p u : bool) rn n vs g E :
  0 <= rn < 15 ->
  awp (if p then
         if u then r ← read_reg pc rn; c ← mk_32 4; op_32 ADD r c
         else r ← read_reg pc rn; c ← mk_32 (4 * n); op_32 SUB r c
       else
         if u then read_reg pc rn
         else r ← read_reg pc rn; c ← mk_32 (4 * (n - 1)); op_32 SUB r c)
    (yields (wrap 32 (if u then R pc rn (core g) + (if p then 4 else 0)
                      else R pc rn (core g) - 4 * n + (if p then 0 else 4))) IR_REG_32 vs g) E vs g.
Proof.
  intros Hrn. destruct p, u; steps32; yields; cbn [bits].
  - by rewrite wrap_add_r.
  - rewrite wrap_sub_r. f_equal. lia.
  - rewrite Z.add_0_r, wrap_small by apply R_range. done.
  - rewrite wrap_sub_r. f_equal. lia.
Qed.

Lemma body_TransferMultiple cond p u w l rn reglist :
  field 4 cond = true -> valid_insn (TransferMultiple p u w l rn reglist) = true ->
  body_correct (TransferMultiple p u w l rn reglist) (a32_encode (cond, TransferMultiple p u w l rn reglist)).
Proof.
  start32 fields32_TransferMultiple. cbn [exec_insn] in He.
  enter32 dis_branch_and_branch_with_link_and_block_data_transfert. enter32 dis_ldm_stm. cbn [assert_legal].
  assert (0 <= rn < 15) as Hrn by lia. clear Hv. forget_fields. rewrite in_reglist_registers.
  set (n := Z.of_nat (length (registers reglist))) in *. set (base := R pc rn (core g)) in *.
  apply awp_bind. eapply awp_mono with (Q := fun o vs' g' => g' = g /\ extends vs vs' /\
    match o with Some r => w = true /\ rdv IR_REG_32 vs' r = Some base | None => w = false end).
  { destruct w; steps32; (split; [done|]; split; [extends|]); [split; [done|rdv]|done]. }
  intros initial vs1 g1 (-> & He1 & Hinit). apply awp_bind. eapply awp_mono; [by apply awp_start_address|].
  fold base. set (start := wrap 32 (if u then base + (if p then 4 else 0) else base - 4 * n + (if p then 0 else 4))) in *.
  intros sr vs2 g2 (Hsr & He2 & ->). apply awp_bind.
  set (back := fun s1 => if w then set_reg rn (wrap 32 (if u then base + 4 * n else base - 4 * n)) s1 else s1) in *.
  assert (Hst : wrap 32 (start + 0) = start) by (rewrite Z.add_0_r; apply wrap_idem; lia).
  clearbody start.
  eapply awp_mono with (Q := fun newPc vs' g' => extends vs2 vs' /\ s' = back (core g') /\
    match newPc with Some r => exists v, rdv IR_REG_32 vs' r = Some v /\ t = Some v | None => t = None end).
  - destruct l.
    + apply bind_Some in He as ([s1 t1] & Hl & He). simplify_eq.
      apply awp_bind. eapply awp_mono; [eapply (awp_load_multiple _ _ _ start 0 s1 t); [apply reglist15_range|exact Hsr|]|].
      { rewrite <- registers_split, Hst. exact Hl. }
      cbv beta. intros offset vs3 g3 [He3 Hrest]. rewrite one_bit by lia. revert Hrest. destruct (Z.testbit reglist 15); intros Hrest; cbn [Z.b2z load_registers] in *.
      * change (negb (1 =? 0)) with true. cbv iota. apply bind_Some in Hrest as (v & Hv & Hrest).
        change (15 =? 15) with true in Hrest. cbv iota in Hrest. simplify_eq.
        apply awp_bind. eapply awp_multiple_address; [rdv|]. intros r vs4 Hr He4. apply awp_bind.
        eapply awp_load32; [rdv|exact Hv|]. steps32. split; [extends|]. split; [done|]. eexists. by split; [rdv|].
      * simplify_eq. change (negb (0 =? 0)) with false. cbv iota. apply awp_ret. by split; [extends|].
    + apply bind_Some in He as (s1 & Hs & He). simplify_eq. apply awp_last.
      eapply awp_mono; [eapply (awp_store_multiple _ _ start 0 s1); [apply registers_range|exact Hsr|by rewrite Hst]|].
      cbn. intros _ vs3 g3 [He3 Hg3]. split; [extends|]. by rewrite Hg3.
  - intros newPc vs3 g3 (He3 & -> & Hpc). apply awp_bind.
    eapply awp_mono with (Q := fun _ vs' g' => extends vs3 vs' /\ core g' = back (core g3)).
    + unfold back. destruct initial as [r|]; [destruct Hinit as [-> Hr]|rewrite Hinit; apply awp_ret; by split; [extends|]].
      apply awp_bind; awp_step32. apply awp_bind.
      eapply (awp_binop _ _ _ _ _ _ (wrap 32 (if u then base + 4 * n else base - 4 * n))); [rdv|destruct u; rdv| |].
      { destruct u; cbn [irBinop_sem bits]; by rewrite ?wrap_add_r, ?wrap_sub_r. }
      awp_step32. split; [extends|]. by rewrite core_set_host_reg by lia.
    + intros [] vs4 g4 (He4 & Hg4). destruct newPc as [r|].
      * destruct Hpc as (v & Hr & ->). steps32. by split.
      * subst t. apply awp_ret. by split.
Qed.
End multiple.
