(* ===== verification/Arm32Bits.v ===== *)
(** * The ARM front end is right on products, extensions, reversals and bit fields *)

From S2P Require Import Prelude Ir Jitter IrRequests FrontGen FrontWp ArmPseudo Arm32Gen Arm32Dis Arm32DisMisc Arm32Decode Arm32Helpers Arm32Isa Arm32Fields Arm32Sim Arm32Rules Arm32Alu Arm32Memory.

(** An instruction that goes on to the next one. *)
Ltac start_next32 F :=
  start32 F;
  match goal with H : exec_insn _ _ _ _ = Some _ |- _ =>
    cbn [exec_insn] in H; apply Some_inj in H; apply pair_eq in H as [<- <-]
  end.

(** The result is in the register, and is the right one. *)
Ltac finish32 := split; [done|]; (split; [|done]); rewrite ?core_set_host_reg by lia; try (f_equal).

Lemma clz_loop32_spec k x res :
  clz_loop32 k x res = res + CountLeadingZeroBits (Z.of_nat k) (wrap (Z.of_nat k) x).
Proof.
  revert res. induction k as [|i IH]; intros res; cbn [clz_loop32].
  - unfold wrap. cbn. rewrite Z.mod_1_r. cbn. lia.
  - rewrite Nat2Z.inj_succ. unfold Z.succ. rewrite CountLeadingZeroBits_succ, IH, one_bit by lia.
    destruct (Z.testbit x (Z.of_nat i)); cbn [Z.b2z].
    + change (negb (1 =? 0)) with true. cbv iota. lia.
    + change (negb (0 =? 0)) with false. cbv iota. lia.
Qed.

(** ** The two halves of a product *)

Lemma high_wrap v : Z.shiftr (wrap 64 v) 32 = wrap 32 (v / 2 ^ 32).
Proof.
  rewrite <- Z.shiftr_div_pow2 by lia. apply Z.bits_inj'. intros i Hi.
  rewrite testbit_wrap, !Z.shiftr_spec, testbit_wrap by lia.
  destruct (Z.ltb_spec i 32); [by rewrite (proj2 (Z.ltb_lt (i + 32) 64)) by lia|by rewrite (proj2 (Z.ltb_ge (i + 32) 64)) by lia].
Qed.

Lemma high_signed v : wrap 32 (Z.shiftr (to_signed 64 v) 32) = wrap 32 (v / 2 ^ 32).
Proof.
  rewrite <- Z.shiftr_div_pow2 by lia. apply Z.bits_inj'. intros i Hi.
  rewrite !testbit_wrap, !Z.shiftr_spec, testbit_to_signed by lia. destruct (Z.ltb_spec i 32); [|done].
  cbn [andb]. f_equal. lia.
Qed.

Lemma accumulator_eq hi lo :
  0 <= hi < 2 ^ 32 -> 0 <= lo < 2 ^ 32 -> accumulator hi lo = hi * 2 ^ 32 + lo.
Proof. intros Hh Hl. unfold accumulator. rewrite Z.shiftl_mul_pow2 by lia. apply wrap_small. lia. Qed.

Lemma signed_accumulate_eq x y hi lo :
  0 <= hi < 2 ^ 32 -> 0 <= lo < 2 ^ 32 ->
  signed_accumulate x y hi lo = wrap 64 (signed_product x y + (hi * 2 ^ 32 + lo)).
Proof.
  intros Hh Hl. unfold signed_accumulate. rewrite accumulator_eq by done.
  rewrite <- wrap_add_r, wrap_to_signed by lia. by rewrite wrap_add_r.
Qed.

(** What the helpers give for the low and the high word. *)
Definition long_product (signed a : bool) (x y hi lo : Z) : Z :=
  (if signed then to_signed 32 x * to_signed 32 y else x * y) + (if a then hi * 2 ^ 32 + lo else 0).

Lemma high_unsigned x y : 0 <= x < 2 ^ 32 -> 0 <= y < 2 ^ 32 -> Z.shiftr (x * y) 32 = wrap 32 (x * y / 2 ^ 32).
Proof. intros Hx Hy. rewrite <- high_wrap. f_equal. symmetry. apply wrap_small. nia. Qed.

Lemma low_word v w hi : wrap 32 (v + (hi * 2 ^ 32 + w)) = wrap 32 (v + w).
Proof.
  unfold wrap. replace (v + (hi * 2 ^ 32 + w)) with (v + w + hi * 2 ^ 32) by lia. by apply Z.mod_add.
Qed.

Section bits.
Context `{Hhost : ArmHost} {ir_call ctx} `{!Arm32Calls ir_call ctx} `{Hlay : !arm_layout ctx}.
Context (pc : Z).
Abbreviation awp := (awp (ir_call := ir_call) (ctx := ctx) (S := bool) (G := a32_host)).
Abbreviation body_correct := (body_correct (ir_call := ir_call) (ctx := ctx) pc).

(** ** Constants *)

Lemma body_MoveHalf cond top imm4 rd imm12 :
  field 4 cond = true -> valid_insn (MoveHalf top imm4 rd imm12) = true ->
  body_correct (MoveHalf top imm4 rd imm12) (a32_encode (cond, MoveHalf top imm4 rd imm12)).
Proof.
  start_next32 fields32_MoveHalf.
  assert (Z.shiftl imm4 12 + imm12 = imm4 * 2 ^ 12 + imm12) as Hi by (by rewrite Z.shiftl_mul_pow2).
  assert ((rd =? 15) = false) as Hrd by lia.
  destruct top; closed_fields; enter32 dis_data_processing_and_misc_insn; [enter32 dis_movt|enter32 dis_movw];
    rewrite Hrd, Hi; cbn [negb assert_legal]; apply awp_bind; awp_step32; apply awp_last.
  - eapply (awp_write_half pc); [lia|rdv|]. finish32. cbn [bits]. rewrite (wrap_small 16) by lia. done.
  - awp_step32. finish32. cbn [bits]. by apply (wrap_small 32); lia.
Qed.

(** ** Products *)

Lemma awp_mk_call2 h p1 p2 x y v (Q : nat -> irValues -> a32_host -> Prop) E vs g :
  rdv IR_REG_32 vs p1 = Some x -> rdv IR_REG_32 vs p2 = Some y ->
  pure_helper32 h [Some (IR_REG_32, x); Some (IR_REG_32, y); None; None] = Some (IR_REG_32, v) -> 0 <= v < 2 ^ 32 ->
  (forall r vs', rdv IR_REG_32 vs' r = Some v -> extends vs vs' -> Q r vs' g) ->
  awp (mk_call2 pc h p1 p2) Q E vs g.
Proof.
  intros H1 H2 Hh Hv HQ. unfold mk_call2. steps32. eapply (awp_call pc IR_REG_32 h); [rdv|params|exact Hh|done|].
  intros r vs' Hr He. apply HQ; [done|extends].
Qed.

Lemma awp_mk_call4 h p1 p2 p3 p4 x y z t v (Q : nat -> irValues -> a32_host -> Prop) E vs g :
  rdv IR_REG_32 vs p1 = Some x -> rdv IR_REG_32 vs p2 = Some y ->
  rdv IR_REG_32 vs p3 = Some z -> rdv IR_REG_32 vs p4 = Some t ->
  pure_helper32 h [Some (IR_REG_32, x); Some (IR_REG_32, y); Some (IR_REG_32, z); Some (IR_REG_32, t)] = Some (IR_REG_32, v) ->
  0 <= v < 2 ^ 32 ->
  (forall r vs', rdv IR_REG_32 vs' r = Some v -> extends vs vs' -> Q r vs' g) ->
  awp (mk_call4 pc h p1 p2 p3 p4) Q E vs g.
Proof.
  intros H1 H2 H3 H4 Hh Hv HQ. unfold mk_call4. steps32. eapply (awp_call pc IR_REG_32 h); [rdv|params|exact Hh|done|].
  intros r vs' Hr He. apply HQ; [done|extends].
Qed.

Lemma multiply_flags_eq r old :
  0 <= r < 2 ^ 32 ->
  multiply_flag_update r old =
    nzcv (mkFlags (Z.testbit r 31) (r =? 0) (flagC (flags_of old)) (flagV (flags_of old))) old.
Proof.
  intros Hr. unfold multiply_flag_update, nzcv. cbn [flagN flagZ flagC flagV flags_of].
  assert (negb (Z.shiftr r 31 =? 0) = Z.testbit r 31) as ->.
  { rewrite (sign_bit 32) by lia. rewrite Z.shiftr_div_pow2 by lia. change (2 ^ (32 - 1)) with (2 ^ 31).
    destruct (Z.leb_spec (2 ^ 31) r).
    - apply negb_true_iff, Z.eqb_neq. assert (1 <= r / 2 ^ 31) by (apply Z.div_le_lower_bound; lia). lia.
    - rewrite Z.div_small by lia. done. }
  assert (Hold : Z.land old 0x3fffffff = Z.lor (Z.lor (if Z.testbit old 29 then 0x20000000 else 0)
    (if Z.testbit old 28 then 0x10000000 else 0)) (Z.land old 0x0fffffff)).
  { change 0x20000000 with (2 ^ 29). change 0x10000000 with (2 ^ 28). rewrite <- !land_pow2 by lia.
    by rewrite <- !Z.land_lor_distr_r. }
  rewrite Hold. generalize (Z.land old 0x0fffffff). intros low.
  generalize (if Z.testbit old 29 then 0x20000000 else 0) (if Z.testbit old 28 then 0x10000000 else 0). intros c v.
  apply Z.bits_inj'. intros i Hi.
  destruct (r =? 0), (Z.testbit r 31); rewrite !Z.lor_spec, ?Z.testbit_0_l;
    destruct (Z.testbit c i), (Z.testbit v i), (Z.testbit low i), (Z.testbit 0x40000000 i), (Z.testbit 0x80000000 i); done.
Qed.

Lemma body_Multiply cond a st rd ra rm rn :
  field 4 cond = true -> valid_insn (Multiply a st rd ra rm rn) = true ->
  body_correct (Multiply a st rd ra rm rn) (a32_encode (cond, Multiply a st rd ra rm rn)).
Proof.
  start_next32 fields32_Multiply. enter32 dis_data_processing_and_misc_insn.
  assert (dis_mult_and_mult_acc_insn pc e = dis_mla pc e /\ Z.land (Z.b2z a * 2 + Z.b2z st) 0x10 = 0) as [-> ->].
  { unfold dis_mult_and_mult_acc_insn. rewrite_fields32. by destruct a, st. }
  change (negb (0 =? 0)) with false. cbv iota. enter32 dis_mla. do 2 (apply awp_bind; awp_step32). apply awp_bind.
  set (x := R pc rn (core g)) in *. set (y := R pc rm (core g)) in *.
  eapply (awp_mk_call2 _ _ _ x y); [rdv|rdv|reflexivity|apply (wrap_range 32); lia|].
  intros r vs1 Hr He1. set (res := wrap 32 (x * y + (if a then R pc ra (core g) else 0))) in *. apply awp_bind.
  eapply awp_mono with (Q := yields res IR_REG_32 vs1 g).
  { unfold multiply_unsigned_lsb in Hr. destruct a; steps32; yields; unfold res; cbn [bits].
    - by rewrite wrap_add_l.
    - by rewrite Z.add_0_r. }
  intros p vs2 g2 (Hp & He2 & ->). apply awp_bind. assert (0 <= res < 2 ^ 32) as Hres by (apply wrap_range; lia).
  destruct st.
  - apply awp_bind. awp_step32. apply awp_bind. eapply (awp_mk_call2 _ _ _ res (cpsr (core g))); [rdv|rdv|reflexivity| |].
    { rewrite multiply_flags_eq by done. apply nzcv_range32. }
    intros f vs3 Hf He3. rewrite multiply_flags_eq in Hf by done. steps32. by finish32.
  - steps32. by finish32.
Qed.

Lemma body_MultiplySubtract cond rd ra rm rn :
  field 4 cond = true -> valid_insn (MultiplySubtract rd ra rm rn) = true ->
  body_correct (MultiplySubtract rd ra rm rn) (a32_encode (cond, MultiplySubtract rd ra rm rn)).
Proof.
  start_next32 fields32_MultiplySubtract. enter32 dis_data_processing_and_misc_insn. enter32 dis_mult_and_mult_acc_insn.
  enter32 dis_mls. do 2 (apply awp_bind; awp_step32). apply awp_bind.
  eapply (awp_mk_call2 _ _ _ (R pc rn (core g)) (R pc rm (core g))); [rdv|rdv|reflexivity|apply (wrap_range 32); lia|].
  intros r vs1 Hr He1. steps32. finish32. cbn [bits]. unfold multiply_unsigned_lsb. by rewrite wrap_sub_r.
Qed.

(** The two halves, by one helper after the other. *)
Definition halves (v1 v2 : Z) (vs : irValues) (g : a32_host) : nat * nat -> irValues -> a32_host -> Prop :=
  fun lh vs' g' => g' = g /\ extends vs vs' /\ rdv IR_REG_32 vs' lh.1 = Some v1 /\ rdv IR_REG_32 vs' lh.2 = Some v2.

Lemma awp_halves2 h1 h2 p1 p2 x y v1 v2 E vs g :
  rdv IR_REG_32 vs p1 = Some x -> rdv IR_REG_32 vs p2 = Some y ->
  let args := [Some (IR_REG_32, x); Some (IR_REG_32, y); None; None] in
  pure_helper32 h1 args = Some (IR_REG_32, v1) -> pure_helper32 h2 args = Some (IR_REG_32, v2) ->
  0 <= v1 < 2 ^ 32 -> 0 <= v2 < 2 ^ 32 ->
  awp (l ← mk_call2 pc h1 p1 p2; h ← mk_call2 pc h2 p1 p2; mret (l, h)) (halves v1 v2 vs g) E vs g.
Proof.
  intros H1 H2 args Hh1 Hh2 Hr1 Hr2. apply awp_bind. eapply awp_mk_call2; [rdv|rdv|exact Hh1|done|].
  intros l vs1 Hl He1. apply awp_bind. eapply awp_mk_call2; [rdv|rdv|exact Hh2|done|].
  intros h vs2 Hh He2. apply awp_ret. split; [done|]. split; [extends|]. by split; rdv.
Qed.

Lemma awp_halves4 h1 h2 p1 p2 p3 p4 x y z t v1 v2 E vs g :
  rdv IR_REG_32 vs p1 = Some x -> rdv IR_REG_32 vs p2 = Some y ->
  rdv IR_REG_32 vs p3 = Some z -> rdv IR_REG_32 vs p4 = Some t ->
  let args := [Some (IR_REG_32, x); Some (IR_REG_32, y); Some (IR_REG_32, z); Some (IR_REG_32, t)] in
  pure_helper32 h1 args = Some (IR_REG_32, v1) -> pure_helper32 h2 args = Some (IR_REG_32, v2) ->
  0 <= v1 < 2 ^ 32 -> 0 <= v2 < 2 ^ 32 ->
  awp (l ← mk_call4 pc h1 p1 p2 p3 p4; h ← mk_call4 pc h2 p1 p2 p3 p4; mret (l, h)) (halves v1 v2 vs g) E vs g.
Proof.
  intros H1 H2 H3 H4 args Hh1 Hh2 Hr1 Hr2. apply awp_bind. eapply awp_mk_call4; [rdv|rdv|rdv|rdv|exact Hh1|done|].
  intros l vs1 Hl He1. apply awp_bind. eapply awp_mk_call4; [rdv|rdv|rdv|rdv|exact Hh2|done|].
  intros h vs2 Hh He2. apply awp_ret. split; [done|]. split; [extends|]. by split; rdv.
Qed.

Lemma body_MultiplyLong cond signed a rdhi rdlo rm rn :
  field 4 cond = true -> valid_insn (MultiplyLong signed a rdhi rdlo rm rn) = true ->
  body_correct (MultiplyLong signed a rdhi rdlo rm rn) (a32_encode (cond, MultiplyLong signed a rdhi rdlo rm rn)).
Proof.
  start_next32 fields32_MultiplyLong. enter32 dis_data_processing_and_misc_insn.
  assert (dis_mult_and_mult_acc_insn pc e = dis_mlla pc e /\ Z.land (8 + Z.b2z signed * 4 + Z.b2z a * 2) 0x10 = 0) as [-> ->].
  { unfold dis_mult_and_mult_acc_insn. rewrite_fields32. by destruct signed, a. }
  change (negb (0 =? 0)) with false. cbv iota. enter32 dis_mlla. do 2 (apply awp_bind; awp_step32). cbn [assert_legal].
  pose proof (R_range pc rn (core g)) as Hx. pose proof (R_range pc rm (core g)) as Hy.
  pose proof (R_range pc rdhi (core g)) as Hh. pose proof (R_range pc rdlo (core g)) as Hl.
  set (x := R pc rn (core g)) in *. set (y := R pc rm (core g)) in *.
  set (hi := R pc rdhi (core g)) in *. set (lo := R pc rdlo (core g)) in *. set (vs0 := (vs ++ _) ++ _).
  pose proof (wrap_range 32 (long_product signed a x y hi lo) ltac:(lia)) as Hr1.
  pose proof (wrap_range 32 (long_product signed a x y hi lo / 2 ^ 32) ltac:(lia)) as Hr2.
  apply awp_bind. eapply awp_mono with (Q := fun lh vs' g' => exists vs1, extends vs0 vs1 /\
    halves (wrap 32 (long_product signed a x y hi lo)) (wrap 32 (long_product signed a x y hi lo / 2 ^ 32)) vs1 g lh vs' g').
  - destruct a; [do 2 (apply awp_bind; awp_step32)|]; (destruct signed;
      lazymatch goal with |- FrontWp.awp _ _ _ ?v _ =>
        eapply awp_mono with (Q := halves _ _ v g); [|by intros lh vs' g' Hlh; exists v; split; [unfold vs0; extends|exact Hlh]]
      end).
    + eapply (awp_halves4 _ _ _ _ _ _ x y hi lo); [unfold vs0; rdv|unfold vs0; rdv|rdv|rdv| | |done|done];
        cbn [pure_helper32]; do 2 f_equal;
        unfold multiply_accumulate_signed_lsb, multiply_accumulate_signed_msb; rewrite signed_accumulate_eq by done.
      * by rewrite wrap_wrap by lia.
      * rewrite high_signed, <- !high_wrap. by rewrite wrap_idem by lia.
    + eapply (awp_halves4 _ _ _ _ _ _ x y hi lo); [unfold vs0; rdv|unfold vs0; rdv|rdv|rdv| | |done|done];
        cbn [pure_helper32]; do 2 f_equal.
      * unfold multiply_accumulate_unsigned_lsb, long_product. by rewrite low_word.
      * unfold multiply_accumulate_unsigned_msb. by rewrite accumulator_eq, high_wrap by done.
    + eapply (awp_halves2 _ _ _ _ x y); [unfold vs0; rdv|unfold vs0; rdv| | |done|done];
        cbn [pure_helper32]; do 2 f_equal; unfold long_product; rewrite Z.add_0_r; [done|].
      unfold multiply_signed_msb. by rewrite Z.shiftr_div_pow2 by lia.
    + eapply (awp_halves2 _ _ _ _ x y); [unfold vs0; rdv|unfold vs0; rdv| | |done|done];
        cbn [pure_helper32]; do 2 f_equal; unfold long_product; rewrite Z.add_0_r; [done|]. by apply high_unsigned.
  - intros [l h] vs1 g1 (vs2 & He & -> & He1 & Hlow & Hhigh). cbn [fst snd] in *. steps32. finish32.
    all: unfold long_product; by destruct signed.
Qed.

(** ** Counts *)

Lemma body_CountZeros cond rd rm :
  field 4 cond = true -> valid_insn (CountZeros rd rm) = true ->
  body_correct (CountZeros rd rm) (a32_encode (cond, CountZeros rd rm)).
Proof.
  start_next32 fields32_CountZeros. enter32 dis_data_processing_and_misc_insn. enter32 dis_misc_insn. enter32 dis_clz.
  assert ((rm =? 15) = false /\ (rd =? 15) = false) as [-> ->] by lia. cbn [negb assert_legal].
  pose proof (R_range pc rm (core g)) as Hx. set (x := R pc rm (core g)) in *.
  assert (Hz : clz32 x = CountLeadingZeroBits 32 x).
  { unfold clz32. rewrite clz_loop32_spec. change (Z.of_nat 32) with 32. by rewrite (wrap_small 32) by done. }
  pose proof (count_range 32 x ltac:(lia) Hx) as Hr.
  steps32. eapply (awp_call pc IR_REG_32 arm_hlp_clz); [rdv|params|reflexivity|fold x; rewrite Hz; cbn [bits]; lia|].
  intros r vs1 Hr1 He1. steps32. finish32. exact Hz.
Qed.
End bits.

(** * The ARM front end is right on media instructions: extensions, reversals,
      bit fields *)

Lemma ROR_0 x : 0 <= x < 2 ^ 32 -> ROR 32 x 0 = x.
Proof. intros Hx. apply (Shift_0 32 3 x); [lia|done]. Qed.

(** The networks of 32 bits. *)
Lemma network_rev_32 x :
  0 <= x < 2 ^ 32 ->
  swaps_value 32 [(0x0000ffff, Z.lnot 0x0000ffff, 16); (0x00ff00ff, Z.lnot 0x00ff00ff, 8)] x = Reverse_bytes 1 4 x.
Proof. intros Hx. network (network_Reverse_bytes 32%nat). Qed.

Lemma network_rev16_32 x :
  0 <= x < 2 ^ 32 -> swaps_value 32 [(0x00ff00ff, Z.lnot 0x00ff00ff, 8)] x = Reverse_bytes 2 2 x.
Proof. intros Hx. network (network_Reverse_bytes 32%nat). Qed.

Lemma reversed_half x :
  irCast_sem IR_CAST_16S_TO_32 (irCast_sem IR_CAST_32_TO_16 (swap_value 32 0xff 0xff00 8 x)) =
    wrap 32 (to_signed 16 (Reverse_bytes 1 2 x)).
Proof.
  unfold irCast_sem. cbn [cast_src cast_dst cast_signed bits]. do 2 f_equal.
  apply Z.bits_inj'. intros i Hi. rewrite testbit_wrap by lia. destruct (Z.ltb_spec i 16) as [Hlt|Hge]; cbn [andb].
  2:{ symmetry. apply (range_testbit 16); [|done]. apply (Reverse_bytes_range 1 2). }
  rewrite (Reverse_bytes_bit 1 2) by lia.
  assert (H : forallb (fun i => bool_decide (swap_source 32 (0xff, 0xff00, 8) i = Some (byte_source 2 i))) (upto 16) = true)
    by (vm_compute; reflexivity).
  apply (forallb_upto 16 _ i) in H; [|lia]. apply bool_decide_eq_true in H.
  by apply (swap_value_bit 32 _ _ _ x i) in H as [_ ->]; [|lia..].
Qed.

(** ** Bit fields *)

Lemma shl_64_ones k : 0 <= k <= 32 -> shl_64 1 k - 1 = Z.ones k.
Proof.
  intros Hk. unfold shl_64. change 63 with (Z.ones 6). rewrite Z.land_ones by lia. change (2 ^ 6) with 64.
  rewrite Z.mod_small, Z.shiftl_mul_pow2, wrap_small, Z.ones_equiv, Z.mul_1_l, <- Z.sub_1_r by
    (pose proof (Z.pow_lt_mono_r 2 k 64); try lia); lia.
Qed.

Lemma ones_below k n : 0 <= k <= n -> 0 <= Z.ones k < 2 ^ n.
Proof.
  intros Hk. rewrite Z.ones_equiv. pose proof (Z.pow_le_mono_r 2 k n ltac:(lia) ltac:(lia)).
  pose proof (Z.pow_pos_nonneg 2 k ltac:(lia) ltac:(lia)). lia.
Qed.

Lemma field_mask_eq msb lsb :
  0 <= lsb <= msb -> msb <= 31 ->
  shl_64 (shl_64 1 (msb - lsb + 1) - 1) lsb = Z.shiftl (Z.ones (msb - lsb + 1)) lsb.
Proof.
  intros Hl Hm. rewrite shl_64_ones by lia. unfold shl_64. change 63 with (Z.ones 6). rewrite Z.land_ones by lia.
  rewrite (Z.mod_small lsb) by (change (2 ^ 6) with 64; lia). apply wrap_small.
  rewrite Z.shiftl_mul_pow2 by lia. pose proof (ones_below (msb - lsb + 1) (msb - lsb + 1) ltac:(lia)).
  assert (2 ^ (msb - lsb + 1) * 2 ^ lsb <= 2 ^ 64) by (rewrite <- Z.pow_add_r by lia; apply Z.pow_le_mono_r; lia).
  assert (0 < 2 ^ lsb) by (apply Z.pow_pos_nonneg; lia). nia.
Qed.

Lemma extract_unsigned x lsb w :
  0 <= lsb -> 0 <= w <= 31 ->
  Z.land (Z.shiftr x lsb) (wrap 32 (shl_64 1 (w + 1) - 1)) = wrap (w + 1) (Z.shiftr x lsb).
Proof.
  intros Hl Hw. rewrite shl_64_ones by lia. rewrite (wrap_small 32) by (apply ones_below; lia).
  by rewrite wrap_land_ones by lia.
Qed.

(** The field moved to the top and back. *)
Lemma extract_signed x lsb w :
  0 <= lsb -> 0 <= w -> lsb + w <= 31 ->
  wrap 32 (Z.shiftr (to_signed 32 (wrap 32 (Z.shiftl x (31 - lsb - w)))) (31 - w)) =
    wrap 32 (to_signed (w + 1) (Z.shiftr x lsb)).
Proof.
  intros Hl Hw Hlw. apply Z.bits_inj'. intros i Hi. rewrite !testbit_wrap by lia.
  destruct (Z.ltb_spec i 32); [|done]. cbn [andb].
  rewrite Z.shiftr_spec, !testbit_to_signed, testbit_wrap by lia.
  assert (Hb : forall j, j = Z.min (i + (31 - w)) 31 ->
    (j <? 32) && Z.testbit (Z.shiftl x (31 - lsb - w)) j = Z.testbit (Z.shiftr x lsb) (Z.min i w)).
  { intros j ->. rewrite (proj2 (Z.ltb_lt _ _)), Z.shiftr_spec by lia. cbn [andb]. rewrite Z.shiftl_spec by lia. f_equal. lia. }
  rewrite Hb by lia. f_equal. lia.
Qed.

Lemma clear_field x m : 0 <= x < 2 ^ 32 -> Z.land x (wrap 32 (Z.lnot m)) = Z.ldiff x m.
Proof.
  intros Hx. apply Z.bits_inj'. intros i Hi. rewrite Z.land_spec, Z.ldiff_spec, testbit_wrap, Z.lnot_spec by lia.
  destruct (Z.ltb_spec i 32); [done|]. by rewrite (range_testbit 32 x) by lia.
Qed.

Lemma insert_field x msb lsb :
  0 <= lsb <= msb -> msb <= 31 ->
  Z.land (wrap 32 (Z.shiftl x lsb)) (wrap 32 (Z.shiftl (Z.ones (msb - lsb + 1)) lsb)) =
    Z.land (Z.shiftl x lsb) (Z.shiftl (Z.ones (msb - lsb + 1)) lsb).
Proof.
  intros Hl Hm. apply Z.bits_inj'. intros i Hi. rewrite !Z.land_spec, !testbit_wrap by lia.
  destruct (Z.ltb_spec i 32); [done|]. cbn [andb]. rewrite (Z.shiftl_spec (Z.ones _)), Z.ones_spec_high by lia.
  by rewrite andb_false_r.
Qed.

Section media.
Context `{Hhost : ArmHost} {ir_call ctx} `{!Arm32Calls ir_call ctx} `{Hlay : !arm_layout ctx}.
Context (pc : Z).
Abbreviation awp := (awp (ir_call := ir_call) (ctx := ctx) (S := bool) (G := a32_host)).
Abbreviation body_correct := (body_correct (ir_call := ir_call) (ctx := ctx) pc).

(** ** Extensions *)

Lemma awp_extend_with extend e rd rm rotate v vs g :
  INSN e 15 12 = rd -> INSN e 3 0 = rm -> INSN e 11 10 = rotate -> 0 <= rd < 15 -> 0 <= rm <= 15 -> 0 <= rotate < 4 ->
  (forall r vs', rdv IR_REG_32 vs' r = Some (ROR 32 (R pc rm (core g)) (8 * rotate)) ->
     awp (extend r) (yields v IR_REG_32 vs' g) never vs' g) ->
  awp (extend_with pc extend e) (falls32 (set_reg rd v (core g)) None) (leaves32 (set_reg rd v (core g)) None) vs g.
Proof.
  intros H1 H2 H3 Hrd Hrm Hrot Hext. unfold extend_with, rotated_rm, mk_media_rotate. rewrite_fields32.
  rewrite Z.shiftl_mul_pow2 by lia. change (2 ^ 3) with 8. apply awp_bind. awp_step32. set (x := R pc rm (core g)) in *.
  apply awp_bind. eapply awp_mono with (Q := yields (ROR 32 x (8 * rotate)) IR_REG_32 (vs ++ [(IR_REG_32, x)]) g).
  - destruct (Z.eqb_spec (rotate * 8) 0); cbn [negb].
    + apply awp_ret. assert (rotate = 0) as -> by lia. yields. symmetry. apply ROR_0, R_range.
    + unfold mk_ror_imm_32. steps32. yields. unfold ROR. cbn [bits]. by rewrite (Z.mul_comm rotate 8).
  - intros r vs1 g1 (Hr & He1 & ->). apply awp_bind. eapply awp_mono; [by apply Hext|].
    intros r2 vs2 g2 (Hr2 & He2 & ->). steps32. by finish32.
Qed.

Lemma awp_narrow_then t1 t2 r x vs g E :
  cast_src t1 = IR_REG_32 -> cast_dst t1 = cast_src t2 -> cast_dst t2 = IR_REG_32 -> rdv IR_REG_32 vs r = Some x ->
  awp (narrow_then t1 t2 r) (yields (irCast_sem t2 (irCast_sem t1 x)) IR_REG_32 vs g) E vs g.
Proof.
  intros H1 H2 H3 Hr. unfold narrow_then. apply awp_bind. eapply awp_cast; [by rewrite H1|].
  eapply awp_cast; [rewrite H2; rdv|]. rewrite H3. by yields.
Qed.

Lemma awp_add_rn e rn extend r y vs g E :
  INSN e 19 16 = rn -> 0 <= rn <= 15 ->
  (forall vs', extends vs vs' -> awp (extend r) (yields y IR_REG_32 vs' g) never vs' g) ->
  awp (add_rn pc e extend r) (yields (wrap 32 (R pc rn (core g) + y)) IR_REG_32 vs g) E vs g.
Proof.
  intros Hf Hrn Hext. unfold add_rn. rewrite_fields32. apply awp_bind. awp_step32. apply awp_bind.
  eapply awp_mono; [apply Hext; extends|]. intros r2 vs2 g2 (Hr2 & He2 & ->). steps32. by yields.
Qed.

(** The low byte or halfword, extended. *)
Definition extended (unsigned half : bool) (x : Z) : Z :=
  let len := if half then 16 else 8 in if unsigned then wrap len x else to_signed len x.

Lemma extended_value (unsigned half : bool) x :
  irCast_sem (if half then if unsigned then IR_CAST_16U_TO_32 else IR_CAST_16S_TO_32
              else if unsigned then IR_CAST_8U_TO_32 else IR_CAST_8S_TO_32)
    (irCast_sem (if half then IR_CAST_32_TO_16 else IR_CAST_32_TO_8) x) = wrap 32 (extended unsigned half x).
Proof.
  unfold irCast_sem, extended. destruct unsigned, half; cbn [cast_src cast_dst cast_signed bits]; f_equal;
    rewrite ?wrap_idem by lia; try done; by rewrite to_signed_wrap by lia.
Qed.

(** The function of each form. *)
Definition extend_function (unsigned half add : bool) (e : Z) : genM bool bool :=
  match add, unsigned, half with
  | false, false, false => dis_sxtb pc e
  | false, false, true => dis_sxth pc e
  | false, true, false => dis_uxtb pc e
  | false, true, true => dis_uxth pc e
  | true, false, false => dis_sxtab pc e
  | true, false, true => dis_sxtah pc e
  | true, true, false => dis_uxtab pc e
  | true, true, true => dis_uxtah pc e
  end.

Lemma extended_mask half x : wrap 32 (extended true half x) = Z.land x (if half then 0xffff else 0xff).
Proof.
  unfold extended. destruct half; [change 0xffff with (Z.ones 16)|change 0xff with (Z.ones 8)];
    rewrite wrap_land_ones by lia; apply wrap_small.
  - pose proof (wrap_range 16 x). lia.
  - pose proof (wrap_range 8 x). lia.
Qed.

(** Each of the extensions. *)
Lemma awp_narrow_extended (unsigned half : bool) r x vs g E :
  rdv IR_REG_32 vs r = Some x ->
  awp (narrow_then (if half then IR_CAST_32_TO_16 else IR_CAST_32_TO_8)
         (if half then if unsigned then IR_CAST_16U_TO_32 else IR_CAST_16S_TO_32
          else if unsigned then IR_CAST_8U_TO_32 else IR_CAST_8S_TO_32) r)
    (yields (wrap 32 (extended unsigned half x)) IR_REG_32 vs g) E vs g.
Proof.
  intros Hr. rewrite <- extended_value. by apply awp_narrow_then; try by destruct unsigned, half.
Qed.

Lemma awp_mask_extended (half : bool) r x vs g E :
  rdv IR_REG_32 vs r = Some x ->
  awp (mask_with (if half then 0xffff else 0xff) r) (yields (wrap 32 (extended true half x)) IR_REG_32 vs g) E vs g.
Proof. intros Hr. unfold mask_with. steps32. yields. rewrite extended_mask. by destruct half. Qed.

Lemma awp_extend_function (unsigned half add : bool) e rn rd rotate rm vs g s' :
  INSN e 19 16 = rn -> INSN e 15 12 = rd -> INSN e 3 0 = rm -> INSN e 11 10 = rotate ->
  0 <= rn <= 15 -> 0 <= rd < 15 -> 0 <= rm <= 15 -> 0 <= rotate < 4 ->
  s' = set_reg rd (wrap 32 (extended unsigned half (ROR 32 (R pc rm (core g)) (8 * rotate)) + (if add then R pc rn (core g) else 0))) (core g) ->
  awp (extend_function unsigned half add e) (falls32 s' None) (leaves32 s' None) vs g.
Proof.
  intros Hfn Hfd Hfm Hfr Hrn Hrd Hrm Hrot ->. set (x := ROR _ _ _) in *.
  destruct add.
  - rewrite Z.add_comm, <- wrap_add_r.
    destruct unsigned, half; (eapply awp_extend_with; [eassumption..|]); intros r vs' Hr;
      (eapply awp_add_rn; [done..|]; intros vs'' He').
    + apply (awp_narrow_extended true true); rdv.
    + apply (awp_narrow_extended true false); rdv.
    + apply (awp_narrow_extended false true); rdv.
    + apply (awp_narrow_extended false false); rdv.
  - rewrite Z.add_0_r. destruct unsigned, half; (eapply awp_extend_with; [eassumption..|]); intros r vs' Hr.
    + by apply (awp_mask_extended true).
    + by apply (awp_mask_extended false).
    + by apply (awp_narrow_extended false true).
    + by apply (awp_narrow_extended false false).
Qed.

Lemma body_ExtendAdd cond unsigned half rn rd rotate rm :
  field 4 cond = true -> valid_insn (ExtendAdd unsigned half rn rd rotate rm) = true ->
  body_correct (ExtendAdd unsigned half rn rd rotate rm) (a32_encode (cond, ExtendAdd unsigned half rn rd rotate rm)).
Proof.
  start_next32 fields32_ExtendAdd. enter32 dis_media_insn.
  match goal with |- awp _ (falls32 ?s1 _) _ _ _ =>
    assert (Hgo : awp (extend_function unsigned half (negb (rn =? 15)) e) (falls32 s1 None) (leaves32 s1 None) vs g)
  end.
  2:{ clear Hv. unfold dis_packing_A_unpacking_A_saturation_A_reversal. rewrite_fields32.
      unfold extended in Hgo. destruct unsigned, half; cbn [Z.b2z] in *; closed_fields; znum; decide_tests32; destruct (rn =? 15); exact Hgo. }
  eapply awp_extend_function; [eassumption..|lia|lia|lia|lia|]. unfold extended. by destruct unsigned, (rn =? 15).
Qed.

(** ** Reversals *)

Lemma awp_swap_parts32 c k r x Q vs g :
  0 <= k < 32 -> rdv IR_REG_32 vs r = Some x ->
  (forall r' vs', yields (swap_value 32 c (Z.lnot c) k x) IR_REG_32 vs g r' vs' g -> Q r' vs' g) ->
  awp (swap_parts r c k) Q never vs g.
Proof. intros Hk Hr HQ. unfold swap_parts. steps32. apply HQ. yields. reflexivity. Qed.

Ltac swaps32 := repeat (steps32; eapply awp_swap_parts32; [lia|rdv|intros ? ? (? & ? & _)]).

(** What each kind requests. *)
Definition reversal_function (kind : reversal) (e : Z) : genM bool bool :=
  match kind with
  | RevBytes => dis_rev pc e
  | RevBytes16 => dis_rev16 pc e
  | RevBits => dis_rbit pc e
  | RevSignedHalf => dis_revsh pc e
  end.

Lemma body_ReverseOrder cond kind rd rm :
  field 4 cond = true -> valid_insn (ReverseOrder kind rd rm) = true ->
  body_correct (ReverseOrder kind rd rm) (a32_encode (cond, ReverseOrder kind rd rm)).
Proof.
  start_next32 fields32_ReverseOrder. enter32 dis_media_insn.
  match goal with |- awp _ (falls32 ?s1 _) _ _ _ =>
    assert (Hgo : awp (reversal_function kind e) (falls32 s1 None) (leaves32 s1 None) vs g)
  end.
  2:{ clear Hv. unfold dis_packing_A_unpacking_A_saturation_A_reversal. rewrite_fields32.
      destruct kind; cbn [reversal_op1 reversal_op2 reversal_function] in *; closed_fields; znum; decide_tests32; exact Hgo. }
  assert (Hx := R_range pc rm (core g)). destruct kind; cbn [reversal_function].
  - enter32 dis_rev. swaps32. steps32. finish32. by apply network_rev_32.
  - enter32 dis_rev16. swaps32. steps32. finish32. by apply network_rev16_32.
  - enter32 dis_rbit. swaps32. steps32. finish32. by apply network_rbit_32.
  - enter32 dis_revsh. steps32. eapply awp_mono; [apply awp_narrow_then; [done..|rdv]|]. intros r vs' g' (Hr & Hev & ->).
    steps32. finish32. by apply reversed_half.
Qed.

(** ** Bit fields *)

Lemma body_BitfieldExtract cond unsigned widthm1 rd lsb rn :
  field 4 cond = true -> valid_insn (BitfieldExtract unsigned widthm1 rd lsb rn) = true ->
  body_correct (BitfieldExtract unsigned widthm1 rd lsb rn) (a32_encode (cond, BitfieldExtract unsigned widthm1 rd lsb rn)).
Proof.
  start_next32 fields32_BitfieldExtract. enter32 dis_media_insn.
  assert (Hw : widthm1 / 16 = 0 \/ widthm1 / 16 = 1) by (Z.div_mod_to_equations; lia).
  assert (Hx := R_range pc rn (core g)).
  match goal with |- awp _ (falls32 ?s1 _) _ _ _ =>
    assert (Hgo : awp (if unsigned then dis_ubfx pc e else dis_sbfx pc e) (falls32 s1 None) (leaves32 s1 None) vs g)
  end.
  2:{ replace (lsb mod 2 * 4 + 2 =? 7) with false by (symmetry; apply Z.eqb_neq; pose proof (Z.mod_pos_bound lsb 2); lia).
      destruct unsigned, Hw as [-> | ->]; cbn [Z.b2z]; znum; decide_tests32; exact Hgo. }
  clear Hw. destruct unsigned; [enter32 dis_ubfx|enter32 dis_sbfx]; steps32; finish32; cbn [bits].
  - by apply extract_unsigned; lia.
  - by apply extract_signed; lia.
Qed.

Lemma body_BitfieldInsert cond msb rd lsb rn :
  field 4 cond = true -> valid_insn (BitfieldInsert msb rd lsb rn) = true ->
  body_correct (BitfieldInsert msb rd lsb rn) (a32_encode (cond, BitfieldInsert msb rd lsb rn)).
Proof.
  start_next32 fields32_BitfieldInsert. enter32 dis_media_insn.
  assert (Hw : msb / 16 = 0 \/ msb / 16 = 1) by (Z.div_mod_to_equations; lia).
  assert (Hm : field_mask e = Z.shiftl (Z.ones (msb - lsb + 1)) lsb) by (unfold field_mask; rewrite_fields32; apply field_mask_eq; lia).
  assert (Hx := R_range pc rd (core g)).
  match goal with |- awp _ (falls32 ?s1 _) _ _ _ =>
    assert (Hgo : awp (if rn =? 15 then dis_bfc pc e else dis_bfi pc e) (falls32 s1 None) (leaves32 s1 None) vs g)
  end.
  2:{ destruct Hw as [-> | ->]; znum; decide_tests32; exact Hgo. }
  clear Hw. destruct (Z.eqb_spec rn 15); [unfold dis_bfc|unfold dis_bfi]; rewrite Hm; rewrite_fields32.
  - replace (rd =? 15) with false by lia. cbn [negb assert_legal]. steps32. finish32. cbn [bits].
    rewrite Z.land_0_l, Z.lor_0_l. by apply clear_field.
  - steps32. finish32. cbn [bits]. rewrite clear_field by done. f_equal. by apply insert_field; lia.
Qed.
End media.
