(* ===== verification/Arm32Machine.v ===== *)
(** * The ARM front end against the architecture: blocks

    Every instruction of [Arm32Isa.v] is translated right, then the loop of
    [disassemble_arm].  An instruction whose condition fails leaves the block
    for the next one. *)

From S2P Require Import Prelude Ir Jitter BeX86 BeGen X86Sem X86Exec X86Correct X86Const X86Sim X86Compile CodeCache Loop LoopBlocks LoopExec LoopTheorems Main IrRequests FrontGen FrontWp FrontTyped TargetGen ArmPseudo Arm32Gen Arm32Dis Arm32DisMisc Arm32Decode Arm32Typed Arm32Target Arm32Helpers Arm32Isa Arm32Fields Arm32Sim Arm32Rules Arm32Alu Arm32Memory Arm32Bits.

(** ** Straight-line code of the architecture *)

(** The addresses where the translator puts the kernel's helpers. *)
Definition kernel_helper (pc : Z) : bool :=
  (pc =? 0xffff0f60) || (pc =? 0xffff0fc0) || (pc =? 0xffff0fa0) || (pc =? 0xffff0fe0).

Section straight.
Context (accessible : Z -> Z -> bool).

(** The guest may read the code at [pc], and it is [l]. *)
Fixpoint a32_code_at (m : mem) (pc : Z) (l : list a32_op) : bool :=
  match l with
  | [] => true
  | o :: l =>
      accessible pc 4 && negb (kernel_helper pc) && (load_mem IR_REG_32 m pc =? a32_encode o) && a32_valid o
      && a32_code_at m (pc + 4) l
  end.

(** The state after at most [n] instructions, and where it goes on: one that
    branches ends them, and one whose condition fails. *)
Fixpoint a32_run (n : nat) (l : list a32_op) (pc : Z) (s : a32_state) : option (a32_state * Z) :=
  match n, l with
  | O, [] => Some (s, wrap 32 pc)
  | S n, o :: l =>
      '(s', t) ← a32_exec accessible pc o s;
      match t with
      | Some v => Some (s', v)
      | None => if ConditionHolds o.1 (apsr s) then a32_run n l (pc + 4) s' else Some (s', wrap 32 (pc + 4))
      end
  | _, _ => None
  end.
End straight.

Section correct.
Context `{Hhost : ArmHost} {ir_call ctx} `{!Arm32Calls ir_call ctx} `{Hlay : !arm_layout ctx}.
Abbreviation a32_correct := (a32_correct (ir_call := ir_call) (ctx := ctx)).
Abbreviation body_correct := (body_correct (ir_call := ir_call) (ctx := ctx)).
Abbreviation accessible := (guest_accessible32 ctx).

(** ** One instruction *)

Lemma body_correct_all pc cond i :
  field 4 cond = true -> valid_insn i = true -> cond <> 15 ->
  match i with BranchLinkExchange _ _ => False | _ => True end -> body_correct pc i (a32_encode (cond, i)).
Proof.
  intros Hc Hv Hne Hi. destruct i as [op st rn rd [ | | ]| | | | | | | | | | | | |p u b w l rn rt [ | ]|p u w k rn rt [ | ]| ];
    try done.
  all: [> apply body_dp_immediate|apply body_dp_shifted|apply body_dp_register|apply body_MoveHalf|apply body_Multiply|apply body_MultiplySubtract
    |apply body_MultiplyLong|apply body_CountZeros|apply body_ExtendAdd|apply body_ReverseOrder|apply body_BitfieldExtract
    |apply body_BitfieldInsert|apply body_BranchLink|apply body_BranchExchange|apply body_Transfer_immediate
    |apply body_Transfer_register|apply body_Extra_immediate|apply body_Extra_register|apply body_TransferMultiple].
  all: done.
Qed.

Lemma cond_field cond i :
  field 4 cond = true -> valid_insn i = true -> INSN (a32_encode (cond, i)) 31 28 = cond.
Proof.
  intros Hc Hv. destruct i as [op st rn rd [ | | ]| | | | | | | | | | | | |p u b w l rn rt [ | ]|p u w k rn rt [ | ]| ].
  all: eapply proj1.
  all: [> apply fields32_dp_immediate|apply fields32_dp_shifted|apply fields32_dp_register|apply fields32_MoveHalf|apply fields32_Multiply
    |apply fields32_MultiplySubtract|apply fields32_MultiplyLong|apply fields32_CountZeros|apply fields32_ExtendAdd
    |apply fields32_ReverseOrder|apply fields32_BitfieldExtract|apply fields32_BitfieldInsert|apply fields32_BranchLink
    |apply fields32_BranchExchange|apply fields32_BranchLinkExchange|apply fields32_Transfer_immediate
    |apply fields32_Transfer_register|apply fields32_Extra_immediate|apply fields32_Extra_register
    |apply fields32_TransferMultiple].
  all: done.
Qed.

Lemma a32_correct_all pc o : a32_correct pc o.
Proof.
  destruct o as [cond i]. intros vs g s' t Hv.
  assert (field 4 cond = true /\ Bool.eqb (cond =? 15) match i with BranchLinkExchange _ _ => true | _ => false end = true /\
    valid_insn i = true) as (Hc & Hb & Hi).
  { unfold a32_valid in Hv. cbn [fst snd] in Hv. rewrite !andb_true_iff in Hv. by destruct_and! Hv. }
  revert vs g s' t Hv. destruct (Z.eqb_spec cond 15) as [->|Hne].
  - destruct i; try discriminate Hb. intros vs g s' t Hv. by apply correct_BranchLinkExchange.
  - apply conditional_correct; [by apply cond_field| |done].
    intros _. apply body_correct_all; [done..|]. by destruct i.
Qed.

(** ** The loop *)

Abbreviation gwp := (gwp ir_call ctx (S := bool)).

Lemma host_address pc : 0 <= pc < 2 ^ 32 -> g_2_h pc = pc + mmap_offset /\ h_2_g (pc + mmap_offset) = pc.
Proof.
  intros Hpc. destruct layout_memory. unfold g_2_h, h_2_g. rewrite wrap_small by lia. split; [done|].
  replace (pc + mmap_offset - mmap_offset) with pc by lia. by apply wrap_small.
Qed.

(** What is left when a block was left. *)
Definition left_block32 (s : a32_state) (pc : Z) : unit -> Z -> mem -> Prop :=
  fun _ v m => v = pc /\ exists g, represents32 ctx g m /\ core g = s.

Lemma gwp_exit_to32 pc g (Q : unit -> bool -> irValues -> mem -> Prop) (E : unit -> Z -> mem -> Prop) vs m :
  represents32 ctx g m -> (forall g' m', represents32 ctx g' m' -> core g' = core g -> E tt (wrap 32 (pc + 4)) m') ->
  gwp (put_insn (exit_to pc);; mret tt) Q E false vs m.
Proof.
  intros Hm HE. apply gwp_last, gwp_put_insn.
  assert (Hvs : values_ok []) by constructor.
  eapply gwp_mono; [apply (awp_branch_const (pc + 4) (core g) (Some (wrap 32 (pc + 4))) [] g eq_refl eq_refl Hvs m Hm)| |].
  - cbn. by intros a st' vs' m' (_ & _ & g' & _ & _ & _ & ?).
  - cbn. intros a v m' (g' & Hm' & Hg & [= <-]). by eapply HE.
Qed.

(** One turn of the loop, on the code of [m0], from a later state. *)
Lemma gwp_insn32 m0 g0 vs g m pc o s' t :
  represents32 ctx g0 m0 -> represents32 ctx g m ->
  accessible pc 4 = true -> kernel_helper pc = false -> load_mem IR_REG_32 (memory (core g0)) pc = a32_encode o ->
  a32_valid o = true -> a32_exec accessible pc o (core g) = Some (s', t) ->
  let holds := ConditionHolds o.1 (apsr (core g)) in
  gwp (put_insn (disassemble_at m0 (pc + mmap_offset)).1)
    (fun isExit st' _ m' => isExit = false /\ st' = false /\ t = None /\ holds = true /\
       exists g', represents32 ctx g' m' /\ core g' = s')
    (fun b v m' => exists g', represents32 ctx g' m' /\ leaves_insn32 pc holds s' t b v g') false vs m.
Proof.
  intros Hm0 Hm Ha Hk Hf Hv He holds. assert (0 <= pc < 2 ^ 32) as Hpc by (unfold guest_accessible32 in Ha; lia).
  unfold disassemble_at. rewrite (proj2 (host_address pc Hpc)).
  unfold kernel_helper in Hk. rewrite !orb_false_iff in Hk. destruct Hk as [[[-> ->] ->] ->]. cbn [fst].
  rewrite (rep32_load (ctx := ctx) IR_REG_32 pc g0 m0 Hm0 Ha), Hf. apply gwp_put_insn.
  assert (Hvs : values_ok []) by constructor.
  eapply gwp_mono; [by eapply (a32_correct_all pc o [] g s' t Hv He Hvs)| |done].
  cbn. intros a st' vs' m' (-> & _ & g' & Hm' & (-> & Hg & ->) & Hh) _. do 4 (split; [done|]). by exists g'.
Qed.

Lemma total_rest m marker n i p pc (isExit : bool) :
  total (if isExit then mret tt
         else match n with O => put_insn (exit_to pc);; mret tt | _ => disassemble_loop m marker n i p end).
Proof.
  destruct isExit; [|destruct n as [|n]].
  - apply (gives_total any 0). intros Γ. gives.
  - apply (gives_total any 4). intros Γ. eapply (gives_bind any any 4 0); [|by intros; apply gives_ret|lia].
    apply gives_put_insn, arm_gives_exit_to.
  - eapply gives_total. intros Γ. apply arm_gives_disassemble_loop.
Qed.

(** A turn of the loop, and what comes after it. *)
Lemma gwp_turn32 m0 g0 marker n i pc o vs g m s1 t Q E :
  represents32 ctx g0 m0 -> represents32 ctx g m ->
  accessible pc 4 = true -> kernel_helper pc = false -> load_mem IR_REG_32 (memory (core g0)) pc = a32_encode o ->
  a32_valid o = true -> a32_exec accessible pc o (core g) = Some (s1, t) ->
  let holds := ConditionHolds o.1 (apsr (core g)) in
  (forall b v g' m', represents32 ctx g' m' -> leaves_insn32 pc holds s1 t b v g' -> E tt v m') ->
  (t = None -> holds = true -> forall g' vs' m', represents32 ctx g' m' -> core g' = s1 ->
     gwp (match n with O => put_insn (exit_to pc);; mret tt
          | _ => disassemble_loop m0 marker n (i + 1) (pc + 4 + mmap_offset) end) Q E false vs' m') ->
  gwp (disassemble_loop m0 marker (S n) i (pc + mmap_offset)) Q E false vs m.
Proof.
  intros Hm0 Hm Ha Hk Hf Hv He holds Hleave Hnext. cbn [disassemble_loop]. apply gwp_bind.
  assert (0 <= pc < 2 ^ 32) as Hpc by (unfold guest_accessible32 in Ha; lia). destruct layout_memory.
  assert (Hgo : forall vs, gwp (isExit ← put_insn (disassemble_at m0 (pc + mmap_offset)).1;
      if isExit : bool then mret tt
      else match n with O => put_insn (exit_to (h_2_g (pc + mmap_offset)));; mret tt
           | _ => disassemble_loop m0 marker n (i + 1) (disassemble_at m0 (pc + mmap_offset)).2 end) Q E false vs m).
  2:{ destruct marker; [by apply gwp_marker|by apply gwp_ret]. }
  clear vs. intros vs. rewrite (proj2 (host_address pc Hpc)). apply gwp_bind_leave.
  eapply gwp_mono; [by eapply (gwp_insn32 m0 g0 vs g m pc o s1 t)| |].
  - cbn beta. intros isExit st' vs' m' (-> & -> & Ht & Hh & g' & Hm' & Hg). specialize (Hnext Ht Hh g' vs' m' Hm' Hg).
    replace (disassemble_at m0 (pc + mmap_offset)).2 with (pc + 4 + mmap_offset); [done|].
    unfold disassemble_at. rewrite (proj2 (host_address pc Hpc)).
    unfold kernel_helper in Hk. rewrite !orb_false_iff in Hk. destruct Hk as [[[-> ->] ->] ->]. cbn [snd].
    unfold guest_accessible32 in Ha. rewrite wrap_small by lia. lia.
  - cbn beta. intros isExit v m' (g' & Hm' & Hl). split; [apply total_rest|]. intros []. by eapply Hleave.
Qed.

Lemma gwp_loop32 m0 g0 marker n l i pc vs g m s' pc' :
  represents32 ctx g0 m0 -> represents32 ctx g m -> a32_code_at accessible (memory (core g0)) pc l = true ->
  a32_run accessible (S n) l pc (core g) = Some (s', pc') ->
  gwp (disassemble_loop m0 marker (S n) i (pc + mmap_offset)) (fun _ _ _ _ => False) (left_block32 s' pc') false vs m.
Proof.
  intros Hm0. revert l i pc vs g m. induction n as [|n IH]; intros l i pc vs g m Hm Hcode Hrun.
  all: destruct l as [|o l]; [done|]; cbn [a32_code_at a32_run] in Hcode, Hrun.
  all: rewrite !andb_true_iff, negb_true_iff, Z.eqb_eq in Hcode; destruct Hcode as [[[[Ha Hk] Hf] Hv] Hcode].
  all: apply bind_Some in Hrun as ([s1 t] & He & Hrun).
  all: eapply (gwp_turn32 m0 g0); [done..| |].
  1,3: intros b v g' m' Hm' [Hg Hl]; destruct t as [t|], (ConditionHolds _ _); try discriminate Hl;
    try (match type of Hl with _ /\ _ => destruct Hl as [? ->] end); simplify_eq; (split; [done|by exists g']).
  all: intros -> Hh g' vs' m' Hm' Hg; rewrite Hh in Hrun.
  - destruct l; [|done]. cbn [a32_run] in Hrun. simplify_eq.
    eapply gwp_exit_to32; [exact Hm'|]. intros g2 m2 Hm2 Hg2. split; [done|]. by exists g2.
  - apply (IH l _ (pc + 4) vs' g' m' Hm' Hcode). rewrite Hg. exact Hrun.
Qed.

(** ** A block *)

Lemma translate_block32 marker m g pc maxInsn l s' pc' :
  represents32 ctx g m -> Z.land pc 3 = 0 -> 0 < maxInsn -> a32_code_at accessible (memory (core g)) pc l = true ->
  a32_run accessible (Z.to_nat maxInsn) l pc (core g) = Some (s', pc') ->
  exists reqs b m' g', disassemble_block m marker pc maxInsn = Some (reqs, b) /\
    req_run ir_call ctx reqs [] m = Some (ReqExit pc' m') /\ represents32 ctx g' m' /\ core g' = s'.
Proof.
  intros Hm Hal Hn Hcode Hrun. destruct (Z.to_nat maxInsn) as [|n] eqn:En; [lia|].
  assert (0 <= pc < 2 ^ 32) as Hpc.
  { destruct l as [|o l]; [done|]. cbn [a32_code_at] in Hcode. unfold guest_accessible32 in Hcode. lia. }
  unfold disassemble_block. rewrite Hal, (proj2 (Z.ltb_lt _ _)), (proj1 (host_address pc Hpc)), En by lia. cbn [Z.eqb andb].
  destruct (gwp_loop32 m g marker n l 0 pc [] g m s' pc' Hm Hm Hcode Hrun [] eq_refl) as (a & st' & new & E & Hr).
  cbn [app] in E. rewrite E. cbn [mbind option_bind requests front].
  destruct (req_run ir_call ctx new [] m) as [[vs' m'|v m']|] eqn:Er; [done| |done].
  destruct Hr as (-> & g' & Hm' & Hg'). by exists new, st', m', g'.
Qed.
End correct.

(** * The ARM machine

    The front end and the target as the loop takes them, and what the loop runs
    then: a program of the architecture, block by block; a block ends where an
    instruction branches or its condition fails. *)

(** The whole context is in the address space, and the memory of the guest. *)
Class target32_ok `{ArmHost} (c : Z) : Prop := {
  target32_layout :: arm_layout c;
  target32_context : sizeof_target <= c /\ c + 480 <= 2 ^ 64
}.

Section machine.
Context `{ArmHost} (c : Z) {Hc : target32_ok c}.

(** [struct target]: a failed assertion ends the process. *)
Definition target_isLooping (m : mem) : bool * mem := default (false, m) (arm_isLooping c m).

Definition target_disassemble (m : mem) (pc maxInsn : Z) : list irCall :=
  default [] (fst <$> arm_disassemble c pc maxInsn m).

Lemma target_isLooping_same32 m m' : target_isLooping m = (true, m') -> m' = m.
Proof.
  unfold target_isLooping, arm_isLooping. destruct target32_context as [H0 H1]. unfold sizeof_target in H0.
  match goal with |- context [default _ (?x ≫= _)] => destruct x as [[]|] end; cbn; [|congruence..].
  rewrite get32_set32_other, get32_set32 by (unfold off_isLooping, off_exitStatus; lia). done.
Qed.

Definition arm32_target : Target := {|
  isLooping := target_isLooping;
  disassemble := target_disassemble;
  isLooping_same := target_isLooping_same32
|}.
End machine.

Section refinement.
Context `{Hcr : CallResults} `{Hhost : ArmHost} {ir_call} {c : Z} `{!Arm32Calls ir_call c} {Hc : target32_ok c}.
Abbreviation accessible := (guest_accessible32 c).

(** One block of the architecture: its code is read when it is entered. *)
Inductive a32_block (maxInsn : Z) : Z * a32_state -> Z * a32_state -> Prop :=
  | a32_block_intro pc s l pc' s' :
      Z.land pc 3 = 0 -> 0 < maxInsn -> a32_code_at accessible (memory s) pc l = true ->
      a32_run accessible (Z.to_nat maxInsn) l pc s = Some (s', pc') ->
      a32_block maxInsn (pc, s) (pc', s').

(** The memory of the process at a state of the guest. *)
Definition machine_represents32 (g : Z * a32_state) (h : Z * mem) : Prop :=
  g.1 = h.1 /\ exists host, represents32 c host h.2 /\ core host = g.2.

(** The block the loop translates and runs. *)
Lemma guest_block_arm32 maxInsn j0 (host : Host) be0 g g' h :
  @target_runtime host = c -> machine_represents32 g h -> a32_block maxInsn g g' ->
  @block_ready (arm32_target c) Hcr maxInsn j0 be0 h = true ->
  exists h', @guest_step (arm32_target c) host ir_call maxInsn j0 h = Some h' /\ machine_represents32 g' h'.
Proof.
  intros Hrt (Hpc & g0 & Hm & Hg) Hb Hready. destruct g as [pc s], h as [pc2 m]. cbn in Hpc, Hm, Hg. subst pc2 s.
  inversion Hb as [pc1 s1 l pc' s' Hal Hn Hcode Hrun]; subst.
  destruct (translate_block32 (ir_call := ir_call) false m g0 pc maxInsn l s' pc' Hm Hal Hn Hcode Hrun)
    as (reqs & b & m' & g1 & Hd & Hr & Hm1 & <-).
  assert (Hdis : @disassemble (arm32_target c) m pc maxInsn = reqs).
  { cbn [disassemble arm32_target]. unfold target_disassemble, arm_disassemble.
    assert (Z.testbit pc 0 = false) as ->.
    { assert (Z.testbit (Z.land pc 3) 0 = false) as Hb0 by (by rewrite Hal).
      by rewrite Z.land_spec, andb_true_r in Hb0. }
    unfold disassemble_arm. by rewrite Hd. }
  unfold guest_step, guest_block, block_ready in *. cbn [fst snd] in *. rewrite Hdis in *.
  apply andb_true_iff in Hready as [Hv Hready].
  destruct (irAlloc_session reqs (resetJitter j0)) as [[[] j]|] eqn:Ej; [|done]. cbn [mbind option_bind].
  exists (pc', m'). split; [|split; [done|by exists g1]]. rewrite (session_block ir_call _ _ _ _ _ Hv Ej). by rewrite Hrt, Hr.
Qed.

(** ** The program *)

Section program.
Context {host : Host} (maxInsn : Z) (j0 : jitter) (be0 : inter) (program : Z -> list irCall).
Context (I : Z * a32_state -> Prop).

(** A program of the architecture, by an invariant: it goes on, only meets
    instructions described here and accesses its own memory; the translator's
    buffers are large enough for its blocks, and a pc has the same code every
    time. *)
Record arm32_program : Prop := mkArm32Program {
  ap32_next : forall g, I g -> exists g', a32_block maxInsn g g' /\ I g';
  ap32_translated : forall g h, I g -> machine_represents32 g h ->
    @block_ready (arm32_target c) Hcr maxInsn j0 be0 h = true /\
    @disassemble (arm32_target c) h.2 h.1 maxInsn = program h.1
}.

Hypothesis Hrt : @target_runtime host = c.
Hypothesis Hprog : arm32_program.

Lemma arm32_guest_program :
  guest_program (T := arm32_target c) (ir_call := ir_call) maxInsn j0 be0 program (a32_block maxInsn) machine_represents32 I.
Proof.
  split; [apply (ap32_translated Hprog)|]. intros g h Hg Hm.
  destruct (ap32_next Hprog g Hg) as (g' & Hb & Hg').
  destruct (guest_block_arm32 maxInsn j0 host be0 g g' h Hrt Hm Hb) as (h1 & H1 & Hm1);
    [by apply (ap32_translated Hprog g h)|]. by exists g', h1.
Qed.
End program.
End refinement.
