(* ===== verification/Arm32Theorems.v ===== *)
(** * A machine for the ARM front end

    The helpers that only compute, at addresses of their own: an instance of
    every interface the theorems on the front end rely on. *)

From S2P Require Import Prelude Ir Jitter BeX86 BeGen X86Sem X86Exec X86Correct X86Alloc X86Select X86Const X86Sim X86Compile X86Theorems CodeCache Loop LoopBlocks LoopExec LoopTheorems Main IrRequests FrontGen FrontWp FrontTyped TargetGen ArmPseudo Arm32Gen Arm32Dis Arm32Decode Arm32Target Arm32Helpers Arm32Isa Arm32Fields Arm32Sim Arm32Rules Arm32Machine.

Definition pure_helpers32 : list arm_helper :=
  [arm_hlp_compute_flags_pred; arm_hlp_compute_next_flags; arm_hlp_compute_sco; arm_hlp_clz;
   arm_hlp_multiply_unsigned_lsb; arm_hlp_multiply_flag_update; arm_hlp_multiply_unsigned_msb;
   arm_hlp_multiply_signed_lsb; arm_hlp_multiply_signed_msb; arm_hlp_multiply_accumulate_unsigned_lsb;
   arm_hlp_multiply_accumulate_unsigned_msb; arm_hlp_multiply_accumulate_signed_lsb;
   arm_hlp_multiply_accumulate_signed_msb; arm_hlp_sel].

(** [compute_sco] only looks at the low byte of its third parameter. *)
Definition arm32_prototype (h : arm_helper) : list (option irRegisterType) :=
  let W := Some IR_REG_32 in
  match h with
  | arm_hlp_compute_sco => [W; W; Some IR_REG_8; W]
  | arm_hlp_clz => [W; None; None; None]
  | arm_hlp_sel => [W; W; W; None]
  | arm_hlp_compute_next_flags | arm_hlp_multiply_accumulate_unsigned_lsb | arm_hlp_multiply_accumulate_unsigned_msb
  | arm_hlp_multiply_accumulate_signed_lsb | arm_hlp_multiply_accumulate_signed_msb => [W; W; W; W]
  | _ => [W; W; None; None]
  end.

#[local] Instance demo_host32 : ArmHost := {
  arm_helper_address := spread pure_helpers32;
  mmap_offset := 2 ^ 32
}.

Lemma compute_sco_byte i r k k' f : wrap 8 k = wrap 8 k' -> compute_sco i r k f = compute_sco i r k' f.
Proof.
  intros Hk. unfold compute_sco. assert (Z.land k 0xff = Z.land k' 0xff) as ->; [|done].
  change 0xff with (Z.ones 8). by rewrite !wrap_land_ones by lia.
Qed.

Ltac open_params :=
  repeat match goal with
  | H : Forall2 _ (_ :: _) _ |- _ => apply Forall2_cons_inv_l in H as (? & ? & ? & ? & ->)
  | H : Forall2 _ [] _ |- _ => apply Forall2_nil_inv_l in H as ->
  | H : arg_match (Some _) ?x |- _ => destruct x; [destruct H as [_ <-]|by destruct H]
  | H : arg_match None ?x |- _ => destruct x; [by destruct H|]
  end.

#[program] Definition arm32_table : helper_table arm_helper := {|
  computes := pure_helper32;
  prototype := arm32_prototype;
  at_address := helper_at pure_helpers32
|}.
Next Obligation.
  intros h vs xs r Hp Hm. destruct (decide (h = arm_hlp_compute_sco)) as [->|Hh].
  - cbn [pure_helper32 arm32_prototype] in *.
    repeat match type of Hp with context [match ?x with _ => _ end] => is_var x; destruct x; try discriminate Hp end. open_params.
    cbn [narrow mbind option_bind].
    match type of Hp with context [compute_sco ?i ?r (wrap (bits ?t) ?x) ?f] =>
      rewrite (compute_sco_byte i r (wrap (bits IR_REG_8) x) (wrap (bits t) x) f); [done|];
      destruct t; cbn [bits]; by rewrite !wrap_wrap by lia
    end.
  - enough (narrow (arm32_prototype h) xs = vs) as -> by done.
    destruct h; cbn [pure_helper32 arm32_prototype] in *; repeat case_match; simplify_eq; try done; open_params; reflexivity.
Qed.
Next Obligation.
  intros h ps r Hp. destruct (decide (h = arm_hlp_compute_sco)) as [->|Hh].
  - cbn [arm32_prototype] in *. destruct ps as [|[] [|[] [|[] [|[] ps]]]]; cbn in *; try discriminate Hp; reflexivity.
  - generalize dependent (narrow (arm32_prototype h) ps). intros vs Hp.
    destruct h; cbn [pure_helper32] in Hp; repeat case_match; by simplify_eq.
Qed.
Next Obligation. by intros []. Qed.

Lemma pure_helper32_in h vs r : pure_helper32 h vs = Some r -> h ∈ pure_helpers32.
Proof.
  intros Hp. destruct h; try discriminate Hp; apply (bool_decide_unpack _); vm_compute; exact I.
Qed.

#[local] Instance demo_calls32 ctx : Arm32Calls (table_call arm32_table) ctx.
Proof.
  split.
  - intros h args w v m Hp. unfold table_call. cbn [at_address arm32_table arm_helper_address demo_host32].
    rewrite helper_at_spread by (by eapply pure_helper32_in).
    cbn [mbind option_bind computes arm32_table]. rewrite Hp. cbn [mbind option_bind]. by rewrite decide_True.
  - intros h. by apply spread_range.
Qed.

(** * What the ARM machine guarantees

    The translation of an instruction does what the architecture says, and the
    loop runs programs of the architecture; with a guest to show it. *)

(** ** A guest *)

(** Its context, and its code, a loop:
    [adds r0, r0, #1; strne r0, [sp]; b .-8]. *)
Definition demo_context : Z := 0x10000.
Definition demo_pc : Z := 0x20000.
Definition demo_stack : Z := 0x30000.
Definition demo_program : list a32_op :=
  [(14, DataProcessing 4 true 0 0 (Immediate 0 1)); (1, Transfer true true false false false 13 0 (OffsetImmediate 0));
   (14, BranchLink false (2 ^ 24 - 4))].

#[local] Existing Instances demo_host32 demo_calls32.
#[local] Existing Instance table_results.
#[local] Instance demo_abi : HelperAbi (table_call arm32_table) (table_callee arm32_table) := table_abi arm32_table.

#[local] Instance demo_target_ok : target32_ok demo_context.
Proof. split; [split|]; by vm_compute. Qed.

#[local, program] Instance demo_arm_host : Host := {
  callee := table_callee arm32_table;
  host_regs := fun _ _ _ => 0;
  backend_address := 2 ^ 20;
  jitBuffer_address := 2 ^ 21;
  target_runtime := demo_context
}.
Next Obligation. done. Qed.

Fixpoint put_code (l : list a32_op) (pc : Z) (m : mem) : mem :=
  match l with [] => m | o :: l => put_code l (pc + 4) (store_mem IR_REG_32 m pc (a32_encode o)) end.

Definition demo_mem : mem :=
  put_code demo_program (demo_pc + mmap_offset) (store_mem IR_REG_32 (fun _ => 0) (demo_context + off_r 13) demo_stack).
Definition demo_state : a32_state :=
  mkA32 (fun i => if i =? 13 then demo_stack else 0) 0 (fun a => demo_mem (a + mmap_offset)).
Definition demo_guest : a32_host := mkHost32 demo_state 0 0.

Lemma demo_represents32 : represents32 demo_context demo_guest demo_mem.
Proof.
  split; [|by vm_compute|by vm_compute|done].
  intros i Hi. revert i Hi.
  assert (H : forallb (fun i => host_reg demo_guest i =? word_at demo_context (off_r i) demo_mem) (seqZ 0 16) = true)
    by (vm_compute; reflexivity).
  rewrite forallb_forall in H. intros i Hi. apply Z.eqb_eq, H, list_elem_of_In, elem_of_seqZ. lia.
Qed.

(** What the translation of a block reads. *)
Lemma disassemble_loop_reads32 `{ArmHost} m m' marker n i p st :
  0 <= p -> p + 4 * Z.of_nat n < 2 ^ 64 ->
  (forall k, 0 <= k < Z.of_nat n -> load_mem IR_REG_32 m (p + 4 * k) = load_mem IR_REG_32 m' (p + 4 * k)) ->
  disassemble_loop m marker n i p st = disassemble_loop m' marker n i p st.
Proof.
  revert i p st. induction n as [|n IH]; intros i p st Hp Hb Hf; [done|]. cbn [disassemble_loop].
  assert (disassemble_at m p = disassemble_at m' p) as ->.
  { unfold disassemble_at. specialize (Hf 0 ltac:(lia)). rewrite Z.mul_0_r, Z.add_0_r in Hf. by rewrite Hf. }
  assert (Hn : forall i st, disassemble_loop m marker n i (disassemble_at m' p).2 st =
    disassemble_loop m' marker n i (disassemble_at m' p).2 st).
  { intros i' st'. assert ((disassemble_at m' p).2 = p \/ (disassemble_at m' p).2 = p + 4) as [-> | ->].
    { unfold disassemble_at. rewrite wrap_small by lia. repeat case_match; cbn; auto. }
    - apply IH; [lia..|]. intros k Hk. apply Hf. lia.
    - apply IH; [lia..|]. intros k Hk. replace (p + 4 + 4 * k) with (p + 4 * (k + 1)) by lia. apply Hf. lia. }
  unfold mbind, stM_bind. repeat (case_match; simplify_eq; try done).
Qed.

(** Where the guest's code is, and the words after it. *)
Definition code_byte (a : Z) : bool := (demo_pc <=? a) && (a <? demo_pc + 24).
Definition same_code (m m' : mem) : Prop := forall a, code_byte a = true -> m a = m' a.

(** The head of the guest's loop, or its branch when the store was not done;
    it only writes its stack. *)
Definition demo_invariant (g : Z * a32_state) : Prop :=
  (g.1 = demo_pc \/ g.1 = demo_pc + 8) /\ register g.2 13 = demo_stack /\ same_code (memory g.2) (memory demo_state).

Lemma demo_load m m' a :
  same_code m m' -> demo_pc <= a -> a + 4 <= demo_pc + 24 -> load_mem IR_REG_32 m a = load_mem IR_REG_32 m' a.
Proof.
  intros Hs Ha Hb. unfold load_mem. f_equal. apply load_bytes_ext. intros x Hx.
  change (Z.of_nat (Z.to_nat (bits IR_REG_32 / 8))) with 4 in Hx. unfold demo_pc in *.
  rewrite wrap_small by lia. apply Hs. unfold code_byte, demo_pc. lia.
Qed.

Lemma demo_host_load g m a :
  represents32 demo_context g m -> same_code (memory (core g)) (memory demo_state) ->
  demo_pc <= a -> a + 4 <= demo_pc + 24 ->
  load_mem IR_REG_32 m (a + mmap_offset) = load_mem IR_REG_32 demo_mem (a + mmap_offset).
Proof.
  intros Hm Hs Ha Hb.
  assert (Hacc : guest_accessible32 demo_context a (bits IR_REG_32 / 8) = true).
  { unfold guest_accessible32, demo_context, demo_pc in *. cbn [mmap_offset demo_host32].
    change (bits IR_REG_32 / 8) with 4. lia. }
  rewrite (rep32_load (ctx := demo_context) IR_REG_32 a _ _ Hm Hacc).
  rewrite (rep32_load (ctx := demo_context) IR_REG_32 a _ _ demo_represents32 Hacc). by apply demo_load.
Qed.

(** What the front end makes of it. *)
Definition demo_requests (pc : Z) : list irCall := default [] (fst <$> disassemble_arm demo_mem pc 3).

Lemma demo_translated32 g h :
  demo_invariant g -> machine_represents32 (c := demo_context) g h ->
  disassemble (Target := arm32_target demo_context) h.2 h.1 3 = demo_requests h.1.
Proof.
  destruct g as [pc s], h as [pc' m]. intros (Hpc & _ & Hs) (Hpc' & g & Hm & Hg). cbn in Hpc, Hpc', Hm, Hg, Hs |- *. subst pc' s.
  unfold target_disassemble, arm_disassemble, demo_requests, disassemble_arm, disassemble_block.
  rewrite (disassemble_loop_reads32 m demo_mem).
  - by destruct Hpc as [-> | ->].
  - by destruct Hpc as [-> | ->].
  - by destruct Hpc as [-> | ->].
  - intros k Hk. change (Z.of_nat (Z.to_nat 3)) with 3 in Hk.
    assert (g_2_h pc + 4 * k = pc + 4 * k + mmap_offset) as ->.
    { rewrite (proj1 (host_address (ctx := demo_context) pc ltac:(unfold demo_pc in *; lia))). lia. }
    apply (demo_host_load g); [done|done|..]; unfold demo_pc in *; lia.
Qed.

(** One block of the guest. *)
Lemma demo_branch s : demo_invariant (demo_pc + 8, s) -> exists g', a32_block (c := demo_context) 3 (demo_pc + 8, s) g' /\ demo_invariant g'.
Proof.
  intros (_ & Hsp & Hmem). cbn [fst snd] in *. exists (demo_pc, s). split; [|split; [by left|done]].
  apply (a32_block_intro 3 (demo_pc + 8) s [(14, BranchLink false (2 ^ 24 - 4))]); [done|done| |reflexivity].
  cbn [a32_code_at]. rewrite (demo_load _ _ _ Hmem) by done. by vm_compute.
Qed.

Lemma demo_block32 s : demo_invariant (demo_pc, s) -> exists g', a32_block (c := demo_context) 3 (demo_pc, s) g' /\ demo_invariant g'.
Proof.
  intros (_ & Hsp & Hmem). cbn [fst snd] in *.
  assert (Hcode : a32_code_at (guest_accessible32 demo_context) (memory s) demo_pc demo_program = true).
  { cbn [a32_code_at demo_program]. rewrite !(demo_load _ _ _ Hmem) by done. by vm_compute. }
  assert (exists s1, a32_exec (guest_accessible32 demo_context) demo_pc (14, DataProcessing 4 true 0 0 (Immediate 0 1)) s = Some (s1, None) /\
    register s1 13 = demo_stack /\ memory s1 = memory s) as (s1 & H1 & Hsp1 & Hm1).
  { eexists. split; [reflexivity|]. split; [|done]. by rewrite <- Hsp. }
  destruct (ConditionHolds 1 (apsr s1)) eqn:Hne.
  - assert (exists s2 v, a32_exec (guest_accessible32 demo_context) (demo_pc + 4)
      (1, Transfer true true false false false 13 0 (OffsetImmediate 0)) s1 = Some (s2, None) /\
      register s2 13 = demo_stack /\ memory s2 = store_mem IR_REG_32 (memory s1) demo_stack v) as (s2 & v & H2 & Hsp2 & Hm2).
    { unfold a32_exec. cbn [fst snd]. rewrite Hne. cbn [exec_insn transfer offset_value offset_address writes_back negb orb].
      unfold R at 1. cbn [Z.eqb Pos.eqb]. rewrite Hsp1. unfold Mem_write.
      change (guest_accessible32 demo_context _ _) with true. cbv iota. cbn [mbind option_bind].
      eexists _, _. split; [reflexivity|]. split; [exact Hsp1|reflexivity]. }
    exists (demo_pc, s2). split.
    + apply (a32_block_intro 3 demo_pc s demo_program); [done|done|done|].
      change (Z.to_nat 3) with 3%nat. unfold demo_program. cbn [a32_run]. rewrite H1. cbn [mbind option_bind fst].
      change (ConditionHolds 14 _) with true. cbv iota. rewrite H2. cbn [mbind option_bind fst]. rewrite Hne. reflexivity.
    + split; [by left|]. split; [done|]. cbn [snd]. rewrite Hm2, Hm1. intros a Ha. rewrite <- (Hmem a Ha).
      apply store_bytes_other; rewrite ?length_store; unfold code_byte, demo_pc, demo_stack in *; change (bits IR_REG_32 / 8) with 4; lia.
  - assert (a32_exec (guest_accessible32 demo_context) (demo_pc + 4)
      (1, Transfer true true false false false 13 0 (OffsetImmediate 0)) s1 = Some (s1, None)) as H2
      by (unfold a32_exec; cbn [fst snd]; by rewrite Hne).
    exists (demo_pc + 8, s1). split.
    + apply (a32_block_intro 3 demo_pc s demo_program); [done|done|done|].
      change (Z.to_nat 3) with 3%nat. unfold demo_program. cbn [a32_run]. rewrite H1. cbn [mbind option_bind fst].
      change (ConditionHolds 14 _) with true. cbv iota. rewrite H2. cbn [mbind option_bind fst]. rewrite Hne. reflexivity.
    + split; [by right|]. split; [done|]. cbn [snd]. by rewrite Hm1.
Qed.

Lemma demo_arm32_program :
  arm32_program (c := demo_context) 3 fresh_jitter demo_inter demo_requests demo_invariant.
Proof.
  constructor.
  - intros [pc s] Hs. pose proof Hs as ([Hpc|Hpc] & _); cbn [fst] in Hpc; subst pc; [by apply demo_block32|by apply demo_branch].
  - intros g h Hg Hm. pose proof (demo_translated32 g h Hg Hm) as Hd. split; [|done].
    assert (h.1 = demo_pc \/ h.1 = demo_pc + 8) as Hpc by (destruct Hm as [<- _]; apply Hg).
    unfold block_ready. rewrite Hd. by destruct Hpc as [-> | ->]; vm_compute.
Qed.

(** ** The translation *)

(** C8. The ARM front end is correct.  Whatever the state of the guest, for any
    of the instructions of [Arm32Isa.v], properly encoded and with any
    condition, that accesses memory of the guest only: [disassemble_insn]
    accepts it, and its requests, run on a memory that holds the guest and its
    context, lead to the registers, the status register and the memory the
    architecture defines.  They leave the block exactly for a branch, for its
    target, or when the condition fails, for the next instruction, and then
    nothing was changed. *)
Theorem arm_instruction_translated `{ArmHost} {ir_call ctx} `{!Arm32Calls ir_call ctx} `{!arm_layout ctx}
    pc o g s' t m :
  a32_valid o = true -> a32_exec (guest_accessible32 ctx) pc o (core g) = Some (s', t) -> represents32 ctx g m ->
  exists isExit st' reqs m' g',
    disassemble_insn pc (a32_encode o) (mkGen false []) = Some (isExit, mkGen st' reqs) /\
    represents32 ctx g' m' /\ core g' = s' /\
    if ConditionHolds o.1 (apsr (core g)) then
      match t with
      | Some v => req_run ir_call ctx reqs [] m = Some (ReqExit v m')
      | None => isExit = false /\ st' = false /\ exists vs, req_run ir_call ctx reqs [] m = Some (ReqNext vs m')
      end
    else s' = core g /\ req_run ir_call ctx reqs [] m = Some (ReqExit (wrap 32 (pc + 4)) m').
Proof.
  intros Hv He Hm.
  destruct (a32_correct_all (ir_call := ir_call) pc o [] g s' t Hv He (Forall_nil_2 _) m Hm [] eq_refl)
    as (isExit & st' & reqs & Ed & Hr).
  exists isExit, st', reqs. cbn [app] in Ed. unfold a32_exec in He.
  destruct (req_run ir_call ctx reqs [] m) as [[vs m'|v m']|] eqn:Er; [| |done]; exists m'.
  - destruct Hr as (-> & _ & g' & Hm' & (-> & Hg & ->) & Hh). rewrite Hh. exists g'. eauto 10.
  - destruct Hr as (g' & Hm' & Hg & Hl). exists g'. do 3 (split; [done|]).
    destruct (ConditionHolds _ _); [by subst t|]. destruct Hl as [-> ->]. by simplify_eq.
Qed.

Lemma arm_instruction_translated_witness :
  exists isExit st' reqs m' vs,
    disassemble_insn demo_pc (a32_encode (14, DataProcessing 4 true 0 0 (Immediate 0 1))) (mkGen false []) =
      Some (isExit, mkGen st' reqs) /\
    req_run (table_call arm32_table) demo_context reqs [] demo_mem = Some (ReqNext vs m') /\
    word_at demo_context (off_r 0) m' = 1.
Proof.
  destruct (arm_instruction_translated (ir_call := table_call arm32_table) demo_pc
              (14, DataProcessing 4 true 0 0 (Immediate 0 1)) demo_guest _ None demo_mem eq_refl eq_refl demo_represents32)
    as (isExit & st' & reqs & m' & g' & Ed & Hm' & Hg & _ & _ & vs & Er).
  exists isExit, st', reqs, m', vs. split; [exact Ed|]. split; [exact Er|].
  rewrite <- (rep32_reg _ _ _ Hm') by (split; discriminate). unfold host_reg. rewrite Hg. reflexivity.
Defined.

(** C7. The translator runs ARM programs.  For a program whose instructions are
    those of [Arm32Isa.v], that accesses its own memory and whose blocks fit
    the buffers: the loop, its translations of the guest code into bytes for
    the x86_64 machine, its cache with its links and whatever cleaning requests
    come are never seen.  At the head of the loop the process holds a state the
    program reaches block by block as the architecture says, and the next turn
    succeeds and takes it on by one block or more. *)
Theorem arm_program_runs `{ArmHost} `{Host} {ir_call c} `{!Arm32Calls ir_call c} `{!target32_ok c}
    `{Hcr : CallResults} `{!HelperAbi ir_call callee} maxInsn j0 be0 program I o buf g0 entry m st :
  target_runtime = c -> arm32_program (c := c) maxInsn j0 be0 program I ->
  I g0 -> machine_represents32 (c := c) g0 (entry, m) -> 0 <= entry < 2 ^ 64 -> starts_empty o buf ->
  rtc (loop_step (H := arm32_target c) maxInsn) (loop_init o entry j0 be0 buf m) st ->
  exists g, rtc (a32_block (c := c) maxInsn) g0 g /\ I g /\ machine_represents32 (c := c) g (currentPc st, l_mem st) /\
    exists fuel st' g', loop_body (H := arm32_target c) maxInsn fuel st = Some st' /\
      tc (a32_block (c := c) maxInsn) g g' /\ I g' /\ machine_represents32 (c := c) g' (currentPc st', l_mem st').
Proof.
  intros Hrt Hprog.
  by apply (loop_runs_program (T := arm32_target c) (ir_call := ir_call) maxInsn j0 be0 program), arm32_guest_program.
Qed.

Lemma arm_program_runs_witness :
  exists fuel st' g', loop_body (H := arm32_target demo_context) 3 fuel
      (loop_init (demo_cache (2 ^ 16)) demo_pc fresh_jitter demo_inter
         (replicate (Z.to_nat jitBuffer_size) 0) demo_mem) = Some st' /\
    tc (a32_block (c := demo_context) 3) (demo_pc, demo_state) g' /\
    machine_represents32 (c := demo_context) g' (currentPc st', l_mem st').
Proof.
  assert (Hi : demo_invariant (demo_pc, demo_state)) by (split; [left; reflexivity|split; [reflexivity|done]]).
  assert (Hm : machine_represents32 (c := demo_context) (demo_pc, demo_state) (demo_pc, demo_mem))
    by (split; [reflexivity|exists demo_guest; split; [exact demo_represents32|reflexivity]]).
  assert (Hpc : 0 <= demo_pc < 2 ^ 64) by (split; [discriminate|reflexivity]).
  destruct (arm_program_runs (H0 := demo_arm_host) (ir_call := table_call arm32_table) (c := demo_context) 3 fresh_jitter
              demo_inter demo_requests demo_invariant (demo_cache (2 ^ 16))
              (replicate (Z.to_nat jitBuffer_size) 0) (demo_pc, demo_state) demo_pc demo_mem _
              eq_refl demo_arm32_program Hi Hm Hpc demo_starts_empty (rtc_refl _ _))
    as (g & Hg & _ & _ & fuel & st' & g' & Hb & Hg' & _ & Hm').
  exists fuel, st', g'. split; [exact Hb|]. split; [by eapply tc_rtc_l|exact Hm'].
Defined.
