(* ===== verification/Arm32Signal.v ===== *)
(** * Contexts and signals of the ARM target

    What is left of a signal when its handler returns. *)

From S2P Require Import Prelude Ir Jitter BeX86 BeGen CodeCache Loop LoopTheorems Main IrRequests FrontGen FrontWp TargetGen ArmPseudo Arm32Gen Arm32Dis Arm32Decode Arm32Target Arm32Isa Arm32Sim Arm32Machine.

Create HintDb offsets32.
#[export] Hint Unfold sizeof_target off_r off_cpsr off_shifter_carry_out off_uc_flags off_uc_link off_mcontext off_trap_no
  off_error_code off_oldmask off_mc_r off_mc_cpsr off_fault_address sizeof_siginfo sizeof_sigframe sizeof_rt_sigframe
  off_is_in_syscall : offsets32.

(** ** The frame of a signal *)

(** What the frame at [f] says of the registers. *)
Definition frame_register32 (f : Z) (m : mem) (i : Z) : Z := get32 f (off_mc_r i) m.

Section frame.
Context `{Hhost : ArmHost} (c f : Z) {Hc : target32_ok c}.
Hypothesis Hf : 0 <= f /\ f + sizeof_sigframe <= 2 ^ 64.
(** A context and a frame in memory, apart from each other. *)
Hypothesis Hcf : c + 480 <= f \/ f + sizeof_sigframe <= c.

Ltac bounds := destruct (target32_context (c := c)); autounfold with offsets32 in *; lia.
Ltac others := repeat first [rewrite get32_set32_other by bounds].

Lemma context_range : 0 <= c /\ c + 480 <= 2 ^ 64.
Proof. bounds. Qed.

Lemma restore_sigframe_spec32 m :
  exists m', restore_sigframe f c m = (negb (get32 c (off_r 15) m =? frame_register32 f m 15), m') /\
    (forall i, 0 <= i <= 15 -> word_at c (off_r i) m' = frame_register32 f m i) /\
    word_at c off_cpsr m' = get32 f off_mc_cpsr m /\
    forall x, x < c \/ c + off_c13_tls2 <= x -> m' x = m x.
Proof.
  pose proof context_range as Hcr.
  assert (restore_sigframe f c m =
    let m1 := copy_words IR_REG_32 16 c off_r f off_mc_r m in
    (negb (get32 c (off_r 15) m =? get32 f (off_mc_r 15) m), set32 c off_cpsr (get32 f off_mc_cpsr m1) m1)) as -> by reflexivity.
  assert (Hr : forall j, 0 <= j < 16 -> get32 c (off_r j) (copy_words IR_REG_32 16 c off_r f off_mc_r m) = get32 f (off_mc_r j) m)
    by (intros j Hj; apply (copy_words_get IR_REG_32 4 _ _ _ (f + off_mc_r 0) c); intros; try reflexivity; bounds).
  assert (Ho : forall x, x < c \/ c + 64 <= x -> copy_words IR_REG_32 16 c off_r f off_mc_r m x = m x)
    by (intros x Hx; apply (copy_words_at IR_REG_32 4 16 f c c); intros; try reflexivity; bounds).
  generalize dependent (copy_words IR_REG_32 16 c off_r f off_mc_r m). intros m1 Hr Ho. cbv zeta.
  eexists. split; [reflexivity|]. repeat split.
  - intros i Hi. change (word_at c (off_r i) ?m) with (get32 c (off_r i) m). others. apply Hr. lia.
  - change (word_at c off_cpsr ?m) with (get32 c off_cpsr m). rewrite get32_set32 by bounds.
    rewrite wrap_small by apply get32_range. apply get32_same; [bounds..|]. intros x Hx. apply Ho. bounds.
  - intros x Hx. unfold off_c13_tls2 in Hx. rewrite set32_at by bounds. apply Ho. lia.
Qed.

Context (executable_start etext : Z) (lookup_pc : Z -> Z * Z).
Abbreviation setup_sigframe := (setup_sigframe executable_start etext lookup_pc f c).

Lemma setup_sigframe_spec32 s m m' location :
  setup_sigframe s m = Some (m', location) ->
  (forall i, 0 <= i < 15 -> frame_register32 f m' i = word_at c (off_r i) m) /\
  frame_register32 f m' 15 = word_at c (off_r 15) m' /\ get32 f off_mc_cpsr m' = word_at c off_cpsr m /\
  (forall x, c <= x < c + 480 -> ~ (c + off_r 15 <= x < c + off_r 15 + 4) -> m' x = m x) /\
  forall x, x < c \/ c + 480 <= x -> x < f \/ f + sizeof_sigframe <= x -> m' x = m x.
Proof.
  pose proof context_range as Hcr. intros E.
  assert (E' : setup_sigframe s m =
    let m1 := copy_words IR_REG_32 15 f off_mc_r c off_r m in
    '(pc, location) ← restore_precise_pc executable_start etext lookup_pc c (host_pc s) m1;
    let m2 := set32 c (off_r 15) pc m1 in
    let m3 := set32 f (off_mc_r 15) (get32 c (off_r 15) m2) m2 in
    let m4 := set32 f off_mc_cpsr (get32 c off_cpsr m3) m3 in
    let m5 := set32 f off_fault_address 0 (set32 f off_error_code 0 (set32 f off_trap_no 0 m4)) in
    let m6 := if is_sigaction_handler s
              then set32 f off_fault_address (h_2_g (si_addr (signal_siginfo s)))
                     (set32 f off_error_code (si_errno (signal_siginfo s)) m5) else m5 in
    Some (set32 f off_oldmask 0 m6, location)) by (unfold Arm32Target.setup_sigframe, copy_words; reflexivity).
  rewrite E' in E. clear E'. cbv zeta in E.
  assert (Hr : forall j, 0 <= j < 15 -> get32 f (off_mc_r j) (copy_words IR_REG_32 15 f off_mc_r c off_r m) = get32 c (off_r j) m)
    by (intros j Hj; apply (copy_words_get IR_REG_32 4 _ _ _ c (f + off_mc_r 0)); intros; try reflexivity; bounds).
  assert (Ho : forall x, x < f + off_mc_r 0 \/ f + off_mc_r 0 + 60 <= x -> copy_words IR_REG_32 15 f off_mc_r c off_r m x = m x)
    by (intros x Hx; apply (copy_words_at IR_REG_32 4 15 c f (f + off_mc_r 0)); intros; try reflexivity; bounds).
  generalize dependent (copy_words IR_REG_32 15 f off_mc_r c off_r m). intros m1 E Hr Ho.
  apply bind_Some in E as ([pc loc] & _ & [= <- <-]).
  assert (Hx : forall x, x < f \/ f + sizeof_sigframe <= x -> m1 x = m x) by (intros x Hx; apply Ho; bounds).
  unfold frame_register32. change (word_at c ?o ?m) with (get32 c o m).
  repeat split.
  - intros i Hi. rewrite <- Hr by done. destruct (is_sigaction_handler s); others; reflexivity.
  - destruct (is_sigaction_handler s); others; rewrite get32_set32 by bounds; rewrite wrap_small by apply get32_range; symmetry; others; reflexivity.
  - destruct (is_sigaction_handler s); others; rewrite get32_set32 by bounds; rewrite wrap_small by apply get32_range; others;
      apply get32_same; try bounds; intros x Hx'; apply Hx; bounds.
  - intros x Hx1 Hx2. destruct (is_sigaction_handler s); rewrite !set32_at by bounds; apply Hx; bounds.
  - intros x Hx1 Hx2. destruct (is_sigaction_handler s); rewrite !set32_at by bounds; by apply Hx.
Qed.
End frame.

(** ** The return from a handler *)

(** The branch at the end of the return sequence goes back to the [nop] before
    it, where its comment names the [svc]: a guest whose system call returned
    would stay there. *)
Lemma return_code_loops accessible sp is_rt s :
  0 <= sp -> sp + 16 <= 2 ^ 32 ->
  nth 3 (return_code is_rt) 0 = a32_encode (14, BranchLink false 0xfffffd) /\
  a32_exec accessible (sp + 12) (14, BranchLink false 0xfffffd) s = Some (s, Some (sp + 8)).
Proof.
  intros H0 H1. split; [done|]. unfold a32_exec. cbn [fst snd exec_insn]. change (ConditionHolds 14 _) with true. cbv iota.
  change (SignExtend 26 (0xfffffd * 4)) with (-12). do 3 f_equal. rewrite wrap_small; lia.
Qed.

(** ** Where a signal came *)

(** Of a signal that came in translated code nothing is stored in
    [in_signal_location] of the new context, whose memory [arm_isLooping] and
    [arm_getExitStatus] read later. *)
Theorem jitted_location_unset `{ArmHost} executable_start etext lookup_pc prev host_pc_signal m pc location :
  restore_precise_pc executable_start etext lookup_pc prev host_pc_signal m = Some (pc, location) ->
  location = None <->
  get32 prev off_helper_pc m = 0 /\ ~ (executable_start <= host_pc_signal < etext).
Proof.
  unfold restore_precise_pc. intros E. destruct (Z.eqb_spec (get32 prev off_helper_pc m) 0) as [Hz|Hz]; cbn [negb] in E.
  2:{ injection E as _ <-. split; [done|]. intros [? _]. done. }
  destruct (Z.leb_spec executable_start host_pc_signal), (Z.ltb_spec host_pc_signal etext); cbn [andb] in E;
    try (injection E as _ <-; split; [done|]; intros [_ Hn]; by destruct Hn);
    (destruct (lookup_pc host_pc_signal) as [g h]; destruct (g =? 0); [done|];
     destruct (find_insn_offset g _ m) as [o|]; [|done]; cbn [mbind option_bind] in E;
     destruct (o =? 2 ^ 32 - 1); [done|]; injection E as _ <-; split; [intros _; split; [done|lia]|done]).
Qed.

(** ** Properties *)

(** C37. A signal is transparent to an ARM program.  Whatever the handler does to
    the memory, as long as it leaves the context that was interrupted, what
    [setup_sigframe] saved is what counts: [restore_sigframe] gives back the
    registers and the status register of the frame, and reports a change
    exactly when the pc there is another one.  When the frame was not touched
    either, the guest goes on as it was, at the pc where the signal found it. *)
Theorem arm_signal_transparent `{ArmHost} executable_start etext lookup_pc c f s g m m1 m2 location :
  target32_ok c -> 0 <= f /\ f + sizeof_sigframe <= 2 ^ 64 -> c + 480 <= f \/ f + sizeof_sigframe <= c ->
  represents32 c g m ->
  setup_sigframe executable_start etext lookup_pc f c s m = Some (m1, location) ->
  (forall x, c <= x < c + 480 -> m2 x = m1 x) ->
  exists m3, restore_sigframe f c m2 = (negb (word_at c (off_r 15) m1 =? frame_register32 f m2 15), m3) /\
    represents32 c (mkHost32 (mkA32 (frame_register32 f m2) (get32 f off_mc_cpsr m2) (fun a => m3 (a + mmap_offset)))
      (frame_register32 f m2 15) (shifter_carry g)) m3 /\
    ((forall x, f <= x < f + sizeof_sigframe -> m2 x = m1 x) ->
     frame_register32 f m2 15 = word_at c (off_r 15) m1 /\
     represents32 c (mkHost32 (mkA32 (register (core g)) (cpsr (core g)) (fun a => m3 (a + mmap_offset)))
       (word_at c (off_r 15) m1) (shifter_carry g)) m3).
Proof.
  intros Hc Hf Hcf [Hr Hcp Hsc _] E H2. pose proof (context_range c) as Hrange.
  destruct (setup_sigframe_spec32 c f Hf Hcf _ _ _ _ _ _ _ E) as (Sr & Sp & Sn & Sc & _).
  destruct (restore_sigframe_spec32 c f Hf Hcf m2) as (m3 & -> & Rr & Rn & Ro).
  assert (Hsame : forall off, 0 <= off -> off + 4 <= 480 -> word_at c off m2 = word_at c off m1)
    by (intros off H0 H1; apply (get32_same c off); [lia..|]; intros x Hx; apply H2; lia).
  assert (Hcarry : shifter_carry g = word_at c off_shifter_carry_out m3).
  { rewrite Hsc. symmetry. apply (get32_same c off_shifter_carry_out); unfold off_shifter_carry_out; [lia..|].
    intros x Hx. rewrite Ro, H2, Sc by (unfold off_c13_tls2, off_r; lia). done. }
  exists m3. split; [|split].
  - change (get32 c (off_r 15) m2) with (word_at c (off_r 15) m2). by rewrite Hsame by done.
  - split; cbn; [|by rewrite Rn|done|done].
    intros i Hi. rewrite Rr by done. unfold host_reg. cbn. by destruct (Z.eqb_spec i 15) as [->|].
  - intros Hframe.
    assert (Hg : forall off, 0 <= off -> off + 4 <= sizeof_sigframe -> get32 f off m2 = get32 f off m1)
      by (intros; apply get32_same; [lia..|]; intros; apply Hframe; lia).
    assert (Hgr : forall i, 0 <= i <= 15 -> frame_register32 f m2 i = frame_register32 f m1 i)
      by (intros i Hi; apply Hg; unfold off_mc_r, off_mcontext, sizeof_sigframe; lia).
    split; [by rewrite Hgr, Sp|]. split; cbn; [|by rewrite Rn, Hg, Sn|done|done].
    intros i Hi. rewrite Rr, Hgr by done. pose proof (Hr i Hi) as Hri. unfold host_reg in *. cbn.
    destruct (Z.eqb_spec i 15) as [->|]; [by rewrite Sp|]. by rewrite Sr, <- Hri by lia.
Qed.

(** A context, and a frame where a signal left it. *)
#[local] Instance demo_signal_host : ArmHost := {| arm_helper_address _ := 0x70000000; mmap_offset := 2 ^ 32 |}.
#[local] Instance demo_signal_ok : target32_ok 0x10000.
Proof. split; [split|]; by vm_compute. Qed.

Definition demo_signal : host_signal_info := mkSignalInfo (mkSiginfo 10 0 0 1 1 0 0 0 0 0 0 0 0 0 0) 50 true.
Definition demo_interrupted : a32_host := mkHost32 (mkA32 (fun _ => 0) 0 (fun _ => 0)) 0 0.

Lemma arm_signal_transparent_witness :
  exists m1 location m3,
    setup_sigframe 0 100 (fun _ => (0, 0)) 0x20000 0x10000 demo_signal (fun _ => 0) = Some (m1, location) /\
    restore_sigframe 0x20000 0x10000 m1 = (false, m3) /\
    represents32 0x10000 (mkHost32 (mkA32 (fun _ => 0) 0 (fun a => m3 (a + mmap_offset))) (word_at 0x10000 (off_r 15) m1) 0) m3.
Proof.
  assert (Hsome : (if setup_sigframe 0 100 (fun _ => (0, 0)) 0x20000 0x10000 demo_signal (fun _ => 0) is Some _ then true else false) = true)
    by (vm_compute; reflexivity).
  destruct (setup_sigframe 0 100 (fun _ => (0, 0)) 0x20000 0x10000 demo_signal (fun _ => 0)) as [[m1 location]|] eqn:E;
    [|discriminate Hsome].
  assert (Hf : 0 <= 0x20000 /\ 0x20000 + sizeof_sigframe <= 2 ^ 64) by (split; vm_compute; discriminate).
  assert (Hcf : 0x10000 + 480 <= 0x20000 \/ 0x20000 + sizeof_sigframe <= 0x10000) by (left; vm_compute; discriminate).
  assert (Hz : forall a, load_mem IR_REG_32 (fun _ => 0) a = 0) by (intros a; reflexivity).
  assert (Hr : represents32 0x10000 demo_interrupted (fun _ => 0)).
  { split; cbn; unfold word_at; [|by rewrite Hz|by rewrite Hz|done].
    intros i Hi. rewrite Hz. unfold host_reg. by destruct (i =? 15). }
  destruct (arm_signal_transparent 0 100 (fun _ => (0, 0)) 0x10000 0x20000 demo_signal demo_interrupted _ m1 m1 location
              demo_signal_ok Hf Hcf Hr E (fun _ _ => eq_refl)) as (m3 & Er & _ & Hsame).
  destruct (Hsame (fun _ _ => eq_refl)) as [Hpc Hm3].
  exists m1, location, m3. split; [reflexivity|]. split; [|exact Hm3]. rewrite Er, Hpc, Z.eqb_refl. reflexivity.
Defined.
