(* ===== verification/Vma.v ===== *)
(** * Guest address space ([src/src/target/memory/mmap_common.c])

    The list of [vma_desc] that tiles the guest address space into mapped and
    unmapped ranges, its pool of descriptors, and the memory system calls of
    the guests that keep it ([arm_mmap.c], [arm64_mmap.c]).  A list is the
    list of its descriptors in order, a pointer to one of them its index; the
    free lists are counts, their descriptors being interchangeable.  [fatal],
    a failed [assert] and a dereference of NULL are the failure of the state
    monad.  The kernel is a parameter. *)

From S2P Require Import Prelude.

(** ** The kernel *)

Class Kernel := {
  kstate : Type;
  sys_mmap : Z -> Z -> Z -> Z -> Z -> Z -> kstate -> Z * kstate;
  sys_munmap : Z -> Z -> kstate -> Z * kstate;
  sys_mremap : Z -> Z -> Z -> Z -> Z -> kstate -> Z * kstate;
  sys_shmctl_stat : Z -> kstate -> Z * Z * kstate;   (** result, [shm_segsz] *)
  sys_shmat : Z -> Z -> Z -> kstate -> Z * kstate;
  sys_shmdt : Z -> kstate -> Z * kstate
}.

(** ** Constants and types *)

Definition PAGE_SIZE : Z := 4096.
Definition PAGE_MASK : Z := PAGE_SIZE - 1.
Definition w64 (z : Z) : Z := wrap 64 z.
Definition PAGE_ALIGN_DOWN (addr : Z) : Z := Z.land addr (w64 (Z.lnot PAGE_MASK)).
Definition PAGE_ALIGN_UP (addr : Z) : Z := Z.land (w64 (addr + PAGE_MASK)) (w64 (Z.lnot PAGE_MASK)).

(** errno, mmap and mremap constants of the Linux ABI. *)
Definition ENOMEM : Z := 12.
Definition EINVAL : Z := 22.
Definition EFAULT : Z := 14.
Definition MAP_FIXED : Z := 16.
Definition MAP_PRIVATE : Z := 2.
Definition MAP_ANONYMOUS : Z := 32.
Definition PROT_READ : Z := 1.
Definition PROT_WRITE : Z := 2.
Definition PROT_EXEC : Z := 4.
Definition MREMAP_MAYMOVE : Z := 1.
Definition MREMAP_FIXED : Z := 2.
Definition SHM_REMAP : Z := 16384.

Definition ENOMEM_64 : Z := w64 (- ENOMEM).

Inductive vma_type := VMA_UNMAP | VMA_MAP | VMA_UNMAP_ONGOING.
#[global] Instance vma_type_eq_dec : EqDecision vma_type.
Proof. solve_decision. Defined.

(** [1 - type]; no descriptor has the type it gives for [VMA_UNMAP_ONGOING]. *)
Definition other_type (ty : vma_type) : option vma_type :=
  match ty with
  | VMA_UNMAP => Some VMA_MAP
  | VMA_MAP => Some VMA_UNMAP
  | VMA_UNMAP_ONGOING => None
  end.

Record vma_desc := mkVma { vtype : vma_type; start_addr : Z; end_addr : Z }.
Record shmat_desc := mkShmat { shm_start : Z; shm_end : Z }.

(** [sizeof(struct vma_desc)] is 40, [sizeof(struct shmat_desc)] 32. *)
Definition DESC_PER_PAGE : nat := 102.
Definition SHMAT_DESC_PER_PAGE : nat := 128.

(** What [arm_mmap.c] and [arm64_mmap.c] define before they include the code. *)
Record target := mkTarget {
  KERNEL_CHOOSE_START_ADDR : Z;
  MAPPING_RESERVE_IN_SIGNAL_START : Z;
  MAPPING_RESERVE_IN_SIGNAL_END : Z;
  FORCE_ALIGNMENT : option Z;
  init_vma_list : list vma_desc;
  init_mmap_offset : Z;
  guest_ptr_bits : Z
}.

Definition arm64_target : target :=
  mkTarget 0x4000000000 0x7000000000 0x8000000000 (Some (64 * 1024))
    [mkVma VMA_UNMAP 0x400000 0x7000000000;
     mkVma VMA_MAP 0x7000000000 (0x7000000000 + 4096)] 0 64.

Definition arm_target : target :=
  mkTarget 0x40000000 0x80000000 0x90000000 None
    [mkVma VMA_UNMAP 0x8000 0x80000000;
     mkVma VMA_MAP 0x80000000 (0x80000000 + 4096);
     mkVma VMA_UNMAP 0xffff0000 0xffff1001] (1024 * 1024) 32.

Definition is_syscall_error (res : Z) : bool := (res <? 0) && (-4096 <? res).

(** ** Lists by position *)

Definition list_put {A} (i : nat) (x : A) (l : list A) : list A := take i l ++ x :: drop i l.

Definition set_start (a : Z) (d : vma_desc) : vma_desc := mkVma (vtype d) a (end_addr d).
Definition set_end (a : Z) (d : vma_desc) : vma_desc := mkVma (vtype d) (start_addr d) a.

Definition owns (addr : Z) (d : vma_desc) : bool :=
  (start_addr d <=? addr) && (addr <? end_addr d).

Fixpoint find_index {A} (f : A -> bool) (l : list A) : option nat :=
  match l with
  | [] => None
  | x :: l => if f x then Some O else S <$> find_index f l
  end.

Section vma.
Context `{K : Kernel} (T : target).

(** ** The globals of the file *)

Record mm := mkMm {
  is_init : bool;
  is_end_of_vm_reach : bool;
  signal_cursor : Z;
  kernel_cursor : Z;
  desc_next_memory : bool;            (** not NULL: a page of descriptors *)
  free_vma_list : nat;
  vma_list : list vma_desc;
  ongoing_vma_list : list vma_desc;
  free_shmat_list : nat;
  shmat_list : list shmat_desc;
  mmap_offset : Z;
  cleanings : nat;                    (** calls of [cleanCaches] *)
  kernel : kstate
}.

Definition upd_list (f : list vma_desc -> list vma_desc) (s : mm) : mm :=
  mkMm (is_init s) (is_end_of_vm_reach s) (signal_cursor s) (kernel_cursor s) (desc_next_memory s)
       (free_vma_list s) (f (vma_list s)) (ongoing_vma_list s) (free_shmat_list s) (shmat_list s)
       (mmap_offset s) (cleanings s) (kernel s).
Definition upd_pool (next : bool) (free : nat) (s : mm) : mm :=
  mkMm (is_init s) (is_end_of_vm_reach s) (signal_cursor s) (kernel_cursor s) next
       free (vma_list s) (ongoing_vma_list s) (free_shmat_list s) (shmat_list s)
       (mmap_offset s) (cleanings s) (kernel s).
Definition upd_ongoing (f : list vma_desc -> list vma_desc) (s : mm) : mm :=
  mkMm (is_init s) (is_end_of_vm_reach s) (signal_cursor s) (kernel_cursor s) (desc_next_memory s)
       (free_vma_list s) (vma_list s) (f (ongoing_vma_list s)) (free_shmat_list s) (shmat_list s)
       (mmap_offset s) (cleanings s) (kernel s).
Definition upd_shm (free : nat) (f : list shmat_desc -> list shmat_desc) (s : mm) : mm :=
  mkMm (is_init s) (is_end_of_vm_reach s) (signal_cursor s) (kernel_cursor s) (desc_next_memory s)
       (free_vma_list s) (vma_list s) (ongoing_vma_list s) free (f (shmat_list s))
       (mmap_offset s) (cleanings s) (kernel s).
Definition upd_cursor (reached : bool) (c : Z) (s : mm) : mm :=
  mkMm (is_init s) reached (signal_cursor s) c (desc_next_memory s)
       (free_vma_list s) (vma_list s) (ongoing_vma_list s) (free_shmat_list s) (shmat_list s)
       (mmap_offset s) (cleanings s) (kernel s).
Definition upd_signal (c : Z) (s : mm) : mm :=
  mkMm (is_init s) (is_end_of_vm_reach s) c (kernel_cursor s) (desc_next_memory s)
       (free_vma_list s) (vma_list s) (ongoing_vma_list s) (free_shmat_list s) (shmat_list s)
       (mmap_offset s) (cleanings s) (kernel s).
Definition upd_kernel (k : kstate) (s : mm) : mm :=
  mkMm (is_init s) (is_end_of_vm_reach s) (signal_cursor s) (kernel_cursor s) (desc_next_memory s)
       (free_vma_list s) (vma_list s) (ongoing_vma_list s) (free_shmat_list s) (shmat_list s)
       (mmap_offset s) (cleanings s) k.
Definition upd_clean (s : mm) : mm :=
  mkMm (is_init s) (is_end_of_vm_reach s) (signal_cursor s) (kernel_cursor s) (desc_next_memory s)
       (free_vma_list s) (vma_list s) (ongoing_vma_list s) (free_shmat_list s) (shmat_list s)
       (mmap_offset s) (S (cleanings s)) (kernel s).

Abbreviation M := (stM mm).

Definition free_desc : M unit := modify_state (fun s => upd_pool (desc_next_memory s) (S (free_vma_list s)) s).
Definition upd_desc (i : nat) (f : vma_desc -> vma_desc) : M unit := modify_state (upd_list (alter f i)).
Definition insert_desc (i : nat) (d : vma_desc) : M unit := modify_state (upd_list (list_put i d)).
Definition remove_desc (i : nat) : M unit := modify_state (upd_list (delete i)).
Definition get_desc (i : nat) : M vma_desc := s ← get_state; lift_option (vma_list s !! i).

(** A system call: the kernel state moves. *)
Definition syscall (f : kstate -> Z * kstate) : M Z :=
  s ← get_state; let '(r, k) := f (kernel s) in _ ← put_state (upd_kernel k s); mret r.

Definition g_2_h (ptr : Z) : M Z := s ← get_state; mret (w64 (ptr + mmap_offset s)).

(** The result of the calls, a [long]: errors as they are, addresses back
    in the guest. *)
Definition ret_guest (res : Z) : M Z :=
  s ← get_state;
  mret (if is_syscall_error res then res
        else to_signed 64 (wrap (guest_ptr_bits T) (w64 res - mmap_offset s))).

Definition mmap_syscall (addr length prot flags fd offset : Z) : M Z :=
  _ ← c_assert (negb (Z.land flags MAP_FIXED =? 0));
  syscall (sys_mmap addr length prot flags fd offset).

(** ** Descriptors *)

Definition allocate_more_desc : M unit :=
  s ← get_state;
  _ ← c_assert (desc_next_memory s);
  put_state (upd_pool false (free_vma_list s + DESC_PER_PAGE) s).

Definition arm64_get_free_desc : M unit :=
  s ← get_state;
  _ ← if decide (free_vma_list s = 0%nat) then allocate_more_desc else mret tt;
  s ← get_state;
  _ ← c_assert (bool_decide (free_vma_list s <> 0%nat));
  put_state (upd_pool (desc_next_memory s) (free_vma_list s - 1) s).

Definition find_address_owner_without_assert (addr : Z) : M (option nat) :=
  s ← get_state; mret (find_index (owns addr) (vma_list s)).

Definition find_address_owner (addr : Z) : M nat :=
  d ← find_address_owner_without_assert addr; lift_option d.

(** ** Inserting an area *)

(** The [while] of [insert_area] over the [n] descriptors from [current] to
    [last]; the indices of [last] and of [current_mapped] at its end. *)
Fixpoint insert_span (n current : nat) (current_mapped : option nat) (start_addr : Z)
    (ty : vma_type) : M (nat * option nat) :=
  match n with
  | O => mret (current, current_mapped)
  | S n =>
      c ← get_desc current;
      match current_mapped with
      | Some m =>
          _ ← upd_desc m (set_end (end_addr c));
          _ ← remove_desc current;
          _ ← free_desc;
          insert_span n current (Some m) start_addr ty
      | None =>
          if decide (other_type ty = Some (vtype c)) then
            _ ← arm64_get_free_desc;
            _ ← upd_desc current (set_end start_addr);
            _ ← insert_desc (S current) (mkVma ty start_addr (end_addr c));
            insert_span n (S (S current)) (Some (S current)) start_addr ty
          else insert_span n (S current) (Some current) start_addr ty
      end
  end.

Definition merge_prev (start_addr : Z) (ty : vma_type) : M unit :=
  first ← find_address_owner start_addr;
  match first with
  | O => mret tt
  | S prev =>
      p ← get_desc prev;
      if decide (vtype p = ty) then
        f ← get_desc first;
        _ ← upd_desc prev (set_end (end_addr f));
        _ ← remove_desc first;
        free_desc
      else mret tt
  end.

(** The area is inside the descriptor [f] at [first], of the other type. *)
Definition insert_inside (first : nat) (f : vma_desc) (start end_ : Z) (ty : vma_type) : M unit :=
  if start_addr f =? start then
    _ ← arm64_get_free_desc;
    _ ← upd_desc first (set_start end_);
    insert_desc first (mkVma ty start end_)
  else
    _ ← arm64_get_free_desc;
    _ ← arm64_get_free_desc;
    other ← lift_option (other_type ty);
    _ ← upd_desc first (set_end start);
    _ ← insert_desc (S first) (mkVma ty start end_);
    insert_desc (S (S first)) (mkVma other end_ (end_addr f)).

Definition insert_across (first last : nat) (start end_ : Z) (ty : vma_type) : M unit :=
  _ ← c_assert (bool_decide (first < last)%nat);
  '(last, current_mapped) ← insert_span (last - first) first None start ty;
  l ← get_desc last;
  m ← lift_option current_mapped;
  if decide (other_type ty = Some (vtype l)) then
    if negb (start_addr l =? end_) then
      _ ← upd_desc m (set_end end_);
      upd_desc last (set_start end_)
    else mret tt
  else
    _ ← upd_desc m (set_end (end_addr l));
    _ ← remove_desc last;
    free_desc.

Definition insert_area (start end_ : Z) (ty : vma_type) : M unit :=
  first ← find_address_owner start;
  last ← find_address_owner end_;
  if decide (first = last) then
    f ← get_desc first;
    if decide (vtype f = ty) then mret tt
    else _ ← insert_inside first f start end_ ty; merge_prev start ty
  else _ ← insert_across first last start end_ ty; merge_prev start ty.

Definition insert_map_area (start end_ : Z) : M unit := insert_area start end_ VMA_MAP.
Definition insert_unmap_area (start end_ : Z) : M unit := insert_area start end_ VMA_UNMAP.

(** ** Queries *)

Definition is_area_unmap (start end_ : Z) : M bool :=
  let start := PAGE_ALIGN_DOWN start in
  let end_ := PAGE_ALIGN_UP end_ in
  i ← find_address_owner start;
  owner ← get_desc i;
  mret (bool_decide (vtype owner = VMA_UNMAP) && (end_ <=? end_addr owner)).

Definition is_area_valid (start end_ : Z) : M bool :=
  let start := PAGE_ALIGN_DOWN start in
  let end_ := PAGE_ALIGN_UP end_ in
  i ← find_address_owner_without_assert start;
  match i with
  | None => mret false
  | Some i =>
      owner ← get_desc i;
      mret (bool_decide (vtype owner = VMA_MAP) && (end_ <=? end_addr owner))
  end.

(** ** Finding room *)

Definition find_vma (length : Z) : M Z :=
  let length := PAGE_ALIGN_UP length in
  s ← get_state;
  match find_index (fun d => bool_decide (vtype d = VMA_UNMAP) &&
                             (length <=? w64 (end_addr d - start_addr d))) (vma_list s) with
  | None => mret ENOMEM_64
  | Some i =>
      d ← get_desc i;
      _ ← insert_map_area (start_addr d) (w64 (start_addr d + length));
      mret (start_addr d)
  end.

Definition find_vma_with_kernel_choose (length : Z) : M Z :=
  let length := PAGE_ALIGN_UP length in
  s ← get_state;
  first ← find_address_owner (kernel_cursor s);
  let cursor := kernel_cursor s in
  res ← match find_index (fun d => bool_decide (vtype d = VMA_UNMAP) &&
                  (length <=? w64 (end_addr d - Z.max (start_addr d) cursor)))
               (drop first (vma_list s)) with
        | None => mret ENOMEM_64
        | Some i =>
            d ← get_desc (first + i);
            let start := Z.max (start_addr d) cursor in
            _ ← insert_map_area start (w64 (start + length));
            mret start
        end;
  if res =? ENOMEM_64 then
    _ ← modify_state (upd_cursor true (KERNEL_CHOOSE_START_ADDR T));
    find_vma length
  else
    let c := w64 (res + length) in
    let c := match FORCE_ALIGNMENT T with
             | Some a => Z.land (w64 (c + a - 1)) (w64 (Z.lnot (a - 1)))
             | None => c
             end in
    _ ← modify_state (fun s => upd_cursor (is_end_of_vm_reach s) c s);
    mret res.

Definition find_vma_with_hint (length hint_addr : Z) : M Z :=
  let length := PAGE_ALIGN_UP length in
  res ← if hint_addr =? 0 then mret ENOMEM_64
        else
          let hint_addr := PAGE_ALIGN_DOWN hint_addr in
          owner ← find_address_owner_without_assert hint_addr;
          match owner with
          | None => mret ENOMEM_64
          | Some i =>
              d ← get_desc i;
              let end_ := PAGE_ALIGN_UP (w64 (hint_addr + length)) in
              if bool_decide (vtype d = VMA_UNMAP) && (end_ <=? end_addr d)
              then _ ← insert_map_area hint_addr end_; mret hint_addr
              else mret ENOMEM_64
          end;
  if res =? ENOMEM_64 then find_vma length else mret res.

(** ** Initialisation *)

Fixpoint init_descs (ds : list vma_desc) : M unit :=
  match ds with
  | [] => mret tt
  | d :: ds => _ ← arm64_get_free_desc; _ ← insert_desc 0 d; init_descs ds
  end.

(** [mmap_init] of both targets: a page of descriptors, the initial list
    from its end to its head. *)
Definition mmap_init : M unit :=
  _ ← modify_state (fun s => upd_pool (desc_next_memory s) (free_vma_list s + DESC_PER_PAGE) s);
  _ ← init_descs (rev (init_vma_list T));
  modify_state (fun s =>
    mkMm true (is_end_of_vm_reach s) (signal_cursor s) (kernel_cursor s) (desc_next_memory s)
      (free_vma_list s) (vma_list s) (ongoing_vma_list s) (free_shmat_list s) (shmat_list s)
      (init_mmap_offset T) (cleanings s) (kernel s)).

Definition init_if_needed : M unit :=
  s ← get_state; if is_init s then mret tt else mmap_init.

(** ** mmap and munmap *)

Definition internal_mmap (addr_p length_p prot_p flags_p fd_p offset_p : Z) : M Z :=
  _ ← init_if_needed;
  let prot := to_signed 32 prot_p in
  let flags := to_signed 32 flags_p in
  let fd := to_signed 32 fd_p in
  let offset := to_signed 64 offset_p in
  res ← if negb (addr_p =? 0) && negb (Z.land flags MAP_FIXED =? 0) then
          addr ← g_2_h addr_p;
          res ← mmap_syscall addr length_p prot flags fd offset;
          _ ← (if is_syscall_error res then mret tt
               else insert_map_area addr_p (PAGE_ALIGN_UP (w64 (addr_p + length_p))));
          mret res
        else
          res_vma ← (if addr_p =? 0 then find_vma_with_kernel_choose length_p
                     else find_vma_with_hint length_p addr_p);
          addr ← g_2_h res_vma;
          if res_vma =? ENOMEM_64 then mret (to_signed 64 res_vma)
          else
            res ← mmap_syscall addr length_p prot (Z.lor flags MAP_FIXED) fd offset;
            s ← get_state;
            _ ← (if is_syscall_error res then
                   insert_unmap_area res_vma (PAGE_ALIGN_UP (w64 (res_vma + length_p)))
                 else if is_end_of_vm_reach s && negb (Z.land prot PROT_EXEC =? 0) then
                   modify_state upd_clean
                 else mret tt);
            mret res;
  ret_guest res.

Definition internal_munmap (addr_p length_p : Z) : M Z :=
  _ ← init_if_needed;
  let end_ := PAGE_ALIGN_UP (w64 (addr_p + length_p)) in
  addr ← g_2_h addr_p;
  res ← syscall (sys_munmap addr length_p);
  _ ← (if is_syscall_error res then mret tt else insert_unmap_area addr_p end_);
  mret res.

(** The result is the address of the [type] of the new first descriptor,
    which the exiting thread sets to [VMA_UNMAP]. *)
Definition internal_munmap_ongoing (addr_p length_p : Z) : M unit :=
  _ ← init_if_needed;
  let end_ := PAGE_ALIGN_UP (w64 (addr_p + length_p)) in
  _ ← arm64_get_free_desc;
  modify_state (upd_ongoing (cons (mkVma VMA_UNMAP_ONGOING addr_p end_))).

(** One turn of the [do ... while]; the result says whether it found one. *)
Definition collect_one : M bool :=
  s ← get_state;
  match find_index (fun d => bool_decide (vtype d = VMA_UNMAP)) (ongoing_vma_list s) with
  | None => mret false
  | Some i =>
      d ← lift_option (ongoing_vma_list s !! i);
      addr ← g_2_h (start_addr d);
      _ ← modify_state (upd_ongoing (delete i));
      res ← syscall (sys_munmap addr (w64 (end_addr d - start_addr d)));
      _ ← c_assert (negb (is_syscall_error res));
      _ ← insert_unmap_area (start_addr d) (end_addr d);
      _ ← free_desc;
      mret true
  end.

(** Each turn removes a descriptor: one more turn than there are is enough. *)
Fixpoint collect_loop (fuel : nat) : M unit :=
  match fuel with
  | O => fail_state
  | S fuel => found ← collect_one; if (found : bool) then collect_loop fuel else mret tt
  end.

Definition collect_ongoing_unmap : M unit :=
  s ← get_state; collect_loop (S (length (ongoing_vma_list s))).

Definition allocate_more_desc_memory : M unit :=
  res ← internal_mmap 0 PAGE_SIZE (Z.lor PROT_READ PROT_WRITE) (Z.lor MAP_PRIVATE MAP_ANONYMOUS)
          (w64 (-1)) 0;
  _ ← c_assert (negb (is_syscall_error res));
  modify_state (fun s => upd_pool true (free_vma_list s) s).

Definition allocate_more_desc_memory_if_needed : M unit :=
  _ ← collect_ongoing_unmap;
  s ← get_state;
  if desc_next_memory s then mret tt else allocate_more_desc_memory.

(** ** mremap *)

Definition mremap_fixed (old_addr_p old_size_p new_size_p flags new_addr_p : Z) : M Z :=
  old_addr ← g_2_h old_addr_p;
  new_addr ← g_2_h new_addr_p;
  res_host ← syscall (sys_mremap old_addr old_size_p new_size_p flags new_addr);
  if is_syscall_error res_host then mret res_host
  else
    _ ← insert_unmap_area old_addr_p (PAGE_ALIGN_UP (w64 (old_addr_p + old_size_p)));
    _ ← insert_map_area new_addr_p (PAGE_ALIGN_UP (w64 (new_addr_p + new_size_p)));
    mret (to_signed 64 new_addr_p).

Definition mremap_shrink (old_addr_p old_size_p new_size_p flags new_addr_p : Z) : M Z :=
  old_addr ← g_2_h old_addr_p;
  new_addr ← g_2_h new_addr_p;
  res_host ← syscall (sys_mremap old_addr old_size_p new_size_p flags new_addr);
  let old_size_align_p := PAGE_ALIGN_UP old_size_p in
  let new_size_align_p := PAGE_ALIGN_UP new_size_p in
  if is_syscall_error res_host then mret res_host
  else
    _ ← (if old_size_align_p =? new_size_align_p then mret tt
         else insert_unmap_area (w64 (old_addr_p + new_size_align_p))
                                (w64 (old_addr_p + old_size_align_p)));
    mret (to_signed 64 old_addr_p).

(** Growing in place; -ENOMEM when there is no room. *)
Definition mremap_grow (old_addr_p old_size_p new_size_p flags new_addr_p : Z) : M Z :=
  let old_size_align_p := PAGE_ALIGN_UP old_size_p in
  let new_size_align_p := PAGE_ALIGN_UP new_size_p in
  old_addr ← g_2_h old_addr_p;
  new_addr ← g_2_h new_addr_p;
  room ← is_area_unmap (w64 (old_addr_p + old_size_align_p)) (w64 (old_addr_p + new_size_align_p));
  if (room : bool) then
    res_host ← syscall (sys_mremap old_addr old_size_p new_size_p
                          (Z.land flags (Z.lnot MREMAP_MAYMOVE)) new_addr);
    if is_syscall_error res_host then mret res_host
    else
      _ ← insert_map_area (w64 (old_addr_p + old_size_align_p)) (w64 (old_addr_p + new_size_align_p));
      mret (to_signed 64 old_addr_p)
  else mret (- ENOMEM).

Definition mremap_move (old_addr_p old_size_p new_size_p flags : Z) : M Z :=
  old_addr ← g_2_h old_addr_p;
  new_possible_addr_p ← find_vma_with_kernel_choose new_size_p;
  if new_possible_addr_p =? ENOMEM_64 then mret (- ENOMEM)
  else
    new_possible_addr ← g_2_h new_possible_addr_p;
    res_host ← syscall (sys_mremap old_addr old_size_p new_size_p (Z.lor flags MREMAP_FIXED)
                          new_possible_addr);
    if is_syscall_error res_host then
      _ ← insert_unmap_area new_possible_addr_p
            (w64 (new_possible_addr_p + PAGE_ALIGN_UP new_size_p));
      mret res_host
    else
      _ ← insert_unmap_area old_addr_p (w64 (old_addr_p + old_size_p));
      mret (to_signed 64 new_possible_addr_p).

Definition internal_mremap (old_addr_p old_size_p new_size_p flags_p new_addr_p : Z) : M Z :=
  _ ← init_if_needed;
  if negb (PAGE_ALIGN_DOWN old_addr_p =? old_addr_p) then mret (- EINVAL)
  else
    valid ← is_area_valid old_addr_p (w64 (old_addr_p + old_size_p));
    if negb valid then mret (- EFAULT)
    else
      let flags := to_signed 32 flags_p in
      if negb (Z.land flags MREMAP_FIXED =? 0) then
        mremap_fixed old_addr_p old_size_p new_size_p flags new_addr_p
      else if PAGE_ALIGN_UP new_size_p <=? PAGE_ALIGN_UP old_size_p then
        mremap_shrink old_addr_p old_size_p new_size_p flags new_addr_p
      else
        res ← mremap_grow old_addr_p old_size_p new_size_p flags new_addr_p;
        if negb (Z.land flags MREMAP_MAYMOVE =? 0) && is_syscall_error res then
          mremap_move old_addr_p old_size_p new_size_p flags
        else mret res.

(** ** System V shared memory *)

Definition allocate_more_shmat_desc : M unit :=
  res ← internal_mmap 0 PAGE_SIZE (Z.lor PROT_READ PROT_WRITE) (Z.lor MAP_PRIVATE MAP_ANONYMOUS)
          (w64 (-1)) 0;
  _ ← c_assert (negb (is_syscall_error res));
  modify_state (fun s => upd_shm (free_shmat_list s + SHMAT_DESC_PER_PAGE) (fun l => l) s).

Definition get_shmat_free_desc : M unit :=
  s ← get_state;
  _ ← if decide (free_shmat_list s = 0%nat) then allocate_more_shmat_desc else mret tt;
  s ← get_state;
  _ ← c_assert (bool_decide (free_shmat_list s <> 0%nat));
  put_state (upd_shm (free_shmat_list s - 1) (fun l => l) s).

Definition shm_find (start : Z) : M (option nat) :=
  s ← get_state; mret (find_index (fun d => start =? shm_start d) (shmat_list s)).

Definition shm_insert (start end_ : Z) : M unit :=
  _ ← get_shmat_free_desc;
  modify_state (fun s => upd_shm (free_shmat_list s) (cons (mkShmat start end_)) s).

Definition shm_remove (start : Z) : M unit :=
  i ← shm_find start;
  match i with
  | None => mret tt
  | Some i =>
      s ← get_state;
      d ← lift_option (shmat_list s !! i);
      _ ← insert_unmap_area (shm_start d) (shm_end d);
      modify_state (fun s => upd_shm (S (free_shmat_list s)) (delete i) s)
  end.

Definition internal_shmat (shmid_p shmaddr_p shmflg_p : Z) : M Z :=
  let shmid := to_signed 32 shmid_p in
  let shmflg := to_signed 32 shmflg_p in
  s ← get_state;
  let '(res, shm_segsz, k) := sys_shmctl_stat shmid (kernel s) in
  _ ← put_state (upd_kernel k s);
  if is_syscall_error res then mret res
  else
    let length := PAGE_ALIGN_UP shm_segsz in
    start ← (if shmaddr_p =? 0 then find_vma_with_kernel_choose length
             else
               let start := PAGE_ALIGN_DOWN shmaddr_p in
               _ ← insert_map_area start (w64 (start + length)); mret start);
    let end_ := w64 (start + length) in
    if start =? ENOMEM_64 then ret_guest (- ENOMEM)
    else
      shmaddr ← g_2_h start;
      res ← syscall (sys_shmat shmid shmaddr (Z.lor shmflg SHM_REMAP));
      _ ← (if is_syscall_error res then insert_unmap_area start end_ else shm_insert start end_);
      ret_guest res.

Definition internal_shmdt (shmaddr_p : Z) : M Z :=
  addr ← g_2_h shmaddr_p;
  res ← syscall (sys_shmdt addr);
  _ ← (if is_syscall_error res then mret tt else shm_remove shmaddr_p);
  mret res.

(** ** In a signal handler: bump allocation, without the list or its lock *)

Definition internal_mmap_signal (length_p prot_p flags_p fd_p offset_p : Z) : M Z :=
  let flags := to_signed 32 flags_p in
  res ← if negb (Z.land flags MAP_FIXED =? 0) then mret (- EINVAL)
        else
          let length := PAGE_ALIGN_UP length_p in
          s ← get_state;
          let addr := signal_cursor s in
          let c := w64 (addr + length) in
          _ ← put_state (upd_signal c s);
          _ ← c_assert (c <? MAPPING_RESERVE_IN_SIGNAL_END T);
          h ← g_2_h addr;
          mmap_syscall h length (to_signed 32 prot_p) (Z.lor flags MAP_FIXED) (to_signed 32 fd_p)
            (to_signed 64 offset_p);
  ret_guest res.

(** ** The system calls of the guests, under [ll_big_mutex] *)

(** Most calls end with [allocate_more_desc_memory_if_needed]. *)
Definition locked {A} (m : M A) : M A :=
  r ← m; _ ← allocate_more_desc_memory_if_needed; mret r.

(** [arm64_mmap] and [arm64_munmap] only when no page is left. *)
Definition locked_if_empty {A} (m : M A) : M A :=
  r ← m;
  s ← get_state;
  _ ← (if desc_next_memory s then mret tt else allocate_more_desc_memory_if_needed);
  mret r.

Definition munmap_in_signal (addr length : Z) : M Z :=
  h ← g_2_h addr; syscall (sys_munmap h length).

Definition arm64_mmap (is_in_signal : bool) (r0 r1 r2 r3 r4 r5 : Z) : M Z :=
  if is_in_signal then internal_mmap_signal r1 r2 r3 r4 r5
  else locked_if_empty (internal_mmap r0 r1 r2 r3 r4 r5).

Definition arm64_munmap (is_in_signal : bool) (r0 r1 : Z) : M Z :=
  if is_in_signal then munmap_in_signal r0 r1 else locked_if_empty (internal_munmap r0 r1).

Definition arm64_mremap (r0 r1 r2 r3 r4 : Z) : M Z := locked (internal_mremap r0 r1 r2 r3 r4).
Definition arm64_shmat (r0 r1 r2 : Z) : M Z := locked (internal_shmat r0 r1 r2).
Definition arm64_shmdt (r0 : Z) : M Z := locked (internal_shmdt r0).

(** The ARM calls return an [int]. *)
Definition as_int (m : M Z) : M Z := r ← m; mret (to_signed 32 r).

Definition arm_mmap (is_in_signal : bool) (r0 r1 r2 r3 r4 r5 : Z) : M Z :=
  as_int (if is_in_signal then internal_mmap_signal r1 r2 r3 r4 r5
          else locked (internal_mmap r0 r1 r2 r3 r4 r5)).

Definition arm_mmap2 (is_in_signal : bool) (r0 r1 r2 r3 r4 r5 : Z) : M Z :=
  as_int (if is_in_signal then internal_mmap_signal r1 r2 r3 r4 (w64 (r5 * 4096))
          else locked (internal_mmap r0 r1 r2 r3 r4 (w64 (r5 * 4096)))).

Definition arm_munmap (is_in_signal : bool) (r0 r1 : Z) : M Z :=
  as_int (if is_in_signal then munmap_in_signal r0 r1 else locked (internal_munmap r0 r1)).

Definition arm_mremap (r0 r1 r2 r3 r4 : Z) : M Z :=
  as_int (locked (internal_mremap r0 r1 r2 r3 r4)).
Definition arm_shmat (r0 r1 r2 : Z) : M Z := as_int (locked (internal_shmat r0 r1 r2)).
Definition arm_shmdt (r0 : Z) : M Z := as_int (locked (internal_shmdt r0)).

Definition mmap_guest (addr length prot flags fd offset : Z) : M Z :=
  locked (internal_mmap addr length prot flags fd offset).
Definition munmap_guest (addr length : Z) : M Z := locked (internal_munmap addr length).
Definition munmap_guest_ongoing (addr length : Z) : M unit :=
  locked (internal_munmap_ongoing addr length).

(** The state at start-up: the second page of descriptors is static. *)
Definition mm_start (k : kstate) : mm :=
  mkMm false false (MAPPING_RESERVE_IN_SIGNAL_START T) (KERNEL_CHOOSE_START_ADDR T) true 0 [] [] 0 []
       0 0 k.
End vma.
