(* ===== verification/VmaList.v ===== *)
(** * The descriptor list as a map from addresses to types

    [owner] reads a list of descriptors as a partial function; [tiled] is the
    invariant of the list (consecutive descriptors, no gap).  [insert_area_ok]
    shows that [insert_area] is the update of that function on a range. *)

From S2P Require Import Prelude Vma.

(** ** Lists by position *)

Section positions.
Context {A : Type}.
Implicit Types (p q : list A) (x y : A) (i : nat).

Lemma middle_lookup p x q i : i = length p -> (p ++ x :: q) !! i = Some x.
Proof. intros ->. by apply list_lookup_middle. Qed.

Lemma middle_alter f p x q i : i = length p -> alter f i (p ++ x :: q) = p ++ f x :: q.
Proof. intros ->. induction p as [|y p IH]; [done|]. cbn. by f_equal. Qed.

Lemma middle_delete p x q i : i = length p -> delete i (p ++ x :: q) = p ++ q.
Proof. intros ->. induction p as [|y p IH]; [done|]. cbn. by f_equal. Qed.

Lemma middle_put p y q i : i = length p -> list_put i y (p ++ q) = p ++ y :: q.
Proof. intros ->. unfold list_put. by rewrite take_app_length, drop_app_length. Qed.

Lemma find_index_Some f (l : list A) i :
  find_index f l = Some i ->
  exists p x q, l = p ++ x :: q /\ i = length p /\ f x = true /\ Forall (fun y => f y = false) p.
Proof.
  revert i. induction l as [|x l IH]; intros i; cbn; [done|].
  destruct (f x) eqn:E.
  - intros [= <-]. by exists [], x, l.
  - intros (j & Hj & ->)%fmap_Some. destruct (IH _ Hj) as (p & y & q & -> & -> & Hy & Hp).
    exists (x :: p), y, q. split_and!; auto.
Qed.

Lemma find_index_middle f p x q :
  f x = true -> Forall (fun y => f y = false) p -> find_index f (p ++ x :: q) = Some (length p).
Proof. intros Hx. induction 1 as [|y p Hy _ IH]; cbn; [by rewrite Hx|]. by rewrite Hy, IH. Qed.
End positions.

(** ** Descriptors as a function *)

Fixpoint owner (l : list vma_desc) (a : Z) : option vma_type :=
  match l with
  | [] => None
  | d :: l => if owns a d then Some (vtype d) else owner l a
  end.

(** Consecutive descriptors from [lo] to [hi]; some may be empty. *)
Fixpoint tiled (lo hi : Z) (l : list vma_desc) : Prop :=
  match l with
  | [] => lo = hi
  | d :: l => start_addr d = lo /\ lo <= end_addr d /\ vtype d <> VMA_UNMAP_ONGOING /\
              tiled (end_addr d) hi l
  end.

(** All descriptors start at an address that satisfies [B]. *)
Definition starts (B : Z -> Prop) (l : list vma_desc) : Prop := Forall (fun d => B (start_addr d)) l.

(** The update of a function on a range. *)
Definition set_range (st en : Z) (ty : vma_type) (f : Z -> option vma_type) (a : Z) : option vma_type :=
  if (st <=? a) && (a <? en) then Some ty else f a.

Lemma owns_spec a d : owns a d = true <-> start_addr d <= a < end_addr d.
Proof. unfold owns. rewrite andb_true_iff, Z.leb_le, Z.ltb_lt. done. Qed.

Lemma owns_false a d : owns a d = false <-> a < start_addr d \/ end_addr d <= a.
Proof. unfold owns. rewrite andb_false_iff, Z.leb_gt, Z.ltb_ge. done. Qed.

Section tiling.
Implicit Types (l p q : list vma_desc).

Lemma tiled_le lo hi l : tiled lo hi l -> lo <= hi.
Proof.
  revert lo. induction l as [|d l IH]; intros lo; cbn; [lia|].
  intros (_ & ? & _ & ?%IH). lia.
Qed.

Lemma tiled_app lo hi l1 l2 :
  tiled lo hi (l1 ++ l2) <-> exists mid, tiled lo mid l1 /\ tiled mid hi l2.
Proof.
  revert lo. induction l1 as [|d l1 IH]; intros lo; cbn.
  - split; [eauto|]. by intros (mid & -> & ?).
  - rewrite IH. split.
    + intros (? & ? & ? & mid & ? & ?). eauto 6.
    + intros (mid & (? & ? & ? & ?) & ?). eauto 6.
Qed.

Lemma tiled_snoc lo hi l d :
  tiled lo hi (l ++ [d]) <->
  tiled lo (start_addr d) l /\ start_addr d <= end_addr d /\ vtype d <> VMA_UNMAP_ONGOING /\ end_addr d = hi.
Proof.
  rewrite tiled_app. split.
  - intros (mid & ? & <- & ? & ? & ?). done.
  - intros (? & ? & ? & ?). exists (start_addr d). by split.
Qed.

Lemma owner_app l1 l2 a :
  owner (l1 ++ l2) a = match owner l1 a with Some ty => Some ty | None => owner l2 a end.
Proof. induction l1 as [|d l1 IH]; cbn; [done|]. by destruct (owns a d). Qed.

Lemma owner_outside lo hi l a : tiled lo hi l -> a < lo \/ hi <= a -> owner l a = None.
Proof.
  revert lo. induction l as [|d l IH]; intros lo; cbn; [done|].
  intros (Hs & Hle & _ & Ht) Ha. pose proof (tiled_le _ _ _ Ht).
  rewrite (proj2 (owns_false a d)) by lia. apply (IH _ Ht). lia.
Qed.

Lemma not_owned lo hi l a :
  tiled lo hi l -> a < lo \/ hi <= a -> Forall (fun d => owns a d = false) l.
Proof.
  revert lo. induction l as [|d l IH]; intros lo; cbn; [constructor|].
  intros (Hs & Hle & _ & Ht) Ha. pose proof (tiled_le _ _ _ Ht). constructor.
  - apply owns_false. lia.
  - apply (IH _ Ht). lia.
Qed.

(** The descriptor that owns an address. *)
Lemma tiled_split lo hi l a :
  tiled lo hi l -> lo <= a < hi ->
  exists p d q, l = p ++ d :: q /\ tiled lo (start_addr d) p /\ tiled (end_addr d) hi q /\
    start_addr d <= a < end_addr d /\ vtype d <> VMA_UNMAP_ONGOING.
Proof.
  revert lo. induction l as [|d l IH]; intros lo; cbn; [lia|].
  intros (Hs & Hle & Hv & Ht) Ha. destruct (decide (a < end_addr d)) as [Hd|Hd].
  - exists [], d, l. cbn. split_and!; try done; lia.
  - destruct (IH _ Ht ltac:(lia)) as (p & e & q & -> & Hp & Hq & He & Hve).
    exists (d :: p), e, q. cbn. split_and!; try done; lia.
Qed.

Lemma split_index lo p d q a :
  tiled lo (start_addr d) p -> start_addr d <= a < end_addr d ->
  find_index (owns a) (p ++ d :: q) = Some (length p).
Proof.
  intros Hp Ha. apply find_index_middle; [by apply owns_spec|].
  eapply not_owned; [done|]. lia.
Qed.

Lemma split_owner lo p d q a :
  tiled lo (start_addr d) p -> start_addr d <= a < end_addr d ->
  owner (p ++ d :: q) a = Some (vtype d).
Proof.
  intros Hp Ha. rewrite owner_app, (owner_outside _ _ _ _ Hp) by lia. cbn.
  by rewrite (proj2 (owns_spec a d) Ha).
Qed.

Lemma tiled_middle lo hi p d q :
  tiled lo (start_addr d) p -> start_addr d <= end_addr d -> vtype d <> VMA_UNMAP_ONGOING ->
  tiled (end_addr d) hi q -> tiled lo hi (p ++ d :: q).
Proof. intros Hp ? ? Hq. apply tiled_app. exists (start_addr d). by split. Qed.

Lemma owner_app_tiled lo b hi l1 l2 a :
  tiled lo b l1 -> tiled b hi l2 ->
  owner (l1 ++ l2) a = if a <? b then owner l1 a else owner l2 a.
Proof.
  intros H1 H2. rewrite owner_app. destruct (Z.ltb_spec a b).
  - destruct (owner l1 a); [done|]. apply (owner_outside _ _ _ _ H2). lia.
  - by rewrite (owner_outside _ _ _ _ H1) by lia.
Qed.

(** The owner of an address by where it lies: before, in or after [d]. *)
Lemma owner_middle lo hi p d q a :
  tiled lo (start_addr d) p -> start_addr d <= end_addr d -> tiled (end_addr d) hi q ->
  owner (p ++ d :: q) a =
    if a <? start_addr d then owner p a
    else if a <? end_addr d then Some (vtype d) else owner q a.
Proof.
  intros Hp Hd Hq. rewrite owner_app. cbn [owner]. destruct (Z.ltb_spec a (start_addr d)).
  - destruct (owner p a); [done|]. rewrite (proj2 (owns_false a d)) by lia.
    apply (owner_outside _ _ _ _ Hq). lia.
  - rewrite (owner_outside _ _ _ _ Hp) by lia. destruct (Z.ltb_spec a (end_addr d)).
    + by rewrite (proj2 (owns_spec a d)) by lia.
    + by rewrite (proj2 (owns_false a d)) by lia.
Qed.
End tiling.

Ltac starts_auto :=
  unfold starts in *; intros;
  repeat (rewrite ?Forall_app, ?Forall_cons, ?Forall_singleton in *); cbn in *; intuition auto.

(** ** The parts of the state the list operations touch *)

Section list_state.
Context `{K : Kernel} (T : target) (s0 : mm).

Definition vs (l : list vma_desc) (n : bool) (f : nat) : mm :=
  upd_list (fun _ => l) (upd_pool n f s0).

(** Descriptors that [arm64_get_free_desc] can still deliver. *)
Definition avail (n : bool) (f : nat) : nat := f + if n then DESC_PER_PAGE else 0.

Lemma get_desc_vs l n f i d : l !! i = Some d -> get_desc i (vs l n f) = Some (d, vs l n f).
Proof. intros H. unfold get_desc. run_m. cbn [vs upd_list upd_pool vma_list]. by rewrite H. Qed.

Lemma upd_desc_vs l n f i g : upd_desc i g (vs l n f) = Some (tt, vs (alter g i l) n f).
Proof. done. Qed.

Lemma insert_desc_vs l n f i d : insert_desc i d (vs l n f) = Some (tt, vs (list_put i d l) n f).
Proof. done. Qed.

Lemma remove_desc_vs l n f i : remove_desc i (vs l n f) = Some (tt, vs (delete i l) n f).
Proof. done. Qed.

Lemma free_desc_vs l n f : free_desc (vs l n f) = Some (tt, vs l n (S f)).
Proof. done. Qed.

Lemma get_free_vs l n f :
  (1 <= avail n f)%nat ->
  exists n' f', arm64_get_free_desc (vs l n f) = Some (tt, vs l n' f') /\
    S (avail n' f') = avail n f.
Proof.
  intros Ha. unfold arm64_get_free_desc. run_m. cbn [vs upd_list upd_pool free_vma_list].
  destruct (decide (f = 0%nat)) as [->|Hf].
  - unfold allocate_more_desc. run_m. cbn [vs upd_list upd_pool desc_next_memory free_vma_list].
    destruct n; cbn in Ha; [|lia]. cbn [Nat.add].
    rewrite bool_decide_eq_true_2 by done. eexists _, _. by split.
  - rewrite bool_decide_eq_true_2 by done. exists n, (f - 1)%nat. split; [done|].
    unfold avail in *. lia.
Qed.

Lemma owner_index_vs l n f a i :
  find_index (owns a) l = Some i -> find_address_owner a (vs l n f) = Some (i, vs l n f).
Proof.
  intros H. unfold find_address_owner, find_address_owner_without_assert. run_m.
  cbn [vs upd_list upd_pool vma_list]. by rewrite H.
Qed.

(** ** The steps of [insert_area] *)

Lemma merge_prev_ok lo hi l n f st ty :
  tiled lo hi l -> lo <= st < hi -> owner l st = Some ty ->
  exists l' f', merge_prev st ty (vs l n f) = Some (tt, vs l' n f') /\
    tiled lo hi l' /\ (forall a, owner l' a = owner l a) /\
    (f' + length l' = f + length l)%nat /\ (length l' <= length l)%nat /\
    (forall B, starts B l -> starts B l').
Proof.
  intros Ht Hst Hown. destruct (tiled_split _ _ _ _ Ht Hst) as (p & d & q & -> & Hp & Hq & Hd & Hv).
  rewrite (split_owner _ _ _ _ _ Hp Hd) in Hown. injection Hown as Hty.
  unfold merge_prev. erewrite bind_Some_eq by (eapply owner_index_vs, split_index; done).
  destruct p as [|x p' _] using rev_ind.
  - cbn [length]. eexists _, f. split; [done|]. split_and!; try done; lia.
  - rewrite length_app, Nat.add_1_r. rewrite <- app_assoc. cbn [app].
    erewrite bind_Some_eq by (apply get_desc_vs, middle_lookup; done).
    apply tiled_snoc in Hp as (Hp & Hx & Hxv & Hxe).
    case_decide as Ex.
    + erewrite bind_Some_eq.
      2:{ apply get_desc_vs. rewrite (cons_middle x), app_assoc. apply middle_lookup.
          rewrite length_app. cbn. lia. }
      erewrite bind_Some_eq by apply upd_desc_vs. rewrite middle_alter by done.
      erewrite bind_Some_eq by apply remove_desc_vs.
      rewrite (cons_middle (set_end _ x)), app_assoc, middle_delete
        by (rewrite length_app; cbn; lia).
      rewrite <- app_assoc. cbn [app]. rewrite free_desc_vs.
      eexists _, _. split; [done|].
      assert (Ht' : tiled lo hi (p' ++ set_end (end_addr d) x :: q)).
      { apply tiled_middle; cbn; try done; lia. }
      split_and!; [done| |rewrite !length_app; cbn; lia|rewrite !length_app; cbn; lia|starts_auto].
      intros a. rewrite (owner_middle lo hi p' (set_end _ x) q a) by (cbn; done || lia).
      rewrite (owner_middle lo hi p' x (d :: q) a) by (cbn; done || lia || (split_and!; done || lia)).
      cbn [set_end vtype start_addr end_addr owner].
      destruct (Z.ltb_spec a (start_addr x)); [done|].
      destruct (Z.ltb_spec a (end_addr d)), (Z.ltb_spec a (end_addr x)); try lia; try done.
      * rewrite (proj2 (owns_spec a d)) by lia. congruence.
      * by rewrite (proj2 (owns_false a d)) by lia.
    + eexists _, f. split; [done|]. rewrite <- app_assoc in Ht. split_and!; try done.
Qed.

(** The outcome of a step: a tiling of the same range, the owner function
    given, descriptors conserved between the list and the pool, no new
    bounds but [st] and [en]. *)
Definition step_to (lo hi st en : Z) (l : list vma_desc) (n : bool) (f : nat)
    (own : Z -> option vma_type) (r : option (unit * mm)) : Prop :=
  exists l' n' f', r = Some (tt, vs l' n' f') /\ tiled lo hi l' /\
    (forall a, owner l' a = own a) /\
    (avail n' f' + length l' = avail n f + length l)%nat /\ (length l' <= length l + 2)%nat /\
    (forall B : Z -> Prop, B st -> B en -> starts B l -> starts B l').

Lemma insert_inside_ok lo hi p d q n f st en ty :
  tiled lo hi (p ++ d :: q) -> tiled lo (start_addr d) p -> tiled (end_addr d) hi q ->
  start_addr d <= st -> st < en -> en < end_addr d ->
  other_type ty = Some (vtype d) -> (2 <= avail n f)%nat ->
  step_to lo hi st en (p ++ d :: q) n f (set_range st en ty (owner (p ++ d :: q)))
    (insert_inside (length p) d st en ty (vs (p ++ d :: q) n f)).
Proof.
  intros Ht Hp Hq H1 H2 H3 Hty Ha. unfold insert_inside.
  assert (Hv : ty <> VMA_UNMAP_ONGOING) by (by intros ->).
  assert (Hdv : vtype d <> VMA_UNMAP_ONGOING) by (destruct ty; cbn in Hty; congruence).
  destruct (get_free_vs (p ++ d :: q) n f ltac:(lia)) as (n1 & f1 & E1 & Ha1).
  destruct (Z.eqb_spec (start_addr d) st) as [Es|Es]; rewrite (bind_Some_eq _ _ _ _ _ E1).
  - erewrite bind_Some_eq by apply upd_desc_vs. rewrite middle_alter by done.
    rewrite insert_desc_vs, middle_put by done. eexists _, _, _. split; [done|].
    split_and!; [| |rewrite !length_app; cbn; lia|rewrite !length_app; cbn; lia|starts_auto].
    + apply tiled_middle; cbn; [by rewrite <- Es|lia|done|]. split_and!; [lia|lia|done|done].
    + intros a. unfold set_range. rewrite (owner_middle lo hi p d q a), (owner_middle lo hi p (mkVma ty st en) _ a)
        by (cbn; first [done | lia | by rewrite <- Es | (split_and!; first [done|lia])]).
      cbn [vtype start_addr end_addr owner].
      destruct (Z.ltb_spec a st), (Z.ltb_spec a (start_addr d)), (Z.leb_spec st a), (Z.ltb_spec a en),
        (Z.ltb_spec a (end_addr d)); try lia; cbn [andb]; try done.
      * by rewrite (proj2 (owns_spec a (set_start en d))) by (cbn; lia).
      * by rewrite (proj2 (owns_false a (set_start en d))) by (cbn; lia).
  - destruct (get_free_vs (p ++ d :: q) n1 f1 ltac:(lia)) as (n2 & f2 & E2 & Ha2).
    rewrite (bind_Some_eq _ _ _ _ _ E2), Hty. cbn [lift_option].
    erewrite bind_Some_eq by done. erewrite bind_Some_eq by apply upd_desc_vs.
    rewrite middle_alter by done. erewrite bind_Some_eq by apply insert_desc_vs.
    rewrite (cons_middle (set_end st d)), app_assoc, middle_put by (rewrite length_app; cbn; lia).
    rewrite insert_desc_vs. rewrite <- app_assoc. cbn [app].
    rewrite (cons_middle (set_end st d)), (cons_middle (mkVma ty st en)), !app_assoc, middle_put
      by (rewrite !length_app; cbn; lia).
    rewrite <- !app_assoc. cbn [app]. eexists _, _, _. split; [done|].
    split_and!; [| |rewrite !length_app; cbn; lia|rewrite !length_app; cbn; lia|starts_auto].
    + apply tiled_middle; cbn; [done|lia|done|]. split_and!; [lia|lia|done|lia|lia|done|done].
    + intros a. unfold set_range. rewrite (owner_middle lo hi p d q a), (owner_middle lo hi p (set_end st d) _ a)
        by (cbn; first [done | lia | (split_and!; first [done|lia])]).
      cbn [vtype start_addr end_addr owner set_end].
      destruct (Z.ltb_spec a st), (Z.ltb_spec a (start_addr d)), (Z.leb_spec st a), (Z.ltb_spec a en),
        (Z.ltb_spec a (end_addr d)); try lia; cbn [andb]; try done.
      * by rewrite (proj2 (owns_spec a (mkVma ty st en))) by (cbn; lia).
      * rewrite (proj2 (owns_false a (mkVma ty st en))) by (cbn; lia).
        by rewrite (proj2 (owns_spec a (mkVma (vtype d) en (end_addr d)))) by (cbn; lia).
      * rewrite (proj2 (owns_false a (mkVma ty st en))) by (cbn; lia).
        by rewrite (proj2 (owns_false a (mkVma (vtype d) en (end_addr d)))) by (cbn; lia).
Qed.

(** Once a descriptor of the type exists the span absorbs the others. *)
Lemma insert_span_absorb p m mid rest n f st ty i b :
  i = length p -> tiled (end_addr m) b mid ->
  insert_span (length mid) (S i) (Some i) st ty (vs (p ++ m :: mid ++ rest) n f) =
    Some ((S i, Some i), vs (p ++ set_end b m :: rest) n (f + length mid)).
Proof.
  intros ->. revert m f. induction mid as [|c mid IH]; intros m f Ht; cbn [tiled] in Ht.
  - subst b. cbn [length insert_span app]. rewrite Nat.add_0_r. by destruct m.
  - destruct Ht as (Hs & _ & _ & Ht). cbn [length insert_span app].
    erewrite bind_Some_eq.
    2:{ apply get_desc_vs. rewrite (cons_middle m), app_assoc. apply middle_lookup.
        rewrite length_app. cbn. lia. }
    erewrite bind_Some_eq by apply upd_desc_vs. rewrite middle_alter by done.
    erewrite bind_Some_eq by apply remove_desc_vs.
    rewrite (cons_middle (set_end _ m)), app_assoc, middle_delete by (rewrite length_app; cbn; lia).
    rewrite <- app_assoc. cbn [app]. erewrite bind_Some_eq by apply free_desc_vs.
    rewrite (IH (set_end (end_addr c) m)) by done. by rewrite Nat.add_succ_comm.
Qed.

(** The list after [insert_across], before [merge_prev]. *)
Definition across_head (d : vma_desc) (st b : Z) (ty : vma_type) : list vma_desc :=
  if decide (other_type ty = Some (vtype d)) then [set_end st d; mkVma ty st b] else [set_end b d].

Lemma insert_span_ok p d mid e q n f st ty :
  tiled (end_addr d) (start_addr e) mid -> (1 <= avail n f)%nat ->
  exists n' f' i m, insert_span (S (length mid)) (length p) None st ty
      (vs (p ++ d :: mid ++ e :: q) n f) =
    Some ((S i, Some i), vs (p ++ across_head d st (start_addr e) ty ++ e :: q) n' f') /\
    p ++ across_head d st (start_addr e) ty = m /\ length m = S i /\
    (avail n' f' + length (across_head d st (start_addr e) ty) = avail n f + S (length mid))%nat.
Proof.
  intros Hm Ha. cbn [insert_span].
  erewrite bind_Some_eq by (apply get_desc_vs, middle_lookup; done).
  unfold across_head. case_decide as Ed.
  - destruct (get_free_vs (p ++ d :: mid ++ e :: q) n f Ha) as (n1 & f1 & E1 & Ha1).
    rewrite (bind_Some_eq _ _ _ _ _ E1). erewrite bind_Some_eq by apply upd_desc_vs.
    rewrite middle_alter by done. erewrite bind_Some_eq by apply insert_desc_vs.
    rewrite (cons_middle (set_end st d)), app_assoc, middle_put by (rewrite length_app; cbn; lia).
    rewrite (insert_span_absorb (p ++ [set_end st d]) (mkVma ty st (end_addr d)) mid (e :: q) n1 f1 st ty _
               (start_addr e)) by (first [rewrite length_app; cbn; lia | done]).
    exists n1, (f1 + length mid)%nat, (S (length p)), (p ++ [set_end st d; mkVma ty st (start_addr e)]).
    split; [by rewrite <- app_assoc|]. split; [done|]. rewrite length_app. cbn [length].
    unfold avail in *. lia.
  - rewrite (insert_span_absorb p d mid (e :: q) n f st ty _ (start_addr e)) by done.
    exists n, (f + length mid)%nat, (length p), (p ++ [set_end (start_addr e) d]).
    split; [done|]. split; [done|]. rewrite length_app. cbn [length].
    unfold avail in *. lia.
Qed.

Lemma other_type_None ty t :
  ty <> VMA_UNMAP_ONGOING -> t <> VMA_UNMAP_ONGOING -> other_type ty <> Some t -> t = ty.
Proof. by destruct ty, t. Qed.

Lemma across_head_tiled d st b ty :
  ty <> VMA_UNMAP_ONGOING -> vtype d <> VMA_UNMAP_ONGOING -> start_addr d <= st <= b ->
  tiled (start_addr d) b (across_head d st b ty) /\
  forall a, start_addr d <= a < b ->
    owner (across_head d st b ty) a = Some (if a <? st then vtype d else ty).
Proof.
  intros Hv Hdv Hst. unfold across_head. case_decide as E.
  - split; [cbn; split_and!; done || lia|]. intros a Ha. cbn.
    destruct (Z.ltb_spec a st).
    + by rewrite (proj2 (owns_spec a (set_end st d))) by (cbn; lia).
    + rewrite (proj2 (owns_false a (set_end st d))) by (cbn; lia).
      by rewrite (proj2 (owns_spec a (mkVma ty st b))) by (cbn; lia).
  - apply other_type_None in E as <-; try done. split; [cbn; split_and!; done || lia|].
    intros a Ha. cbn. rewrite (proj2 (owns_spec a (set_end b d))) by (cbn; lia).
    by destruct (a <? st).
Qed.

Lemma across_head_set_end p d st b b' ty q i :
  S i = length (p ++ across_head d st b ty) ->
  alter (set_end b') i (p ++ across_head d st b ty ++ q) = p ++ across_head d st b' ty ++ q.
Proof.
  rewrite length_app. unfold across_head. case_decide; cbn [length app]; intros Hi.
  - rewrite (cons_middle (set_end st d)), app_assoc, middle_alter by (rewrite length_app; cbn; lia).
    by rewrite <- app_assoc.
  - rewrite middle_alter by lia. done.
Qed.

(** The function that the list read after [insert_across]: [d], [mid] and
    [e] are replaced by the head and by [t], which starts at [b]. *)
Lemma across_step lo hi p d mid e q n f st en ty b t n2 f2 :
  tiled lo (start_addr d) p -> tiled (end_addr d) (start_addr e) mid -> tiled (end_addr e) hi q ->
  start_addr d <= st < end_addr d -> start_addr e <= en < end_addr e ->
  vtype d <> VMA_UNMAP_ONGOING -> vtype e <> VMA_UNMAP_ONGOING -> ty <> VMA_UNMAP_ONGOING ->
  tiled b hi t -> en <= b ->
  (forall a, en <= a -> owner (across_head d st b ty ++ t) a = owner (e :: q) a) ->
  (avail n2 f2 + length (across_head d st b ty) + length t =
     avail n f + length mid + length q + 2)%nat ->
  (length t <= length q + 1)%nat ->
  (forall B : Z -> Prop, B en -> starts B (e :: q) -> starts B t) ->
  step_to lo hi st en (p ++ d :: mid ++ e :: q) n f (set_range st en ty (owner (p ++ d :: mid ++ e :: q)))
    (Some (tt, vs (p ++ across_head d st b ty ++ t) n2 f2)).
Proof.
  intros Hp Hm Hq Hd He Hdv Hev Hv Ht Hb Hown Hcount Hlen Hstarts.
  pose proof (tiled_le _ _ _ Hm) as Hml. pose proof (tiled_le _ _ _ Hp).
  destruct (across_head_tiled d st b ty Hv Hdv ltac:(lia)) as [Hx Hxo].
  assert (Hrest : tiled (start_addr e) hi (e :: q)) by (cbn; split_and!; done || lia).
  assert (length (across_head d st b ty) <= 2)%nat by (unfold across_head; case_decide; cbn; lia).
  assert (Hxt : tiled (start_addr d) hi (across_head d st b ty ++ t)) by (rewrite tiled_app; eauto).
  assert (Hme : tiled (end_addr d) hi (mid ++ e :: q)) by (rewrite tiled_app; eauto).
  exists (p ++ across_head d st b ty ++ t), n2, f2. split; [done|]. split_and!.
  - rewrite tiled_app. eauto.
  - intros a. unfold set_range. rewrite (owner_app_tiled _ _ _ _ _ a Hp Hxt).
    rewrite (owner_middle lo hi p d _ a Hp ltac:(lia) Hme).
    destruct (Z.ltb_spec a (start_addr d)); [by destruct (Z.leb_spec st a); [lia|]|].
    destruct (decide (en <= a)) as [Hen|Hen].
    + rewrite Hown by done. destruct (Z.ltb_spec a en); [lia|]. rewrite andb_false_r.
      destruct (Z.ltb_spec a (end_addr d)); [lia|].
      rewrite (owner_app_tiled _ _ _ _ _ a Hm Hrest). by destruct (Z.ltb_spec a (start_addr e)); [lia|].
    + rewrite (owner_app_tiled _ _ _ _ _ a Hx Ht).
      destruct (Z.ltb_spec a b); [|lia]. rewrite Hxo by lia.
      destruct (Z.ltb_spec a st), (Z.leb_spec st a), (Z.ltb_spec a en); try lia; cbn [andb]; try done.
      by destruct (Z.ltb_spec a (end_addr d)); [|lia].
  - rewrite !length_app. cbn [length]. rewrite length_app. cbn [length]. lia.
  - rewrite !length_app. cbn [length]. rewrite length_app. cbn [length]. lia.
  - intros B Hst Hen HB. specialize (Hstarts B Hen). unfold across_head. case_decide; starts_auto.
Qed.

Lemma owner_set_start en e q X lo a :
  tiled lo en X -> start_addr e <= en -> en <= a ->
  owner (X ++ set_start en e :: q) a = owner (e :: q) a.
Proof.
  intros HX He Ha. rewrite owner_app, (owner_outside _ _ _ _ HX) by lia. cbn.
  destruct (owns a e) eqn:Eo.
  - apply owns_spec in Eo. by rewrite (proj2 (owns_spec a (set_start en e))) by (cbn; lia).
  - apply owns_false in Eo. by rewrite (proj2 (owns_false a (set_start en e))) by (cbn; lia).
Qed.

Lemma across_head_length d st b b' ty : length (across_head d st b ty) = length (across_head d st b' ty).
Proof. unfold across_head. by case_decide. Qed.

Lemma insert_across_ok lo hi p d mid e q n f st en ty :
  tiled lo (start_addr d) p -> tiled (end_addr d) (start_addr e) mid -> tiled (end_addr e) hi q ->
  start_addr d <= st < end_addr d -> start_addr e <= en < end_addr e ->
  vtype d <> VMA_UNMAP_ONGOING -> vtype e <> VMA_UNMAP_ONGOING -> ty <> VMA_UNMAP_ONGOING ->
  (2 <= avail n f)%nat ->
  step_to lo hi st en (p ++ d :: mid ++ e :: q) n f (set_range st en ty (owner (p ++ d :: mid ++ e :: q)))
    (insert_across (length p) (length (p ++ d :: mid)) st en ty (vs (p ++ d :: mid ++ e :: q) n f)).
Proof.
  intros Hp Hm Hq Hd He Hdv Hev Hv Ha. pose proof (tiled_le _ _ _ Hm) as Hml.
  unfold insert_across. rewrite length_app. cbn [length]. rewrite bool_decide_eq_true_2 by lia.
  replace (length p + S (length mid) - length p)%nat with (S (length mid)) by lia.
  destruct (insert_span_ok p d mid e q n f st ty Hm ltac:(lia))
    as (n' & f' & i & m & E & Em & Hlm & Hc).
  erewrite bind_Some_eq by done. rewrite (bind_Some_eq _ _ _ _ _ E). cbv beta iota. subst m.
  erewrite bind_Some_eq by (apply get_desc_vs; rewrite app_assoc; by apply middle_lookup).
  erewrite bind_Some_eq by done.
  pose proof (across_head_length d st (start_addr e)) as Hlh.
  case_decide as Ee.
  - assert (Hfin : step_to lo hi st en (p ++ d :: mid ++ e :: q) n f
        (set_range st en ty (owner (p ++ d :: mid ++ e :: q)))
        (Some (tt, vs (p ++ across_head d st en ty ++ set_start en e :: q) n' f'))).
    { apply across_step; try done; [cbn; split_and!; done || lia| |rewrite <- (Hlh en); cbn; lia|cbn; lia|starts_auto].
      intros a. apply (owner_set_start _ _ _ _ (start_addr d)); [|lia].
      by apply across_head_tiled; [| |lia]. }
    destruct (Z.eqb_spec (start_addr e) en) as [Es|Es]; cbn [negb].
    + assert (Ese : set_start en e = e) by (destruct e; cbn in Es |- *; by rewrite Es).
      rewrite Ese in Hfin. by rewrite Es.
    + erewrite bind_Some_eq by apply upd_desc_vs. rewrite across_head_set_end by done.
      rewrite app_assoc, upd_desc_vs, middle_alter by (rewrite length_app, <- (Hlh en), <- length_app; done).
      by rewrite <- app_assoc.
  - apply other_type_None in Ee; try done.
    erewrite bind_Some_eq by apply upd_desc_vs. rewrite across_head_set_end by done.
    erewrite bind_Some_eq by apply remove_desc_vs.
    rewrite app_assoc, middle_delete by (rewrite length_app, <- (Hlh (end_addr e)), <- length_app; done).
    rewrite <- app_assoc, free_desc_vs.
    apply across_step; try done; [lia| |rewrite <- (Hlh (end_addr e)); unfold avail in *; lia|lia|starts_auto].
    destruct (across_head_tiled d st (end_addr e) ty Hv Hdv ltac:(lia)) as [Hx Hxo].
    intros a Hae. rewrite (owner_app_tiled _ _ _ _ _ a Hx Hq). cbn [owner].
    destruct (Z.ltb_spec a (end_addr e)).
    + rewrite (proj2 (owns_spec a e)) by lia. rewrite Hxo by lia.
      destruct (Z.ltb_spec a st); [lia|]. by rewrite Ee.
    + by rewrite (proj2 (owns_false a e)) by lia.
Qed.

(** Two addresses, the first below the second, in the same descriptor or in
    two. *)
Lemma tiled_split2 lo hi l st en :
  tiled lo hi l -> lo <= st -> st < en -> en < hi ->
  (exists p d q, l = p ++ d :: q /\ tiled lo (start_addr d) p /\ tiled (end_addr d) hi q /\
     start_addr d <= st /\ en < end_addr d /\ vtype d <> VMA_UNMAP_ONGOING) \/
  (exists p d mid e q, l = p ++ d :: mid ++ e :: q /\ tiled lo (start_addr d) p /\
     tiled (end_addr d) (start_addr e) mid /\ tiled (end_addr e) hi q /\
     start_addr d <= st < end_addr d /\ start_addr e <= en < end_addr e /\
     vtype d <> VMA_UNMAP_ONGOING /\ vtype e <> VMA_UNMAP_ONGOING).
Proof.
  intros Ht H1 H2 H3. destruct (tiled_split _ _ _ st Ht ltac:(lia)) as (p & d & q & -> & Hp & Hq & Hd & Hv).
  destruct (decide (en < end_addr d)) as [He|He].
  - left. exists p, d, q. split_and!; try done; lia.
  - right. destruct (tiled_split _ _ _ en Hq ltac:(lia)) as (mid & e & q' & -> & Hm & Hq' & Hee & Hve).
    by exists p, d, mid, e, q'.
Qed.

Lemma insert_area_ok lo hi l n f st en ty :
  tiled lo hi l -> lo <= st -> st < en -> en < hi -> ty <> VMA_UNMAP_ONGOING -> (2 <= avail n f)%nat ->
  step_to lo hi st en l n f (set_range st en ty (owner l)) (insert_area st en ty (vs l n f)).
Proof.
  intros Ht H1 H2 H3 Hv Ha.
  assert (Hmerge : forall r, step_to lo hi st en l n f (set_range st en ty (owner l)) r ->
    step_to lo hi st en l n f (set_range st en ty (owner l))
      (match r with Some (_, s) => merge_prev st ty s | None => None end)).
  { intros r (l1 & n1 & f1 & -> & Ht1 & Ho1 & Hc1 & Hl1 & Hb1).
    assert (Hst : owner l1 st = Some ty).
    { rewrite Ho1. unfold set_range. by destruct (Z.leb_spec st st), (Z.ltb_spec st en); try lia. }
    destruct (merge_prev_ok lo hi l1 n1 f1 st ty Ht1 ltac:(lia) Hst)
      as (l2 & f2 & -> & Ht2 & Ho2 & Hc2 & Hl2 & Hb2).
    exists l2, n1, f2. split; [done|]. split_and!; [done| |unfold avail in *; lia|lia|by auto].
    intros a. by rewrite Ho2, Ho1. }
  unfold insert_area.
  destruct (tiled_split2 _ _ _ _ _ Ht H1 H2 H3)
    as [(p & d & q & -> & Hp & Hq & Hd & He & Hdv)|
        (p & d & mid & e & q & -> & Hp & Hm & Hq & Hd & He & Hdv & Hev)].
  - erewrite bind_Some_eq by (eapply owner_index_vs, split_index; [done|lia]).
    erewrite bind_Some_eq by (eapply owner_index_vs, split_index; [done|lia]).
    rewrite decide_True by done. erewrite bind_Some_eq by (apply get_desc_vs, middle_lookup; done).
    case_decide as Ed.
    + eexists _, n, f. split; [done|]. split_and!; try done; [|lia].
      intros a. unfold set_range. destruct (Z.leb_spec st a), (Z.ltb_spec a en); try done. cbn [andb].
      subst ty. eapply split_owner; [done|lia].
    + apply Hmerge. apply insert_inside_ok; try done; try lia.
      destruct ty, (vtype d); done.
  - erewrite bind_Some_eq by (eapply owner_index_vs, split_index; done).
    erewrite bind_Some_eq.
    2:{ apply owner_index_vs. rewrite app_comm_cons, app_assoc.
        apply (split_index lo (p ++ d :: mid) e q en); [|done].
        apply tiled_middle; try done; lia. }
    rewrite decide_False by (rewrite length_app; cbn; lia).
    apply Hmerge. by apply insert_across_ok.
Qed.
End list_state.
