(* ===== verification/VmaOps.v ===== *)
(** * The memory calls on the descriptor list

    The invariant of the list under the calls of Vma.v: what [find_vma] and
    its variants return, the queries, and, with the laws of the kernel's
    calls, that [mmap] and [munmap] keep the list equal to what the kernel
    has mapped. *)

From S2P Require Import Prelude Vma VmaList.

(** ** Pages *)

Section pages.
Definition aligned (a : Z) : Prop := a mod PAGE_SIZE = 0.

(** Rounding up without the 64-bit wrap. *)
Definition page_up (a : Z) : Z := (a + PAGE_MASK) - (a + PAGE_MASK) mod PAGE_SIZE.

Lemma land_page_mask a : 0 <= a < 2 ^ 64 -> Z.land a (w64 (Z.lnot PAGE_MASK)) = a - a mod PAGE_SIZE.
Proof.
  intros Ha. unfold w64. rewrite <- wrap_land_ones by lia.
  rewrite (Z.land_comm (Z.lnot _)), Z.land_assoc, wrap_land_ones, wrap_small by lia.
  rewrite <- Z.ldiff_land. change PAGE_MASK with (Z.ones 12). rewrite Z.ldiff_ones_r by lia.
  rewrite Z.shiftl_mul_pow2, Z.shiftr_div_pow2 by lia. change PAGE_SIZE with (2 ^ 12).
  pose proof (Z.div_mod a (2 ^ 12)). lia.
Qed.

Lemma align_down_eq a : 0 <= a < 2 ^ 64 -> PAGE_ALIGN_DOWN a = a - a mod PAGE_SIZE.
Proof. apply land_page_mask. Qed.

Lemma align_up_eq a : 0 <= a -> a + PAGE_MASK < 2 ^ 64 -> PAGE_ALIGN_UP a = page_up a.
Proof.
  intros H1 H2. unfold PAGE_ALIGN_UP, PAGE_MASK, PAGE_SIZE in *. unfold w64 at 1.
  rewrite wrap_small by lia. by apply (land_page_mask (a + (4096 - 1))); lia.
Qed.

Lemma aligned_sub_mod a : aligned (a - a mod PAGE_SIZE).
Proof. unfold aligned, PAGE_SIZE. pose proof (Z.div_mod a 4096). 
  replace (a - a mod 4096) with (a / 4096 * 4096) by lia. by apply Z.mod_mul. Qed.

Lemma page_up_aligned a : aligned (page_up a).
Proof. apply aligned_sub_mod. Qed.

Lemma page_up_bounds a : a <= page_up a < a + PAGE_SIZE.
Proof. unfold page_up, PAGE_MASK, PAGE_SIZE. pose proof (Z.mod_pos_bound (a + (4096 - 1)) 4096). lia. Qed.

Lemma aligned_add a b : aligned a -> aligned b -> aligned (a + b).
Proof. unfold aligned. intros Ha Hb. by rewrite Z.add_mod, Ha, Hb. Qed.

Lemma aligned_sub a b : aligned a -> aligned b -> aligned (a - b).
Proof. unfold aligned. intros Ha Hb. by rewrite Zminus_mod, Ha, Hb. Qed.

Lemma aligned_gap a b : aligned a -> aligned b -> a < b -> a + PAGE_SIZE <= b.
Proof.
  unfold aligned, PAGE_SIZE. intros Ha Hb Hlt.
  pose proof (Z.div_mod a 4096). pose proof (Z.div_mod b 4096). lia.
Qed.

Lemma page_up_add a b : aligned a -> page_up (a + b) = a + page_up b.
Proof.
  intros Ha. unfold page_up. rewrite <- Z.add_assoc, Z.add_mod, Ha by done.
  rewrite Z.add_0_l, Z.mod_mod by done. lia.
Qed.

Lemma page_up_id a : aligned a -> page_up a = a.
Proof.
  intros Ha. unfold page_up. rewrite Z.add_mod, Ha by done.
  change ((0 + PAGE_MASK mod PAGE_SIZE) mod PAGE_SIZE) with PAGE_MASK. lia.
Qed.
End pages.

(** ** The invariant *)

Definition avail_of `{K : Kernel} (s : mm) : nat := avail (desc_next_memory s) (free_vma_list s).

Section ops.
Context `{K : Kernel} (T : target) (lo hi : Z).

(** Bounds the two targets satisfy. *)
Record target_ok : Prop := {
  to_range : 0 < lo < hi /\ hi < 2 ^ 62 /\ aligned lo;
  to_choose : lo <= KERNEL_CHOOSE_START_ADDR T < hi /\ aligned (KERNEL_CHOOSE_START_ADDR T);
  to_force : forall a, FORCE_ALIGNMENT T = Some a ->
    exists k, 12 <= k < 62 /\ a = 2 ^ k /\ (hi - PAGE_SIZE) mod a = 0
}.

Record vma_ok (s : mm) : Prop := {
  vo_tiled : tiled lo hi (vma_list s);
  vo_aligned : starts aligned (vma_list s);
  vo_top : aligned hi -> owner (vma_list s) (hi - 1) = Some VMA_MAP;
  vo_cursor : lo <= kernel_cursor s < hi /\ aligned (kernel_cursor s)
}.

(** What the list operations leave alone. *)
Record frame (s s' : mm) : Prop := {
  fr_init : is_init s' = is_init s;
  fr_signal : signal_cursor s' = signal_cursor s;
  fr_ongoing : ongoing_vma_list s' = ongoing_vma_list s;
  fr_shm : shmat_list s' = shmat_list s /\ free_shmat_list s' = free_shmat_list s;
  fr_offset : mmap_offset s' = mmap_offset s;
  fr_cleanings : cleanings s' = cleanings s;
  fr_kernel : kernel s' = kernel s
}.

(** The list now reads as [own]; descriptors went between list and pool. *)
Record vma_step (s s' : mm) (own : Z -> option vma_type) : Prop := {
  ve_frame : frame s s';
  ve_owner : forall a, owner (vma_list s') a = own a;
  ve_count : (avail_of s' + length (vma_list s') = avail_of s + length (vma_list s))%nat;
  ve_length : (length (vma_list s') <= length (vma_list s) + 2)%nat
}.

Lemma frame_refl s : frame s s.
Proof. by constructor. Qed.

Lemma frame_trans s1 s2 s3 : frame s1 s2 -> frame s2 s3 -> frame s1 s3.
Proof. intros [? ? ? [? ?] ? ? ?] [? ? ? [? ?] ? ? ?]. constructor; try congruence. split; congruence. Qed.

Lemma vs_self s : s = vs s (vma_list s) (desc_next_memory s) (free_vma_list s).
Proof. by destruct s. Qed.

Lemma insert_area_mm s st en ty :
  vma_ok s -> lo <= st -> st < en -> en < hi -> aligned st -> aligned en ->
  ty <> VMA_UNMAP_ONGOING -> (2 <= avail_of s)%nat ->
  exists s', insert_area st en ty s = Some (tt, s') /\ vma_ok s' /\
    vma_step s s' (set_range st en ty (owner (vma_list s))) /\
    kernel_cursor s' = kernel_cursor s /\ is_end_of_vm_reach s' = is_end_of_vm_reach s.
Proof.
  intros [Ht Hal Htop Hcur] H1 H2 H3 A1 A2 Hty Hav.
  destruct (insert_area_ok s lo hi _ (desc_next_memory s) (free_vma_list s) st en ty Ht H1 H2 H3 Hty Hav)
    as (l' & n' & f' & E & Ht' & Ho' & Hc & Hl & Hb).
  rewrite <- vs_self in E. exists (vs s l' n' f'). split; [done|]. split; [|split; [|done]].
  - constructor; try done; [by apply Hb|]. intros Hhi. cbn. rewrite Ho'. unfold set_range.
    assert (en <= hi - 1) by lia.
    rewrite (proj2 (Z.ltb_ge (hi - 1) en)), andb_false_r by lia. by apply Htop.
  - by constructor.
Qed.

Lemma starts_lookup B l i d : starts B l -> l !! i = Some d -> B (start_addr d).
Proof. intros H. by apply (Forall_lookup_1 _ _ _ _ H). Qed.

(** A descriptor of the list: its range, and that it owns it. *)
Lemma desc_in_list s p d q :
  vma_ok s -> vma_list s = p ++ d :: q ->
  lo <= start_addr d <= end_addr d /\ end_addr d <= hi /\ aligned (start_addr d) /\
  (forall a, start_addr d <= a < end_addr d -> owner (vma_list s) a = Some (vtype d)).
Proof.
  intros [Ht Hal _ _] El. rewrite El in *. apply tiled_app in Ht as (mid & Hp & Hs & Hle & _ & Hq).
  pose proof (tiled_le _ _ _ Hp). pose proof (tiled_le _ _ _ Hq).
  apply Forall_app in Hal as [_ Hal]. apply Forall_cons in Hal as [Hal _].
  split_and!; try done; try lia. intros a Ha. eapply (split_owner lo); [by rewrite Hs|done].
Qed.

(** Room in an unmapped descriptor ends below [hi]. *)
Lemma room_below_hi s p d q a n :
  vma_ok s -> vma_list s = p ++ d :: q -> vtype d = VMA_UNMAP ->
  start_addr d <= a -> 0 < n -> a + n <= end_addr d -> aligned a -> aligned n -> a + n < hi.
Proof.
  intros Hok El Hty H1 H2 H3 A1 A2. destruct (desc_in_list s p d q Hok El) as (_ & Hhi & _ & Hown).
  destruct (decide (a + n = hi)) as [E|E]; [|lia]. exfalso.
  assert (Hal : aligned hi) by (rewrite <- E; by apply aligned_add).
  pose proof (vo_top _ Hok Hal) as Htop. rewrite Hown in Htop by lia. congruence.
Qed.

(** ** Finding room *)

(** [n] bytes at [a], unmapped before, mapped now. *)
Definition room_found (s s' : mm) (n a : Z) : Prop :=
  aligned a /\ lo <= a /\ a + n < hi /\
  (forall x, a <= x < a + n -> owner (vma_list s) x = Some VMA_UNMAP) /\
  vma_step s s' (set_range a (a + n) VMA_MAP (owner (vma_list s))).

Definition no_room (s s' : mm) : Prop :=
  vma_list s' = vma_list s /\ frame s s' /\ avail_of s' = avail_of s.

Definition alloc_result (s : mm) (n : Z) (r : option (Z * mm)) : Prop :=
  exists a s', r = Some (a, s') /\ vma_ok s' /\ (a = ENOMEM_64 /\ no_room s s' \/ room_found s s' n a).

(** [is_end_of_vm_reach] and the cursor apart, the whole effect of an
    allocation at [a] in the unmapped descriptor [d]. *)
Lemma take_room s p d q a n :
  vma_ok s -> vma_list s = p ++ d :: q -> vtype d = VMA_UNMAP -> hi < 2 ^ 62 -> 0 < lo ->
  start_addr d <= a -> 0 < n -> a + n <= end_addr d -> aligned a -> aligned n -> (2 <= avail_of s)%nat ->
  exists s', insert_map_area a (w64 (a + n)) s = Some (tt, s') /\ vma_ok s' /\
    room_found s s' n a /\ kernel_cursor s' = kernel_cursor s /\
    is_end_of_vm_reach s' = is_end_of_vm_reach s.
Proof.
  intros Hok El Hty Hhi Hlo H1 H2 H3 A1 A2 Hav.
  pose proof (room_below_hi s p d q a n Hok El Hty H1 H2 H3 A1 A2) as Hlt.
  destruct (desc_in_list s p d q Hok El) as (Hd & _ & _ & Hown).
  unfold w64. rewrite wrap_small by lia.
  destruct (insert_area_mm s a (a + n) VMA_MAP Hok) as (s' & E & Hok' & Hstep & Hc & Hr);
    try done; try lia; [by apply aligned_add|].
  exists s'. split; [done|]. split; [done|]. split; [|done].
  split_and!; try done; try lia. intros x Hx. rewrite <- Hty. apply Hown. lia.
Qed.

Lemma alloc_enomem_range s s' n a :
  room_found s s' n a -> hi < 2 ^ 62 -> 0 < n -> 0 < lo -> a <> ENOMEM_64 /\ 0 < a < 2 ^ 62.
Proof.
  intros (_ & H1 & H2 & _) H3 H4 H5. split; [|lia].
  assert (ENOMEM_64 = 2 ^ 64 - 12) by reflexivity. lia.
Qed.

Context (HT : target_ok).

Lemma find_vma_ok s len :
  vma_ok s -> 0 < len <= 2 ^ 62 + PAGE_SIZE -> (2 <= avail_of s)%nat ->
  alloc_result s (page_up len) (find_vma len s).
Proof.
  intros Hok Hlen Hav. destruct (to_range HT) as (Hlo & Hhi & _).
  unfold find_vma. rewrite align_up_eq by (unfold PAGE_MASK, PAGE_SIZE in *; lia).
  pose proof (page_up_bounds len) as HL. erewrite bind_Some_eq by done.
  destruct (find_index _ _) as [i|] eqn:E.
  - apply find_index_Some in E as (p & d & q & El & -> & Hd & _).
    apply andb_true_iff in Hd as [Hty%bool_decide_eq_true Hd%Z.leb_le].
    destruct (desc_in_list s p d q Hok El) as (Hb & Hb' & Ha & _).
    unfold w64 in Hd. rewrite wrap_small in Hd by lia.
    erewrite bind_Some_eq.
    2:{ unfold get_desc. run_m. rewrite El, (middle_lookup p d q) by done. done. }
    destruct (take_room s p d q (start_addr d) (page_up len)) as (s' & E & Hok' & Hroom & _);
      try done; try lia; [apply page_up_aligned|].
    rewrite (bind_Some_eq _ _ _ _ _ E). exists (start_addr d), s'. by split_and!; auto.
  - exists ENOMEM_64, s. split; [done|]. split; [done|]. left. split; [done|].
    split; [done|]. split; [apply frame_refl|done].
Qed.

Lemma vma_ok_cursor s r c : vma_ok s -> lo <= c < hi -> aligned c -> vma_ok (upd_cursor r c s).
Proof. intros [? ? ? ?] ? ?. by constructor. Qed.

(** The cursor and the end-of-memory flag do not matter to an allocation. *)
Lemma alloc_result_cursor s n r c res :
  alloc_result (upd_cursor r c s) n res -> alloc_result s n res.
Proof.
  intros (a & s' & -> & Hok & Hr). exists a, s'. split; [done|]. split; [done|].
  destruct Hr as [(-> & H1 & [] & H3)|(H1 & H2 & H3 & H4 & [[] ? ? ?])];
    [left|right]; split_and!; try done; by constructor.
Qed.

Lemma room_found_cursor s s' n a r c :
  room_found s s' n a -> room_found s (upd_cursor r c s') n a.
Proof. intros (? & ? & ? & ? & [[] ? ? ?]). by split_and!. Qed.

(** The cursor after an allocation at [a], rounded to [FORCE_ALIGNMENT]. *)
Definition next_cursor (c : Z) : Z :=
  match FORCE_ALIGNMENT T with
  | Some a => Z.land (w64 (c + a - 1)) (w64 (Z.lnot (a - 1)))
  | None => c
  end.

Lemma land_pow2_mask k c : 0 <= k < 64 -> 0 <= c < 2 ^ 64 ->
  Z.land c (w64 (Z.lnot (2 ^ k - 1))) = c - c mod 2 ^ k.
Proof.
  intros Hk Hc. unfold w64. rewrite <- wrap_land_ones by lia.
  rewrite (Z.land_comm (Z.lnot _)), Z.land_assoc, wrap_land_ones, wrap_small by lia.
  rewrite <- Z.ldiff_land. replace (2 ^ k - 1) with (Z.ones k) by (rewrite Z.ones_equiv; lia).
  rewrite Z.ldiff_ones_r by lia. rewrite Z.shiftl_mul_pow2, Z.shiftr_div_pow2 by lia.
  assert (0 < 2 ^ k) by (apply Z.pow_pos_nonneg; lia). pose proof (Z.div_mod c (2 ^ k)). lia.
Qed.

Lemma next_cursor_ok c :
  lo <= c < hi -> aligned c ->
  (forall a, FORCE_ALIGNMENT T = Some a -> c <= hi - PAGE_SIZE) ->
  lo <= next_cursor c < hi /\ aligned (next_cursor c).
Proof.
  intros Hc Ha Hf. unfold next_cursor. destruct (FORCE_ALIGNMENT T) as [a|] eqn:E; [|done].
  destruct (to_force HT a E) as (k & Hk & -> & Hm). specialize (Hf _ eq_refl).
  destruct (to_range HT) as (Hlo & Hhi & _). set (m := 2 ^ k) in *.
  assert (Hm0 : 0 < m) by (apply Z.pow_pos_nonneg; lia).
  assert (m < 2 ^ 62) by (apply Z.pow_lt_mono_r; lia).
  assert (Hdiv : (PAGE_SIZE | m)).
  { exists (2 ^ (k - 12)). unfold m, PAGE_SIZE. change 4096 with (2 ^ 12).
    rewrite <- Z.pow_add_r by lia. f_equal. lia. }
  assert (E2 : Z.land (w64 (c + m - 1)) (w64 (Z.lnot (m - 1))) = c + m - 1 - (c + m - 1) mod m).
  { unfold w64 at 1. rewrite wrap_small by lia. subst m. apply land_pow2_mask; lia. }
  rewrite E2. clear E2. pose proof (Z.mod_pos_bound (c + m - 1) m Hm0).
  pose proof (Z.div_mod (c + m - 1) m ltac:(lia)). pose proof (Z.div_mod (hi - PAGE_SIZE) m ltac:(lia)).
  assert ((c + m - 1) / m <= (hi - PAGE_SIZE) / m).
  { apply Z.lt_succ_r, (Z.mul_lt_mono_pos_l m); [done|]. unfold Z.succ. rewrite Z.mul_add_distr_l. lia. }
  assert (m * ((c + m - 1) / m) <= m * ((hi - PAGE_SIZE) / m)) by (apply Z.mul_le_mono_nonneg_l; lia).
  unfold aligned.
  generalize dependent ((c + m - 1) / m). generalize dependent ((c + m - 1) mod m).
  generalize dependent ((hi - PAGE_SIZE) / m). intros q1 Hq1 r Hr q2 Hq2 Hle Hmul.
  rewrite Hm in Hq1. split; [unfold PAGE_SIZE in *; lia|].
  replace (c + m - 1 - r) with (q2 * m) by lia.
  destruct Hdiv as [u ->]. rewrite Z.mul_assoc. by apply Z.mod_mul.
Qed.

Lemma force_hi_aligned a : FORCE_ALIGNMENT T = Some a -> aligned hi.
Proof.
  intros E. destruct (to_force HT a E) as (k & Hk & -> & Hm).
  assert (Hd : (2 ^ k | hi - PAGE_SIZE)) by (apply Z.mod_divide; [|done]; apply Z.pow_nonzero; lia).
  assert (H12 : (PAGE_SIZE | 2 ^ k)).
  { exists (2 ^ (k - 12)). change PAGE_SIZE with (2 ^ 12). rewrite <- Z.pow_add_r by lia. f_equal. lia. }
  pose proof (Z.divide_trans _ _ _ H12 Hd) as [u Hu]. unfold aligned.
  replace hi with ((u + 1) * PAGE_SIZE) by lia. by apply Z.mod_mul.
Qed.

(** In the list from the owner of the cursor on, the room starts at the
    cursor or after it. *)
Lemma choose_split s c i p' d q' :
  vma_ok s -> lo <= c < hi -> find_index (owns c) (vma_list s) = Some i ->
  drop i (vma_list s) = p' ++ d :: q' ->
  vma_list s = (take i (vma_list s) ++ p') ++ d :: q' /\
  (i + length p')%nat = length (take i (vma_list s) ++ p') /\
  start_addr d <= Z.max (start_addr d) c <= end_addr d.
Proof.
  intros Hok Hc Ei Ed. pose proof (find_index_Some _ _ _ Ei) as (p & d0 & q & El & Hi & H0 & _).
  apply owns_spec in H0. split; [by rewrite <- app_assoc, <- Ed, take_drop|].
  assert (Hl : length (take i (vma_list s)) = i).
  { rewrite length_take, El, length_app. cbn. lia. }
  split; [by rewrite length_app, Hl|]. subst i. rewrite El, drop_app_length in Ed.
  pose proof (vo_tiled _ Hok) as Ht. rewrite El in Ht. apply tiled_app in Ht as (mid & _ & Hs & _ & _ & Hq).
  destruct p' as [|x p']; cbn [app] in Ed; injection Ed as -> Ed; [lia|].
  rewrite Ed in Hq. apply tiled_app in Hq as (mid2 & Hp & Hs2 & Hle & _ & _).
  pose proof (tiled_le _ _ _ Hp). lia.
Qed.

Lemma find_vma_with_kernel_choose_ok s len :
  vma_ok s -> 0 < len <= 2 ^ 62 -> (2 <= avail_of s)%nat ->
  alloc_result s (page_up len) (find_vma_with_kernel_choose T len s).
Proof.
  intros Hok Hlen Hav. destruct (to_range HT) as (Hlo & Hhi & _). destruct (to_choose HT) as (Hch & Hca).
  destruct (vo_cursor _ Hok) as (Hc & Hcal).
  unfold find_vma_with_kernel_choose. rewrite align_up_eq by (unfold PAGE_MASK, PAGE_SIZE; lia).
  pose proof (page_up_bounds len) as HL. pose proof (page_up_aligned len) as HLa.
  erewrite bind_Some_eq by done. unfold find_address_owner, find_address_owner_without_assert.
  destruct (tiled_split _ _ _ _ (vo_tiled _ Hok) Hc) as (p & d0 & q & El & Hp & Hq & Hd0 & _).
  assert (Ei : find_index (owns (kernel_cursor s)) (vma_list s) = Some (length p))
    by (rewrite El; by eapply split_index).
  erewrite bind_Some_eq by (run_m; rewrite Ei; done).
  destruct (find_index _ (drop _ _)) as [i|] eqn:E.
  - apply find_index_Some in E as (p' & d & q' & Ed & -> & Hd & _).
    apply andb_true_iff in Hd as [Hty%bool_decide_eq_true Hd%Z.leb_le].
    destruct (choose_split s _ _ _ _ _ Hok Hc Ei Ed) as (El' & Hidx & Hmax).
    assert (Hlk : vma_list s !! (length p + length p')%nat = Some d)
      by (rewrite El' at 1; by apply middle_lookup).
    destruct (desc_in_list s _ d q' Hok El') as (Hb & Hb' & Ha & _).
    unfold w64 in Hd. rewrite wrap_small in Hd by lia.
    assert (Hma : aligned (Z.max (start_addr d) (kernel_cursor s)))
      by (destruct (Z.max_spec (start_addr d) (kernel_cursor s)) as [[_ ->]|[_ ->]]; done).
    destruct (take_room s _ d q' (Z.max (start_addr d) (kernel_cursor s)) (page_up len) Hok El' Hty)
      as (s' & E & Hok' & Hroom & Hcur & Hreach); try done; try lia.
    set (a := Z.max (start_addr d) (kernel_cursor s)) in *.
    erewrite bind_Some_eq.
    2:{ erewrite bind_Some_eq.
        2:{ unfold get_desc. run_m. rewrite Hlk. done. }
        fold a. rewrite (bind_Some_eq _ _ _ _ _ E). done. }
    cbv beta. destruct (alloc_enomem_range _ _ _ _ Hroom Hhi ltac:(lia) ltac:(lia)) as [Hne Hrange].
    rewrite (proj2 (Z.eqb_neq _ _) Hne).
    destruct Hroom as (R1 & R2 & R3 & R4 & R5).
    assert (Hw : w64 (a + page_up len) = a + page_up len) by (apply wrap_small; lia).
    rewrite Hw. cbv zeta.
    assert (Hnext : lo <= next_cursor (a + page_up len) < hi /\ aligned (next_cursor (a + page_up len))).
    { apply next_cursor_ok; [lia|by apply aligned_add|]. intros f Hf.
      pose proof (aligned_gap (a + page_up len) hi) as Hg.
      pose proof (force_hi_aligned f Hf). pose proof (aligned_add _ _ R1 HLa). intuition lia. }
    destruct Hnext as [N1 N2]. erewrite bind_Some_eq by done.
    exists a, (upd_cursor (is_end_of_vm_reach s') (next_cursor (a + page_up len)) s').
    split; [done|]. split; [by apply vma_ok_cursor|]. right. apply room_found_cursor. by split_and!.
  - erewrite bind_Some_eq by done. rewrite Z.eqb_refl. erewrite bind_Some_eq by done.
    apply (alloc_result_cursor _ _ true (KERNEL_CHOOSE_START_ADDR T)).
    rewrite <- (page_up_id (page_up len)) at 1 by done.
    apply find_vma_ok; [by apply vma_ok_cursor|lia|done].
Qed.

Lemma find_vma_with_hint_ok s len hint :
  vma_ok s -> 0 < len <= 2 ^ 62 -> 0 <= hint < 2 ^ 64 -> (2 <= avail_of s)%nat ->
  alloc_result s (page_up len) (find_vma_with_hint len hint s).
Proof.
  intros Hok Hlen Hhint Hav. destruct (to_range HT) as (Hlo & Hhi & _).
  pose proof (page_up_bounds len) as HL. pose proof (page_up_aligned len) as HLa.
  unfold find_vma_with_hint. rewrite align_up_eq by (unfold PAGE_MASK, PAGE_SIZE; lia). cbv zeta.
  assert (Hfall : alloc_result s (page_up len) (find_vma (page_up len) s)).
  { rewrite <- (page_up_id (page_up len)) at 1 by done. apply find_vma_ok; [done|lia|done]. }
  destruct (Z.eqb_spec hint 0) as [E0|E0];
    [erewrite bind_Some_eq by done; by rewrite Z.eqb_refl|].
  rewrite align_down_eq by lia. set (h := hint - hint mod PAGE_SIZE).
  assert (Hha : aligned h) by apply aligned_sub_mod. clearbody h.
  unfold find_address_owner_without_assert. destruct (find_index (owns h) (vma_list s)) as [i|] eqn:Ei.
  - pose proof (find_index_Some _ _ _ Ei) as (p & d & q & El & Hi & Hh & _). apply owns_spec in Hh.
    destruct (desc_in_list s p d q Hok El) as (Hb & Hb' & Ha & _).
    assert (Hw : w64 (h + page_up len) = h + page_up len)
      by (apply wrap_small; unfold PAGE_SIZE in *; lia).
    rewrite Hw, align_up_eq, (page_up_id (h + page_up len)) by first [by apply aligned_add | unfold PAGE_MASK, PAGE_SIZE in *; lia].
    assert (Hlk : vma_list s !! i = Some d) by (rewrite El, Hi; by apply middle_lookup).
    destruct (bool_decide (vtype d = VMA_UNMAP) && (h + page_up len <=? end_addr d)) eqn:Er.
    + pose proof Er as Er'. apply andb_true_iff in Er' as [Hty%bool_decide_eq_true Hr%Z.leb_le].
      destruct (take_room s p d q h (page_up len) Hok El Hty) as (s' & E & Hok' & Hroom & _); try done; try lia.
      destruct (alloc_enomem_range _ _ _ _ Hroom Hhi ltac:(lia) ltac:(lia)) as [Hne _].
      rewrite Hw in E.
      erewrite bind_Some_eq.
      2:{ erewrite bind_Some_eq by (run_m; rewrite Ei; done). cbv beta iota.
          erewrite bind_Some_eq by (unfold get_desc; run_m; rewrite Hlk; done).
          rewrite Er. rewrite (bind_Some_eq _ _ _ _ _ E). done. }
      rewrite (proj2 (Z.eqb_neq _ _) Hne). exists h, s'. by split_and!; auto.
    + erewrite bind_Some_eq.
      2:{ erewrite bind_Some_eq by (run_m; rewrite Ei; done). cbv beta iota.
          erewrite bind_Some_eq by (unfold get_desc; run_m; rewrite Hlk; done).
          rewrite Er. done. }
      by rewrite Z.eqb_refl.
  - erewrite bind_Some_eq.
    2:{ erewrite bind_Some_eq by (run_m; rewrite Ei; done). done. }
    by rewrite Z.eqb_refl.
Qed.

(** ** Queries *)

(** [is_area_valid] answers 1 only for a mapped range, [is_area_unmap] only
    for an unmapped one; neither changes anything. *)
Lemma area_query s st en i d :
  vma_ok s -> find_index (owns (PAGE_ALIGN_DOWN st)) (vma_list s) = Some i -> vma_list s !! i = Some d ->
  0 <= st < 2 ^ 64 -> 0 <= en -> en + PAGE_MASK < 2 ^ 64 -> PAGE_ALIGN_UP en <= end_addr d ->
  forall a, st - st mod PAGE_SIZE <= a < page_up en -> owner (vma_list s) a = Some (vtype d).
Proof.
  intros Hok Ei Hd H1 H2 H3 Hle a Ha. rewrite align_up_eq in Hle by done.
  pose proof (find_index_Some _ _ _ Ei) as (p & d' & q & El & Hi & Hh & _). apply owns_spec in Hh.
  rewrite El, Hi, (middle_lookup p d' q) in Hd by done. injection Hd as ->.
  destruct (desc_in_list s p d q Hok El) as (_ & _ & _ & Hown). apply Hown.
  rewrite align_down_eq in Hh by done. lia.
Qed.

Lemma is_area_valid_sound s st en s' :
  vma_ok s -> 0 <= st < 2 ^ 64 -> 0 <= en -> en + PAGE_MASK < 2 ^ 64 ->
  is_area_valid st en s = Some (true, s') ->
  s' = s /\ forall a, st - st mod PAGE_SIZE <= a < page_up en -> owner (vma_list s) a = Some VMA_MAP.
Proof.
  intros Hok H1 H2 H3. unfold is_area_valid, find_address_owner_without_assert, get_desc. run_m.
  destruct (find_index _ _) as [i|] eqn:Ei; [|done].
  destruct (vma_list s !! i) as [d|] eqn:Ed; [|done]. intros [= E <-].
  apply andb_true_iff in E as [Hty%bool_decide_eq_true Hle%Z.leb_le].
  split; [done|]. rewrite <- Hty. by eapply area_query.
Qed.

Lemma is_area_unmap_sound s st en s' :
  vma_ok s -> 0 <= st < 2 ^ 64 -> 0 <= en -> en + PAGE_MASK < 2 ^ 64 ->
  is_area_unmap st en s = Some (true, s') ->
  s' = s /\ forall a, st - st mod PAGE_SIZE <= a < page_up en -> owner (vma_list s) a = Some VMA_UNMAP.
Proof.
  intros Hok H1 H2 H3. unfold is_area_unmap, find_address_owner, find_address_owner_without_assert, get_desc.
  run_m. destruct (find_index _ _) as [i|] eqn:Ei; [|done].
  destruct (vma_list s !! i) as [d|] eqn:Ed; [|done]. intros [= E <-].
  apply andb_true_iff in E as [Hty%bool_decide_eq_true Hle%Z.leb_le].
  split; [done|]. rewrite <- Hty. by eapply area_query.
Qed.
End ops.
