(* ===== verification/VmaKernel.v ===== *)
(** * The descriptor list against the kernel

    The documented behaviour of the kernel's [mmap] with [MAP_FIXED] and of
    [munmap] as laws of a class; [mmap] and [munmap] of Vma.v then keep the
    list equal to what the kernel has mapped and never hand out memory in use.
    A failed [mmap] with [MAP_FIXED] may have removed the mappings of its
    range: when the guest asked for it, the list goes on saying they are
    there, and the agreement is but for these pages; when the code did, it is
    shown that there was nothing to lose. *)

From S2P Require Import Prelude Vma VmaList VmaOps.

Definition within (a e x : Z) : bool := (a <=? x) && (x <? e).
Definition page_down (a : Z) : Z := a - a mod PAGE_SIZE.

(** What the code relies on.  [mmap] with [MAP_FIXED] maps whole pages at the
    address given, or fails: then nothing new is mapped and nothing outside of
    the pages of the range has changed, but what was mapped there may be lost.
    [munmap] fails without effect, or unmaps whole pages. *)
Class KernelLaws (K : Kernel) := {
  mapped : kstate -> Z -> bool;
  mmap_law : forall addr len prot flags fd off k r k',
    sys_mmap addr len prot flags fd off k = (r, k') -> Z.land flags MAP_FIXED <> 0 ->
    is_syscall_error r = true /\ (forall x, mapped k' x = true -> mapped k x = true) /\
      (forall x, within (page_down addr) (page_up (addr + len)) x = false -> mapped k' x = mapped k x) \/
    r = addr /\ aligned addr /\ 0 < len /\ 0 <= addr /\ addr + len <= 2 ^ 47 /\
    (forall x, mapped k' x = (addr <=? x) && (x <? page_up (addr + len)) || mapped k x);
  munmap_law : forall addr len k r k',
    sys_munmap addr len k = (r, k') ->
    is_syscall_error r = true /\ (forall x, mapped k' x = mapped k x) \/
    r = 0 /\ aligned addr /\ 0 < len /\ 0 <= addr /\ addr + len <= 2 ^ 47 /\
    (forall x, mapped k' x = negb ((addr <=? x) && (x <? page_up (addr + len))) && mapped k x)
}.

Section kernel.
Context {K : Kernel} {HK : KernelLaws K} (T : target) (lo hi top : Z).
Context (HT : target_ok T lo hi).

(** The rest of what the two targets satisfy; [top] is where the range that
    agrees with the kernel ends (above is the block that only closes the list). *)
Record offset_ok : Prop := {
  oo_range : 0 <= init_mmap_offset T < 2 ^ 32 /\ aligned (init_mmap_offset T);
  oo_bits : hi <= 2 ^ guest_ptr_bits T /\ 0 <= guest_ptr_bits T <= 64;
  oo_top : lo <= top <= hi
}.
Context (HO : offset_ok).

(** What the kernel has mapped the list says mapped, and the converse but for
    the addresses of [lost], in the ranges of failed fixed requests. *)
Definition agrees (lost : Z -> bool) (s : mm) : Prop :=
  forall x, lo <= x < top ->
    (mapped (kernel s) (x + mmap_offset s) = true -> owner (vma_list s) x = Some VMA_MAP) /\
    (owner (vma_list s) x = Some VMA_MAP -> lost x = false -> mapped (kernel s) (x + mmap_offset s) = true).

Definition lose (a e : Z) (lost : Z -> bool) (x : Z) : bool := within a e x || lost x.
Definition regain (a e : Z) (lost : Z -> bool) (x : Z) : bool := negb (within a e x) && lost x.

Record mm_ok (lost : Z -> bool) (s : mm) : Prop := {
  mo_vma : vma_ok lo hi s;
  mo_init : is_init s = true;
  mo_offset : mmap_offset s = init_mmap_offset T;
  mo_agrees : agrees lost s
}.

Lemma agrees_weaken lost lost' s : (forall x, lost x = true -> lost' x = true) -> agrees lost s -> agrees lost' s.
Proof.
  intros Hl Hag x Hx. destruct (Hag x Hx) as [H1 H2]. split; [done|]. intros Ho Hlx. apply H2; [done|].
  destruct (lost x) eqn:E; [|done]. apply Hl in E. congruence.
Qed.

Lemma mm_ok_weaken lost lost' s : (forall x, lost x = true -> lost' x = true) -> mm_ok lost s -> mm_ok lost' s.
Proof. intros Hl [? ? ? ?]. constructor; try done. by eapply agrees_weaken. Qed.

(** All descriptors that exist: in the list, free, or in the next page. *)
Definition desc_count (s : mm) : nat := (avail_of s + length (vma_list s))%nat.

(** The effect of a call: the invariant, the new function, no descriptor lost,
    at most [n] of the free ones used. *)
Record call_effect (lost : Z -> bool) (n : nat) (s s' : mm) (own : Z -> option vma_type) : Prop := {
  ce_ok : mm_ok lost s';
  ce_owner : forall a, owner (vma_list s') a = own a;
  ce_ongoing : ongoing_vma_list s' = ongoing_vma_list s;
  ce_count : desc_count s' = desc_count s;
  ce_avail : (avail_of s <= avail_of s' + n)%nat
}.

Lemma host_addr a : 0 <= a < hi -> w64 (a + init_mmap_offset T) = a + init_mmap_offset T.
Proof.
  intros Ha. destruct (oo_range HO). destruct (to_range _ _ _ HT) as (? & ? & _).
  apply wrap_small. lia.
Qed.

Lemma vma_ok_kernel s k : vma_ok lo hi s -> vma_ok lo hi (upd_kernel k s).
Proof. intros [? ? ? ?]. by constructor. Qed.

Lemma step_avail s s' own : vma_step s s' own -> desc_count s' = desc_count s /\ (avail_of s <= avail_of s' + 2)%nat.
Proof. intros [_ _ Hc Hl]. unfold desc_count. lia. Qed.

Lemma host_end a len : page_up (a + init_mmap_offset T + len) = page_up (a + len) + init_mmap_offset T.
Proof.
  destruct (oo_range HO) as [_ Ha].
  replace (a + init_mmap_offset T + len) with (init_mmap_offset T + (a + len)) by lia.
  rewrite page_up_add by done. lia.
Qed.

(** The end address the calls compute, when nothing wraps. *)
Lemma align_end a len : 0 <= a -> 0 <= len -> a + len < 2 ^ 63 ->
  PAGE_ALIGN_UP (w64 (a + len)) = page_up (a + len).
Proof.
  intros. unfold w64. rewrite wrap_small by lia.
  apply align_up_eq; unfold PAGE_MASK, PAGE_SIZE; lia.
Qed.

Lemma within_spec a e x : within a e x = true <-> a <= x < e.
Proof. unfold within. rewrite andb_true_iff, Z.leb_le, Z.ltb_lt. done. Qed.

Lemma within_false a e x : within a e x = false <-> ~ a <= x < e.
Proof. rewrite <- within_spec. by destruct (within a e x). Qed.

Lemma page_down_aligned a : aligned a -> page_down a = a.
Proof. unfold aligned, page_down. lia. Qed.

Lemma page_down_add a n : aligned n -> page_down (a + n) = page_down a + n.
Proof. unfold aligned, page_down, PAGE_SIZE. intros H. Z.div_mod_to_equations. lia. Qed.

(** Mapping in the kernel and in the list together. *)
Lemma agrees_map lost s k s' a e b :
  agrees lost s -> mmap_offset s' = mmap_offset s -> kernel s' = k ->
  (forall x, mapped k x = (a + mmap_offset s <=? x) && (x <? e + mmap_offset s) || mapped (kernel s) x) ->
  (forall x, owner (vma_list s') x = set_range a e VMA_MAP b x) ->
  (forall x, lo <= x < top -> ~ a <= x < e -> b x = owner (vma_list s) x) ->
  agrees (regain a e lost) s'.
Proof.
  intros Hag Hoff Hk Hm Ho Hb x Hx. rewrite Hoff, Hk, Hm, Ho. unfold set_range, regain.
  specialize (Hag x Hx). fold (within a e x). destruct (within a e x) eqn:Hin.
  - apply within_spec in Hin. by rewrite !(proj2 (Z.leb_le _ _)), !(proj2 (Z.ltb_lt _ _)) by lia.
  - apply within_false in Hin. rewrite Hb by done. cbn [negb andb].
    replace ((a + mmap_offset s <=? x + mmap_offset s) && (x + mmap_offset s <? e + mmap_offset s)) with false; [done|].
    symmetry. apply (within_false (a + mmap_offset s) (e + mmap_offset s)). lia.
Qed.

Lemma agrees_unmap lost s k s' a e :
  agrees lost s -> mmap_offset s' = mmap_offset s -> kernel s' = k ->
  (forall x, mapped k x = negb ((a + mmap_offset s <=? x) && (x <? e + mmap_offset s)) && mapped (kernel s) x) ->
  (forall x, owner (vma_list s') x = set_range a e VMA_UNMAP (owner (vma_list s)) x) ->
  agrees (regain a e lost) s'.
Proof.
  intros Hag Hoff Hk Hm Ho x Hx. rewrite Hoff, Hk, Hm, Ho. unfold set_range, regain.
  specialize (Hag x Hx). fold (within a e x). destruct (within a e x) eqn:Hin.
  - apply within_spec in Hin. by rewrite !(proj2 (Z.leb_le _ _)), !(proj2 (Z.ltb_lt _ _)) by lia.
  - apply within_false in Hin. cbn [negb andb].
    replace ((a + mmap_offset s <=? x + mmap_offset s) && (x + mmap_offset s <? e + mmap_offset s)) with false; [done|].
    symmetry. apply (within_false (a + mmap_offset s) (e + mmap_offset s)). lia.
Qed.

(** A failed mapping: of a range the list goes on saying mapped, or of one it
    says is not. *)
Lemma agrees_lose lost s k s' a e :
  agrees lost s -> mmap_offset s' = mmap_offset s -> kernel s' = k ->
  (forall x, mapped k x = true -> mapped (kernel s) x = true) ->
  (forall x, within (a + mmap_offset s) (e + mmap_offset s) x = false -> mapped k x = mapped (kernel s) x) ->
  (forall x, owner (vma_list s') x = owner (vma_list s) x) ->
  agrees (lose a e lost) s'.
Proof.
  intros Hag Hoff Hk Hm Hout Ho x Hx. rewrite Hoff, Hk, Ho. destruct (Hag x Hx) as [H1 H2].
  split; [intros H; by apply H1, Hm|]. intros Hmap [Hin Hl]%orb_false_iff. rewrite Hout; [by apply H2|].
  apply within_false in Hin. apply within_false. lia.
Qed.

Lemma agrees_fail lost s k s' a e :
  agrees lost s -> mmap_offset s' = mmap_offset s -> kernel s' = k ->
  (forall x, mapped k x = true -> mapped (kernel s) x = true) ->
  (forall x, within (a + mmap_offset s) (e + mmap_offset s) x = false -> mapped k x = mapped (kernel s) x) ->
  (forall x, owner (vma_list s') x = owner (vma_list s) x) ->
  (forall x, a <= x < e -> owner (vma_list s) x <> Some VMA_MAP) ->
  agrees lost s'.
Proof.
  intros Hag Hoff Hk Hm Hout Ho Hfree x Hx. rewrite Hoff, Hk, Ho. destruct (Hag x Hx) as [H1 H2].
  split; [intros H; by apply H1, Hm|]. intros Hmap Hl. rewrite Hout; [by apply H2|].
  apply within_false. intros Hin. by apply (Hfree x); [lia|].
Qed.

(** ** munmap *)

Lemma internal_munmap_ok lost s a len :
  mm_ok lost s -> (2 <= avail_of s)%nat -> 0 <= len < 2 ^ 62 -> lo <= a -> page_up (a + len) < hi ->
  exists r s', internal_munmap T a len s = Some (r, s') /\
    (is_syscall_error r = true /\ call_effect lost 2 s s' (owner (vma_list s)) \/
     r = 0 /\ call_effect (regain a (page_up (a + len)) lost) 2 s s' (set_range a (page_up (a + len)) VMA_UNMAP (owner (vma_list s)))).
Proof.
  intros [Hv Hi Hoff Hag] Hav Hlen Ha He. pose proof (to_range _ _ _ HT) as (Hlo & Hhi & _).
  pose proof (page_up_bounds (a + len)) as HL. destruct (oo_range HO) as [Hor Hoa].
  unfold internal_munmap, init_if_needed.
  erewrite bind_Some_eq by (run_m; rewrite Hi; done).
  erewrite bind_Some_eq by (unfold g_2_h; run_m; rewrite Hoff, host_addr by lia; done).
  destruct (sys_munmap (a + init_mmap_offset T) len (kernel s)) as [r k] eqn:Ek.
  erewrite bind_Some_eq by (unfold syscall; run_m; rewrite Ek; done).
  destruct (munmap_law _ _ _ _ _ Ek) as [[Herr Hm]|(-> & Hal & Hl & _ & _ & Hm)].
  - rewrite Herr. erewrite bind_Some_eq by done. exists r, (upd_kernel k s). split; [done|].
    left. split; [done|]. constructor; try done; [|change (avail_of (upd_kernel k s)) with (avail_of s); lia].
    constructor; try done; [by apply vma_ok_kernel|]. intros x Hx. cbn. rewrite Hm. by apply Hag.
  - cbn [is_syscall_error Z.ltb Z.compare andb].
    assert (Haa : aligned a).
    { rewrite <- (Z.add_simpl_r a (init_mmap_offset T)). by apply aligned_sub. }
    destruct (insert_area_mm lo hi (upd_kernel k s) a (page_up (a + len)) VMA_UNMAP)
      as (s' & E & Hv' & Hstep & _); try done; try lia; [by apply vma_ok_kernel|apply page_up_aligned|].
    unfold insert_unmap_area. rewrite align_end by lia. rewrite (bind_Some_eq _ _ _ _ _ E).
    exists 0, s'. split; [done|]. right. split; [done|].
    pose proof (step_avail _ _ _ Hstep) as [Hc Hav']. destruct Hstep as [Hf Ho _ _].
    constructor; [|done|by rewrite (fr_ongoing _ _ Hf)|done|done].
    constructor; [done|by rewrite (fr_init _ _ Hf)|by rewrite (fr_offset _ _ Hf)|].
    apply (agrees_unmap lost s k s' a (page_up (a + len))); try done;
      [by rewrite (fr_offset _ _ Hf)|by rewrite (fr_kernel _ _ Hf)|].
    intros x. by rewrite Hm, Hoff, host_end.
Qed.

(** ** mmap *)

Definition is_fixed (addr flags : Z) : bool :=
  negb (addr =? 0) && negb (Z.land (to_signed 32 flags) MAP_FIXED =? 0).

(** What a successful or failed mmap is.  Failed at a fixed address, the list is
    as it was and the pages of the range may be lost. *)
Definition mmap_outcome (lost : Z -> bool) (s s' : mm) (addr len flags r : Z) : Prop :=
  is_syscall_error r = true /\
    call_effect (if is_fixed addr flags then lose (page_down addr) (page_up (addr + len)) lost else lost)
      4 s s' (owner (vma_list s)) \/
  lo <= r /\ page_up (r + len) < hi /\ aligned r /\
    call_effect (regain r (page_up (r + len)) lost) 4 s s' (set_range r (page_up (r + len)) VMA_MAP (owner (vma_list s))) /\
    if is_fixed addr flags then r = addr
    else forall x, r <= x < page_up (r + len) -> owner (vma_list s) x = Some VMA_UNMAP.

Lemma ret_guest_addr s a :
  mmap_offset s = init_mmap_offset T -> 0 < a < hi ->
  ret_guest T (a + init_mmap_offset T) s = Some (a, s).
Proof.
  intros Hoff Ha. destruct (oo_range HO). destruct (oo_bits HO). destruct (to_range _ _ _ HT) as (? & ? & _).
  unfold ret_guest. run_m. rewrite Hoff.
  assert (Hw : w64 (a + init_mmap_offset T) = a + init_mmap_offset T) by (apply wrap_small; lia).
  rewrite Hw, Z.add_simpl_r.
  replace (is_syscall_error (a + init_mmap_offset T)) with false
    by (symmetry; apply andb_false_iff; left; apply Z.ltb_ge; lia).
  rewrite wrap_small by lia. unfold to_signed. rewrite wrap_small by lia.
  by rewrite (proj2 (Z.ltb_lt _ _)) by lia.
Qed.

Lemma ret_guest_error s r : is_syscall_error r = true -> ret_guest T r s = Some (r, s).
Proof. intros H. unfold ret_guest. run_m. by rewrite H. Qed.

Lemma lor_fixed flags : Z.land (Z.lor flags MAP_FIXED) MAP_FIXED <> 0.
Proof. rewrite Z.land_comm, Z.lor_comm, Z.land_lor_distr_r, Z.land_diag.
  intros H%Z.lor_eq_0_l. done. Qed.

Lemma mmap_syscall_run addr len prot flags fd off s :
  Z.land flags MAP_FIXED <> 0 ->
  mmap_syscall addr len prot flags fd off s =
    let '(r, k) := sys_mmap addr len prot flags fd off (kernel s) in Some (r, upd_kernel k s).
Proof.
  intros Hf. unfold mmap_syscall, syscall. run_m. rewrite (proj2 (Z.eqb_neq _ _) Hf). cbn [negb].
  by destruct (sys_mmap _ _ _ _ _ _ _).
Qed.

(** A fixed mapping: the kernel first, then the list. *)
Lemma mmap_fixed_ok lost s addr len prot flags fd off :
  mm_ok lost s -> (4 <= avail_of s)%nat -> 0 <= len < 2 ^ 62 -> lo <= addr -> page_up (addr + len) < hi ->
  is_fixed addr flags = true ->
  exists r s', internal_mmap T addr len prot flags fd off s = Some (r, s') /\
    mmap_outcome lost s s' addr len flags r.
Proof.
  intros [Hv Hi Hoff Hag] Hav Hlen Ha He Hfx. pose proof (to_range _ _ _ HT) as (Hlo & Hhi & _).
  pose proof (page_up_bounds (addr + len)) as HL. destruct (oo_range HO) as [Hor Hoa].
  pose proof Hfx as Hfx'. apply andb_true_iff in Hfx' as [_ Hfl%negb_true_iff%Z.eqb_neq].
  unfold internal_mmap, init_if_needed. erewrite bind_Some_eq by (run_m; rewrite Hi; done).
  fold (is_fixed addr flags). rewrite Hfx.
  destruct (sys_mmap (addr + init_mmap_offset T) len (to_signed 32 prot) (to_signed 32 flags)
              (to_signed 32 fd) (to_signed 64 off) (kernel s)) as [r k] eqn:Ek.
  destruct (mmap_law _ _ _ _ _ _ _ _ _ Ek Hfl) as [(Herr & Hm & Hmo)|(-> & Hal & Hl & _ & _ & Hm)].
  - erewrite bind_Some_eq.
    2:{ erewrite bind_Some_eq by (unfold g_2_h; run_m; rewrite Hoff, host_addr by lia; done).
        erewrite bind_Some_eq by (rewrite mmap_syscall_run, Ek by done; done).
        rewrite Herr. erewrite bind_Some_eq by done. done. }
    rewrite ret_guest_error by done. exists r, (upd_kernel k s). split; [done|]. left. split; [done|]. rewrite Hfx.
    constructor; try done; [|change (avail_of (upd_kernel k s)) with (avail_of s); lia].
    constructor; try done; [by apply vma_ok_kernel|].
    apply (agrees_lose lost s k); try done. rewrite Hoff, <- page_down_add, <- host_end by done. exact Hmo.
  - assert (Haa : aligned addr).
    { rewrite <- (Z.add_simpl_r addr (init_mmap_offset T)). by apply aligned_sub. }
    destruct (insert_area_mm lo hi (upd_kernel k s) addr (page_up (addr + len)) VMA_MAP)
      as (s' & E & Hv' & Hstep & _); try done; try lia;
      [by apply vma_ok_kernel|apply page_up_aligned|change (avail_of (upd_kernel k s)) with (avail_of s); lia|].
    pose proof (step_avail _ _ _ Hstep) as [Hc Hav']. destruct Hstep as [Hf Ho _ _].
    change (avail_of (upd_kernel k s)) with (avail_of s) in Hav'.
    erewrite bind_Some_eq.
    2:{ erewrite bind_Some_eq by (unfold g_2_h; run_m; rewrite Hoff, host_addr by lia; done).
        erewrite bind_Some_eq by (rewrite mmap_syscall_run, Ek by done; done).
        replace (is_syscall_error (addr + init_mmap_offset T)) with false
          by (symmetry; apply andb_false_iff; left; apply Z.ltb_ge; lia).
        unfold insert_map_area. rewrite align_end, (bind_Some_eq _ _ _ _ _ E) by lia. done. }
    rewrite ret_guest_addr by (rewrite ?(fr_offset _ _ Hf); done || lia).
    exists addr, s'. split; [done|]. right. split; [done|]. split; [done|]. split; [done|].
    rewrite Hfx. split; [|done].
    constructor; [|done|by rewrite (fr_ongoing _ _ Hf)|done|lia].
    constructor; [done|by rewrite (fr_init _ _ Hf)|by rewrite (fr_offset _ _ Hf)|].
    apply (agrees_map lost s k s' addr (page_up (addr + len)) (owner (vma_list s))); try done;
      [by rewrite (fr_offset _ _ Hf)|by rewrite (fr_kernel _ _ Hf)|].
    intros x. by rewrite Hm, Hoff, host_end.
Qed.

Lemma mm_ok_same lost s s' :
  mm_ok lost s -> vma_ok lo hi s' -> frame s s' -> (forall x, owner (vma_list s') x = owner (vma_list s) x) -> mm_ok lost s'.
Proof.
  intros [Hv Hi Hoff Hag] Hv' Hf Ho. constructor; [done|by rewrite (fr_init _ _ Hf)|by rewrite (fr_offset _ _ Hf)|].
  intros x Hx. rewrite (fr_kernel _ _ Hf), (fr_offset _ _ Hf), Ho. by apply Hag.
Qed.

(** The part of [internal_mmap] after room was found at [a]. *)
Definition map_found (a len prot flags fd off : Z) : stM mm Z :=
  addr ← g_2_h a;
  if a =? ENOMEM_64 then mret (to_signed 64 a)
  else
    res ← mmap_syscall addr len prot (Z.lor flags MAP_FIXED) fd off;
    s ← get_state;
    _ ← (if is_syscall_error res then insert_unmap_area a (PAGE_ALIGN_UP (w64 (a + len)))
         else if is_end_of_vm_reach s && negb (Z.land prot PROT_EXEC =? 0) then modify_state upd_clean
         else mret tt);
    mret res.

Lemma map_found_ok lost s s1 a len prot flags fd off :
  mm_ok lost s -> (4 <= avail_of s)%nat -> 0 < len <= 2 ^ 62 -> vma_ok lo hi s1 ->
  room_found lo hi s s1 (page_up len) a ->
  exists r s2, map_found a len prot flags fd off s1 = Some (r, s2) /\ mmap_offset s2 = init_mmap_offset T /\
    (is_syscall_error r = true /\ call_effect lost 4 s s2 (owner (vma_list s)) \/
     r = a + init_mmap_offset T /\ 0 < a < hi /\
     call_effect (regain a (page_up (a + len)) lost) 4 s s2 (set_range a (page_up (a + len)) VMA_MAP (owner (vma_list s)))).
Proof.
  intros Hok Hav Hlen Hv1 Hroom. pose proof (to_range _ _ _ HT) as (Hlo & Hhi & _).
  pose proof (page_up_bounds len) as HL.
  destruct (alloc_enomem_range _ _ _ _ _ _ Hroom Hhi ltac:(lia) ltac:(lia)) as [Hne Hrange].
  destruct Hroom as (Hal & Ha1 & Ha2 & Hfree & Hstep). rewrite <- page_up_add in * by done.
  pose proof (step_avail _ _ _ Hstep) as [Hc Hav1]. destruct Hstep as [Hf Ho _ _].
  destruct Hok as [Hv Hi Hoff Hag]. pose proof (fr_offset _ _ Hf) as Hoff1. rewrite Hoff in Hoff1.
  pose proof (page_up_add a len Hal) as Hpa.
  unfold map_found.
  erewrite bind_Some_eq by (unfold g_2_h; run_m; rewrite Hoff1, host_addr by lia; done).
  rewrite (proj2 (Z.eqb_neq _ _) Hne).
  destruct (sys_mmap (a + init_mmap_offset T) len prot (Z.lor flags MAP_FIXED) fd off (kernel s1)) as [r k] eqn:Ek.
  erewrite bind_Some_eq by (rewrite mmap_syscall_run, Ek by apply lor_fixed; done).
  erewrite bind_Some_eq by done.
  pose proof (mmap_law _ _ _ _ _ _ _ _ _ Ek (lor_fixed _)) as Hlaw. rewrite (fr_kernel _ _ Hf) in Hlaw.
  destruct Hlaw as [(Herr & Hm & Hmo)|(-> & _ & _ & _ & _ & Hm)].
  - rewrite Herr.
    destruct (insert_area_mm lo hi (upd_kernel k s1) a (page_up (a + len)) VMA_UNMAP)
      as (s2 & E & Hv2 & Hstep2 & _); try done; try lia;
      [by apply vma_ok_kernel|apply page_up_aligned|change (avail_of (upd_kernel k s1)) with (avail_of s1); lia|].
    pose proof (step_avail _ _ _ Hstep2) as [Hc2 Hav2]. destruct Hstep2 as [Hf2 Ho2 _ _].
    change (avail_of (upd_kernel k s1)) with (avail_of s1) in Hav2.
    change (desc_count (upd_kernel k s1)) with (desc_count s1) in Hc2.
    assert (Hback : forall x, owner (vma_list s2) x = owner (vma_list s) x).
    { intros x. rewrite Ho2. cbn. unfold set_range at 1.
      destruct (Z.leb_spec a x), (Z.ltb_spec x (page_up (a + len))); cbn [andb]; try rewrite Hfree by lia; try done;
        rewrite Ho; unfold set_range; destruct (Z.leb_spec a x), (Z.ltb_spec x (page_up (a + len))); try lia; done. }
    unfold insert_unmap_area. rewrite align_end by lia. rewrite (bind_Some_eq _ _ _ _ _ E).
    exists r, s2. split; [done|]. split; [by rewrite (fr_offset _ _ Hf2)|]. left. split; [done|].
    constructor; [|done|by rewrite (fr_ongoing _ _ Hf2), <- (fr_ongoing _ _ Hf)|congruence|lia].
    constructor; [done|by rewrite (fr_init _ _ Hf2), <- Hi, <- (fr_init _ _ Hf)|by rewrite (fr_offset _ _ Hf2)|].
    apply (agrees_fail lost s k s2 a (page_up (a + len))); try done; [by rewrite (fr_offset _ _ Hf2), Hoff|by rewrite (fr_kernel _ _ Hf2)| |].
    + rewrite Hoff, <- host_end.
      rewrite (page_down_aligned (a + init_mmap_offset T)) in Hmo by (apply aligned_add; [done|apply (oo_range HO)]).
      exact Hmo.
    + intros x Hx. by rewrite Hfree by lia.
  - assert (Hne2 : is_syscall_error (a + init_mmap_offset T) = false)
      by (destruct (oo_range HO); apply andb_false_iff; left; apply Z.ltb_ge; lia).
    rewrite Hne2.
    assert (Hfin : forall s2, s2 = upd_kernel k s1 \/ s2 = upd_clean (upd_kernel k s1) ->
      mmap_offset s2 = init_mmap_offset T /\
      call_effect (regain a (page_up (a + len)) lost) 4 s s2 (set_range a (page_up (a + len)) VMA_MAP (owner (vma_list s)))).
    { intros s2 Hs2. assert (Heq : vma_list s2 = vma_list s1 /\ avail_of s2 = avail_of s1 /\ is_init s2 = is_init s1 /\
        mmap_offset s2 = mmap_offset s1 /\ ongoing_vma_list s2 = ongoing_vma_list s1 /\ kernel s2 = k /\
        kernel_cursor s2 = kernel_cursor s1) by (destruct Hs2 as [-> | ->]; done).
      destruct Heq as (E1 & E2 & E3 & E4 & E5 & E6 & E7). split; [congruence|].
      constructor; [|by rewrite E1|by rewrite E5, (fr_ongoing _ _ Hf)|unfold desc_count in *; congruence|lia].
      constructor; [|by rewrite E3, (fr_init _ _ Hf)|congruence|].
      - destruct Hv1 as [? ? ? ?]. constructor; by rewrite ?E1, ?E7.
      - apply (agrees_map lost s k s2 a (page_up (a + len)) (owner (vma_list s))); try done; [congruence| |by rewrite E1].
        intros x. by rewrite Hm, Hoff, host_end. }
    destruct (is_end_of_vm_reach (upd_kernel k s1) && _);
      (erewrite bind_Some_eq by done); eexists _, _; (split; [done|]);
      match goal with |- mmap_offset ?s2 = _ /\ _ => destruct (Hfin s2) as [H1 H2]; [by auto|] end;
      (split; [done|]); right; split_and!; try done; lia.
Qed.

(** The address is chosen, freely or from a hint. *)
Lemma mmap_free_ok lost s addr len prot flags fd off :
  mm_ok lost s -> (4 <= avail_of s)%nat -> 0 < len <= 2 ^ 62 -> 0 <= addr < 2 ^ 64 ->
  is_fixed addr flags = false ->
  exists r s', internal_mmap T addr len prot flags fd off s = Some (r, s') /\
    mmap_outcome lost s s' addr len flags r.
Proof.
  intros Hok Hav Hlen Ha Hfx. pose proof (to_range _ _ _ HT) as (Hlo & Hhi & _).
  assert (Hfind : alloc_result lo hi s (page_up len)
            ((if addr =? 0 then find_vma_with_kernel_choose T len else find_vma_with_hint len addr) s)).
  { destruct (addr =? 0);
      [apply (find_vma_with_kernel_choose_ok T)|apply (find_vma_with_hint_ok T)]; first [by eapply mo_vma|lia|done]. }
  destruct Hfind as (a & s1 & Efind & Hv1 & Hres).
  unfold internal_mmap, init_if_needed. erewrite bind_Some_eq by (run_m; rewrite (mo_init _ _ Hok); done).
  fold (is_fixed addr flags). rewrite Hfx.
  match goal with |- exists r s', (?m ≫= _) s = _ /\ _ =>
    assert (Em : m s = map_found a len (to_signed 32 prot) (to_signed 32 flags) (to_signed 32 fd) (to_signed 64 off) s1)
      by (rewrite (bind_Some_eq _ _ _ _ _ Efind); done) end.
  destruct Hres as [[-> (Hl & Hf & Havs)]|Hroom].
  - assert (E : map_found ENOMEM_64 len (to_signed 32 prot) (to_signed 32 flags) (to_signed 32 fd)
                  (to_signed 64 off) s1 = Some (- ENOMEM, s1)) by done.
    rewrite E in Em. rewrite (bind_Some_eq _ _ _ _ _ Em), ret_guest_error by done.
    exists (- ENOMEM), s1. split; [done|]. left. split; [done|]. rewrite Hfx.
    constructor; [|by rewrite Hl|by apply fr_ongoing|unfold desc_count; by rewrite Hl, Havs|lia].
    apply (mm_ok_same lost s); try done. by rewrite Hl.
  - destruct (map_found_ok lost s s1 a len (to_signed 32 prot) (to_signed 32 flags) (to_signed 32 fd)
                (to_signed 64 off) Hok Hav Hlen Hv1 Hroom) as (r & s2 & E & Hoff2 & Hout).
    rewrite E in Em. rewrite (bind_Some_eq _ _ _ _ _ Em).
    destruct Hout as [[Herr Hce]|(-> & Hra & Hce)].
    + rewrite ret_guest_error by done. exists r, s2. split; [done|]. left. by rewrite Hfx.
    + rewrite ret_guest_addr by done. exists a, s2. split; [done|]. right.
      destruct Hroom as (Hal & H1 & H2 & Hfree & _). pose proof (page_up_add a len Hal).
      split_and!; try done; try lia. rewrite Hfx. intros x Hx. apply Hfree. lia.
Qed.
End kernel.
