(* ===== verification/VmaSignal.v ===== *)
(** * Mappings made in signal handlers

    [internal_mmap_signal] takes memory from a cursor that it reads and writes
    without a lock, so calls of several threads, or of handlers one on top of
    the other, interleave.  Here each of its accesses is a step of its own; the
    steps of one call taken together are the function of Vma.v; the calls of
    an interleaving get disjoint memory as long as at most one of them is
    between its read of the cursor and its write. *)

From S2P Require Import Prelude Vma VmaList VmaOps VmaKernel.

Record signal_request := mkRequest { q_length : Z; q_prot : Z; q_flags : Z; q_fd : Z; q_offset : Z }.

(** Where a call is: before it starts, before its read of the cursor by
    [signal_cursor += length], before the write of that statement, before the
    assertion, before the system call, back with a result. *)
Inductive signal_phase :=
| SigStart (q : signal_request)
| SigRead (q : signal_request) (addr : Z)
| SigStore (q : signal_request) (addr cursor : Z)
| SigCheck (q : signal_request) (addr : Z)
| SigCall (q : signal_request) (addr : Z)
| SigDone (q : signal_request) (res : Z).

(** Between the first read and the write. *)
Definition bumping (p : signal_phase) : bool :=
  match p with SigRead _ _ | SigStore _ _ _ => true | _ => false end.

Fixpoint exclusive (ps : list signal_phase) : bool :=
  match ps with
  | [] => true
  | p :: ps => (if bumping p then forallb (fun p => negb (bumping p)) ps else true) && exclusive ps
  end.

Section signals.
Context `{K : Kernel} (T : target).

(** One access of a call. *)
Definition signal_step (p : signal_phase) : stM mm signal_phase :=
  match p with
  | SigStart q =>
      if negb (Z.land (to_signed 32 (q_flags q)) MAP_FIXED =? 0)
      then r ← ret_guest T (- EINVAL); mret (SigDone q r)
      else s ← get_state; mret (SigRead q (signal_cursor s))
  | SigRead q addr => s ← get_state; mret (SigStore q addr (signal_cursor s))
  | SigStore q addr cursor =>
      _ ← modify_state (upd_signal (w64 (cursor + PAGE_ALIGN_UP (q_length q)))); mret (SigCheck q addr)
  | SigCheck q addr =>
      s ← get_state;
      _ ← c_assert (signal_cursor s <? MAPPING_RESERVE_IN_SIGNAL_END T);
      mret (SigCall q addr)
  | SigCall q addr =>
      h ← g_2_h addr;
      r ← mmap_syscall h (PAGE_ALIGN_UP (q_length q)) (to_signed 32 (q_prot q))
            (Z.lor (to_signed 32 (q_flags q)) MAP_FIXED) (to_signed 32 (q_fd q)) (to_signed 64 (q_offset q));
      r ← ret_guest T r;
      mret (SigDone q r)
  | SigDone q r => mret (SigDone q r)
  end.

Fixpoint alone (n : nat) (p : signal_phase) : stM mm signal_phase :=
  match n with
  | O => mret p
  | S n => p ← signal_step p; alone n p
  end.

(** A call that no other interrupts. *)
Lemma signal_alone q s :
  alone 5 (SigStart q) s =
  (r ← internal_mmap_signal T (q_length q) (q_prot q) (q_flags q) (q_fd q) (q_offset q); mret (SigDone q r)) s.
Proof.
  destruct q as [len prot flags fd off]. unfold internal_mmap_signal. cbn [alone q_length q_prot q_flags q_fd q_offset].
  destruct (negb (Z.land (to_signed 32 flags) MAP_FIXED =? 0)) eqn:Ef.
  { erewrite bind_Some_eq by (cbn [signal_step q_flags]; rewrite Ef; reflexivity). done. }
  erewrite bind_Some_eq by (cbn [signal_step q_flags]; rewrite Ef; reflexivity).
  erewrite bind_Some_eq by reflexivity. erewrite bind_Some_eq by reflexivity.
  cbn [signal_step q_length q_prot q_flags q_fd q_offset]. run_m. cbn [signal_cursor upd_signal].
  destruct (w64 (signal_cursor s + PAGE_ALIGN_UP len) <? MAPPING_RESERVE_IN_SIGNAL_END T); [|done].
  cbn [signal_step q_length q_prot q_flags q_fd q_offset]. unfold mmap_syscall, g_2_h. run_m.
  destruct (negb (Z.land (Z.lor (to_signed 32 flags) MAP_FIXED) MAP_FIXED =? 0)); [|done].
  unfold syscall. run_m. destruct (sys_mmap _ _ _ _ _ _ _). done.
Qed.

(** ** Any number of calls *)

Definition calls_step (i : nat) (st : mm * list signal_phase) : option (mm * list signal_phase) :=
  p ← st.2 !! i;
  '(p', s) ← signal_step p st.1;
  Some (s, <[i := p']> st.2).

(** The calls move in the order of the schedule; [None] when one of them stops
    the process. *)
Fixpoint run_signals (sched : list nat) (st : mm * list signal_phase) : option (mm * list signal_phase) :=
  match sched with
  | [] => Some st
  | i :: sched => st ← calls_step i st; run_signals sched st
  end.

(** At no time are two calls between their read of the cursor and its write. *)
Fixpoint run_exclusive (sched : list nat) (st : mm * list signal_phase) : bool :=
  exclusive st.2 &&
  match sched with
  | [] => true
  | i :: sched => match calls_step i st with Some st => run_exclusive sched st | None => true end
  end.

(** The memory a call has taken. *)
Definition taken (p : signal_phase) : option (Z * Z) :=
  match p with
  | SigStart _ | SigRead _ _ | SigStore _ _ _ => None
  | SigCheck q addr | SigCall q addr => Some (addr, addr + page_up (q_length q))
  | SigDone q r => if is_syscall_error r then None else Some (r, r + page_up (q_length q))
  end.

(** What is left to take. *)
Definition pending (p : signal_phase) : Z :=
  match p with
  | SigStart q | SigRead q _ | SigStore q _ _ => page_up (q_length q)
  | _ => 0
  end.

Definition all_pending (ps : list signal_phase) : Z := foldr Z.add 0 (pending <$> ps).

Definition request (p : signal_phase) : signal_request :=
  match p with
  | SigStart q | SigRead q _ | SigStore q _ _ | SigCheck q _ | SigCall q _ | SigDone q _ => q
  end.

(** What a call in its middle knows of the cursor. *)
Definition bump_ok (c : Z) (p : signal_phase) : Prop :=
  match p with
  | SigRead _ addr => addr = c
  | SigStore _ addr cursor => addr = c /\ cursor = c
  | _ => True
  end.

Definition checked (p : signal_phase) : bool :=
  match p with SigCall _ _ | SigDone _ _ => true | _ => false end.

Record signal_inv (s0 s : mm) (ps : list signal_phase) : Prop := mkSignalInv {
  si_list : vma_list s = vma_list s0;
  si_offset : mmap_offset s = mmap_offset s0;
  si_cursor : signal_cursor s0 <= signal_cursor s /\ signal_cursor s + all_pending ps < 2 ^ 64;
  si_lengths : forall i p, ps !! i = Some p -> 0 <= q_length (request p) < 2 ^ 62;
  si_bump : forall i p, ps !! i = Some p -> bump_ok (signal_cursor s) p;
  si_taken : forall i p a e, ps !! i = Some p -> taken p = Some (a, e) ->
    signal_cursor s0 <= a /\ a <= e /\ e <= signal_cursor s /\
    (checked p = true -> e < MAPPING_RESERVE_IN_SIGNAL_END T);
  si_disjoint : forall i j p q a e b f, i <> j -> ps !! i = Some p -> ps !! j = Some q ->
    taken p = Some (a, e) -> taken q = Some (b, f) -> e <= b \/ f <= a
}.

Lemma all_pending_insert ps i p p' :
  ps !! i = Some p -> all_pending (<[i := p']> ps) = all_pending ps - pending p + pending p'.
Proof.
  revert i. induction ps as [|q ps IH]; intros [|i] H; cbn in *; [done..| |].
  - injection H as ->. unfold all_pending. cbn. lia.
  - unfold all_pending in *. cbn. rewrite IH by done. lia.
Qed.

Lemma pending_nonneg p : 0 <= q_length (request p) -> 0 <= pending p.
Proof. intros H. pose proof (page_up_bounds (q_length (request p))). destruct p; cbn in *; lia. Qed.

Lemma all_pending_bound s0 s ps i p :
  signal_inv s0 s ps -> ps !! i = Some p -> signal_cursor s + pending p < 2 ^ 64.
Proof.
  intros [_ _ [_ Hc] Hl _ _ _] Hi.
  enough (pending p <= all_pending ps) by lia. clear Hc. revert i Hi Hl.
  induction ps as [|q ps IH]; intros i Hi Hl; [done|].
  assert (Hq : 0 <= pending q) by (apply pending_nonneg; apply (Hl 0%nat q eq_refl)).
  assert (Hps : 0 <= all_pending ps).
  { clear IH Hi. assert (Hl' : forall j q, ps !! j = Some q -> 0 <= q_length (request q) < 2 ^ 62) by (intros j; apply (Hl (S j))).
    clear Hl Hq. induction ps as [|r ps IH]; [done|]. unfold all_pending in *. cbn.
    pose proof (pending_nonneg r ltac:(apply (Hl' 0%nat r eq_refl))).
    specialize (IH (fun j => Hl' (S j))). lia. }
  unfold all_pending in *. cbn. destruct i as [|i]; [injection Hi as ->; lia|].
  specialize (IH i Hi (fun j => Hl (S j))). lia.
Qed.

Lemma exclusive_spec ps i j p q :
  exclusive ps = true -> ps !! i = Some p -> ps !! j = Some q -> bumping p = true -> i <> j -> bumping q = false.
Proof.
  revert i j. induction ps as [|r ps IH]; intros i j He Hi Hj Hp Hn; [done|].
  cbn [exclusive] in He. apply andb_true_iff in He as [Hr He].
  destruct i as [|i], j as [|j]; [done| | |by eapply (IH i j); try done; congruence].
  - injection Hi as ->. rewrite Hp in Hr. rewrite forallb_forall in Hr.
    apply negb_true_iff, Hr. apply list_elem_of_In. by eapply list_elem_of_lookup_2.
  - injection Hj as ->. destruct (bumping q); [|done]. rewrite forallb_forall in Hr.
    assert (negb (bumping p) = true) as E; [|by rewrite Hp in E].
    apply Hr. apply list_elem_of_In. by eapply list_elem_of_lookup_2.
Qed.

(** One call moves and the others stay. *)
Lemma signal_inv_update s0 s s' ps i p p' :
  signal_inv s0 s ps -> ps !! i = Some p ->
  vma_list s' = vma_list s -> mmap_offset s' = mmap_offset s -> request p' = request p ->
  signal_cursor s <= signal_cursor s' -> signal_cursor s' + pending p' <= signal_cursor s + pending p ->
  signal_cursor s' = signal_cursor s \/ (forall j q, j <> i -> ps !! j = Some q -> bumping q = false) ->
  bump_ok (signal_cursor s') p' ->
  (forall a e, taken p' = Some (a, e) ->
     taken p = Some (a, e) /\ (checked p = true \/ e < MAPPING_RESERVE_IN_SIGNAL_END T) \/
     a = signal_cursor s /\ e = signal_cursor s' /\ checked p' = false) ->
  signal_inv s0 s' (<[i := p']> ps).
Proof.
  intros [Hl Ho [Hc1 Hc2] Hlen Hb Ht Hd] Hi Hl' Ho' Hq Hle Hpend Hothers Hbump Htk.
  assert (Hcase : forall j r, <[i := p']> ps !! j = Some r -> j = i /\ r = p' \/ j <> i /\ ps !! j = Some r).
  { intros j r Hj. destruct (decide (j = i)) as [->|Hne].
    - left. rewrite list_lookup_insert_eq in Hj by (by eapply lookup_lt_Some). by injection Hj as <-.
    - right. by rewrite list_lookup_insert_ne in Hj. }
  assert (Hnew : forall j q a e b f, j <> i -> ps !! j = Some q -> taken p' = Some (a, e) -> taken q = Some (b, f) ->
            e <= b \/ f <= a).
  { intros j q a e b f Hne Hj Hp Htq. destruct (Htk a e Hp) as [[Hold _]|(-> & -> & _)].
    - by apply (Hd i j p q a e b f).
    - right. by destruct (Ht j q b f Hj Htq) as (_ & _ & ? & _). }
  constructor.
  - congruence.
  - congruence.
  - rewrite (all_pending_insert _ _ _ _ Hi). lia.
  - intros j r [[-> ->]|[_ Hj]]%Hcase; [rewrite Hq; by apply (Hlen i)|by apply (Hlen j)].
  - intros j r [[-> ->]|[Hne Hj]]%Hcase; [done|]. destruct Hothers as [->|Hothers]; [by apply (Hb j)|].
    specialize (Hothers j r Hne Hj). by destruct r.
  - intros j r a e [[-> ->]|[Hne Hj]]%Hcase Hr.
    + destruct (Htk a e Hr) as [[Hold Hck]|(-> & -> & Hck)].
      * destruct (Ht i p a e Hi Hold) as (? & ? & ? & ?). split_and!; try lia. intros _. destruct Hck; auto.
      * split_and!; try lia. congruence.
    + destruct (Ht j r a e Hj Hr) as (? & ? & ? & ?). split_and!; done || lia.
  - intros j k p1 p2 a e b f Hne [[-> ->]|[Hj1 Hj]]%Hcase [[-> ->]|[Hk1 Hk]]%Hcase H1 H2; [done| | |].
    + by eapply Hnew.
    + destruct (Hnew j p1 b f a e Hj1 Hj H2 H1); auto.
    + by eapply (Hd j k).
Qed.
End signals.

Section disjoint.
Context {K : Kernel} {HK : KernelLaws K} (T : target).
Context (HT : 0 <= MAPPING_RESERVE_IN_SIGNAL_END T < 2 ^ 47 /\ MAPPING_RESERVE_IN_SIGNAL_END T <= 2 ^ guest_ptr_bits T /\
              0 <= guest_ptr_bits T <= 64).

Lemma signal_align_up len : 0 <= len < 2 ^ 62 -> PAGE_ALIGN_UP len = page_up len.
Proof.
  intros H. pose proof (page_up_bounds len) as HL. unfold PAGE_SIZE in HL.
  apply align_up_eq; unfold PAGE_MASK, PAGE_SIZE; lia.
Qed.

(** The system call of a call: an error or the address it took. *)
Lemma signal_call_step s q addr p' s' :
  0 <= mmap_offset s < 2 ^ 32 -> 0 <= addr < MAPPING_RESERVE_IN_SIGNAL_END T ->
  signal_step T (SigCall q addr) s = Some (p', s') ->
  exists r, p' = SigDone q r /\ (is_syscall_error r = true \/ r = addr) /\
    vma_list s' = vma_list s /\ mmap_offset s' = mmap_offset s /\ signal_cursor s' = signal_cursor s.
Proof.
  intros Ho Ha H. cbn [signal_step] in H. unfold g_2_h, ret_guest in H. inv_run.
  match goal with H : mmap_syscall _ _ _ _ _ _ _ = _ |- _ =>
    rewrite mmap_syscall_run in H by apply lor_fixed; rename H into Hsys end.
  destruct (sys_mmap _ _ _ _ _ _ _) as [r2 k] eqn:Ek. injection Hsys as <- <-.
  eexists. split; [done|]. split; [|done]. cbn [mmap_offset upd_kernel].
  destruct (is_syscall_error r2) eqn:Er; [by left|]. right.
  destruct (mmap_law _ _ _ _ _ _ _ _ _ Ek (lor_fixed _)) as [[Herr _]|(-> & _)]; [congruence|].
  match goal with |- context [w64 (addr + mmap_offset ?x)] => assert (Hh : w64 (addr + mmap_offset x) = addr + mmap_offset x)
    by (apply wrap_small; lia); rewrite Hh end.
  unfold w64. rewrite (wrap_small 64) by lia. rewrite Z.add_simpl_r, wrap_small by lia.
  unfold to_signed. rewrite wrap_small by lia. by rewrite (proj2 (Z.ltb_lt _ _)) by lia.
Qed.

Lemma signal_inv_step s0 s ps i s' ps' :
  0 <= signal_cursor s0 -> 0 <= mmap_offset s0 < 2 ^ 32 ->
  signal_inv T s0 s ps -> exclusive ps = true -> calls_step T i (s, ps) = Some (s', ps') ->
  signal_inv T s0 s' ps'.
Proof.
  intros H0 Ho Hinv Hex H. unfold calls_step in H. cbn [fst snd] in H.
  destruct (ps !! i) as [p|] eqn:Hi; [|done]. cbn [mbind option_bind] in H.
  destruct (signal_step T p s) as [[p' s1]|] eqn:E; [|done]. injection H as <- <-.
  pose proof (si_lengths _ _ _ _ Hinv i p Hi) as Hlen. pose proof (si_bump _ _ _ _ Hinv i p Hi) as Hb.
  pose proof (si_cursor _ _ _ _ Hinv) as [Hc _]. pose proof (all_pending_bound _ _ _ _ _ _ Hinv Hi) as Hbound.
  pose proof (page_up_bounds (q_length (request p))) as HL.
  assert (Hgo := fun H => signal_inv_update T s0 s s1 ps i p p' Hinv Hi H).
  destruct p as [q|q addr|q addr cur|q addr|q addr|q r]; cbn [request pending] in *.
  - cbn [signal_step] in E. destruct (negb _); unfold ret_guest in E; inv_run;
      apply Hgo; cbn; try done; try lia; try (by left).
  - cbn [signal_step] in E. inv_run. apply Hgo; cbn; try done; try lia.
  - destruct Hb as [-> ->]. cbn [signal_step] in E. inv_run.
    assert (Hw : w64 (signal_cursor s + PAGE_ALIGN_UP (q_length q)) = signal_cursor s + page_up (q_length q)).
    { rewrite signal_align_up by done. apply wrap_small. lia. }
    apply Hgo; cbn; rewrite ?Hw; try done; try lia.
    + right. intros j r Hj Hr. by eapply (exclusive_spec ps i j).
    + intros a e [= <- <-]. by right.
  - cbn [signal_step] in E. inv_run. apply Hgo; cbn; try done; try lia; try (by left).
    intros a e [= <- <-]. left. split; [done|]. right.
    match goal with H : (_ <? _) = true |- _ => apply Z.ltb_lt in H end.
    destruct (si_taken _ _ _ _ Hinv i _ _ _ Hi eq_refl) as (_ & _ & ? & _). lia.
  - destruct (si_taken _ _ _ _ Hinv i _ _ _ Hi eq_refl) as (? & ? & ? & Hend). specialize (Hend eq_refl).
    apply signal_call_step in E as (r & -> & Hr & Hl & Hoff & Hcur);
      [|by rewrite (si_offset _ _ _ _ Hinv)|lia].
    apply Hgo; cbn; try done; try lia; try (by left). intros a e Htk. left.
    destruct (is_syscall_error r); [done|]. destruct Hr as [?| ->]; [done|]. injection Htk as <- <-. by split; [|left].
  - cbn [signal_step] in E. inv_run. apply Hgo; try done; try lia; try (by left).
    intros a e Htk. left. by split; [|left].
Qed.

Lemma run_signals_inv s0 sched s ps s' ps' :
  0 <= signal_cursor s0 -> 0 <= mmap_offset s0 < 2 ^ 32 -> signal_inv T s0 s ps ->
  run_exclusive T sched (s, ps) = true -> run_signals T sched (s, ps) = Some (s', ps') ->
  signal_inv T s0 s' ps'.
Proof.
  intros H0 Ho. revert s ps. induction sched as [|i sched IH]; intros s ps Hinv Hex H; cbn [run_signals run_exclusive] in *.
  - injection H as <- <-. done.
  - apply andb_true_iff in Hex as [Hex Hrest]. destruct (calls_step T i (s, ps)) as [[s1 ps1]|] eqn:E; [|done].
    cbn [mbind option_bind] in H. refine (IH s1 ps1 _ Hrest H). exact (signal_inv_step s0 s ps i s1 ps1 H0 Ho Hinv Hex E).
Qed.

Lemma signal_step_request p s p' s' : signal_step T p s = Some (p', s') -> request p' = request p.
Proof.
  destruct p; cbn [signal_step]; try (destruct (negb _)); unfold ret_guest, g_2_h; intros H; inv_run; done.
Qed.

Lemma run_signals_requests sched s ps s' ps' :
  run_signals T sched (s, ps) = Some (s', ps') -> request <$> ps' = request <$> ps.
Proof.
  revert s ps. induction sched as [|i sched IH]; intros s ps H; cbn [run_signals] in H; [by injection H as <- <-|].
  unfold calls_step in H. cbn [fst snd] in H. destruct (ps !! i) as [p|] eqn:Hi; [|done]. cbn [mbind option_bind] in H.
  destruct (signal_step T p s) as [[p' s1]|] eqn:E; [|done]. cbn [mbind option_bind] in H. rewrite (IH _ _ H).
  rewrite list_fmap_insert, (signal_step_request _ _ _ _ E). apply list_insert_id. by rewrite list_lookup_fmap, Hi.
Qed.

Lemma signal_inv_start s qs :
  Forall (fun q => 0 <= q_length q < 2 ^ 62) qs ->
  signal_cursor s + foldr Z.add 0 (page_up ∘ q_length <$> qs) < 2 ^ 64 ->
  signal_inv T s s (SigStart <$> qs).
Proof.
  intros Hlen Hsum.
  assert (Hst : forall i p, (SigStart <$> qs) !! i = Some p -> exists q, p = SigStart q /\ 0 <= q_length q < 2 ^ 62).
  { intros i p Hp. rewrite list_lookup_fmap in Hp. destruct (qs !! i) as [q|] eqn:E; [|done]. injection Hp as <-.
    exists q. split; [done|]. by eapply Forall_lookup_1 in Hlen. }
  constructor; try done.
  - split; [lia|]. unfold all_pending. rewrite <- list_fmap_compose. exact Hsum.
  - intros i p Hp. by destruct (Hst i p Hp) as (q & -> & ?).
  - intros i p Hp. by destruct (Hst i p Hp) as (q & -> & ?).
  - intros i p a e Hp Ht. destruct (Hst i p Hp) as (q & -> & ?). discriminate Ht.
  - intros i j p q a e b f _ Hp _ Ht _. destruct (Hst i p Hp) as (r & -> & ?). discriminate Ht.
Qed.
End disjoint.
