(* ===== verification/VmaTheorems.v ===== *)
(** * The guest address space: theorems

    The two targets, a small kernel to run the calls on, sessions of guest
    calls, and the properties of Vma.v with their instances. *)

From S2P Require Import Prelude Vma VmaList VmaOps VmaKernel VmaSignal.

(** ** The targets *)

Lemma arm64_target_ok : target_ok arm64_target 0x400000 0x7000001000.
Proof.
  constructor; [by split_and!|by split_and!|]. intros a [= <-]. exists 16. by split_and!.
Qed.

Lemma arm64_offset_ok : offset_ok arm64_target 0x400000 0x7000001000 0x7000000000.
Proof. by constructor; split_and!. Qed.

(** ARM once the vdso page is mapped: one list up to its last byte. *)
Lemma arm_target_ok : target_ok arm_target 0x8000 0xffff1001.
Proof. constructor; [by split_and!|by split_and!|]. intros a Ha. discriminate Ha. Qed.

Lemma arm_offset_ok : offset_ok arm_target 0x8000 0xffff1001 0x80000000.
Proof. by constructor; split_and!. Qed.

(** ** A small kernel

    Memory is the history of what was mapped and unmapped, the last change
    first.  Requests that are not page aligned, empty or too high fail; so does
    the mapping of one descriptor, once the old mappings of the range are
    removed; shmat always does. *)

Definition history : Type := list (Z * Z * bool).

Fixpoint in_history (k : history) (x : Z) : bool :=
  match k with
  | [] => false
  | (addr, e, b) :: k => if (addr <=? x) && (x <? e) then b else in_history k x
  end.

Definition range_ok (addr len : Z) : bool :=
  (addr mod PAGE_SIZE =? 0) && (0 <? len) && (0 <=? addr) && (addr + len <=? 2 ^ 47).

Definition set_mapped (addr e : Z) (b : bool) (k : history) : history := (addr, e, b) :: k.

Definition small_mremap (old old_size new_size flags new : Z) (k : history) : Z * history :=
  if negb (Z.land flags MREMAP_FIXED =? 0)
  then (new, set_mapped new (page_up (new + new_size)) true
               (set_mapped old (page_up (old + old_size)) false k))
  else (- ENOMEM, k).

(** A descriptor of something that cannot be mapped, and its error. *)
Definition unmappable_fd : Z := 1000.
Definition ENODEV : Z := 19.

#[export] Instance small_kernel : Kernel := {|
  kstate := history;
  sys_mmap addr len _ flags fd _ k :=
    if range_ok addr len then
      if fd =? unmappable_fd then (- ENODEV, set_mapped addr (page_up (addr + len)) false k)
      else (addr, set_mapped addr (page_up (addr + len)) true k)
    else (- EINVAL, k);
  sys_munmap addr len k :=
    if range_ok addr len then (0, set_mapped addr (page_up (addr + len)) false k) else (- EINVAL, k);
  sys_mremap := small_mremap;
  sys_shmctl_stat _ k := (0, 8192, k);
  sys_shmat _ _ _ k := (- EINVAL, k);
  sys_shmdt _ k := (0, k)
|}.

Lemma range_ok_spec addr len :
  range_ok addr len = true -> aligned addr /\ 0 < len /\ 0 <= addr /\ addr + len <= 2 ^ 47.
Proof.
  unfold range_ok. intros [[[H1%Z.eqb_eq H2%Z.ltb_lt]%andb_true_iff H3%Z.leb_le]%andb_true_iff
    H4%Z.leb_le]%andb_true_iff. by split_and!.
Qed.

#[export] Program Instance small_laws : KernelLaws small_kernel := {|
  mapped := in_history
|}.
Next Obligation.
  intros addr len prot flags fd off k r k'. cbn.
  destruct (range_ok addr len) eqn:E; [destruct (fd =? unmappable_fd)|]; intros [= <- <-] _.
  - left. apply range_ok_spec in E as (Ha & _). rewrite page_down_aligned by done. split; [done|].
    split; intros x; cbn [in_history set_mapped]; fold (within addr (page_up (addr + len)) x);
      by destruct (within addr _ x).
  - right. apply range_ok_spec in E as (? & ? & ? & ?). by split_and!.
  - by left.
Qed.
Next Obligation.
  intros addr len k r k'. cbn. destruct (range_ok addr len) eqn:E; intros [= <- <-].
  - right. apply range_ok_spec in E as (? & ? & ? & ?). split_and!; try done.
    intros x. cbn. by destruct (_ && _).
  - by left.
Qed.

Definition no_memory : history := [].
Definition no_loss : Z -> bool := fun _ => false.

(** The state once the first call has initialised the list. *)
Definition arm64_ready : mm := default (mm_start arm64_target no_memory)
  (snd <$> init_if_needed arm64_target (mm_start arm64_target no_memory)).

Lemma arm64_ready_ok : mm_ok arm64_target 0x400000 0x7000001000 0x7000000000 no_loss arm64_ready.
Proof.
  constructor; [constructor; [by cbn; split_and!|by repeat constructor|done|done]|done|done|].
  - intros x Hx. split; [intros H; discriminate H|]. change (owner (init_vma_list arm64_target) x = Some VMA_MAP -> no_loss x = false -> false = true).
    cbn. unfold owns. cbn.
    destruct (Z.leb_spec 0x400000 x), (Z.ltb_spec x 0x7000000000); try lia. done.
Qed.

(** ** Sessions of guest calls *)

Inductive guest_call :=
| CallMmap (addr len prot flags fd off : Z)
| CallMunmap (addr len : Z).

(** Requests in which no length wraps: at least a byte, at most 2^62. *)
Definition sane_call (c : guest_call) : Prop :=
  match c with
  | CallMmap addr len _ _ _ _ => 0 <= addr < 2 ^ 62 /\ 0 < len <= 2 ^ 62
  | CallMunmap addr len => 0 <= addr < 2 ^ 62 /\ 0 <= len <= 2 ^ 62
  end.

Section sessions.
Context {K : Kernel} (T : target).

Definition run_call (c : guest_call) : stM mm Z :=
  match c with
  | CallMmap addr len prot flags fd off => arm64_mmap T false addr len prot flags fd off
  | CallMunmap addr len => arm64_munmap T false addr len
  end.

Fixpoint run_calls (cs : list guest_call) : stM mm (list Z) :=
  match cs with
  | [] => mret []
  | c :: cs => r ← run_call c; rs ← run_calls cs; mret (r :: rs)
  end.
End sessions.

(** Whether a call may have lost the mapping of [x]: a fixed mapping of the
    pages around it that failed. *)
Definition loses (c : guest_call) (r : Z) (x : Z) : bool :=
  match c with
  | CallMmap addr len _ flags _ _ =>
      is_syscall_error r && is_fixed addr flags && within (page_down addr) (page_up (addr + len)) x
  | CallMunmap _ _ => false
  end.

(** What may be lost after a session: the last call that decided of [x]. *)
Definition lost_step (c : guest_call) (r : Z) (lost : Z -> bool) : Z -> bool :=
  match c with
  | CallMmap addr len _ flags _ _ =>
      if is_syscall_error r
      then if is_fixed addr flags then lose (page_down addr) (page_up (addr + len)) lost else lost
      else regain r (page_up (r + len)) lost
  | CallMunmap addr len =>
      if is_syscall_error r then lost else regain addr (page_up (addr + len)) lost
  end.

Fixpoint lost_after (cs : list guest_call) (rs : list Z) (lost : Z -> bool) : Z -> bool :=
  match cs, rs with
  | c :: cs, r :: rs => lost_after cs rs (lost_step c r lost)
  | _, _ => lost
  end.

Lemma lost_step_loses c r lost x : lost_step c r lost x = true -> lost x = true \/ loses c r x = true.
Proof.
  destruct c as [addr len prot flags fd off|addr len]; cbn; destruct (is_syscall_error r); cbn; auto.
  - destruct (is_fixed addr flags); cbn; auto. unfold lose. intros [H|H]%orb_true_iff; auto.
  - unfold regain. intros [_ H]%andb_true_iff. auto.
  - unfold regain. intros [_ H]%andb_true_iff. auto.
Qed.

Lemma lost_after_loses cs rs lost x :
  lost_after cs rs lost x = true ->
  lost x = true \/ exists i c r, cs !! i = Some c /\ rs !! i = Some r /\ loses c r x = true.
Proof.
  revert rs lost. induction cs as [|c cs IH]; intros [|r rs] lost H; cbn in H; auto.
  destruct (IH _ _ H) as [[?|Hl]%lost_step_loses|(i & c' & r' & H1 & H2 & H3)]; [by left| |].
  - right. by exists 0%nat, c, r.
  - right. by exists (S i), c', r'.
Qed.

Section session_ok.
Context {K : Kernel} {HK : KernelLaws K} (T : target) (lo hi top : Z).
Context (HT : target_ok T lo hi) (HO : offset_ok T lo hi top).

(** Between calls a page of descriptors is always in reserve. *)
Definition session_inv (lost : Z -> bool) (s : mm) : Prop :=
  mm_ok T lo hi top lost s /\ desc_next_memory s = true /\ ongoing_vma_list s = [].

Lemma session_avail lost s : session_inv lost s -> (102 <= avail_of s)%nat.
Proof. intros (_ & E & _). unfold avail_of, avail. rewrite E. unfold DESC_PER_PAGE. lia. Qed.

(** A fixed request that touches an address outside of the list stops. *)
Lemma insert_area_range s st en ty r s' :
  vma_ok lo hi s -> insert_area st en ty s = Some (r, s') -> lo <= st /\ en < hi.
Proof.
  intros Hv H. unfold insert_area in H. inv_run.
  assert (Hown : forall a i s1, find_address_owner a s = Some (i, s1) -> s1 = s /\ lo <= a < hi).
  { intros a i s1 E. unfold find_address_owner, find_address_owner_without_assert in E.
    revert E. run_m. destruct (find_index (owns a) (vma_list s)) as [j|] eqn:Ej; [|done]. intros [= <- <-].
    split; [done|]. pose proof (find_index_Some _ _ _ Ej) as (p & d & q & El & _ & Ho & _).
    apply owns_spec in Ho. destruct (desc_in_list lo hi s p d q Hv El) as (? & ? & _). lia. }
  match goal with
  | H1 : find_address_owner st s = Some (_, ?s1), H2 : find_address_owner en ?s1 = Some (_, ?s2) |- _ =>
      apply Hown in H1 as [-> ?]; apply Hown in H2 as [-> ?] end.
  lia.
Qed.

(** What a call does to the invariant, whatever its result. *)
Definition call_safe (lost : Z -> bool) (s s' : mm) : Prop :=
  mm_ok T lo hi top lost s' /\ ongoing_vma_list s' = ongoing_vma_list s /\ (avail_of s <= avail_of s' + 4)%nat.

Lemma effect_safe lost n s s' own : (n <= 4)%nat -> call_effect T lo hi top lost n s s' own -> call_safe lost s s'.
Proof. intros Hn [? ? ? ? ?]. split_and!; try done. lia. Qed.

Lemma error_safe lost s k :
  mm_ok T lo hi top lost s -> agrees lo top lost (upd_kernel k s) -> call_safe lost s (upd_kernel k s).
Proof.
  intros [Hv Hi Hoff Hag] Hk. split; [|split; [done|change (avail_of (upd_kernel k s)) with (avail_of s); lia]].
  constructor; try done. by apply vma_ok_kernel.
Qed.

Lemma outcome_safe lost s s' addr len prot flags fd off r :
  mmap_outcome T lo hi top lost s s' addr len flags r ->
  call_safe (lost_step (CallMmap addr len prot flags fd off) r lost) s s'.
Proof.
  intros [[Herr Hce]|(Hr & _ & _ & Hce & _)]; cbn [lost_step]; apply (effect_safe _ 4) in Hce; try done.
  - by rewrite Herr.
  - pose proof (to_range _ _ _ HT) as (? & ? & _). replace (is_syscall_error r) with false; [done|].
    symmetry. apply andb_false_iff. left. apply Z.ltb_ge. lia.
Qed.

(** A fixed request at any address that fails. *)
Lemma failed_agrees lost s addr len k :
  mm_ok T lo hi top lost s -> 0 <= addr < 2 ^ 62 ->
  (forall x, mapped k x = true -> mapped (kernel s) x = true) ->
  (forall x, within (page_down (w64 (addr + mmap_offset s))) (page_up (w64 (addr + mmap_offset s) + len)) x = false ->
     mapped k x = mapped (kernel s) x) ->
  agrees lo top (lose (page_down addr) (page_up (addr + len)) lost) (upd_kernel k s).
Proof.
  intros [Hv Hi Hoff Hag] Ha Hm Hmo. destruct (oo_range _ _ _ _ HO) as [Hor Hoa].
  apply (agrees_lose lo top lost s k); try done. rewrite Hoff in *.
  assert (Hw : w64 (addr + init_mmap_offset T) = addr + init_mmap_offset T) by (apply wrap_small; lia).
  rewrite Hw, (host_end T lo hi top HO), page_down_add in Hmo by done. exact Hmo.
Qed.

Lemma internal_mmap_safe lost s addr len prot flags fd off r s' :
  mm_ok T lo hi top lost s -> (4 <= avail_of s)%nat -> sane_call (CallMmap addr len prot flags fd off) ->
  internal_mmap T addr len prot flags fd off s = Some (r, s') ->
  call_safe (lost_step (CallMmap addr len prot flags fd off) r lost) s s'.
Proof.
  intros Hok Hav [Ha Hl] H. destruct (is_fixed addr flags) eqn:Hfx.
  - destruct (decide (lo <= addr /\ page_up (addr + len) < hi)) as [[H1 H2]|Hout].
    + pose proof (page_up_bounds (addr + len)). pose proof (to_range _ _ _ HT) as (? & ? & _).
      destruct (mmap_fixed_ok T lo hi top HT HO lost s addr len prot flags fd off Hok Hav ltac:(lia) H1 H2 Hfx)
        as (r0 & s0 & E & Hout). rewrite E in H. injection H as <- <-.
      by apply outcome_safe.
    + unfold internal_mmap, init_if_needed in H. rewrite (bind_Some_eq _ _ s tt s) in H
        by (run_m; rewrite (mo_init _ _ _ _ _ _ Hok); done).
      fold (is_fixed addr flags) in H. rewrite Hfx in H.
      pose proof Hfx as [_ Hfl%negb_true_iff%Z.eqb_neq]%andb_true_iff.
      apply bind_Some_inv in H as (r1 & s1 & H & Hret). unfold ret_guest in Hret. inv_run.
      unfold g_2_h in *. inv_run.
      match goal with H : mmap_syscall _ _ _ _ _ _ _ = _ |- _ => rewrite mmap_syscall_run in H by done; rename H into Hsys end.
      destruct (sys_mmap _ _ _ _ _ _ _) as [r2 k] eqn:Ek in Hsys. injection Hsys as -> <-.
      destruct (mmap_law _ _ _ _ _ _ _ _ _ Ek Hfl) as [(Herr & Hm & Hmo)|(-> & Hal & _ & Hge & Hle & _)].
      * cbn [lost_step]. rewrite Hfx. rewrite Herr in *. inv_run. rewrite ?Herr. apply error_safe.
        { apply (mm_ok_weaken T lo hi top lost); [|done]. intros x Hx. unfold lose. by rewrite Hx, orb_true_r. }
        by apply failed_agrees.
      * exfalso. apply Hout.
        match goal with H : (if is_syscall_error ?h then _ else _) _ = _ |- _ =>
          replace (is_syscall_error h) with false in H
            by (symmetry; apply andb_false_iff; left; apply Z.ltb_ge; lia); rename H into Hins end.
        rewrite align_end in Hins by lia.
        apply (insert_area_range _ _ _ _ _ _ (vma_ok_kernel lo hi _ k (mo_vma _ _ _ _ _ _ Hok))) in Hins. done.
  - destruct (mmap_free_ok T lo hi top HT HO lost s addr len prot flags fd off Hok Hav Hl ltac:(lia) Hfx)
      as (r0 & s0 & E & Hout). rewrite E in H. injection H as <- <-.
    by apply outcome_safe.
Qed.

Lemma internal_munmap_safe lost s addr len r s' :
  mm_ok T lo hi top lost s -> (4 <= avail_of s)%nat -> sane_call (CallMunmap addr len) ->
  internal_munmap T addr len s = Some (r, s') -> call_safe (lost_step (CallMunmap addr len) r lost) s s'.
Proof.
  intros Hok Hav [Ha Hl] H. destruct (decide (lo <= addr /\ page_up (addr + len) < hi)) as [[H1 H2]|Hout].
  - pose proof (page_up_bounds (addr + len)). pose proof (to_range _ _ _ HT) as (? & ? & _).
    destruct (internal_munmap_ok T lo hi top HT HO lost s addr len Hok ltac:(lia) ltac:(lia) H1 H2)
      as (r0 & s0 & E & Hres). rewrite E in H. injection H as <- <-.
    destruct Hres as [[Herr Hce]|[-> Hce]]; apply (effect_safe _ 2) in Hce; try lia; cbn [lost_step]; [by rewrite Herr|done].
  - unfold internal_munmap, init_if_needed in H. rewrite (bind_Some_eq _ _ s tt s) in H
      by (run_m; rewrite (mo_init _ _ _ _ _ _ Hok); done).
    unfold g_2_h, syscall in H. inv_run.
    destruct (sys_munmap _ _ _) as [r2 k] eqn:Ek. inv_run. cbn [kernel upd_kernel] in *.
    destruct (munmap_law _ _ _ _ _ Ek) as [[Herr Hm]|(-> & Hal & _ & Hge & Hle & _)].
    + cbn [lost_step]. rewrite Herr in *. inv_run. apply error_safe; [done|]. destruct Hok as [_ _ _ Hag].
      intros x Hx. cbn. rewrite Hm. by apply Hag.
    + exfalso. apply Hout.
      match goal with H : (if is_syscall_error 0 then _ else _) _ = _ |- _ => rename H into Hins end.
      cbn [is_syscall_error Z.ltb Z.compare andb] in Hins. rewrite align_end in Hins by lia.
      apply (insert_area_range _ _ _ _ _ _ (vma_ok_kernel lo hi _ k (mo_vma _ _ _ _ _ _ Hok))) in Hins. done.
Qed.

(** The end of a call: a new page of descriptors when there is none. *)
Lemma refill_safe lost s r s' :
  mm_ok T lo hi top lost s -> (4 <= avail_of s)%nat -> ongoing_vma_list s = [] ->
  (if desc_next_memory s then mret tt else allocate_more_desc_memory_if_needed T) s = Some (r, s') ->
  session_inv lost s'.
Proof.
  intros Hok Hav Hon H. destruct (desc_next_memory s) eqn:En; [by injection H as <- <-|].
  unfold allocate_more_desc_memory_if_needed, collect_ongoing_unmap in H.
  rewrite (bind_Some_eq _ _ s tt s) in H.
  2:{ run_m. rewrite Hon. cbn [length collect_loop]. unfold collect_one. run_m. by rewrite Hon. }
  revert H. erewrite bind_Some_eq by done. rewrite En. unfold allocate_more_desc_memory. intros H.
  apply bind_Some_inv in H as (r1 & s1 & Hm & H). inv_run.
  apply (internal_mmap_safe lost) in Hm as (Hok1 & Hon1 & _); [|done|done|split; unfold PAGE_SIZE; lia].
  apply (mm_ok_weaken _ _ _ _ _ lost) in Hok1.
  2:{ intros x Hx. apply lost_step_loses in Hx as [?|Hx]; [done|]. cbn [loses] in Hx.
      rewrite andb_false_r in Hx. discriminate Hx. }
  split; [|split; [done|cbn; by rewrite Hon1]]. destruct Hok1 as [[? ? ? ?] ? ? ?]. by constructor.
Qed.

Lemma run_call_safe lost c s r s' :
  sane_call c -> session_inv lost s -> run_call T c s = Some (r, s') -> session_inv (lost_step c r lost) s'.
Proof.
  intros Hc Hinv H. pose proof (session_avail lost s Hinv) as Hav. destruct Hinv as (Hok & _ & Hon).
  assert (Hgo : forall m : stM mm Z, (forall r1 s1, m s = Some (r1, s1) -> call_safe (lost_step c r1 lost) s s1) ->
            locked_if_empty T m s = Some (r, s') -> session_inv (lost_step c r lost) s').
  { intros m Hm Hl. unfold locked_if_empty in Hl.
    apply bind_Some_inv in Hl as (r1 & s1 & E & Hl). destruct (Hm _ _ E) as (Hok1 & Hon1 & Hav1).
    rewrite (bind_Some_eq _ _ s1 s1 s1) in Hl by done.
    apply bind_Some_inv in Hl as (u & s2 & E2 & Hl). injection Hl as <- <-.
    apply (refill_safe _ s1 u s2); try done; [lia|by rewrite Hon1]. }
  destruct c as [addr len prot flags fd off|addr len]; apply Hgo in H; try done;
    intros r1 s1 E; [eapply internal_mmap_safe in E|eapply internal_munmap_safe in E]; try done; lia.
Qed.

Lemma run_calls_safe lost cs s rs s' :
  Forall sane_call cs -> session_inv lost s -> run_calls T cs s = Some (rs, s') -> session_inv (lost_after cs rs lost) s'.
Proof.
  intros Hcs. revert lost s rs. induction Hcs as [|c cs Hc _ IH]; intros lost s rs Hinv H; cbn [run_calls] in H;
    [by injection H as <- <-|].
  apply bind_Some_inv in H as (r1 & s1 & E & H). apply bind_Some_inv in H as (rs1 & s2 & E2 & H).
  injection H as <- <-. eapply IH; [|done]. by eapply run_call_safe.
Qed.
End session_ok.

(** ** Properties *)

(** C21. [insert_area] sets the type of a range and nothing else: on a gapless
    list it succeeds whenever two descriptors can be had, the list stays
    gapless, read as a function it is the old one updated on the range, and no
    descriptor is lost. *)
Theorem insert_area_correct {K : Kernel} lo hi (s : mm) st en ty :
  tiled lo hi (vma_list s) -> lo <= st -> st < en -> en < hi -> ty <> VMA_UNMAP_ONGOING ->
  (2 <= avail_of s)%nat ->
  exists s', insert_area st en ty s = Some (tt, s') /\ tiled lo hi (vma_list s') /\
    (forall a, owner (vma_list s') a = set_range st en ty (owner (vma_list s)) a) /\
    (avail_of s' + length (vma_list s') = avail_of s + length (vma_list s))%nat /\ frame s s'.
Proof.
  intros Ht H1 H2 H3 Hty Hav.
  destruct (insert_area_ok s lo hi _ (desc_next_memory s) (free_vma_list s) st en ty Ht H1 H2 H3 Hty Hav)
    as (l' & n' & f' & E & Ht' & Ho' & Hc & _).
  rewrite <- vs_self in E. exists (vs s l' n' f'). by split_and!.
Qed.

(** C22. The three searches for room never hand out memory in use: each gives
    [ENOMEM] and leaves the list alone, or an aligned range of the list's
    bounds that was wholly unmapped and is now mapped, the rest unchanged. *)
Theorem find_vma_safe {K : Kernel} T lo hi (s : mm) len hint :
  target_ok T lo hi -> vma_ok lo hi s -> 0 < len <= 2 ^ 62 -> 0 <= hint < 2 ^ 64 -> (2 <= avail_of s)%nat ->
  alloc_result lo hi s (page_up len) (find_vma len s) /\
  alloc_result lo hi s (page_up len) (find_vma_with_kernel_choose T len s) /\
  alloc_result lo hi s (page_up len) (find_vma_with_hint len hint s).
Proof.
  intros HT Hok Hlen Hhint Hav. split_and!.
  - apply (find_vma_ok T); [done|done|unfold PAGE_SIZE; lia|done].
  - by apply find_vma_with_kernel_choose_ok.
  - by apply (find_vma_with_hint_ok T).
Qed.

(** C19. [mmap] returns, and keeps the list in step with the kernel: its list of
    mapped pages holds all the kernel has mapped, and nothing else but pages of
    [lost], where a fixed request failed.  On success exactly the pages of the
    result become mapped, in the list and in the kernel, at the address asked
    for when it is fixed, and in memory that was unmapped when it is not.  On
    failure the list reads as before and no descriptor is lost; when the
    request was fixed, the pages of its range are added to [lost], since the
    kernel may have removed them; when it was not, nothing is, whatever the
    kernel does to a range when it fails.  Four descriptors are free, a fixed
    range lies in the list, and the length is from 1 to 2^62. *)
Theorem mmap_correct {K : Kernel} {HK : KernelLaws K} T lo hi top lost (s : mm) addr len prot flags fd off :
  target_ok T lo hi -> offset_ok T lo hi top -> mm_ok T lo hi top lost s -> (4 <= avail_of s)%nat ->
  0 <= addr < 2 ^ 64 -> 0 < len < 2 ^ 62 ->
  (is_fixed addr flags = true -> lo <= addr /\ page_up (addr + len) < hi) ->
  exists r s', internal_mmap T addr len prot flags fd off s = Some (r, s') /\
    mmap_outcome T lo hi top lost s s' addr len flags r.
Proof.
  intros HT HO Hok Hav Ha Hlen Hfx. destruct (is_fixed addr flags) eqn:E.
  - destruct (Hfx eq_refl). apply (mmap_fixed_ok T lo hi top); done || lia.
  - apply (mmap_free_ok T lo hi top); done || lia.
Qed.

(** C23. [munmap] returns, and keeps the list in step with the kernel: unchanged
    on failure, the pages of the range unmapped in both otherwise.  Two
    descriptors are free and the range lies in the list. *)
Theorem munmap_correct {K : Kernel} {HK : KernelLaws K} T lo hi top lost (s : mm) addr len :
  target_ok T lo hi -> offset_ok T lo hi top -> mm_ok T lo hi top lost s -> (2 <= avail_of s)%nat ->
  0 <= len < 2 ^ 62 -> lo <= addr -> page_up (addr + len) < hi ->
  exists r s', internal_munmap T addr len s = Some (r, s') /\
    (is_syscall_error r = true /\ call_effect T lo hi top lost 2 s s' (owner (vma_list s)) \/
     r = 0 /\ call_effect T lo hi top (regain addr (page_up (addr + len)) lost) 2 s s'
                (set_range addr (page_up (addr + len)) VMA_UNMAP (owner (vma_list s)))).
Proof. intros HT HO Hok Hav Hlen H1 H2. by apply internal_munmap_ok. Qed.

(** C20. Sessions: through any sequence of guest [mmap] and [munmap] calls that
    does not stop the process, with addresses and lengths below 2^62, the list
    stays gapless and aligned, a page of descriptors stays in reserve, so that
    the pool never runs out, and the list holds all the kernel has mapped and
    nothing else but pages that were already lost or that a fixed [mmap] of
    the session has asked for and not got; with no such failure, the list is
    what the kernel has mapped. *)
Theorem sessions_keep_agreement {K : Kernel} {HK : KernelLaws K} T lo hi top lost cs (s s' : mm) rs :
  target_ok T lo hi -> offset_ok T lo hi top -> session_inv T lo hi top lost s -> Forall sane_call cs ->
  run_calls T cs s = Some (rs, s') ->
  session_inv T lo hi top (lost_after cs rs lost) s' /\
  forall x, lost_after cs rs lost x = true ->
    lost x = true \/ exists i c r, cs !! i = Some c /\ rs !! i = Some r /\ loses c r x = true.
Proof.
  intros HT HO Hinv Hcs H. split; [by apply (run_calls_safe T lo hi top HT HO lost cs s rs s')|].
  intros x. apply lost_after_loses.
Qed.

(** The queries are sound: [is_area_valid] says yes only for a range whose
    pages are all mapped, [is_area_unmap] only for one wholly unmapped; they
    change nothing. *)
Theorem area_queries_sound {K : Kernel} lo hi (s s1 s2 : mm) st en :
  vma_ok lo hi s -> 0 <= st < 2 ^ 64 -> 0 <= en -> en + PAGE_MASK < 2 ^ 64 ->
  (is_area_valid st en s = Some (true, s1) ->
     s1 = s /\ forall a, st - st mod PAGE_SIZE <= a < page_up en -> owner (vma_list s) a = Some VMA_MAP) /\
  (is_area_unmap st en s = Some (true, s2) ->
     s2 = s /\ forall a, st - st mod PAGE_SIZE <= a < page_up en -> owner (vma_list s) a = Some VMA_UNMAP).
Proof.
  intros Hok H1 H2 H3. split; [by apply (is_area_valid_sound lo hi)|by apply (is_area_unmap_sound lo hi)].
Qed.


Definition page_request : signal_request := mkRequest 4096 3 34 (2 ^ 64 - 1) 0.

(** Two calls that both read the cursor before one of them writes it get the
    same memory: on two threads, or in a handler that interrupts another
    between its two statements. *)
Theorem signal_mmaps_race :
  let start := (arm64_ready, SigStart <$> [page_request; page_request]) in
  let both := Some [SigDone page_request 0x7000000000; SigDone page_request 0x7000000000] in
  snd <$> run_signals arm64_target [0; 1; 0; 1; 0; 1; 0; 1; 0; 1]%nat start = both /\
  snd <$> run_signals arm64_target [0; 1; 1; 1; 1; 1; 0; 0; 0; 0]%nat start = both.
Proof. split; vm_compute; reflexivity. Qed.

(** What is seen of a run on the small kernel: the result, the list, the
    kernel's history. *)
Definition view (o : option (Z * mm)) : option (Z * list vma_desc * history) :=
  '(r, s) ← o; Some (r, vma_list s, kernel s).

(** On ARM, mapping the vdso page at start-up makes the list claim the
    whole range above 0x80000000 mapped, the memory reserved to signal
    handlers included, that the kernel never mapped and the list had left out:
    the final merge of [insert_area] does not look whether the previous
    descriptor is adjacent. *)
Theorem arm_vdso_swallows_gap :
  exists l k, view (mmap_guest arm_target 0xffff0000 4096 3 50 (2 ^ 64 - 1) 0 (mm_start arm_target no_memory)) =
      Some (0xffff0000, l, k) /\
    owner (init_vma_list arm_target) 0x88000000 = None /\
    owner l 0x88000000 = Some VMA_MAP /\
    in_history k (0x88000000 + init_mmap_offset arm_target) = false.
Proof. eexists _, _. split; [vm_compute; reflexivity|]. by split_and!. Qed.

Definition fixed_map (addr len : Z) : guest_call := CallMmap addr len 3 50 (2 ^ 64 - 1) 0.

(** Filling a hole exactly leaves an empty descriptor between two mapped
    ones: the three pages are mapped, but [mremap] of them is refused with
    EFAULT. *)
Theorem filled_hole_not_merged :
  let calls := run_calls arm64_target
      [fixed_map 0x500000 0x1000; fixed_map 0x502000 0x1000; fixed_map 0x501000 0x1000] in
  exists l k, view ((_ ← calls; mret 0) arm64_ready) = Some (0, l, k) /\
    (forall x, 0x500000 <= x < 0x503000 -> owner l x = Some VMA_MAP) /\
    fst <$> (_ ← calls; internal_mremap arm64_target 0x500000 0x3000 0x2000 0 0) arm64_ready = Some (- EFAULT).
Proof.
  eexists _, _. split; [vm_compute; reflexivity|]. split; [|vm_compute; reflexivity].
  intros x Hx. cbn [owner]. unfold owns. cbn [start_addr end_addr vtype].
  repeat match goal with
  | |- context [?a <=? ?b] => destruct (Z.leb_spec a b)
  | |- context [?a <? ?b] => destruct (Z.ltb_spec a b)
  end; try lia; done.
Qed.

(** A hint with a length that wraps around the 64-bit address space stops
    the process, although the kernel would refuse the request. *)
Theorem hint_overflow_stops :
  fst <$> internal_mmap arm64_target 0x500000 (2 ^ 64 - 0xff000) 3 34 (2 ^ 64 - 1) 0 arm64_ready = None /\
  fst (sys_mmap 0x500000 (2 ^ 64 - 0xff000) 3 50 (-1) 0 no_memory) = - EINVAL.
Proof. split; vm_compute; reflexivity. Qed.

(** A fixed [mmap] that fails after the kernel has removed the old mappings
    of the range leaves the list claiming memory that is not there. *)
Theorem failed_fixed_mmap_stale :
  exists l k, view ((rs ← run_calls arm64_target [fixed_map 0x500000 0x2000;
                       CallMmap 0x500000 0x1000 3 50 unmappable_fd 0]; mret (nth 1 rs 0)) arm64_ready) = Some (- ENODEV, l, k) /\
    owner l 0x500000 = Some VMA_MAP /\ in_history k 0x500000 = false.
Proof. eexists _, _. split; [vm_compute; reflexivity|]. by split. Qed.

(** A [shmat] that the kernel refuses at an address in use leaves the list
    claiming that memory unmapped while it still is mapped: the next search
    may hand it out. *)
Theorem failed_shmat_unmaps :
  exists l k, view ((_ ← run_calls arm64_target [fixed_map 0x500000 0x2000];
                     internal_shmat arm64_target 1 0x500000 0) arm64_ready) = Some (- EINVAL, l, k) /\
    owner l 0x500000 = Some VMA_UNMAP /\ in_history k 0x500000 = true.
Proof. eexists _, _. split; [vm_compute; reflexivity|]. by split. Qed.

(** A [mremap] that moves a mapping whose size is not a multiple of the
    page size leaves the tail of its last page mapped in the list: the list
    and the kernel disagree, and the descriptor bounds are no longer aligned. *)
Theorem mremap_move_leaks :
  exists r l k, view ((_ ← run_calls arm64_target [fixed_map 0x500000 0x1800; fixed_map 0x502000 0x1000];
                       internal_mremap arm64_target 0x500000 0x1800 0x5000 1 0) arm64_ready) = Some (r, l, k) /\
    is_syscall_error r = false /\
    owner l 0x501900 = Some VMA_MAP /\ in_history k 0x501900 = false /\ ~ starts aligned l.
Proof.
  eexists _, _, _. split; [vm_compute; reflexivity|].
  split; [done|]. split; [done|]. split; [done|]. intros H.
  repeat (apply Forall_cons in H as [? H]; try done).
Qed.

(** ** Witnesses *)

Lemma arm64_ready_session : session_inv arm64_target 0x400000 0x7000001000 0x7000000000 no_loss arm64_ready.
Proof. split; [apply arm64_ready_ok|done]. Qed.

(** A run that returns has a final state. *)
Lemma run_state {A} (o : option (A * mm)) (a : A) : fst <$> o = Some a -> exists s, o = Some (a, s).
Proof. destruct o as [[a' s]|]; intros H; [|done]. injection H as <-. by exists s. Qed.

Lemma insert_area_correct_witness :
  exists s', insert_area 0x500000 0x502000 VMA_MAP arm64_ready = Some (tt, s') /\
    owner (vma_list s') 0x501000 = Some VMA_MAP.
Proof.
  destruct (insert_area_correct 0x400000 0x7000001000 arm64_ready 0x500000 0x502000 VMA_MAP)
    as (s' & E & _ & Ho & _); [by cbn; split_and!|done|done|done|done|vm_compute; lia|].
  exists s'. split; [exact E|]. by rewrite Ho.
Defined.

Lemma find_vma_safe_witness :
  alloc_result 0x400000 0x7000001000 arm64_ready (page_up 5000) (find_vma_with_kernel_choose arm64_target 5000 arm64_ready).
Proof.
  apply (find_vma_safe arm64_target 0x400000 0x7000001000 arm64_ready 5000 0);
    [apply arm64_target_ok|apply arm64_ready_ok|done|done|vm_compute; lia].
Defined.

Lemma mmap_correct_witness :
  (exists r s', internal_mmap arm64_target 0 5000 3 34 (2 ^ 64 - 1) 0 arm64_ready = Some (r, s') /\
    mmap_outcome arm64_target 0x400000 0x7000001000 0x7000000000 no_loss arm64_ready s' 0 5000 34 r) /\
  exists r s', internal_mmap arm64_target 0x500000 5000 3 50 unmappable_fd 0 arm64_ready = Some (r, s') /\
    mmap_outcome arm64_target 0x400000 0x7000001000 0x7000000000 no_loss arm64_ready s' 0x500000 5000 50 r.
Proof.
  split; apply (mmap_correct arm64_target 0x400000 0x7000001000 0x7000000000 no_loss);
    [apply arm64_target_ok|apply arm64_offset_ok|apply arm64_ready_ok|vm_compute; lia|done|done|intros Hf; discriminate Hf
    |apply arm64_target_ok|apply arm64_offset_ok|apply arm64_ready_ok|vm_compute; lia|done|done|done].
Defined.

Lemma munmap_correct_witness :
  exists r s', internal_munmap arm64_target 0x500000 4096 arm64_ready = Some (r, s') /\
    (is_syscall_error r = true /\ call_effect arm64_target 0x400000 0x7000001000 0x7000000000 no_loss 2 arm64_ready s'
       (owner (vma_list arm64_ready)) \/
     r = 0 /\ call_effect arm64_target 0x400000 0x7000001000 0x7000000000
       (regain 0x500000 (page_up (0x500000 + 4096)) no_loss) 2 arm64_ready s'
       (set_range 0x500000 (page_up (0x500000 + 4096)) VMA_UNMAP (owner (vma_list arm64_ready)))).
Proof.
  apply (munmap_correct arm64_target 0x400000 0x7000001000 0x7000000000 no_loss);
    [apply arm64_target_ok|apply arm64_offset_ok|apply arm64_ready_ok|vm_compute; lia|done|done|done].
Defined.

Definition demo_calls : list guest_call :=
  [CallMmap 0 5000 3 34 (2 ^ 64 - 1) 0; fixed_map 0x500000 0x3000; CallMunmap 0x501000 0x1000;
   CallMmap 0x502000 0x1000 3 50 unmappable_fd 0].

(** A session with a fixed request that fails: its page is all that is lost. *)
Lemma sessions_keep_agreement_witness :
  exists s', run_calls arm64_target demo_calls arm64_ready = Some ([0x4000000000; 0x500000; 0; - ENODEV], s') /\
    session_inv arm64_target 0x400000 0x7000001000 0x7000000000
      (lost_after demo_calls [0x4000000000; 0x500000; 0; - ENODEV] no_loss) s' /\
    lost_after demo_calls [0x4000000000; 0x500000; 0; - ENODEV] no_loss 0x502000 = true /\
    lost_after demo_calls [0x4000000000; 0x500000; 0; - ENODEV] no_loss 0x500000 = false.
Proof.
  destruct (run_state (run_calls arm64_target demo_calls arm64_ready)
      [0x4000000000; 0x500000; 0; - ENODEV]) as [s' E]; [vm_compute; reflexivity|].
  exists s'. split; [exact E|]. split; [|split; reflexivity].
  apply (sessions_keep_agreement arm64_target 0x400000 0x7000001000 0x7000000000 no_loss demo_calls arm64_ready s');
    [apply arm64_target_ok|apply arm64_offset_ok|apply arm64_ready_session| |exact E].
  repeat constructor; done.
Defined.

Lemma area_queries_sound_witness :
  exists s1, is_area_unmap 0x500000 0x502000 arm64_ready = Some (true, s1) /\ s1 = arm64_ready.
Proof.
  destruct (run_state (is_area_unmap 0x500000 0x502000 arm64_ready) true) as [s1 E];
    [|exists s1; split; [exact E|]].
  - vm_compute. reflexivity.
  - apply (area_queries_sound 0x400000 0x7000001000 arm64_ready arm64_ready s1 0x500000 0x502000);
      [apply arm64_ready_ok|done|done|done|exact E].
Defined.



